(* ===== verification/_CoqProject ===== *)
-Q . S2P
Prelude.v
Text.v
Monad.v
SyntaxKind.v
Chars.v
Numerals.v
JsNum.v
Keywords.v
Trivia.v
ScannerState.v
ScannerOps.v
Scanner.v
UnicodeProps.v
RegExp.v
ScannerInv.v
ScannerWp.v
ScannerSpec.v
RegExpWp.v
RegExpSpec.v
RegExpThm.v
ScannerLit.v
ScannerTotal.v
ScannerThm.v
ScannerPanic.v
ScannerFun.v
ScannerPunct.v
ScannerEscape.v
ScannerJsx.v
LineMap.v
TextWriter.v
Strs.v
Number.v
NumberThm.v
Escape.v
EscapeScan.v
EscapeThm.v
Semver.v
SemverOrder.v
SemverParse.v
SemverRange.v
SemverThm.v
Path.v
PathThm.v
PathRel.v
PrinterUtils.v
SourceMap.v
SourceMapThm.v
SourceMapGen.v
SourceMapSafe.v
Glob.v
GlobThm.v
Collections.v
CollectionsThm.v
CowMap.v
CoreTypes.v
FormatRules.v
FormatContext.v
FormatMap.v
FormatMapThm.v
FormatSelect.v
RescanTotal.v
Ast.v
Precedence.v
ParserState.v
ExprParser.v
ListParser.v
MemberParser.v
NameParser.v
TypeParser.v
FunctionParser.v
ParserInv.v
ExprGrammar.v
ParserTotal.v
ExprTotal.v
MemberTotal.v
TypeInv.v
TypeTotal.v
ExprThm.v
Evaluator.v
Bfs.v
