(* ===== verification/Prelude.v ===== *)
(** * Verification of the typescript-rs core

    typescript-rs is a port of the TypeScript compiler to Rust. This library models the parts of it that turn text
    into something the compiler can work with, by shallow embedding: each Rust function is a Rocq function of the same
    name, executable, and the theorems are about these functions. All paths below are under src/crates/.

    ** The parts and how they interact

    - Text. Prelude.v holds the notations, tactics and generic lemmas; Text.v the part of Rust's [str] and [char] the
      program uses (a text is the list of its UTF-8 bytes, a slice at a position that is not a character boundary is
      [None], the panic of Rust); Strs.v the functions of [str] on lists of characters; Numerals.v the digits of
      integers; Monad.v the state-and-panic monad [M] and its total correctness [wp].
    - Tokens. SyntaxKind.v ([Kind], [TokenFlags] of ts-ast), Chars.v (character classes and the Unicode tables of
      ts-scanner/src/scanner.rs), Keywords.v (the token tables and [get_identifier_token]).
    - The scanner of ts-scanner. ScannerState.v is the struct [Scanner] of lib.rs as the record [Scanner], with its
      primitive operations (reading characters, errors, [mark] and [rewind], comment directives); ScannerOps.v the
      methods that consume a piece of a token (digits, numbers, strings, templates, escapes, identifiers); Scanner.v
      [scan] with one definition per arm, the rescanning methods and the JSX methods. The scanner calls Trivia.v
      ([skip_trivia], conflict markers, comment ranges, also used by the parser and the formatter), Keywords.v and,
      for bigint literals, JsNum.v (ts-jsnum). A method on [&mut self] is a function of [M Scanner A]; its loops run
      with [loop_fuel], more iterations than the text has bytes.
    - Regular expressions. RegExp.v: [RegExpParser] of ts-scanner/src/regexp.rs, which borrows the scanner, with a
      definition per method or arm, over [M RegExpParser A]; and [rescan_slash_token] of scanner.rs, which finds the
      end of a literal and runs the parser for its errors. UnicodeProps.v: the names and values of Unicode properties
      (unicodeproperties.rs).
    - Positions. LineMap.v: the line start iterator of ts-core/src/core.rs and the conversions between positions and
      lines with byte or UTF-16 offsets of ts-scanner/src/scanner.rs. [TextPos] is [i32], so that the theorems bound
      the text by 2 GiB.
    - Numbers. Number.v: [Number] of ts-jsnum/src/lib.rs over doubles as IEEE 754 defines them, with the conversions
      to 32 bits, the bit operations, the order, hashing, and reading and printing.
    - The printer's ground floor, of ts-printer. Escape.v: how utilities.rs escapes strings, templates and JSX
      attributes; PrinterUtils.v: the names, comments and line caches of utilities.rs; TextWriter.v: the trait
      [EmitTextWriter] as a class with its two writers (textwriter.rs, singlelinestringwriter.rs) as instances. The
      printer proper, which walks the tree, calls them.
    - The rules of the formatter, of ts-format. FormatRules.v: rules, actions and token ranges (rule.rs) and the
      tables of rules.rs in their order; FormatContext.v: the context of a gap between two tokens and the predicates
      over it (context.rs, rulecontext.rs), against the interface [FormatAst] to the syntax tree; FormatMap.v: the
      buckets of rules per pair of tokens and the selection of rules (rulesmap.rs).
    - The parser of expressions and types, of ts-parser/src/parser.rs. CoreTypes.v and Ast.v: ranges, tristates, node
      flags and the nodes of ts-ast that expressions and types are made of; Precedence.v: precedence.rs of ts-ast;
      ParserState.v: the struct [Parser], which owns a [Scanner], with its steps over tokens, its errors, contexts and
      speculation ([mark], [rewind], [look_ahead]); ExprParser.v: comma, assignment, conditional, yield, binary, unary
      and update expressions; ListParser.v: lists with and without separators and the recovery from errors in them;
      MemberParser.v: names, literals, templates, member and call chains, [new], [super], [import] and the decision
      whether an arrow function starts; NameParser.v: what starts a statement, a member or a type, modifiers,
      decorators, property names, binding patterns, parameters, return types, bodies and accessors; TypeParser.v:
      types, from conditional types down to names; FunctionParser.v: object literals, function expressions and arrow
      functions. The methods of the source call each other in cycles. The classes cut them: [ExpressionParts] is what
      operators ask of their operands, implemented by MemberParser.v ([expression_parts]); [PrimaryParts] is what
      operands ask of types and functions, implemented by FunctionParser.v ([primary_parts]); [NestedParts] is what
      types and functions ask of the types and expressions inside them ([nested_parts], one level of nesting per unit
      of fuel); [ListStarts] is what lists ask of statements, members and types, implemented by NameParser.v
      ([list_starts]). [type_of_text] and [expression_of_text] tie the knot. What is left is [RestParts]: blocks of
      statements, classes, JSX and the check of JavaScript files.
    - Constants, of ts-evaluator/src/evaluator.rs. Evaluator.v: the evaluator of constant expressions over the trees
      of Ast.v and the numbers of Number.v; the callback that looks entities up, which the checker supplies, is an
      argument in the monad [M] over any state.
    - Versions of ts-semver/src/lib.rs. Semver.v: [Version] with parser, printer and order, and [VersionRange] with
      parser, printer and test. The increments of [u32] numbers panic or wrap around; the parameter [overflow_checks]
      says which build is meant.
    - Paths of ts-tspath/src/path.rs. Path.v: roots, components, normalization, directories, relative paths and
      comparison.
    - Source maps of ts-sourcemap. SourceMap.v: the generator of generator.rs, which encodes positions as base64
      digits while they are added, and the decoder of decoder.rs.
    - Globs of ts-glob/src/lib.rs. Glob.v: the parser, the printer and the matcher.
    - Collections. Collections.v: the ordered maps and sets and the multimaps of ts-collections, with the classes
      [OrderedDict] and [OrderedDictLaws] that say what a client may rely on; CowMap.v: the copy-on-write map of
      cow.rs over a heap of counted cells; Bfs.v: the breadth-first search of ts-core/src/bfs.rs, which uses an
      ordered map through those classes.

    ** What the theorems show

    The keywords, the precedences of operators, the radix of a prefix, the operators on numbers, the identifiers of
    versions and the groups of rules that these theorems speak of are stated a second time, from the language or the
    documentation, and proved to be those of the code.

    - Scanning. ScannerInv.v states the invariant of the scanner (its positions are character boundaries of the text)
      and the progress relation [Adv]; ScannerWp.v specifies the primitives and the tactics that execute a method
      symbolically; ScannerSpec.v, ScannerLit.v and ScannerTotal.v go up through the methods to [scan]. ScannerThm.v
      concludes: scanning is total and makes progress, the tokens of a text tile it, and speculation can be undone,
      for every text in which no backslash stands before a character of several bytes; ScannerPanic.v shows that this
      condition is needed, since [scan] panics there. ScannerFun.v, ScannerPunct.v and ScannerEscape.v say which token
      a text is and what its value is: words (against the list [keywords]), the longest punctuation, strings, extended
      escapes. ScannerJsx.v does JSX text, where a NUL character ends the file.
    - Regular expressions. RegExpWp.v: the relation [Ext] that every method keeps, a measure [mu] that decreases in
      every iteration (a character outside the basic plane takes two of them), and the tactics for it; RegExpSpec.v
      specifies every method with them. RegExpThm.v: the loop over the body is the lexical grammar, and rescanning a
      slash is total and yields such a literal or a reported unterminated one; ranges of classes compare code points.
      Two examples show where bytes are taken for characters, one of them a panic.
    - Tables. Chars.v: the binary search over the Unicode tables is membership. Keywords.v: the tables are inverse to
      each other and the keyword filter loses nothing.
    - Trivia.v and LineMap.v: skipping trivia and listing comments are total, with what they return characterised; the
      fast line iterator is its definition over characters; UTF-16 positions round-trip.
    - JsNum.v: the digits of a bigint literal are exactly its value in the radix of its prefix ([RadixLetter] of
      Numerals.v). NumberThm.v: the bit operations are those of JavaScript, numbers are ordered and hashed
      consistently, and a text with a radix prefix is read exactly below 2^53; above, an example shows that rounding
      every digit adds up. All operations keep doubles in canonical form, and [JsUnary], [JsBinary], [NumberText] and
      [NumeralValue] state operators, text and numerals apart from the code.
    - SemverOrder.v: [compare] is the precedence of the specification over unbounded numbers, and a total order.
      SemverParse.v: exactly which texts are read as which versions, and that they are those of the specification but
      for pre-release identifiers such as [1alpha], which the code rejects. SemverRange.v: testing a parsed range
      never panics and asks for the precedence of its operands, ranges round-trip through text. SemverThm.v: what
      caret, tilde and wildcard ranges accept, and two defects (overflow of an upper bound, an alternative lost in
      printing).
    - PathThm.v: roots are prefixes at character boundaries, the byte loops are their definitions over segments, the
      walk over ancestors ends, and two defects (normalizing [a/../], an extension inside a character). PathRel.v: a
      relative path leads to its target, up to case where the options ignore case, and normalization is idempotent,
      below the root of a disk and without backslashes.
    - SourceMapThm.v and SourceMapGen.v: decoding what a generator made gives back the mappings that an abstract
      machine collects from the same requests. SourceMapSafe.v: the decoder is total unless its shifts are checked for
      overflow.
    - GlobThm.v: printing undoes parsing; the matcher agrees with an inductive meaning, the documented one, of
      patterns without stars inside a segment in which nothing optional follows [**] and a slash and no slash follows
      a slash ([solid]); examples show what it misses otherwise, and with a star before a slash it matches nothing.
    - EscapeScan.v and EscapeThm.v: the scanner reads a printed literal back as one token with the same value, but for
      the characters of every second plane beyond the basic one, which the printer writes as another character.
      TextWriter.v: line and column of the writer are those of the text written, and its [i32] arithmetic does not
      overflow while indentations and the number of lines fit. PrinterUtils.v: the cached conversion of positions
      answers as an uncached one in any order of requests.
    - FormatMapThm.v: the map built by insertion at packed indices holds for every pair of tokens exactly its rules,
      by the documented priorities and then in the order of the tables, and no counter overflows. FormatSelect.v: the
      caches of the context never change an answer, and [get_rules] picks the first rule for the space and the first
      for the token that nothing stops.
    - Expressions and types. ExprGrammar.v is a grammar of binary and unary expressions as an inductive relation over
      parser states, whose levels are the list [operator_levels] of the language's precedences, and proves that the
      parser reads what it derives and nothing else. ParserInv.v and TypeInv.v: the computations that restore the
      contexts of the parser and only add errors, closed under its combinators, and what is [visible] of a state after
      speculation. RescanTotal.v: scanning a token again stays inside the text; ParserTotal.v, ExprTotal.v,
      MemberTotal.v and TypeTotal.v execute the parser symbolically over the number of bytes that remain, through
      operators, lists, members, types, functions and nesting. ExprThm.v concludes: the parser of operators and the
      grammar agree, the grammar is unambiguous, and of the whole parser of types and expressions contexts are
      restored, a speculation that fails leaves no trace, and parsing ends on every ASCII text without NUL, provided
      blocks, classes, JSX and the JavaScript check do; examples show a parenthesized [in] that the initializer of a
      [for] loop should accept and question marks that make too much of a tuple element optional.
    - Evaluator.v: the evaluator finds exactly the constants of an inductive definition over the operators, texts and
      numerals of NumberThm.v, asking for every entity once and in the order of the source, whatever the callback does
      as long as its numbers are doubles, and never panics.
    - CollectionsThm.v: the ordered map refines an association list, and applying a difference of maps gives the
      second. CowMap.v: no client can tell copy-on-write from copying. Bfs.v: the search ends and its path is
      shortest, proved against the class alone, for callbacks with effects that answer as a graph under an invariant,
      and without [preprocess_level], which the model has but the theorem does not: the builder of project collections
      passes one.

    ** Parameters

    Code outside the repository is a class: [JsNumber] (the parsing and printing of doubles by the standard library
    and ryu-js), [FloatLib] (decimal text and [powf] of the standard library, for Number.v) and [CaseMapping]
    ([char::to_lowercase]). So is [SpellingSuggestions], the suggestion for a misspelt name, whose distance ts-core
    computes with doubles over names in the order of a hash map, and [FormatAst], the syntax tree under the formatter.
    No law about them is assumed, except that the theorem on constants takes what the standard library documents of
    [FloatLib] ([FloatLaws]: parsing and [powf] give doubles, [{:.0}] prints the digits of an integer, [{:e}]
    scientific notation); the witnesses use concrete instances. Of [RestParts], which stands for other parts of the
    parser, the theorems on types and expressions assume that they restore the contexts ([FramedRest] of TypeInv.v) or
    end without leaving the text ([EndingRest] of TypeTotal.v); Module Sample of ExprThm.v is an instance. The
    corresponding laws of the classes inside the parser ([FramedParts], [FramedPrimary], [FramedNested],
    [FramedStarts]; [EndingParts], [EndingPrimary], [EndingNested], [EndingStarts]) are proved of their
    implementations. The boolean [overflow_checks] says whether integer overflow panics or wraps around, in versions
    and source maps; for the text writer it is the class [OverflowChecks].

    ** Fuel

    Where a Rust loop is not structural its model takes fuel and returns [None] or [OutOfFuel] when it runs out; the
    bound is a length of the text plus a constant (twice the length in the parser of regular expressions, whose groups
    and classes nest at most as deep as the text is long), or for the breadth-first search a number of levels, and the
    totality theorems show that it is enough. For a type or an expression the bytes of the text and two more are
    enough: every level of nesting and every round of a loop of the parser but the last consumes a token.

    ** What is not modelled

    Spelling suggestions, [get_common_parents] and extension.rs of ts-tspath, the source mapper and the serialized
    forms of source maps, the iterators of multimaps and the arenas of ts-collections, the spans and the indentation
    of the formatter, and most of what is behind the scanner: the parser's statements, declarations, classes, JSX and
    JSDoc (with the nodes it reparses into lists), the related information of its errors, the store of nodes with its
    parent links, the interning of identifiers, binder, checker, transformers, the printer's walk over the tree,
    language server and the file system. Of the struct [Scanner] the three caches that no method reads and the error
    callback are left out. *)
From stdpp Require Export base list numbers option strings.
From Stdlib Require Export ZArith Lia.

#[global] Open Scope Z_scope.

Declare Scope ts_scope.
Delimit Scope ts_scope with ts.

(** ** Bytes, characters and string literals

    A [byte] is an integer in [0, 256), a [char] a Unicode scalar value, and a Rust [str] the
    list of its UTF-8 bytes. *)
Abbreviation byte := Z (only parsing).
Abbreviation char := Z (only parsing).
Abbreviation bytes := (list Z) (only parsing).

Fixpoint bytes_of_string (s : string) : bytes :=
  match s with
  | EmptyString => []
  | String a r => Z.of_N (Ascii.N_of_ascii a) :: bytes_of_string r
  end.

Definition first_byte (s : string) : byte := hd 0 (bytes_of_string s).

(** [bstr "abc"] is the list of bytes of a literal, [chr "x"] the code of its first character; both are
    evaluated when the term is read, so that a statement holds plain numerals. *)
Notation "'bstr' s" := (ltac:(let x := eval vm_compute in (bytes_of_string s%string) in exact x))
  (at level 1, s at level 0, only parsing) : ts_scope.
Notation "'chr' s" := (ltac:(let x := eval vm_compute in (first_byte s%string) in exact x))
  (at level 1, s at level 0, only parsing) : ts_scope.
#[global] Open Scope ts_scope.

(** ** Automation *)
Create HintDb ts discriminated.

(** Turn boolean tests over [Z] and [nat] into propositions. *)
Ltac bool_to_prop :=
  repeat match goal with
  | H : (_ && _)%bool = true |- _ => apply andb_true_iff in H; destruct H
  | H : (_ || _)%bool = false |- _ => apply orb_false_iff in H; destruct H
  | H : negb _ = true |- _ => apply negb_true_iff in H
  | H : negb _ = false |- _ => apply negb_false_iff in H
  | H : (_ =? _)%Z = true |- _ => apply Z.eqb_eq in H
  | H : (_ =? _)%Z = false |- _ => apply Z.eqb_neq in H
  | H : (_ <=? _)%Z = true |- _ => apply Z.leb_le in H
  | H : (_ <=? _)%Z = false |- _ => apply Z.leb_gt in H
  | H : (_ <? _)%Z = true |- _ => apply Z.ltb_lt in H
  | H : (_ <? _)%Z = false |- _ => apply Z.ltb_ge in H
  | H : (_ =? _)%nat = true |- _ => apply Nat.eqb_eq in H
  | H : (_ =? _)%nat = false |- _ => apply Nat.eqb_neq in H
  | H : (_ <=? _)%nat = true |- _ => apply Nat.leb_le in H
  | H : (_ <=? _)%nat = false |- _ => apply Nat.leb_gt in H
  | H : (_ <? _)%nat = true |- _ => apply Nat.ltb_lt in H
  | H : (_ <? _)%nat = false |- _ => apply Nat.ltb_ge in H
  end.

(** Case analysis on the test of the first [if] or [match] of the goal. *)
Ltac case_if :=
  match goal with
  | |- context [if ?b then _ else _] => destruct b eqn:?; bool_to_prop
  end.

(** ** Lists *)
Lemma filter_all {A} (P : A -> Prop) `{!forall x, Decision (P x)} (l : list A) : Forall P l -> filter P l = l.
Proof. induction 1 as [|x l Hx _ IH]; [done|]. by rewrite filter_cons_True, IH. Qed.
