(* ===== verification/Text.v ===== *)
(** * Text: Rust strings

    The part of Rust's [str] and [char] the program uses: UTF-8 encoding and decoding, character
    boundaries and slicing. A [str] is the list of its UTF-8 bytes; slicing off a character boundary
    panics, which [slice] reports as [None]. *)
From S2P Require Import Prelude.

(** ** Encoding one character *)
Definition is_scalar (ch : char) : bool :=
  ((0 <=? ch) && (ch <? 55296)) || ((57344 <=? ch) && (ch <? 1114112)).

Definition len_utf8 (ch : char) : nat :=
  if ch <? 128 then 1 else if ch <? 2048 then 2 else if ch <? 65536 then 3 else 4.

Definition len_utf16 (ch : char) : Z := if ch <? 65536 then 1 else 2.

Definition utf8_encode (ch : char) : bytes :=
  if ch <? 128 then [ch]
  else if ch <? 2048 then [192 + ch / 64; 128 + ch mod 64]
  else if ch <? 65536 then [224 + ch / 4096; 128 + ch / 64 mod 64; 128 + ch mod 64]
  else [240 + ch / 262144; 128 + ch / 4096 mod 64; 128 + ch / 64 mod 64; 128 + ch mod 64].

Definition utf8 (cs : list char) : bytes := flat_map utf8_encode cs.

(** [next_char s] is [s.chars().next()] together with the character's size. *)
Definition next_char (bs : bytes) : option (char * nat) :=
  match bs with
  | [] => None
  | b0 :: r =>
      if b0 <? 128 then Some (b0, 1%nat)
      else if b0 <? 224 then Some ((b0 - 192) * 64 + (hd 128 r - 128), 2%nat)
      else if b0 <? 240 then
        Some ((b0 - 224) * 4096 + (hd 128 r - 128) * 64 + (nth 1 r 128 - 128), 3%nat)
      else
        Some ((b0 - 240) * 262144 + (hd 128 r - 128) * 4096 + (nth 1 r 128 - 128) * 64
              + (nth 2 r 128 - 128), 4%nat)
  end.

(** [s.chars().collect()]; the fuel is the number of bytes. *)
Fixpoint chars_fuel (fuel : nat) (bs : bytes) : list char :=
  match fuel with
  | O => []
  | S fuel =>
      match next_char bs with
      | None => []
      | Some (ch, size) => ch :: chars_fuel fuel (drop size bs)
      end
  end.
Definition chars (bs : bytes) : list char := chars_fuel (length bs) bs.

Definition is_boundary_byte (b : byte) : bool := (b <? 128) || (192 <=? b).

(** [s.is_char_boundary(i)] *)
Definition is_char_boundary (t : bytes) (i : nat) : bool :=
  match i with
  | O => true
  | _ => match t !! i with
         | None => (i =? length t)%nat
         | Some b => is_boundary_byte b
         end
  end.

(** [&s[i..j]], [None] where Rust panics. *)
Definition slice (t : bytes) (i j : nat) : option bytes :=
  if (i <=? j)%nat && is_char_boundary t i && is_char_boundary t j
  then Some (take (j - i) (drop i t)) else None.

(** What every Rust [str] is: the encoding of a sequence of scalar values. *)
Definition valid_utf8 (t : bytes) : Prop :=
  exists cs, Forall (fun ch => is_scalar ch = true) cs /\ t = utf8 cs.

Definition is_ascii (t : bytes) : bool := forallb (fun b => (0 <=? b) && (b <? 128)) t.

(** ** Searching *)
Definition starts_with (p s : bytes) : bool := bool_decide (take (length p) s = p).
Definition ends_with (p s : bytes) : bool :=
  bool_decide (drop (length s - length p) s = p).

(** Index of the first byte satisfying [p]. *)
Fixpoint find_index (p : byte -> bool) (s : bytes) : option nat :=
  match s with
  | [] => None
  | b :: r => if p b then Some 0%nat else S <$> find_index p r
  end.

(** [while pos < end && p(text[pos]) { pos += 1 }] *)
Definition skip_while (p : byte -> bool) (text : bytes) (pos end_ : nat) : nat :=
  match find_index (fun b => negb (p b)) (take (end_ - pos) (drop pos text)) with
  | Some offset => (pos + offset)%nat
  | None => Nat.max pos end_
  end.

(** [s.find(needle)] *)
Fixpoint find_sub (needle s : bytes) : option nat :=
  if starts_with needle s then Some 0%nat
  else match s with
       | [] => None
       | _ :: r => S <$> find_sub needle r
       end.

(** ** Integers *)
Definition as_i32 (x : Z) : Z := (x + 2 ^ 31) mod 2 ^ 32 - 2 ^ 31.

Lemma as_i32_id z : - 2 ^ 31 <= z < 2 ^ 31 -> as_i32 z = z.
Proof. intros Hz. unfold as_i32. rewrite Z.mod_small by lia. lia. Qed.

(** ** Facts about encoding *)
Lemma length_utf8_encode ch : length (utf8_encode ch) = len_utf8 ch.
Proof. unfold utf8_encode, len_utf8. by repeat case_if. Qed.

Lemma len_utf8_pos ch : (1 <= len_utf8 ch <= 4)%nat.
Proof. unfold len_utf8. repeat case_if; lia. Qed.

Ltac zdiv := Z.div_mod_to_equations; lia.

Lemma next_char_encode ch r :
  is_scalar ch = true -> next_char (utf8_encode ch ++ r) = Some (ch, len_utf8 ch).
Proof.
  intros Hs. unfold is_scalar in Hs.
  assert (0 <= ch < 1114112) as Hch.
  { apply orb_true_iff in Hs as [Hs|Hs]; bool_to_prop; lia. }
  unfold utf8_encode, len_utf8, next_char.
  repeat case_if; cbn -[Z.ltb Z.sub Z.mul Z.add Z.div Z.modulo] in *;
    repeat case_if; try (f_equal; f_equal); zdiv.
Qed.

(** The first byte of an encoding starts a character, the others continue it. *)
Lemma encode_bytes ch k b :
  is_scalar ch = true -> utf8_encode ch !! k = Some b ->
  is_boundary_byte b = (k =? 0)%nat /\ 0 <= b < 256.
Proof.
  intros Hs. unfold is_scalar in Hs.
  assert (0 <= ch < 1114112) as Hch.
  { apply orb_true_iff in Hs as [Hs|Hs]; bool_to_prop; lia. }
  unfold utf8_encode, is_boundary_byte.
  repeat case_if; intros Hk;
    repeat (destruct k as [|k]; [cbn in Hk; injection Hk as <-|]);
    try (by destruct k); cbn [Nat.eqb]; (split; [|zdiv]);
    first [apply orb_true_iff | apply orb_false_iff; split];
    rewrite ?Z.ltb_lt, ?Z.leb_le, ?Z.ltb_ge, ?Z.leb_gt; zdiv.
Qed.

Lemma utf8_app cs1 cs2 : utf8 (cs1 ++ cs2) = utf8 cs1 ++ utf8 cs2.
Proof. unfold utf8. apply flat_map_app. Qed.

Lemma length_utf8_cons ch cs : length (utf8 (ch :: cs)) = (len_utf8 ch + length (utf8 cs))%nat.
Proof. cbn. by rewrite length_app, length_utf8_encode. Qed.

(** A boundary splits the characters of a text in two. *)
Lemma boundary_split t i :
  valid_utf8 t -> is_char_boundary t i = true -> (i <= length t)%nat ->
  exists cs1 cs2, Forall (fun ch => is_scalar ch = true) (cs1 ++ cs2)
    /\ t = utf8 cs1 ++ utf8 cs2 /\ length (utf8 cs1) = i.
Proof.
  intros [cs [Hcs ->]]. revert i. induction Hcs as [|ch cs Hch Hcs IH]; intros i Hb Hi.
  { exists [], []. cbn in *. split; [done|]. split; [done|]. lia. }
  destruct (decide (i = 0%nat)) as [->|Hi0].
  { exists [], (ch :: cs). by split; [constructor|]. }
  rewrite length_utf8_cons in Hi.
  destruct (decide (i < len_utf8 ch)%nat) as [Hlt|Hge].
  - exfalso. destruct i as [|i]; [lia|]. unfold is_char_boundary in Hb. cbn [utf8 flat_map] in Hb.
    rewrite lookup_app_l in Hb by (rewrite length_utf8_encode; lia).
    destruct (utf8_encode ch !! S i) as [b|] eqn:E.
    + apply encode_bytes in E as [E _]; [|done]. cbn in E. congruence.
    + apply lookup_ge_None in E. rewrite length_utf8_encode in E. lia.
  - destruct (IH (i - len_utf8 ch)%nat) as (cs1 & cs2 & H1 & H2 & H3).
    + unfold is_char_boundary in Hb |- *. cbn [utf8 flat_map] in Hb.
      destruct i as [|i]; [lia|].
      rewrite lookup_app_r in Hb by (rewrite length_utf8_encode; lia).
      rewrite length_utf8_encode in Hb.
      destruct (S i - len_utf8 ch)%nat eqn:E; [done|].
      change (flat_map utf8_encode cs) with (utf8 cs) in Hb.
      destruct (utf8 cs !! S n); [done|]. rewrite length_app, length_utf8_encode in Hb.
      apply Nat.eqb_eq in Hb. apply Nat.eqb_eq. fold (utf8 cs) in Hb. lia.
    + lia.
    + exists (ch :: cs1), cs2. split; [by constructor|]. split.
      * cbn. rewrite <- app_assoc. f_equal. exact H2.
      * rewrite length_utf8_cons. lia.
Qed.

Lemma is_char_boundary_len t : is_char_boundary t (length t) = true.
Proof.
  unfold is_char_boundary. destruct (length t) eqn:E; [done|].
  assert (t !! S n = None) as -> by (apply lookup_ge_None; lia). apply Nat.eqb_refl.
Qed.

Lemma is_char_boundary_app cs1 cs2 :
  Forall (fun ch => is_scalar ch = true) cs2 ->
  is_char_boundary (utf8 cs1 ++ utf8 cs2) (length (utf8 cs1)) = true.
Proof.
  intros H. unfold is_char_boundary. destruct (length (utf8 cs1)) eqn:E; [done|].
  rewrite lookup_app_r by lia. rewrite E, Nat.sub_diag.
  inversion H as [|ch cs Hch Hcs]; subst; cbn.
  { rewrite app_nil_r, E. apply Nat.eqb_refl. }
  assert (0 < length (utf8_encode ch))%nat as Hl.
  { rewrite length_utf8_encode. pose proof (len_utf8_pos ch). lia. }
  rewrite lookup_app_l by done. destruct (utf8_encode ch !! 0%nat) eqn:Eb.
  - by apply encode_bytes in Eb as [-> _].
  - apply lookup_ge_None in Eb. lia.
Qed.

(** What reading a character at a boundary inside a text gives. *)
Record char_at_spec (t : bytes) (i : nat) (ch : char) (size : nat) : Prop := {
  cas_scalar : is_scalar ch = true;
  cas_size : size = len_utf8 ch;
  cas_pos : (1 <= size <= 4)%nat;
  cas_bound : (i + size <= length t)%nat;
  cas_next : is_char_boundary t (i + size) = true;
  cas_take : take size (drop i t) = utf8_encode ch;
  cas_inner : forall j, (i < j < i + size)%nat -> is_char_boundary t j = false;
}.

Lemma next_char_at t i :
  valid_utf8 t -> is_char_boundary t i = true -> (i < length t)%nat ->
  exists ch size, next_char (drop i t) = Some (ch, size) /\ char_at_spec t i ch size.
Proof.
  intros Hv Hb Hi. destruct (boundary_split t i Hv Hb) as (cs1 & cs2 & Hcs & -> & <-); [lia|].
  destruct cs2 as [|ch cs2]; [rewrite length_app in Hi; cbn in Hi; lia|].
  apply Forall_app in Hcs as [Hcs1 Hcs2]. inversion Hcs2 as [|? ? Hch Hcs2']; subst.
  exists ch, (len_utf8 ch). rewrite drop_app_length. cbn [utf8 flat_map].
  change (flat_map utf8_encode cs2) with (utf8 cs2).
  split; [by apply next_char_encode|].
  pose proof (length_utf8_encode ch) as Hl. pose proof (len_utf8_pos ch) as Hp.
  split; [done|done|done| | | |].
  - rewrite !length_app. lia.
  - rewrite app_assoc. replace (length (utf8 cs1) + len_utf8 ch)%nat
      with (length (utf8 (cs1 ++ [ch]))).
    2: { rewrite utf8_app, length_app. cbn. rewrite app_nil_r. lia. }
    replace (utf8 cs1 ++ utf8_encode ch) with (utf8 (cs1 ++ [ch])).
    2: { rewrite utf8_app. cbn. by rewrite app_nil_r. }
    by apply is_char_boundary_app.
  - rewrite drop_app_length. rewrite <- Hl. apply take_app_length.
  - intros j Hj. unfold is_char_boundary. destruct j as [|j]; [lia|].
    rewrite lookup_app_r by lia. rewrite lookup_app_l by lia.
    destruct (utf8_encode ch !! (S j - length (utf8 cs1))%nat) eqn:E.
    + apply encode_bytes in E as [-> _]; [|done]. apply Nat.eqb_neq. lia.
    + apply lookup_ge_None in E. lia.
Qed.

Lemma char_at_ascii t i ch size :
  char_at_spec t i ch size -> ch < 128 -> t !! i = Some ch /\ size = 1%nat.
Proof.
  intros H Hlt. pose proof (cas_take _ _ _ _ H) as Ht. pose proof (cas_size _ _ _ _ H) as Hs.
  unfold len_utf8 in Hs. unfold utf8_encode in Ht.
  assert ((ch <? 128) = true) as E by (by apply Z.ltb_lt). rewrite E in Hs, Ht. subst size.
  split; [|done]. rewrite <- (Nat.add_0_r i), <- lookup_drop.
  destruct (drop i t) as [|b r]; [done|]. cbn in Ht |- *. congruence.
Qed.

(** A byte below 128 is a character of its own: both its ends are boundaries. *)
Lemma ascii_byte_boundary t i b :
  valid_utf8 t -> t !! i = Some b -> b < 128 ->
  is_char_boundary t i = true /\ is_char_boundary t (S i) = true.
Proof.
  intros Hv Hb Hlt.
  assert (is_char_boundary t i = true) as Hbi.
  { unfold is_char_boundary. destruct i; [done|]. rewrite Hb. unfold is_boundary_byte.
    apply orb_true_iff. left. by apply Z.ltb_lt. }
  split; [done|].
  destruct (next_char_at t i Hv Hbi) as (ch & size & Hn & Hs); [by eapply lookup_lt_Some|].
  assert (ch = b /\ size = 1%nat) as [-> ->].
  { rewrite (drop_S _ b) in Hn by done. cbn in Hn.
    assert ((b <? 128) = true) as E by (by apply Z.ltb_lt). rewrite E in Hn.
    by injection Hn as <- <-. }
  pose proof (cas_next _ _ _ _ Hs). by replace (S i) with (i + 1)%nat by lia.
Qed.

Lemma valid_utf8_byte t i b : valid_utf8 t -> t !! i = Some b -> 0 <= b < 256.
Proof.
  intros [cs [Hcs ->]]. revert i. induction Hcs as [|ch cs Hch Hcs IH]; intros i; cbn; [done|].
  intros Hb. apply lookup_app_Some in Hb as [Hb|[_ Hb]]; [|by eapply IH].
  by eapply encode_bytes in Hb as [_ ?].
Qed.

Lemma is_ascii_valid t : is_ascii t = true -> valid_utf8 t.
Proof.
  intros H. exists t. induction t as [|b t IH]; [split; [constructor|done]|].
  cbn in H. apply andb_true_iff in H as [H1 H2]. bool_to_prop. destruct (IH H2) as [H3 H4].
  split.
  - constructor; [|done]. unfold is_scalar. apply orb_true_iff. left.
    apply andb_true_iff. rewrite Z.leb_le, Z.ltb_lt. lia.
  - cbn. unfold utf8_encode. assert ((b <? 128) = true) as -> by (by apply Z.ltb_lt).
    cbn. by f_equal.
Qed.

Lemma slice_some t i j :
  (i <= j)%nat -> is_char_boundary t i = true -> is_char_boundary t j = true ->
  slice t i j = Some (take (j - i) (drop i t)).
Proof.
  intros Hij Hi Hj. unfold slice. rewrite Hi, Hj.
  by rewrite (proj2 (Nat.leb_le _ _) Hij).
Qed.

(** ** [chars] inverts [utf8] *)
Lemma chars_fuel_utf8 cs fuel :
  Forall (fun ch => is_scalar ch = true) cs -> (length (utf8 cs) <= fuel)%nat ->
  chars_fuel fuel (utf8 cs) = cs.
Proof.
  intros H. revert fuel. induction H as [|ch cs Hch Hcs IH]; intros fuel Hf.
  { by destruct fuel. }
  rewrite length_utf8_cons in Hf. pose proof (len_utf8_pos ch).
  destruct fuel as [|fuel]; [lia|]. cbn [utf8 flat_map chars_fuel].
  rewrite next_char_encode by done. f_equal.
  rewrite <- (length_utf8_encode ch), drop_app_length. apply IH. lia.
Qed.

Lemma chars_utf8 cs :
  Forall (fun ch => is_scalar ch = true) cs -> chars (utf8 cs) = cs.
Proof. intros H. by apply chars_fuel_utf8. Qed.

(** ** ASCII text: bytes and characters coincide *)
Lemma ascii_utf8 t : is_ascii t = true -> utf8 t = t.
Proof.
  induction t as [|b t IH]; [done|]. cbn. intros H. apply andb_true_iff in H as [H1 H2].
  bool_to_prop. unfold utf8_encode. assert ((b <? 128) = true) as -> by (by apply Z.ltb_lt).
  cbn. f_equal. by apply IH.
Qed.

Lemma ascii_chars t : is_ascii t = true -> chars t = t.
Proof.
  intros H. rewrite <- (ascii_utf8 t H) at 1. apply chars_utf8.
  induction t as [|b t IH]; [constructor|]. cbn in H. apply andb_true_iff in H as [H1 H2].
  bool_to_prop. constructor; [|auto]. unfold is_scalar. apply orb_true_iff. left.
  apply andb_true_iff. rewrite Z.leb_le, Z.ltb_lt. lia.
Qed.

(** ** Searching *)
Lemma find_index_Some p s i :
  find_index p s = Some i ->
  exists b, s !! i = Some b /\ p b = true /\ forall j b', (j < i)%nat -> s !! j = Some b' -> p b' = false.
Proof.
  revert i. induction s as [|b s IH]; intros i H; [done|]. cbn in H. destruct (p b) eqn:Eb.
  - injection H as <-. exists b. split; [done|]. split; [done|]. intros; lia.
  - destruct (find_index p s) as [k|]; [|done]. injection H as <-.
    destruct (IH k eq_refl) as (b' & H1 & H2 & H3). exists b'. split; [done|]. split; [done|].
    intros [|j] b'' Hj Hb; cbn in Hb; [congruence|]. eapply H3; [|done]. lia.
Qed.

Lemma find_index_None p s : find_index p s = None <-> forall i b, s !! i = Some b -> p b = false.
Proof.
  induction s as [|b s IH]; cbn; [done|]. destruct (p b) eqn:Eb.
  - split; [done|]. intros H. specialize (H 0%nat b eq_refl). congruence.
  - destruct (find_index p s) as [k|]; cbn.
    + split; [done|]. intros H. assert (Some k = None); [|done]. apply IH. intros i. apply (H (S i)).
    + split; [|done]. intros _ [|i] b'; cbn; [congruence|]. by apply IH.
Qed.

Lemma starts_with_spec p s : starts_with p s = true <-> exists r, s = p ++ r.
Proof.
  unfold starts_with. rewrite bool_decide_eq_true. split.
  - intros H. exists (drop (length p) s). rewrite <- H at 1. by rewrite take_drop.
  - intros [r ->]. apply take_app_length.
Qed.

Lemma find_sub_Some needle s i :
  find_sub needle s = Some i -> starts_with needle (drop i s) = true /\ (i <= length s)%nat.
Proof.
  revert i. induction s as [|b s IH]; intros i H; cbn in H.
  - destruct (starts_with needle []) eqn:E; [|done]. injection H as <-. by split.
  - destruct (starts_with needle (b :: s)) eqn:E; [injection H as <-; split; [done|lia]|].
    destruct (find_sub needle s) as [k|]; [|done]. injection H as <-.
    destruct (IH k eq_refl). split; [done|]. cbn. lia.
Qed.

#[export] Hint Resolve is_char_boundary_len is_ascii_valid : ts.
