(* ===== verification/Monad.v ===== *)
(** * Monad: stateful code that can panic

    A method [fn f(&mut self) -> A] is a function [M S A] from the state to an [outcome]: the
    result with the next state, [Panic] where Rust panics, and [OutOfFuel] where a loop of the model
    was given too few iterations. [wp m Q s] is total correctness: started in [s], [m] neither
    panics nor runs out of fuel, and its result and final state satisfy [Q]. *)
From S2P Require Import Prelude.

Inductive outcome (A : Type) : Type :=
  | Ok (a : A)
  | Panic
  | OutOfFuel.
Arguments Ok {A} _.
Arguments Panic {A}.
Arguments OutOfFuel {A}.

Definition M (S A : Type) : Type := S -> outcome (A * S).

Section operations.
Context {S : Type}.

#[global] Instance M_ret : MRet (M S) := fun A a s => Ok (a, s).
#[global] Instance M_bind : MBind (M S) := fun A B f m s =>
  match m s with
  | Ok (a, s') => f a s'
  | Panic => Panic
  | OutOfFuel => OutOfFuel
  end.

#[global] Instance M_fmap : FMap (M S) := fun A B f m => m ≫= fun a => mret (f a).

Definition panic {A} : M S A := fun _ => Panic.
Definition get : M S S := fun s => Ok (s, s).
Definition gets {A} (f : S -> A) : M S A := fun s => Ok (f s, s).
Definition modify (f : S -> S) : M S unit := fun s => Ok (tt, f s).

(** [e.unwrap()], and every operation whose failure is a panic. *)
Definition unwrap {A} (o : option A) : M S A :=
  match o with Some a => mret a | None => panic end.

Definition when (b : bool) (m : M S unit) : M S unit := if b then m else mret tt.

(** [loop { body }] over local variables [L]: [inl] continues with new values of them, [inr] breaks
    with a result. *)
Fixpoint iter {L A} (fuel : nat) (body : L -> M S (L + A)) (l : L) : M S A :=
  match fuel with
  | O => fun _ => OutOfFuel
  | Datatypes.S fuel =>
      r ← body l;
      match r with
      | inl l' => iter fuel body l'
      | inr a => mret a
      end
  end.
End operations.

(** ** Total correctness *)
Section wp.
Context {S : Type}.

Definition wp {A} (m : M S A) (Q : A -> S -> Prop) (s : S) : Prop :=
  match m s with
  | Ok (a, s') => Q a s'
  | Panic | OutOfFuel => False
  end.

Lemma wp_ret {A} (a : A) Q s : Q a s -> wp (mret a) Q s.
Proof. done. Qed.

Lemma wp_bind {A B} (m : M S A) (f : A -> M S B) Q s :
  wp m (fun a s' => wp (f a) Q s') s -> wp (m ≫= f) Q s.
Proof. unfold wp, mbind, M_bind. by destruct (m s) as [[a s']| |]. Qed.

Lemma wp_fmap {A B} (g : A -> B) (m : M S A) Q s :
  wp m (fun a s' => Q (g a) s') s -> wp (g <$> m) Q s.
Proof. intros H. by apply wp_bind. Qed.

Lemma wp_mono {A} (m : M S A) (P Q : A -> S -> Prop) s :
  wp m P s -> (forall a s', P a s' -> Q a s') -> wp m Q s.
Proof. unfold wp. destruct (m s) as [[a s']| |]; auto. Qed.

Lemma wp_modify f Q s : Q tt (f s) -> wp (modify f) Q s.
Proof. done. Qed.
Lemma wp_gets {A} (f : S -> A) Q s : Q (f s) s -> wp (gets f) Q s.
Proof. done. Qed.
Lemma wp_get Q s : Q s s -> wp get Q s.
Proof. done. Qed.
Lemma wp_unwrap {A} (o : option A) Q s :
  (exists a, o = Some a /\ Q a s) -> wp (unwrap o) Q s.
Proof. by intros (a & -> & H). Qed.
Lemma wp_if {A} (b : bool) (m1 m2 : M S A) Q s :
  (b = true -> wp m1 Q s) -> (b = false -> wp m2 Q s) -> wp (if b then m1 else m2) Q s.
Proof. destruct b; auto. Qed.
Lemma wp_when (b : bool) m Q s :
  (b = true -> wp m Q s) -> (b = false -> Q tt s) -> wp (when b m) Q s.
Proof. intros H1 H2. destruct b; [by apply H1|by apply H2]. Qed.

(** A run that [wp] describes exists. *)
Lemma wp_run {A} (m : M S A) Q s :
  wp m Q s <-> exists a s', m s = Ok (a, s') /\ Q a s'.
Proof.
  unfold wp. split.
  - destruct (m s) as [[a s']| |]; naive_solver.
  - by intros (a & s' & -> & ?).
Qed.

(** Computing with runs. *)
Lemma run_bind {A B} (m : M S A) (f : A -> M S B) s a s' :
  m s = Ok (a, s') -> (m ≫= f) s = f a s'.
Proof. unfold mbind, M_bind. by intros ->. Qed.
Lemma panic_bind {A B} (m : M S A) (f : A -> M S B) s : m s = Panic -> (m ≫= f) s = Panic.
Proof. unfold mbind, M_bind. by intros ->. Qed.
Lemma run_fmap {A B} (f : A -> B) (m : M S A) s a s' :
  m s = Ok (a, s') -> (f <$> m) s = Ok (f a, s').
Proof. unfold fmap, M_fmap. intros H. by rewrite (run_bind _ _ _ _ _ H). Qed.

(** Loops: an invariant [I] over the local variables and the state that every iteration keeps while
    decreasing a measure, with as much fuel as the measure allows iterations. *)
Lemma wp_iter {L A} (body : L -> M S (L + A)) (I : L -> S -> Prop) (measure : L -> S -> nat)
    (Q : A -> S -> Prop) fuel l s :
  (forall l s, I l s ->
     wp (body l) (fun r s' =>
       match r with
       | inl l' => I l' s' /\ (measure l' s' < measure l s)%nat
       | inr a => Q a s'
       end) s) ->
  I l s -> (measure l s < fuel)%nat -> wp (iter fuel body l) Q s.
Proof.
  intros Hbody. revert l s. induction fuel as [|fuel IH]; intros l s HI Hf; [lia|].
  cbn [iter]. apply wp_bind. eapply wp_mono; [by apply Hbody|].
  intros [l'|a] s'; [|done]. intros [HI' Hm]. apply IH; [done|lia].
Qed.

(** More fuel never changes a result. *)
Lemma iter_fuel_mono {L A} (body : L -> M S (L + A)) f1 f2 l s r :
  (f1 <= f2)%nat -> iter f1 body l s = r -> r <> OutOfFuel -> iter f2 body l s = r.
Proof.
  revert f2 l s. induction f1 as [|f1 IH]; intros f2 l s Hle Hr Hne; [by subst|].
  destruct f2 as [|f2]; [lia|]. cbn [iter] in *. unfold mbind, M_bind in *.
  destruct (body l s) as [[[l'|a] s']| |]; try done. apply IH; [lia|done|done].
Qed.
End wp.

Arguments wp : simpl never.

(** One step of symbolic execution on the head of the program. *)
Ltac wp_step :=
  lazymatch goal with
  | |- wp (_ ≫= _) _ _ => apply wp_bind
  | |- wp (_ <$> _) _ _ => apply wp_fmap
  | |- wp (mret _) _ _ => apply wp_ret
  | |- wp (modify _) _ _ => apply wp_modify
  | |- wp (gets _) _ _ => apply wp_gets
  | |- wp get _ _ => apply wp_get
  | |- wp (when _ _) _ _ => apply wp_when; intros
  | |- wp (if _ then _ else _) _ _ => apply wp_if; intros
  end.

(** Run the first command of the goal [(m ≫= f) s = _], whose run [H] states. *)
Tactic Notation "run_with" uconstr(H) := erewrite run_bind; [|eapply H].
