(* ===== verification/SyntaxKind.v ===== *)
(** * SyntaxKind: the kinds of tokens and nodes, and token flags

    Models [Kind] of ts-ast/src/kind_generated.rs and [TokenFlags] of ts-ast/src/tokenflags.rs.
    Discriminants are the positions in the declaration, as [repr(i16)] numbers them. *)
From S2P Require Import Prelude.

Module Kind.
(** [ParameterKind] is the variant [Parameter]; every other constructor has the name of its
  variant. *)
Inductive t : Type :=
| Unknown | EndOfFile | SingleLineCommentTrivia | MultiLineCommentTrivia | NewLineTrivia
| WhitespaceTrivia | ConflictMarkerTrivia | NonTextFileMarkerTrivia | NumericLiteral
| BigIntLiteral | StringLiteral | JsxText | JsxTextAllWhiteSpaces | RegularExpressionLiteral
| NoSubstitutionTemplateLiteral | TemplateHead | TemplateMiddle | TemplateTail
| OpenBraceToken | CloseBraceToken | OpenParenToken | CloseParenToken | OpenBracketToken
| CloseBracketToken | DotToken | DotDotDotToken | SemicolonToken | CommaToken
| QuestionDotToken | LessThanToken | LessThanSlashToken | GreaterThanToken
| LessThanEqualsToken | GreaterThanEqualsToken | EqualsEqualsToken | ExclamationEqualsToken
| EqualsEqualsEqualsToken | ExclamationEqualsEqualsToken | EqualsGreaterThanToken | PlusToken
| MinusToken | AsteriskToken | AsteriskAsteriskToken | SlashToken | PercentToken
| PlusPlusToken | MinusMinusToken | LessThanLessThanToken | GreaterThanGreaterThanToken
| GreaterThanGreaterThanGreaterThanToken | AmpersandToken | BarToken | CaretToken
| ExclamationToken | TildeToken | AmpersandAmpersandToken | BarBarToken | QuestionToken
| ColonToken | AtToken | QuestionQuestionToken | BacktickToken | HashToken | EqualsToken
| PlusEqualsToken | MinusEqualsToken | AsteriskEqualsToken | AsteriskAsteriskEqualsToken
| SlashEqualsToken | PercentEqualsToken | LessThanLessThanEqualsToken
| GreaterThanGreaterThanEqualsToken | GreaterThanGreaterThanGreaterThanEqualsToken
| AmpersandEqualsToken | BarEqualsToken | BarBarEqualsToken | AmpersandAmpersandEqualsToken
| QuestionQuestionEqualsToken | CaretEqualsToken | Identifier | PrivateIdentifier
| BreakKeyword | CaseKeyword | CatchKeyword | ClassKeyword | ConstKeyword | ContinueKeyword
| DebuggerKeyword | DefaultKeyword | DeleteKeyword | DoKeyword | ElseKeyword | EnumKeyword
| ExportKeyword | ExtendsKeyword | FalseKeyword | FinallyKeyword | ForKeyword
| FunctionKeyword | IfKeyword | ImportKeyword | InKeyword | InstanceOfKeyword | NewKeyword
| NullKeyword | ReturnKeyword | SuperKeyword | SwitchKeyword | ThisKeyword | ThrowKeyword
| TrueKeyword | TryKeyword | TypeOfKeyword | VarKeyword | VoidKeyword | WhileKeyword
| WithKeyword | ImplementsKeyword | InterfaceKeyword | LetKeyword | PackageKeyword
| PrivateKeyword | ProtectedKeyword | PublicKeyword | StaticKeyword | YieldKeyword
| AbstractKeyword | AccessorKeyword | AsKeyword | AssertsKeyword | AssertKeyword | AnyKeyword
| AsyncKeyword | AwaitKeyword | BooleanKeyword | ConstructorKeyword | DeclareKeyword
| GetKeyword | ImmediateKeyword | InferKeyword | IntrinsicKeyword | IsKeyword | KeyOfKeyword
| ModuleKeyword | NamespaceKeyword | NeverKeyword | OutKeyword | ReadonlyKeyword
| RequireKeyword | NumberKeyword | ObjectKeyword | SatisfiesKeyword | SetKeyword
| StringKeyword | SymbolKeyword | TypeKeyword | UndefinedKeyword | UniqueKeyword
| UnknownKeyword | UsingKeyword | FromKeyword | GlobalKeyword | BigIntKeyword
| OverrideKeyword | OfKeyword | DeferKeyword | QualifiedName | ComputedPropertyName
| TypeParameter | ParameterKind | Decorator | PropertySignature | PropertyDeclaration
| MethodSignature | MethodDeclaration | ClassStaticBlockDeclaration | Constructor
| GetAccessor | SetAccessor | CallSignature | ConstructSignature | IndexSignature
| TypePredicate | TypeReference | FunctionType | ConstructorType | TypeQuery | TypeLiteral
| ArrayType | TupleType | OptionalType | RestType | UnionType | IntersectionType
| ConditionalType | InferType | ParenthesizedType | ThisType | TypeOperator
| IndexedAccessType | MappedType | LiteralType | NamedTupleMember | TemplateLiteralType
| TemplateLiteralTypeSpan | ImportType | ObjectBindingPattern | ArrayBindingPattern
| BindingElement | ArrayLiteralExpression | ObjectLiteralExpression
| PropertyAccessExpression | ElementAccessExpression | CallExpression | NewExpression
| TaggedTemplateExpression | TypeAssertionExpression | ParenthesizedExpression
| FunctionExpression | ArrowFunction | DeleteExpression | TypeOfExpression | VoidExpression
| AwaitExpression | PrefixUnaryExpression | PostfixUnaryExpression | BinaryExpression
| ConditionalExpression | TemplateExpression | YieldExpression | SpreadElement
| ClassExpression | OmittedExpression | ExpressionWithTypeArguments | AsExpression
| NonNullExpression | MetaProperty | SyntheticExpression | SatisfiesExpression | TemplateSpan
| SemicolonClassElement | Block | EmptyStatement | VariableStatement | ExpressionStatement
| IfStatement | DoStatement | WhileStatement | ForStatement | ForInStatement | ForOfStatement
| ContinueStatement | BreakStatement | ReturnStatement | WithStatement | SwitchStatement
| LabeledStatement | ThrowStatement | TryStatement | DebuggerStatement | VariableDeclaration
| VariableDeclarationList | FunctionDeclaration | ClassDeclaration | InterfaceDeclaration
| TypeAliasDeclaration | EnumDeclaration | ModuleDeclaration | ModuleBlock | CaseBlock
| NamespaceExportDeclaration | ImportEqualsDeclaration | ImportDeclaration | ImportClause
| NamespaceImport | NamedImports | ImportSpecifier | ExportAssignment | ExportDeclaration
| NamedExports | NamespaceExport | ExportSpecifier | MissingDeclaration
| ExternalModuleReference | JsxElement | JsxSelfClosingElement | JsxOpeningElement
| JsxClosingElement | JsxFragment | JsxOpeningFragment | JsxClosingFragment | JsxAttribute
| JsxAttributes | JsxSpreadAttribute | JsxExpression | JsxNamespacedName | CaseClause
| DefaultClause | HeritageClause | CatchClause | ImportAttributes | ImportAttribute
| PropertyAssignment | ShorthandPropertyAssignment | SpreadAssignment | EnumMember
| SourceFile | SyntaxList | JSTypeAliasDeclaration | JSImportDeclaration
| NotEmittedStatement | PartiallyEmittedExpression | SyntheticReferenceExpression
| NotEmittedTypeElement | Count.

End Kind.
Abbreviation Kind := Kind.t.
Import Kind.

(** The variants in the order of their discriminants. *)
Definition all_kinds : list Kind :=
  [Unknown; EndOfFile; SingleLineCommentTrivia; MultiLineCommentTrivia; NewLineTrivia;
  WhitespaceTrivia; ConflictMarkerTrivia; NonTextFileMarkerTrivia; NumericLiteral;
  BigIntLiteral; StringLiteral; JsxText; JsxTextAllWhiteSpaces; RegularExpressionLiteral;
  NoSubstitutionTemplateLiteral; TemplateHead; TemplateMiddle; TemplateTail; OpenBraceToken;
  CloseBraceToken; OpenParenToken; CloseParenToken; OpenBracketToken; CloseBracketToken;
  DotToken; DotDotDotToken; SemicolonToken; CommaToken; QuestionDotToken; LessThanToken;
  LessThanSlashToken; GreaterThanToken; LessThanEqualsToken; GreaterThanEqualsToken;
  EqualsEqualsToken; ExclamationEqualsToken; EqualsEqualsEqualsToken;
  ExclamationEqualsEqualsToken; EqualsGreaterThanToken; PlusToken; MinusToken; AsteriskToken;
  AsteriskAsteriskToken; SlashToken; PercentToken; PlusPlusToken; MinusMinusToken;
  LessThanLessThanToken; GreaterThanGreaterThanToken; GreaterThanGreaterThanGreaterThanToken;
  AmpersandToken; BarToken; CaretToken; ExclamationToken; TildeToken; AmpersandAmpersandToken;
  BarBarToken; QuestionToken; ColonToken; AtToken; QuestionQuestionToken; BacktickToken;
  HashToken; EqualsToken; PlusEqualsToken; MinusEqualsToken; AsteriskEqualsToken;
  AsteriskAsteriskEqualsToken; SlashEqualsToken; PercentEqualsToken;
  LessThanLessThanEqualsToken; GreaterThanGreaterThanEqualsToken;
  GreaterThanGreaterThanGreaterThanEqualsToken; AmpersandEqualsToken; BarEqualsToken;
  BarBarEqualsToken; AmpersandAmpersandEqualsToken; QuestionQuestionEqualsToken;
  CaretEqualsToken; Identifier; PrivateIdentifier; BreakKeyword; CaseKeyword; CatchKeyword;
  ClassKeyword; ConstKeyword; ContinueKeyword; DebuggerKeyword; DefaultKeyword; DeleteKeyword;
  DoKeyword; ElseKeyword; EnumKeyword; ExportKeyword; ExtendsKeyword; FalseKeyword;
  FinallyKeyword; ForKeyword; FunctionKeyword; IfKeyword; ImportKeyword; InKeyword;
  InstanceOfKeyword; NewKeyword; NullKeyword; ReturnKeyword; SuperKeyword; SwitchKeyword;
  ThisKeyword; ThrowKeyword; TrueKeyword; TryKeyword; TypeOfKeyword; VarKeyword; VoidKeyword;
  WhileKeyword; WithKeyword; ImplementsKeyword; InterfaceKeyword; LetKeyword; PackageKeyword;
  PrivateKeyword; ProtectedKeyword; PublicKeyword; StaticKeyword; YieldKeyword;
  AbstractKeyword; AccessorKeyword; AsKeyword; AssertsKeyword; AssertKeyword; AnyKeyword;
  AsyncKeyword; AwaitKeyword; BooleanKeyword; ConstructorKeyword; DeclareKeyword; GetKeyword;
  ImmediateKeyword; InferKeyword; IntrinsicKeyword; IsKeyword; KeyOfKeyword; ModuleKeyword;
  NamespaceKeyword; NeverKeyword; OutKeyword; ReadonlyKeyword; RequireKeyword; NumberKeyword;
  ObjectKeyword; SatisfiesKeyword; SetKeyword; StringKeyword; SymbolKeyword; TypeKeyword;
  UndefinedKeyword; UniqueKeyword; UnknownKeyword; UsingKeyword; FromKeyword; GlobalKeyword;
  BigIntKeyword; OverrideKeyword; OfKeyword; DeferKeyword; QualifiedName; ComputedPropertyName;
  TypeParameter; ParameterKind; Decorator; PropertySignature; PropertyDeclaration; MethodSignature;
  MethodDeclaration; ClassStaticBlockDeclaration; Constructor; GetAccessor; SetAccessor;
  CallSignature; ConstructSignature; IndexSignature; TypePredicate; TypeReference;
  FunctionType; ConstructorType; TypeQuery; TypeLiteral; ArrayType; TupleType; OptionalType;
  RestType; UnionType; IntersectionType; ConditionalType; InferType; ParenthesizedType;
  ThisType; TypeOperator; IndexedAccessType; MappedType; LiteralType; NamedTupleMember;
  TemplateLiteralType; TemplateLiteralTypeSpan; ImportType; ObjectBindingPattern;
  ArrayBindingPattern; BindingElement; ArrayLiteralExpression; ObjectLiteralExpression;
  PropertyAccessExpression; ElementAccessExpression; CallExpression; NewExpression;
  TaggedTemplateExpression; TypeAssertionExpression; ParenthesizedExpression;
  FunctionExpression; ArrowFunction; DeleteExpression; TypeOfExpression; VoidExpression;
  AwaitExpression; PrefixUnaryExpression; PostfixUnaryExpression; BinaryExpression;
  ConditionalExpression; TemplateExpression; YieldExpression; SpreadElement; ClassExpression;
  OmittedExpression; ExpressionWithTypeArguments; AsExpression; NonNullExpression;
  MetaProperty; SyntheticExpression; SatisfiesExpression; TemplateSpan; SemicolonClassElement;
  Block; EmptyStatement; VariableStatement; ExpressionStatement; IfStatement; DoStatement;
  WhileStatement; ForStatement; ForInStatement; ForOfStatement; ContinueStatement;
  BreakStatement; ReturnStatement; WithStatement; SwitchStatement; LabeledStatement;
  ThrowStatement; TryStatement; DebuggerStatement; VariableDeclaration;
  VariableDeclarationList; FunctionDeclaration; ClassDeclaration; InterfaceDeclaration;
  TypeAliasDeclaration; EnumDeclaration; ModuleDeclaration; ModuleBlock; CaseBlock;
  NamespaceExportDeclaration; ImportEqualsDeclaration; ImportDeclaration; ImportClause;
  NamespaceImport; NamedImports; ImportSpecifier; ExportAssignment; ExportDeclaration;
  NamedExports; NamespaceExport; ExportSpecifier; MissingDeclaration; ExternalModuleReference;
  JsxElement; JsxSelfClosingElement; JsxOpeningElement; JsxClosingElement; JsxFragment;
  JsxOpeningFragment; JsxClosingFragment; JsxAttribute; JsxAttributes; JsxSpreadAttribute;
  JsxExpression; JsxNamespacedName; CaseClause; DefaultClause; HeritageClause; CatchClause;
  ImportAttributes; ImportAttribute; PropertyAssignment; ShorthandPropertyAssignment;
  SpreadAssignment; EnumMember; SourceFile; SyntaxList; JSTypeAliasDeclaration;
  JSImportDeclaration; NotEmittedStatement; PartiallyEmittedExpression;
  SyntheticReferenceExpression; NotEmittedTypeElement; Count].

(** [k as i16] *)
Definition kind_index (k : Kind) : Z :=
  match k with
  | Unknown => 0 | EndOfFile => 1 | SingleLineCommentTrivia => 2 | MultiLineCommentTrivia => 3
  | NewLineTrivia => 4 | WhitespaceTrivia => 5 | ConflictMarkerTrivia => 6
  | NonTextFileMarkerTrivia => 7 | NumericLiteral => 8 | BigIntLiteral => 9
  | StringLiteral => 10 | JsxText => 11 | JsxTextAllWhiteSpaces => 12
  | RegularExpressionLiteral => 13 | NoSubstitutionTemplateLiteral => 14 | TemplateHead => 15
  | TemplateMiddle => 16 | TemplateTail => 17 | OpenBraceToken => 18 | CloseBraceToken => 19
  | OpenParenToken => 20 | CloseParenToken => 21 | OpenBracketToken => 22
  | CloseBracketToken => 23 | DotToken => 24 | DotDotDotToken => 25 | SemicolonToken => 26
  | CommaToken => 27 | QuestionDotToken => 28 | LessThanToken => 29 | LessThanSlashToken => 30
  | GreaterThanToken => 31 | LessThanEqualsToken => 32 | GreaterThanEqualsToken => 33
  | EqualsEqualsToken => 34 | ExclamationEqualsToken => 35 | EqualsEqualsEqualsToken => 36
  | ExclamationEqualsEqualsToken => 37 | EqualsGreaterThanToken => 38 | PlusToken => 39
  | MinusToken => 40 | AsteriskToken => 41 | AsteriskAsteriskToken => 42 | SlashToken => 43
  | PercentToken => 44 | PlusPlusToken => 45 | MinusMinusToken => 46
  | LessThanLessThanToken => 47 | GreaterThanGreaterThanToken => 48
  | GreaterThanGreaterThanGreaterThanToken => 49 | AmpersandToken => 50 | BarToken => 51
  | CaretToken => 52 | ExclamationToken => 53 | TildeToken => 54
  | AmpersandAmpersandToken => 55 | BarBarToken => 56 | QuestionToken => 57 | ColonToken => 58
  | AtToken => 59 | QuestionQuestionToken => 60 | BacktickToken => 61 | HashToken => 62
  | EqualsToken => 63 | PlusEqualsToken => 64 | MinusEqualsToken => 65
  | AsteriskEqualsToken => 66 | AsteriskAsteriskEqualsToken => 67 | SlashEqualsToken => 68
  | PercentEqualsToken => 69 | LessThanLessThanEqualsToken => 70
  | GreaterThanGreaterThanEqualsToken => 71
  | GreaterThanGreaterThanGreaterThanEqualsToken => 72 | AmpersandEqualsToken => 73
  | BarEqualsToken => 74 | BarBarEqualsToken => 75 | AmpersandAmpersandEqualsToken => 76
  | QuestionQuestionEqualsToken => 77 | CaretEqualsToken => 78 | Identifier => 79
  | PrivateIdentifier => 80 | BreakKeyword => 81 | CaseKeyword => 82 | CatchKeyword => 83
  | ClassKeyword => 84 | ConstKeyword => 85 | ContinueKeyword => 86 | DebuggerKeyword => 87
  | DefaultKeyword => 88 | DeleteKeyword => 89 | DoKeyword => 90 | ElseKeyword => 91
  | EnumKeyword => 92 | ExportKeyword => 93 | ExtendsKeyword => 94 | FalseKeyword => 95
  | FinallyKeyword => 96 | ForKeyword => 97 | FunctionKeyword => 98 | IfKeyword => 99
  | ImportKeyword => 100 | InKeyword => 101 | InstanceOfKeyword => 102 | NewKeyword => 103
  | NullKeyword => 104 | ReturnKeyword => 105 | SuperKeyword => 106 | SwitchKeyword => 107
  | ThisKeyword => 108 | ThrowKeyword => 109 | TrueKeyword => 110 | TryKeyword => 111
  | TypeOfKeyword => 112 | VarKeyword => 113 | VoidKeyword => 114 | WhileKeyword => 115
  | WithKeyword => 116 | ImplementsKeyword => 117 | InterfaceKeyword => 118 | LetKeyword => 119
  | PackageKeyword => 120 | PrivateKeyword => 121 | ProtectedKeyword => 122
  | PublicKeyword => 123 | StaticKeyword => 124 | YieldKeyword => 125 | AbstractKeyword => 126
  | AccessorKeyword => 127 | AsKeyword => 128 | AssertsKeyword => 129 | AssertKeyword => 130
  | AnyKeyword => 131 | AsyncKeyword => 132 | AwaitKeyword => 133 | BooleanKeyword => 134
  | ConstructorKeyword => 135 | DeclareKeyword => 136 | GetKeyword => 137
  | ImmediateKeyword => 138 | InferKeyword => 139 | IntrinsicKeyword => 140 | IsKeyword => 141
  | KeyOfKeyword => 142 | ModuleKeyword => 143 | NamespaceKeyword => 144 | NeverKeyword => 145
  | OutKeyword => 146 | ReadonlyKeyword => 147 | RequireKeyword => 148 | NumberKeyword => 149
  | ObjectKeyword => 150 | SatisfiesKeyword => 151 | SetKeyword => 152 | StringKeyword => 153
  | SymbolKeyword => 154 | TypeKeyword => 155 | UndefinedKeyword => 156 | UniqueKeyword => 157
  | UnknownKeyword => 158 | UsingKeyword => 159 | FromKeyword => 160 | GlobalKeyword => 161
  | BigIntKeyword => 162 | OverrideKeyword => 163 | OfKeyword => 164 | DeferKeyword => 165
  | QualifiedName => 166 | ComputedPropertyName => 167 | TypeParameter => 168
  | ParameterKind => 169 | Decorator => 170 | PropertySignature => 171 | PropertyDeclaration => 172
  | MethodSignature => 173 | MethodDeclaration => 174 | ClassStaticBlockDeclaration => 175
  | Constructor => 176 | GetAccessor => 177 | SetAccessor => 178 | CallSignature => 179
  | ConstructSignature => 180 | IndexSignature => 181 | TypePredicate => 182
  | TypeReference => 183 | FunctionType => 184 | ConstructorType => 185 | TypeQuery => 186
  | TypeLiteral => 187 | ArrayType => 188 | TupleType => 189 | OptionalType => 190
  | RestType => 191 | UnionType => 192 | IntersectionType => 193 | ConditionalType => 194
  | InferType => 195 | ParenthesizedType => 196 | ThisType => 197 | TypeOperator => 198
  | IndexedAccessType => 199 | MappedType => 200 | LiteralType => 201 | NamedTupleMember => 202
  | TemplateLiteralType => 203 | TemplateLiteralTypeSpan => 204 | ImportType => 205
  | ObjectBindingPattern => 206 | ArrayBindingPattern => 207 | BindingElement => 208
  | ArrayLiteralExpression => 209 | ObjectLiteralExpression => 210
  | PropertyAccessExpression => 211 | ElementAccessExpression => 212 | CallExpression => 213
  | NewExpression => 214 | TaggedTemplateExpression => 215 | TypeAssertionExpression => 216
  | ParenthesizedExpression => 217 | FunctionExpression => 218 | ArrowFunction => 219
  | DeleteExpression => 220 | TypeOfExpression => 221 | VoidExpression => 222
  | AwaitExpression => 223 | PrefixUnaryExpression => 224 | PostfixUnaryExpression => 225
  | BinaryExpression => 226 | ConditionalExpression => 227 | TemplateExpression => 228
  | YieldExpression => 229 | SpreadElement => 230 | ClassExpression => 231
  | OmittedExpression => 232 | ExpressionWithTypeArguments => 233 | AsExpression => 234
  | NonNullExpression => 235 | MetaProperty => 236 | SyntheticExpression => 237
  | SatisfiesExpression => 238 | TemplateSpan => 239 | SemicolonClassElement => 240
  | Block => 241 | EmptyStatement => 242 | VariableStatement => 243
  | ExpressionStatement => 244 | IfStatement => 245 | DoStatement => 246
  | WhileStatement => 247 | ForStatement => 248 | ForInStatement => 249 | ForOfStatement => 250
  | ContinueStatement => 251 | BreakStatement => 252 | ReturnStatement => 253
  | WithStatement => 254 | SwitchStatement => 255 | LabeledStatement => 256
  | ThrowStatement => 257 | TryStatement => 258 | DebuggerStatement => 259
  | VariableDeclaration => 260 | VariableDeclarationList => 261 | FunctionDeclaration => 262
  | ClassDeclaration => 263 | InterfaceDeclaration => 264 | TypeAliasDeclaration => 265
  | EnumDeclaration => 266 | ModuleDeclaration => 267 | ModuleBlock => 268 | CaseBlock => 269
  | NamespaceExportDeclaration => 270 | ImportEqualsDeclaration => 271
  | ImportDeclaration => 272 | ImportClause => 273 | NamespaceImport => 274
  | NamedImports => 275 | ImportSpecifier => 276 | ExportAssignment => 277
  | ExportDeclaration => 278 | NamedExports => 279 | NamespaceExport => 280
  | ExportSpecifier => 281 | MissingDeclaration => 282 | ExternalModuleReference => 283
  | JsxElement => 284 | JsxSelfClosingElement => 285 | JsxOpeningElement => 286
  | JsxClosingElement => 287 | JsxFragment => 288 | JsxOpeningFragment => 289
  | JsxClosingFragment => 290 | JsxAttribute => 291 | JsxAttributes => 292
  | JsxSpreadAttribute => 293 | JsxExpression => 294 | JsxNamespacedName => 295
  | CaseClause => 296 | DefaultClause => 297 | HeritageClause => 298 | CatchClause => 299
  | ImportAttributes => 300 | ImportAttribute => 301 | PropertyAssignment => 302
  | ShorthandPropertyAssignment => 303 | SpreadAssignment => 304 | EnumMember => 305
  | SourceFile => 306 | SyntaxList => 307 | JSTypeAliasDeclaration => 308
  | JSImportDeclaration => 309 | NotEmittedStatement => 310 | PartiallyEmittedExpression => 311
  | SyntheticReferenceExpression => 312 | NotEmittedTypeElement => 313 | Count => 314
  end.

Lemma all_kinds_index k : all_kinds !! Z.to_nat (kind_index k) = Some k.
Proof. by destruct k. Qed.

Lemma kind_index_inj k1 k2 : kind_index k1 = kind_index k2 -> k1 = k2.
Proof.
  intros H. pose proof (all_kinds_index k1) as H1. rewrite H, all_kinds_index in H1. congruence.
Qed.

#[global] Instance Kind_eq_dec : EqDecision Kind.
Proof.
  intros k1 k2. destruct (decide (kind_index k1 = kind_index k2)) as [H|H].
  - left. by apply kind_index_inj.
  - right. intros ->. done.
Defined.

(** The derived [PartialEq] and [PartialOrd]. *)
Definition Kind_eqb (k1 k2 : Kind) : bool := kind_index k1 =? kind_index k2.
Definition Kind_geb (k1 k2 : Kind) : bool := kind_index k2 <=? kind_index k1.

Lemma Kind_eqb_eq k1 k2 : Kind_eqb k1 k2 = true <-> k1 = k2.
Proof.
  unfold Kind_eqb. rewrite Z.eqb_eq. split; [apply kind_index_inj|by intros ->].
Qed.

Lemma Kind_eqb_refl k : Kind_eqb k k = true.
Proof. by apply Kind_eqb_eq. Qed.

Lemma Kind_eqb_neq k1 k2 : Kind_eqb k1 k2 = false <-> k1 <> k2.
Proof. rewrite <- (Kind_eqb_eq k1 k2). by destruct (Kind_eqb k1 k2). Qed.

(** ** TokenFlags *)
Module TokenFlags.
Definition NONE : Z := 0.
Definition PRECEDING_LINE_BREAK : Z := Z.shiftl 1 0.
Definition UNTERMINATED : Z := Z.shiftl 1 2.
Definition EXTENDED_UNICODE_ESCAPE : Z := Z.shiftl 1 3.
Definition SCIENTIFIC : Z := Z.shiftl 1 4.
Definition OCTAL : Z := Z.shiftl 1 5.
Definition HEX_SPECIFIER : Z := Z.shiftl 1 6.
Definition BINARY_SPECIFIER : Z := Z.shiftl 1 7.
Definition OCTAL_SPECIFIER : Z := Z.shiftl 1 8.
Definition CONTAINS_SEPARATOR : Z := Z.shiftl 1 9.
Definition UNICODE_ESCAPE : Z := Z.shiftl 1 10.
Definition CONTAINS_INVALID_ESCAPE : Z := Z.shiftl 1 11.
Definition HEX_ESCAPE : Z := Z.shiftl 1 12.
Definition CONTAINS_LEADING_ZERO : Z := Z.shiftl 1 13.
Definition CONTAINS_INVALID_SEPARATOR : Z := Z.shiftl 1 14.
Definition SINGLE_QUOTE : Z := Z.shiftl 1 16.
Definition BINARY_OR_OCTAL_SPECIFIER : Z := Z.lor BINARY_SPECIFIER OCTAL_SPECIFIER.

Definition contains (self other : Z) : bool := Z.land self other =? other.
Definition intersects (self other : Z) : bool := negb (Z.land self other =? 0).
End TokenFlags.
