(* ===== verification/Numerals.v ===== *)
(** * Numerals: digits of integers in the standard library of Rust

    [char::to_digit], [from_str_radix] and the printing of integers, shared by the components that read
    or print numbers, with their round trip. *)
From S2P Require Import Prelude Text Chars.

(** [ch.to_digit(radix)] *)
Definition to_digit (radix : Z) (ch : char) : option Z :=
  let d :=
    if is_ascii_digit ch then Some (ch - 48)
    else if (97 <=? ch) && (ch <=? 122) then Some (ch - 87)
    else if (65 <=? ch) && (ch <=? 90) then Some (ch - 55)
    else None in
  d ← d; if d <? radix then Some d else None.

(** [u32::from_str_radix(s, radix).ok()] on digits without a sign, [max] the largest value of the
    type. *)
Fixpoint parse_digits (radix max v : Z) (s : bytes) : option Z :=
  match s with
  | [] => Some v
  | b :: r =>
      d ← to_digit radix b;
      let v := v * radix + d in
      if max <? v then None else parse_digits radix max v r
  end.
Definition from_str_radix (radix max : Z) (s : bytes) : option Z :=
  match s with [] => None | _ => parse_digits radix max 0 s end.
Definition U32_MAX : Z := 2 ^ 32 - 1.
Definition I64_MAX : Z := 2 ^ 63 - 1.

Definition digit_char (d : Z) : byte := if d <? 10 then 48 + d else 87 + d.

(** Digits of a non-negative integer ([{}], [{:o}], [{:x}]); the fuel is its number of bits. *)
Fixpoint radix_digits (fuel : nat) (radix n : Z) (acc : bytes) : bytes :=
  match fuel with
  | O => acc
  | S fuel =>
      let acc := digit_char (n mod radix) :: acc in
      if n / radix =? 0 then acc else radix_digits fuel radix (n / radix) acc
  end.
Definition format_radix (radix n : Z) : bytes := radix_digits (S (Z.to_nat (Z.log2 n))) radix n [].

(** The radix that a letter after a leading zero stands for in the numerals of ECMAScript. *)
Inductive RadixLetter : char -> Z -> Prop :=
  | radix_b : RadixLetter (chr "b") 2
  | radix_B : RadixLetter (chr "B") 2
  | radix_o : RadixLetter (chr "o") 8
  | radix_O : RadixLetter (chr "O") 8
  | radix_x : RadixLetter (chr "x") 16
  | radix_X : RadixLetter (chr "X") 16.

Lemma radix_letter_range p radix : RadixLetter p radix -> 2 <= radix <= 16.
Proof. intros []; lia. Qed.

(** ** Printing and parsing digits *)
Lemma to_digit_digit_char radix d :
  0 <= d < radix -> radix <= 16 -> to_digit radix (digit_char d) = Some d.
Proof.
  intros Hd Hr. unfold digit_char, to_digit, is_ascii_digit.
  destruct (d <? 10) eqn:E; bool_to_prop.
  - rewrite (proj2 (Z.leb_le 48 (48 + d))), (proj2 (Z.leb_le (48 + d) 57)) by lia. cbn [andb].
    replace (48 + d - 48) with d by lia. cbn [mbind option_bind].
    by rewrite (proj2 (Z.ltb_lt _ _)) by lia.
  - rewrite (proj2 (Z.leb_gt (87 + d) 57)) by lia. rewrite andb_false_r.
    rewrite (proj2 (Z.leb_le 97 (87 + d))), (proj2 (Z.leb_le (87 + d) 122)) by lia. cbn [andb].
    replace (87 + d - 87) with d by lia. cbn [mbind option_bind].
    by rewrite (proj2 (Z.ltb_lt _ _)) by lia.
Qed.

Lemma parse_radix_digits radix max fuel n acc :
  2 <= radix <= 16 -> 0 <= n <= max -> n < 2 ^ Z.of_nat fuel -> (1 <= fuel)%nat ->
  parse_digits radix max 0 (radix_digits fuel radix n acc) = parse_digits radix max n acc.
Proof.
  intros Hr. revert n acc. induction fuel as [|fuel IH]; intros n acc Hn Hf Hf1; [lia|].
  assert (0 <= n mod radix < radix) as Hm by (apply Z.mod_pos_bound; lia).
  pose proof (Z.div_mod n radix ltac:(lia)) as Hdm.
  assert (forall v, v * radix + n mod radix = n -> v * radix + n mod radix <= max ->
    parse_digits radix max v (digit_char (n mod radix) :: acc) = parse_digits radix max n acc) as Hstep.
  { intros v Hv Hle. cbn [parse_digits]. rewrite to_digit_digit_char by lia. cbn [mbind option_bind].
    rewrite Hv. by rewrite (proj2 (Z.ltb_ge max n)) by lia. }
  cbn [radix_digits]. destruct (n / radix =? 0) eqn:E; bool_to_prop.
  - apply Hstep; lia.
  - rewrite Nat2Z.inj_succ, Z.pow_succ_r in Hf by lia.
    assert (0 <= n / radix) by (apply Z.div_pos; lia).
    assert (n / radix * 2 <= n) by nia.
    destruct fuel as [|fuel]; [cbn in Hf; lia|].
    rewrite IH; [|lia|lia|lia]. apply Hstep; lia.
Qed.

(** [u32::from_str_radix] inverts [{:x}], [{:o}] and [{}]. *)
Lemma from_str_radix_format radix max n :
  2 <= radix <= 16 -> 0 <= n <= max -> from_str_radix radix max (format_radix radix n) = Some n.
Proof.
  intros Hr Hn. unfold from_str_radix, format_radix.
  set (fuel := S (Z.to_nat (Z.log2 n))).
  assert (n < 2 ^ Z.of_nat fuel) as Hf.
  { subst fuel. rewrite Nat2Z.inj_succ, Z2Nat.id by apply Z.log2_nonneg.
    destruct (decide (n = 0)) as [->|]; [done|]. apply Z.log2_spec. lia. }
  pose proof (parse_radix_digits radix max fuel n [] Hr Hn Hf ltac:(lia)) as Hp.
  destruct (radix_digits fuel radix n []) eqn:E; [|done]. exfalso.
  assert (forall f m acc, (1 <= f)%nat -> radix_digits f radix m acc <> []) as Hne.
  { intros f. induction f as [|f IH]; intros m acc Hf1; [lia|]. cbn.
    destruct (m / radix =? 0); [done|]. destruct f; [done|]. apply IH. lia. }
  eapply Hne; [|exact E]. subst fuel. lia.
Qed.

(** Digits that [{:x}] prints. *)
Definition lower_hex (b : byte) : bool := is_ascii_digit b || ((97 <=? b) && (b <=? 102)).

Lemma lower_hex_digit_char d : 0 <= d < 16 -> lower_hex (digit_char d) = true.
Proof.
  intros Hd. unfold lower_hex, digit_char, is_ascii_digit. destruct (d <? 10) eqn:E; bool_to_prop.
  - rewrite (proj2 (Z.leb_le 48 _)), (proj2 (Z.leb_le _ 57)) by lia. done.
  - rewrite (proj2 (Z.leb_le 97 _)), (proj2 (Z.leb_le _ 102)) by lia. apply orb_true_r.
Qed.

Lemma radix_digits_lower fuel n acc :
  Forall (fun b => lower_hex b = true) acc ->
  Forall (fun b => lower_hex b = true) (radix_digits fuel 16 n acc).
Proof.
  revert n acc. induction fuel as [|fuel IH]; intros n acc Ha; [done|]. cbn [radix_digits].
  assert (Forall (fun b => lower_hex b = true) (digit_char (n mod 16) :: acc)).
  { constructor; [|done]. apply lower_hex_digit_char, Z.mod_pos_bound. lia. }
  destruct (n / 16 =? 0); [done|]. by apply IH.
Qed.
