(* ===== verification/JsNum.v ===== *)
(** * JsNum: numbers of the source language (ts-jsnum/src/lib.rs)

    The decimal conversion of bigint literals ([PseudoBigInt], [parse_pseudo_big_int]) is modelled in
    full. The values of numeric literals are IEEE doubles parsed and printed by Rust's standard
    library; the scanner sees them through the class [JsNumber]. *)
From S2P Require Import Prelude Text Chars Numerals.

(** What the scanner uses of [Number]: [jsnum::from_string(s).to_string()], the canonical text of
    the double a literal denotes. *)
Class JsNumber := {
  number_text : bytes -> bytes;
}.

(** An instance for concrete runs: right on literals that are already in canonical form. *)
Definition canonical_numbers : JsNumber := {| number_text := fun s => s |}.

(** ** Standard library *)

Fixpoint trim_start_matches (ch : byte) (s : bytes) : bytes :=
  match s with
  | b :: r => if b =? ch then trim_start_matches ch r else s
  | [] => []
  end.

Definition strip_suffix1 (ch : byte) (s : bytes) : bytes :=
  match last s with
  | Some b => if b =? ch then removelast s else s
  | None => s
  end.

(** ** Decimal arithmetic on digit strings *)

(** The first loop of [decimal_mul_small_add], from the last digit to the first; [out] is built in
    reverse. *)
Fixpoint mul_add_digits (digits_rev : bytes) (mul carry : Z) (out : bytes) : bytes * Z :=
  match digits_rev with
  | [] => (out, carry)
  | byte :: r =>
      let value := (byte - 48) * mul + carry in
      mul_add_digits r mul (value / 10) (out ++ [value mod 10 + 48])
  end.

(** [while carry > 0] *)
Fixpoint push_carry (fuel : nat) (carry : Z) (out : bytes) : bytes :=
  match fuel with
  | O => out
  | S fuel =>
      if 0 <? carry then push_carry fuel (carry / 10) (out ++ [carry mod 10 + 48]) else out
  end.
Definition carry_fuel (carry : Z) : nat := S (Z.to_nat (Z.log2 carry)).

Definition decimal_mul_small_add (decimal : bytes) (mul add : Z) : bytes :=
  let '(out, carry) := mul_add_digits (rev decimal) mul add [] in
  let decimal := rev (push_carry (carry_fuel carry) carry out) in
  let trimmed := trim_start_matches 48 decimal in
  match trimmed with
  | [] => bstr "0"
  | b :: r => b :: r
  end.

Fixpoint fold_digits (base : Z) (chs : list char) (decimal : bytes) : option bytes :=
  match chs with
  | [] => Some decimal
  | ch :: r =>
      if ch =? chr "_" then fold_digits base r decimal
      else digit ← to_digit base ch;
           fold_digits base r (decimal_mul_small_add decimal base digit)
  end.

Definition prefix_base (b : byte) : option Z :=
  if (b =? chr "b") || (b =? chr "B") then Some 2
  else if (b =? chr "o") || (b =? chr "O") then Some 8
  else if (b =? chr "x") || (b =? chr "X") then Some 16
  else None.

Definition parse_prefixed_integer_to_decimal (text : bytes) : option bytes :=
  match text with
  | b0 :: b1 :: rest =>
      if b0 =? chr "0"
      then base ← prefix_base b1; fold_digits base (chars rest) (bstr "0")
      else None
  | _ => None
  end.

(** [None] where the Rust function panics. *)
Definition parse_pseudo_big_int (string_value : bytes) : option bytes :=
  let string_value := strip_suffix1 (chr "n") string_value in
  match prefix_base (nth 1 string_value 0) with
  | None =>
      match trim_start_matches 48 string_value with
      | [] => Some (bstr "0")
      | s => Some s
      end
  | Some _ => parse_prefixed_integer_to_decimal string_value
  end.

Record PseudoBigInt := { negative : bool; base10_value : bytes }.

Definition new_pseudo_big_int (value : bytes) (negative : bool) : PseudoBigInt :=
  let value := trim_start_matches 48 value in
  {| negative := negative && negb (bool_decide (value = [])); base10_value := value |}.

(** [Display] *)
Definition pseudo_big_int_to_string (n : PseudoBigInt) : bytes :=
  match base10_value n with
  | [] => bstr "0"
  | _ => if negative n then chr "-" :: base10_value n else base10_value n
  end.

Definition sign (n : PseudoBigInt) : Z :=
  match base10_value n with
  | [] => 0
  | _ => if negative n then -1 else 1
  end.

Definition parse_valid_big_int (text : bytes) : option PseudoBigInt :=
  let '(text, negative) :=
    match text with
    | b :: r => if b =? chr "-" then (r, true) else (text, false)
    | [] => (text, false)
    end in
  v ← parse_pseudo_big_int text; Some (new_pseudo_big_int v negative).

(** ** Specification *)

(** The number a string of decimal digits denotes. *)
Definition dec_value (s : bytes) : Z := fold_left (fun v b => v * 10 + (b - 48)) s 0.

(** The number the digits of a prefixed literal denote, separators skipped. *)
Fixpoint digits_value (base : Z) (v : Z) (chs : list char) : option Z :=
  match chs with
  | [] => Some v
  | ch :: r =>
      if ch =? chr "_" then digits_value base v r
      else d ← to_digit base ch; digits_value base (v * base + d) r
  end.

Definition dec_digits (s : bytes) : Prop := Forall (fun b => 48 <= b <= 57) s.

(** No leading zero, unless the number is zero. *)
Definition dec_canonical (s : bytes) : Prop :=
  dec_digits s /\ (s = [48] \/ exists b r, s = b :: r /\ b <> 48).

(** Value of a little-endian digit string. *)
Fixpoint le_value (s : bytes) : Z :=
  match s with
  | [] => 0
  | b :: r => (b - 48) + 10 * le_value r
  end.

Lemma le_value_app s t : le_value (s ++ t) = le_value s + 10 ^ Z.of_nat (length s) * le_value t.
Proof.
  induction s as [|b s IH]; [cbn; lia|].
  cbn [app le_value length]. rewrite IH, Nat2Z.inj_succ, Z.pow_succ_r by lia. lia.
Qed.

Lemma dec_value_snoc s b : dec_value (s ++ [b]) = dec_value s * 10 + (b - 48).
Proof. unfold dec_value. by rewrite fold_left_app. Qed.

Lemma dec_value_rev s : dec_value (rev s) = le_value s.
Proof.
  induction s as [|b s IH]; [done|]. cbn [rev le_value]. rewrite dec_value_snoc, IH. lia.
Qed.

Lemma mul_add_digits_spec ds mul carry out :
  dec_digits ds -> dec_digits out -> 0 <= carry < mul ->
  let '(out', carry') := mul_add_digits ds mul carry out in
  dec_digits out' /\ 0 <= carry' < mul
  /\ length out' = (length out + length ds)%nat
  /\ le_value out' + 10 ^ Z.of_nat (length out') * carry'
     = le_value out + 10 ^ Z.of_nat (length out) * (le_value ds * mul + carry).
Proof.
  intros Hds. revert carry out. induction Hds as [|b ds Hb Hds IH]; intros carry out Ho Hc.
  - cbn. split; [done|]. split; [done|]. split; lia.
  - cbn [mul_add_digits]. set (v := (b - 48) * mul + carry) in *.
    assert (0 <= v / 10 < mul) as Hc' by (subst v; Z.div_mod_to_equations; nia).
    assert (0 <= v mod 10 <= 9) as Hm by zdiv.
    specialize (IH (v / 10) (out ++ [v mod 10 + 48])).
    destruct (mul_add_digits ds mul (v / 10) (out ++ [v mod 10 + 48])) as [out' carry'].
    destruct IH as (H1 & H2 & H3 & H4); [|done|].
    { apply Forall_app; split; [done|]. constructor; [lia|constructor]. }
    rewrite length_app in H3. cbn in H3. split; [done|]. split; [done|]. split; [cbn; lia|].
    rewrite H4, le_value_app, length_app. cbn [le_value length].
    replace (Z.of_nat (length out + 1)) with (Z.succ (Z.of_nat (length out))) by lia.
    rewrite Z.pow_succ_r by lia. pose proof (Z.div_mod v 10 ltac:(lia)) as Hv.
    subst v. nia.
Qed.

Lemma push_carry_spec fuel carry out :
  0 <= carry < 2 ^ Z.of_nat fuel -> dec_digits out ->
  dec_digits (push_carry fuel carry out)
  /\ le_value (push_carry fuel carry out) = le_value out + 10 ^ Z.of_nat (length out) * carry.
Proof.
  revert carry out. induction fuel as [|fuel IH]; intros carry out Hc Ho.
  { cbn in *. split; [done|]. assert (carry = 0) by lia. lia. }
  cbn [push_carry]. case_if.
  - rewrite Nat2Z.inj_succ, Z.pow_succ_r in Hc by lia.
    assert (0 <= carry mod 10 <= 9) by zdiv.
    destruct (IH (carry / 10) (out ++ [carry mod 10 + 48])) as [H1 H2].
    + zdiv.
    + apply Forall_app; split; [done|]. constructor; [lia|constructor].
    + split; [done|]. rewrite H2, le_value_app, length_app. cbn [le_value length].
      replace (Z.of_nat (length out + 1)) with (Z.succ (Z.of_nat (length out))) by lia.
      rewrite Z.pow_succ_r by lia. pose proof (Z.div_mod carry 10 ltac:(lia)). nia.
  - split; [done|]. assert (carry = 0) by lia. lia.
Qed.

Lemma carry_fuel_enough carry : 0 <= carry -> 0 <= carry < 2 ^ Z.of_nat (carry_fuel carry).
Proof.
  intros H. split; [done|]. unfold carry_fuel. rewrite Nat2Z.inj_succ.
  destruct (decide (carry = 0)) as [->|]; [cbn; lia|].
  rewrite Z2Nat.id by apply Z.log2_nonneg. apply Z.log2_spec. lia.
Qed.

Lemma dec_value_cons48 s : dec_value (48 :: s) = dec_value s.
Proof. done. Qed.

Lemma trim_zeros_value s : dec_value (trim_start_matches 48 s) = dec_value s.
Proof.
  induction s as [|b s IH]; [done|]. cbn [trim_start_matches]. case_if; [subst|done].
  by rewrite dec_value_cons48.
Qed.

Lemma trim_zeros_digits s : dec_digits s -> dec_digits (trim_start_matches 48 s).
Proof.
  induction 1 as [|b s Hb Hs IH]; [constructor|]. cbn [trim_start_matches].
  case_if; [done|by constructor].
Qed.

Lemma trim_zeros_head s b r : trim_start_matches 48 s = b :: r -> b <> 48.
Proof.
  induction s as [|b' s IH]; [done|]. cbn [trim_start_matches]. case_if; [done|]. congruence.
Qed.

Lemma canonical_of_trim s :
  dec_digits s ->
  let d := match trim_start_matches 48 s with [] => [48] | t => t end in
  dec_canonical d /\ dec_value d = dec_value s.
Proof.
  intros H. pose proof (trim_zeros_digits s H) as H1. pose proof (trim_zeros_value s) as H2.
  destruct (trim_start_matches 48 s) as [|b r] eqn:E; cbn zeta; split; try done.
  - split; [by repeat constructor|by left].
  - split; [done|]. right. exists b, r. split; [done|]. by eapply trim_zeros_head.
Qed.

Lemma decimal_mul_small_add_value d mul add :
  dec_digits d -> 0 <= add < mul ->
  dec_canonical (decimal_mul_small_add d mul add)
  /\ dec_value (decimal_mul_small_add d mul add) = dec_value d * mul + add.
Proof.
  intros Hd Ha. unfold decimal_mul_small_add.
  pose proof (mul_add_digits_spec (rev d) mul add []) as H.
  destruct (mul_add_digits (rev d) mul add []) as [out carry].
  destruct H as (H1 & H2 & H3 & H4); [by apply Forall_rev|constructor|done|].
  destruct (push_carry_spec (carry_fuel carry) carry out) as [H5 H6];
    [apply carry_fuel_enough; lia|done|].
  destruct (canonical_of_trim (rev (push_carry (carry_fuel carry) carry out))) as [H7 H8];
    [by apply Forall_rev|].
  split; [exact H7|]. etrans; [exact H8|]. rewrite dec_value_rev, H6, H4.
  cbn [le_value length Z.of_nat]. rewrite <- (dec_value_rev (rev d)), rev_involutive. lia.
Qed.

Lemma to_digit_range base ch d : to_digit base ch = Some d -> 0 <= d < base.
Proof.
  unfold to_digit, is_ascii_digit. intros H.
  repeat match type of H with context [if ?b then _ else _] => destruct b eqn:?; cbn in H end;
    try done; injection H as <-; bool_to_prop; lia.
Qed.

Lemma fold_digits_value base chs d v :
  dec_canonical d -> digits_value base (dec_value d) chs = Some v ->
  exists r, fold_digits base chs d = Some r /\ dec_canonical r /\ dec_value r = v.
Proof.
  revert d. induction chs as [|ch chs IH]; intros d Hd Hv; cbn in *.
  { exists d. split; [done|]. split; [done|]. congruence. }
  destruct (ch =? 95); [by apply IH|].
  destruct (to_digit base ch) as [x|] eqn:E; [|done]. cbn in *.
  destruct (decimal_mul_small_add_value d base x) as [H1 H2].
  - apply Hd.
  - by eapply to_digit_range.
  - apply IH; [done|]. by rewrite H2.
Qed.

Lemma to_digit_not_n base ch d : base <= 16 -> to_digit base ch = Some d -> ch <> chr "n".
Proof.
  intros Hb H ->. unfold to_digit in H. cbn -[Z.ltb] in H.
  destruct (110 - 87 <? base) eqn:E; [bool_to_prop; lia|done].
Qed.

Lemma to_digit_ascii base ch d : to_digit base ch = Some d -> 0 <= ch < 128.
Proof.
  unfold to_digit, is_ascii_digit. intros H.
  repeat match type of H with context [if ?b then _ else _] => destruct b eqn:?; cbn in H end;
    try done; bool_to_prop; lia.
Qed.

Lemma digits_value_ascii base v0 chs v : digits_value base v0 chs = Some v -> is_ascii chs = true.
Proof.
  revert v0. induction chs as [|ch chs IH]; intros v0 H; [done|]. cbn in *.
  apply andb_true_iff. destruct (ch =? 95) eqn:E.
  - bool_to_prop. subst. split; [done|by eapply IH].
  - destruct (to_digit base ch) as [d|] eqn:Ed; [|done]. split; [|by eapply IH].
    apply to_digit_ascii in Ed. apply andb_true_iff. rewrite Z.leb_le, Z.ltb_lt. lia.
Qed.

Lemma digits_value_last base v0 chs v :
  base <= 16 -> digits_value base v0 chs = Some v -> last chs <> Some (chr "n").
Proof.
  intros Hb. revert v0. induction chs as [|ch chs IH]; intros v0 H; [done|].
  destruct chs as [|ch' chs].
  - cbn [digits_value last] in *. intros [= ->].
    destruct (to_digit base 110) as [d|] eqn:E; [|done].
    exact (to_digit_not_n _ _ _ Hb E eq_refl).
  - cbn [last]. cbn [digits_value] in H. destruct (ch =? 95); [by eapply IH|].
    destruct (to_digit base ch); [|done]. by eapply IH.
Qed.

Lemma strip_suffix1_other ch s : last s <> Some ch -> strip_suffix1 ch s = s.
Proof.
  unfold strip_suffix1. destruct (last s) as [b|]; [|done]. intros H. case_if; [|done].
  congruence.
Qed.

Lemma strip_suffix1_snoc ch s : strip_suffix1 ch (s ++ [ch]) = s.
Proof.
  unfold strip_suffix1. rewrite last_snoc, Z.eqb_refl. apply removelast_last.
Qed.

Lemma prefix_base_le p base : prefix_base p = Some base -> base <= 16.
Proof.
  unfold prefix_base. intros H.
  repeat match type of H with context [if ?b then _ else _] => destruct b end;
    injection H as <- || done; lia.
Qed.

Lemma parse_prefixed (p : byte) (base v : Z) (ds : list char) (suffix : bytes) :
  prefix_base p = Some base ->
  ds <> [] ->
  digits_value base 0 ds = Some v ->
  suffix = [] \/ suffix = bstr "n" ->
  exists r, parse_pseudo_big_int (chr "0" :: p :: ds ++ suffix) = Some r
    /\ dec_canonical r /\ dec_value r = v.
Proof.
  intros Hp Hne Hv Hsuf. pose proof (prefix_base_le _ _ Hp) as Hb.
  unfold parse_pseudo_big_int.
  assert (strip_suffix1 110 (48 :: p :: ds ++ suffix) = 48 :: p :: ds) as ->.
  { destruct Hsuf as [-> | ->].
    - rewrite app_nil_r. apply strip_suffix1_other. destruct ds as [|ch ds]; [done|].
      change (last (48 :: p :: ch :: ds)) with (last (ch :: ds)). by eapply digits_value_last.
    - rewrite !app_comm_cons. apply strip_suffix1_snoc. }
  cbn [nth]. rewrite Hp. cbn [parse_prefixed_integer_to_decimal]. rewrite Hp. cbn.
  rewrite ascii_chars by (by eapply digits_value_ascii).
  apply fold_digits_value; [|done]. split; [by repeat constructor|by left].
Qed.

Lemma prefix_base_letter p base : RadixLetter p base -> prefix_base p = Some base.
Proof. by intros []. Qed.

(** C23. [parse_pseudo_big_int] is exact: a binary, octal or hexadecimal bigint literal ([0b], [0o] or [0x] in either case,
    with numeric separators and an optional [n] suffix) is turned into the decimal digits of the number it denotes, without
    leading zeros, whatever its size. *)
Theorem parse_pseudo_big_int_exact (p : byte) (base v : Z) (ds : list char) (suffix : bytes) :
  RadixLetter p base ->
  ds <> [] ->
  digits_value base 0 ds = Some v ->
  suffix = [] \/ suffix = bstr "n" ->
  exists r, parse_pseudo_big_int (chr "0" :: p :: ds ++ suffix) = Some r
    /\ dec_canonical r /\ dec_value r = v.
Proof. intros Hp%prefix_base_letter. by apply parse_prefixed. Qed.

Lemma parse_pseudo_big_int_exact_witness :
  exists r, parse_pseudo_big_int (bstr "0xFF_FFn") = Some r
    /\ dec_canonical r /\ dec_value r = 65535.
Proof.
  apply (parse_pseudo_big_int_exact (chr "x") 16 65535 (bstr "FF_FF") (bstr "n"));
    [exact radix_x|discriminate|vm_compute; reflexivity|by right].
Defined.
