(* ===== verification/Keywords.v ===== *)
(** * Keywords: tokens and their texts (ts-scanner/src/scanner.rs, utilities.rs)

    The tables relating keyword and punctuation texts to token kinds, and the lookup that decides
    whether an identifier is a keyword. A [match] on string literals is the association list of its
    arms, searched in order. *)
From S2P Require Import Prelude Text Chars SyntaxKind.

Fixpoint assoc (table : list (bytes * Kind)) (s : bytes) : option Kind :=
  match table with
  | [] => None
  | (t, k) :: r => if bool_decide (s = t) then Some k else assoc r s
  end.

Definition keyword_table : list (bytes * Kind) := [
  (bstr "break", Kind.BreakKeyword); (bstr "case", Kind.CaseKeyword);
  (bstr "catch", Kind.CatchKeyword); (bstr "class", Kind.ClassKeyword);
  (bstr "const", Kind.ConstKeyword); (bstr "continue", Kind.ContinueKeyword);
  (bstr "debugger", Kind.DebuggerKeyword); (bstr "default", Kind.DefaultKeyword);
  (bstr "delete", Kind.DeleteKeyword); (bstr "do", Kind.DoKeyword);
  (bstr "else", Kind.ElseKeyword); (bstr "enum", Kind.EnumKeyword);
  (bstr "export", Kind.ExportKeyword); (bstr "extends", Kind.ExtendsKeyword);
  (bstr "false", Kind.FalseKeyword); (bstr "finally", Kind.FinallyKeyword);
  (bstr "for", Kind.ForKeyword); (bstr "function", Kind.FunctionKeyword);
  (bstr "if", Kind.IfKeyword); (bstr "import", Kind.ImportKeyword);
  (bstr "in", Kind.InKeyword); (bstr "instanceof", Kind.InstanceOfKeyword);
  (bstr "new", Kind.NewKeyword); (bstr "null", Kind.NullKeyword);
  (bstr "return", Kind.ReturnKeyword); (bstr "super", Kind.SuperKeyword);
  (bstr "switch", Kind.SwitchKeyword); (bstr "this", Kind.ThisKeyword);
  (bstr "throw", Kind.ThrowKeyword); (bstr "true", Kind.TrueKeyword);
  (bstr "try", Kind.TryKeyword); (bstr "typeof", Kind.TypeOfKeyword);
  (bstr "var", Kind.VarKeyword); (bstr "void", Kind.VoidKeyword);
  (bstr "while", Kind.WhileKeyword); (bstr "with", Kind.WithKeyword);
  (bstr "implements", Kind.ImplementsKeyword); (bstr "interface", Kind.InterfaceKeyword);
  (bstr "let", Kind.LetKeyword); (bstr "package", Kind.PackageKeyword);
  (bstr "private", Kind.PrivateKeyword); (bstr "protected", Kind.ProtectedKeyword);
  (bstr "public", Kind.PublicKeyword); (bstr "static", Kind.StaticKeyword);
  (bstr "yield", Kind.YieldKeyword); (bstr "abstract", Kind.AbstractKeyword);
  (bstr "accessor", Kind.AccessorKeyword); (bstr "as", Kind.AsKeyword);
  (bstr "asserts", Kind.AssertsKeyword); (bstr "assert", Kind.AssertKeyword);
  (bstr "any", Kind.AnyKeyword); (bstr "async", Kind.AsyncKeyword);
  (bstr "await", Kind.AwaitKeyword); (bstr "boolean", Kind.BooleanKeyword);
  (bstr "constructor", Kind.ConstructorKeyword); (bstr "declare", Kind.DeclareKeyword);
  (bstr "get", Kind.GetKeyword); (bstr "immediate", Kind.ImmediateKeyword);
  (bstr "infer", Kind.InferKeyword); (bstr "intrinsic", Kind.IntrinsicKeyword);
  (bstr "is", Kind.IsKeyword); (bstr "keyof", Kind.KeyOfKeyword);
  (bstr "module", Kind.ModuleKeyword); (bstr "namespace", Kind.NamespaceKeyword);
  (bstr "never", Kind.NeverKeyword); (bstr "out", Kind.OutKeyword);
  (bstr "readonly", Kind.ReadonlyKeyword); (bstr "require", Kind.RequireKeyword);
  (bstr "number", Kind.NumberKeyword); (bstr "object", Kind.ObjectKeyword);
  (bstr "satisfies", Kind.SatisfiesKeyword); (bstr "set", Kind.SetKeyword);
  (bstr "string", Kind.StringKeyword); (bstr "symbol", Kind.SymbolKeyword);
  (bstr "type", Kind.TypeKeyword); (bstr "undefined", Kind.UndefinedKeyword);
  (bstr "unique", Kind.UniqueKeyword); (bstr "unknown", Kind.UnknownKeyword);
  (bstr "using", Kind.UsingKeyword); (bstr "from", Kind.FromKeyword);
  (bstr "global", Kind.GlobalKeyword); (bstr "bigint", Kind.BigIntKeyword);
  (bstr "override", Kind.OverrideKeyword); (bstr "of", Kind.OfKeyword);
  (bstr "defer", Kind.DeferKeyword)].

Definition string_to_keyword_kind (text : bytes) : Kind :=
  default Kind.Unknown (assoc keyword_table text).

Definition punctuation_table : list (bytes * Kind) := [
  (bstr "{", Kind.OpenBraceToken); (bstr "}", Kind.CloseBraceToken);
  (bstr "(", Kind.OpenParenToken); (bstr ")", Kind.CloseParenToken);
  (bstr "[", Kind.OpenBracketToken); (bstr "]", Kind.CloseBracketToken);
  (bstr ".", Kind.DotToken); (bstr "...", Kind.DotDotDotToken);
  (bstr ";", Kind.SemicolonToken); (bstr ",", Kind.CommaToken); (bstr "<", Kind.LessThanToken);
  (bstr ">", Kind.GreaterThanToken); (bstr "<=", Kind.LessThanEqualsToken);
  (bstr ">=", Kind.GreaterThanEqualsToken); (bstr "==", Kind.EqualsEqualsToken);
  (bstr "!=", Kind.ExclamationEqualsToken); (bstr "===", Kind.EqualsEqualsEqualsToken);
  (bstr "!==", Kind.ExclamationEqualsEqualsToken); (bstr "=>", Kind.EqualsGreaterThanToken);
  (bstr "+", Kind.PlusToken); (bstr "-", Kind.MinusToken);
  (bstr "**", Kind.AsteriskAsteriskToken); (bstr "*", Kind.AsteriskToken);
  (bstr "/", Kind.SlashToken); (bstr "%", Kind.PercentToken); (bstr "++", Kind.PlusPlusToken);
  (bstr "--", Kind.MinusMinusToken); (bstr "<<", Kind.LessThanLessThanToken);
  (bstr "</", Kind.LessThanSlashToken); (bstr ">>", Kind.GreaterThanGreaterThanToken);
  (bstr ">>>", Kind.GreaterThanGreaterThanGreaterThanToken); (bstr "&", Kind.AmpersandToken);
  (bstr "|", Kind.BarToken); (bstr "^", Kind.CaretToken); (bstr "!", Kind.ExclamationToken);
  (bstr "~", Kind.TildeToken); (bstr "&&", Kind.AmpersandAmpersandToken);
  (bstr "||", Kind.BarBarToken); (bstr "?", Kind.QuestionToken);
  (bstr "??", Kind.QuestionQuestionToken); (bstr "?.", Kind.QuestionDotToken);
  (bstr ":", Kind.ColonToken); (bstr "=", Kind.EqualsToken); (bstr "+=", Kind.PlusEqualsToken);
  (bstr "-=", Kind.MinusEqualsToken); (bstr "*=", Kind.AsteriskEqualsToken);
  (bstr "**=", Kind.AsteriskAsteriskEqualsToken); (bstr "/=", Kind.SlashEqualsToken);
  (bstr "%=", Kind.PercentEqualsToken); (bstr "<<=", Kind.LessThanLessThanEqualsToken);
  (bstr ">>=", Kind.GreaterThanGreaterThanEqualsToken);
  (bstr ">>>=", Kind.GreaterThanGreaterThanGreaterThanEqualsToken);
  (bstr "&=", Kind.AmpersandEqualsToken); (bstr "|=", Kind.BarEqualsToken);
  (bstr "^=", Kind.CaretEqualsToken); (bstr "||=", Kind.BarBarEqualsToken);
  (bstr "&&=", Kind.AmpersandAmpersandEqualsToken);
  (bstr "??=", Kind.QuestionQuestionEqualsToken); (bstr "@", Kind.AtToken);
  (bstr "#", Kind.HashToken); (bstr "`", Kind.BacktickToken)].

Definition string_to_token (s : bytes) : Kind :=
  match assoc punctuation_table s with
  | Some k => k
  | None => string_to_keyword_kind s
  end.

Definition token_to_string (token : Kind) : bytes :=
  match token with
  | Kind.OpenBraceToken => bstr "{" | Kind.CloseBraceToken => bstr "}"
  | Kind.OpenParenToken => bstr "(" | Kind.CloseParenToken => bstr ")"
  | Kind.OpenBracketToken => bstr "[" | Kind.CloseBracketToken => bstr "]"
  | Kind.DotToken => bstr "." | Kind.DotDotDotToken => bstr "..."
  | Kind.SemicolonToken => bstr ";" | Kind.CommaToken => bstr ","
  | Kind.LessThanToken => bstr "<" | Kind.GreaterThanToken => bstr ">"
  | Kind.LessThanEqualsToken => bstr "<=" | Kind.GreaterThanEqualsToken => bstr ">="
  | Kind.EqualsEqualsToken => bstr "==" | Kind.ExclamationEqualsToken => bstr "!="
  | Kind.EqualsEqualsEqualsToken => bstr "==="
  | Kind.ExclamationEqualsEqualsToken => bstr "!==" | Kind.EqualsGreaterThanToken => bstr "=>"
  | Kind.PlusToken => bstr "+" | Kind.MinusToken => bstr "-"
  | Kind.AsteriskAsteriskToken => bstr "**" | Kind.AsteriskToken => bstr "*"
  | Kind.SlashToken => bstr "/" | Kind.PercentToken => bstr "%"
  | Kind.PlusPlusToken => bstr "++" | Kind.MinusMinusToken => bstr "--"
  | Kind.LessThanLessThanToken => bstr "<<" | Kind.LessThanSlashToken => bstr "</"
  | Kind.GreaterThanGreaterThanToken => bstr ">>"
  | Kind.GreaterThanGreaterThanGreaterThanToken => bstr ">>>" | Kind.AmpersandToken => bstr "&"
  | Kind.BarToken => bstr "|" | Kind.CaretToken => bstr "^" | Kind.ExclamationToken => bstr "!"
  | Kind.TildeToken => bstr "~" | Kind.AmpersandAmpersandToken => bstr "&&"
  | Kind.BarBarToken => bstr "||" | Kind.QuestionToken => bstr "?"
  | Kind.QuestionQuestionToken => bstr "??" | Kind.QuestionDotToken => bstr "?."
  | Kind.ColonToken => bstr ":" | Kind.EqualsToken => bstr "="
  | Kind.PlusEqualsToken => bstr "+=" | Kind.MinusEqualsToken => bstr "-="
  | Kind.AsteriskEqualsToken => bstr "*=" | Kind.AsteriskAsteriskEqualsToken => bstr "**="
  | Kind.SlashEqualsToken => bstr "/=" | Kind.PercentEqualsToken => bstr "%="
  | Kind.LessThanLessThanEqualsToken => bstr "<<="
  | Kind.GreaterThanGreaterThanEqualsToken => bstr ">>="
  | Kind.GreaterThanGreaterThanGreaterThanEqualsToken => bstr ">>>="
  | Kind.AmpersandEqualsToken => bstr "&=" | Kind.BarEqualsToken => bstr "|="
  | Kind.CaretEqualsToken => bstr "^=" | Kind.BarBarEqualsToken => bstr "||="
  | Kind.AmpersandAmpersandEqualsToken => bstr "&&="
  | Kind.QuestionQuestionEqualsToken => bstr "??=" | Kind.AtToken => bstr "@"
  | Kind.HashToken => bstr "#" | Kind.BacktickToken => bstr "`"
  | Kind.AbstractKeyword => bstr "abstract" | Kind.AccessorKeyword => bstr "accessor"
  | Kind.AnyKeyword => bstr "any" | Kind.AsKeyword => bstr "as"
  | Kind.AssertsKeyword => bstr "asserts" | Kind.AssertKeyword => bstr "assert"
  | Kind.BigIntKeyword => bstr "bigint" | Kind.BooleanKeyword => bstr "boolean"
  | Kind.BreakKeyword => bstr "break" | Kind.CaseKeyword => bstr "case"
  | Kind.CatchKeyword => bstr "catch" | Kind.ClassKeyword => bstr "class"
  | Kind.ContinueKeyword => bstr "continue" | Kind.ConstKeyword => bstr "const"
  | Kind.ConstructorKeyword => bstr "constructor" | Kind.DebuggerKeyword => bstr "debugger"
  | Kind.DeclareKeyword => bstr "declare" | Kind.DefaultKeyword => bstr "default"
  | Kind.DeferKeyword => bstr "defer" | Kind.DeleteKeyword => bstr "delete"
  | Kind.DoKeyword => bstr "do" | Kind.ElseKeyword => bstr "else"
  | Kind.EnumKeyword => bstr "enum" | Kind.ExportKeyword => bstr "export"
  | Kind.ExtendsKeyword => bstr "extends" | Kind.FalseKeyword => bstr "false"
  | Kind.FinallyKeyword => bstr "finally" | Kind.ForKeyword => bstr "for"
  | Kind.FromKeyword => bstr "from" | Kind.FunctionKeyword => bstr "function"
  | Kind.GetKeyword => bstr "get" | Kind.IfKeyword => bstr "if"
  | Kind.ImmediateKeyword => bstr "immediate" | Kind.ImplementsKeyword => bstr "implements"
  | Kind.ImportKeyword => bstr "import" | Kind.InKeyword => bstr "in"
  | Kind.InferKeyword => bstr "infer" | Kind.InstanceOfKeyword => bstr "instanceof"
  | Kind.InterfaceKeyword => bstr "interface" | Kind.IntrinsicKeyword => bstr "intrinsic"
  | Kind.IsKeyword => bstr "is" | Kind.KeyOfKeyword => bstr "keyof"
  | Kind.LetKeyword => bstr "let" | Kind.ModuleKeyword => bstr "module"
  | Kind.NamespaceKeyword => bstr "namespace" | Kind.NeverKeyword => bstr "never"
  | Kind.NewKeyword => bstr "new" | Kind.NullKeyword => bstr "null"
  | Kind.NumberKeyword => bstr "number" | Kind.ObjectKeyword => bstr "object"
  | Kind.PackageKeyword => bstr "package" | Kind.PrivateKeyword => bstr "private"
  | Kind.ProtectedKeyword => bstr "protected" | Kind.PublicKeyword => bstr "public"
  | Kind.OverrideKeyword => bstr "override" | Kind.OutKeyword => bstr "out"
  | Kind.ReadonlyKeyword => bstr "readonly" | Kind.RequireKeyword => bstr "require"
  | Kind.GlobalKeyword => bstr "global" | Kind.ReturnKeyword => bstr "return"
  | Kind.SatisfiesKeyword => bstr "satisfies" | Kind.SetKeyword => bstr "set"
  | Kind.StaticKeyword => bstr "static" | Kind.StringKeyword => bstr "string"
  | Kind.SuperKeyword => bstr "super" | Kind.SwitchKeyword => bstr "switch"
  | Kind.SymbolKeyword => bstr "symbol" | Kind.ThisKeyword => bstr "this"
  | Kind.ThrowKeyword => bstr "throw" | Kind.TrueKeyword => bstr "true"
  | Kind.TryKeyword => bstr "try" | Kind.TypeKeyword => bstr "type"
  | Kind.TypeOfKeyword => bstr "typeof" | Kind.UndefinedKeyword => bstr "undefined"
  | Kind.UniqueKeyword => bstr "unique" | Kind.UnknownKeyword => bstr "unknown"
  | Kind.UsingKeyword => bstr "using" | Kind.VarKeyword => bstr "var"
  | Kind.VoidKeyword => bstr "void" | Kind.WhileKeyword => bstr "while"
  | Kind.WithKeyword => bstr "with" | Kind.YieldKeyword => bstr "yield"
  | Kind.AsyncKeyword => bstr "async" | Kind.AwaitKeyword => bstr "await"
  | Kind.OfKeyword => bstr "of"
  | _ => []
  end.

Definition KEYWORD_TEXTS : list bytes := [
  bstr "abstract"; bstr "accessor"; bstr "any"; bstr "as"; bstr "asserts"; bstr "assert";
  bstr "bigint"; bstr "boolean"; bstr "break"; bstr "case"; bstr "catch"; bstr "class";
  bstr "continue"; bstr "const"; bstr "constructor"; bstr "debugger"; bstr "declare";
  bstr "default"; bstr "defer"; bstr "delete"; bstr "do"; bstr "else"; bstr "enum";
  bstr "export"; bstr "extends"; bstr "false"; bstr "finally"; bstr "for"; bstr "from";
  bstr "function"; bstr "get"; bstr "if"; bstr "immediate"; bstr "implements"; bstr "import";
  bstr "in"; bstr "infer"; bstr "instanceof"; bstr "interface"; bstr "intrinsic"; bstr "is";
  bstr "keyof"; bstr "let"; bstr "module"; bstr "namespace"; bstr "never"; bstr "new";
  bstr "null"; bstr "number"; bstr "object"; bstr "package"; bstr "private"; bstr "protected";
  bstr "public"; bstr "override"; bstr "out"; bstr "readonly"; bstr "require"; bstr "global";
  bstr "return"; bstr "satisfies"; bstr "set"; bstr "static"; bstr "string"; bstr "super";
  bstr "switch"; bstr "symbol"; bstr "this"; bstr "throw"; bstr "true"; bstr "try";
  bstr "type"; bstr "typeof"; bstr "undefined"; bstr "unique"; bstr "unknown"; bstr "using";
  bstr "var"; bstr "void"; bstr "while"; bstr "with"; bstr "yield"; bstr "async"; bstr "await";
  bstr "of"].

Definition get_viable_keyword_suggestions : list bytes :=
  filter (fun text => (2 < length text)%nat) KEYWORD_TEXTS.

Definition get_identifier_token (text : bytes) : Kind :=
  if (2 <=? length text)%nat && (length text <=? 12)%nat
     && match text with b :: _ => (97 <=? b) && (b <=? 122) | [] => false end
  then
    let keyword := string_to_keyword_kind text in
    if Kind_eqb keyword Kind.Unknown then Kind.Identifier else keyword
  else Kind.Identifier.

Definition token_is_identifier_or_keyword (token : Kind) : bool := Kind_geb token Kind.Identifier.

(** ** Lookups in the tables *)
Lemma assoc_Some table s k : assoc table s = Some k -> (s, k) ∈ table.
Proof.
  induction table as [|[t k'] table IH]; [done|]. cbn. case_bool_decide.
  - intros [= ->]. subst. apply elem_of_cons. by left.
  - intros H'. apply elem_of_cons. right. by apply IH.
Qed.

(** Every row of a table satisfies a decidable property. *)
Lemma table_all (P : bytes * Kind -> bool) table s k :
  forallb P table = true -> assoc table s = Some k -> P (s, k) = true.
Proof.
  intros H Ha. apply assoc_Some in Ha. rewrite forallb_forall in H. apply H.
  by apply list_elem_of_In.
Qed.

(** A kind is unknown exactly when the text has no row. *)
Lemma string_to_keyword_kind_known text :
  string_to_keyword_kind text <> Kind.Unknown -> assoc keyword_table text = Some (string_to_keyword_kind text).
Proof. unfold string_to_keyword_kind. by destruct (assoc keyword_table text). Qed.

Definition identifier_filter (text : bytes) : bool :=
  (2 <=? length text)%nat && (length text <=? 12)%nat
  && match text with b :: _ => (97 <=? b) && (b <=? 122) | [] => false end.

Lemma keyword_passes_filter text :
  string_to_keyword_kind text <> Kind.Unknown -> identifier_filter text = true.
Proof.
  intros H. apply string_to_keyword_kind_known in H.
  eapply (table_all (fun r => identifier_filter r.1)) in H; [done|]. vm_compute. reflexivity.
Qed.

Lemma get_identifier_token_eq (text : bytes) :
  get_identifier_token text
  = if decide (string_to_keyword_kind text = Kind.Unknown) then Kind.Identifier
    else string_to_keyword_kind text.
Proof.
  unfold get_identifier_token. fold (identifier_filter text). case_decide as H.
  - rewrite H. by destruct (identifier_filter text).
  - rewrite (keyword_passes_filter text H). cbn zeta. by rewrite (proj2 (Kind_eqb_neq _ _) H).
Qed.

(** Keywords are identifier-like tokens: the order of [Kind] puts them above [Identifier]. *)
Lemma get_identifier_token_geb text : token_is_identifier_or_keyword (get_identifier_token text) = true.
Proof.
  rewrite get_identifier_token_eq. case_decide as H; [done|].
  apply string_to_keyword_kind_known in H.
  eapply (table_all (fun r => token_is_identifier_or_keyword r.2)) in H; [done|].
  vm_compute. reflexivity.
Qed.

(** The length and first-byte filter of [get_identifier_token] loses no keyword: an identifier is
    classified exactly as the full keyword table says, with [Identifier] for every other text; the
    result is a kind the parser takes for an identifier or keyword, and a keyword's kind prints as
    the text it was read from. *)
Theorem get_identifier_token_complete (text : bytes) :
  get_identifier_token text
    = (if decide (string_to_keyword_kind text = Kind.Unknown) then Kind.Identifier
       else string_to_keyword_kind text)
  /\ token_is_identifier_or_keyword (get_identifier_token text) = true
  /\ (get_identifier_token text = Kind.Identifier
      \/ token_to_string (get_identifier_token text) = text).
Proof.
  split; [apply get_identifier_token_eq|]. split; [apply get_identifier_token_geb|].
  rewrite get_identifier_token_eq. case_decide as H; [by left|]. right.
  apply string_to_keyword_kind_known in H.
  eapply (table_all (fun r => bool_decide (token_to_string r.2 = r.1))) in H.
  - by apply bool_decide_eq_true in H.
  - by vm_compute.
Qed.

(** Token texts and token kinds are inverse tables: the kind of a token's text is that token, and
    every text with a known kind is that kind's text, so neither direction merges two tokens. *)
Theorem token_text_roundtrip (k : Kind) (s : bytes) :
  (token_to_string k = [] \/ string_to_token (token_to_string k) = k)
  /\ (string_to_token s = Kind.Unknown \/ token_to_string (string_to_token s) = s).
Proof.
  split.
  - by destruct k; (left; reflexivity) || (right; vm_compute; reflexivity).
  - destruct (decide (string_to_token s = Kind.Unknown)) as [|H]; [by left|right].
    unfold string_to_token in *. destruct (assoc punctuation_table s) as [k'|] eqn:E.
    + eapply (table_all (fun r => bool_decide (token_to_string r.2 = r.1))) in E.
      * by apply bool_decide_eq_true in E.
      * vm_compute. reflexivity.
    + apply string_to_keyword_kind_known in H.
      eapply (table_all (fun r => bool_decide (token_to_string r.2 = r.1))) in H.
      * by apply bool_decide_eq_true in H.
      * vm_compute. reflexivity.
Qed.
