(* ===== verification/Trivia.v ===== *)
(** * Trivia: white space, comments, conflict markers (ts-scanner/src/scanner.rs)

    The functions of the scanner that work on a text and a position without a scanner: skipping
    trivia and listing comment ranges. They return [None] where the Rust code panics (slicing off a
    character boundary) or where a loop of the model is out of fuel; the theorems show that neither
    happens on a valid text. *)
From S2P Require Import Prelude Text Chars SyntaxKind.

Definition MERGE_CONFLICT_MARKER_LENGTH : nat := 7.

Record SkipTriviaOptions := { stop_after_line_break : bool; stop_at_comments : bool }.

(** [&text[pos..]] *)
Definition slice_from (text : bytes) (pos : nat) : option bytes := slice text pos (length text).

Definition scan_line_comment (text : bytes) (pos : nat) : option nat :=
  rest ← slice_from text pos;
  Some (match find_index (fun b => (b =? 13) || (b =? 10)) rest with
        | Some offset => (pos + offset)%nat
        | None => length text
        end).

Definition scan_block_comment (text : bytes) (pos : nat) : option nat :=
  rest ← slice_from text (pos + 2);
  Some (match find_sub (bstr "*/") rest with
        | Some offset => (pos + 2 + offset + 2)%nat
        | None => length text
        end).

(** Conflict markers must be at the start of a line. *)
Definition at_line_start (text : bytes) (pos : nat) : bool :=
  (pos =? 0)%nat
  || match text !! (pos - 1)%nat with
     | Some b => (b =? 10) || (b =? 13)
     | None => false
     end.

Definition is_conflict_marker_trivia (text : bytes) (pos : nat) : bool :=
  if negb (at_line_start text pos) then false
  else match text !! pos with
       | None => false
       | Some ch =>
           if negb ((ch =? chr "<") || (ch =? chr "|") || (ch =? chr "=") || (ch =? chr ">"))
           then false
           else if (length text <=? pos + MERGE_CONFLICT_MARKER_LENGTH)%nat then false
           else if negb (forallb (fun i => bool_decide (text !! (pos + i)%nat = Some ch))
                           (seq 0 MERGE_CONFLICT_MARKER_LENGTH)) then false
           else (ch =? chr "=")
                || bool_decide (text !! (pos + MERGE_CONFLICT_MARKER_LENGTH)%nat = Some (chr " "))
       end.

(** The loop of [scan_conflict_marker_trivia]: from the start of a [|||||||] or [=======] marker to
    the start of the next [=======] or [>>>>>>>] marker. *)
Fixpoint conflict_marker_end (fuel : nat) (text : bytes) (ch : byte) (pos : nat) : option nat :=
  match fuel with
  | O => None
  | S fuel =>
      match text !! pos with
      | None => Some pos
      | Some current_char =>
          if ((current_char =? chr "=") || (current_char =? chr ">"))
             && negb (current_char =? ch) && is_conflict_marker_trivia text pos
          then Some pos
          else conflict_marker_end fuel text ch (pos + 1)
      end
  end.

Definition scan_conflict_marker_trivia (text : bytes) (pos : nat) : option nat :=
  match text !! pos with
  | None => Some pos
  | Some ch =>
      if (ch =? chr "<") || (ch =? chr ">") then scan_line_comment text pos
      else conflict_marker_end (S (length text)) text ch pos
  end.

Definition is_shebang_trivia (text : bytes) (pos : nat) : bool :=
  (pos =? 0)%nat && starts_with (bstr "#!") text.

Definition scan_shebang_trivia (text : bytes) (pos : nat) : option nat :=
  scan_line_comment text pos.

Definition get_shebang (text : bytes) : option bytes :=
  if is_shebang_trivia text 0
  then e ← scan_shebang_trivia text 0; slice text 0 e
  else Some [].

Definition option_flag (f : SkipTriviaOptions -> bool) (options : option SkipTriviaOptions) : bool :=
  match options with Some o => f o | None => false end.

(** One iteration of [skip_trivia_ex]: [inl] continues at a new position, [inr] returns. *)
Definition skip_trivia_step (text : bytes) (options : option SkipTriviaOptions) (pos : nat)
    : option (nat + nat) :=
  if is_shebang_trivia text pos then inl <$> scan_shebang_trivia text pos
  else if is_conflict_marker_trivia text pos then inl <$> scan_conflict_marker_trivia text pos
  else
    rest ← slice_from text pos;
    if starts_with (bstr "//") rest then
      if option_flag stop_at_comments options then Some (inr pos)
      else inl <$> scan_line_comment text pos
    else if starts_with (bstr "/*") rest then
      if option_flag stop_at_comments options then Some (inr pos)
      else inl <$> scan_block_comment text pos
    else match next_char rest with
         | None => Some (inr pos)
         | Some (ch, size) =>
             if (ch =? 13) || (ch =? 10) then
               let pos := (pos + size)%nat in
               next ← slice_from text pos;
               let pos := if (ch =? 13) && starts_with [10] next then (pos + 1)%nat else pos in
               if option_flag stop_after_line_break options then Some (inr pos)
               else Some (inl pos)
             else if is_white_space_like ch then Some (inl (pos + size)%nat)
             else Some (inr pos)
         end.

Fixpoint skip_trivia_loop (fuel : nat) (text : bytes) (options : option SkipTriviaOptions)
    (pos : nat) : option nat :=
  match fuel with
  | O => None
  | S fuel =>
      if (pos <? length text)%nat then
        r ← skip_trivia_step text options pos;
        match r with
        | inl pos' => skip_trivia_loop fuel text options pos'
        | inr pos' => Some pos'
        end
      else Some pos
  end.

Definition skip_trivia_ex (text : bytes) (pos : nat) (options : option SkipTriviaOptions)
    : option nat := skip_trivia_loop (S (length text)) text options pos.

Definition skip_trivia (text : bytes) (pos : nat) : option nat := skip_trivia_ex text pos None.

(** ** Comment ranges *)
Record CommentRange := {
  range_pos : Z;
  range_end : Z;
  comment_kind : Kind;
  has_trailing_new_line : bool;
}.

Definition set_trailing_new_line (c : CommentRange) : CommentRange :=
  {| range_pos := range_pos c; range_end := range_end c; comment_kind := comment_kind c;
     has_trailing_new_line := true |}.

(** [ch.is_whitespace()] on the characters above U+007F. *)
Definition is_whitespace_non_ascii (ch : char) : bool :=
  existsb (Z.eqb ch)
    [133; 160; 5760; 8192; 8193; 8194; 8195; 8196; 8197; 8198; 8199; 8200; 8201; 8202; 8232;
     8233; 8239; 8287; 12288].

(** The local variables of [iterate_comment_ranges]. *)
Record comment_state := {
  cs_pos : nat;
  cs_pending : option CommentRange;
  cs_ranges : list CommentRange;
  cs_collecting : bool;
}.

Definition cs_move (pos : nat) (st : comment_state) : comment_state :=
  {| cs_pos := pos; cs_pending := cs_pending st; cs_ranges := cs_ranges st;
     cs_collecting := cs_collecting st |}.

(** The end of the comment that starts at [pos], after its two first bytes, and whether a line
    comment was ended by a line break. *)
Definition comment_body_end (text : bytes) (kind : Kind) (pos : nat) : nat * bool :=
  if Kind_eqb kind Kind.SingleLineCommentTrivia then
    match find_index (fun b => (b =? 13) || (b =? 10)) (drop pos text) with
    | Some offset => ((pos + offset)%nat, true)
    | None => (Nat.max pos (length text), false)
    end
  else
    match find_sub (bstr "*/") (drop pos text) with
    | Some offset => ((pos + offset + 2)%nat, false)
    | None => (Nat.max pos (length text), false)
    end.

(** A comment at the current position: it becomes the pending one, the previous pending one is
    pushed. *)
Definition comment_at (text : bytes) (second : byte) (st : comment_state) : comment_state :=
  let kind := if second =? chr "/" then Kind.SingleLineCommentTrivia
              else Kind.MultiLineCommentTrivia in
  let start := cs_pos st in
  let '(pos, has_trailing) := comment_body_end text kind (start + 2) in
  if cs_collecting st then
    {| cs_pos := pos;
       cs_pending := Some {| range_pos := as_i32 (Z.of_nat start); range_end := as_i32 (Z.of_nat pos);
                             comment_kind := kind; has_trailing_new_line := has_trailing |};
       cs_ranges := cs_ranges st ++ option_list (cs_pending st);
       cs_collecting := true |}
  else cs_move pos st.

(** The arm of a byte above 0x7f: only white space is skipped. *)
Definition comment_non_ascii (text : bytes) (st : comment_state)
    : option (comment_state + comment_state) :=
  rest ← slice_from text (cs_pos st);
  match next_char rest with
  | None => Some (inr st)
  | Some (ch, size) =>
      if is_whitespace_non_ascii ch then
        Some (inl {| cs_pos := cs_pos st + size;
                     cs_pending :=
                       if (ch =? 8232) || (ch =? 8233)
                       then set_trailing_new_line <$> cs_pending st else cs_pending st;
                     cs_ranges := cs_ranges st; cs_collecting := cs_collecting st |})
      else Some (inr st)
  end.

(** One iteration of the loop on the byte [b] at the current position: [inl] continues, [inr]
    breaks. *)
Definition comment_step (text : bytes) (trailing : bool) (b : byte) (st : comment_state)
    : option (comment_state + comment_state) :=
  let pos := cs_pos st in
  let second := default 0 (text !! (pos + 1)%nat) in
  if (b =? 13) || (b =? 10) then
    let pos := if (b =? 13) && (second =? 10) then (pos + 2)%nat else (pos + 1)%nat in
    if trailing then Some (inr (cs_move pos st))
    else Some (inl {| cs_pos := pos; cs_pending := set_trailing_new_line <$> cs_pending st;
                      cs_ranges := cs_ranges st; cs_collecting := true |})
  else if (b =? 9) || (b =? 11) || (b =? 12) || (b =? 32) then
    Some (inl (cs_move (pos + 1) st))
  else if (b =? chr "/") && ((second =? chr "/") || (second =? chr "*")) then
    Some (inl (comment_at text second st))
  else if 127 <? b then comment_non_ascii text st
  else Some (inr st).

Fixpoint comment_loop (fuel : nat) (text : bytes) (trailing : bool) (st : comment_state)
    : option comment_state :=
  match fuel with
  | O => None
  | S fuel =>
      match text !! cs_pos st with
      | None => Some st
      | Some b =>
          r ← comment_step text trailing b st;
          match r with
          | inl st' => comment_loop fuel text trailing st'
          | inr st' => Some st'
          end
      end
  end.

Definition iterate_comment_ranges (text : bytes) (pos : Z) (trailing : bool)
    : option (list CommentRange) :=
  if pos <? 0 then Some []
  else
    let pos := Z.to_nat (Z.min pos (as_i32 (Z.of_nat (length text)))) in
    start ← (if (pos =? 0)%nat && is_shebang_trivia text pos
             then scan_shebang_trivia text pos else Some pos);
    st ← comment_loop (S (length text)) text trailing
           {| cs_pos := start; cs_pending := None; cs_ranges := [];
              cs_collecting := trailing || (pos =? 0)%nat |};
    Some (cs_ranges st ++ option_list (cs_pending st)).

Definition get_leading_comment_ranges (text : bytes) (pos : Z) : option (list CommentRange) :=
  iterate_comment_ranges text pos false.

Definition get_trailing_comment_ranges (text : bytes) (pos : Z) : option (list CommentRange) :=
  iterate_comment_ranges text pos true.

(** ** Positions inside a text *)

(** A position the functions of this file keep: a character boundary of the text. *)
Definition at_boundary (text : bytes) (pos : nat) : Prop :=
  is_char_boundary text pos = true /\ (pos <= length text)%nat.

Lemma at_boundary_len text : at_boundary text (length text).
Proof. split; [apply is_char_boundary_len|lia]. Qed.

Lemma at_boundary_ascii text pos b :
  valid_utf8 text -> text !! pos = Some b -> b < 128 ->
  at_boundary text pos /\ at_boundary text (pos + 1).
Proof.
  intros Hv Hb Hlt. pose proof (lookup_lt_Some _ _ _ Hb).
  destruct (ascii_byte_boundary text pos b Hv Hb Hlt) as [H1 H2].
  rewrite Nat.add_1_r. split; split; (done || lia).
Qed.

Lemma slice_from_at text pos : at_boundary text pos -> slice_from text pos = Some (drop pos text).
Proof.
  intros [H1 H2]. unfold slice_from. rewrite slice_some; [|done|done|apply is_char_boundary_len].
  f_equal. apply take_ge. rewrite length_drop. lia.
Qed.

Lemma next_char_boundary text pos ch size :
  valid_utf8 text -> at_boundary text pos -> next_char (drop pos text) = Some (ch, size) ->
  at_boundary text (pos + size) /\ (1 <= size)%nat /\ (pos < length text)%nat.
Proof.
  intros Hv [H1 H2] Hn. destruct (decide (pos < length text)%nat) as [Hlt|].
  - destruct (next_char_at text pos Hv H1 Hlt) as (ch' & size' & Hn' & Hs).
    rewrite Hn in Hn'. injection Hn' as <- <-. pose proof (cas_pos _ _ _ _ Hs).
    split; [|lia]. split; [by eapply cas_next|by eapply cas_bound].
  - rewrite drop_ge in Hn by lia. done.
Qed.

(** A needle of ASCII bytes found in a text ends at a boundary. *)
Lemma starts_with_ascii_boundary text pos needle :
  valid_utf8 text -> is_ascii needle = true -> needle <> [] ->
  starts_with needle (drop pos text) = true ->
  at_boundary text pos /\ at_boundary text (pos + length needle).
Proof.
  intros Hv Ha Hne Hs. apply starts_with_spec in Hs as [r Hr].
  assert (forall k b, needle !! k = Some b -> text !! (pos + k)%nat = Some b /\ b < 128) as Hk.
  { intros k b Hb. split.
    - rewrite <- lookup_drop, Hr. by apply lookup_app_l_Some.
    - unfold is_ascii in Ha. rewrite forallb_forall in Ha.
      assert (In b needle) as Hin by (apply list_elem_of_In; by eapply list_elem_of_lookup_2).
      specialize (Ha b Hin). cbn in Ha. bool_to_prop. lia. }
  destruct needle as [|b0 needle]; [done|].
  destruct (Hk 0%nat b0 eq_refl) as [H1 H2]. rewrite Nat.add_0_r in H1. split.
  - by eapply at_boundary_ascii.
  - destruct (lookup_lt_is_Some_2 (b0 :: needle) (length needle)) as [b Hb]; [cbn; lia|].
    destruct (Hk _ _ Hb) as [H3 H4]. cbn [length].
    replace (pos + S (length needle))%nat with (pos + length needle + 1)%nat by lia.
    by eapply at_boundary_ascii.
Qed.

Lemma at_boundary_starts text pos needle :
  valid_utf8 text -> is_ascii needle = true -> needle <> [] ->
  starts_with needle (drop pos text) = true ->
  at_boundary text pos /\ at_boundary text (pos + length needle)
  /\ (pos + length needle <= length text)%nat.
Proof.
  intros Hv Ha Hne Hs.
  destruct (starts_with_ascii_boundary text pos needle) as [H1 H2]; [done..|].
  split; [done|]. split; [done|]. apply H2.
Qed.

(** ** Totality of the scanning functions *)
Lemma scan_line_comment_total text pos :
  valid_utf8 text -> at_boundary text pos ->
  exists e, scan_line_comment text pos = Some e /\ at_boundary text e /\ (pos <= e)%nat
    /\ (forall b, text !! pos = Some b -> b <> 13 -> b <> 10 -> (pos < e)%nat).
Proof.
  intros Hv Hp. unfold scan_line_comment. rewrite slice_from_at by done. cbn.
  destruct (find_index _ (drop pos text)) as [o|] eqn:E.
  - apply find_index_Some in E as (b & Hb & Hpb & Hbefore). rewrite lookup_drop in Hb.
    exists (pos + o)%nat. split; [done|]. split.
    { eapply at_boundary_ascii; [done|done|]. apply orb_true_iff in Hpb as [H|H]; bool_to_prop; lia. }
    split; [lia|]. intros b' Hb' H13 H10. destruct o as [|o]; [|lia].
    rewrite Nat.add_0_r in Hb. rewrite Hb in Hb'. injection Hb' as ->.
    apply orb_true_iff in Hpb as [H|H]; bool_to_prop; lia.
  - exists (length text). split; [done|]. split; [apply at_boundary_len|].
    split; [apply Hp|]. intros b Hb _ _. by apply lookup_lt_Some in Hb.
Qed.

Lemma scan_block_comment_total text pos :
  valid_utf8 text -> starts_with (bstr "/*") (drop pos text) = true ->
  exists e, scan_block_comment text pos = Some e /\ at_boundary text e /\ (pos < e)%nat.
Proof.
  intros Hv Hs.
  destruct (at_boundary_starts text pos (bstr "/*")) as (H1 & H2 & H3); [done..|].
  cbn [length] in *. unfold scan_block_comment. rewrite slice_from_at by done. cbn.
  destruct (find_sub _ (drop (pos + 2) text)) as [o|] eqn:E.
  - apply find_sub_Some in E as [E _]. rewrite drop_drop in E.
    destruct (at_boundary_starts text (pos + 2 + o) (bstr "*/")) as (H4 & H5 & H6); [done..|].
    eexists. split; [done|]. split; [exact H5|]. lia.
  - eexists. split; [done|]. split; [apply at_boundary_len|]. lia.
Qed.

Lemma conflict_marker_start text pos :
  valid_utf8 text -> is_conflict_marker_trivia text pos = true ->
  exists ch, text !! pos = Some ch /\ ch < 128 /\ ch <> 13 /\ ch <> 10 /\ at_boundary text pos
    /\ (ch = chr "<" \/ ch = chr "|" \/ ch = chr "=" \/ ch = chr ">").
Proof.
  intros Hv. unfold is_conflict_marker_trivia.
  destruct (negb (at_line_start text pos)); [done|].
  destruct (text !! pos) as [ch|] eqn:E; [|done].
  destruct (negb _) eqn:Ech; [done|]. intros _. exists ch.
  assert (ch = 60 \/ ch = 124 \/ ch = 61 \/ ch = 62) as Hch.
  { bool_to_prop. repeat apply orb_true_iff in Ech as [Ech|Ech]; bool_to_prop; lia. }
  split; [done|]. split; [lia|]. split; [lia|]. split; [lia|]. split; [|done].
  eapply at_boundary_ascii; [done|done|lia].
Qed.

Lemma conflict_marker_end_total text ch fuel pos :
  valid_utf8 text -> (pos <= length text)%nat -> (length text - pos < fuel)%nat ->
  exists e, conflict_marker_end fuel text ch pos = Some e /\ at_boundary text e /\ (pos <= e)%nat
    /\ (text !! pos = Some ch -> (pos < e)%nat).
Proof.
  intros Hv. revert pos. induction fuel as [|fuel IH]; intros pos Hp Hf; [lia|].
  cbn [conflict_marker_end]. destruct (text !! pos) as [c|] eqn:E.
  - pose proof (lookup_lt_Some _ _ _ E). case_if.
    + exists pos. split; [done|]. split.
      { edestruct (conflict_marker_start text pos) as (? & ? & ? & ? & ? & ? & ?); done. }
      split; [lia|]. intros [= ->]. done.
    + destruct (IH (pos + 1)%nat) as (e & H1 & H2 & H3 & _); [lia|lia|].
      exists e. split; [done|]. split; [done|]. split; lia.
  - apply lookup_ge_None in E. exists pos. split; [done|].
    assert (pos = length text) as -> by lia. split; [apply at_boundary_len|]. by split.
Qed.

Lemma scan_conflict_marker_total text pos :
  valid_utf8 text -> is_conflict_marker_trivia text pos = true ->
  exists e, scan_conflict_marker_trivia text pos = Some e /\ at_boundary text e /\ (pos < e)%nat.
Proof.
  intros Hv Hm. destruct (conflict_marker_start text pos Hv Hm) as (ch & Hch & Hlt & H13 & H10 & Hb & _).
  unfold scan_conflict_marker_trivia. rewrite Hch. case_if.
  - destruct (scan_line_comment_total text pos Hv Hb) as (e & H1 & H2 & H3 & H4).
    exists e. split; [done|]. split; [done|]. by eapply H4.
  - destruct (conflict_marker_end_total text ch (S (length text)) pos Hv) as (e & H1 & H2 & H3 & H4).
    + apply Hb.
    + lia.
    + exists e. split; [done|]. split; [done|]. by apply H4.
Qed.

Lemma shebang_start text pos :
  is_shebang_trivia text pos = true -> pos = 0%nat /\ text !! 0%nat = Some (chr "#").
Proof.
  unfold is_shebang_trivia. intros H. bool_to_prop. split; [done|].
  apply starts_with_spec in H0 as [r ->]. done.
Qed.

Lemma is_white_space_like_boundary text pos ch size :
  valid_utf8 text -> at_boundary text pos -> next_char (drop pos text) = Some (ch, size) ->
  at_boundary text (pos + size) /\ (pos < pos + size)%nat.
Proof. intros Hv Hp Hn. destruct (next_char_boundary _ _ _ _ Hv Hp Hn) as (? & ? & ?). split; [done|lia]. Qed.

(** One iteration moves forward to a boundary, or returns; without options it returns where it is. *)
Lemma skip_trivia_step_total text options pos :
  valid_utf8 text -> at_boundary text pos -> (pos < length text)%nat ->
  exists r, skip_trivia_step text options pos = Some r
    /\ match r with
       | inl p => at_boundary text p /\ (pos < p)%nat
       | inr p => at_boundary text p /\ (pos <= p)%nat /\ (options = None -> p = pos)
       end.
Proof.
  intros Hv Hp Hlt. unfold skip_trivia_step.
  destruct (is_shebang_trivia text pos) eqn:E1.
  { apply shebang_start in E1 as [-> H0]. unfold scan_shebang_trivia.
    destruct (scan_line_comment_total text 0 Hv Hp) as (e & -> & H2 & H3 & H4).
    exists (inl e). split; [done|]. split; [done|]. by eapply H4. }
  destruct (is_conflict_marker_trivia text pos) eqn:E2.
  { destruct (scan_conflict_marker_total text pos Hv E2) as (e & -> & H2 & H3).
    by exists (inl e). }
  rewrite slice_from_at by done. cbn [mbind option_bind].
  destruct (starts_with (bstr "//") (drop pos text)) eqn:E3.
  { destruct (option_flag _ _) eqn:Ef.
    { exists (inr pos). split; [done|]. split; [done|]. split; [lia|done]. }
    destruct (scan_line_comment_total text pos Hv Hp) as (e & -> & H2 & H3 & H4).
    exists (inl e). split; [done|]. split; [done|].
    apply starts_with_spec in E3 as [r Hr]. apply (H4 47); [|done..].
    by rewrite <- (Nat.add_0_r pos), <- lookup_drop, Hr. }
  destruct (starts_with (bstr "/*") (drop pos text)) eqn:E4.
  { destruct (option_flag _ _) eqn:Ef.
    { exists (inr pos). split; [done|]. split; [done|]. split; [lia|done]. }
    destruct (scan_block_comment_total text pos Hv E4) as (e & -> & H2 & H3).
    by exists (inl e). }
  destruct (next_char (drop pos text)) as [[ch size]|] eqn:En.
  2: { exists (inr pos). split; [done|]. split; [done|]. split; [lia|done]. }
  destruct (is_white_space_like_boundary _ _ _ _ Hv Hp En) as [H5 H6].
  destruct ((ch =? 13) || (ch =? 10)) eqn:Ec.
  - rewrite slice_from_at by done. cbn [mbind option_bind].
    set (p := if (ch =? 13) && starts_with [10] (drop (pos + size) text) then _ else _).
    assert (at_boundary text p /\ (pos < p)%nat) as [H7 H8].
    { subst p. destruct (_ && _) eqn:E; [|done]. bool_to_prop.
      destruct (at_boundary_starts text (pos + size) [10]) as (? & ? & ?); [done..|].
      split; [done|lia]. }
    destruct (option_flag _ _) eqn:Ef.
    + exists (inr p). split; [done|]. split; [done|]. split; [lia|]. by intros ->.
    + by exists (inl p).
  - destruct (is_white_space_like ch).
    + by exists (inl (pos + size)%nat).
    + exists (inr pos). split; [done|]. split; [done|]. by split.
Qed.

Lemma skip_trivia_loop_total text options fuel pos :
  valid_utf8 text -> at_boundary text pos -> (length text - pos < fuel)%nat ->
  exists p, skip_trivia_loop fuel text options pos = Some p /\ at_boundary text p /\ (pos <= p)%nat
    /\ (options = None -> p = length text \/ skip_trivia_step text None p = Some (inr p)).
Proof.
  intros Hv. revert pos. induction fuel as [|fuel IH]; intros pos Hp Hf; [lia|].
  cbn [skip_trivia_loop]. destruct (pos <? length text)%nat eqn:E; bool_to_prop.
  - destruct (skip_trivia_step_total text options pos Hv Hp E) as ([p|p] & Hr & H).
    + rewrite Hr. cbn. destruct H as [H1 H2]. destruct (IH p) as (q & H3 & H4 & H5 & H6);
        [done|lia|]. exists q. split; [done|]. split; [done|]. split; [lia|done].
    + rewrite Hr. cbn. destruct H as (H1 & H2 & H3). exists p. split; [done|]. split; [done|].
      split; [done|]. intros ->. right. by rewrite (H3 eq_refl) in Hr |- *.
  - exists pos. split; [done|]. split; [done|]. split; [lia|]. intros _. left.
    destruct Hp. lia.
Qed.

Lemma skip_trivia_step_inr text p :
  valid_utf8 text -> is_char_boundary text p = true -> skip_trivia_step text None p = Some (inr p) ->
  (p < length text)%nat ->
  exists ch size, next_char (drop p text) = Some (ch, size) /\ is_white_space_like ch = false
    /\ starts_with (bstr "//") (drop p text) = false
    /\ starts_with (bstr "/*") (drop p text) = false
    /\ is_conflict_marker_trivia text p = false.
Proof.
  intros Hv Hb Hs Hlt. unfold skip_trivia_step in Hs.
  rewrite slice_from_at in Hs by (split; [done|lia]).
  destruct (is_shebang_trivia text p); [by destruct (scan_shebang_trivia text p)|].
  destruct (is_conflict_marker_trivia text p); [by destruct (scan_conflict_marker_trivia text p)|].
  cbn [mbind option_bind option_flag] in Hs.
  destruct (starts_with (bstr "//") (drop p text)); [by destruct (scan_line_comment text p)|].
  destruct (starts_with (bstr "/*") (drop p text)); [by destruct (scan_block_comment text p)|].
  destruct (next_char_at text p Hv Hb Hlt) as (ch & size & Hn & Hc). rewrite Hn in Hs |- *.
  exists ch, size. split; [done|]. split; [|done].
  destruct ((ch =? 13) || (ch =? 10)) eqn:E.
  - destruct (slice_from text (p + size)); cbn in Hs; [|done]. by destruct (_ && _).
  - by destruct (is_white_space_like ch).
Qed.

(** [skip_trivia] is total on every text and boundary: it neither panics nor loops, stops at a
    character boundary not before [pos], and what it stops at is not trivia, so that skipping again
    moves nowhere. *)
Theorem skip_trivia_total (text : bytes) (pos : nat) :
  valid_utf8 text -> at_boundary text pos ->
  exists p, skip_trivia text pos = Some p /\ at_boundary text p /\ (pos <= p)%nat
    /\ skip_trivia text p = Some p
    /\ (p = length text \/
        exists ch size, next_char (drop p text) = Some (ch, size)
          /\ is_white_space_like ch = false
          /\ starts_with (bstr "//") (drop p text) = false
          /\ starts_with (bstr "/*") (drop p text) = false
          /\ is_conflict_marker_trivia text p = false).
Proof.
  intros Hv Hp. unfold skip_trivia, skip_trivia_ex.
  destruct (skip_trivia_loop_total text None (S (length text)) pos Hv Hp) as (p & H1 & H2 & H3 & H4);
    [lia|]. exists p. split; [done|]. split; [done|]. split; [done|]. specialize (H4 eq_refl).
  split.
  - cbn [skip_trivia_loop]. destruct (p <? length text)%nat eqn:E; [|done].
    destruct H4 as [->|H4]; [bool_to_prop; lia|]. by rewrite H4.
  - destruct H4 as [H4|H4]; [by left|]. destruct (decide (p = length text)) as [|Hne]; [by left|].
    right. destruct H2 as [Hb Hl]. apply skip_trivia_step_inr in H4; [done|done|done|lia].
Qed.

Lemma skip_trivia_total_witness :
  exists p, skip_trivia (bstr "/* a */ // b") 0 = Some p /\ (0 <= p)%nat.
Proof.
  destruct (skip_trivia_total (bstr "/* a */ // b") 0) as (p & H1 & _ & H2 & _).
  - apply is_ascii_valid. reflexivity.
  - split; [reflexivity|cbn; lia].
  - exists p. split; [exact H1|exact H2].
Defined.

(** ** Comment ranges are the comments of the text, in order *)

(** A range that covers a comment: it starts with the two bytes its kind announces. *)
Definition range_ok (text : bytes) (c : CommentRange) : Prop :=
  range_pos c + 2 <= range_end c <= Z.of_nat (length text)
  /\ 0 <= range_pos c
  /\ (comment_kind c = Kind.SingleLineCommentTrivia
      /\ starts_with (bstr "//") (drop (Z.to_nat (range_pos c)) text) = true
      \/ comment_kind c = Kind.MultiLineCommentTrivia
      /\ starts_with (bstr "/*") (drop (Z.to_nat (range_pos c)) text) = true).

(** Ranges between [lo] and [hi], in increasing order and disjoint. *)
Fixpoint ranges_ok (text : bytes) (lo hi : Z) (cs : list CommentRange) : Prop :=
  match cs with
  | [] => lo <= hi
  | c :: r => lo <= range_pos c /\ range_ok text c /\ ranges_ok text (range_end c) hi r
  end.

Lemma ranges_ok_mono text lo hi hi' cs :
  ranges_ok text lo hi cs -> hi <= hi' -> ranges_ok text lo hi' cs.
Proof.
  revert lo. induction cs as [|c cs IH]; intros lo H Hle; cbn in *; [lia|]. naive_solver.
Qed.

Lemma ranges_ok_snoc text lo hi cs c :
  ranges_ok text lo hi cs -> hi <= range_pos c -> range_ok text c ->
  ranges_ok text lo (range_end c) (cs ++ [c]).
Proof.
  revert lo. induction cs as [|c' cs IH]; intros lo H Hle Hc; cbn in *.
  - split; [lia|]. split; [done|lia].
  - naive_solver.
Qed.

Lemma ranges_ok_trailing text lo hi cs pending :
  ranges_ok text lo hi (cs ++ option_list pending) ->
  ranges_ok text lo hi (cs ++ option_list (set_trailing_new_line <$> pending)).
Proof.
  revert lo. induction cs as [|c cs IH]; intros lo; cbn.
  - by destruct pending.
  - intros (H1 & H2 & H3). split; [done|]. split; [done|]. by apply IH.
Qed.

Lemma as_i32_small n : (Z.of_nat n < 2 ^ 31) -> as_i32 (Z.of_nat n) = Z.of_nat n.
Proof. intros H. apply as_i32_id. lia. Qed.

Section comment_ranges.
Context (text : bytes) (Hv : valid_utf8 text) (Hlen : Z.of_nat (length text) < 2 ^ 31).
Context (lo : Z).

Definition comment_inv (st : comment_state) : Prop :=
  at_boundary text (cs_pos st)
  /\ ranges_ok text lo (Z.of_nat (cs_pos st)) (cs_ranges st ++ option_list (cs_pending st)).

Lemma comment_inv_move st p :
  comment_inv st -> at_boundary text p -> (cs_pos st <= p)%nat -> comment_inv (cs_move p st).
Proof. intros [H1 H2] Hp Hle. split; [done|]. eapply ranges_ok_mono; [exact H2|cbn; lia]. Qed.

Lemma comment_body_end_total kind pos :
  at_boundary text pos ->
  at_boundary text (comment_body_end text kind pos).1 /\ (pos <= (comment_body_end text kind pos).1)%nat.
Proof.
  intros Hp. unfold comment_body_end.
  assert (Nat.max pos (length text) = length text) as Hmax by (destruct Hp; lia).
  destruct (Kind_eqb _ _).
  - destruct (find_index _ (drop pos text)) as [o|] eqn:E; cbn.
    + apply find_index_Some in E as (b & Hb & Hpb & _). rewrite lookup_drop in Hb.
      split; [|lia]. eapply at_boundary_ascii; [done|done|].
      apply orb_true_iff in Hpb as [H|H]; bool_to_prop; lia.
    + rewrite Hmax. split; [apply at_boundary_len|]. apply Hp.
  - destruct (find_sub _ (drop pos text)) as [o|] eqn:E; cbn.
    + apply find_sub_Some in E as [E _]. rewrite drop_drop in E.
      destruct (at_boundary_starts text (pos + o) (bstr "*/")) as (? & H & ?); [done..|].
      cbn [length] in H. split; [exact H|lia].
    + rewrite Hmax. split; [apply at_boundary_len|]. apply Hp.
Qed.

Lemma comment_at_inv st second :
  comment_inv st -> text !! cs_pos st = Some (chr "/") ->
  text !! (cs_pos st + 1)%nat = Some second -> second = chr "/" \/ second = chr "*" ->
  comment_inv (comment_at text second st) /\ (cs_pos st < cs_pos (comment_at text second st))%nat.
Proof.
  intros Hi H0 H1 Hsec. pose proof Hi as [Hb Hr].
  set (kind := if second =? chr "/" then Kind.SingleLineCommentTrivia
               else Kind.MultiLineCommentTrivia).
  destruct (at_boundary_ascii text (cs_pos st + 1) second Hv H1) as [_ Hb2]; [lia|].
  replace (cs_pos st + 1 + 1)%nat with (cs_pos st + 2)%nat in Hb2 by lia.
  destruct (comment_body_end_total kind (cs_pos st + 2) Hb2) as [H2 H3].
  unfold comment_at. fold kind.
  destruct (comment_body_end text kind (cs_pos st + 2)) as [p tr]. cbn [fst] in *.
  assert (Z.of_nat p < 2 ^ 31) as Hp by (destruct H2; lia).
  destruct (cs_collecting st).
  2: { split; [|cbn; lia]. apply comment_inv_move; [done|done|lia]. }
  split; [|cbn; lia]. split; [done|]. cbn [cs_pos cs_ranges cs_pending].
  rewrite !as_i32_small by lia. cbn [option_list].
  set (c := {| range_pos := _; range_end := _; comment_kind := _; has_trailing_new_line := _ |}).
  change (Z.of_nat p) with (range_end c).
  eapply ranges_ok_snoc; [exact Hr|cbn; lia|]. split; [cbn; destruct H2; lia|].
  split; [cbn; lia|]. cbn [range_pos comment_kind c]. rewrite Nat2Z.id.
  assert (forall b, starts_with [chr "/"; b] (drop (cs_pos st) text) = bool_decide (second = b)) as Hst.
  { intros b. rewrite (drop_S _ (chr "/")) by done. rewrite (drop_S _ second) by (by rewrite <- Nat.add_1_r).
    unfold starts_with. cbn. apply bool_decide_ext. naive_solver. }
  subst kind. rewrite !Hst. destruct Hsec as [-> | ->]; cbn; [by left|by right].
Qed.

Lemma comment_step_inv trailing b st :
  comment_inv st -> text !! cs_pos st = Some b ->
  exists r, comment_step text trailing b st = Some r
    /\ match r with
       | inl st' => comment_inv st' /\ (cs_pos st < cs_pos st')%nat
       | inr st' => comment_inv st'
       end.
Proof.
  intros Hi Hb. pose proof Hi as [Hat Hr]. unfold comment_step.
  set (second := default 0 (text !! (cs_pos st + 1)%nat)).
  destruct ((b =? 13) || (b =? 10)) eqn:E1.
  { set (p := if (b =? 13) && (second =? 10) then _ else _).
    assert (at_boundary text p /\ (cs_pos st < p)%nat) as [Hp Hlt].
    { assert (b < 128) as Hb1 by (apply orb_true_iff in E1 as [E1|E1]; bool_to_prop; lia).
      subst p. destruct (_ && _) eqn:E; bool_to_prop.
      - split; [|lia]. destruct (text !! (cs_pos st + 1)%nat) as [b2|] eqn:E2; [|done].
        cbn in second. subst second.
        destruct (at_boundary_ascii text (cs_pos st + 1) b2 Hv E2); [lia|].
        by replace (cs_pos st + 2)%nat with (cs_pos st + 1 + 1)%nat by lia.
      - split; [|lia]. by eapply at_boundary_ascii. }
    destruct trailing.
    - eexists. split; [done|]. apply comment_inv_move; [done|done|lia].
    - eexists. split; [done|]. split; [|cbn; lia]. split; [done|]. cbn.
      apply ranges_ok_trailing. eapply ranges_ok_mono; [exact Hr|lia]. }
  destruct ((b =? 9) || _ || _ || _) eqn:E2.
  { eexists. split; [done|]. split; [|cbn; lia]. apply comment_inv_move; [done| |lia].
    eapply at_boundary_ascii; [done|done|].
    repeat apply orb_true_iff in E2 as [E2|E2]; bool_to_prop; lia. }
  destruct ((b =? chr "/") && _) eqn:E3.
  { bool_to_prop. eexists. split; [done|]. subst b.
    apply orb_true_iff in H0. apply comment_at_inv; [done|done| |].
    - subst second. destruct (text !! (cs_pos st + 1)%nat); [done|].
      cbn in H0. destruct H0; bool_to_prop; done.
    - destruct H0; bool_to_prop; auto. }
  destruct (127 <? b) eqn:E4; [|by exists (inr st)].
  unfold comment_non_ascii. rewrite slice_from_at by done. cbn [mbind option_bind].
  destruct (next_char (drop (cs_pos st) text)) as [[ch size]|] eqn:En; [|by exists (inr st)].
  destruct (next_char_boundary _ _ _ _ Hv Hat En) as (H1 & H2 & H3).
  destruct (is_whitespace_non_ascii ch); [|by exists (inr st)].
  eexists. split; [done|]. split; [|cbn; lia]. split; [done|]. cbn.
  destruct ((ch =? 8232) || (ch =? 8233)); [apply ranges_ok_trailing|]; (eapply ranges_ok_mono; [exact Hr|lia]).
Qed.

Lemma comment_loop_inv trailing fuel st :
  comment_inv st -> (length text - cs_pos st < fuel)%nat ->
  exists st', comment_loop fuel text trailing st = Some st' /\ comment_inv st'.
Proof.
  revert st. induction fuel as [|fuel IH]; intros st Hi Hf; [lia|]. cbn [comment_loop].
  destruct (text !! cs_pos st) as [b|] eqn:Eb; [|by exists st].
  destruct (comment_step_inv trailing b st Hi Eb) as ([st'|st'] & -> & H); cbn.
  - destruct H as [H1 H2]. apply lookup_lt_Some in Eb. apply IH; [done|lia].
  - by exists st'.
Qed.
End comment_ranges.

(** Listing the comments before or after a position is total on texts of less than 2 GiB, and the
    ranges it lists lie in the text at or after the position, in increasing order without overlap,
    each starting with the two bytes of its kind: [//] or [/*]. *)
Theorem iterate_comment_ranges_ok (text : bytes) (pos : nat) (trailing : bool) :
  valid_utf8 text -> Z.of_nat (length text) < 2 ^ 31 -> at_boundary text pos ->
  exists rs, iterate_comment_ranges text (Z.of_nat pos) trailing = Some rs
    /\ ranges_ok text (Z.of_nat pos) (Z.of_nat (length text)) rs.
Proof.
  intros Hv Hlen Hp. unfold iterate_comment_ranges.
  assert ((Z.of_nat pos <? 0) = false) as -> by (apply Z.ltb_ge; lia).
  rewrite as_i32_small by done. destruct Hp as [Hpb Hple]. rewrite Z.min_l by lia.
  rewrite Nat2Z.id. set (st0 := if (pos =? 0)%nat && _ then _ else _).
  assert (exists start, st0 = Some start /\ at_boundary text start /\ (pos <= start)%nat)
    as (start & -> & Hs1 & Hs2).
  { subst st0. destruct (_ && _) eqn:E; [|by exists pos]. bool_to_prop. subst pos.
    unfold scan_shebang_trivia. destruct (scan_line_comment_total text 0 Hv) as (e & -> & ? & ? & _); [done|]. by exists e. }
  cbn [mbind option_bind].
  destruct (comment_loop_inv text Hv Hlen (Z.of_nat pos) trailing (S (length text))
    {| cs_pos := start; cs_pending := None; cs_ranges := [];
       cs_collecting := trailing || (pos =? 0)%nat |}) as (st & -> & [Hat Hr]).
  - split; [done|]. cbn. lia.
  - cbn. lia.
  - cbn. eexists. split; [done|]. eapply ranges_ok_mono; [exact Hr|]. destruct Hat. lia.
Qed.

Lemma iterate_comment_ranges_ok_witness :
  exists rs, iterate_comment_ranges (bstr "/* a */ x") 0 false = Some rs
    /\ ranges_ok (bstr "/* a */ x") 0 9 rs.
Proof.
  apply (iterate_comment_ranges_ok (bstr "/* a */ x") 0 false).
  - apply is_ascii_valid. reflexivity.
  - cbn; lia.
  - split; [reflexivity|cbn; lia].
Defined.
