(* ===== verification/ScannerState.v ===== *)
(** * ScannerState: the state of a [Scanner] and its primitive operations

    Models ts-scanner/src/lib.rs and the state-handling methods of ts-scanner/src/scanner.rs. The
    fields [number_cache], [hex_number_cache], [hex_digit_cache] are left out: no method reads them.
    [on_error] is left out: the callback receives exactly what [error_at] records in
    [diagnostics]. *)
From S2P Require Import Prelude Text Chars SyntaxKind Monad Keywords Trivia.

(** The diagnostic messages the scanner reports ([diagnostics::...]). *)
Inductive Message : Type :=
  | Asterisk_Slash_expected
  | Hexadecimal_digit_expected
  | Binary_digit_expected
  | Octal_digit_expected
  | X_can_only_be_used_at_the_start_of_a_file
  | Invalid_character
  | File_appears_to_be_binary
  | Merge_conflict_marker_encountered
  | Unexpected_token_Did_you_mean_or_gt
  | Unexpected_token_Did_you_mean_or_rbrace
  | Unterminated_string_literal
  | Unterminated_template_literal
  | Unexpected_end_of_text
  | Decimal_escape_sequences_and_backreferences_are_not_allowed_in_a_character_class
  | Escape_sequence_0_is_not_allowed
  | Unicode_escape_sequences_are_only_available_when_the_Unicode_u_flag_or_the_Unicode_Sets_v_flag_is_set
  | This_character_cannot_be_escaped_in_a_regular_expression
  | Octal_escape_sequences_and_backreferences_are_not_allowed_in_a_character_class
  | Octal_escape_sequences_are_not_allowed_Use_the_syntax_0
  | An_extended_Unicode_escape_value_must_be_between_0x0_and_0x10FFFF_inclusive
  | Unterminated_Unicode_escape_sequence
  | Numeric_separators_are_not_allowed_here
  | Multiple_consecutive_numeric_separators_are_not_permitted
  | Octal_literals_are_not_allowed_Use_the_syntax_0
  | Digit_expected
  | Decimals_with_leading_zeros_are_not_allowed
  | A_bigint_literal_cannot_use_exponential_notation
  | A_bigint_literal_must_be_an_integer
  | An_identifier_or_keyword_cannot_immediately_follow_a_numeric_literal
  | This_regular_expression_flag_is_only_available_when_targeting_0_or_later
  | Named_capturing_groups_are_only_available_when_targeting_ES2018_or_later
  | Subpattern_flags_must_be_present_when_there_is_a_minus_sign
  | Incomplete_quantifier_Digit_expected
  | Unexpected_0_Did_you_mean_to_escape_it_with_backslash
  | Numbers_out_of_order_in_quantifier
  | X_0_expected
  | There_is_nothing_available_for_repetition
  | Duplicate_regular_expression_flag
  | This_regular_expression_flag_cannot_be_toggled_within_a_subpattern
  | Unknown_regular_expression_flag
  | X_k_must_be_followed_by_a_capturing_group_name_enclosed_in_angle_brackets
  | X_q_is_only_available_inside_character_class
  | Undetermined_character_escape
  | X_c_must_be_followed_by_an_ASCII_letter
  | Expected_a_capturing_group_name
  | Named_capturing_groups_with_the_same_name_must_be_mutually_exclusive_to_each_other
  | A_character_class_range_must_not_be_bounded_by_another_character_class
  | Range_out_of_order_in_character_class
  | Expected_a_class_set_operand
  | Anything_that_would_possibly_match_more_than_a_single_character_is_invalid_inside_a_negated_character_class
  | Operators_must_not_be_mixed_within_a_character_class_Wrap_it_in_a_nested_class_instead
  | X_q_must_be_followed_by_string_alternatives_enclosed_in_braces
  | A_character_class_must_not_contain_a_reserved_double_punctuator_Did_you_mean_to_escape_it_with_backslash
  | Expected_a_Unicode_property_name
  | Unknown_Unicode_property_name
  | Did_you_mean_0
  | Expected_a_Unicode_property_value
  | Unknown_Unicode_property_value
  | Expected_a_Unicode_property_name_or_value
  | Any_Unicode_property_that_would_possibly_match_more_than_a_single_character_is_only_available_when_the_Unicode_Sets_v_flag_is_set
  | Unknown_Unicode_property_name_or_value
  | Unicode_property_value_expressions_are_only_available_when_the_Unicode_u_flag_or_the_Unicode_Sets_v_flag_is_set
  | X_0_must_be_followed_by_a_Unicode_property_value_expression_enclosed_in_braces
  | There_is_no_capturing_group_named_0_in_this_regular_expression
  | This_backreference_refers_to_a_group_that_does_not_exist_There_are_only_0_capturing_groups_in_this_regular_expression
  | This_backreference_refers_to_a_group_that_does_not_exist_There_are_no_capturing_groups_in_this_regular_expression
  | Unterminated_regular_expression_literal
  | The_Unicode_u_flag_and_the_Unicode_Sets_v_flag_cannot_be_set_simultaneously.

Record ScannerDiagnostic := mkDiagnostic {
  message : Message;
  start : nat;
  length_ : nat;
  args : list bytes;
}.

Inductive ScannerTokenValue : Type :=
  | NoValue
  | SourceRange (start end_ : nat)
  | Owned (value : bytes).

Inductive CommentDirectiveKind : Type := ExpectError | Ignore.

Record CommentDirective := mkDirective {
  directive_pos : Z;
  directive_end : Z;
  directive_kind : CommentDirectiveKind;
}.

Record Scanner := mkScanner {
  text : bytes;
  end_ : nat;
  language_variant : Z;
  script_target : Z;
  skip_trivia_ : bool;
  pos : nat;
  full_start_pos : nat;
  token_start : nat;
  token : Kind;
  token_value_ : ScannerTokenValue;
  token_flags : Z;
  comment_directives : list CommentDirective;
  contains_non_ascii : bool;
  diagnostics : list ScannerDiagnostic;
}.

Definition LANGUAGE_VARIANT_JSX : Z := 1.
Definition SCRIPT_TARGET_NONE : Z := 0.
Definition SCRIPT_TARGET_LATEST : Z := 99.

(** [Scanner::new] *)
Definition new (text : bytes) (language_version : Z) : Scanner :=
  {| text := text; end_ := length text; language_variant := 0; script_target := language_version;
     skip_trivia_ := true; pos := 0; full_start_pos := 0; token_start := 0;
     token := Kind.Unknown; token_value_ := NoValue; token_flags := TokenFlags.NONE;
     comment_directives := []; contains_non_ascii := false; diagnostics := [] |}.

(** ** Field updates *)
Definition set_pos (p : nat) (s : Scanner) : Scanner :=
  mkScanner (text s) (end_ s) (language_variant s) (script_target s) (skip_trivia_ s) p
    (full_start_pos s) (token_start s) (token s) (token_value_ s) (token_flags s)
    (comment_directives s) (contains_non_ascii s) (diagnostics s).
Definition set_full_start_pos (p : nat) (s : Scanner) : Scanner :=
  mkScanner (text s) (end_ s) (language_variant s) (script_target s) (skip_trivia_ s) (pos s)
    p (token_start s) (token s) (token_value_ s) (token_flags s)
    (comment_directives s) (contains_non_ascii s) (diagnostics s).
Definition set_token_start (p : nat) (s : Scanner) : Scanner :=
  mkScanner (text s) (end_ s) (language_variant s) (script_target s) (skip_trivia_ s) (pos s)
    (full_start_pos s) p (token s) (token_value_ s) (token_flags s)
    (comment_directives s) (contains_non_ascii s) (diagnostics s).
Definition put_token (k : Kind) (s : Scanner) : Scanner :=
  mkScanner (text s) (end_ s) (language_variant s) (script_target s) (skip_trivia_ s) (pos s)
    (full_start_pos s) (token_start s) k (token_value_ s) (token_flags s)
    (comment_directives s) (contains_non_ascii s) (diagnostics s).
Definition put_token_value (v : ScannerTokenValue) (s : Scanner) : Scanner :=
  mkScanner (text s) (end_ s) (language_variant s) (script_target s) (skip_trivia_ s) (pos s)
    (full_start_pos s) (token_start s) (token s) v (token_flags s)
    (comment_directives s) (contains_non_ascii s) (diagnostics s).
Definition put_token_flags (f : Z) (s : Scanner) : Scanner :=
  mkScanner (text s) (end_ s) (language_variant s) (script_target s) (skip_trivia_ s) (pos s)
    (full_start_pos s) (token_start s) (token s) (token_value_ s) f
    (comment_directives s) (contains_non_ascii s) (diagnostics s).
Definition put_comment_directives (d : list CommentDirective) (s : Scanner) : Scanner :=
  mkScanner (text s) (end_ s) (language_variant s) (script_target s) (skip_trivia_ s) (pos s)
    (full_start_pos s) (token_start s) (token s) (token_value_ s) (token_flags s)
    d (contains_non_ascii s) (diagnostics s).
Definition put_contains_non_ascii (b : bool) (s : Scanner) : Scanner :=
  mkScanner (text s) (end_ s) (language_variant s) (script_target s) (skip_trivia_ s) (pos s)
    (full_start_pos s) (token_start s) (token s) (token_value_ s) (token_flags s)
    (comment_directives s) b (diagnostics s).
Definition put_diagnostics (d : list ScannerDiagnostic) (s : Scanner) : Scanner :=
  mkScanner (text s) (end_ s) (language_variant s) (script_target s) (skip_trivia_ s) (pos s)
    (full_start_pos s) (token_start s) (token s) (token_value_ s) (token_flags s)
    (comment_directives s) (contains_non_ascii s) d.
Definition put_end (e : nat) (s : Scanner) : Scanner :=
  mkScanner (text s) e (language_variant s) (script_target s) (skip_trivia_ s) (pos s)
    (full_start_pos s) (token_start s) (token s) (token_value_ s) (token_flags s)
    (comment_directives s) (contains_non_ascii s) (diagnostics s).

Abbreviation MS := (M Scanner).

(** ** Reading the text *)

(** [self.char_at(offset)]: the byte at an offset as a character, ['\0'] at the end. *)
Definition char_at (offset : nat) : MS char :=
  s ← get;
  if (pos s + offset <? end_ s)%nat then unwrap (text s !! (pos s + offset)%nat) else mret 0.

(** [self.char()] *)
Definition char_ : MS char :=
  s ← get;
  if (pos s <? end_ s)%nat then unwrap (text s !! pos s) else mret 0.

(** [self.char_and_size()] *)
Definition char_and_size : MS (char * nat) :=
  s ← get;
  if (end_ s <=? pos s)%nat then mret (0, 0%nat)
  else
    byte ← unwrap (text s !! pos s);
    if byte <? 128 then mret (byte, 1%nat)
    else
      match (rest ← slice_from (text s) (pos s); next_char rest) with
      | None => mret (0, 0%nat)
      | Some (ch, size) =>
          when (1 <? size)%nat (modify (put_contains_non_ascii true)) ;;
          mret (ch, size)
      end.

(** [&self.text[i..j]] *)
Definition text_slice (i j : nat) : MS bytes := s ← get; unwrap (slice (text s) i j).

Definition advance (n : nat) : MS unit := modify (fun s => set_pos (pos s + n) s).

(** ** Token, flags, value, diagnostics *)
Definition set_token (k : Kind) : MS unit := modify (put_token k).

Definition add_flags (f : Z) : MS unit :=
  modify (fun s => put_token_flags (Z.lor (token_flags s) f) s).

Definition error_at (m : Message) (start len : nat) (args : list bytes) : MS unit :=
  modify (fun s => put_diagnostics (diagnostics s ++ [mkDiagnostic m start len args]) s).

(** [self.error_at(m, self.pos, len, ..)] *)
Definition error_here (m : Message) (len : nat) : MS unit :=
  p ← gets pos; error_at m p len [].

Definition clear_token_value : MS unit := modify (put_token_value NoValue).
Definition set_token_value (value : bytes) : MS unit := modify (put_token_value (Owned value)).
Definition set_token_value_from_range (start end_ : nat) : MS unit :=
  modify (put_token_value (SourceRange start end_)).

Definition token_value : MS bytes :=
  s ← get;
  match token_value_ s with
  | NoValue => mret []
  | SourceRange start end_ => unwrap (slice (text s) start end_)
  | Owned value => mret value
  end.

(** [ensure_token_value_owned] followed by [push_str]. *)
Definition push_str_token_value (value : bytes) : MS unit :=
  v ← token_value;
  set_token_value (v ++ value).

Definition push_token_value (ch : char) : MS unit := push_str_token_value (utf8_encode ch).

Definition token_text : MS bytes := s ← get; text_slice (token_start s) (pos s).

Definition language_version (s : Scanner) : Z :=
  if script_target s =? SCRIPT_TARGET_NONE then SCRIPT_TARGET_LATEST else script_target s.

(** ** Configuration and repositioning *)
Definition set_text (t : bytes) (s : Scanner) : Scanner :=
  {| text := t; end_ := length t; language_variant := language_variant s;
     script_target := script_target s; skip_trivia_ := skip_trivia_ s; pos := 0;
     full_start_pos := 0; token_start := 0; token := Kind.Unknown; token_value_ := NoValue;
     token_flags := TokenFlags.NONE; comment_directives := []; contains_non_ascii := false;
     diagnostics := diagnostics s |}.

Definition reset_pos (p : Z) : MS unit :=
  if p <? 0 then panic
  else
    let p := Z.to_nat p in
    modify (set_pos p) ;; modify (set_full_start_pos p) ;; modify (set_token_start p).

Definition reset_token_state (p : Z) : MS unit :=
  reset_pos p ;;
  set_token Kind.Unknown ;;
  clear_token_value ;;
  modify (put_token_flags TokenFlags.NONE).

Definition set_text_end (e : nat) : MS unit :=
  s ← get;
  if (e <=? length (text s))%nat then
    modify (put_end e) ;;
    when (e <? pos s)%nat (modify (set_pos e)) ;;
    when (e <? full_start_pos s)%nat (modify (set_full_start_pos e)) ;;
    when (e <? token_start s)%nat (modify (set_token_start e))
  else panic.

(** ** Speculative scanning *)
Record ScannerState := mkState {
  st_end : nat;
  st_pos : nat;
  st_full_start_pos : nat;
  st_token_start : nat;
  st_token : Kind;
  st_token_value : ScannerTokenValue;
  st_token_flags : Z;
  st_comment_directives_len : nat;
}.

Definition mark (s : Scanner) : ScannerState :=
  {| st_end := end_ s; st_pos := pos s; st_full_start_pos := full_start_pos s;
     st_token_start := token_start s; st_token := token s; st_token_value := token_value_ s;
     st_token_flags := token_flags s; st_comment_directives_len := length (comment_directives s) |}.

Definition rewind (state : ScannerState) (s : Scanner) : Scanner :=
  {| text := text s; end_ := st_end state; language_variant := language_variant s;
     script_target := script_target s; skip_trivia_ := skip_trivia_ s; pos := st_pos state;
     full_start_pos := st_full_start_pos state; token_start := st_token_start state;
     token := st_token state; token_value_ := st_token_value state;
     token_flags := st_token_flags state;
     comment_directives := take (st_comment_directives_len state) (comment_directives s);
     contains_non_ascii := contains_non_ascii s; diagnostics := diagnostics s |}.

(** ** Comment directives ([// @ts-ignore], [// @ts-expect-error]) *)

Definition directive_body (text : bytes) (start end_ : nat) (multiline : bool) : nat :=
  let pos :=
    if multiline then
      skip_while (fun b => (b =? chr "/") || (b =? chr "*")) text
        (skip_while (fun b => (b =? 32) || (b =? 9)) text start end_) end_
    else skip_while (fun b => b =? chr "/") text (Nat.min (start + 2) end_) end_ in
  skip_while (fun b => (b =? 32) || (b =? 9)) text pos end_.

Definition find_comment_directive (text : bytes) (start end_ : nat) (multiline : bool)
    : option CommentDirective :=
  let end_ := Nat.min end_ (length text) in
  if (end_ <=? start)%nat then None
  else
    let pos := directive_body text start end_ multiline in
    if (end_ <=? pos)%nat || negb (bool_decide (text !! pos = Some (chr "@"))) then None
    else
      let directive_text := drop (pos + 1) text in
      let kind :=
        if starts_with (bstr "ts-expect-error") directive_text then Some ExpectError
        else if starts_with (bstr "ts-ignore") directive_text then Some Ignore
        else None in
      mkDirective (as_i32 (Z.of_nat start)) (as_i32 (Z.of_nat end_)) <$> kind.

Definition process_comment_directive (start end_ : nat) (multiline : bool) : MS unit :=
  s ← get;
  match find_comment_directive (text s) start end_ multiline with
  | Some d => modify (put_comment_directives (comment_directives s ++ [d]))
  | None => mret tt
  end.
