(* ===== verification/ScannerOps.v ===== *)
(** * ScannerOps: literals and identifiers (ts-scanner/src/scanner.rs)

    The methods of [Scanner] that consume the pieces of a token: digits, escapes, strings, templates,
    identifiers, numbers. Loops run with [loop_fuel], more iterations than the text has bytes. *)
From S2P Require Import Prelude Text Chars SyntaxKind Monad Numerals JsNum Keywords Trivia ScannerState.

(** ** Standard library *)

(** [char::from_u32] *)
Definition char_from_u32 (x : Z) : option char := if is_scalar x then Some x else None.

(** [format!("\\x{code:02x}")] *)
Definition format_hex_escape (code : Z) : bytes :=
  let h := format_radix 16 code in
  92 :: chr "x" :: (if (length h <? 2)%nat then chr "0" :: h else h).

Definition loop_fuel (s : Scanner) : nat := S (S (length (text s))).

(** [loop { .. }] with its local variables. *)
Definition loop {L A} (body : L -> MS (L + A)) (l : L) : MS A :=
  s ← get; iter (loop_fuel s) body l.

(** ** Escape sequence flags *)
Definition ESC_STRING : Z := 1.
Definition ESC_REPORT_ERRORS : Z := 2.
Definition ESC_REGULAR_EXPRESSION : Z := 4.
Definition ESC_ANNEX_B : Z := 8.
Definition ESC_ANY_UNICODE_MODE : Z := 16.
Definition ESC_ATOM_ESCAPE : Z := 32.
Definition ESC_REPORT_INVALID_ESCAPE_ERRORS : Z := Z.lor ESC_REGULAR_EXPRESSION ESC_REPORT_ERRORS.
Definition ESC_ALLOW_EXTENDED_UNICODE_ESCAPE : Z := Z.lor ESC_STRING ESC_ANY_UNICODE_MODE.
Definition has (flags f : Z) : bool := negb (Z.land flags f =? 0).

(** ** Surrogates (utilities.rs) *)
Definition code_point_is_high_surrogate (r : Z) : bool := (55296 <=? r) && (r <? 56320).
Definition code_point_is_low_surrogate (r : Z) : bool := (56320 <=? r) && (r <? 57344).
Definition surrogate_pair_to_codepoint (r1 r2 : Z) : Z :=
  Z.lor (Z.shiftl (r1 - 55296) 10) ((r2 - 56320) + 65536).

(** [String::from_utf8_lossy] of the three bytes [encode_surrogate] gives: never valid UTF-8, so each
    byte is replaced. *)
Definition lossy_surrogate : bytes :=
  utf8_encode 65533 ++ utf8_encode 65533 ++ utf8_encode 65533.

(** ** Digits *)

(** Reporting a separator that follows no digit. *)
Definition separator_error (is_previous_token_separator : bool) : MS unit :=
  error_here (if is_previous_token_separator
              then Multiple_consecutive_numeric_separators_are_not_permitted
              else Numeric_separators_are_not_allowed_here) 1.

(** [self.error_at(.., self.pos.saturating_sub(1), 1, ..)] *)
Definition trailing_separator_error : MS unit :=
  p ← gets pos; error_at Numeric_separators_are_not_allowed_here (p - 1) 1 [].

(** Local variables of the digit loops. *)
Record digits := mkDigits {
  digit_result : bytes;
  digit_start : nat;
  digit_count : nat;
  allow_separator : bool;
  is_previous_token_separator : bool;
}.

Definition scan_hex_digits (min_count : nat) (scan_as_many_as_possible can_have_separators : bool)
    : MS bytes :=
  start ← gets pos;
  l ← loop (fun l =>
    if (digit_count l <? min_count)%nat || scan_as_many_as_possible then
      ch ← char_;
      if is_ascii_hexdigit ch then
        advance 1 ;;
        mret (inl (mkDigits [] 0 (S (digit_count l)) can_have_separators false))
      else if can_have_separators && (ch =? chr "_") then
        add_flags TokenFlags.CONTAINS_SEPARATOR ;;
        if allow_separator l then
          advance 1 ;; mret (inl (mkDigits [] 0 (digit_count l) false true))
        else
          separator_error (is_previous_token_separator l) ;;
          advance 1 ;;
          mret (inl (mkDigits [] 0 (digit_count l) false (is_previous_token_separator l)))
      else mret (inr l)
    else mret (inr l)) (mkDigits [] 0 0 false false);
  when (is_previous_token_separator l) trailing_separator_error ;;
  if (digit_count l <? min_count)%nat then mret []
  else
    p ← gets pos;
    raw ← text_slice start p;
    let digits := map to_ascii_lowercase raw in
    flags ← gets token_flags;
    mret (if TokenFlags.contains flags TokenFlags.CONTAINS_SEPARATOR
          then filter (fun b => b <> chr "_") digits else digits).

Definition scan_binary_or_octal_digits (base : Z) : MS bytes :=
  l ← loop (fun l =>
    ch ← char_;
    if is_ascii_digit ch && (ch - 48 <? base) then
      advance 1 ;;
      mret (inl (mkDigits (digit_result l ++ [ch]) 0 0 true false))
    else if ch =? chr "_" then
      add_flags TokenFlags.CONTAINS_SEPARATOR ;;
      if allow_separator l then
        advance 1 ;; mret (inl (mkDigits (digit_result l) 0 0 false true))
      else
        separator_error (is_previous_token_separator l) ;;
        advance 1 ;;
        mret (inl (mkDigits (digit_result l) 0 0 false (is_previous_token_separator l)))
    else mret (inr l)) (mkDigits [] 0 0 false false);
  when (is_previous_token_separator l) trailing_separator_error ;;
  mret (digit_result l).

Definition scan_number_fragment : MS bytes :=
  start ← gets pos;
  l ← loop (fun l =>
    ch ← char_;
    if ch =? chr "_" then
      add_flags TokenFlags.CONTAINS_SEPARATOR ;;
      p ← gets pos;
      if allow_separator l then
        part ← text_slice (digit_start l) p;
        advance 1 ;;
        mret (inl (mkDigits (digit_result l ++ part) (S p) 0 false true))
      else
        add_flags TokenFlags.CONTAINS_INVALID_SEPARATOR ;;
        separator_error (is_previous_token_separator l) ;;
        advance 1 ;;
        mret (inl (mkDigits (digit_result l) (S p) 0 false (is_previous_token_separator l)))
    else if is_ascii_digit ch then
      advance 1 ;;
      mret (inl (mkDigits (digit_result l) (digit_start l) 0 true false))
    else mret (inr l)) (mkDigits [] start 0 false false);
  when (is_previous_token_separator l)
    (add_flags TokenFlags.CONTAINS_INVALID_SEPARATOR ;; trailing_separator_error) ;;
  p ← gets pos;
  part ← text_slice (digit_start l) p;
  mret (digit_result l ++ part).

Definition scan_digits : MS (bytes * bool) :=
  start ← gets pos;
  is_octal ← loop (fun is_octal =>
    ch ← char_;
    if is_ascii_digit ch then
      advance 1 ;;
      mret (inl (is_octal && ((48 <=? ch) && (ch <=? 55))))
    else mret (inr is_octal)) true;
  p ← gets pos;
  digits ← text_slice start p;
  mret (digits, is_octal).

(** ** Escapes *)
Definition scan_unicode_escape (should_emit_invalid_escape_error : bool) : MS (option Z) :=
  advance 2 ;;
  start ← gets pos;
  ch ← char_;
  let extended := ch =? chr "{" in
  hex_digits ← (if extended
                then advance 1 ;; scan_hex_digits 1 true false
                else add_flags TokenFlags.UNICODE_ESCAPE ;; scan_hex_digits 4 false false);
  match hex_digits with
  | [] =>
      add_flags TokenFlags.CONTAINS_INVALID_ESCAPE ;;
      when should_emit_invalid_escape_error (error_here Hexadecimal_digit_expected 0) ;;
      mret None
  | _ =>
      match from_str_radix 16 U32_MAX hex_digits with
      | None => add_flags TokenFlags.CONTAINS_INVALID_ESCAPE ;; mret None
      | Some hex_value =>
          if extended then
            let too_large := 1114111 <? hex_value in
            when (too_large && should_emit_invalid_escape_error)
              (p ← gets pos;
               error_at An_extended_Unicode_escape_value_must_be_between_0x0_and_0x10FFFF_inclusive
                 (start + 1) (p - (start + 1)) []) ;;
            s ← get;
            ch ← char_;
            unclosed ←
              (if (end_ s <=? pos s)%nat then
                 when should_emit_invalid_escape_error (error_here Unexpected_end_of_text 0) ;;
                 mret true
               else if ch =? chr "}" then advance 1 ;; mret false
               else
                 when should_emit_invalid_escape_error
                   (error_here Unterminated_Unicode_escape_sequence 0) ;;
                 mret true);
            if too_large || unclosed then
              add_flags TokenFlags.CONTAINS_INVALID_ESCAPE ;; mret None
            else
              add_flags TokenFlags.EXTENDED_UNICODE_ESCAPE ;; mret (Some hex_value)
          else mret (Some hex_value)
      end
  end.

(** [peek_unicode_escape] scans on a clone of the scanner: its state changes are dropped. *)
Definition on_clone {A} (m : MS A) : MS A := fun s =>
  match m s with
  | Ok (a, _) => Ok (a, s)
  | Panic => Panic
  | OutOfFuel => OutOfFuel
  end.

Definition peek_unicode_escape : MS (option char) :=
  ch ← char_at 1;
  if ch =? chr "u" then
    on_clone (cp ← scan_unicode_escape false; mret (cp ≫= char_from_u32))
  else mret None.

Definition is_octal_digit (ch : char) : bool := (48 <=? ch) && (ch <=? 55).

Definition scan_octal_escape_tail (start : nat) (ch : char) (flags : Z) : MS bytes :=
  next ← char_;
  when (((48 <=? ch) && (ch <=? 51)) && is_octal_digit next) (advance 1) ;;
  next ← char_;
  when (is_octal_digit next) (advance 1) ;;
  add_flags TokenFlags.CONTAINS_INVALID_ESCAPE ;;
  p ← gets pos;
  if has flags ESC_REPORT_INVALID_ESCAPE_ERRORS then
    digits ← text_slice (start + 1) p;
    let code := default 0 (from_str_radix 8 U32_MAX digits) in
    error_at
      (if has flags ESC_REGULAR_EXPRESSION && negb (has flags ESC_ATOM_ESCAPE)
          && negb (ch =? chr "0")
       then Octal_escape_sequences_and_backreferences_are_not_allowed_in_a_character_class
       else Octal_escape_sequences_are_not_allowed_Use_the_syntax_0)
      start (p - start) [format_hex_escape code] ;;
    mret (utf8_encode (default 0 (char_from_u32 code)))
  else text_slice start p.

(** The escapes [\8] and [\9]. *)
Definition scan_decimal_escape (start : nat) (ch : char) (flags : Z) : MS bytes :=
  add_flags TokenFlags.CONTAINS_INVALID_ESCAPE ;;
  p ← gets pos;
  raw ← text_slice start p;
  if has flags ESC_REPORT_INVALID_ESCAPE_ERRORS then
    (if has flags ESC_REGULAR_EXPRESSION && negb (has flags ESC_ATOM_ESCAPE)
     then error_at Decimal_escape_sequences_and_backreferences_are_not_allowed_in_a_character_class
            start (p - start) []
     else error_at Escape_sequence_0_is_not_allowed start (p - start) [raw]) ;;
    mret (utf8_encode ch)
  else mret raw.

(** The text of a code point, [char::REPLACEMENT_CHARACTER] for a surrogate. *)
Definition char_or_replacement (code_point : Z) : bytes :=
  utf8_encode (default 65533 (char_from_u32 code_point)).

(** A code unit of a [\uXXXX] escape, with the low surrogate that may follow a high one. *)
Definition scan_code_unit (start : nat) (code_point : Z) (flags : Z) : MS bytes :=
  c0 ← char_;
  c1 ← char_at 1;
  c2 ← char_at 2;
  if code_point_is_high_surrogate code_point
     && (negb (has flags ESC_REGULAR_EXPRESSION) || has flags ESC_ANY_UNICODE_MODE)
     && (c0 =? 92) && (c1 =? chr "u") && negb (c2 =? chr "{")
  then
    saved_pos ← gets pos;
    next_code_point ← scan_unicode_escape (has flags ESC_REPORT_INVALID_ESCAPE_ERRORS);
    match next_code_point with
    | Some next =>
        if code_point_is_low_surrogate next then
          match char_from_u32 (surrogate_pair_to_codepoint code_point next) with
          | Some ch => mret (utf8_encode ch)
          | None => p ← gets pos; text_slice start p
          end
        else
          modify (set_pos saved_pos) ;;
          mret (if has flags ESC_REGULAR_EXPRESSION then lossy_surrogate
                else char_or_replacement code_point)
    | None =>
        modify (set_pos saved_pos) ;;
        mret (if has flags ESC_REGULAR_EXPRESSION then lossy_surrogate
              else char_or_replacement code_point)
    end
  else if (code_point_is_high_surrogate code_point || code_point_is_low_surrogate code_point)
          && has flags ESC_REGULAR_EXPRESSION
  then mret lossy_surrogate
  else mret (char_or_replacement code_point).

(** The arm of [\u]. *)
Definition scan_escape_u (start : nat) (flags : Z) : MS bytes :=
  ch ← char_;
  let extended := ch =? chr "{" in
  modify (fun s => set_pos (pos s - 2) s) ;;
  code_point ← scan_unicode_escape (has flags ESC_REPORT_INVALID_ESCAPE_ERRORS);
  p ← gets pos;
  if extended then
    when (negb (has flags ESC_ALLOW_EXTENDED_UNICODE_ESCAPE))
      (add_flags TokenFlags.CONTAINS_INVALID_ESCAPE ;;
       when (has flags ESC_REPORT_INVALID_ESCAPE_ERRORS)
         (error_at
            Unicode_escape_sequences_are_only_available_when_the_Unicode_u_flag_or_the_Unicode_Sets_v_flag_is_set
            start (p - start) [])) ;;
    match code_point with
    | None => text_slice start p
    | Some cp => mret (char_or_replacement cp)
    end
  else
    match code_point with
    | None => text_slice start p
    | Some cp => scan_code_unit start cp flags
    end.

(** The arm of [\x]: two hexadecimal digits. *)
Definition scan_escape_x (start : nat) (flags : Z) : MS bytes :=
  ok ← loop (fun _ : unit =>
    p ← gets pos;
    if (p <? start + 4)%nat then
      ch ← char_;
      if negb (is_ascii_hexdigit ch) then
        add_flags TokenFlags.CONTAINS_INVALID_ESCAPE ;;
        when (has flags ESC_REPORT_INVALID_ESCAPE_ERRORS)
          (error_here Hexadecimal_digit_expected 0) ;;
        mret (inr false)
      else advance 1 ;; mret (inl tt)
    else mret (inr true)) tt;
  p ← gets pos;
  if ok : bool then
    add_flags TokenFlags.HEX_ESCAPE ;;
    digits ← text_slice (start + 2) p;
    let value := default 0 (from_str_radix 16 U32_MAX digits) in
    mret (utf8_encode (default 0 (char_from_u32 value)))
  else text_slice start p.

(** The last arms: line continuations before U+2028, U+2029 and U+0085 are recognised by their bytes,
    any other character stands for itself. *)
Definition scan_escape_other (ch : char) (flags : Z) : MS bytes :=
  c0 ← char_;
  c1 ← char_at 1;
  if (ch =? 226) && (c0 =? 128) then
    if (c1 =? 168) || (c1 =? 169) then
      advance 2 ;; mret (utf8_encode 226 ++ utf8_encode 65533 ++ utf8_encode 65533)
    else mret (utf8_encode ch)
  else if (ch =? 194) && (c0 =? 133) then
    advance 1 ;; mret (utf8_encode 194 ++ utf8_encode 65533)
  else
    when (has flags ESC_ANY_UNICODE_MODE
          || (has flags ESC_REGULAR_EXPRESSION && negb (has flags ESC_ANNEX_B)
              && is_identifier_part ch))
      (p ← gets pos;
       error_at This_character_cannot_be_escaped_in_a_regular_expression (p - 2) 2 []) ;;
    mret (utf8_encode ch).

Definition scan_escape_sequence (flags : Z) : MS bytes :=
  start ← gets pos;
  advance 1 ;;
  ch ← char_;
  if ch =? 0 then error_here Unexpected_end_of_text 0 ;; mret []
  else
    advance 1 ;;
    if ch =? chr "0" then
      next ← char_;
      if negb (is_ascii_digit next) then mret [0] else scan_octal_escape_tail start ch flags
    else if (49 <=? ch) && (ch <=? 55) then scan_octal_escape_tail start ch flags
    else if (ch =? chr "8") || (ch =? chr "9") then scan_decimal_escape start ch flags
    else if ch =? chr "b" then mret [8]
    else if ch =? chr "t" then mret [9]
    else if ch =? chr "n" then mret [10]
    else if ch =? chr "v" then mret [11]
    else if ch =? chr "f" then mret [12]
    else if ch =? chr "r" then mret [13]
    else if ch =? 39 then mret [39]
    else if ch =? 34 then mret [34]
    else if ch =? chr "u" then scan_escape_u start flags
    else if ch =? chr "x" then scan_escape_x start flags
    else if ch =? 13 then
      next ← char_;
      when (next =? 10) (advance 1) ;; mret []
    else if ch =? 10 then mret []
    else scan_escape_other ch flags.

(** ** Identifiers *)

(** Characters of an identifier with its unicode escapes decoded. The loop variables are the text
    collected so far and the start of the part not copied yet. *)
Definition scan_identifier_parts : MS bytes :=
  start ← gets pos;
  '(result, start) ← loop (fun '(result, start) =>
    '(ch, size) ← char_and_size;
    if (size =? 0)%nat then mret (inr (result, start))
    else if is_identifier_part ch then
      advance size ;; mret (inl (result, start))
    else if ch =? 92 then
      escaped ← peek_unicode_escape;
      match escaped with
      | Some e =>
          if is_identifier_part e then
            p ← gets pos;
            part ← text_slice start p;
            cp ← scan_unicode_escape true;
            let result := result ++ part
              ++ match cp ≫= char_from_u32 with Some ch => utf8_encode ch | None => [] end in
            p ← gets pos;
            mret (inl (result, p))
          else mret (inr (result, start))
      | None => mret (inr (result, start))
      end
    else mret (inr (result, start))) ([], start);
  p ← gets pos;
  part ← text_slice start p;
  mret (result ++ part).

(** The ASCII fast path of [scan_identifier]: after the first character, word characters and [$]. *)
Definition scan_word : MS char :=
  loop (fun _ : unit =>
    advance 1 ;;
    ch ← char_;
    if is_word_character ch || (ch =? chr "$") then mret (inl tt) else mret (inr ch)) tt.

Definition scan_identifier_slow (start : nat) : MS bool :=
  '(ch, size) ← char_and_size;
  if is_identifier_start ch then
    ch ← loop (fun size =>
      advance size ;;
      '(ch, size) ← char_and_size;
      if is_identifier_part ch then mret (inl size) else mret (inr ch)) size;
    p ← gets pos;
    set_token_value_from_range start p ;;
    when (ch =? 92) (parts ← scan_identifier_parts; push_str_token_value parts) ;;
    mret true
  else mret false.

Definition scan_identifier (prefix_length : nat) : MS bool :=
  start ← gets pos;
  advance prefix_length ;;
  ch ← char_;
  if is_ascii_alphabetic ch || (ch =? chr "_") || (ch =? chr "$") then
    ch ← scan_word;
    if is_ascii_char ch && negb (ch =? 92) then
      p ← gets pos;
      set_token_value_from_range start p ;;
      mret true
    else
      modify (set_pos (start + prefix_length)) ;;
      scan_identifier_slow start
  else scan_identifier_slow start.

(** ** String literals *)

(** [result.push_str(&self.text[start..self.pos])] on an optional buffer. *)
Definition push_part (result : option bytes) (start : nat) : MS (option bytes) :=
  match result with
  | Some r => p ← gets pos; part ← text_slice start p; mret (Some (r ++ part))
  | None => mret None
  end.

(** [result.get_or_insert_with(String::new).push_str(&self.text[start..self.pos])] *)
Definition push_or_insert_part (result : option bytes) (start : nat) : MS bytes :=
  p ← gets pos; part ← text_slice start p; mret (default [] result ++ part).

(** The token value: the buffer, or the source between the quotes when nothing was decoded. *)
Definition finish_value (result : option bytes) (value_start value_end : nat) : MS unit :=
  match result with
  | Some r => set_token_value r
  | None => set_token_value_from_range value_start value_end
  end.

Definition unterminated_string (result : option bytes) (start value_start : nat) : MS unit :=
  result ← push_part result start;
  add_flags TokenFlags.UNTERMINATED ;;
  error_here Unterminated_string_literal 0 ;;
  p ← gets pos;
  finish_value result value_start p.

(** The general loop: escapes are decoded into a buffer, line breaks end the literal. *)
Definition scan_string_loop (quote : char) (jsx_attribute_string : bool) (value_start : nat)
    : MS unit :=
  loop (fun '(result, start) =>
    '(ch, size) ← char_and_size;
    if (size =? 0)%nat then
      unterminated_string result start value_start ;; mret (inr tt)
    else if ch =? quote then
      result ← push_part result start;
      value_end ← gets pos;
      advance size ;;
      finish_value result value_start value_end ;; mret (inr tt)
    else if (ch =? 92) && negb jsx_attribute_string then
      buffer ← push_or_insert_part result start;
      escaped ← scan_escape_sequence (Z.lor ESC_STRING ESC_REPORT_ERRORS);
      p ← gets pos;
      mret (inl (Some (buffer ++ escaped), p))
    else if ((ch =? 10) || (ch =? 13)) && negb jsx_attribute_string then
      unterminated_string result start value_start ;; mret (inr tt)
    else advance size ;; mret (inl (result, start))) (None, value_start).

Definition contains_byte (b : byte) (s : bytes) : bool := existsb (Z.eqb b) s.

(** What the fast path of [scan_string_and_set_token_value] accepts: a closing quote on a literal
    that needs no decoding. *)
Definition simple_literal (jsx_attribute_string : bool) (literal : bytes) : bool :=
  jsx_attribute_string
  || (negb (contains_byte 13 literal) && negb (contains_byte 10 literal)
      && negb (contains_byte 92 literal)).

Definition scan_string_and_set_token_value (jsx_attribute_string : bool) : MS unit :=
  quote ← char_;
  when (quote =? 39) (add_flags TokenFlags.SINGLE_QUOTE) ;;
  advance (len_utf8 quote) ;;
  value_start ← gets pos;
  e ← gets end_;
  rest ← text_slice value_start e;
  match find_sub (utf8_encode quote) rest with
  | Some relative_end =>
      let value_end := (value_start + relative_end)%nat in
      if (relative_end =? 0)%nat then
        advance (len_utf8 quote) ;;
        set_token_value_from_range value_start value_end
      else
        literal ← text_slice value_start value_end;
        if simple_literal jsx_attribute_string literal then
          advance (relative_end + len_utf8 quote) ;;
          set_token_value_from_range value_start value_end
        else scan_string_loop quote jsx_attribute_string value_start
  | None => scan_string_loop quote jsx_attribute_string value_start
  end.

(** [scan_string]: the value, with the token value restored. *)
Definition scan_string (jsx_attribute_string : bool) : MS bytes :=
  saved_token_value ← gets token_value_;
  scan_string_and_set_token_value jsx_attribute_string ;;
  value ← token_value;
  modify (put_token_value saved_token_value) ;;
  mret value.

(** ** Templates *)
Definition scan_template_and_set_token_value (should_emit_invalid_escape_error : bool) : MS Kind :=
  c0 ← char_;
  let started_with_backtick := c0 =? chr "`" in
  advance 1 ;;
  value_start ← gets pos;
  '(token, result, value_end) ← loop (fun '(result, start) =>
    '(ch, size) ← char_and_size;
    c1 ← char_at 1;
    if (size =? 0)%nat || (ch =? chr "`") then
      value_end ← gets pos;
      result ← push_part result start;
      (if ch =? chr "`" then advance size
       else add_flags TokenFlags.UNTERMINATED ;; error_here Unterminated_template_literal 0) ;;
      mret (inr (if started_with_backtick then Kind.NoSubstitutionTemplateLiteral
                 else Kind.TemplateTail, result, value_end))
    else if (ch =? chr "$") && (c1 =? chr "{") then
      value_end ← gets pos;
      result ← push_part result start;
      advance 2 ;;
      mret (inr (if started_with_backtick then Kind.TemplateHead else Kind.TemplateMiddle,
                 result, value_end))
    else if ch =? 92 then
      buffer ← push_or_insert_part result start;
      escaped ← scan_escape_sequence
        (if should_emit_invalid_escape_error then Z.lor ESC_STRING ESC_REPORT_ERRORS
         else ESC_STRING);
      p ← gets pos;
      mret (inl (Some (buffer ++ escaped), p))
    else if ch =? 13 then
      buffer ← push_or_insert_part result start;
      advance size ;;
      next ← char_;
      when (next =? 10) (advance 1) ;;
      p ← gets pos;
      mret (inl (Some (buffer ++ [10]), p))
    else advance size ;; mret (inl (result, start))) (None, value_start);
  finish_value result value_start value_end ;;
  mret token.

(** ** Numbers *)
Section numbers.
Context `{JsNumber}.

Definition scan_big_int_suffix : MS Kind :=
  ch ← char_;
  if ch =? chr "n" then
    push_token_value (chr "n") ;;
    flags ← gets token_flags;
    when (negb (Z.land flags TokenFlags.BINARY_OR_OCTAL_SPECIFIER =? 0))
      (v ← token_value;
       decimal ← unwrap (parse_pseudo_big_int v);
       set_token_value (decimal ++ [chr "n"])) ;;
    advance 1 ;;
    mret Kind.BigIntLiteral
  else
    v ← token_value;
    let t := number_text v in
    when (negb (bool_decide (t = v))) (set_token_value t) ;;
    mret Kind.NumericLiteral.

(** [let token_value = jsnum::from_string(self.token_value()).to_string()] and its assignment. *)
Definition normalize_number : MS unit :=
  v ← token_value; set_token_value (number_text v).

(** The integer part: [inl] is its text, [inr] the end of a legacy octal literal. *)
Definition scan_fixed_part (start : nat) : MS (bytes + Kind) :=
  c0 ← char_;
  if c0 =? chr "0" then
    advance 1 ;;
    c1 ← char_;
    if c1 =? chr "_" then
      add_flags (Z.lor TokenFlags.CONTAINS_SEPARATOR TokenFlags.CONTAINS_INVALID_SEPARATOR) ;;
      error_here Numeric_separators_are_not_allowed_here 1 ;;
      modify (set_pos start) ;;
      part ← scan_number_fragment;
      mret (inl part)
    else
      '(digits, is_octal) ← scan_digits;
      if bool_decide (digits = []) then mret (inl (bstr "0"))
      else if negb is_octal then
        add_flags TokenFlags.CONTAINS_LEADING_ZERO ;; mret (inl digits)
      else
        let val := default I64_MAX (from_str_radix 8 I64_MAX digits) in
        set_token_value (format_radix 10 val) ;;
        add_flags TokenFlags.OCTAL ;;
        previous ← gets token;
        let with_minus := Kind_eqb previous Kind.MinusToken in
        let literal := (if with_minus then bstr "-" else []) ++ bstr "0o" ++ format_radix 8 val in
        let start := if with_minus then (start - 1)%nat else start in
        p ← gets pos;
        error_at Octal_literals_are_not_allowed_Use_the_syntax_0 start (p - start) [literal] ;;
        mret (inr Kind.NumericLiteral)
  else part ← scan_number_fragment; mret (inl part).

(** The fraction and the exponent: their texts, and the end of the part that has a value. *)
Definition scan_fraction_and_exponent : MS (bytes * bytes * bytes * nat) :=
  ch ← char_;
  fractional_part ← (if ch =? chr "." then advance 1 ;; scan_number_fragment else mret []);
  e ← gets pos;
  ch ← char_;
  if (ch =? chr "E") || (ch =? chr "e") then
    advance 1 ;;
    add_flags TokenFlags.SCIENTIFIC ;;
    ch ← char_;
    when ((ch =? chr "+") || (ch =? chr "-")) (advance 1) ;;
    start_numeric_part ← gets pos;
    exponent_part ← scan_number_fragment;
    if bool_decide (exponent_part = []) then
      error_here Digit_expected 0 ;;
      mret (fractional_part, [], [], e)
    else
      exponent_preamble ← text_slice e start_numeric_part;
      p ← gets pos;
      mret (fractional_part, exponent_preamble, exponent_part, p)
  else mret (fractional_part, [], [], e).

(** An identifier directly after a number is an error. *)
Definition check_identifier_after_number (start fixed_part_end : nat) (result : Kind) : MS Kind :=
  '(ch, _) ← char_and_size;
  if is_identifier_start ch then
    id_start ← gets pos;
    id ← scan_identifier_parts;
    s ← get;
    if negb (Kind_eqb result Kind.BigIntLiteral) && (length id =? 1)%nat
       && bool_decide (text s !! id_start = Some (chr "n"))
       && TokenFlags.contains (token_flags s) TokenFlags.SCIENTIFIC
    then
      error_at A_bigint_literal_cannot_use_exponential_notation start (pos s - start) [] ;;
      mret result
    else if negb (Kind_eqb result Kind.BigIntLiteral) && (length id =? 1)%nat
            && bool_decide (text s !! id_start = Some (chr "n"))
            && (fixed_part_end <? id_start)%nat
    then
      error_at A_bigint_literal_must_be_an_integer start (pos s - start) [] ;;
      mret result
    else
      error_at An_identifier_or_keyword_cannot_immediately_follow_a_numeric_literal id_start
        (pos s - id_start) [] ;;
      modify (set_pos id_start) ;;
      mret result
  else mret result.

(** The text of a number whose separators were removed. *)
Definition set_number_value (start e : nat) (fixed_part fractional_part exponent_preamble
    exponent_part : bytes) : MS unit :=
  flags ← gets token_flags;
  if TokenFlags.contains flags TokenFlags.CONTAINS_SEPARATOR then
    set_token_value fixed_part ;;
    when (negb (bool_decide (fractional_part = [])))
      (push_token_value (chr ".") ;; push_str_token_value fractional_part) ;;
    when (negb (bool_decide (exponent_part = [])))
      (push_str_token_value exponent_preamble ;; push_str_token_value exponent_part)
  else set_token_value_from_range start e.

Definition scan_number : MS Kind :=
  start ← gets pos;
  fixed ← scan_fixed_part start;
  match fixed with
  | inr kind => mret kind
  | inl fixed_part =>
      fixed_part_end ← gets pos;
      '(fractional_part, exponent_preamble, exponent_part, e) ← scan_fraction_and_exponent;
      set_number_value start e fixed_part fractional_part exponent_preamble exponent_part ;;
      flags ← gets token_flags;
      if TokenFlags.contains flags TokenFlags.CONTAINS_LEADING_ZERO then
        p ← gets pos;
        error_at Decimals_with_leading_zeros_are_not_allowed start (p - start) [] ;;
        normalize_number ;;
        mret Kind.NumericLiteral
      else
        p ← gets pos;
        result ← (if (fixed_part_end =? p)%nat then scan_big_int_suffix
                  else normalize_number ;; mret Kind.NumericLiteral);
        check_identifier_after_number start fixed_part_end result
  end.
End numbers.

Definition scan_invalid_character : MS unit :=
  '(_, size) ← char_and_size;
  error_here Invalid_character size ;;
  advance size ;;
  set_token Kind.Unknown.
