(* ===== verification/Scanner.v ===== *)
(** * Scanner: scanning a token (ts-scanner/src/scanner.rs)

    [scan], its arms, the rescanning methods and the JSX methods. An arm of the [match] of [scan] with
    more than one outcome is a definition of its own, which moves [pos] and sets [token]. The rescan of a
    slash as a regular expression is in RegExp.v. *)
From S2P Require Import Prelude Text Chars SyntaxKind Monad Numerals JsNum Keywords Trivia.
From S2P Require Import ScannerState ScannerOps.

(** ** Operators *)

(** [self.pos += n; self.token = kind] *)
Definition accept (n : nat) (kind : Kind) : MS unit := advance n ;; set_token kind.

Definition scan_exclamation : MS unit :=
  c1 ← char_at 1;
  if c1 =? chr "=" then
    c2 ← char_at 2;
    if c2 =? chr "=" then accept 3 Kind.ExclamationEqualsEqualsToken
    else accept 2 Kind.ExclamationEqualsToken
  else accept 1 Kind.ExclamationToken.

Definition scan_percent : MS unit :=
  c1 ← char_at 1;
  if c1 =? chr "=" then accept 2 Kind.PercentEqualsToken else accept 1 Kind.PercentToken.

Definition scan_ampersand : MS unit :=
  c1 ← char_at 1;
  if c1 =? chr "&" then
    c2 ← char_at 2;
    if c2 =? chr "=" then accept 3 Kind.AmpersandAmpersandEqualsToken
    else accept 2 Kind.AmpersandAmpersandToken
  else if c1 =? chr "=" then accept 2 Kind.AmpersandEqualsToken
  else accept 1 Kind.AmpersandToken.

Definition scan_asterisk : MS unit :=
  c1 ← char_at 1;
  if c1 =? chr "=" then accept 2 Kind.AsteriskEqualsToken
  else if c1 =? chr "*" then
    c2 ← char_at 2;
    if c2 =? chr "=" then accept 3 Kind.AsteriskAsteriskEqualsToken
    else accept 2 Kind.AsteriskAsteriskToken
  else accept 1 Kind.AsteriskToken.

Definition scan_plus : MS unit :=
  c1 ← char_at 1;
  if c1 =? chr "=" then accept 2 Kind.PlusEqualsToken
  else if c1 =? chr "+" then accept 2 Kind.PlusPlusToken
  else accept 1 Kind.PlusToken.

Definition scan_minus : MS unit :=
  c1 ← char_at 1;
  if c1 =? chr "=" then accept 2 Kind.MinusEqualsToken
  else if c1 =? chr "-" then accept 2 Kind.MinusMinusToken
  else accept 1 Kind.MinusToken.

Definition scan_question : MS unit :=
  c1 ← char_at 1;
  c2 ← char_at 2;
  if (c1 =? chr ".") && negb (is_ascii_digit c2) then accept 2 Kind.QuestionDotToken
  else if c1 =? chr "?" then
    if c2 =? chr "=" then accept 3 Kind.QuestionQuestionEqualsToken
    else accept 2 Kind.QuestionQuestionToken
  else accept 1 Kind.QuestionToken.

Definition scan_caret : MS unit :=
  c1 ← char_at 1;
  if c1 =? chr "=" then accept 2 Kind.CaretEqualsToken else accept 1 Kind.CaretToken.

(** After the conflict marker test. *)
Definition scan_less_than : MS unit :=
  c1 ← char_at 1;
  c2 ← char_at 2;
  if c1 =? chr "<" then
    if c2 =? chr "=" then accept 3 Kind.LessThanLessThanEqualsToken
    else accept 2 Kind.LessThanLessThanToken
  else if c1 =? chr "=" then accept 2 Kind.LessThanEqualsToken
  else
    variant ← gets language_variant;
    if (variant =? LANGUAGE_VARIANT_JSX) && (c1 =? chr "/") && negb (c2 =? chr "*")
    then accept 2 Kind.LessThanSlashToken
    else accept 1 Kind.LessThanToken.

Definition scan_equals : MS unit :=
  c1 ← char_at 1;
  if c1 =? chr "=" then
    c2 ← char_at 2;
    if c2 =? chr "=" then accept 3 Kind.EqualsEqualsEqualsToken
    else accept 2 Kind.EqualsEqualsToken
  else if c1 =? chr ">" then accept 2 Kind.EqualsGreaterThanToken
  else accept 1 Kind.EqualsToken.

Definition scan_bar : MS unit :=
  c1 ← char_at 1;
  if c1 =? chr "|" then
    c2 ← char_at 2;
    if c2 =? chr "=" then accept 3 Kind.BarBarEqualsToken
    else accept 2 Kind.BarBarToken
  else if c1 =? chr "=" then accept 2 Kind.BarEqualsToken
  else accept 1 Kind.BarToken.

(** The arms that always take one byte. *)
Definition single_char_token (ch : char) : option Kind :=
  if ch =? chr "(" then Some Kind.OpenParenToken
  else if ch =? chr ")" then Some Kind.CloseParenToken
  else if ch =? chr "," then Some Kind.CommaToken
  else if ch =? chr ":" then Some Kind.ColonToken
  else if ch =? chr ";" then Some Kind.SemicolonToken
  else if ch =? chr "[" then Some Kind.OpenBracketToken
  else if ch =? chr "]" then Some Kind.CloseBracketToken
  else if ch =? chr "{" then Some Kind.OpenBraceToken
  else if ch =? chr "}" then Some Kind.CloseBraceToken
  else if ch =? chr "~" then Some Kind.TildeToken
  else if ch =? chr "@" then Some Kind.AtToken
  else None.

(** ** Trivia arms *)

(** [loop { .. if size == 0 || !p(ch) { break } self.pos += size }] *)
Definition skip_chars (p : char -> bool) : MS unit :=
  loop (fun _ : unit =>
    '(ch, size) ← char_and_size;
    if (size =? 0)%nat || negb (p ch) then mret (inr tt)
    else advance size ;; mret (inl tt)) tt.

(** How an iteration of [scan] ends: [continue], or the end of the [match]. *)
Definition continue_ : MS (unit + Kind) := mret (inl tt).
Definition done_ : MS (unit + Kind) := k ← gets token; mret (inr k).

Definition scan_whitespace : MS (unit + Kind) :=
  advance 1 ;;
  s ← get;
  if skip_trivia_ s then continue_
  else
    skip_chars is_white_space_single_line ;;
    set_token Kind.WhitespaceTrivia ;;
    done_.

Definition scan_newline (ch : char) : MS (unit + Kind) :=
  add_flags TokenFlags.PRECEDING_LINE_BREAK ;;
  s ← get;
  if skip_trivia_ s then advance 1 ;; continue_
  else
    c1 ← char_at 1;
    (if (ch =? 13) && (c1 =? 10) then advance 2 else advance 1) ;;
    set_token Kind.NewLineTrivia ;;
    done_.

Definition scan_single_line_comment : MS (unit + Kind) :=
  advance 2 ;;
  skip_chars (fun ch => negb (is_line_break ch)) ;;
  s ← get;
  process_comment_directive (token_start s) (pos s) false ;;
  if skip_trivia_ s then continue_
  else set_token Kind.SingleLineCommentTrivia ;; done_.

(** The body of a block comment: whether it was closed, and the start of its last line. *)
Definition scan_block_comment_body (last_line_start : nat) : MS (bool * nat) :=
  loop (fun last_line_start =>
    '(ch, size) ← char_and_size;
    c1 ← char_at 1;
    if (size =? 0)%nat then mret (inr (false, last_line_start))
    else if (ch =? chr "*") && (c1 =? chr "/") then
      advance 2 ;; mret (inr (true, last_line_start))
    else
      advance size ;;
      if is_line_break ch then
        add_flags TokenFlags.PRECEDING_LINE_BREAK ;;
        p ← gets pos;
        mret (inl p)
      else mret (inl last_line_start)) last_line_start.

Definition scan_multi_line_comment : MS (unit + Kind) :=
  advance 2 ;;
  token_start_ ← gets token_start;
  '(comment_closed, last_line_start) ← scan_block_comment_body token_start_;
  s ← get;
  process_comment_directive last_line_start (pos s) true ;;
  when (negb comment_closed) (error_here Asterisk_Slash_expected 0) ;;
  if skip_trivia_ s then continue_
  else
    when (negb comment_closed) (add_flags TokenFlags.UNTERMINATED) ;;
    set_token Kind.MultiLineCommentTrivia ;;
    done_.

Definition scan_slash : MS (unit + Kind) :=
  c1 ← char_at 1;
  if c1 =? chr "/" then scan_single_line_comment
  else if c1 =? chr "*" then scan_multi_line_comment
  else if c1 =? chr "=" then accept 2 Kind.SlashEqualsToken ;; done_
  else accept 1 Kind.SlashToken ;; done_.

Definition scan_conflict_marker_as_token : MS bool :=
  s ← get;
  if negb (is_conflict_marker_trivia (text s) (pos s)) then mret false
  else
    error_at Merge_conflict_marker_encountered (pos s) 7 [] ;;
    p ← unwrap (scan_conflict_marker_trivia (text s) (pos s));
    modify (set_pos p) ;;
    set_token Kind.ConflictMarkerTrivia ;;
    mret true.

(** The arms of [<], [=], [>], [|]: a conflict marker, or the operator. *)
Definition or_conflict_marker (operator : MS unit) : MS (unit + Kind) :=
  marker ← scan_conflict_marker_as_token;
  if marker : bool then
    s ← get;
    if skip_trivia_ s then continue_ else done_
  else operator ;; done_.

(** ** Literal arms *)
Section scan.
Context `{JsNumber}.

Definition scan_dot : MS unit :=
  c1 ← char_at 1;
  c2 ← char_at 2;
  if is_ascii_digit c1 then k ← scan_number; set_token k
  else if (c1 =? chr ".") && (c2 =? chr ".") then accept 3 Kind.DotDotDotToken
  else accept 1 Kind.DotToken.

(** Digits, or ["0"] with an error when there are none. *)
Definition digits_or_error (m : Message) (digits : bytes) : MS bytes :=
  if bool_decide (digits = []) then error_here m 0 ;; mret (bstr "0") else mret digits.

Definition scan_hex_number : MS unit :=
  start ← gets pos;
  advance 2 ;;
  digits ← scan_hex_digits 1 true true;
  digits ← digits_or_error Hexadecimal_digit_expected digits;
  p ← gets pos;
  raw_text ← text_slice start p;
  (if starts_with (bstr "0x") raw_text && bool_decide (drop 2 raw_text = digits)
   then set_token_value_from_range start p
   else set_token_value (bstr "0x" ++ digits)) ;;
  add_flags TokenFlags.HEX_SPECIFIER ;;
  k ← scan_big_int_suffix;
  set_token k.

Definition scan_binary_or_octal_number (base : Z) (prefix : bytes) (m : Message) (flag : Z)
    : MS unit :=
  advance 2 ;;
  digits ← scan_binary_or_octal_digits base;
  digits ← digits_or_error m digits;
  set_token_value (prefix ++ digits) ;;
  add_flags flag ;;
  k ← scan_big_int_suffix;
  set_token k.

Definition scan_zero : MS unit :=
  c1 ← char_at 1;
  if (c1 =? chr "X") || (c1 =? chr "x") then scan_hex_number
  else if (c1 =? chr "B") || (c1 =? chr "b") then
    scan_binary_or_octal_number 2 (bstr "0b") Binary_digit_expected TokenFlags.BINARY_SPECIFIER
  else if (c1 =? chr "O") || (c1 =? chr "o") then
    scan_binary_or_octal_number 8 (bstr "0o") Octal_digit_expected TokenFlags.OCTAL_SPECIFIER
  else k ← scan_number; set_token k.

(** [self.set_token_value(..); self.scan_unicode_escape(true); parts; push] *)
Definition scan_escaped_identifier (value : bytes) : MS unit :=
  set_token_value value ;;
  scan_unicode_escape true ;;
  parts ← scan_identifier_parts;
  push_str_token_value parts.

(** The escape at [pos], when it is peeked as the start of an identifier. *)
Definition peek_identifier_start : MS (option char) :=
  cp ← peek_unicode_escape;
  mret (match cp with
        | Some ch => if is_identifier_start ch then Some ch else None
        | None => None
        end).

Definition set_identifier_token : MS unit :=
  v ← token_value; set_token (get_identifier_token v).

Definition scan_backslash : MS unit :=
  cp ← peek_identifier_start;
  match cp with
  | Some ch => scan_escaped_identifier (utf8_encode ch) ;; set_identifier_token
  | None => scan_invalid_character
  end.

Definition scan_private_name : MS unit :=
  found ← scan_identifier 1;
  when (negb found)
    (p ← gets pos;
     error_at Invalid_character (p - 1) 1 [] ;;
     set_token_value (bstr "#")) ;;
  set_token Kind.PrivateIdentifier.

Definition scan_hash : MS (unit + Kind) :=
  c1 ← char_at 1;
  if c1 =? chr "!" then
    p ← gets pos;
    if (p =? 0)%nat then
      advance 2 ;;
      skip_chars (fun ch => negb (is_line_break ch)) ;;
      continue_
    else
      error_here X_can_only_be_used_at_the_start_of_a_file 2 ;;
      accept 1 Kind.Unknown ;;
      done_
  else if c1 =? 92 then
    advance 1 ;;
    cp ← peek_identifier_start;
    match cp with
    | Some ch =>
        scan_escaped_identifier (bstr "#" ++ utf8_encode ch) ;;
        set_token Kind.PrivateIdentifier ;;
        done_
    | None =>
        modify (fun s => set_pos (pos s - 1) s) ;;
        scan_private_name ;;
        done_
    end
  else scan_private_name ;; done_.

(** The last arm: an identifier, non-ASCII trivia, or an invalid character. *)
Definition scan_other : MS (unit + Kind) :=
  found ← scan_identifier 0;
  if found : bool then set_identifier_token ;; done_
  else
    '(ch, size) ← char_and_size;
    if ch =? 65533 then
      error_at File_appears_to_be_binary 0 0 [] ;;
      modify (fun s => set_pos (end_ s) s) ;;
      set_token Kind.NonTextFileMarkerTrivia ;;
      done_
    else if is_white_space_single_line ch then
      advance size ;;
      s ← get;
      if (ch =? 133) || skip_trivia_ s then continue_
      else
        skip_chars is_white_space_single_line ;;
        set_token Kind.WhitespaceTrivia ;;
        done_
    else if is_line_break ch then
      add_flags TokenFlags.PRECEDING_LINE_BREAK ;;
      advance size ;;
      continue_
    else scan_invalid_character ;; done_.

(** The arms that start neither trivia nor a name. *)
Definition scan_operator (ch : char) : option (MS unit) :=
  match single_char_token ch with
  | Some kind => Some (accept 1 kind)
  | None =>
      if ch =? chr "!" then Some scan_exclamation
      else if ch =? chr "%" then Some scan_percent
      else if ch =? chr "&" then Some scan_ampersand
      else if ch =? chr "*" then Some scan_asterisk
      else if ch =? chr "+" then Some scan_plus
      else if ch =? chr "-" then Some scan_minus
      else if ch =? chr "?" then Some scan_question
      else if ch =? chr "^" then Some scan_caret
      else None
  end.

Definition scan_literal (ch : char) : option (MS unit) :=
  if (ch =? 34) || (ch =? 39) then
    Some (scan_string_and_set_token_value false ;; set_token Kind.StringLiteral)
  else if ch =? chr "`" then
    Some (k ← scan_template_and_set_token_value false; set_token k)
  else if ch =? chr "." then Some scan_dot
  else if ch =? chr "0" then Some scan_zero
  else if (49 <=? ch) && (ch <=? 57) then Some (k ← scan_number; set_token k)
  else if ch =? 92 then Some scan_backslash
  else None.

(** The [match] of [scan]. *)
Definition scan_match (ch : char) : MS (unit + Kind) :=
  if (ch =? 9) || (ch =? 11) || (ch =? 12) || (ch =? 32) then scan_whitespace
  else if (ch =? 10) || (ch =? 13) then scan_newline ch
  else match scan_operator ch with
  | Some arm => arm ;; done_
  | None =>
  match scan_literal ch with
  | Some arm => arm ;; done_
  | None =>
      if ch =? chr "/" then scan_slash
      else if ch =? chr "<" then or_conflict_marker scan_less_than
      else if ch =? chr "=" then or_conflict_marker scan_equals
      else if ch =? chr ">" then or_conflict_marker (accept 1 Kind.GreaterThanToken)
      else if ch =? chr "|" then or_conflict_marker scan_bar
      else if ch =? chr "#" then scan_hash
      else
        s ← get;
        if (ch =? 0) && (end_ s <=? pos s)%nat then set_token Kind.EndOfFile ;; done_
        else scan_other
  end end.

Definition scan_iteration (_ : unit) : MS (unit + Kind) :=
  modify (fun s => set_token_start (pos s) s) ;;
  clear_token_value ;;
  ch ← char_;
  scan_match ch.

Definition scan : MS Kind :=
  modify (fun s => set_full_start_pos (pos s) s) ;;
  modify (put_token_flags TokenFlags.NONE) ;;
  loop scan_iteration tt.
End scan.

(** ** Rescanning *)
Definition rescan_less_than_token : MS Kind :=
  s ← get;
  when (Kind_eqb (token s) Kind.LessThanLessThanToken)
    (modify (set_pos (token_start s + 1)) ;; set_token Kind.LessThanToken) ;;
  gets token.

(** [text.get(self.pos + offset) == Some(b)] *)
Definition byte_at_is (offset : nat) (b : byte) : MS bool :=
  s ← get; mret (bool_decide (text s !! (pos s + offset)%nat = Some b)).

Definition rescan_greater_than_token : MS Kind :=
  s ← get;
  when (Kind_eqb (token s) Kind.GreaterThanToken)
    (modify (set_pos (token_start s + 1)) ;;
     gt0 ← byte_at_is 0 (chr ">");
     gt1 ← byte_at_is 1 (chr ">");
     eq0 ← byte_at_is 0 (chr "=");
     eq1 ← byte_at_is 1 (chr "=");
     eq2 ← byte_at_is 2 (chr "=");
     if gt0 : bool then
       if gt1 : bool then
         if eq2 : bool then accept 3 Kind.GreaterThanGreaterThanGreaterThanEqualsToken
         else accept 2 Kind.GreaterThanGreaterThanGreaterThanToken
       else if eq1 : bool then accept 2 Kind.GreaterThanGreaterThanEqualsToken
       else accept 1 Kind.GreaterThanGreaterThanToken
     else when eq0 (accept 1 Kind.GreaterThanEqualsToken)) ;;
  gets token.

Definition rescan_template_token (is_tagged_template : bool) : MS Kind :=
  modify (fun s => set_pos (token_start s) s) ;;
  k ← scan_template_and_set_token_value (negb is_tagged_template);
  set_token k ;;
  gets token.

Definition rescan_asterisk_equals_token : MS Kind :=
  s ← get;
  if negb (Kind_eqb (token s) Kind.AsteriskEqualsToken) then panic
  else
    modify (set_pos (token_start s + 1)) ;;
    set_token Kind.EqualsToken ;;
    gets token.

Definition rescan_hash_token : MS Kind :=
  s ← get;
  when (Kind_eqb (token s) Kind.PrivateIdentifier)
    (modify (set_pos (token_start s + 1)) ;; set_token Kind.HashToken) ;;
  gets token.

Definition rescan_question_token : MS Kind :=
  s ← get;
  if negb (Kind_eqb (token s) Kind.QuestionQuestionToken) then panic
  else
    modify (set_pos (token_start s + 1)) ;;
    set_token Kind.QuestionToken ;;
    gets token.

(** ** JSX *)

(** The position the text classification is at: [0] while only leading white space was seen on the
    first line, [-1] after a line break in it, otherwise the last character that is not white
    space. *)
Definition scan_jsx_text (allow_multiline_jsx_text : bool) : MS (Z + Kind) :=
  loop (fun first_non_whitespace =>
    '(ch, size) ← char_and_size;
    s ← get;
    if (size =? 0)%nat || (ch =? chr "{") then mret (inr (inl first_non_whitespace))
    else if ch =? chr "<" then
      if is_conflict_marker_trivia (text s) (pos s) then
        error_at Merge_conflict_marker_encountered (pos s) 7 [] ;;
        p ← unwrap (scan_conflict_marker_trivia (text s) (pos s));
        modify (set_pos p) ;;
        set_token Kind.ConflictMarkerTrivia ;;
        mret (inr (inr Kind.ConflictMarkerTrivia))
      else mret (inr (inl first_non_whitespace))
    else
      (if ch =? chr ">" then error_here Unexpected_token_Did_you_mean_or_gt 1
       else when (ch =? chr "}") (error_here Unexpected_token_Did_you_mean_or_rbrace 1)) ;;
      if is_line_break ch && (first_non_whitespace =? 0) then
        advance size ;; mret (inl (-1))
      else if negb allow_multiline_jsx_text && is_line_break ch && (0 <? first_non_whitespace) then
        mret (inr (inl first_non_whitespace))
      else if negb (is_white_space_like ch) then
        advance size ;; mret (inl (Z.of_nat (pos s)))
      else advance size ;; mret (inl first_non_whitespace)) 0.

Definition scan_jsx_token_ex (allow_multiline_jsx_text : bool) : MS Kind :=
  modify (fun s => set_full_start_pos (pos s) s) ;;
  modify (fun s => set_token_start (pos s) s) ;;
  ch ← char_;
  (if ch =? 0 then set_token Kind.EndOfFile
   else if ch =? chr "<" then
     c1 ← char_at 1;
     if c1 =? chr "/" then accept 2 Kind.LessThanSlashToken else accept 1 Kind.LessThanToken
   else if ch =? chr "{" then accept 1 Kind.OpenBraceToken
   else
     r ← scan_jsx_text allow_multiline_jsx_text;
     match r with
     | inr _ => mret tt
     | inl first_non_whitespace =>
         s ← get;
         set_token_value_from_range (full_start_pos s) (pos s) ;;
         set_token (if first_non_whitespace =? -1 then Kind.JsxTextAllWhiteSpaces
                    else Kind.JsxText)
     end) ;;
  gets token.

Definition scan_jsx_token : MS Kind := scan_jsx_token_ex true.

Definition rescan_jsx_token (allow_multiline_jsx_text : bool) : MS Kind :=
  modify (fun s => set_pos (full_start_pos s) s) ;;
  modify (fun s => set_token_start (full_start_pos s) s) ;;
  k ← scan_jsx_token_ex allow_multiline_jsx_text;
  set_token k ;;
  gets token.

Definition scan_jsx_identifier : MS Kind :=
  k ← gets token;
  when (token_is_identifier_or_keyword k)
    (loop (fun _ : unit =>
       ch ← char_;
       if ch =? 0 then mret (inr tt)
       else if ch =? chr "-" then
         push_token_value (chr "-") ;; advance 1 ;; mret (inl tt)
       else
         old_pos ← gets pos;
         parts ← scan_identifier_parts;
         push_str_token_value parts ;;
         p ← gets pos;
         if (p =? old_pos)%nat then mret (inr tt) else mret (inl tt)) tt ;;
     v ← token_value;
     set_token (get_identifier_token v)) ;;
  gets token.

Section scan_jsx.
Context `{JsNumber}.

Definition scan_jsx_attribute_value : MS Kind :=
  modify (fun s => set_full_start_pos (pos s) s) ;;
  skip_chars is_white_space_like ;;
  modify (fun s => set_token_start (pos s) s) ;;
  ch ← char_;
  if (ch =? 34) || (ch =? 39) then
    scan_string_and_set_token_value true ;;
    set_token Kind.StringLiteral ;;
    gets token
  else scan.

Definition rescan_jsx_attribute_value : MS Kind :=
  modify (fun s => set_pos (full_start_pos s) s) ;;
  modify (fun s => set_token_start (full_start_pos s) s) ;;
  scan_jsx_attribute_value.
End scan_jsx.

(** [get_scanner_for_source_file], [scan_token_at_position]: the token at a position. *)
Definition get_scanner_for_source_file `{JsNumber} (t : bytes) (variant : Z) (p : nat)
    : outcome Scanner :=
  let s := new t 12 in
  match scan {| text := t; end_ := length t; language_variant := variant; script_target := 12;
                skip_trivia_ := true; pos := p; full_start_pos := full_start_pos s;
                token_start := token_start s; token := token s; token_value_ := token_value_ s;
                token_flags := token_flags s; comment_directives := []; contains_non_ascii := false;
                diagnostics := [] |} with
  | Ok (_, s) => Ok s
  | Panic => Panic
  | OutOfFuel => OutOfFuel
  end.
