(* ===== verification/UnicodeProps.v ===== *)
(** * UnicodeProps: the names of Unicode properties in regular expressions (ts-scanner/src/unicodeproperties.rs)

    A set of names is the list of them in the order of the source; only membership is used. *)
From S2P Require Import Prelude.

Definition contains (names : list bytes) (name : bytes) : bool := bool_decide (name ∈ names).

Definition non_binary_unicode_properties : list (bytes * bytes) := [
    (bstr "General_Category", bstr "General_Category"); (bstr "gc", bstr "General_Category");
    (bstr "Script", bstr "Script"); (bstr "sc", bstr "Script");
    (bstr "Script_Extensions", bstr "Script_Extensions"); (bstr "scx", bstr "Script_Extensions")].

Definition binary_unicode_properties : list bytes := [
    bstr "ASCII"; bstr "ASCII_Hex_Digit"; bstr "AHex"; bstr "Alphabetic"; bstr "Alpha"; bstr "Any";
    bstr "Assigned"; bstr "Bidi_Control"; bstr "Bidi_C"; bstr "Bidi_Mirrored"; bstr "Bidi_M";
    bstr "Case_Ignorable"; bstr "CI"; bstr "Cased"; bstr "Changes_When_Casefolded"; bstr "CWCF";
    bstr "Changes_When_Casemapped"; bstr "CWCM"; bstr "Changes_When_Lowercased"; bstr "CWL";
    bstr "Changes_When_NFKC_Casefolded"; bstr "CWKCF"; bstr "Changes_When_Titlecased"; bstr "CWT";
    bstr "Changes_When_Uppercased"; bstr "CWU"; bstr "Dash"; bstr "Default_Ignorable_Code_Point"; bstr "DI";
    bstr "Deprecated"; bstr "Dep"; bstr "Diacritic"; bstr "Dia"; bstr "Emoji"; bstr "Emoji_Component";
    bstr "EComp"; bstr "Emoji_Modifier"; bstr "EMod"; bstr "Emoji_Modifier_Base"; bstr "EBase";
    bstr "Emoji_Presentation"; bstr "EPres"; bstr "Extended_Pictographic"; bstr "ExtPict"; bstr "Extender";
    bstr "Ext"; bstr "Grapheme_Base"; bstr "Gr_Base"; bstr "Grapheme_Extend"; bstr "Gr_Ext";
    bstr "Hex_Digit"; bstr "Hex"; bstr "IDS_Binary_Operator"; bstr "IDSB"; bstr "IDS_Trinary_Operator";
    bstr "IDST"; bstr "ID_Continue"; bstr "IDC"; bstr "ID_Start"; bstr "IDS"; bstr "Ideographic";
    bstr "Ideo"; bstr "Join_Control"; bstr "Join_C"; bstr "Logical_Order_Exception"; bstr "LOE";
    bstr "Lowercase"; bstr "Lower"; bstr "Math"; bstr "Noncharacter_Code_Point"; bstr "NChar";
    bstr "Pattern_Syntax"; bstr "Pat_Syn"; bstr "Pattern_White_Space"; bstr "Pat_WS"; bstr "Quotation_Mark";
    bstr "QMark"; bstr "Radical"; bstr "Regional_Indicator"; bstr "RI"; bstr "Sentence_Terminal";
    bstr "STerm"; bstr "Soft_Dotted"; bstr "SD"; bstr "Terminal_Punctuation"; bstr "Term";
    bstr "Unified_Ideograph"; bstr "UIdeo"; bstr "Uppercase"; bstr "Upper"; bstr "Variation_Selector";
    bstr "VS"; bstr "White_Space"; bstr "space"; bstr "XID_Continue"; bstr "XIDC"; bstr "XID_Start";
    bstr "XIDS"].

Definition binary_unicode_properties_of_strings : list bytes := [
    bstr "Basic_Emoji"; bstr "Emoji_Keycap_Sequence"; bstr "RGI_Emoji_Modifier_Sequence";
    bstr "RGI_Emoji_Flag_Sequence"; bstr "RGI_Emoji_Tag_Sequence"; bstr "RGI_Emoji_ZWJ_Sequence";
    bstr "RGI_Emoji"].

Definition script_values : list bytes := [
    bstr "Adlm"; bstr "Adlam"; bstr "Aghb"; bstr "Caucasian_Albanian"; bstr "Ahom"; bstr "Arab";
    bstr "Arabic"; bstr "Armi"; bstr "Imperial_Aramaic"; bstr "Armn"; bstr "Armenian"; bstr "Avst";
    bstr "Avestan"; bstr "Bali"; bstr "Balinese"; bstr "Bamu"; bstr "Bamum"; bstr "Bass"; bstr "Bassa_Vah";
    bstr "Batk"; bstr "Batak"; bstr "Beng"; bstr "Bengali"; bstr "Bhks"; bstr "Bhaiksuki"; bstr "Bopo";
    bstr "Bopomofo"; bstr "Brah"; bstr "Brahmi"; bstr "Brai"; bstr "Braille"; bstr "Bugi"; bstr "Buginese";
    bstr "Buhd"; bstr "Buhid"; bstr "Cakm"; bstr "Chakma"; bstr "Cans"; bstr "Canadian_Aboriginal";
    bstr "Cari"; bstr "Carian"; bstr "Cham"; bstr "Cher"; bstr "Cherokee"; bstr "Chrs"; bstr "Chorasmian";
    bstr "Copt"; bstr "Coptic"; bstr "Qaac"; bstr "Cpmn"; bstr "Cypro_Minoan"; bstr "Cprt"; bstr "Cypriot";
    bstr "Cyrl"; bstr "Cyrillic"; bstr "Deva"; bstr "Devanagari"; bstr "Diak"; bstr "Dives_Akuru";
    bstr "Dogr"; bstr "Dogra"; bstr "Dsrt"; bstr "Deseret"; bstr "Dupl"; bstr "Duployan"; bstr "Egyp";
    bstr "Egyptian_Hieroglyphs"; bstr "Elba"; bstr "Elbasan"; bstr "Elym"; bstr "Elymaic"; bstr "Ethi";
    bstr "Ethiopic"; bstr "Geor"; bstr "Georgian"; bstr "Glag"; bstr "Glagolitic"; bstr "Gong";
    bstr "Gunjala_Gondi"; bstr "Gonm"; bstr "Masaram_Gondi"; bstr "Goth"; bstr "Gothic"; bstr "Gran";
    bstr "Grantha"; bstr "Grek"; bstr "Greek"; bstr "Gujr"; bstr "Gujarati"; bstr "Guru"; bstr "Gurmukhi";
    bstr "Hang"; bstr "Hangul"; bstr "Hani"; bstr "Han"; bstr "Hano"; bstr "Hanunoo"; bstr "Hatr";
    bstr "Hatran"; bstr "Hebr"; bstr "Hebrew"; bstr "Hira"; bstr "Hiragana"; bstr "Hluw";
    bstr "Anatolian_Hieroglyphs"; bstr "Hmng"; bstr "Pahawh_Hmong"; bstr "Hmnp";
    bstr "Nyiakeng_Puachue_Hmong"; bstr "Hrkt"; bstr "Katakana_Or_Hiragana"; bstr "Hung";
    bstr "Old_Hungarian"; bstr "Ital"; bstr "Old_Italic"; bstr "Java"; bstr "Javanese"; bstr "Kali";
    bstr "Kayah_Li"; bstr "Kana"; bstr "Katakana"; bstr "Kawi"; bstr "Khar"; bstr "Kharoshthi"; bstr "Khmr";
    bstr "Khmer"; bstr "Khoj"; bstr "Khojki"; bstr "Kits"; bstr "Khitan_Small_Script"; bstr "Knda";
    bstr "Kannada"; bstr "Kthi"; bstr "Kaithi"; bstr "Lana"; bstr "Tai_Tham"; bstr "Laoo"; bstr "Lao";
    bstr "Latn"; bstr "Latin"; bstr "Lepc"; bstr "Lepcha"; bstr "Limb"; bstr "Limbu"; bstr "Lina";
    bstr "Linear_A"; bstr "Linb"; bstr "Linear_B"; bstr "Lisu"; bstr "Lyci"; bstr "Lycian"; bstr "Lydi";
    bstr "Lydian"; bstr "Mahj"; bstr "Mahajani"; bstr "Maka"; bstr "Makasar"; bstr "Mand"; bstr "Mandaic";
    bstr "Mani"; bstr "Manichaean"; bstr "Marc"; bstr "Marchen"; bstr "Medf"; bstr "Medefaidrin";
    bstr "Mend"; bstr "Mende_Kikakui"; bstr "Merc"; bstr "Meroitic_Cursive"; bstr "Mero";
    bstr "Meroitic_Hieroglyphs"; bstr "Mlym"; bstr "Malayalam"; bstr "Modi"; bstr "Mong"; bstr "Mongolian";
    bstr "Mroo"; bstr "Mro"; bstr "Mtei"; bstr "Meetei_Mayek"; bstr "Mult"; bstr "Multani"; bstr "Mymr";
    bstr "Myanmar"; bstr "Nagm"; bstr "Nag_Mundari"; bstr "Nand"; bstr "Nandinagari"; bstr "Narb";
    bstr "Old_North_Arabian"; bstr "Nbat"; bstr "Nabataean"; bstr "Newa"; bstr "Nkoo"; bstr "Nko";
    bstr "Nshu"; bstr "Nushu"; bstr "Ogam"; bstr "Ogham"; bstr "Olck"; bstr "Ol_Chiki"; bstr "Orkh";
    bstr "Old_Turkic"; bstr "Orya"; bstr "Oriya"; bstr "Osge"; bstr "Osage"; bstr "Osma"; bstr "Osmanya";
    bstr "Ougr"; bstr "Old_Uyghur"; bstr "Palm"; bstr "Palmyrene"; bstr "Pauc"; bstr "Pau_Cin_Hau";
    bstr "Perm"; bstr "Old_Permic"; bstr "Phag"; bstr "Phags_Pa"; bstr "Phli"; bstr "Inscriptional_Pahlavi";
    bstr "Phlp"; bstr "Psalter_Pahlavi"; bstr "Phnx"; bstr "Phoenician"; bstr "Plrd"; bstr "Miao";
    bstr "Prti"; bstr "Inscriptional_Parthian"; bstr "Rjng"; bstr "Rejang"; bstr "Rohg";
    bstr "Hanifi_Rohingya"; bstr "Runr"; bstr "Runic"; bstr "Samr"; bstr "Samaritan"; bstr "Sarb";
    bstr "Old_South_Arabian"; bstr "Saur"; bstr "Saurashtra"; bstr "Sgnw"; bstr "SignWriting"; bstr "Shaw";
    bstr "Shavian"; bstr "Shrd"; bstr "Sharada"; bstr "Sidd"; bstr "Siddham"; bstr "Sind"; bstr "Khudawadi";
    bstr "Sinh"; bstr "Sinhala"; bstr "Sogd"; bstr "Sogdian"; bstr "Sogo"; bstr "Old_Sogdian"; bstr "Sora";
    bstr "Sora_Sompeng"; bstr "Soyo"; bstr "Soyombo"; bstr "Sund"; bstr "Sundanese"; bstr "Sylo";
    bstr "Syloti_Nagri"; bstr "Syrc"; bstr "Syriac"; bstr "Tagb"; bstr "Tagbanwa"; bstr "Takr"; bstr "Takri";
    bstr "Tale"; bstr "Tai_Le"; bstr "Talu"; bstr "New_Tai_Lue"; bstr "Taml"; bstr "Tamil"; bstr "Tang";
    bstr "Tangut"; bstr "Tavt"; bstr "Tai_Viet"; bstr "Telu"; bstr "Telugu"; bstr "Tfng"; bstr "Tifinagh";
    bstr "Tglg"; bstr "Tagalog"; bstr "Thaa"; bstr "Thaana"; bstr "Thai"; bstr "Tibt"; bstr "Tibetan";
    bstr "Tirh"; bstr "Tirhuta"; bstr "Tnsa"; bstr "Tangsa"; bstr "Toto"; bstr "Ugar"; bstr "Ugaritic";
    bstr "Vaii"; bstr "Vai"; bstr "Vith"; bstr "Vithkuqi"; bstr "Wara"; bstr "Warang_Citi"; bstr "Wcho";
    bstr "Wancho"; bstr "Xpeo"; bstr "Old_Persian"; bstr "Xsux"; bstr "Cuneiform"; bstr "Yezi";
    bstr "Yezidi"; bstr "Yiii"; bstr "Yi"; bstr "Zanb"; bstr "Zanabazar_Square"; bstr "Zinh";
    bstr "Inherited"; bstr "Qaai"; bstr "Zyyy"; bstr "Common"; bstr "Zzzz"; bstr "Unknown"].

Definition general_category_values : list bytes := [
    bstr "C"; bstr "Other"; bstr "Cc"; bstr "Control"; bstr "Cf"; bstr "Format"; bstr "Cn";
    bstr "Unassigned"; bstr "cntrl"; bstr "Co"; bstr "Private_Use"; bstr "Cs"; bstr "Surrogate"; bstr "L";
    bstr "Letter"; bstr "LC"; bstr "Cased_Letter"; bstr "Ll"; bstr "Lowercase_Letter"; bstr "Lm";
    bstr "Modifier_Letter"; bstr "Lo"; bstr "Other_Letter"; bstr "Lt"; bstr "Titlecase_Letter"; bstr "Lu";
    bstr "Uppercase_Letter"; bstr "M"; bstr "Mark"; bstr "Combining_Mark"; bstr "Mc"; bstr "Spacing_Mark";
    bstr "Me"; bstr "Enclosing_Mark"; bstr "Mn"; bstr "Nonspacing_Mark"; bstr "N"; bstr "Number"; bstr "Nd";
    bstr "Decimal_Number"; bstr "digit"; bstr "Nl"; bstr "Letter_Number"; bstr "No"; bstr "Other_Number";
    bstr "P"; bstr "Punctuation"; bstr "punct"; bstr "Pc"; bstr "Connector_Punctuation"; bstr "Pd";
    bstr "Dash_Punctuation"; bstr "Pe"; bstr "Close_Punctuation"; bstr "Pf"; bstr "Final_Punctuation";
    bstr "Pi"; bstr "Initial_Punctuation"; bstr "Po"; bstr "Other_Punctuation"; bstr "Ps";
    bstr "Open_Punctuation"; bstr "S"; bstr "Symbol"; bstr "Sc"; bstr "Currency_Symbol"; bstr "Sk";
    bstr "Modifier_Symbol"; bstr "Sm"; bstr "Math_Symbol"; bstr "So"; bstr "Other_Symbol"; bstr "Z";
    bstr "Separator"; bstr "Zl"; bstr "Line_Separator"; bstr "Zp"; bstr "Paragraph_Separator"; bstr "Zs";
    bstr "Space_Separator"].

(** [values.get(property_name)] *)
Definition values_of_non_binary_unicode_properties (property_name : bytes) : option (list bytes) :=
  if bool_decide (property_name = bstr "General_Category") then Some general_category_values
  else if bool_decide (property_name = bstr "Script") then Some script_values
  else if bool_decide (property_name = bstr "Script_Extensions") then Some script_values
  else None.

(** [non_binary_unicode_properties().get(name)] *)
Definition non_binary_unicode_property (name : bytes) : option bytes :=
  snd <$> find (fun p => bool_decide (fst p = name)) non_binary_unicode_properties.
