(* ===== verification/RegExp.v ===== *)
(** * RegExp: the parser of regular expression literals (ts-scanner/src/regexp.rs)

    [RegExpParser] borrows the scanner, so its state holds it. The parser only reports errors; it reads the
    text by bytes like the scanner ([char_] is a byte as a character), from the start of the body to
    [rend], the field [end]. Loops run with [loop_fuel] iterations and groups and classes nest at most
    as deep as the text is long. *)
From stdpp Require Import gmap.
From S2P Require Import Prelude Text Chars SyntaxKind Monad Numerals Keywords Trivia.
From S2P Require Import ScannerState ScannerOps UnicodeProps.

(** The suggestion [get_spelling_suggestion_for_strings] makes for a name, the empty string for none. *)
Class SpellingSuggestions := {
  get_spelling_suggestion_for_strings : bytes -> list bytes -> bytes;
}.

(** ** Flags *)
Inductive RegularExpressionFlags : Type :=
  | HasIndices | Global | IgnoreCase | Multiline | DotAll | Unicode | UnicodeSets | Sticky.

Definition flag_value (f : RegularExpressionFlags) : Z :=
  match f with
  | HasIndices => Z.shiftl 1 0
  | Global => Z.shiftl 1 1
  | IgnoreCase => Z.shiftl 1 2
  | Multiline => Z.shiftl 1 3
  | DotAll => Z.shiftl 1 4
  | Unicode => Z.shiftl 1 5
  | UnicodeSets => Z.shiftl 1 6
  | Sticky => Z.shiftl 1 7
  end.

Definition REGULAR_EXPRESSION_FLAGS_ANY_UNICODE_MODE : Z := Z.lor (flag_value Unicode) (flag_value UnicodeSets).
Definition REGULAR_EXPRESSION_FLAGS_MODIFIERS : Z :=
  Z.lor (flag_value IgnoreCase) (Z.lor (flag_value Multiline) (flag_value DotAll)).

Definition char_code_to_reg_exp_flag (ch : char) : option RegularExpressionFlags :=
  if ch =? chr "d" then Some HasIndices
  else if ch =? chr "g" then Some Global
  else if ch =? chr "i" then Some IgnoreCase
  else if ch =? chr "m" then Some Multiline
  else if ch =? chr "s" then Some DotAll
  else if ch =? chr "u" then Some Unicode
  else if ch =? chr "v" then Some UnicodeSets
  else if ch =? chr "y" then Some Sticky
  else None.

(** The targets [ES2018], [ES2022] and [ES2024] with their names in lower case. *)
Definition ES2018 : Z := 5.
Definition reg_exp_flag_first_available_language_version (f : RegularExpressionFlags) : option (Z * bytes) :=
  match f with
  | HasIndices => Some (9, bstr "es2022")
  | DotAll => Some (ES2018, bstr "es2018")
  | UnicodeSets => Some (11, bstr "es2024")
  | _ => None
  end.

Definition check_regular_expression_flag_availability (f : RegularExpressionFlags) (p size : nat) : MS unit :=
  s ← get;
  match reg_exp_flag_first_available_language_version f with
  | Some (available_from, name) =>
      when (language_version s <? available_from)
        (error_at This_regular_expression_flag_is_only_available_when_targeting_0_or_later p size [name])
  | None => mret tt
  end.

(** ** Characters of classes (utilities.rs) *)
Definition SURR_SELF : Z := 65536.
Definition SURR1 : Z := 55296.
Definition SURR2 : Z := 56320.

Definition encode_surrogate (r : Z) : bytes :=
  [237; Z.lor 128 (Z.land (Z.shiftr r 6) 63); Z.lor 128 (Z.land r 63)].

(** The first character of the longest valid prefix of some bytes, as [from_utf8] finds it. *)
Definition decode_valid (s : bytes) : option (char * nat) :=
  match next_char s with
  | Some (ch, size) => if is_scalar ch && bool_decide (take size s = utf8_encode ch) then Some (ch, size) else None
  | None => None
  end.

(** A character of a class with its size; [U+FFFD] stands for what is none. *)
Definition decode_class_atom_rune (s : bytes) : Z * nat :=
  match s with
  | [] => (65533, 0%nat)
  | b0 :: r =>
      match r with
      | b1 :: b2 :: _ =>
          if (b0 =? 237) && ((160 <=? b1) && (b1 <=? 191)) && ((128 <=? b2) && (b2 <=? 191))
          then (Z.lor 53248 (Z.lor (Z.shiftl (Z.land b1 63) 6) (Z.land b2 63)), 3%nat)
          else default (65533, 1%nat) (decode_valid s)
      | _ => default (65533, 1%nat) (decode_valid s)
      end
  end.

(** [compare_decimal_strings] *)
Fixpoint compare_bytes (a b : bytes) : Z :=
  match a, b with
  | [], [] => 0
  | [], _ :: _ => -1
  | _ :: _, [] => 1
  | x :: a, y :: b => if x <? y then -1 else if y <? x then 1 else compare_bytes a b
  end.
Fixpoint trim_zeros (s : bytes) : bytes :=
  match s with b :: r => if b =? chr "0" then trim_zeros r else s | [] => [] end.
Definition compare_decimal_strings (a b : bytes) : Z :=
  let a := match trim_zeros a with [] => bstr "0" | a => a end in
  let b := match trim_zeros b with [] => bstr "0" | b => b end in
  if (length a =? length b)%nat then compare_bytes a b
  else if (length a <? length b)%nat then -1 else 1.

(** ** The parser *)
Module RegExp.

Inductive ClassSetExpressionType : Type := ClassUnknown | ClassUnion | ClassIntersection | ClassSubtraction.
#[global] Instance ClassSetExpressionType_eq_dec : EqDecision ClassSetExpressionType.
Proof. solve_decision. Defined.

Record GroupNameReference := mkReference { ref_pos : nat; ref_end : nat; ref_name : bytes }.
Record DecimalEscapeValue := mkDecimal { esc_pos : nat; esc_end : nat; esc_value : Z }.

Record RegExpParser := mkParser {
  scanner : Scanner;
  rend : nat;
  reg_exp_flags : Z;
  any_unicode_mode : bool;
  unicode_sets_mode : bool;
  annex_b : bool;
  any_unicode_mode_or_non_annex_b : bool;
  named_capture_groups : bool;
  may_contain_strings : bool;
  number_of_capturing_groups : nat;
  group_specifiers : list bytes;
  group_name_references : list GroupNameReference;
  decimal_escapes : list DecimalEscapeValue;
  named_capturing_groups : list (list bytes);
  pending_low_surrogate : option Z;
}.

(** The record updates of the fields that are assigned. *)
Definition set_scanner (x : Scanner) (p : RegExpParser) : RegExpParser :=
  mkParser x (rend p) (reg_exp_flags p) (any_unicode_mode p) (unicode_sets_mode p) (annex_b p)
    (any_unicode_mode_or_non_annex_b p) (named_capture_groups p) (may_contain_strings p) (number_of_capturing_groups p)
    (group_specifiers p) (group_name_references p) (decimal_escapes p) (named_capturing_groups p)
    (pending_low_surrogate p).
Definition set_non_annex_b (x : bool) (p : RegExpParser) : RegExpParser :=
  mkParser (scanner p) (rend p) (reg_exp_flags p) (any_unicode_mode p) (unicode_sets_mode p) (annex_b p) x
    (named_capture_groups p) (may_contain_strings p) (number_of_capturing_groups p) (group_specifiers p)
    (group_name_references p) (decimal_escapes p) (named_capturing_groups p) (pending_low_surrogate p).
Definition set_may_contain_strings (x : bool) (p : RegExpParser) : RegExpParser :=
  mkParser (scanner p) (rend p) (reg_exp_flags p) (any_unicode_mode p) (unicode_sets_mode p) (annex_b p)
    (any_unicode_mode_or_non_annex_b p) (named_capture_groups p) x (number_of_capturing_groups p) (group_specifiers p)
    (group_name_references p) (decimal_escapes p) (named_capturing_groups p) (pending_low_surrogate p).
(** The groups: their number, their names, the references to names and numbers, the names in scope. *)
Definition set_groups (n : nat) (specifiers : list bytes) (references : list GroupNameReference)
    (escapes : list DecimalEscapeValue) (scopes : list (list bytes)) (p : RegExpParser) : RegExpParser :=
  mkParser (scanner p) (rend p) (reg_exp_flags p) (any_unicode_mode p) (unicode_sets_mode p) (annex_b p)
    (any_unicode_mode_or_non_annex_b p) (named_capture_groups p) (may_contain_strings p) n specifiers references
    escapes scopes (pending_low_surrogate p).
Definition set_pending (x : option Z) (p : RegExpParser) : RegExpParser :=
  mkParser (scanner p) (rend p) (reg_exp_flags p) (any_unicode_mode p) (unicode_sets_mode p) (annex_b p)
    (any_unicode_mode_or_non_annex_b p) (named_capture_groups p) (may_contain_strings p) (number_of_capturing_groups p)
    (group_specifiers p) (group_name_references p) (decimal_escapes p) (named_capturing_groups p) x.

Abbreviation MR := (M RegExpParser).

(** A method of the scanner. *)
Definition on_scanner {A} (m : MS A) : MR A := fun p =>
  match m (scanner p) with
  | Ok (a, s) => Ok (a, set_scanner s p)
  | Panic => Panic
  | OutOfFuel => OutOfFuel
  end.

Definition pos_ : MR nat := gets (fun p => pos (scanner p)).
Definition set_pos_ (value : nat) : MR unit := on_scanner (modify (set_pos value)).
(** [saturating_add_signed] *)
Definition inc_pos (n : Z) : MR unit :=
  on_scanner (modify (fun s => set_pos (Z.to_nat (Z.of_nat (pos s) + n)) s)).
Definition char : MR char := on_scanner char_.
Definition char_at (position : nat) : MR Prelude.char :=
  p ← pos_;
  if (position <? p)%nat then panic else on_scanner (ScannerState.char_at (position - p)).
Definition error_with_args (m : Message) (start length : nat) (args : list bytes) : MR unit :=
  on_scanner (error_at m start length args).
Definition error (m : Message) (start length : nat) : MR unit := error_with_args m start length [].

(** [&self.text()[i..j]] and [&self.text().as_bytes()[i..j]] *)
Definition text_range (i j : nat) : MR bytes := on_scanner (text_slice i j).
Definition byte_range (i j : nat) : MR bytes :=
  t ← gets (fun p => text (scanner p));
  if (i <=? j)%nat && (j <=? length t)%nat then mret (take (j - i) (drop i t)) else panic.

(** [loop { .. }] with its local variables; a character can take two iterations. *)
Definition loop_fuel (p : RegExpParser) : nat := (2 * length (text (scanner p)) + 2)%nat.
Definition loop {L A} (body : L -> MR (L + A)) (l : L) : MR A := p ← get; iter (loop_fuel p) body l.

Definition before_end : MR bool := gets (fun p => (pos (scanner p) <? rend p)%nat).

(** [while self.pos() < self.end { body }] *)
Definition while_before_end {L} (body : L -> MR (L + L)) (l : L) : MR L :=
  loop (fun l => b ← before_end; if (b : bool) then body l else mret (inr l)) l.

(** ** Pieces *)
Definition scan_expected_char (ch : Prelude.char) : MR unit :=
  c ← char;
  if c =? ch then inc_pos (Z.of_nat (len_utf8 ch))
  else p ← pos_; error_with_args X_0_expected p 0 [utf8_encode ch].

Definition scan_digits : MR unit :=
  start ← pos_;
  while_before_end (fun _ =>
    ch ← char;
    if is_ascii_digit ch then inc_pos 1 ;; mret (inl tt) else mret (inr tt)) tt ;;
  p ← pos_;
  on_scanner (set_token_value_from_range start p).

Definition scan_word_characters : MR bytes :=
  start ← pos_;
  while_before_end (fun _ =>
    ch ← char;
    if is_word_character ch then inc_pos (Z.of_nat (len_utf8 ch)) ;; mret (inl tt) else mret (inr tt)) tt ;;
  p ← pos_;
  text_range start p.

Definition named_capturing_groups_contains (p : RegExpParser) (name : bytes) : bool :=
  existsb (fun group => bool_decide (name ∈ group)) (named_capturing_groups p).

(** [HashMap::insert] of a name; the hash map yields its keys in an order of its own. *)
Definition insert_name (name : bytes) (names : list bytes) : list bytes :=
  if bool_decide (name ∈ names) then names else names ++ [name].

(** The name goes into the last scope. *)
Definition add_name (name : bytes) (scopes : list (list bytes)) : list (list bytes) :=
  match last scopes with
  | Some scope => take (length scopes - 1) scopes ++ [insert_name name scope]
  | None => scopes
  end.

Definition scan_group_name (is_reference : bool) : MR unit :=
  start ← pos_;
  on_scanner (modify (set_token_start start)) ;;
  t ← gets (fun p => text (scanner p));
  rest ← unwrap (slice_from t start);
  match next_char rest with
  | None => error Expected_a_capturing_group_name start 0
  | Some (first, size) =>
      if negb (is_identifier_start first) then error Expected_a_capturing_group_name start 0
      else
        inc_pos (Z.of_nat size) ;;
        while_before_end (fun _ =>
          ch ← char;
          if is_identifier_part ch then inc_pos (Z.of_nat (len_utf8 ch)) ;; mret (inl tt) else mret (inr tt)) tt ;;
        p ← pos_;
        name ← text_range start p;
        on_scanner (set_token_value name) ;;
        if is_reference then
          modify (fun q => set_groups (number_of_capturing_groups q) (group_specifiers q)
            (group_name_references q ++ [mkReference start p name]) (decimal_escapes q) (named_capturing_groups q) q)
        else
          q ← get;
          if named_capturing_groups_contains q name then
            error Named_capturing_groups_with_the_same_name_must_be_mutually_exclusive_to_each_other start (p - start)
          else
            modify (fun q => set_groups (number_of_capturing_groups q) (insert_name name (group_specifiers q))
              (group_name_references q) (decimal_escapes q) (add_name name (named_capturing_groups q)) q)
  end.

Definition decode_rune_at_pos : MR (option (Prelude.char * nat)) :=
  q ← get;
  let s := scanner q in
  if (rend q <=? pos s)%nat then mret None
  else if (length (text s) <? pos s)%nat then panic
  else
    mret (match drop (pos s) (text s) with
          | [] => None
          | rest => Some (default (65533, 1%nat) (decode_valid rest))
          end).

(** A character that is not written with a backslash; outside unicode mode one of two code units is read
    as two characters, and the first leaves the position where it is. *)
Definition scan_source_character : MR bytes :=
  b ← before_end;
  if negb (b : bool) then mret []
  else
    q ← get;
    if negb (any_unicode_mode q) then
      match pending_low_surrogate q with
      | Some low =>
          modify (set_pending None) ;;
          r ← decode_rune_at_pos;
          inc_pos (Z.of_nat (match r with Some (_, size) => size | None => 1 end)) ;;
          mret (encode_surrogate low)
      | None =>
          r ← decode_rune_at_pos;
          match r with
          | None => mret []
          | Some (code, size) =>
              if SURR_SELF <=? code then
                let high := SURR1 + Z.shiftr (code - SURR_SELF) 10 in
                let low := SURR2 + Z.land (code - SURR_SELF) 1023 in
                modify (set_pending (Some low)) ;; mret (encode_surrogate high)
              else inc_pos (Z.of_nat size) ;; mret (utf8_encode code)
          end
      end
    else
      r ← decode_rune_at_pos;
      match r with
      | Some (ch, size) => inc_pos (Z.of_nat size) ;; mret (utf8_encode ch)
      | None => mret []
      end.

(** ** Escapes *)

(** [saturating_sub(n)] of the position. *)
Definition pos_minus (n : nat) : MR nat := p ← pos_; mret (p - n)%nat.

Definition escape_flags (q : RegExpParser) (atom_escape : bool) : Z :=
  Z.lor ESC_REGULAR_EXPRESSION
    (Z.lor (if annex_b q then ESC_ANNEX_B else 0)
      (Z.lor (if any_unicode_mode q then ESC_ANY_UNICODE_MODE else 0) (if atom_escape then ESC_ATOM_ESCAPE else 0))).

Definition is_syntax_character (ch : Prelude.char) : bool :=
  existsb (Z.eqb ch) (bstr "^$/\.*+?()[]{}|").

Definition scan_character_escape (atom_escape : bool) : MR bytes :=
  q ← get;
  ch ← char;
  if ch =? 0 then p ← pos_minus 1; error Undetermined_character_escape p 1 ;; mret [92]
  else if ch =? chr "c" then
    inc_pos 1 ;;
    ch ← char;
    if is_ascii_alphabetic ch then inc_pos 1 ;; mret (utf8_encode (default 0 (char_from_u32 (Z.land ch 31))))
    else if any_unicode_mode_or_non_annex_b q then
      p ← pos_minus 2; error X_c_must_be_followed_by_an_ASCII_letter p 2 ;; mret (utf8_encode ch)
    else if atom_escape then inc_pos (-1) ;; mret [92]
    else mret (utf8_encode ch)
  else if is_syntax_character ch then inc_pos 1 ;; mret (utf8_encode ch)
  else
    inc_pos (-1) ;;
    on_scanner (scan_escape_sequence (escape_flags q atom_escape)).

Definition scan_character_escape_bytes (atom_escape : bool) : MR bytes :=
  q ← get;
  ch ← char;
  if (ch =? chr "u") && negb (any_unicode_mode q) then
    start ← pos_minus 1;
    p ← pos_;
    brace ← (if (p + 1 <? rend q)%nat then c ← char_at (p + 1); mret (c =? chr "{") else mret false);
    if (brace : bool) then scan_character_escape atom_escape
    else
      set_pos_ start ;;
      code_point ← on_scanner (scan_unicode_escape true);
      let raw := p ← pos_; byte_range start p in
      match code_point with
      | Some code_point =>
          if code_point_is_high_surrogate code_point || code_point_is_low_surrogate code_point
          then mret (encode_surrogate code_point)
          else match char_from_u32 code_point with Some ch => mret (utf8_encode ch) | None => raw end
      | None => raw
      end
  else scan_character_escape atom_escape.

Definition scan_decimal_escape : MR bool :=
  ch ← char;
  if (49 <=? ch) && (ch <=? 57) then
    start ← pos_;
    scan_digits ;;
    v ← on_scanner token_value;
    p ← pos_;
    let value := default (2 ^ 64 - 1) (from_str_radix 10 (2 ^ 64 - 1) v) in
    modify (fun q => set_groups (number_of_capturing_groups q) (group_specifiers q) (group_name_references q)
      (decimal_escapes q ++ [mkDecimal start p value]) (named_capturing_groups q) q) ;;
    mret true
  else mret false.

Section suggestions.
Context `{SpellingSuggestions}.

Definition get_spelling_suggestion_for_unicode_property_name (name : bytes) : bytes :=
  get_spelling_suggestion_for_strings name (fst <$> non_binary_unicode_properties).

Definition get_spelling_suggestion_for_unicode_property_value (property_name value : bytes) : bytes :=
  match values_of_non_binary_unicode_properties property_name with
  | Some values => get_spelling_suggestion_for_strings value values
  | None => []
  end.

Definition get_spelling_suggestion_for_unicode_property_name_or_value (name : bytes) : bytes :=
  get_spelling_suggestion_for_strings name
    (general_category_values ++ binary_unicode_properties ++ binary_unicode_properties_of_strings).

Definition suggest (suggestion : bytes) (start length : nat) : MR unit :=
  match suggestion with [] => mret tt | _ => error_with_args Did_you_mean_0 start length [suggestion] end.

(** The value after [=] in a property escape. *)
Definition scan_property_value (property_name : bytes) : MR unit :=
  start ← pos_;
  value ← scan_word_characters;
  p ← pos_;
  if (p =? start)%nat then error Expected_a_Unicode_property_value p 0
  else if bool_decide (property_name = []) then mret tt
  else
    match values_of_non_binary_unicode_properties property_name with
    | Some values =>
        when (negb (contains values value))
          (error Unknown_Unicode_property_value start (p - start) ;;
           suggest (get_spelling_suggestion_for_unicode_property_value property_name value) start (p - start))
    | None => mret tt
    end.

(** The name before [=]. *)
Definition check_property_name (name : bytes) (start : nat) : MR bytes :=
  let property_name := default [] (non_binary_unicode_property name) in
  p ← pos_;
  (if (p =? start)%nat then error Expected_a_Unicode_property_name p 0
   else when (bool_decide (property_name = []))
     (error Unknown_Unicode_property_name start (p - start) ;;
      suggest (get_spelling_suggestion_for_unicode_property_name name) start (p - start))) ;;
  mret property_name.

(** A property escape without [=]. *)
Definition check_property_name_or_value (name : bytes) (start : nat) (is_character_complement : bool) : MR unit :=
  q ← get;
  p ← pos_;
  if (p =? start)%nat then error Expected_a_Unicode_property_name_or_value p 0
  else if contains binary_unicode_properties_of_strings name then
    if negb (unicode_sets_mode q) then
      error Any_Unicode_property_that_would_possibly_match_more_than_a_single_character_is_only_available_when_the_Unicode_Sets_v_flag_is_set
        start (p - start)
    else if is_character_complement then
      error Anything_that_would_possibly_match_more_than_a_single_character_is_invalid_inside_a_negated_character_class
        start (p - start)
    else modify (set_may_contain_strings true)
  else
    when (negb (contains general_category_values name) && negb (contains binary_unicode_properties name))
      (error Unknown_Unicode_property_name_or_value start (p - start) ;;
       suggest (get_spelling_suggestion_for_unicode_property_name_or_value name) start (p - start)).

Definition is_class_escape (ch : Prelude.char) : bool := existsb (Z.eqb ch) (bstr "dDsSwW").

Definition scan_character_class_escape : MR bool :=
  q ← get;
  start ← pos_minus 1;
  ch ← char;
  if is_class_escape ch then inc_pos 1 ;; mret true
  else if (ch =? chr "P") || (ch =? chr "p") then
    inc_pos 1 ;;
    c ← char;
    if c =? chr "{" then
      inc_pos 1 ;;
      name_start ← pos_;
      name ← scan_word_characters;
      c ← char;
      (if c =? chr "=" then
         property_name ← check_property_name name name_start;
         inc_pos 1 ;;
         scan_property_value property_name
       else check_property_name_or_value name name_start (ch =? chr "P")) ;;
      scan_expected_char (chr "}") ;;
      p ← pos_;
      when (negb (any_unicode_mode q))
        (error Unicode_property_value_expressions_are_only_available_when_the_Unicode_u_flag_or_the_Unicode_Sets_v_flag_is_set
           start (p - start)) ;;
      mret true
    else if any_unicode_mode_or_non_annex_b q then
      p ← pos_minus 2;
      error_with_args X_0_must_be_followed_by_a_Unicode_property_value_expression_enclosed_in_braces p 2 [utf8_encode ch] ;;
      mret true
    else inc_pos (-1) ;; mret false
  else mret false.

Definition scan_atom_escape : MR unit :=
  q ← get;
  ch ← char;
  if ch =? chr "k" then
    inc_pos 1 ;;
    c ← char;
    if c =? chr "<" then inc_pos 1 ;; scan_group_name true ;; scan_expected_char (chr ">")
    else
      when (any_unicode_mode_or_non_annex_b q || named_capture_groups q)
        (p ← pos_minus 2;
         error X_k_must_be_followed_by_a_capturing_group_name_enclosed_in_angle_brackets p 2)
  else if (ch =? chr "q") && unicode_sets_mode q then
    inc_pos 1 ;; p ← pos_minus 2; error X_q_is_only_available_inside_character_class p 2
  else
    class_escape ← scan_character_class_escape;
    if (class_escape : bool) then mret tt
    else
      decimal ← scan_decimal_escape;
      if (decimal : bool) then mret tt else scan_character_escape true ;; mret tt.

(** ** Classes *)
Definition is_class_content_exit (ch : Prelude.char) : MR bool :=
  b ← before_end; mret ((ch =? chr "]") || negb b).

Definition scan_class_atom : MR bytes :=
  ch ← char;
  if ch =? 92 then
    inc_pos 1 ;;
    c ← char;
    if c =? chr "b" then inc_pos 1 ;; mret [8]
    else if c =? chr "-" then inc_pos 1 ;; mret (utf8_encode c)
    else
      class_escape ← scan_character_class_escape;
      if (class_escape : bool) then mret [] else scan_character_escape_bytes false
  else scan_source_character.

(** Whether the bounds of a range are single characters in the wrong order. *)
Definition out_of_order (min max : bytes) : bool :=
  let '(min_value, min_size) := decode_class_atom_rune min in
  let '(max_value, max_size) := decode_class_atom_rune max in
  (length min =? min_size)%nat && (length max =? max_size)%nat && (max_value <? min_value).

Definition scan_class_range (_ : unit) : MR (unit + unit) :=
  q ← get;
  ch ← char;
  exit ← is_class_content_exit ch;
  if (exit : bool) then mret (inr tt)
  else
    min_start ← pos_;
    min ← scan_class_atom;
    c ← char;
    if negb (c =? chr "-") then mret (inl tt)
    else
      inc_pos 1 ;;
      ch ← char;
      exit ← is_class_content_exit ch;
      if (exit : bool) then mret (inr tt)
      else
        p ← pos_;
        when (bool_decide (min = []) && any_unicode_mode_or_non_annex_b q)
          (error A_character_class_range_must_not_be_bounded_by_another_character_class min_start (p - (1 + min_start))) ;;
        max ← scan_class_atom;
        p2 ← pos_;
        if bool_decide (max = []) && any_unicode_mode_or_non_annex_b q then
          error A_character_class_range_must_not_be_bounded_by_another_character_class p (p2 - p) ;; mret (inl tt)
        else if bool_decide (min = []) then mret (inl tt)
        else
          when (out_of_order min max) (error Range_out_of_order_in_character_class min_start (p2 - min_start)) ;;
          mret (inl tt).

Definition scan_class_ranges : MR unit :=
  modify (set_pending None) ;;
  ch ← char;
  when (ch =? chr "^") (inc_pos 1) ;;
  while_before_end scan_class_range tt.

(** *** Classes of the unicode sets mode *)
Definition unexpected (ch : Prelude.char) (start : nat) : MR unit :=
  error_with_args Unexpected_0_Did_you_mean_to_escape_it_with_backslash start 1 [utf8_encode ch].
Definition mixed_operators (start length : nat) : MR unit :=
  error Operators_must_not_be_mixed_within_a_character_class_Wrap_it_in_a_nested_class_instead start length.
Definition negated_strings (start : nat) : MR unit :=
  p ← pos_;
  error Anything_that_would_possibly_match_more_than_a_single_character_is_invalid_inside_a_negated_character_class
    start (p - start).
Definition bounded_by_class (start length : nat) : MR unit :=
  error A_character_class_range_must_not_be_bounded_by_another_character_class start length.

Definition two_chars_at_pos : MR (option (byte * byte)) :=
  q ← get;
  let s := scanner q in
  if (pos s + 1 <? rend q)%nat then
    b0 ← unwrap (text s !! pos s);
    b1 ← unwrap (text s !! (pos s + 1)%nat);
    mret (Some (b0, b1))
  else mret None.
Definition is_operator (two : option (byte * byte)) : bool :=
  match two with
  | Some (b0, b1) => ((b0 =? chr "-") && (b1 =? chr "-")) || ((b0 =? chr "&") && (b1 =? chr "&"))
  | None => false
  end.

Definition scan_class_set_source_character (ch : Prelude.char) : MR bytes :=
  if existsb (Z.eqb ch) (bstr "/()[]{}-|") then
    p ← pos_; unexpected ch p ;; inc_pos 1 ;; mret (utf8_encode ch)
  else scan_source_character.

(** [self.pos() + 1 < self.end && ch == self.char_at(self.pos() + 1)] *)
Definition next_is (ch : Prelude.char) : MR bool :=
  q ← get;
  p ← pos_;
  if (p + 1 <? rend q)%nat then c ← char_at (p + 1); mret (c =? ch) else mret false.

Definition scan_class_set_character : MR bytes :=
  ch ← char;
  if ch =? 92 then
    inc_pos 1 ;;
    inner_ch ← char;
    if inner_ch =? chr "b" then inc_pos 1 ;; mret [8]
    else if existsb (Z.eqb inner_ch) (bstr "&-!#%,:;<=>@`~") then inc_pos 1 ;; mret (utf8_encode inner_ch)
    else scan_character_escape_bytes false
  else
    double ← next_is ch;
    if double && existsb (Z.eqb ch) (bstr "&!#%*+,.:;<=>?@`~") then
      p ← pos_;
      error A_character_class_must_not_contain_a_reserved_double_punctuator_Did_you_mean_to_escape_it_with_backslash p 2 ;;
      inc_pos 2 ;;
      p ← pos_;
      byte_range (p - 2) p
    else scan_class_set_source_character ch.

Definition scan_class_string_disjunction_contents : MR unit :=
  while_before_end (fun character_count =>
    ch ← char;
    if ch =? chr "}" then
      when (negb (character_count =? 1)%nat) (modify (set_may_contain_strings true)) ;; mret (inr character_count)
    else if ch =? chr "|" then
      when (negb (character_count =? 1)%nat) (modify (set_may_contain_strings true)) ;;
      inc_pos 1 ;; mret (inl 0%nat)
    else scan_class_set_character ;; mret (inl (S character_count))) 0%nat ;;
  mret tt.

Section class_set.
(** [scan_class_set_operand], which the loops of an expression call. *)
Context (scan_class_set_operand : MR bytes).

(** [--] or [&&] between operands, or one of their characters alone. *)
Definition scan_class_set_operator (expression_type : ClassSetExpressionType) (ch : Prelude.char) : MR unit :=
  if ch =? chr "-" then
    inc_pos 1 ;;
    c ← char;
    if c =? chr "-" then
      inc_pos 1 ;;
      p ← pos_minus 2;
      when (negb (bool_decide (expression_type = ClassSubtraction))) (mixed_operators p 2)
    else p ← pos_minus 1; mixed_operators p 1
  else if ch =? chr "&" then
    inc_pos 1 ;;
    c ← char;
    if c =? chr "&" then
      inc_pos 1 ;;
      p ← pos_minus 2;
      when (negb (bool_decide (expression_type = ClassIntersection))) (mixed_operators p 2) ;;
      c ← char;
      when (c =? chr "&") (p ← pos_; unexpected ch p ;; inc_pos 1)
    else p ← pos_minus 1; unexpected ch p
  else
    p ← pos_;
    match expression_type with
    | ClassSubtraction => error_with_args X_0_expected p 0 [bstr "--"]
    | ClassIntersection => error_with_args X_0_expected p 0 [bstr "&&"]
    | _ => mret tt
    end.

Definition scan_class_set_sub_expression (expression_type : ClassSetExpressionType) : MR unit :=
  expression_may_contain_strings ← gets may_contain_strings;
  expression_may_contain_strings ← while_before_end (fun strings =>
    ch ← char;
    exit ← is_class_content_exit ch;
    if (exit : bool) then mret (inr strings)
    else
      scan_class_set_operator expression_type ch ;;
      ch ← char;
      exit ← is_class_content_exit ch;
      if (exit : bool) then p ← pos_; error Expected_a_class_set_operand p 0 ;; mret (inr strings)
      else
        scan_class_set_operand ;;
        operand_strings ← gets may_contain_strings;
        mret (inl (if bool_decide (expression_type = ClassIntersection) then strings && operand_strings else strings)))
    expression_may_contain_strings;
  modify (set_may_contain_strings expression_may_contain_strings).

(** Local variables of the loop over the operands of a union. *)
Record operands := mkOperands { op_start : nat; op_operand : bytes; op_strings : bool }.

(** The operand at the position, or a doubled operator in its place. *)
Definition next_operand (l : operands) : MR (operands + operands) :=
  c ← char;
  exit ← is_class_content_exit c;
  if (exit : bool) then mret (inr l)
  else
    start ← pos_;
    two ← two_chars_at_pos;
    if is_operator two then
      mixed_operators start 2 ;;
      inc_pos 2 ;;
      p ← pos_;
      operand ← byte_range start p;
      mret (inl (mkOperands start operand (op_strings l)))
    else operand ← scan_class_set_operand; mret (inl (mkOperands start operand (op_strings l))).

(** A range whose minimum is the operand before the [-]. *)
Definition scan_class_set_range (is_character_complement : bool) (l : operands) : MR operands :=
  p ← pos_;
  when (bool_decide (op_operand l = [])) (bounded_by_class (op_start l) (p - (1 + op_start l))) ;;
  second ← scan_class_set_operand;
  strings ← gets may_contain_strings;
  when (is_character_complement && strings) (negated_strings p) ;;
  p2 ← pos_;
  (if bool_decide (second = []) then bounded_by_class p (p2 - p)
   else when (negb (bool_decide (op_operand l = [])) && out_of_order (op_operand l) second)
     (error Range_out_of_order_in_character_class (op_start l) (p2 - op_start l))) ;;
  mret (mkOperands (op_start l) (op_operand l) (op_strings l || strings)).

Definition scan_class_union_step (is_character_complement : bool) (l : operands) : MR (operands + operands) :=
  ch ← char;
  if ch =? chr "-" then
    inc_pos 1 ;;
    c ← char;
    exit ← is_class_content_exit c;
    if (exit : bool) then mret (inr l)
    else if c =? chr "-" then
      inc_pos 1 ;;
      start ← pos_minus 2;
      mixed_operators start 2 ;;
      p ← pos_;
      operand ← byte_range start p;
      mret (inl (mkOperands start operand (op_strings l)))
    else l ← scan_class_set_range is_character_complement l; next_operand l
  else if ch =? chr "&" then
    start ← pos_;
    inc_pos 1 ;;
    c ← char;
    (if c =? chr "&" then
       inc_pos 1 ;;
       p ← pos_minus 2;
       mixed_operators p 2 ;;
       c ← char;
       when (c =? chr "&") (p ← pos_; unexpected ch p ;; inc_pos 1)
     else p ← pos_minus 1; unexpected ch p) ;;
    p ← pos_;
    operand ← byte_range start p;
    mret (inl (mkOperands start operand (op_strings l)))
  else next_operand l.

Definition finish_class (is_character_complement strings : bool) : MR unit :=
  modify (set_may_contain_strings (negb is_character_complement && strings)).

Definition scan_class_set_expression : MR unit :=
  c ← char;
  let is_character_complement := c =? chr "^" in
  when is_character_complement (inc_pos 1) ;;
  ch ← char;
  exit ← is_class_content_exit ch;
  if (exit : bool) then mret tt
  else
    start ← pos_;
    two ← two_chars_at_pos;
    operand ← (if is_operator two then
                 error Expected_a_class_set_operand start 0 ;; modify (set_may_contain_strings false) ;; mret []
               else scan_class_set_operand);
    c ← char;
    double ← next_is c;
    strings ← gets may_contain_strings;
    if (c =? chr "-") && double then
      when (is_character_complement && strings) (negated_strings start) ;;
      scan_class_set_sub_expression ClassSubtraction ;;
      finish_class is_character_complement strings
    else if (c =? chr "&") && double then
      scan_class_set_sub_expression ClassIntersection ;;
      strings ← gets may_contain_strings;
      when (is_character_complement && strings) (negated_strings start) ;;
      finish_class is_character_complement strings
    else
      strings ← (if c =? chr "&" then p ← pos_; unexpected ch p ;; mret false
                 else when (is_character_complement && strings) (negated_strings start) ;; mret strings);
      l ← while_before_end (scan_class_union_step is_character_complement) (mkOperands start operand strings);
      finish_class is_character_complement (op_strings l).
End class_set.

(** Classes nest [fuel] deep. *)
Fixpoint scan_class_set_operand (fuel : nat) : MR bytes :=
  match fuel with
  | O => fun _ => OutOfFuel
  | S fuel =>
      modify (set_may_contain_strings false) ;;
      ch ← char;
      if ch =? chr "[" then
        inc_pos 1 ;;
        scan_class_set_expression (scan_class_set_operand fuel) ;;
        scan_expected_char (chr "]") ;;
        mret []
      else if ch =? 92 then
        inc_pos 1 ;;
        class_escape ← scan_character_class_escape;
        if (class_escape : bool) then mret []
        else
          c ← char;
          if c =? chr "q" then
            inc_pos 1 ;;
            c ← char;
            if c =? chr "{" then
              inc_pos 1 ;;
              scan_class_string_disjunction_contents ;;
              scan_expected_char (chr "}") ;;
              mret []
            else
              p ← pos_minus 2;
              error X_q_must_be_followed_by_string_alternatives_enclosed_in_braces p 2 ;; mret (bstr "q")
          else inc_pos (-1) ;; scan_class_set_character
      else scan_class_set_character
  end.

(** ** Patterns *)
Definition modifier_flag (ch : Prelude.char) (p size : nat) (curr_flags : Z) : MR Z :=
  match char_code_to_reg_exp_flag ch with
  | Some flag =>
      if negb (Z.land curr_flags (flag_value flag) =? 0) then
        error Duplicate_regular_expression_flag p size ;; mret curr_flags
      else if Z.land (flag_value flag) REGULAR_EXPRESSION_FLAGS_MODIFIERS =? 0 then
        error This_regular_expression_flag_cannot_be_toggled_within_a_subpattern p size ;; mret curr_flags
      else
        on_scanner (check_regular_expression_flag_availability flag p size) ;;
        mret (Z.lor curr_flags (flag_value flag))
  | None => error Unknown_regular_expression_flag p size ;; mret curr_flags
  end.

Fixpoint scan_pattern_modifiers_loop (fuel : nat) (curr_flags : Z) : MR Z :=
  match fuel with
  | O => fun _ => OutOfFuel
  | S fuel =>
      b ← before_end;
      if negb (b : bool) then mret curr_flags
      else
        p ← pos_;
        t ← gets (fun p => text (scanner p));
        rest ← unwrap (slice_from t p);
        match next_char rest with
        | None => mret curr_flags
        | Some (ch, size) =>
            if negb (is_identifier_part ch) then mret curr_flags
            else
              curr_flags ← modifier_flag ch p size curr_flags;
              inc_pos (Z.of_nat size) ;;
              scan_pattern_modifiers_loop fuel curr_flags
        end
  end.
Definition scan_pattern_modifiers (curr_flags : Z) : MR Z :=
  q ← get; scan_pattern_modifiers_loop (loop_fuel q) curr_flags.

Definition count_group : MR unit :=
  modify (fun q => set_groups (S (number_of_capturing_groups q)) (group_specifiers q) (group_name_references q)
    (decimal_escapes q) (named_capturing_groups q) q).

(** What stands between a parenthesis and the disjunction of its group: whether the group can be repeated. *)
Definition scan_group_start : MR bool :=
  q ← get;
  c ← char;
  if c =? chr "?" then
    inc_pos 1 ;;
    c ← char;
    if (c =? chr "=") || (c =? chr "!") then inc_pos 1 ;; mret (negb (any_unicode_mode_or_non_annex_b q))
    else if c =? chr "<" then
      group_name_start ← pos_;
      inc_pos 1 ;;
      c ← char;
      if (c =? chr "=") || (c =? chr "!") then inc_pos 1 ;; mret false
      else
        scan_group_name false ;;
        scan_expected_char (chr ">") ;;
        s ← gets scanner;
        p ← pos_;
        when (language_version s <? ES2018)
          (error Named_capturing_groups_are_only_available_when_targeting_ES2018_or_later group_name_start
             (p - group_name_start)) ;;
        count_group ;;
        mret true
    else
      flags_start ← pos_;
      set_flags ← scan_pattern_modifiers 0;
      c ← char;
      when (c =? chr "-")
        (inc_pos 1 ;;
         scan_pattern_modifiers set_flags ;;
         p ← pos_;
         when (p =? flags_start + 1)%nat
           (error Subpattern_flags_must_be_present_when_there_is_a_minus_sign flags_start (p - flags_start))) ;;
      scan_expected_char (chr ":") ;;
      mret true
  else count_group ;; mret true.

Definition scan_quantifier_suffix (start : nat) (is_previous_term_quantifiable : bool) : MR bool :=
  inc_pos 1 ;;
  c ← char;
  when (c =? chr "?") (inc_pos 1) ;;
  p ← pos_;
  when (negb is_previous_term_quantifiable) (error There_is_nothing_available_for_repetition start (p - start)) ;;
  mret false.

(** The end of a quantifier in braces: [true] when the brace stands for itself. *)
Definition scan_braces_end (start : nat) (is_previous_term_quantifiable : bool) : MR bool :=
  q ← get;
  c ← char;
  if c =? chr "}" then scan_quantifier_suffix start is_previous_term_quantifiable
  else if any_unicode_mode_or_non_annex_b q then
    p ← pos_;
    error_with_args X_0_expected p 0 [bstr "}"] ;;
    inc_pos (-1) ;;
    scan_quantifier_suffix start is_previous_term_quantifiable
  else mret true.

Definition scan_braces (start : nat) (is_previous_term_quantifiable : bool) : MR bool :=
  q ← get;
  inc_pos 1 ;;
  digits_start ← pos_;
  scan_digits ;;
  min_str ← on_scanner token_value;
  let no_min := bool_decide (min_str = []) in
  if negb (any_unicode_mode_or_non_annex_b q) && no_min then mret true
  else
    c ← char;
    if c =? chr "," then
      inc_pos 1 ;;
      scan_digits ;;
      max_str ← on_scanner token_value;
      let no_max := bool_decide (max_str = []) in
      c ← char;
      if no_min then
        if negb no_max || (c =? chr "}") then
          error Incomplete_quantifier_Digit_expected digits_start 0 ;;
          scan_braces_end start is_previous_term_quantifiable
        else unexpected (chr "{") start ;; mret true
      else
        p ← pos_;
        when (negb no_max && (0 <? compare_decimal_strings min_str max_str)
              && (any_unicode_mode_or_non_annex_b q || (c =? chr "}")))
          (error Numbers_out_of_order_in_quantifier digits_start (p - digits_start)) ;;
        scan_braces_end start is_previous_term_quantifiable
    else if no_min then when (any_unicode_mode_or_non_annex_b q) (unexpected (chr "{") start) ;; mret true
    else scan_braces_end start is_previous_term_quantifiable.

Definition scan_class : MR unit :=
  q ← get;
  inc_pos 1 ;;
  (if unicode_sets_mode q then scan_class_set_expression (scan_class_set_operand (S (length (text (scanner q)))))
   else scan_class_ranges ;; modify (set_pending None)) ;;
  scan_expected_char (chr "]").

Section alternatives.
(** [scan_disjunction true], which groups call. *)
Context (scan_group : MR unit).

(** An iteration of [scan_alternative]: its local variable says whether a quantifier may follow. *)
Definition scan_term (is_in_group is_previous_term_quantifiable : bool) : MR (bool + bool) :=
  q ← get;
  start ← pos_;
  ch ← char;
  if (ch =? chr "^") || (ch =? chr "$") then inc_pos 1 ;; mret (inl false)
  else if ch =? 92 then
    inc_pos 1 ;;
    c ← char;
    if (c =? chr "b") || (c =? chr "B") then inc_pos 1 ;; mret (inl false)
    else scan_atom_escape ;; mret (inl true)
  else if ch =? chr "(" then
    inc_pos 1 ;;
    quantifiable ← scan_group_start;
    scan_group ;;
    scan_expected_char (chr ")") ;;
    mret (inl quantifiable)
  else if ch =? chr "{" then inl <$> scan_braces start is_previous_term_quantifiable
  else if (ch =? chr "*") || (ch =? chr "+") || (ch =? chr "?") then
    inl <$> scan_quantifier_suffix start is_previous_term_quantifiable
  else if ch =? chr "." then inc_pos 1 ;; mret (inl true)
  else if ch =? chr "[" then scan_class ;; mret (inl true)
  else if ch =? chr ")" then
    if is_in_group then mret (inr is_previous_term_quantifiable)
    else unexpected ch start ;; inc_pos 1 ;; mret (inl true)
  else if (ch =? chr "]") || (ch =? chr "}") then
    when (any_unicode_mode_or_non_annex_b q) (unexpected ch start) ;; inc_pos 1 ;; mret (inl true)
  else if (ch =? chr "/") || (ch =? chr "|") then mret (inr is_previous_term_quantifiable)
  else scan_source_character ;; mret (inl true).

Definition scan_alternative (is_in_group : bool) : MR unit :=
  while_before_end (scan_term is_in_group) false ;; mret tt.

Definition push_scope (q : RegExpParser) : RegExpParser :=
  set_groups (number_of_capturing_groups q) (group_specifiers q) (group_name_references q) (decimal_escapes q)
    (named_capturing_groups q ++ [[]]) q.
Definition pop_scope (q : RegExpParser) : RegExpParser :=
  set_groups (number_of_capturing_groups q) (group_specifiers q) (group_name_references q) (decimal_escapes q)
    (take (length (named_capturing_groups q) - 1) (named_capturing_groups q)) q.

Definition scan_alternatives (is_in_group : bool) : MR unit :=
  loop (fun _ : unit =>
    modify push_scope ;;
    scan_alternative is_in_group ;;
    modify pop_scope ;;
    c ← char;
    if c =? chr "|" then inc_pos 1 ;; mret (inl tt) else mret (inr tt)) tt.
End alternatives.

(** Groups nest [fuel] deep. *)
Fixpoint scan_disjunction (fuel : nat) (is_in_group : bool) : MR unit :=
  match fuel with
  | O => fun _ => OutOfFuel
  | S fuel => scan_alternatives (scan_disjunction fuel true) is_in_group
  end.

(** The references to names and numbers, after the whole pattern was read. *)
Definition check_reference (reference : GroupNameReference) : MR unit :=
  q ← get;
  when (negb (bool_decide (ref_name reference ∈ group_specifiers q)))
    (error_with_args There_is_no_capturing_group_named_0_in_this_regular_expression (ref_pos reference)
       (ref_end reference - ref_pos reference) [ref_name reference] ;;
     when (negb (bool_decide (group_specifiers q = [])))
       (suggest (get_spelling_suggestion_for_strings (ref_name reference) (group_specifiers q)) (ref_pos reference)
          (ref_end reference - ref_pos reference))).

Definition check_decimal_escape (escape : DecimalEscapeValue) : MR unit :=
  q ← get;
  let groups := number_of_capturing_groups q in
  when (Z.of_nat groups <? esc_value escape)
    (if (0 <? groups)%nat then
       error_with_args
         This_backreference_refers_to_a_group_that_does_not_exist_There_are_only_0_capturing_groups_in_this_regular_expression
         (esc_pos escape) (esc_end escape - esc_pos escape) [format_radix 10 (Z.of_nat groups)]
     else
       error This_backreference_refers_to_a_group_that_does_not_exist_There_are_no_capturing_groups_in_this_regular_expression
         (esc_pos escape) (esc_end escape - esc_pos escape)).

Fixpoint for_each {A} (f : A -> MR unit) (l : list A) : MR unit :=
  match l with [] => mret tt | x :: l => f x ;; for_each f l end.

Definition run : MR unit :=
  modify (fun q => set_non_annex_b (any_unicode_mode q || negb (annex_b q)) q) ;;
  q ← get;
  scan_disjunction (S (length (text (scanner q)))) false ;;
  references ← gets group_name_references;
  modify (fun q => set_groups (number_of_capturing_groups q) (group_specifiers q) [] (decimal_escapes q)
    (named_capturing_groups q) q) ;;
  for_each check_reference references ;;
  escapes ← gets decimal_escapes;
  modify (fun q => set_groups (number_of_capturing_groups q) (group_specifiers q) (group_name_references q) []
    (named_capturing_groups q) q) ;;
  for_each check_decimal_escape escapes.
End suggestions.
End RegExp.

(** ** Rescanning a slash (ts-scanner/src/scanner.rs) *)

(** The body of a literal: its end, whether a named group was seen and whether it has no end. The bytes are
    those from the position [p]. *)
Fixpoint reg_exp_body (rest : bytes) (p : nat) (in_escape named in_class : bool) : nat * bool * bool :=
  match rest with
  | [] => (p, named, true)
  | ch :: rest' =>
      if is_line_break ch then (p, named, true)
      else if in_escape then reg_exp_body rest' (S p) false named in_class
      else if (ch =? chr "/") && negb in_class then (p, named, false)
      else if ch =? chr "[" then reg_exp_body rest' (S p) false named true
      else if ch =? 92 then reg_exp_body rest' (S p) true named in_class
      else if ch =? chr "]" then reg_exp_body rest' (S p) false named false
      else if negb in_class && (ch =? chr "(") && bool_decide (take 2 rest' = bstr "?<")
              && match rest' !! 2%nat with Some c => negb ((c =? chr "=") || (c =? chr "!")) | None => true end
      then reg_exp_body rest' (S p) false true in_class
      else reg_exp_body rest' (S p) false named in_class
  end.

(** Where a literal without an end is cut: at a bracket that closes nothing. *)
Fixpoint reg_exp_cut (rest : bytes) (p : nat) (in_escape : bool) (class_depth : nat) (in_quantifier : bool)
    (group_depth : nat) : nat :=
  match rest with
  | [] => p
  | ch :: rest =>
      if in_escape then reg_exp_cut rest (S p) false class_depth in_quantifier group_depth
      else if ch =? 92 then reg_exp_cut rest (S p) true class_depth in_quantifier group_depth
      else if ch =? chr "[" then reg_exp_cut rest (S p) false (S class_depth) in_quantifier group_depth
      else if (ch =? chr "]") && negb (class_depth =? 0)%nat then
        reg_exp_cut rest (S p) false (class_depth - 1) in_quantifier group_depth
      else if (class_depth =? 0)%nat then
        if ch =? chr "{" then reg_exp_cut rest (S p) false class_depth true group_depth
        else if (ch =? chr "}") && in_quantifier then reg_exp_cut rest (S p) false class_depth false group_depth
        else if negb in_quantifier then
          if ch =? chr "(" then reg_exp_cut rest (S p) false class_depth in_quantifier (S group_depth)
          else if (ch =? chr ")") && negb (group_depth =? 0)%nat then
            reg_exp_cut rest (S p) false class_depth in_quantifier (group_depth - 1)
          else if (ch =? chr ")") || (ch =? chr "]") || (ch =? chr "}") then p
          else reg_exp_cut rest (S p) false class_depth in_quantifier group_depth
        else reg_exp_cut rest (S p) false class_depth in_quantifier group_depth
      else reg_exp_cut rest (S p) false class_depth in_quantifier group_depth
  end.

(** The position before the white space and semicolons that end the text before [p]. *)
Fixpoint reg_exp_trim (fuel : nat) (t : bytes) (start p : nat) : option nat :=
  match fuel with
  | O => None
  | S fuel =>
      if (start <? p)%nat then
        before ← slice t 0 p;
        match last (chars before) with
        | None => Some p
        | Some ch =>
            if is_white_space_like ch || (ch =? chr ";") then reg_exp_trim fuel t start (p - len_utf8 ch) else Some p
        end
      else Some p
  end.

(** The flags after the body: the end of them and their values. *)
Definition reg_exp_flag (report_errors : bool) (ch : char) (p size : nat) (flags : Z) : MS Z :=
  if negb report_errors then mret flags
  else
    match char_code_to_reg_exp_flag ch with
    | Some flag =>
        if negb (Z.land flags (flag_value flag) =? 0) then
          error_at Duplicate_regular_expression_flag p size [] ;; mret flags
        else if Z.land (Z.lor flags (flag_value flag)) REGULAR_EXPRESSION_FLAGS_ANY_UNICODE_MODE
                =? REGULAR_EXPRESSION_FLAGS_ANY_UNICODE_MODE then
          error_at The_Unicode_u_flag_and_the_Unicode_Sets_v_flag_cannot_be_set_simultaneously p size [] ;; mret flags
        else
          check_regular_expression_flag_availability flag p size ;; mret (Z.lor flags (flag_value flag))
    | None => error_at Unknown_regular_expression_flag p size [] ;; mret flags
    end.

Fixpoint reg_exp_flags_loop (fuel : nat) (report_errors : bool) (p : nat) (flags : Z) : MS (nat * Z) :=
  match fuel with
  | O => fun _ => OutOfFuel
  | S fuel =>
      s ← get;
      if (p <? end_ s)%nat then
        rest ← unwrap (slice (text s) p (end_ s));
        match next_char rest with
        | None => mret (p, flags)
        | Some (ch, size) =>
            if is_identifier_part ch then
              flags ← reg_exp_flag report_errors ch p size flags;
              reg_exp_flags_loop fuel report_errors (p + size) flags
            else mret (p, flags)
        end
      else mret (p, flags)
  end.

Definition new_reg_exp_parser (s : Scanner) (end_of_body : nat) (flags : Z) (named : bool) : RegExp.RegExpParser :=
  RegExp.mkParser s end_of_body flags (negb (Z.land flags REGULAR_EXPRESSION_FLAGS_ANY_UNICODE_MODE =? 0))
    (negb (Z.land flags (flag_value UnicodeSets) =? 0)) true false named false 0 [] [] [] [] None.

(** Run the parser on the scanner it borrows. *)
Definition run_reg_exp_parser `{SpellingSuggestions} (end_of_body : nat) (flags : Z) (named : bool) : MS unit := fun s =>
  match RegExp.run (new_reg_exp_parser s end_of_body flags named) with
  | Ok (_, q) => Ok (tt, RegExp.scanner q)
  | Panic => Panic
  | OutOfFuel => OutOfFuel
  end.

(** A literal without an end: reported, and ended before what may not belong to it. *)
Definition reg_exp_unterminated (start body_end : nat) : MS nat :=
  s ← get;
  let p := reg_exp_cut (take (body_end - start) (drop start (text s))) start false 0 false 0 in
  p ← unwrap (reg_exp_trim (S p) (text s) start p);
  error_at Unterminated_regular_expression_literal (token_start s) (p - token_start s) [] ;;
  mret p.

(** A literal with its end: its flags are read, and its body parsed for errors. *)
Definition reg_exp_terminated `{SpellingSuggestions} (report_errors : bool) (start body_end : nat) (named : bool) : MS nat :=
  s ← get;
  '(p, reg_exp_flags) ← reg_exp_flags_loop (S (length (text s))) report_errors (body_end + 1) 0;
  when report_errors
    (modify (set_pos start) ;;
     run_reg_exp_parser body_end reg_exp_flags named ;;
     modify (set_token_start (token_start s)) ;;
     modify (put_token_flags (token_flags s))) ;;
  mret p.

Definition rescan_slash_token `{SpellingSuggestions} (report_errors : bool) : MS Kind :=
  s ← get;
  when (bool_decide (token s = Kind.SlashToken) || bool_decide (token s = Kind.SlashEqualsToken))
    (let start := (token_start s + 1)%nat in
     let '(body_end, named, unterminated) := reg_exp_body (drop start (text s)) start false false false in
     when unterminated (add_flags TokenFlags.UNTERMINATED) ;;
     flags ← gets token_flags;
     p ← (if negb (Z.land flags TokenFlags.UNTERMINATED =? 0) then reg_exp_unterminated start body_end
          else reg_exp_terminated report_errors start body_end named);
     modify (set_pos p) ;;
     set_token_value_from_range (token_start s) p ;;
     set_token Kind.RegularExpressionLiteral) ;;
  gets token.
