(* ===== verification/ScannerInv.v ===== *)
(** * ScannerInv: the invariant of the scanner and how its primitives keep it

    [Inv t e s]: a scanner over the text [t] with end [e] whose positions are character boundaries.
    [Adv k s0 s]: the scanner went from [s0] to [s] without moving back, changing its configuration or
    dropping diagnostics or directives; with [k] it also kept the binary and octal flags. Every method
    that consumes part of a token is specified by [Adv]. *)
From S2P Require Import Prelude Text Chars SyntaxKind Monad Numerals JsNum Keywords Trivia.
From S2P Require Import ScannerState ScannerOps.

(** Every backslash is followed by an ASCII byte, or ends the text. *)
Definition escapes_ascii (t : bytes) : Prop :=
  forall i b, t !! i = Some 92 -> t !! S i = Some b -> b < 128.

Lemma is_ascii_lookup t i b : is_ascii t = true -> t !! i = Some b -> 0 <= b < 128.
Proof.
  unfold is_ascii. rewrite forallb_forall. intros Ha Hb.
  assert (In b t) as Hin by (apply list_elem_of_In; by eapply list_elem_of_lookup_2).
  specialize (Ha b Hin). bool_to_prop. lia.
Qed.

Lemma is_ascii_escapes t : is_ascii t = true -> escapes_ascii t.
Proof. intros Ha i b _ Hb. by eapply is_ascii_lookup. Qed.

Section invariant.
Context (t : bytes) (e : nat).

Definition value_ok (v : ScannerTokenValue) : Prop :=
  match v with
  | SourceRange i j => (i <= j)%nat /\ at_boundary t i /\ at_boundary t j
  | _ => True
  end.

Record Inv (s : Scanner) : Prop := {
  inv_text : text s = t;
  inv_end : end_ s = e;
  inv_pos : at_boundary t (pos s);
  inv_token_start : at_boundary t (token_start s);
  inv_full_start : at_boundary t (full_start_pos s);
  inv_value : value_ok (token_value_ s);
}.

Definition bo_flags (s : Scanner) : Z :=
  Z.land (token_flags s) TokenFlags.BINARY_OR_OCTAL_SPECIFIER.

Record Adv (k : bool) (s0 s : Scanner) : Prop := {
  adv_inv : Inv s;
  adv_pos : (pos s0 <= pos s)%nat;
  adv_variant : language_variant s = language_variant s0;
  adv_target : script_target s = script_target s0;
  adv_skip : skip_trivia_ s = skip_trivia_ s0;
  adv_full : full_start_pos s = full_start_pos s0;
  adv_start : token_start s = token_start s0;
  adv_directives : comment_directives s0 `prefix_of` comment_directives s;
  adv_diagnostics : diagnostics s0 `prefix_of` diagnostics s;
  adv_flags : k = true -> bo_flags s = bo_flags s0;
}.

Ltac adv_split := split; [split|..]; cbn; try done.

Lemma Adv_refl k s : Inv s -> Adv k s s.
Proof. intros H. by split. Qed.

Lemma Adv_trans k s0 s1 s2 : Adv k s0 s1 -> Adv k s1 s2 -> Adv k s0 s2.
Proof.
  intros [] []. split; try congruence; try lia; try done.
  - etrans; [exact adv_directives0|exact adv_directives1].
  - etrans; [exact adv_diagnostics0|exact adv_diagnostics1].
  - intros Hk. rewrite (adv_flags1 Hk). exact (adv_flags0 Hk).
Qed.

Lemma Adv_weaken k s0 s : Adv true s0 s -> Adv k s0 s.
Proof. intros []. split; try done. intros _. by apply adv_flags0. Qed.

(** Start from a later state. *)
Lemma Adv_from k s0 s1 s2 : Adv k s0 s1 -> Adv true s1 s2 -> Adv k s0 s2.
Proof. intros H1 H2. eapply Adv_trans; [exact H1|]. by apply Adv_weaken. Qed.

(** ** Field updates *)
Lemma Adv_set_pos k s0 s p :
  Adv k s0 s -> at_boundary t p -> (pos s0 <= p)%nat -> Adv k s0 (set_pos p s).
Proof. intros [[]] Hb Hp. by adv_split. Qed.

Lemma Adv_put_token k s0 s kd : Adv k s0 s -> Adv k s0 (put_token kd s).
Proof. intros [[]]. by adv_split. Qed.

Lemma Adv_put_token_value k s0 s v : Adv k s0 s -> value_ok v -> Adv k s0 (put_token_value v s).
Proof. intros [[]] Hv. by adv_split. Qed.

Lemma Adv_put_contains k s0 s b : Adv k s0 s -> Adv k s0 (put_contains_non_ascii b s).
Proof. intros [[]]. by adv_split. Qed.

Lemma Adv_add_flags k s0 s f :
  Adv k s0 s -> (k = true -> Z.land f TokenFlags.BINARY_OR_OCTAL_SPECIFIER = 0) ->
  Adv k s0 (put_token_flags (Z.lor (token_flags s) f) s).
Proof.
  intros [[]] Hf. adv_split. intros Hk. rewrite <- (adv_flags0 Hk).
  unfold bo_flags. cbn [token_flags put_token_flags]. rewrite Z.land_lor_distr_l, (Hf Hk).
  apply Z.lor_0_r.
Qed.

Lemma Adv_diagnostic k s0 s d : Adv k s0 s -> Adv k s0 (put_diagnostics (diagnostics s ++ [d]) s).
Proof. intros [[]]. adv_split. cbn. by apply prefix_app_r. Qed.

Lemma Adv_directive k s0 s d :
  Adv k s0 s -> Adv k s0 (put_comment_directives (comment_directives s ++ [d]) s).
Proof. intros [[]]. adv_split. cbn. by apply prefix_app_r. Qed.

(** ** What the reads return *)

(** [char_at n] at a position. *)
Definition read (p n : nat) (ch : char) : Prop :=
  ((p + n < e)%nat /\ t !! (p + n)%nat = Some ch) \/ ((e <= p + n)%nat /\ ch = 0).

(** [char_and_size] at a position. *)
Definition read_char (p : nat) (ch : char) (size : nat) : Prop :=
  ((e <= p)%nat /\ ch = 0 /\ size = 0%nat)
  \/ ((p < e)%nat /\ char_at_spec t p ch size /\ (p + size <= e)%nat).

Context (Hv : valid_utf8 t) (He : at_boundary t e).

Lemma read_ascii p n ch :
  read p n ch -> ch <> 0 -> ch < 128 ->
  at_boundary t (p + n) /\ at_boundary t (p + n + 1) /\ (p + n < e)%nat
  /\ t !! (p + n)%nat = Some ch.
Proof.
  intros [[H1 H2]|[H1 H2]] Hne Hlt; [|done].
  destruct (at_boundary_ascii t (p + n) ch Hv H2 Hlt) as [H3 H4]. done.
Qed.

Lemma read_nonneg p n ch : read p n ch -> 0 <= ch < 256.
Proof. intros [[_ H]|[_ ->]]; [by eapply valid_utf8_byte|lia]. Qed.

Lemma read_char_next p ch size :
  at_boundary t p -> read_char p ch size -> at_boundary t (p + size).
Proof.
  intros Hp [(H1 & -> & ->)|(H1 & H2 & H3)]; [by rewrite Nat.add_0_r|].
  destruct H2. by split.
Qed.

Lemma read_char_size p ch size : read_char p ch size -> ch <> 0 -> (1 <= size)%nat /\ (p < e)%nat.
Proof. intros [(H1 & -> & ->)|(H1 & H2 & H3)] Hne; [done|]. destruct H2. lia. Qed.

(** At a boundary before the end, [char_and_size] reads a character that ends before the end. *)
Lemma next_char_read p :
  at_boundary t p -> (p < e)%nat ->
  exists ch size, next_char (drop p t) = Some (ch, size) /\ char_at_spec t p ch size
    /\ (p + size <= e)%nat.
Proof.
  intros [Hb Hle] Hlt. destruct He as [Heb Hel].
  destruct (next_char_at t p Hv Hb) as (ch & size & Hn & Hs); [lia|].
  exists ch, size. split; [done|]. split; [done|].
  destruct (decide (p + size <= e)%nat) as [|Hgt]; [done|].
  rewrite (cas_inner _ _ _ _ Hs e) in Heb by lia. done.
Qed.

Lemma wp_char_at n s (Q : char -> Scanner -> Prop) :
  Inv s -> (forall ch, read (pos s) n ch -> Q ch s) -> wp (char_at n) Q s.
Proof.
  intros Hi HQ. unfold char_at. apply wp_bind, wp_get. rewrite (inv_text _ Hi), (inv_end _ Hi).
  apply wp_if; intros E; bool_to_prop.
  - destruct (lookup_lt_is_Some_2 t (pos s + n)) as [b Hb]; [destruct He; lia|].
    rewrite Hb. apply wp_ret, HQ. by left.
  - apply wp_ret, HQ. by right.
Qed.

Lemma wp_char s (Q : char -> Scanner -> Prop) :
  Inv s -> (forall ch, read (pos s) 0 ch -> Q ch s) -> wp char_ Q s.
Proof.
  intros Hi HQ. unfold char_. apply wp_bind, wp_get. rewrite (inv_text _ Hi), (inv_end _ Hi).
  unfold read in HQ. rewrite Nat.add_0_r in HQ. apply wp_if; intros E; bool_to_prop.
  - destruct (lookup_lt_is_Some_2 t (pos s)) as [b Hb]; [destruct He; lia|].
    rewrite Hb. apply wp_ret, HQ. by left.
  - apply wp_ret, HQ. by right.
Qed.

Lemma put_contains_id s : put_contains_non_ascii (contains_non_ascii s) s = s.
Proof. by destruct s. Qed.

Lemma wp_char_and_size s (Q : char * nat -> Scanner -> Prop) :
  Inv s ->
  (forall ch size b, read_char (pos s) ch size -> Q (ch, size) (put_contains_non_ascii b s)) ->
  wp char_and_size Q s.
Proof.
  intros Hi HQ. unfold char_and_size. apply wp_bind, wp_get.
  assert (forall ch size, read_char (pos s) ch size -> Q (ch, size) s) as HQ'.
  { intros ch size Hr. rewrite <- (put_contains_id s). by apply HQ. }
  rewrite (inv_text _ Hi), (inv_end _ Hi). apply wp_if; intros E; bool_to_prop.
  { apply wp_ret, HQ'. by left. }
  destruct (next_char_read (pos s) (inv_pos _ Hi) E) as (ch & size & Hn & Hs & Hse).
  destruct (lookup_lt_is_Some_2 t (pos s)) as [b Hb]; [destruct He; lia|].
  apply wp_bind. rewrite Hb. apply wp_ret, wp_if; intros E2; bool_to_prop.
  - apply wp_ret, HQ'. right. split; [done|].
    rewrite (drop_S _ b) in Hn by done. cbn in Hn. rewrite (proj2 (Z.ltb_lt _ _) E2) in Hn.
    by injection Hn as <- <-.
  - rewrite slice_from_at by (apply (inv_pos _ Hi)). cbn [mbind option_bind]. rewrite Hn.
    apply wp_bind, wp_when; intros _.
    + apply wp_modify, wp_ret, HQ. right. done.
    + apply wp_ret, HQ'. right. done.
Qed.

Lemma wp_text_slice i j s (Q : bytes -> Scanner -> Prop) :
  Inv s -> at_boundary t i -> at_boundary t j -> (i <= j)%nat ->
  Q (take (j - i) (drop i t)) s -> wp (text_slice i j) Q s.
Proof.
  intros Hi [H1 _] [H2 _] Hij HQ. unfold text_slice. apply wp_bind, wp_get.
  rewrite (inv_text _ Hi), slice_some by done. done.
Qed.

Lemma wp_token_value s (Q : bytes -> Scanner -> Prop) :
  Inv s -> (forall v, Q v s) -> wp token_value Q s.
Proof.
  intros Hi HQ. unfold token_value. apply wp_bind, wp_get. pose proof (inv_value _ Hi) as Hval.
  destruct (token_value_ s) as [|i j|v]; [apply wp_ret, HQ| |apply wp_ret, HQ].
  destruct Hval as (Hij & [Hi1 _] & [Hj1 _]). rewrite (inv_text _ Hi), slice_some by done.
  apply wp_ret, HQ.
Qed.

(** Loops that move forward: the invariant holds at every iteration, and each one that continues
    leaves less text. *)
Lemma wp_loop {L A} k (body : L -> MS (L + A)) (I : L -> Scanner -> Prop)
    (Q : A -> Scanner -> Prop) s0 l s :
  Inv s0 -> Adv k s0 s -> I l s ->
  (forall l s, Adv k s0 s -> I l s ->
     wp (body l) (fun r s' =>
       match r with
       | inl l' => Adv k s0 s' /\ I l' s' /\ (pos s < pos s')%nat
       | inr a => Q a s'
       end) s) ->
  wp (loop body l) Q s.
Proof.
  intros Hi0 Ha HI Hbody. unfold loop. apply wp_bind, wp_get. unfold loop_fuel.
  rewrite (inv_text _ (adv_inv _ _ _ Ha)).
  eapply (wp_iter body (fun l s => Adv k s0 s /\ I l s) (fun _ s => S (length t) - pos s)%nat).
  - intros l' s' [Ha' HI']. eapply wp_mono; [by apply Hbody|].
    intros [l''|a] s''; [|done]. intros (H1 & H2 & H3). split; [done|].
    pose proof (inv_pos _ (adv_inv _ _ _ H1)) as [_ Hle]. lia.
  - done.
  - lia.
Qed.
End invariant.

#[export] Hint Resolve Adv_refl Adv_put_token Adv_put_contains Adv_diagnostic Adv_directive
  Adv_put_token_value Adv_set_pos : scan.
#[export] Hint Extern 1 (at_boundary _ _) => eassumption : scan.
#[export] Hint Extern 2 (_ <= _)%nat => lia : scan.
#[export] Hint Extern 2 (_ < _)%nat => lia : scan.
