(* ===== verification/ScannerWp.v ===== *)
(** * ScannerWp: total correctness of the primitive operations, and symbolic execution

    One lemma per primitive of ScannerState, in the form that runs it from a state [s] that advanced
    from [s0]; the tactics [run] and [finish] apply them. *)
From S2P Require Import Prelude Text Chars SyntaxKind Monad Numerals JsNum Keywords Trivia.
From S2P Require Import ScannerState ScannerOps ScannerInv.

Section primitives.
Context (t : bytes) (e : nat) (Hv : valid_utf8 t) (He : at_boundary t e).

Abbreviation Inv := (Inv t e).
Abbreviation Adv := (Adv t e).
Abbreviation read := (read t e).

(** Updates of the fields that no method reads back. *)
Record same (s s' : Scanner) : Prop := {
  same_pos : pos s' = pos s;
  same_token : token s' = token s;
  same_value : token_value_ s' = token_value_ s;
}.

Lemma wp_call {A} k s0 s (m : MS A) (P Q : A -> Scanner -> Prop) :
  Adv k s0 s ->
  (Inv s -> wp m (fun r s' => Adv true s s' /\ P r s') s) ->
  (forall r s', Adv k s0 s' -> (pos s <= pos s')%nat -> P r s' -> Q r s') ->
  wp m Q s.
Proof.
  intros Ha Hm HQ. eapply wp_mono; [apply Hm; apply Ha|]. intros r s' [H1 H2].
  apply HQ; [by eapply Adv_from|by eapply adv_pos|done].
Qed.

Lemma wp_add_flags k s0 s f (Q : unit -> Scanner -> Prop) :
  Adv k s0 s -> (k = true -> Z.land f TokenFlags.BINARY_OR_OCTAL_SPECIFIER = 0) ->
  (forall s', Adv k s0 s' -> same s s' -> Q tt s') -> wp (add_flags f) Q s.
Proof. intros Ha Hf HQ. apply wp_modify, HQ; [by apply Adv_add_flags|done]. Qed.

Lemma wp_error_at k s0 s m p l a (Q : unit -> Scanner -> Prop) :
  Adv k s0 s -> (forall s', Adv k s0 s' -> same s s' -> Q tt s') -> wp (error_at m p l a) Q s.
Proof. intros Ha HQ. apply wp_modify, HQ; [by apply Adv_diagnostic|done]. Qed.

Lemma wp_error_here k s0 s m l (Q : unit -> Scanner -> Prop) :
  Adv k s0 s -> (forall s', Adv k s0 s' -> same s s' -> Q tt s') -> wp (error_here m l) Q s.
Proof. intros Ha HQ. apply wp_bind, wp_gets. by eapply wp_error_at. Qed.

Lemma wp_put_pos k s0 s p (Q : unit -> Scanner -> Prop) :
  Adv k s0 s -> at_boundary t p -> (pos s0 <= p)%nat ->
  (forall s', Adv k s0 s' -> pos s' = p -> token_value_ s' = token_value_ s -> Q tt s') ->
  Q tt (set_pos p s).
Proof. intros Ha Hb Hp HQ. apply HQ; [by apply Adv_set_pos|done|done]. Qed.

Lemma wp_advance k s0 s n (Q : unit -> Scanner -> Prop) :
  Adv k s0 s -> at_boundary t (pos s + n) ->
  (forall s', Adv k s0 s' -> pos s' = (pos s + n)%nat -> token_value_ s' = token_value_ s -> Q tt s') ->
  wp (advance n) Q s.
Proof.
  intros Ha Hb HQ. apply wp_modify. eapply wp_put_pos; [done|done| |done].
  pose proof (adv_pos _ _ _ _ _ Ha). lia.
Qed.

Lemma wp_set_pos k s0 s p (Q : unit -> Scanner -> Prop) :
  Adv k s0 s -> at_boundary t p -> (pos s0 <= p)%nat ->
  (forall s', Adv k s0 s' -> pos s' = p -> token_value_ s' = token_value_ s -> Q tt s') ->
  wp (modify (set_pos p)) Q s.
Proof. intros. apply wp_modify. by eapply wp_put_pos. Qed.

Lemma wp_set_pos_fun k s0 s (f : Scanner -> nat) (Q : unit -> Scanner -> Prop) :
  Adv k s0 s -> at_boundary t (f s) -> (pos s0 <= f s)%nat ->
  (forall s', Adv k s0 s' -> pos s' = f s -> token_value_ s' = token_value_ s -> Q tt s') ->
  wp (modify (fun s => set_pos (f s) s)) Q s.
Proof. intros. apply wp_modify. by eapply wp_put_pos. Qed.

Lemma wp_set_token k s0 s kd (Q : unit -> Scanner -> Prop) :
  Adv k s0 s ->
  (forall s', Adv k s0 s' -> pos s' = pos s -> token s' = kd ->
     token_value_ s' = token_value_ s -> Q tt s') ->
  wp (set_token kd) Q s.
Proof. intros Ha HQ. apply wp_modify, HQ; [by apply Adv_put_token|done..]. Qed.

Lemma wp_put_value k s0 s v (Q : unit -> Scanner -> Prop) :
  Adv k s0 s -> value_ok t v ->
  (forall s', Adv k s0 s' -> pos s' = pos s -> token s' = token s -> token_value_ s' = v -> Q tt s') ->
  wp (modify (put_token_value v)) Q s.
Proof. intros Ha Hval HQ. apply wp_modify, HQ; [by apply Adv_put_token_value|done..]. Qed.

Lemma wp_set_value k s0 s v (Q : unit -> Scanner -> Prop) :
  Adv k s0 s ->
  (forall s', Adv k s0 s' -> pos s' = pos s -> token s' = token s -> token_value_ s' = Owned v -> Q tt s') ->
  wp (set_token_value v) Q s.
Proof. intros Ha HQ. by eapply wp_put_value. Qed.

Lemma wp_set_range k s0 s i j (Q : unit -> Scanner -> Prop) :
  Adv k s0 s -> (i <= j)%nat -> at_boundary t i -> at_boundary t j ->
  (forall s', Adv k s0 s' -> pos s' = pos s -> token s' = token s ->
     token_value_ s' = SourceRange i j -> Q tt s') ->
  wp (set_token_value_from_range i j) Q s.
Proof. intros Ha H1 H2 H3 HQ. by eapply wp_put_value. Qed.

Lemma wp_read_char k s0 s (Q : char -> Scanner -> Prop) :
  Adv k s0 s -> (forall ch, read (pos s) 0 ch -> Q ch s) -> wp char_ Q s.
Proof. intros Ha. apply (wp_char t e He). apply Ha. Qed.

Lemma wp_read_char_at k s0 s n (Q : char -> Scanner -> Prop) :
  Adv k s0 s -> (forall ch, read (pos s) n ch -> Q ch s) -> wp (char_at n) Q s.
Proof. intros Ha. apply (wp_char_at t e He). apply Ha. Qed.

(** What [char_and_size] returns, in the form the proofs use. *)
Record char_read (p : nat) (ch : char) (size : nat) : Prop := {
  cr_read : read_char t e p ch size;
  cr_next : at_boundary t (p + size);
  cr_size : (size = 0%nat /\ ch = 0 /\ (e <= p)%nat)
            \/ ((1 <= size)%nat /\ (p + size <= e)%nat /\ (ch < 128 -> size = 1%nat));
  cr_ascii : ch < 128 -> read p 0 ch;
}.

Lemma read_char_read p ch size : at_boundary t p -> read_char t e p ch size -> char_read p ch size.
Proof.
  intros Hb Hr. split; [done|by eapply read_char_next| |].
  - destruct Hr as [(H1 & -> & ->)|(H1 & H2 & H3)]; [by left|right].
    pose proof (cas_pos _ _ _ _ H2). split; [lia|]. split; [done|].
    intros Hlt. by destruct (char_at_ascii _ _ _ _ H2 Hlt).
  - intros Hlt. unfold ScannerInv.read. rewrite Nat.add_0_r.
    destruct Hr as [(H1 & -> & ->)|(H1 & H2 & H3)]; [by right|left].
    by destruct (char_at_ascii _ _ _ _ H2 Hlt).
Qed.

Lemma wp_read_char_and_size k s0 s (Q : char * nat -> Scanner -> Prop) :
  Adv k s0 s ->
  (forall ch size s', char_read (pos s) ch size -> Adv k s0 s' -> same s s' -> Q (ch, size) s') ->
  wp char_and_size Q s.
Proof.
  intros Ha HQ. apply (wp_char_and_size t e Hv He); [apply Ha|]. intros ch size b Hr.
  apply HQ; [apply read_char_read; [apply Ha|done]|by apply Adv_put_contains|done].
Qed.

Lemma wp_slice k s0 s i j (Q : bytes -> Scanner -> Prop) :
  Adv k s0 s -> at_boundary t i -> at_boundary t j -> (i <= j)%nat ->
  Q (take (j - i) (drop i t)) s -> wp (text_slice i j) Q s.
Proof. intros Ha. apply (wp_text_slice t e). apply Ha. Qed.

Lemma wp_value k s0 s (Q : bytes -> Scanner -> Prop) :
  Adv k s0 s -> (forall v, (forall w, token_value_ s = Owned w -> v = w) -> Q v s) ->
  wp token_value Q s.
Proof.
  intros Ha HQ. unfold token_value. apply wp_bind, wp_get.
  pose proof (inv_value _ _ _ (adv_inv _ _ _ _ _ Ha)) as Hval.
  destruct (token_value_ s) as [|i j|v]; [by apply wp_ret, HQ| |by apply wp_ret, HQ; intros ? [= ->]].
  destruct Hval as (Hij & [Hi1 _] & [Hj1 _]). rewrite (inv_text _ _ _ (adv_inv _ _ _ _ _ Ha)).
  rewrite slice_some by done. by apply wp_ret, HQ.
Qed.

Lemma wp_push_str k s0 s v (Q : unit -> Scanner -> Prop) :
  Adv k s0 s ->
  (forall s', Adv k s0 s' -> pos s' = pos s -> token s' = token s ->
     (forall w, token_value_ s = Owned w -> token_value_ s' = Owned (w ++ v)) -> Q tt s') ->
  wp (push_str_token_value v) Q s.
Proof.
  intros Ha HQ. apply wp_bind. eapply wp_value; [done|]. intros w Hw.
  eapply wp_set_value; [done|]. intros s' H1 H2 H3 H4. apply HQ; [done..|].
  intros w' Hw'. by rewrite <- (Hw _ Hw').
Qed.

Lemma read_fun p n ch ch' : read p n ch -> read p n ch' -> ch = ch'.
Proof. intros [[H1 H2]|[H1 H2]] [[H3 H4]|[H3 H4]]; congruence || lia. Qed.

Lemma Adv_facts k s0 s : Adv k s0 s -> at_boundary t (pos s) /\ (pos s0 <= pos s)%nat.
Proof. intros H. split; [apply H|apply (adv_pos _ _ _ _ _ H)]. Qed.
End primitives.

(** ** Symbolic execution *)


(** The positions of every state in the context are boundaries, in order. *)
Ltac facts :=
  repeat match goal with
  | H : same _ _ |- _ => destruct H as [? ? ?]
  | H : char_read _ _ _ _ _ |- _ => destruct H as [? ? ? ?]
  | H : _ /\ _ |- _ => destruct H
  | H : Adv _ _ _ _ ?s |- context [end_ ?s] => rewrite (inv_end _ _ _ (adv_inv _ _ _ _ _ H))
  | H : Adv _ _ _ _ ?s, K : context [end_ ?s] |- _ =>
      rewrite (inv_end _ _ _ (adv_inv _ _ _ _ _ H)) in K
  | H : Adv ?t ?e _ ?s0 ?s |- _ =>
      lazymatch goal with
      | _ : at_boundary t (pos s), _ : (pos s0 <= pos s)%nat |- _ => fail
      | _ => destruct (Adv_facts _ _ _ _ _ H)
      end
  end.

(** A boundary, up to arithmetic: a known one, or an end of an ASCII character that was read. *)
Ltac at_b :=
  multimatch goal with
  | H : at_boundary ?t ?q |- at_boundary ?t ?p => replace p with q by lia; exact H
  | Hv : valid_utf8 ?t, H : read ?t ?e ?q ?n ?ch |- at_boundary ?t ?p =>
      let B := fresh in
      destruct (read_ascii t e Hv _ _ _ H) as (_ & B & _ & _); [lia|lia|];
      replace p with (q + n + 1)%nat by lia; exact B
  | H : forall c, Some ?ch = Some c -> at_boundary ?t ?q |- at_boundary ?t ?p =>
      replace p with q by lia; by apply (H ch)
  | H : ?ch < 128 -> read ?t ?e ?q 0 ?ch |- read ?t ?e ?p 0 ?c =>
      replace p with q by lia; replace c with ch by lia; apply H; lia
  | H : read ?t ?e ?q ?n ?ch |- read ?t ?e ?p ?n ?c =>
      replace p with q by lia; replace c with ch by lia; exact H
  end.

(** The character read at [p] is before the end. *)
Ltac before_end :=
  repeat match goal with
  | Hv : valid_utf8 ?t, H : read ?t ?e ?p ?n ?ch |- _ =>
      lazymatch goal with
      | _ : (p + n < e)%nat |- _ => fail
      | _ => let B := fresh in
             destruct (read_ascii t e Hv _ _ _ H) as (_ & _ & B & _); [lia|lia|]
      end
  end.

Ltac side :=
  first
    [ eassumption
    | reflexivity
    | (intros _; reflexivity)
    | facts; first [eassumption | lia | at_b] ].

Ltac test E :=
  unfold is_ascii_hexdigit, is_octal_digit, is_word_character, is_ascii_alphanumeric,
    is_ascii_alphabetic, is_ascii_uppercase, is_ascii_lowercase, is_ascii_digit,
    is_ascii_char in E;
  rewrite ?orb_true_iff, ?andb_true_iff, ?orb_false_iff, ?andb_false_iff, ?negb_true_iff,
    ?negb_false_iff, ?Z.eqb_eq, ?Z.eqb_neq, ?Z.leb_le, ?Z.leb_gt, ?Z.ltb_lt, ?Z.ltb_ge,
    ?Nat.eqb_eq, ?Nat.eqb_neq, ?Nat.leb_le, ?Nat.leb_gt, ?Nat.ltb_lt, ?Nat.ltb_ge in E.

Ltac bool_to_goal :=
  rewrite ?orb_true_iff, ?andb_true_iff, ?Z.eqb_eq, ?Z.leb_le, ?Z.ltb_lt; lia.

Ltac step :=
  lazymatch goal with
  | |- wp (_ ≫= _) _ _ => apply wp_bind
  | |- wp (mret _) _ _ => apply wp_ret
  | |- wp (when _ _) _ _ => apply wp_when; [let E := fresh "E" in intros E; test E..]
  | |- wp (if _ then _ else _) _ _ => apply wp_if; [let E := fresh "E" in intros E; test E..]
  | |- wp get _ _ => apply wp_get
  | H : Adv _ _ _ _ ?c |- wp (gets end_) _ ?c =>
      apply wp_gets; rewrite (inv_end _ _ _ (adv_inv _ _ _ _ _ H))
  | |- wp (gets _) _ _ => apply wp_gets
  | |- wp char_ _ _ => eapply wp_read_char; [|side|]; [eassumption|intros ? ?]
  | |- wp (char_at _) _ _ => eapply wp_read_char_at; [|side|]; [eassumption|intros ? ?]
  | |- wp char_and_size _ _ =>
      eapply wp_read_char_and_size; [| |side|]; [eassumption|eassumption|intros ? ? ? ? ? ?]
  | |- wp (add_flags _) _ _ => eapply wp_add_flags; [side|intros _; reflexivity|intros ? ? ?]
  | |- wp (error_at _ _ _ _) _ _ => eapply wp_error_at; [side|intros ? ? ?]
  | |- wp (error_here _ _) _ _ => eapply wp_error_here; [side|intros ? ? ?]
  | |- wp (advance _) _ _ => eapply wp_advance; [side|try side|intros ? ? ? ?]
  | |- wp (modify (set_pos _)) _ _ => eapply wp_set_pos; [side|try side|try side|intros ? ? ? ?]
  | |- wp (set_token _) _ _ => eapply wp_set_token; [side|intros ? ? ? ? ?]
  | |- wp (set_token_value _) _ _ => eapply wp_set_value; [side|intros ? ? ? ? ?]
  | |- wp (set_token_value_from_range _ _) _ _ =>
      eapply wp_set_range; [side|try side|try side|try side|intros ? ? ? ? ?]
  | |- wp (text_slice _ _) _ _ => eapply wp_slice; [side|try side|try side|try side|]
  | |- wp token_value _ _ => eapply wp_value; [side|intros ? ?]
  | |- wp (push_str_token_value _) _ _ => eapply wp_push_str; [side|intros ? ? ? ? ?]
  | |- wp (let '(_, _) := ?p in _) _ _ => destruct p
  | |- wp (modify (fun s => set_pos _ s)) _ _ =>
      eapply wp_set_pos_fun; [side|try side|try side|intros ? ? ? ?]
  end; cbv beta.
Ltac steps := repeat step.

(** Continue a run after a call with a known specification. *)
Ltac call L :=
  eapply wp_call; [side|intros ?; apply L; try side|intros ? ? ? ? ?; cbv beta in *].

(** The end of a run: the state advanced, and the rest is arithmetic. *)
Ltac finish :=
  cbn [digit_start digit_result fst snd];
  repeat match goal with H : if ?b then _ else _ |- _ => destruct b end; facts; before_end;
  repeat match goal with |- _ /\ _ => split end;
  try first [eassumption | done | (apply Adv_weaken; eassumption) | lia | at_b | congruence].

Ltac start Hi := pose proof (Adv_refl _ _ true _ Hi).

(** The calls that have a specification; files extend it. *)
Ltac calls := fail.
Ltac run := repeat first [step | calls]; try solve [finish].
