(* ===== verification/ScannerSpec.v ===== *)
(** * ScannerSpec: every method that consumes a piece of a token is total

    For a valid UTF-8 text in which every backslash is followed by an ASCII byte, each method of
    ScannerOps neither panics nor runs out of fuel, moves forward to a character boundary and keeps
    what [Adv] keeps. *)
From S2P Require Import Prelude Text Chars SyntaxKind Monad Numerals JsNum Keywords Trivia.
From S2P Require Import ScannerState ScannerOps ScannerInv ScannerWp.

Section spec.
Context (t : bytes) (e : nat) (Hv : valid_utf8 t) (He : at_boundary t e).

Abbreviation Inv := (Inv t e).
Abbreviation Adv := (Adv t e).
Abbreviation read := (read t e).

Lemma separator_error_ok b s :
  Inv s -> wp (separator_error b) (fun _ s' => Adv true s s' /\ pos s' = pos s) s.
Proof. intros Hi. start Hi. unfold separator_error. steps. finish. Qed.

Lemma trailing_separator_error_ok s :
  Inv s -> wp trailing_separator_error (fun _ s' => Adv true s s' /\ pos s' = pos s) s.
Proof. intros Hi. start Hi. unfold trailing_separator_error. steps. finish. Qed.

Ltac calls ::= first [call separator_error_ok | call trailing_separator_error_ok].

Lemma scan_hex_digits_ok n many sep s :
  Inv s -> wp (scan_hex_digits n many sep) (fun _ s' => Adv true s s' /\ True) s.
Proof.
  intros Hi. start Hi. unfold scan_hex_digits. steps.
  eapply (wp_loop t e true _ (fun _ _ => True)); [done|done|done|].
  intros l s1 Ha1 _. run.
Qed.

Definition base_digits (base : Z) (ds : bytes) : Prop :=
  Forall (fun ch => is_ascii_digit ch = true /\ ch - 48 < base) ds.

Lemma scan_binary_or_octal_digits_ok base s :
  Inv s ->
  wp (scan_binary_or_octal_digits base) (fun ds s' => Adv true s s' /\ base_digits base ds) s.
Proof.
  intros Hi. start Hi. unfold scan_binary_or_octal_digits. steps.
  eapply (wp_loop t e true _ (fun l _ => base_digits base (digit_result l)));
    [done|done|constructor|].
  intros l s1 Ha1 Hl. run.
  finish. apply Forall_app. split; [done|]. constructor; [|constructor]. split; [|lia].
  unfold is_ascii_digit. bool_to_goal.
Qed.

(** A digit read at [p] is passed at [p']. *)
Definition digit_at (p p' : nat) : Prop :=
  forall ch, read p 0 ch -> is_ascii_digit ch = true -> (p < p')%nat.

Lemma digit_at_lt p p' : (p < p')%nat -> digit_at p p'.
Proof. by intros H ? _ _. Qed.

Lemma digit_at_mono p p1 p2 : digit_at p p1 -> (p1 <= p2)%nat -> digit_at p p2.
Proof. intros H Hle ch H1 H2. specialize (H ch H1 H2). lia. Qed.


Lemma scan_number_fragment_ok s :
  Inv s ->
  wp scan_number_fragment (fun _ s' => Adv true s s' /\
    digit_at (pos s) (pos s')) s.
Proof.
  intros Hi. start Hi. unfold scan_number_fragment. steps.
  eapply (wp_loop t e true _ (fun l s1 => at_boundary t (digit_start l) /\ (digit_start l <= pos s1)%nat
    /\ (pos s1 = pos s \/ pos s < pos s1)%nat)); [done|done| |].
  { cbn. finish. }
  intros l s1 Ha1 (Hl1 & Hl2 & Hl3). run.
  all: finish; intros ch' Hr Hd; test Hd; destruct Hl3 as [Hl3|]; [|lia]; rewrite Hl3 in *;
    pose proof (read_fun _ _ _ _ _ _ H0 Hr); lia.
Qed.

Lemma scan_digits_ok s :
  Inv s ->
  wp scan_digits (fun _ s' => Adv true s s' /\ True) s.
Proof.
  intros Hi. start Hi. unfold scan_digits. steps.
  eapply (wp_loop t e true _ (fun _ _ => True)); [done|done|done|].
  intros l s1 Ha1 _. run.
Qed.

Ltac calls ::= first
  [ call separator_error_ok | call trailing_separator_error_ok | call scan_hex_digits_ok
  | call scan_binary_or_octal_digits_ok | call scan_number_fragment_ok | call scan_digits_ok ].

(** ** Escapes *)
Lemma scan_unicode_escape_ok b s :
  Inv s -> at_boundary t (pos s + 2) ->
  wp (scan_unicode_escape b) (fun _ s' => Adv true s s' /\ (pos s + 2 <= pos s')%nat) s.
Proof.
  intros Hi Hb. start Hi. unfold scan_unicode_escape. run.
  all: destruct r as [|d r]; run.
  all: destruct (from_str_radix 16 U32_MAX (d :: r)); run.
Qed.

Lemma wp_on_clone {A} (m : MS A) (P : A -> Scanner -> Prop) (Q : A -> Scanner -> Prop) s :
  wp m P s -> (forall r, Q r s) -> wp (on_clone m) Q s.
Proof. unfold wp, on_clone. by destruct (m s) as [[]| |]. Qed.

(** Peeking keeps the state; an escape that is found starts with two ASCII bytes. *)
Lemma peek_unicode_escape_ok k s0 s (Q : option char -> Scanner -> Prop) :
  Adv k s0 s ->
  (forall r, (forall ch, r = Some ch -> at_boundary t (pos s + 2)) -> Q r s) ->
  wp peek_unicode_escape Q s.
Proof.
  intros Ha HQ. unfold peek_unicode_escape. step. step. step.
  - assert (at_boundary t (pos s + 2)) as Hb by side.
    eapply (wp_on_clone _ (fun _ _ => True)); [|intros r; by apply HQ]. step.
    eapply wp_mono; [apply scan_unicode_escape_ok; [apply Ha|done]|]. done.
  - steps. by apply HQ.
Qed.

Lemma scan_octal_escape_tail_ok start ch flags s :
  Inv s -> at_boundary t (start + 1) -> at_boundary t start -> (start + 1 <= pos s)%nat ->
  wp (scan_octal_escape_tail start ch flags) (fun _ s' => Adv true s s' /\ True) s.
Proof. intros Hi Hb Hb' Hp. start Hi. unfold scan_octal_escape_tail. run. Qed.

Lemma scan_decimal_escape_ok start ch flags s :
  Inv s -> at_boundary t start -> (start <= pos s)%nat ->
  wp (scan_decimal_escape start ch flags) (fun _ s' => Adv true s s' /\ True) s.
Proof. intros Hi Hb' Hp. start Hi. unfold scan_decimal_escape. run. Qed.

Ltac calls ::= first
  [ call separator_error_ok | call trailing_separator_error_ok | call scan_hex_digits_ok
  | call scan_binary_or_octal_digits_ok | call scan_number_fragment_ok | call scan_digits_ok
  | call scan_unicode_escape_ok | (eapply peek_unicode_escape_ok; [side|intros ? ?])
  | call scan_octal_escape_tail_ok | call scan_decimal_escape_ok ].

Lemma scan_code_unit_ok start cp flags s :
  Inv s -> at_boundary t start -> (start <= pos s)%nat ->
  wp (scan_code_unit start cp flags) (fun _ s' => Adv true s s' /\ True) s.
Proof.
  intros Hi Hb Hp. start Hi. unfold scan_code_unit. run.
  destruct r as [next|]; run. destruct (char_from_u32 _); run.
Qed.

(** The arm of [\u] moves back to the backslash before it scans the escape. *)
Lemma scan_escape_u_ok k s0 start flags s (Q : bytes -> Scanner -> Prop) :
  Adv k s0 s -> (pos s0 <= start)%nat -> at_boundary t start -> pos s = (start + 2)%nat ->
  (forall r s', Adv k s0 s' -> (start < pos s')%nat -> Q r s') ->
  wp (scan_escape_u start flags) Q s.
Proof.
  intros Ha Hp0 Hb Hp HQ. unfold scan_escape_u. step. step.
  step. eapply wp_set_pos_fun; [side|side|side|intros s1 ? ? ?].
  repeat first [step|calls]; try (apply HQ; solve [finish]).
  all: destruct r as [cp|]; repeat first [step|call scan_code_unit_ok|calls]; try (apply HQ; solve [finish]).
Qed.

Lemma scan_escape_x_ok start flags s :
  Inv s -> at_boundary t start -> at_boundary t (start + 2) -> pos s = (start + 2)%nat ->
  wp (scan_escape_x start flags) (fun _ s' => Adv true s s' /\ True) s.
Proof.
  intros Hi Hb Hb2 Hp. start Hi. unfold scan_escape_x. steps.
  eapply (wp_loop t e true _ (fun _ _ => True)); [done|done|done|].
  intros l s1 Ha1 _. run.
Qed.

Lemma scan_escape_other_ok ch flags s :
  Inv s -> ch < 128 ->
  wp (scan_escape_other ch flags) (fun _ s' => Adv true s s' /\ True) s.
Proof. intros Hi Hlt. start Hi. unfold scan_escape_other. run. all: lia. Qed.

Context (Hesc : escapes_ascii t).

Lemma read_escaped p ch : read p 0 92 -> read (p + 1) 0 ch -> ch < 128.
Proof.
  unfold read. rewrite !Nat.add_0_r, Nat.add_1_r.
  intros [[_ H1]|[_ H1]] [[_ H2]|[_ H2]]; try lia. by eapply Hesc.
Qed.

Lemma scan_escape_sequence_ok flags s :
  Inv s -> read (pos s) 0 92 ->
  wp (scan_escape_sequence flags) (fun _ s' => Adv true s s' /\ (pos s < pos s')%nat) s.
Proof.
  intros Hi Hr. start Hi. unfold scan_escape_sequence. do 2 step.
  step. step.
do 2 step.     match goal with H : pos _ = (pos s + 1)%nat, Hch : read _ 0 ?ch |- _ =>
    assert (ch < 128) as Hlt by (apply (read_escaped _ _ Hr); by rewrite <- H) end.
  steps; try solve [finish].
  all: try (first [call scan_octal_escape_tail_ok | call scan_decimal_escape_ok
     | call scan_escape_x_ok | call scan_escape_other_ok ]; solve [finish]).
  eapply scan_escape_u_ok; [side|side|side|side|]. intros. finish.
Qed.

Ltac calls ::= first
  [ call separator_error_ok | call trailing_separator_error_ok | call scan_hex_digits_ok
  | call scan_binary_or_octal_digits_ok | call scan_number_fragment_ok | call scan_digits_ok
  | call scan_unicode_escape_ok | (eapply peek_unicode_escape_ok; [side|intros ? ?])
  | call scan_escape_sequence_ok ].

(** ** Identifiers *)
Lemma is_identifier_start_nonzero ch : is_identifier_start ch = true -> ch <> 0.
Proof. by intros H ->. Qed.
Lemma is_identifier_part_nonzero ch : is_identifier_part ch = true -> ch <> 0.
Proof. by intros H ->. Qed.

Lemma scan_identifier_parts_ok s :
  Inv s -> wp scan_identifier_parts (fun _ s' => Adv true s s' /\ True) s.
Proof.
  intros Hi. start Hi. unfold scan_identifier_parts. steps.
  eapply (wp_loop t e true _ (fun l s1 => at_boundary t l.2 /\ (l.2 <= pos s1)%nat));
    [done|done| |].
  { cbn. finish. }
  intros [result start] s1 Ha1 [Hl1 Hl2]. cbn [fst snd] in *. steps.
  all: try solve [finish].
  all: run. destruct r as [c|]; run.
Qed.

Lemma scan_word_ok s :
  Inv s -> at_boundary t (pos s + 1) ->
  wp scan_word (fun ch s' => Adv true s s' /\ (pos s < pos s')%nat /\ read (pos s') 0 ch) s.
Proof.
  intros Hi Hb. start Hi. unfold scan_word.
  eapply (wp_loop t e true _ (fun _ s1 => at_boundary t (pos s1 + 1))); [done|done|done|].
  intros l s1 Ha1 Hb1. run.
Qed.

Lemma scan_identifier_slow_ok start s :
  Inv s -> at_boundary t start -> (start <= pos s)%nat ->
  wp (scan_identifier_slow start) (fun r s' => Adv true s s' /\
    (if r then (pos s < pos s')%nat else pos s' = pos s)) s.
Proof.
  intros Hi Hb Hp. start Hi. unfold scan_identifier_slow. run.
  eapply (wp_loop t e true _ (fun size s1 => at_boundary t (pos s1 + size) /\ (1 <= size)%nat));
    [done|done| |].
  { assert (ch <> 0) by by apply is_identifier_start_nonzero. finish. }
  intros size1 s1 Ha1 [Hl1 Hl2]. run.
  - assert (ch0 <> 0) by by apply is_identifier_part_nonzero. finish.
  - call scan_identifier_parts_ok. run.
Qed.

Lemma scan_identifier_ok n s :
  Inv s -> at_boundary t (pos s + n) ->
  wp (scan_identifier n) (fun r s' => Adv true s s' /\
    (if r then (pos s + n < pos s')%nat else pos s' = (pos s + n)%nat)) s.
Proof.
  intros Hi Hb. start Hi. unfold scan_identifier. run.
  - call scan_word_ok. run. call scan_identifier_slow_ok. finish.
  - call scan_identifier_slow_ok. finish.
Qed.
End spec.
