(* ===== verification/RegExpWp.v ===== *)
(** * RegExpWp: the invariant of the regular expression parser and how its primitives keep it

    [Ext q0 q]: the parser went from [q0] to [q] over a well-formed scanner without moving back or dropping
    diagnostics. [mu] decreases in every iteration of a loop: a character outside the basic plane takes
    two iterations, of which only the second moves. *)
From stdpp Require Import gmap.
From S2P Require Import Prelude Text Chars SyntaxKind Monad Numerals Keywords Trivia.
From S2P Require Import ScannerState ScannerOps UnicodeProps RegExp ScannerInv ScannerWp ScannerSpec.
Import RegExp.

Section primitives.
Context (t : bytes) (Hv : valid_utf8 t).

Abbreviation e := (length t).
Abbreviation Inv := (Inv t e).
Abbreviation Adv := (Adv t e).
Abbreviation read := (read t e).

Abbreviation ppos q := (pos (scanner q)).

(** What the parser keeps of the scanner. *)
Record keeps (s0 s : Scanner) : Prop := {
  keeps_variant : language_variant s = language_variant s0;
  keeps_target : script_target s = script_target s0;
  keeps_skip : skip_trivia_ s = skip_trivia_ s0;
  keeps_full : full_start_pos s = full_start_pos s0;
  keeps_directives : comment_directives s0 `prefix_of` comment_directives s;
  keeps_diagnostics : diagnostics s0 `prefix_of` diagnostics s;
}.

Lemma keeps_refl s : keeps s s.
Proof. by split. Qed.
Lemma keeps_trans s0 s1 s2 : keeps s0 s1 -> keeps s1 s2 -> keeps s0 s2.
Proof. intros [] []. split; try congruence; by etrans. Qed.

Record PInv (q : RegExpParser) : Prop := {
  pinv_scanner : Inv (scanner q);
  pinv_end : (rend q <= e)%nat;
}.

Record Ext (q0 q : RegExpParser) : Prop := {
  ext_inv : PInv q;
  ext_pos : (ppos q0 <= ppos q)%nat;
  ext_keeps : keeps (scanner q0) (scanner q);
  ext_end : rend q = rend q0;
}.

Lemma Ext_refl q : PInv q -> Ext q q.
Proof. intros Hi. split; [done|lia|apply keeps_refl|done]. Qed.
Lemma Ext_trans q0 q1 q2 : Ext q0 q1 -> Ext q1 q2 -> Ext q0 q2.
Proof. intros [] []. split; [done|lia|by eapply keeps_trans|congruence]. Qed.

(** No code unit is pending. *)
Definition pn (q : RegExpParser) : nat := match pending_low_surrogate q with Some _ => 0 | None => 1 end.
Definition mu (q : RegExpParser) : nat := (2 * (e - ppos q) + pn q)%nat.

Lemma pn_le q : (pn q <= 1)%nat.
Proof. unfold pn. case_match; lia. Qed.

Lemma inv_pos_le q : PInv q -> (ppos q <= e)%nat.
Proof. intros [Hi _]. apply (inv_pos _ _ _ Hi). Qed.

Lemma mu_pos q q' : PInv q' -> (ppos q < ppos q')%nat -> (mu q' < mu q)%nat.
Proof. intros Hi Hlt. pose proof (inv_pos_le q' Hi). pose proof (pn_le q'). unfold mu. lia. Qed.

(** ** Primitives *)
Lemma wp_on_scanner {A} (m : MS A) (Q : A -> RegExpParser -> Prop) q :
  wp m (fun a s => Q a (set_scanner s q)) (scanner q) -> wp (on_scanner m) Q q.
Proof. unfold wp, on_scanner. by destruct (m (scanner q)) as [[a s]| |]. Qed.

(** A scanner that kept its place. *)
Lemma Ext_scanner q0 q s :
  Ext q0 q -> Inv s -> (ppos q0 <= pos s)%nat -> keeps (scanner q) s -> Ext q0 (set_scanner s q).
Proof. intros [[H1 H1'] H2 H3 H4] Hi Hp Hk. split; [by split|done|by eapply keeps_trans|done]. Qed.

Lemma ext_scanner q0 q : Ext q0 q -> Inv (scanner q).
Proof. intros [[]]. done. Qed.

Lemma Ext_same q0 q q' :
  Ext q0 q -> scanner q' = scanner q -> rend q' = rend q -> Ext q0 q'.
Proof. intros [[H1 H1'] H2 H3 H4] Es Er. split; [split|..]; rewrite ?Es, ?Er; done. Qed.

(** A method of the scanner with its specification. *)
Lemma wp_scanner {A} q0 q (m : MS A) (P : A -> Scanner -> Prop) (Q : A -> RegExpParser -> Prop) :
  Ext q0 q ->
  (Inv (scanner q) -> wp m (fun a s => Adv true (scanner q) s /\ P a s) (scanner q)) ->
  (forall a q', Ext q0 q' -> pn q' = pn q -> P a (scanner q') ->
     (ppos q <= ppos q')%nat -> Q a q') ->
  wp (on_scanner m) Q q.
Proof.
  intros He Hm HQ. apply wp_on_scanner. eapply wp_mono; [by eapply Hm, ext_scanner|]. intros a s [Ha HP].
  pose proof (adv_pos _ _ _ _ _ Ha). apply HQ; [|done|done|done].
  apply Ext_scanner; [done|apply Ha|pose proof (ext_pos _ _ He); lia|]. destruct Ha. by split.
Qed.

Lemma wp_pos_ q (Q : nat -> RegExpParser -> Prop) : Q (ppos q) q -> wp pos_ Q q.
Proof. intros HQ. by apply wp_gets. Qed.

Lemma wp_pos_minus n q (Q : nat -> RegExpParser -> Prop) : Q (ppos q - n)%nat q -> wp (pos_minus n) Q q.
Proof. intros HQ. unfold pos_minus. apply wp_bind, wp_pos_, wp_ret, HQ. Qed.

Lemma set_scanner_id q : set_scanner (scanner q) q = q.
Proof. by destruct q. Qed.

Lemma wp_p_char q0 q (Q : Prelude.char -> RegExpParser -> Prop) :
  Ext q0 q -> (forall ch, read (ppos q) 0 ch -> Q ch q) -> wp RegExp.char Q q.
Proof.
  intros He HQ. apply wp_on_scanner, (wp_char t e (at_boundary_len t)); [by eapply ext_scanner|]. intros ch Hr.
  rewrite set_scanner_id. by apply HQ.
Qed.

Lemma wp_p_char_at q0 q p n (Q : Prelude.char -> RegExpParser -> Prop) :
  Ext q0 q -> p = (ppos q + n)%nat -> (forall ch, read (ppos q) n ch -> Q ch q) -> wp (RegExp.char_at p) Q q.
Proof.
  intros He -> HQ. unfold RegExp.char_at. apply wp_bind, wp_pos_. rewrite (proj2 (Nat.ltb_ge _ _)) by lia.
  replace (ppos q + n - ppos q)%nat with n by lia.
  apply wp_on_scanner, (wp_char_at t e (at_boundary_len t)); [by eapply ext_scanner|]. intros ch Hr. rewrite set_scanner_id. by apply HQ.
Qed.

Lemma Inv_set_pos s p : Inv s -> at_boundary t p -> Inv (set_pos p s).
Proof. intros [] Hp. by split. Qed.

Lemma keeps_set_pos s p : keeps s (set_pos p s).
Proof. by split. Qed.

(** Moving to a boundary that is not before the start of the run. *)
Lemma wp_inc_pos q0 q n p (Q : unit -> RegExpParser -> Prop) :
  Ext q0 q -> Z.of_nat p = Z.of_nat (ppos q) + n -> at_boundary t p -> (ppos q0 <= p)%nat ->
  (forall q', Ext q0 q' -> ppos q' = p -> pn q' = pn q -> Q tt q') ->
  wp (inc_pos n) Q q.
Proof.
  intros He Hp Hb Hle HQ. apply wp_on_scanner, wp_modify. rewrite <- Hp, Nat2Z.id. apply HQ; [|done|done].
  apply Ext_scanner; [done|by apply Inv_set_pos; [by eapply ext_scanner|]|done|apply keeps_set_pos].
Qed.

Lemma wp_set_pos_ q0 q p (Q : unit -> RegExpParser -> Prop) :
  Ext q0 q -> at_boundary t p -> (ppos q0 <= p)%nat ->
  (forall q', Ext q0 q' -> ppos q' = p -> pn q' = pn q -> Q tt q') ->
  wp (set_pos_ p) Q q.
Proof.
  intros He Hb Hle HQ. apply wp_on_scanner, wp_modify. apply HQ; [|done|done].
  apply Ext_scanner; [done|by apply Inv_set_pos; [by eapply ext_scanner|]|done|apply keeps_set_pos].
Qed.

Lemma wp_p_error q0 q m start len args (Q : unit -> RegExpParser -> Prop) :
  Ext q0 q ->
  (forall q', Ext q0 q' -> ppos q' = ppos q -> pn q' = pn q -> Q tt q') ->
  wp (error_with_args m start len args) Q q.
Proof.
  intros He HQ. apply wp_on_scanner, wp_modify. apply HQ; [|done|done].
  apply Ext_scanner; [done| |apply He|].
  - destruct (ext_scanner _ _ He). by split.
  - split; [done..|]. cbn. by apply prefix_app_r.
Qed.

(** The fields of the parser itself. *)
Lemma wp_p_modify q0 q (f : RegExpParser -> RegExpParser) (Q : unit -> RegExpParser -> Prop) :
  Ext q0 q -> scanner (f q) = scanner q -> rend (f q) = rend q ->
  pending_low_surrogate (f q) = pending_low_surrogate q ->
  (forall q', Ext q0 q' -> ppos q' = ppos q -> pn q' = pn q -> Q tt q') ->
  wp (modify f) Q q.
Proof.
  intros He Es Er Ep HQ. apply wp_modify, HQ; [by eapply Ext_same|by rewrite Es|by unfold pn; rewrite Ep].
Qed.

Lemma wp_set_pending q0 q x (Q : unit -> RegExpParser -> Prop) :
  Ext q0 q ->
  (forall q', Ext q0 q' -> ppos q' = ppos q -> pn q' = match x with Some _ => 0 | None => 1 end%nat -> Q tt q') ->
  wp (modify (set_pending x)) Q q.
Proof. intros He HQ. apply wp_modify, HQ; [by eapply Ext_same|done|done]. Qed.

(** Slices. *)
Lemma wp_text_range q0 q i j (Q : bytes -> RegExpParser -> Prop) :
  Ext q0 q -> at_boundary t i -> at_boundary t j -> (i <= j)%nat ->
  Q (take (j - i) (drop i t)) q -> wp (text_range i j) Q q.
Proof.
  intros He Hi Hj Hij HQ. apply wp_on_scanner, (wp_text_slice t e); [by eapply ext_scanner|done..|]. by rewrite set_scanner_id.
Qed.

Lemma wp_byte_range q0 q i j (Q : bytes -> RegExpParser -> Prop) :
  Ext q0 q -> (i <= j)%nat -> (j <= e)%nat -> (forall bs, Q bs q) -> wp (byte_range i j) Q q.
Proof.
  intros He Hij Hj HQ. unfold byte_range. apply wp_bind, wp_gets. rewrite (inv_text _ _ _ (ext_scanner _ _ He)).
  rewrite (proj2 (Nat.leb_le _ _)), (proj2 (Nat.leb_le _ _)) by lia. cbn [andb]. apply wp_ret, HQ.
Qed.

(** A call of a method with its specification. *)
Lemma wp_p_call {A} q0 q (m : MR A) (P Q : A -> RegExpParser -> Prop) :
  Ext q0 q ->
  (PInv q -> wp m (fun r q' => Ext q q' /\ P r q') q) ->
  (forall r q', Ext q0 q' -> (ppos q <= ppos q')%nat -> rend q' = rend q -> P r q' -> Q r q') ->
  wp m Q q.
Proof.
  intros He Hm HQ. eapply wp_mono; [apply Hm, He|]. intros r q' [H1 H2].
  apply HQ; [by eapply Ext_trans|apply H1|apply H1|done].
Qed.

Lemma wp_before_end q (Q : bool -> RegExpParser -> Prop) :
  (forall b, (b = true -> (ppos q < rend q)%nat) -> (b = false -> (rend q <= ppos q)%nat) -> Q b q) -> wp before_end Q q.
Proof. intros HQ. apply wp_gets, HQ; [apply Nat.ltb_lt|apply Nat.ltb_ge]. Qed.

Lemma wp_is_class_content_exit ch q (Q : bool -> RegExpParser -> Prop) :
  (forall b : bool, (b = false -> ch <> 93 /\ (ppos q < rend q)%nat) -> Q b q) -> wp (is_class_content_exit ch) Q q.
Proof.
  intros HQ. unfold is_class_content_exit. apply wp_bind, wp_before_end. intros b Hb _. apply wp_ret, HQ.
  intros [H1%Z.eqb_neq H2%negb_false_iff]%orb_false_iff. split; [done|by apply Hb].
Qed.

(** ** Loops *)
Lemma wp_p_loop {L A} (body : L -> MR (L + A)) (I : L -> RegExpParser -> Prop) (Q : A -> RegExpParser -> Prop) q0 l q :
  Ext q0 q -> I l q ->
  (forall l q, Ext q0 q -> I l q ->
     wp (body l) (fun r q' =>
       match r with
       | inl l' => Ext q0 q' /\ I l' q' /\ (mu q' < mu q)%nat
       | inr a => Q a q'
       end) q) ->
  wp (RegExp.loop body l) Q q.
Proof.
  intros He HI Hbody. unfold RegExp.loop. apply wp_bind, wp_get. unfold RegExp.loop_fuel.
  rewrite (inv_text _ _ _ (ext_scanner _ _ He)).
  eapply (wp_iter body (fun l q => Ext q0 q /\ I l q) (fun _ q => mu q)).
  - intros l' q' [He' HI']. eapply wp_mono; [by apply Hbody|]. intros [l''|a] q''; [|done]. intros (H1 & H2 & H3). done.
  - done.
  - pose proof (pn_le q). unfold mu. lia.
Qed.

Lemma wp_while {L} (body : L -> MR (L + L)) (I : L -> RegExpParser -> Prop) (Q : L -> RegExpParser -> Prop) q0 l q :
  Ext q0 q -> I l q ->
  (forall l q, Ext q0 q -> I l q -> Q l q) ->
  (forall l q, Ext q0 q -> I l q -> (ppos q < rend q)%nat ->
     wp (body l) (fun r q' =>
       match r with
       | inl l' => Ext q0 q' /\ I l' q' /\ (mu q' < mu q)%nat
       | inr a => Q a q'
       end) q) ->
  wp (while_before_end body l) Q q.
Proof.
  intros He HI Hend Hbody. unfold while_before_end. eapply (wp_p_loop _ I); [done|done|]. intros l1 q1 He1 HI1.
  apply wp_bind, wp_before_end. intros b Hb _. destruct b; [apply Hbody; [done|done|by apply Hb]|]. apply wp_ret. by apply Hend.
Qed.
End primitives.

(** ** Symbolic execution *)
Lemma existsb_range ch l :
  existsb (Z.eqb ch) l = true -> forallb (fun c => (0 <? c) && (c <? 128)) l = true -> 0 < ch < 128.
Proof.
  intros (c & Hc & ->%Z.eqb_eq)%existsb_exists H. rewrite forallb_forall in H. specialize (H c Hc). bool_to_prop. lia.
Qed.

Lemma len_utf8_ascii_inc ch : ch < 128 -> Z.of_nat (len_utf8 ch) = 1.
Proof. intros H. unfold len_utf8. case_match; bool_to_prop; lia. Qed.

Lemma Ext_facts t q0 q :
  Ext t q0 q ->
  at_boundary t (pos (scanner q)) /\ (pos (scanner q0) <= pos (scanner q))%nat /\ rend q = rend q0
  /\ (pos (scanner q) <= length t)%nat /\ (pn q <= 1)%nat /\ (rend q <= length t)%nat.
Proof.
  intros [[H1 H1'] H2 H3 H4]. pose proof (inv_pos _ _ _ H1) as Hb. split_and!; try done; [apply Hb|apply pn_le].
Qed.

(** What the context knows of positions. *)
Ltac pfacts :=
  repeat match goal with
  | H : _ /\ _ |- _ => destruct H
  | H : ?b = true -> _, E : ?b = true |- _ => specialize (H E)
  | H : ?b = false -> _, E : ?b = false |- _ => specialize (H E)
  | E : existsb (Z.eqb _) _ = true |- _ => apply existsb_range in E; [|reflexivity]
  | H : Ext ?t ?q0 ?q |- _ =>
      lazymatch goal with
      | _ : at_boundary t (pos (scanner q)), _ : rend q = rend q0 |- _ => fail
      | _ => destruct (Ext_facts t q0 q H) as (? & ? & ? & ? & ? & ?)
      end
  end.

Ltac pside := first [eassumption | reflexivity | pfacts; first [eassumption | lia | at_b]].

Ltac ptest E :=
  unfold is_syntax_character, is_class_escape in E; test E.

(** The position [n] characters further. *)
Ltac inc n q H :=
  lazymatch n with
  | Z.neg ?m => eapply (wp_inc_pos _ _ q n (pos (scanner q) - Pos.to_nat m)%nat _ H)
  | Z.pos ?m => eapply (wp_inc_pos _ _ q n (pos (scanner q) + Pos.to_nat m)%nat _ H)
  | Z.of_nat ?m => eapply (wp_inc_pos _ _ q n (pos (scanner q) + m)%nat _ H)
  end.

Ltac pstep :=
  lazymatch goal with
  | |- wp (_ ≫= _) _ _ => apply wp_bind
  | |- wp (_ <$> _) _ _ => apply wp_fmap
  | |- wp (mret _) _ _ => apply wp_ret
  | |- wp (when _ _) _ _ => apply wp_when; [let E := fresh "E" in intros E; ptest E..]
  | |- wp (if _ then _ else _) _ _ => apply wp_if; [let E := fresh "E" in intros E; ptest E..]
  | |- wp get _ _ => apply wp_get
  | |- wp (gets _) _ _ => apply wp_gets
  | |- wp pos_ _ _ => apply wp_pos_
  | |- wp (pos_minus _) _ _ => apply wp_pos_minus
  | H : Ext _ _ ?q |- wp RegExp.char _ ?q => eapply (wp_p_char _ _ q _ H); intros ? ?
  | H : Ext _ _ ?q |- wp (RegExp.char_at _) _ ?q => eapply (wp_p_char_at _ _ q _ _ _ H); [reflexivity|intros ? ?]
  | H : Ext _ _ ?q |- wp (inc_pos (Z.of_nat (len_utf8 ?c))) _ ?q =>
      first [rewrite (len_utf8_ascii_inc c) by (pfacts; lia) | inc (Z.of_nat (len_utf8 c)) q H; [try pside|try pside|try pside|intros ? ? ? ?]]
  | H : Ext _ _ ?q |- wp (inc_pos ?n) _ ?q => inc n q H; [try pside|try pside|try pside|intros ? ? ? ?]
  | H : Ext _ _ ?q |- wp (error_with_args _ _ _ _) _ ?q => eapply (wp_p_error _ _ q _ _ _ _ _ H); intros ? ? ? ?
  | |- wp (RegExp.error _ _ _) _ _ => unfold RegExp.error
  | |- wp (unexpected _ _) _ _ => unfold unexpected
  | |- wp (mixed_operators _ _) _ _ => unfold mixed_operators
  | |- wp (bounded_by_class _ _) _ _ => unfold bounded_by_class
  | |- wp (negated_strings _) _ _ => unfold negated_strings
  | |- wp (suggest ?s _ _) _ _ => unfold suggest; destruct s
  | H : Ext _ _ ?q |- wp (modify (set_pending _)) _ ?q => eapply (wp_set_pending _ _ q _ _ H); intros ? ? ? ?
  | H : Ext _ _ ?q |- wp (modify _) _ ?q =>
      eapply (wp_p_modify _ _ q _ _ H); [reflexivity|reflexivity|reflexivity|intros ? ? ? ?]
  | H : Ext _ _ ?q |- wp (text_range _ _) _ ?q => eapply (wp_text_range _ _ q _ _ _ H); [try pside|try pside|try pside|]
  | H : Ext _ _ ?q |- wp (byte_range _ _) _ ?q => eapply (wp_byte_range _ _ q _ _ _ H); [try pside|try pside|intros ?]
  | |- wp before_end _ _ => apply wp_before_end; intros ? ? ?
  | |- wp (is_class_content_exit _) _ _ => apply wp_is_class_content_exit; intros ? ?
  | |- wp (match ?o with Some _ => _ | None => _ end) _ _ => destruct o
  | |- wp (match ?o with (_, _) => _ end) _ _ => destruct o
  | |- match ?r with inl _ => _ | inr _ => _ end => is_var r; destruct r
  end; cbv beta.

(** Continue after a call with a known specification. *)
Ltac pcall L :=
  lazymatch goal with
  | H : Ext _ _ ?q |- wp _ _ ?q =>
      eapply (wp_p_call _ _ q _ _ _ H); [intros ?; apply L; try pside
        |intros ? ? ? ? ? ?; repeat match goal with u : unit |- _ => destruct u end; cbv beta in *]
  end.

Ltac pfinish :=
  repeat match goal with |- context [match ?r with inl _ => _ | inr _ => _ end] => is_var r; destruct r end;
  pfacts; unfold mu in *;
  repeat match goal with |- _ /\ _ => split end;
  try first [eassumption | done | lia | at_b | congruence | intros; pfacts; lia].

Ltac pstart Hi := pose proof (Ext_refl _ _ Hi).

(** The calls that have a specification. *)
Ltac pcalls := fail.
Ltac prun := repeat first [pstep | pcalls]; try solve [pfinish].

(** A loop whose iterations keep [I]. *)
Ltac pwhile I :=
  lazymatch goal with
  | H : Ext _ _ ?q |- wp (while_before_end _ _) _ ?q =>
      eapply (wp_while _ _ I _ _ _ q H);
      [try solve [pfinish]
      |let l := fresh "l" in let q := fresh "q" in intros l q ? ?; cbv beta in *; prun
      |let l := fresh "l" in let q := fresh "q" in intros l q ? ? ?; cbv beta in *; prun]
  end.
