(* ===== verification/RegExpSpec.v ===== *)
(** * RegExpSpec: specifications of the pieces of a pattern

    Every method moves from [q] to a [q'] with [Ext q q'], and [mu] says whether it consumed something. *)
From stdpp Require Import gmap.
From S2P Require Import Prelude Text Chars SyntaxKind Monad Numerals Keywords Trivia.
From S2P Require Import ScannerState ScannerOps UnicodeProps RegExp ScannerInv ScannerWp ScannerSpec RegExpWp.
Import RegExp.

(** *** Names of groups

    The bytes a name can run over, and the texts whose names have no character of three bytes or more. *)
Definition name_byte (b : byte) : bool := is_identifier_part b || (128 <=? b).
Definition group_names_narrow (t : bytes) : Prop :=
  forall i j b, t !! i = Some 60 -> (i < j)%nat ->
    (forall k c, (i < k < j)%nat -> t !! k = Some c -> name_byte c = true) -> t !! j = Some b -> b < 224.

Lemma inner_byte t p ch n k c : char_at_spec t p ch n -> (p < k < p + n)%nat -> t !! k = Some c -> 128 <= c.
Proof.
  intros Hs Hk Hc. pose proof (cas_inner _ _ _ _ Hs k Hk) as Hb. unfold is_char_boundary in Hb.
  destruct k as [|k]; [lia|]. rewrite Hc in Hb. unfold is_boundary_byte in Hb. bool_to_prop. lia.
Qed.

(** A character of the text that starts with a byte of names. *)
Lemma char_name_bytes t p ch n b :
  char_at_spec t p ch n -> t !! p = Some b -> name_byte b = true ->
  forall k c, (p <= k < p + n)%nat -> t !! k = Some c -> name_byte c = true.
Proof.
  intros Hs Hb Hn k c Hk Hc. destruct (decide (k = p)) as [->|]; [congruence|].
  unfold name_byte. rewrite (proj2 (Z.leb_le _ _)); [apply orb_true_r|]. eapply (inner_byte t p ch n k); [done|lia|done].
Qed.

Lemma name_step t p b :
  valid_utf8 t -> at_boundary t p -> t !! p = Some b -> b < 224 -> is_identifier_part b = true ->
  at_boundary t (p + len_utf8 b) /\ forall k c, (p <= k < p + len_utf8 b)%nat -> t !! k = Some c -> name_byte c = true.
Proof.
  intros Hv [Hp Hle] Hb Hlt Hid.
  destruct (next_char_at t p Hv Hp (lookup_lt_Some _ _ _ Hb)) as (ch & n & Hn & Hs).
  assert (n = len_utf8 b) as <-.
  { rewrite (drop_S _ _ _ Hb) in Hn. cbn in Hn. unfold len_utf8.
    destruct (b <? 128) eqn:E; [by injection Hn|]. rewrite (proj2 (Z.ltb_lt _ _) Hlt) in Hn. injection Hn as _ <-.
    by rewrite (proj2 (Z.ltb_lt b 2048)) by lia. }
  split; [destruct Hs; by split|]. eapply char_name_bytes; [done..|]. unfold name_byte. by rewrite Hid.
Qed.

Lemma name_first t p first size :
  valid_utf8 t -> at_boundary t p -> next_char (drop p t) = Some (first, size) -> is_identifier_start first = true ->
  at_boundary t (p + size) /\ forall k c, (p <= k < p + size)%nat -> t !! k = Some c -> name_byte c = true.
Proof.
  intros Hv Hp Hn Hid. destruct (next_char_boundary _ _ _ _ Hv Hp Hn) as (Hb & _ & Hlt). split; [done|].
  destruct Hp as [Hp _]. destruct (next_char_at t p Hv Hp Hlt) as (ch & n & Hn' & Hs).
  rewrite Hn in Hn'. injection Hn' as <- <-. destruct (lookup_lt_is_Some_2 t p Hlt) as [b Hb'].
  eapply char_name_bytes; [done..|]. unfold name_byte. destruct (128 <=? b) eqn:E; [apply orb_true_r|].
  apply Z.leb_gt in E. rewrite (drop_S _ _ _ Hb') in Hn. cbn in Hn. rewrite (proj2 (Z.ltb_lt _ _) E) in Hn.
  injection Hn as -> _. by rewrite ascii_start_is_part.
Qed.

Section spec.
Context (t : bytes) (Hv : valid_utf8 t).

Abbreviation e := (length t).
Abbreviation PInv := (PInv t).
Abbreviation read := (read t e).
Abbreviation Ext := (Ext t).
Abbreviation mu := (mu t).
Abbreviation ppos q := (pos (scanner q)).

Lemma scan_expected_char_ok ch q :
  PInv q -> 0 < ch < 128 -> wp (scan_expected_char ch) (fun _ q' => Ext q q' /\ (mu q' <= mu q)%nat) q.
Proof.
  intros Hi Hc. pstart Hi. unfold scan_expected_char.
  assert (len_utf8 ch = 1%nat) as -> by (unfold len_utf8; case_match; lia). prun.
Qed.

(** Updates of the scanner's token. *)
Lemma wp_on_modify q0 q (f : Scanner -> Scanner) (Q : unit -> RegExpParser -> Prop) :
  Ext q0 q -> (ScannerInv.Inv t e (scanner q) -> ScannerInv.Inv t e (f (scanner q))) ->
  pos (f (scanner q)) = ppos q -> keeps (scanner q) (f (scanner q)) ->
  (forall q', Ext q0 q' -> ppos q' = ppos q -> pn q' = pn q -> Q tt q') -> wp (on_scanner (modify f)) Q q.
Proof.
  intros He Hi Hp Hk HQ. apply wp_on_scanner, wp_modify, HQ; [|done|done]. pfacts.
  apply Ext_scanner; [done|by eapply Hi, ext_scanner|lia|done].
Qed.

Lemma wp_set_range_here q0 q start (Q : unit -> RegExpParser -> Prop) :
  Ext q0 q -> at_boundary t start -> (start <= ppos q)%nat ->
  (forall q', Ext q0 q' -> ppos q' = ppos q -> pn q' = pn q -> Q tt q') ->
  wp (on_scanner (set_token_value_from_range start (ppos q))) Q q.
Proof. intros He Hb Hle HQ. eapply wp_on_modify; [done| |done|done|done]. pfacts. intros []. by split. Qed.

Lemma wp_set_value_here q0 q v (Q : unit -> RegExpParser -> Prop) :
  Ext q0 q -> (forall q', Ext q0 q' -> ppos q' = ppos q -> pn q' = pn q -> Q tt q') ->
  wp (on_scanner (set_token_value v)) Q q.
Proof. intros He HQ. eapply wp_on_modify; [done| |done|done|done]. intros []. by split. Qed.

Lemma wp_set_start_here q0 q p (Q : unit -> RegExpParser -> Prop) :
  Ext q0 q -> at_boundary t p -> (forall q', Ext q0 q' -> ppos q' = ppos q -> pn q' = pn q -> Q tt q') ->
  wp (on_scanner (modify (set_token_start p))) Q q.
Proof. intros He Hb HQ. eapply wp_on_modify; [done| |done|done|done]. intros []. by split. Qed.

Lemma quantifier_digits_ok q :
  PInv q ->
  wp RegExp.scan_digits
    (fun _ q' => Ext q q' /\ (mu q' <= mu q)%nat /\ (ppos q' = ppos q \/ at_boundary t (ppos q' - 1))) q.
Proof.
  intros Hi. pstart Hi. unfold RegExp.scan_digits. prun.
  pwhile (fun (_ : unit) q' => (mu q' <= mu q)%nat /\ (ppos q' = ppos q \/ at_boundary t (ppos q' - 1))).
  1, 3: pfacts; eapply wp_set_range_here; [eassumption|pside|pside|intros q2 ? E1 ?]; rewrite E1; pfinish.
  pfacts. split; [done|]. split; [|pfinish]. split; [pfinish|right]. pside.
Qed.

Ltac pcalls ::= first [pcall scan_expected_char_ok | pcall quantifier_digits_ok].

Lemma scan_word_characters_ok q :
  PInv q -> wp scan_word_characters (fun _ q' => Ext q q' /\ (mu q' <= mu q)%nat) q.
Proof.
  intros Hi. pstart Hi. unfold scan_word_characters. prun.
  pwhile (fun (_ : unit) q' => (mu q' <= mu q)%nat).
Qed.

Lemma decode_rune_at_pos_ok q0 q (Q : option (Prelude.char * nat) -> RegExpParser -> Prop) :
  Ext q0 q -> (ppos q < rend q)%nat ->
  (forall ch size, at_boundary t (ppos q + size) -> (1 <= size)%nat -> Q (Some (ch, size)) q) ->
  wp decode_rune_at_pos Q q.
Proof.
  intros He Hlt HQ. pfacts. unfold decode_rune_at_pos. pstep. pstep. pstep; [lia|].
  rewrite (inv_text _ _ _ (ext_scanner _ _ _ He)). pstep; [lia|]. destruct (drop (ppos q) t) as [|b r] eqn:E3.
  { apply (f_equal length) in E3. rewrite length_drop in E3. cbn in E3. lia. }
  destruct H as [Hb _]. destruct (next_char_at t (ppos q) Hv Hb) as (ch & size & Hn & Hs); [lia|].
  unfold decode_valid. rewrite <- E3, Hn, (cas_scalar _ _ _ _ Hs), (cas_take _ _ _ _ Hs).
  rewrite bool_decide_eq_true_2 by done. cbn [andb default]. destruct Hs. apply HQ; [by split|lia].
Qed.

Lemma scan_source_character_ok q :
  PInv q ->
  wp scan_source_character
    (fun _ q' => Ext q q' /\ (mu q' <= mu q)%nat /\ ((ppos q < rend q)%nat -> (mu q' < mu q)%nat)) q.
Proof.
  intros Hi. pstart Hi. unfold scan_source_character. do 3 pstep; [prun; pfinish|]. pstep. pstep.
  pstep; [pose proof (eq_refl (pn q)) as Ep; unfold pn at 1 in Ep; destruct (pending_low_surrogate q); do 2 try pstep|]; try pstep.
  all: (eapply decode_rune_at_pos_ok; [eassumption|pside|intros ch size ? ?]); prun; pfinish.
Qed.

Ltac pcalls ::= first [pcall scan_expected_char_ok | pcall quantifier_digits_ok | pcall scan_word_characters_ok
  | pcall scan_source_character_ok].

Lemma wp_p_token_value q0 q (Q : bytes -> RegExpParser -> Prop) :
  Ext q0 q -> (forall v, Q v q) -> wp (on_scanner token_value) Q q.
Proof.
  intros He HQ. apply wp_on_scanner, (wp_token_value t e); [by eapply ext_scanner|]. intros v. rewrite set_scanner_id. apply HQ.
Qed.

Lemma decimal_escape_ok q :
  PInv q ->
  wp RegExp.scan_decimal_escape (fun r q' => Ext q q' /\ (mu q' <= mu q)%nat /\ (r = false -> ppos q' = ppos q)) q.
Proof.
  intros Hi. pstart Hi. unfold RegExp.scan_decimal_escape. prun.
  eapply wp_p_token_value; [eassumption|]. intros v. prun.
Qed.

(** The names of groups. *)
Lemma name_rest_ok p q0 q (Q : unit -> RegExpParser -> Prop) :
  group_names_narrow t -> Ext q0 q -> (p < ppos q)%nat -> t !! p = Some 60 ->
  (forall k c, (p < k < ppos q)%nat -> t !! k = Some c -> name_byte c = true) ->
  (forall q', Ext q0 q' -> (ppos q <= ppos q')%nat -> (mu q' <= mu q)%nat -> Q tt q') ->
  wp (while_before_end (fun _ =>
    ch ← RegExp.char;
    if is_identifier_part ch then inc_pos (Z.of_nat (len_utf8 ch)) ;; mret (inl tt) else mret (inr tt)) tt) Q q.
Proof.
  intros Hn He Hlt Hp Hall HQ.
  eapply (wp_while _ _ (fun _ q' => (ppos q <= ppos q')%nat /\ (mu q' <= mu q)%nat /\
    forall k c, (p < k < ppos q')%nat -> t !! k = Some c -> name_byte c = true)); [done|done| |].
  { intros [] q1 H1 (? & ? & ?). by apply HQ. }
  intros _ q1 H1 (Hle & Hmu & Hall1) H2. pstep. pstep. pstep; [|pstep; by apply HQ].
  assert (t !! ppos q1 = Some ch) as Hch.
  { destruct H as [[_ Hch]|[_ ->]]; [by rewrite Nat.add_0_r in Hch|done]. }
  assert (ch < 224) as Hch' by (eapply (Hn p (ppos q1)); done || lia).
  destruct (name_step t (ppos q1) ch Hv) as [Hb Hall']; [pside|done..|].
  assert (1 <= len_utf8 ch)%nat by (pose proof (len_utf8_pos ch); lia).
  apply wp_bind. inc (Z.of_nat (len_utf8 ch)) q1 H1; [pside..|intros q2 H3 H4 H5]. pstep.
  split; [done|]. split; [|pfinish]. split; [lia|]. split; [pfinish|].
  intros k c Hk Hc. destruct (decide (k < ppos q1)%nat) as [|]; [apply (Hall1 k)|apply (Hall' k)]; (done || lia).
Qed.

Lemma scan_group_name_ok p is_reference q :
  group_names_narrow t -> PInv q -> read p 0 60 -> ppos q = S p ->
  wp (scan_group_name is_reference) (fun _ q' => Ext q q' /\ (mu q' <= mu q)%nat) q.
Proof.
  intros Hn Hi Hr Hp. destruct (read_ascii t e Hv _ _ _ Hr) as (_ & _ & _ & Hlt); [lia..|].
  rewrite Nat.add_0_r in Hlt. pstart Hi. unfold scan_group_name. prun.
  eapply wp_set_start_here; [eassumption|pside|intros q1 H1 Hp1 Hpn1]. prun.
  rewrite (inv_text _ _ _ (ext_scanner _ _ _ H1)), slice_from_at by pside. apply wp_ret.
  destruct (next_char (drop (ppos q) t)) as [[first size]|] eqn:Ec; [|prun].
  apply wp_if; intros E; bool_to_prop; [prun|].
  destruct (name_first t (ppos q) first size Hv) as [Hb Hall]; [pside|done|done|].
  prun. eapply (name_rest_ok p); [done|eassumption|pfacts; lia|done| |intros q2 ? ? ?].
  { intros k c Hk Hc. eapply Hall; [|done]. lia. }
  prun. eapply wp_set_value_here; [eassumption|intros q3 ? ? ?]. prun.
Qed.
(** *** Escapes *)
Context (Hesc : escapes_ascii t).

(** The escape whose backslash is at [p]. *)
Lemma scan_character_escape_ok p q0 q atom (Q : bytes -> RegExpParser -> Prop) :
  Ext q0 q -> ppos q = S p -> read p 0 92 -> (ppos q0 <= p)%nat ->
  (forall r q', Ext q0 q' -> (p < ppos q')%nat -> Q r q') -> wp (scan_character_escape atom) Q q.
Proof.
  intros He Hp Hr H0 HQ. destruct (read_ascii t e Hv _ _ _ Hr) as (Hb & _); [lia..|].
  unfold scan_character_escape. prun; try solve [apply HQ; pfinish].
  eapply wp_scanner; [eassumption|..].
  { intros Hi. apply (scan_escape_sequence_ok t e Hv (at_boundary_len t) Hesc); [done|pfinish]. }
  intros r q2 ? ? ? ?. apply HQ; pfinish.
Qed.

Lemma scan_character_escape_bytes_ok p q0 q atom (Q : bytes -> RegExpParser -> Prop) :
  Ext q0 q -> ppos q = S p -> read p 0 92 -> (ppos q0 <= p)%nat ->
  (forall r q', Ext q0 q' -> (p < ppos q')%nat -> Q r q') -> wp (scan_character_escape_bytes atom) Q q.
Proof.
  intros He Hp Hr H0 HQ. destruct (read_ascii t e Hv _ _ _ Hr) as (Hb & _); [lia..|].
  unfold scan_character_escape_bytes. prun; try solve [eapply scan_character_escape_ok; eassumption].
  all: eapply wp_set_pos_; [eassumption|pside|pside|intros q1 ? ? ?]; pstep.
  all: eapply wp_scanner; [eassumption|intros Hi; apply (scan_unicode_escape_ok t e Hv (at_boundary_len t)); [done|pside]|].
  all: intros r q2 ? ? ? ?; prun; try solve [apply HQ; pfinish].
Qed.

Section suggestions.
Context `{SpellingSuggestions}.

Lemma scan_property_value_ok name q :
  PInv q -> wp (scan_property_value name) (fun _ q' => Ext q q' /\ (mu q' <= mu q)%nat) q.
Proof. intros Hi. pstart Hi. unfold scan_property_value. prun. Qed.

Lemma check_property_name_ok name start q :
  PInv q -> wp (check_property_name name start) (fun _ q' => Ext q q' /\ ppos q' = ppos q /\ pn q' = pn q) q.
Proof. intros Hi. pstart Hi. unfold check_property_name. prun. Qed.

Lemma check_property_name_or_value_ok name start b q :
  PInv q -> wp (check_property_name_or_value name start b) (fun _ q' => Ext q q' /\ ppos q' = ppos q /\ pn q' = pn q) q.
Proof. intros Hi. pstart Hi. unfold check_property_name_or_value. prun. Qed.

Ltac pcalls ::= first [pcall scan_expected_char_ok | pcall quantifier_digits_ok | pcall scan_word_characters_ok
  | pcall scan_source_character_ok | pcall decimal_escape_ok | pcall scan_property_value_ok
  | pcall check_property_name_ok | pcall check_property_name_or_value_ok].

Lemma scan_character_class_escape_ok q :
  PInv q ->
  wp scan_character_class_escape
    (fun r q' => Ext q q' /\ (mu q' <= mu q)%nat /\ (r = false -> ppos q' = ppos q /\ pn q' = pn q)) q.
Proof. intros Hi. pstart Hi. unfold scan_character_class_escape. prun. Qed.

Context (Hnar : group_names_narrow t).

Ltac pcalls ::= first [pcall scan_expected_char_ok | pcall quantifier_digits_ok | pcall scan_word_characters_ok
  | pcall scan_source_character_ok | pcall decimal_escape_ok | pcall scan_property_value_ok
  | pcall check_property_name_ok | pcall check_property_name_or_value_ok
  | match goal with R : read ?p 0 ?c, _ : ?c = 60 |- wp (scan_group_name _) _ _ => pcall (scan_group_name_ok p) end
  | pcall scan_character_class_escape_ok ].

Lemma scan_atom_escape_ok p q0 q (Q : unit -> RegExpParser -> Prop) :
  Ext q0 q -> ppos q = S p -> read p 0 92 -> (ppos q0 <= p)%nat ->
  (forall q', Ext q0 q' -> (p < ppos q')%nat -> Q tt q') -> wp scan_atom_escape Q q.
Proof.
  intros He Hp Hr H0 HQ. unfold scan_atom_escape. prun; try solve [apply HQ; pfinish].
  eapply (scan_character_escape_ok p); [eassumption|pside..|intros r1 q2 ? ?]. prun. apply HQ; pfinish.
Qed.

(** *** Classes *)
Lemma scan_class_atom_ok q :
  PInv q -> (ppos q < rend q)%nat ->
  wp scan_class_atom (fun _ q' => Ext q q' /\ (mu q' < mu q)%nat) q.
Proof.
  intros Hi Hlt. pstart Hi. unfold scan_class_atom. prun.
  eapply (scan_character_escape_bytes_ok (ppos q)); [eassumption|pside..|intros r1 q2 ? ?]. pfinish.
Qed.

Ltac pcalls ::= first [pcall scan_expected_char_ok | pcall scan_class_atom_ok].

Lemma scan_class_range_ok l q :
  PInv q -> (ppos q < rend q)%nat ->
  wp (scan_class_range l) (fun r q' => Ext q q' /\ match r with inl _ => (mu q' < mu q)%nat | inr _ => True end) q.
Proof. intros Hi Hlt. pstart Hi. unfold scan_class_range. prun. Qed.

Ltac pcalls ::= first [pcall scan_expected_char_ok | pcall scan_class_range_ok].

Lemma scan_class_ranges_ok q : PInv q -> wp scan_class_ranges (fun _ q' => Ext q q' /\ True) q.
Proof.
  intros Hi. pstart Hi. unfold scan_class_ranges. prun.
  all: pwhile (fun (_ : unit) (_ : RegExpParser) => True).
Qed.

(** *** Classes of the unicode sets mode *)
Lemma two_chars_at_pos_ok q0 q (Q : option (byte * byte) -> RegExpParser -> Prop) :
  Ext q0 q ->
  (forall two, (is_operator two = true -> at_boundary t (ppos q + 2)) -> Q two q) ->
  wp two_chars_at_pos Q q.
Proof.
  intros He HQ. pfacts. unfold two_chars_at_pos. pstep. pstep. rewrite (inv_text _ _ _ (ext_scanner _ _ _ He)).
  pstep; [|pstep; by apply HQ].
  destruct (lookup_lt_is_Some_2 t (ppos q)) as [b0 Hb0]; [lia|].
  destruct (lookup_lt_is_Some_2 t (ppos q + 1)) as [b1 Hb1]; [lia|].
  rewrite Hb0, Hb1. apply wp_bind, wp_ret, wp_bind, wp_ret, wp_ret, HQ. cbn [is_operator]. intros Ho.
  test Ho. destruct (at_boundary_ascii t (ppos q + 1) b1 Hv Hb1) as [_ Hb]; [lia|].
  by rewrite <- Nat.add_assoc in Hb.
Qed.

Lemma next_is_ok ch q0 q (Q : bool -> RegExpParser -> Prop) :
  Ext q0 q -> (forall b : bool, (b = true -> read (ppos q) 1 ch) -> Q b q) -> wp (next_is ch) Q q.
Proof. intros He HQ. unfold next_is. prun; apply HQ; [intros <-%Z.eqb_eq; done|done]. Qed.

Lemma scan_class_set_source_character_ok ch q :
  PInv q -> read (ppos q) 0 ch -> (ppos q < rend q)%nat ->
  wp (scan_class_set_source_character ch) (fun _ q' => Ext q q' /\ (mu q' < mu q)%nat) q.
Proof. intros Hi Hr Hlt. pstart Hi. unfold scan_class_set_source_character. prun. pcall scan_source_character_ok. pfinish. Qed.

Lemma scan_class_set_character_ok q :
  PInv q -> (ppos q < rend q)%nat \/ read (ppos q) 0 92 ->
  wp scan_class_set_character (fun _ q' => Ext q q' /\ (mu q' < mu q)%nat) q.
Proof.
  intros Hi Hlt. pstart Hi. unfold scan_class_set_character. prun.
  - eapply (scan_character_escape_bytes_ok (ppos q)); [eassumption|pside..|intros r q2 ? ?]. pfinish.
  - eapply next_is_ok; [eassumption|intros b Hb].
    destruct Hlt as [Hlt|Hlt]; [|by pose proof (read_fun _ _ _ _ _ _ Hlt H1)].
    prun. pcall scan_class_set_source_character_ok. pfinish.
Qed.

Ltac pcalls ::= first [pcall scan_expected_char_ok | pcall scan_class_set_character_ok].

Lemma scan_class_string_disjunction_contents_ok q :
  PInv q -> wp scan_class_string_disjunction_contents (fun _ q' => Ext q q' /\ (mu q' <= mu q)%nat) q.
Proof.
  intros Hi. pstart Hi. unfold scan_class_string_disjunction_contents. prun.
  pwhile (fun (_ : nat) q' => (mu q' <= mu q)%nat).
Qed.

Section class_set.
Context (operand : MR bytes) (d : nat).
Hypothesis (Hoperand : forall q, PInv q -> (ppos q < rend q)%nat -> (e - ppos q < d)%nat ->
  wp operand (fun _ q' => Ext q q' /\ (mu q' < mu q)%nat) q).

Lemma scan_class_set_operator_ok type ch q :
  PInv q -> read (ppos q) 0 ch ->
  wp (scan_class_set_operator type ch) (fun _ q' => Ext q q' /\ (mu q' <= mu q)%nat) q.
Proof. intros Hi Hr. pstart Hi. unfold scan_class_set_operator. prun. destruct type; prun. Qed.

Ltac pcalls ::= first [pcall scan_expected_char_ok | pcall scan_class_set_operator_ok | pcall Hoperand].

Lemma scan_class_set_sub_expression_ok type q :
  PInv q -> (e - ppos q < d)%nat ->
  wp (scan_class_set_sub_expression operand type) (fun _ q' => Ext q q' /\ (mu q' <= mu q)%nat) q.
Proof.
  intros Hi Hd. pstart Hi. unfold scan_class_set_sub_expression. prun.
  pwhile (fun (_ : bool) q' => (mu q' <= mu q)%nat).
Qed.

Lemma next_operand_ok l q :
  PInv q -> (e - ppos q < d)%nat ->
  wp (next_operand operand l) (fun r q' => Ext q q' /\ (mu q' <= mu q)%nat /\ match r with inl _ => (mu q' < mu q)%nat | inr _ => True end) q.
Proof.
  intros Hi Hd. pstart Hi. unfold next_operand. prun.
  eapply two_chars_at_pos_ok; [eassumption|intros two Htwo]. prun.
Qed.

Lemma scan_class_set_range_ok b l q :
  PInv q -> (ppos q < rend q)%nat -> (e - ppos q < d)%nat ->
  wp (scan_class_set_range operand b l) (fun _ q' => Ext q q' /\ (mu q' <= mu q)%nat) q.
Proof. intros Hi Hlt Hd. pstart Hi. unfold scan_class_set_range. prun. Qed.

Ltac pcalls ::= first [pcall scan_expected_char_ok | pcall next_operand_ok
  | pcall scan_class_set_range_ok | pcall scan_class_set_sub_expression_ok | pcall Hoperand].

Lemma scan_class_union_step_ok b l q :
  PInv q -> (e - ppos q < d)%nat ->
  wp (scan_class_union_step operand b l)
    (fun r q' => Ext q q' /\ match r with inl _ => (mu q' < mu q)%nat | inr _ => True end) q.
Proof.
  intros Hi Hd. pstart Hi. unfold scan_class_union_step. prun.
Qed.

Ltac pcalls ::= first [pcall scan_expected_char_ok | pcall scan_class_union_step_ok
  | pcall scan_class_set_sub_expression_ok | pcall Hoperand
  | eapply next_is_ok; [eassumption|intros ? ?]].

Lemma scan_class_set_expression_ok q :
  PInv q -> (e - ppos q < d)%nat ->
  wp (scan_class_set_expression operand) (fun _ q' => Ext q q' /\ True) q.
Proof.
  intros Hi Hd. pstart Hi. unfold scan_class_set_expression, finish_class. prun.
  all: eapply two_chars_at_pos_ok; [eassumption|intros two Htwo]; prun.
  all: pwhile (fun (_ : operands) (_ : RegExpParser) => True).
Qed.
End class_set.

Ltac pcalls ::= first [pcall scan_expected_char_ok | pcall scan_class_set_character_ok
  | pcall scan_character_class_escape_ok | pcall scan_class_string_disjunction_contents_ok].

Lemma scan_class_set_operand_ok fuel q :
  PInv q -> (ppos q < rend q)%nat -> (e - ppos q < fuel)%nat ->
  wp (scan_class_set_operand fuel) (fun _ q' => Ext q q' /\ (mu q' < mu q)%nat) q.
Proof.
  revert q. induction fuel as [|fuel IH]; intros q Hi Hlt Hf; [lia|]. pstart Hi. cbn [scan_class_set_operand].
  prun; try solve [left; pside].
  pcall (scan_class_set_expression_ok (scan_class_set_operand fuel) fuel IH). prun.
Qed.
End suggestions.
End spec.

(** * Patterns are read without a panic

    Quantifiers, groups, alternatives and the whole run of the parser, on the specifications of RegExpSpec. *)
Import RegExp.

Lemma check_flag_availability_ok t e f p n s :
  ScannerInv.Inv t e s -> wp (check_regular_expression_flag_availability f p n) (fun _ s' => ScannerInv.Adv t e true s s' /\ pos s' = pos s) s.
Proof.
  intros Hi. start Hi. unfold check_regular_expression_flag_availability. steps.
  destruct (reg_exp_flag_first_available_language_version f) as [[v name]|]; steps; finish.
Qed.

Section total.
Context (t : bytes) (Hv : valid_utf8 t) (Hesc : escapes_ascii t) (Hnar : group_names_narrow t).
Context `{SpellingSuggestions}.

Abbreviation e := (length t).
Abbreviation PInv := (PInv t).
Abbreviation read := (read t e).
Abbreviation Ext := (Ext t).
Abbreviation mu := (mu t).
Abbreviation ppos q := (pos (scanner q)).

(** *** Groups *)
Lemma modifier_flag_ok ch p size flags q0 q (Q : Z -> RegExpParser -> Prop) :
  Ext q0 q -> (forall r q', Ext q0 q' -> ppos q' = ppos q -> pn q' = pn q -> Q r q') ->
  wp (modifier_flag ch p size flags) Q q.
Proof.
  intros He HQ. unfold modifier_flag. prun; try solve [apply HQ; pfinish].
  eapply wp_scanner; [eassumption|intros Hi; by apply check_flag_availability_ok|].
  intros u q' ? ? ? ?. prun. apply HQ; pfinish.
Qed.

Lemma scan_pattern_modifiers_ok flags q :
  PInv q -> wp (scan_pattern_modifiers flags) (fun _ q' => Ext q q' /\ (mu q' <= mu q)%nat) q.
Proof.
  intros Hi. pstart Hi. unfold scan_pattern_modifiers. pstep. pstep. unfold loop_fuel.
  rewrite (inv_text _ _ _ (ext_scanner _ _ _ H0)).
  assert (forall fuel flags q1, (e - ppos q1 < fuel)%nat -> Ext q q1 -> (mu q1 <= mu q)%nat ->
    wp (scan_pattern_modifiers_loop fuel flags) (fun _ q' => Ext q q' /\ (mu q' <= mu q)%nat) q1) as Hloop.
  { intros fuel. induction fuel as [|fuel IH]; intros fl q1 Hf H1 Hmu; [lia|]. cbn [scan_pattern_modifiers_loop].
    do 3 pstep; [prun|]. do 4 pstep. pstep. rewrite (inv_text _ _ _ (ext_scanner _ _ _ H1)), slice_from_at by pside.
    apply wp_ret. destruct (next_char (drop (ppos q1) t)) as [[ch size]|] eqn:Ec; [|prun].
    destruct (next_char_boundary t (ppos q1) ch size Hv) as (Hb & Hs & Hlt); [pside|done|].
    pstep; [prun|]. pstep. eapply modifier_flag_ok; [eassumption|intros fl' q2 ? ? ?]. prun. apply IH; pfinish. }
  apply Hloop; pfinish.
Qed.

Lemma count_group_ok q : PInv q -> wp count_group (fun _ q' => Ext q q' /\ ppos q' = ppos q /\ pn q' = pn q) q.
Proof. intros Hi. pstart Hi. unfold count_group. prun. Qed.

Ltac pcalls ::= first [ pcall (scan_expected_char_ok t) | pcall scan_pattern_modifiers_ok | pcall count_group_ok
  | match goal with R : ScannerInv.read _ _ ?p 0 ?c, _ : ?c = 60 |- wp (scan_group_name _) _ _ => pcall (scan_group_name_ok t Hv p) end ].

Lemma scan_group_start_ok q :
  PInv q -> wp scan_group_start (fun _ q' => Ext q q' /\ (mu q' <= mu q)%nat) q.
Proof. intros Hi. pstart Hi. unfold scan_group_start. prun. Qed.

(** *** Quantifiers *)
Lemma scan_quantifier_suffix_ok start b q0 q (Q : bool -> RegExpParser -> Prop) :
  Ext q0 q -> at_boundary t (ppos q + 1) -> (forall r q', Ext q0 q' -> (ppos q < ppos q')%nat -> Q r q') ->
  wp (scan_quantifier_suffix start b) Q q.
Proof. intros He Hb HQ. unfold scan_quantifier_suffix. prun; apply HQ; pfinish. Qed.

Lemma scan_braces_end_ok start b q0 q (Q : bool -> RegExpParser -> Prop) :
  Ext q0 q -> at_boundary t (ppos q - 1) -> (ppos q0 < ppos q)%nat ->
  (forall r q', Ext q0 q' -> (ppos q <= ppos q')%nat -> Q r q') -> wp (scan_braces_end start b) Q q.
Proof.
  intros He Hb Hlt HQ. unfold scan_braces_end. prun; try solve [apply HQ; pfinish].
  all: eapply scan_quantifier_suffix_ok; [eassumption|pside|intros r q2 ? ?]; apply HQ; pfinish.
Qed.

Ltac pcalls ::= first [ pcall (scan_expected_char_ok t) | pcall (quantifier_digits_ok t Hv)
  | eapply (wp_p_token_value t); [eassumption|intros ?] ].

Lemma scan_braces_ok start b q :
  PInv q -> read (ppos q) 0 123 ->
  wp (scan_braces start b) (fun _ q' => Ext q q' /\ (mu q' < mu q)%nat) q.
Proof.
  intros Hi Hr. pstart Hi. unfold scan_braces. prun.
  all: eapply scan_braces_end_ok; [eassumption| |pfacts; lia|intros; pfinish].
  all: pfacts; repeat match goal with D : _ \/ at_boundary _ _ |- _ => destruct D end; pside.
Qed.

Lemma scan_class_ok q :
  PInv q -> read (ppos q) 0 91 -> wp scan_class (fun _ q' => Ext q q' /\ (mu q' < mu q)%nat) q.
Proof.
  intros Hi Hr. pstart Hi. unfold scan_class. prun; rewrite ?(inv_text _ _ _ (ext_scanner _ _ _ H0)).
  - pcall (scan_class_set_expression_ok t Hv (scan_class_set_operand (S e)) (S e)).
    { intros q1 ? ? ?. by apply scan_class_set_operand_ok. }
    prun.
  - pcall (scan_class_ranges_ok t Hv Hesc). prun.
Qed.

(** *** Alternatives *)
Lemma scan_atom_escape_call_ok p q0 q (Q : unit -> RegExpParser -> Prop) :
  read p 0 92 -> Ext q0 q -> ppos q = (p + 1)%nat -> (ppos q0 <= p)%nat ->
  (forall q', Ext q0 q' -> (p < ppos q')%nat -> Q tt q') -> wp scan_atom_escape Q q.
Proof. intros Hr He Hp H0 HQ. eapply (scan_atom_escape_ok t Hv Hesc Hnar p); (done || lia). Qed.

Section alternatives.
Context (scan_group : MR unit) (d : nat).
Hypothesis (Hgroup : forall q, PInv q -> (e - ppos q < d)%nat -> wp scan_group (fun _ q' => Ext q q' /\ True) q).

Ltac pcalls ::= first [ pcall (scan_expected_char_ok t) | pcall scan_group_start_ok | pcall Hgroup | pcall scan_braces_ok
  | pcall scan_class_ok | pcall (scan_source_character_ok t Hv)
  | match goal with R : ScannerInv.read _ _ ?p 0 ?c, _ : ?c = 92 |- wp scan_atom_escape _ _ =>
      eapply (scan_atom_escape_call_ok p); [pside|eassumption|pside|pside|intros ? ? ?] end
  | eapply scan_quantifier_suffix_ok; [eassumption|pside|intros ? ? ? ?] ].

Lemma scan_term_ok b l q :
  PInv q -> (ppos q < rend q)%nat -> (e - ppos q < S d)%nat ->
  wp (scan_term scan_group b l)
    (fun r q' => Ext q q' /\ match r with inl _ => (mu q' < mu q)%nat | inr _ => True end) q.
Proof.
  intros Hi Hlt Hd. pstart Hi. unfold scan_term. prun.
Qed.

Lemma scan_alternative_ok b q :
  PInv q -> (e - ppos q < S d)%nat -> wp (scan_alternative scan_group b) (fun _ q' => Ext q q' /\ True) q.
Proof.
  intros Hi Hd. pstart Hi. unfold scan_alternative. prun.
  eapply (wp_while _ _ (fun _ _ => True)); [eassumption|done|intros; prun|intros l q1 ? _ ?].
  pcall scan_term_ok. pstep; prun.
Qed.

Lemma scan_alternatives_ok b q :
  PInv q -> (e - ppos q < S d)%nat -> wp (scan_alternatives scan_group b) (fun _ q' => Ext q q' /\ True) q.
Proof.
  intros Hi Hd. pstart Hi. unfold scan_alternatives.
  eapply (wp_p_loop _ _ (fun _ _ => True)); [eassumption|done|intros l q1 H1 _].
  prun. pcall scan_alternative_ok. prun.
Qed.
End alternatives.

(** Groups nest less deep than the text is long. *)
Lemma scan_disjunction_ok fuel b q :
  PInv q -> (e - ppos q < fuel)%nat -> wp (scan_disjunction fuel b) (fun _ q' => Ext q q' /\ True) q.
Proof.
  revert b q. induction fuel as [|fuel IH]; intros b q Hi Hf; [lia|]. cbn [scan_disjunction].
  apply (scan_alternatives_ok _ fuel); [|done|done]. intros q1 Hi1 Hf1. by apply IH.
Qed.

(** *** The run of the parser *)
Lemma for_each_ok {A} (f : A -> MR unit) l q0 q :
  (forall x q, Ext q0 q -> wp (f x) (fun _ q' => Ext q0 q') q) -> Ext q0 q ->
  wp (for_each f l) (fun _ q' => Ext q0 q') q.
Proof.
  intros Hf. revert q. induction l as [|x l IH]; intros q He; [by apply wp_ret|]. cbn [for_each].
  apply wp_bind. eapply wp_mono; [by apply Hf|]. intros u q1 H1. by apply IH.
Qed.

Lemma run_ok q : PInv q -> wp run (fun _ q' => Ext q q') q.
Proof.
  intros Hi. pstart Hi. unfold run. prun. rewrite (inv_text _ _ _ (ext_scanner _ _ _ H1)).
  pcall (scan_disjunction_ok (S e)). prun.
  eapply wp_mono; [eapply for_each_ok; [|eassumption]; intros r q2 ?; unfold check_reference; prun|].
  intros u q2 H17; cbv beta in H17. prun.
  eapply for_each_ok; [intros r q3 ?; unfold check_decimal_escape; prun|eassumption].
Qed.
End total.
