(* ===== verification/RegExpThm.v ===== *)
(** * RegExpThm: rescanning a slash as a regular expression literal

    The loop over the body finds exactly the literals of the lexical grammar; rescanning ends with a token
    [/ body / flags] that starts where the slash does. *)
From stdpp Require Import gmap.
From S2P Require Import Prelude Text Chars SyntaxKind Monad Numerals Keywords Trivia.
From S2P Require Import ScannerState ScannerOps UnicodeProps RegExp ScannerInv ScannerWp RegExpWp RegExpSpec.
Import RegExp.

(** ** The lexical grammar of the body, over bytes *)
Definition non_terminator (b : byte) : Prop := is_line_break b = false.

Inductive class_chars : bytes -> Prop :=
  | class_nil : class_chars []
  | class_char b r : non_terminator b -> b <> 92 -> b <> 93 -> class_chars r -> class_chars (b :: r)
  | class_escape b r : non_terminator b -> class_chars r -> class_chars (92 :: b :: r).

Inductive body_chars : bytes -> Prop :=
  | body_nil : body_chars []
  | body_char b r : non_terminator b -> b <> 92 -> b <> 47 -> b <> 91 -> body_chars r -> body_chars (b :: r)
  | body_escape b r : non_terminator b -> body_chars r -> body_chars (92 :: b :: r)
  | body_class cs r : class_chars cs -> body_chars r -> body_chars (91 :: cs ++ 93 :: r).

(** What may follow in a state of the loop, up to the slash that ends the literal. *)
Definition rest_of_body (in_class : bool) (s : bytes) : Prop :=
  if in_class then exists cs r, s = cs ++ 93 :: r /\ class_chars cs /\ body_chars r else body_chars s.
Definition rest_in_state (in_escape in_class : bool) (s : bytes) : Prop :=
  if in_escape then exists b r, s = b :: r /\ non_terminator b /\ rest_of_body in_class r else rest_of_body in_class s.

Lemma rest_char in_class b s :
  non_terminator b -> b <> 92 -> b <> 47 \/ in_class = true -> b <> 91 \/ in_class = true -> b <> 93 \/ in_class = false ->
  rest_of_body in_class s -> rest_of_body in_class (b :: s).
Proof.
  intros Hb H1 H2 H3 H4. destruct in_class; cbn.
  - intros (cs & r & -> & Hcs & Hr). exists (b :: cs), r. split; [done|]. split; [|done].
    destruct H4; [by constructor|done].
  - intros Hr. destruct H2, H3; try done. by constructor.
Qed.

Lemma rest_escape in_class s : rest_in_state true in_class s -> rest_of_body in_class (92 :: s).
Proof.
  intros (b & r & -> & Hb & Hr). destruct in_class; cbn in *; [|by constructor].
  destruct Hr as (cs & r' & -> & Hcs & Hr). exists (92 :: b :: cs), r'. split; [done|]. split; [by constructor|done].
Qed.

Lemma rest_enter in_class s : rest_of_body true s -> rest_of_body in_class (91 :: s).
Proof.
  intros (cs & r & -> & Hcs & Hr). destruct in_class; cbn.
  - exists (91 :: cs), r. by split_and!; [|constructor|].
  - by constructor.
Qed.

Lemma rest_leave in_class s : rest_of_body false s -> rest_of_body in_class (93 :: s).
Proof. intros Hr. destruct in_class; cbn in *; [by exists [], s; split_and!; [|constructor|]|by constructor]. Qed.

(** What the loop reads when it finds the end. *)
Lemma reg_exp_body_sound rest p in_escape named in_class p' named' :
  reg_exp_body rest p in_escape named in_class = (p', named', false) ->
  exists s tail, rest = s ++ 47 :: tail /\ rest_in_state in_escape in_class s /\ p' = (p + length s)%nat.
Proof.
  revert p in_escape named in_class. induction rest as [|b rest IH]; intros p esc named cls; [done|].
  cbn [reg_exp_body]. destruct (is_line_break b) eqn:Hb; [done|].
  destruct esc; [|destruct ((b =? 47) && negb cls) eqn:E1].
  - intros (s & tail & -> & Hs & ->)%IH. exists (b :: s), tail. split_and!; [done|by exists b, s|cbn; lia].
  - bool_to_prop. destruct cls; [lia|]. intros [= <- _]. exists [], rest. replace b with 47 by lia.
    split_and!; [done|constructor|cbn; lia].
  - intros H.
    assert (exists s tail, rest = s ++ 47 :: tail /\ p' = (p + length (b :: s))%nat /\ rest_of_body cls (b :: s))
      as (s & tail & -> & -> & Hs); [|by exists (b :: s), tail].
    destruct (b =? 91) eqn:E2; [|destruct (b =? 92) eqn:E3; [|destruct (b =? 93) eqn:E4]]; bool_to_prop; subst.
    + apply IH in H as (s & tail & -> & Hs & ->). exists s, tail. split_and!; [done|cbn; lia|by apply rest_enter].
    + apply IH in H as (s & tail & -> & Hs & ->). exists s, tail. split_and!; [done|cbn; lia|by apply rest_escape].
    + apply IH in H as (s & tail & -> & Hs & ->). exists s, tail. split_and!; [done|cbn; lia|by apply rest_leave].
    + assert (exists named'', reg_exp_body rest (S p) false named'' cls = (p', named', false)) as [named'' H'].
      { destruct (_ && _ && _ && _) in H; by eexists. }
      apply IH in H' as (s & tail & -> & Hs & ->). exists s, tail. split_and!; [done|cbn; lia|].
      apply rest_char; try done; try by left. destruct cls; [by right|left].
      intros ->. by rewrite Z.eqb_refl in E1.
Qed.

(** What the grammar describes is found. *)
Lemma class_chars_read cs r p named :
  class_chars cs ->
  reg_exp_body (cs ++ 93 :: r) p false named true = reg_exp_body r (p + length cs + 1) false named false.
Proof.
  intros H. revert p. induction H as [|b cs Hb H1 H2 H IH|b cs Hb H IH]; intros p; cbn -[Nat.add Z.eqb].
  - by rewrite Nat.add_0_r, Nat.add_1_r.
  - rewrite Hb. apply Z.eqb_neq in H1 as ->. apply Z.eqb_neq in H2 as ->. rewrite andb_false_r.
    rewrite IH. replace (S p + length cs + 1)%nat with (p + S (length cs) + 1)%nat by lia. by destruct (b =? 91).
  - rewrite Hb, IH. by replace (S (S p) + length cs + 1)%nat with (p + S (S (length cs)) + 1)%nat by lia.
Qed.

Lemma reg_exp_body_complete s tail p named :
  body_chars s -> exists named', reg_exp_body (s ++ 47 :: tail) p false named false = (p + length s, named', false)%nat.
Proof.
  intros H. revert p named. induction H as [|b r Hb H1 H2 H3 H IH|b r Hb H IH|cs r Hcs H IH]; intros p named.
  - exists named. cbn -[Nat.add]. by rewrite Nat.add_0_r.
  - destruct (IH (S p) named) as [n1 E1]. destruct (IH (S p) true) as [n2 E2].
    cbn -[Nat.add Z.eqb take]. rewrite Hb. apply Z.eqb_neq in H1 as ->. apply Z.eqb_neq in H2 as ->.
    apply Z.eqb_neq in H3 as ->. replace (p + S (length r))%nat with (S p + length r)%nat by lia. cbn [andb negb].
    destruct (b =? 93); [by exists n1|]. destruct (_ && _ && _); [by exists n2|by exists n1].
  - destruct (IH (S (S p)) named) as [n1 E1]. exists n1. cbn -[Nat.add Z.eqb]. rewrite Hb, E1. f_equal. f_equal. lia.
  - destruct (IH (S p + length cs + 1)%nat named) as [n1 E1]. exists n1.
    cbn -[Nat.add Z.eqb]. rewrite <- app_assoc. cbn [app]. rewrite class_chars_read, E1 by done.
    rewrite length_app. f_equal. f_equal. cbn. lia.
Qed.

(** C31. The loop over the body of a literal ends at a slash exactly when the text starts with a body of the lexical
    grammar followed by a slash: escapes take the next byte, a slash inside a class does not count, and no line
    feed or carriage return is skipped. *)
Theorem reg_exp_body_grammar rest start p :
  (exists named, reg_exp_body rest start false false false = (p, named, false))
  <-> exists body tail, rest = body ++ 47 :: tail /\ body_chars body /\ p = (start + length body)%nat.
Proof.
  split.
  - by intros [named H%reg_exp_body_sound].
  - intros (body & tail & -> & H & ->). by apply reg_exp_body_complete.
Qed.

(** ** Ranges of classes *)

(** The bytes of an atom: a code unit of a surrogate pair, or a character. *)
Definition is_surrogate (c : Z) : bool := (55296 <=? c) && (c <? 57344).
Definition atom_bytes (c : Z) : bytes := if is_surrogate c then encode_surrogate c else utf8_encode c.

Lemma decode_encode_surrogate c : is_surrogate c = true -> decode_class_atom_rune (encode_surrogate c) = (c, 3%nat).
Proof.
  unfold is_surrogate. intros H. bool_to_prop.
  assert (forallb (fun i => let c := 55296 + Z.of_nat i in
    bool_decide (decode_class_atom_rune (encode_surrogate c) = (c, 3%nat))) (seq 0 2048) = true) as Hall by (by vm_compute).
  rewrite forallb_forall in Hall. specialize (Hall (Z.to_nat (c - 55296))).
  assert (In (Z.to_nat (c - 55296)) (seq 0 2048)) as Hin by (apply in_seq; lia).
  specialize (Hall Hin). cbv zeta in Hall. rewrite Z2Nat.id in Hall by lia.
  replace (55296 + (c - 55296)) with c in Hall by lia. by apply bool_decide_eq_true in Hall.
Qed.

Lemma decode_valid_encode c : is_scalar c = true -> decode_valid (utf8_encode c) = Some (c, len_utf8 c).
Proof.
  intros Hc. unfold decode_valid. rewrite <- (app_nil_r (utf8_encode c)), next_char_encode by done.
  rewrite Hc, <- (length_utf8_encode c), app_nil_r, take_ge by lia. by rewrite bool_decide_eq_true_2.
Qed.

Lemma decode_encode_scalar c : is_scalar c = true -> decode_class_atom_rune (utf8_encode c) = (c, len_utf8 c).
Proof.
  intros Hc. pose proof (decode_valid_encode c Hc) as Hd. unfold decode_class_atom_rune.
  assert (forall b0 b1 b2 r, utf8_encode c = b0 :: b1 :: b2 :: r ->
    (b0 =? 237) && ((160 <=? b1) && (b1 <=? 191)) && ((128 <=? b2) && (b2 <=? 191)) = false) as Hno.
  { intros b0 b1 b2 r. unfold utf8_encode, is_scalar in *. repeat case_if; try done; bool_to_prop.
    - intros [= <- <- <- _]. destruct (_ =? 237) eqn:E1; [|done]. destruct (160 <=? _) eqn:E2; [|done].
      apply Z.eqb_eq in E1. apply Z.leb_le in E2. apply orb_true_iff in Hc as [Hc|Hc]; bool_to_prop; zdiv.
    - intros [= <- _ _ _]. destruct (_ =? 237) eqn:E1; [|done]. apply Z.eqb_eq in E1.
      apply orb_true_iff in Hc as [Hc|Hc]; bool_to_prop; zdiv. }
  destruct (utf8_encode c) as [|b0 [|b1 [|b2 r]]] eqn:E; [|by rewrite Hd..|].
  - apply (f_equal length) in E. rewrite length_utf8_encode in E. pose proof (len_utf8_pos c). cbn in E. lia.
  - rewrite (Hno _ _ _ _ eq_refl). by rewrite Hd.
Qed.

Lemma decode_atom_bytes c :
  is_surrogate c = true \/ is_scalar c = true -> decode_class_atom_rune (atom_bytes c) = (c, length (atom_bytes c)).
Proof.
  intros Hc. unfold atom_bytes. destruct (is_surrogate c) eqn:E; [by rewrite decode_encode_surrogate|].
  destruct Hc; [done|]. by rewrite decode_encode_scalar, length_utf8_encode.
Qed.

(** A range of a class whose bounds are single code points, surrogates included, is reported as out of order
    exactly when its second bound is the smaller code point, though the bounds are kept and compared as bytes. *)
Theorem out_of_order_code_points min max :
  is_surrogate min = true \/ is_scalar min = true -> is_surrogate max = true \/ is_scalar max = true ->
  out_of_order (atom_bytes min) (atom_bytes max) = (max <? min).
Proof.
  intros H1 H2. unfold out_of_order. by rewrite !decode_atom_bytes, !Nat.eqb_refl.
Qed.

(** ** Where the body, the cut and the flags end *)

(** A position [p'] in what follows [p]: the end, or a byte that [P] holds of. *)
Definition stops (P : byte -> Prop) (rest : bytes) (p p' : nat) : Prop :=
  exists k, p' = (p + k)%nat /\ (k = length rest \/ exists b, rest !! k = Some b /\ P b).

Lemma stops_here P b rest p : P b -> stops P (b :: rest) p p.
Proof. intros Hb. exists 0%nat. split; [lia|]. right. by exists b. Qed.
Lemma stops_next P b rest p p' : stops P rest (S p) p' -> stops P (b :: rest) p p'.
Proof. intros (k & -> & Hk). exists (S k). split; [lia|]. cbn. destruct Hk as [->|Hk]; [by left|by right]. Qed.
Lemma stops_nil P p : stops P [] p p.
Proof. exists 0%nat. split; [lia|by left]. Qed.

Lemma stops_boundary P t i p' j :
  valid_utf8 t -> stops P (take (j - i) (drop i t)) i p' -> at_boundary t i -> at_boundary t j -> (i <= j)%nat ->
  (forall b, P b -> b < 256 -> b < 128) -> at_boundary t p' /\ (i <= p' <= j)%nat.
Proof.
  intros Hv (k & -> & Hk) Hi Hj Hij HP. rewrite length_take, length_drop in Hk. pose proof (proj2 Hj).
  destruct Hk as [->|(b & Hb & Hp)]; [rewrite Nat.min_l by lia; by replace (i + (j - i))%nat with j by lia; split; [|lia]|].
  pose proof (lookup_lt_Some _ _ _ Hb) as Hlt. rewrite length_take, length_drop in Hlt.
  rewrite lookup_take_lt, lookup_drop in Hb by lia. split; [|lia].
  eapply at_boundary_ascii; [done|done|]. apply HP; [done|]. by eapply valid_utf8_byte in Hb as [_ ?].
Qed.

Lemma reg_exp_body_end rest p in_escape named in_class p' named' u :
  reg_exp_body rest p in_escape named in_class = (p', named', u) ->
  stops (fun b => b = 47 \/ is_line_break b = true) rest p p'.
Proof.
  revert p in_escape named in_class. induction rest as [|b rest IH]; intros p esc named cls.
  { intros [= <- _ _]. apply stops_nil. }
  cbn [reg_exp_body]. destruct (is_line_break b) eqn:Hb; [intros [= <- _ _]; apply stops_here; by right|].
  destruct esc; [intros H; eapply stops_next, IH, H|].
  destruct ((b =? 47) && negb cls) eqn:E; [bool_to_prop; intros [= <- _ _]; apply stops_here; left; lia|].
  repeat case_match; intros H'; eapply stops_next, IH, H'.
Qed.

Lemma reg_exp_cut_end rest p in_escape depth quantifier group :
  stops (fun b => b < 128) rest p (reg_exp_cut rest p in_escape depth quantifier group).
Proof.
  revert p in_escape depth quantifier group. induction rest as [|b rest IH]; intros p esc depth qf gr; [apply stops_nil|].
  cbn [reg_exp_cut]. repeat (case_match; try (apply stops_next, IH)). apply stops_here. bool_to_prop. lia.
Qed.

(** The character before a boundary. *)
Lemma last_char_before t p :
  valid_utf8 t -> at_boundary t p -> (0 < p)%nat ->
  exists ch p0, last (chars (take p t)) = Some ch /\ at_boundary t p0 /\ p = (p0 + len_utf8 ch)%nat /\
    (forall j, at_boundary t j -> (j < p)%nat -> (j <= p0)%nat).
Proof.
  intros Hv [Hb Hle] Hp. destruct (boundary_split t p Hv Hb Hle) as (cs1 & cs2 & Hcs & Ht & Hlen).
  destruct cs1 as [|ch cs1 _] using rev_ind; [cbn in Hlen; lia|].
  assert (Forall (fun ch => is_scalar ch = true) (cs1 ++ [ch])) as Hcs1 by (by apply Forall_app in Hcs as [? _]).
  assert (p = (length (utf8 cs1) + len_utf8 ch)%nat) as Hp'.
  { rewrite <- Hlen, utf8_app, length_app. cbn. by rewrite app_nil_r, length_utf8_encode. }
  exists ch, (length (utf8 cs1)). split; [|split; [|split; [done|]]].
  - rewrite Ht, <- Hlen, take_app_length, chars_utf8 by done. apply last_snoc.
  - split; [|lia]. rewrite Ht, utf8_app, <- app_assoc, <- utf8_app. apply is_char_boundary_app.
    rewrite <- app_assoc in Hcs. by apply Forall_app in Hcs as [_ ?].
  - intros j [Hj _] Hlt. destruct (decide (j <= length (utf8 cs1))%nat) as [|Hgt]; [done|exfalso].
    assert (at_boundary t (length (utf8 cs1))) as [Hb0 Hl0].
    { split; [|lia]. rewrite Ht, utf8_app, <- app_assoc, <- utf8_app. apply is_char_boundary_app.
      rewrite <- app_assoc in Hcs. by apply Forall_app in Hcs as [_ ?]. }
    destruct (next_char_at t (length (utf8 cs1)) Hv Hb0) as (ch' & n & Hn & Hs); [lia|].
    rewrite Ht, utf8_app, <- app_assoc, drop_app_length in Hn. cbn in Hn. rewrite app_nil_r in Hn.
    rewrite next_char_encode in Hn by (apply Forall_app in Hcs1 as [_ H']; by inversion H').
    injection Hn as <- <-. rewrite (cas_inner _ _ _ _ Hs j) in Hj by lia. done.
Qed.

Lemma reg_exp_trim_ok t start fuel p :
  valid_utf8 t -> at_boundary t start -> at_boundary t p -> (start <= p < fuel)%nat ->
  exists p', reg_exp_trim fuel t start p = Some p' /\ at_boundary t p' /\ (start <= p' <= p)%nat.
Proof.
  intros Hv Hs. revert p. induction fuel as [|fuel IH]; intros p Hp Hf; [lia|]. cbn [reg_exp_trim].
  destruct (start <? p)%nat eqn:E; bool_to_prop; [|exists p; split; [done|split; [done|lia]]].
  destruct (last_char_before t p Hv Hp) as (ch & p0 & Hl & Hp0 & -> & Hj); [lia|].
  pose proof (len_utf8_pos ch). pose proof (Hj start Hs E).
  assert (slice t 0 (p0 + len_utf8 ch) = Some (take (p0 + len_utf8 ch) t)) as ->.
  { rewrite slice_some; [|lia|reflexivity|exact (proj1 Hp)]. by rewrite Nat.sub_0_r. }
  cbn [mbind option_bind]. rewrite Hl.
  destruct (_ || _); [|exists (p0 + len_utf8 ch)%nat; split; [done|split; [done|lia]]].
  replace (p0 + len_utf8 ch - len_utf8 ch)%nat with p0 by lia.
  destruct (IH p0 Hp0) as (p' & -> & ? & ?); [lia|]. exists p'. split; [done|]. split; [done|lia].
Qed.

Section rescan.
Context (t : bytes) (Hv : valid_utf8 t).
Abbreviation e := (length t).
Abbreviation Inv := (Inv t e).

(** What rescanning does not change. *)
Record kept (s0 s : Scanner) : Prop := {
  kept_inv : Inv s;
  kept_keeps : keeps s0 s;
  kept_start : token_start s = token_start s0;
}.

Lemma kept_refl s : Inv s -> kept s s.
Proof. intros Hi. split; [done|apply keeps_refl|done]. Qed.

Lemma wp_kept_error m p l a s0 s (Q : unit -> Scanner -> Prop) :
  kept s0 s -> (forall s', kept s0 s' -> token_flags s' = token_flags s -> Q tt s') -> wp (error_at m p l a) Q s.
Proof.
  intros [H1 H2 H3] HQ. apply wp_modify, HQ; [|done]. split; [destruct H1; by split| |done].
  eapply keeps_trans; [done|]. split; try done. cbn. by apply prefix_app_r.
Qed.

(** An update of the token, or of the position to a boundary. *)
Lemma wp_kept_modify f s0 s (Q : unit -> Scanner -> Prop) :
  kept s0 s -> (Inv s -> Inv (f s)) -> keeps s (f s) -> token_start (f s) = token_start s ->
  (kept s0 (f s) -> Q tt (f s)) -> wp (modify f) Q s.
Proof.
  intros [H1 H2 H3] Hi Hk Hs HQ. apply wp_modify, HQ. split; [auto|by eapply keeps_trans|congruence].
Qed.

Lemma reg_exp_flag_ok report ch p size flags s0 s (Q : Z -> Scanner -> Prop) :
  kept s0 s -> (forall r s', kept s0 s' -> token_flags s' = token_flags s -> Q r s') ->
  wp (reg_exp_flag report ch p size flags) Q s.
Proof.
  intros Hk HQ. unfold reg_exp_flag, check_regular_expression_flag_availability. case_match; [by apply wp_ret, HQ|].
  destruct (char_code_to_reg_exp_flag ch) as [f|];
    [case_match; [|case_match]|]; apply wp_bind; try (eapply wp_kept_error; [done|intros s1 ? ?]; apply wp_ret; by apply HQ).
  apply wp_bind, wp_get. destruct (reg_exp_flag_first_available_language_version f) as [[v name]|]; [|by apply wp_ret, wp_ret, HQ].
  apply wp_when; intros _; [|by apply wp_ret, HQ].
  eapply wp_kept_error; [done|intros s1 ? ?]. apply wp_ret. by apply HQ.
Qed.

(** The characters of a range of the text. *)
Definition identifier_range (i j : nat) : Prop :=
  exists fs, take (j - i) (drop i t) = utf8 fs /\ Forall (fun ch => is_identifier_part ch = true) fs.

Lemma identifier_range_cons p ch size j :
  char_at_spec t p ch size -> is_identifier_part ch = true -> (p + size <= j)%nat ->
  identifier_range (p + size) j -> identifier_range p j.
Proof.
  intros Hs Hid Hle (fs & Hfs & Hall). exists (ch :: fs). split; [|by constructor].
  cbn. change (flat_map utf8_encode fs) with (utf8 fs). rewrite <- Hfs, <- (cas_take _ _ _ _ Hs), <- drop_drop.
  replace (j - p)%nat with (size + (j - (p + size)))%nat by lia. by rewrite take_take_drop.
Qed.

Lemma reg_exp_flags_loop_ok fuel report p flags s0 s :
  kept s0 s -> at_boundary t p -> (e - p < fuel)%nat ->
  wp (reg_exp_flags_loop fuel report p flags) (fun r s' =>
    kept s0 s' /\ token_flags s' = token_flags s /\ at_boundary t r.1 /\ (p <= r.1)%nat /\ identifier_range p r.1) s.
Proof.
  revert p flags s. induction fuel as [|fuel IH]; intros p flags s Hk Hp Hf; [lia|]. cbn [reg_exp_flags_loop].
  assert (forall s', kept s0 s' -> token_flags s' = token_flags s -> kept s0 s' /\ token_flags s' = token_flags s /\
    at_boundary t p /\ (p <= p)%nat /\ identifier_range p p) as Hstop.
  { intros s' ? ?. split_and!; try done. exists []. by rewrite Nat.sub_diag. }
  apply wp_bind, wp_get. destruct (kept_inv _ _ Hk) as [Et Ee _ _ _ _]. rewrite Et, Ee.
  apply wp_if; intros E; bool_to_prop; [|by apply wp_ret, Hstop].
  rewrite slice_some by (exact (proj1 Hp) || lia || apply is_char_boundary_len).
  rewrite take_ge by (rewrite length_drop; lia). apply wp_bind, wp_ret.
  destruct (next_char_at t p Hv (proj1 Hp) E) as (ch & size & Hn & Hs). rewrite Hn.
  apply wp_if; intros Eid; [|by apply wp_ret, Hstop].
  pose proof (cas_pos _ _ _ _ Hs). pose proof (cas_bound _ _ _ _ Hs).
  apply wp_bind. eapply reg_exp_flag_ok; [done|intros fl s1 H1 H2].
  eapply wp_mono; [apply IH; [done|split; [by eapply cas_next|lia]|lia]|].
  intros [j r] s2 (H3 & H4 & H5 & H6 & H7); cbn in *. split_and!; [done|congruence|done|lia|].
  eapply identifier_range_cons; done || lia.
Qed.

Lemma kept_flags f s0 s : kept s0 s -> kept s0 (put_token_flags f s).
Proof. intros [H1 H2 H3]. split; [destruct H1; by split|eapply keeps_trans; [done|by split]|done]. Qed.

(** ** Both ends of a literal *)
Context (start body_end : nat) (Hstart : at_boundary t start) (Hend : at_boundary t body_end).
Hypothesis (Hle : (start <= body_end)%nat).

Lemma reg_exp_unterminated_ok s :
  Inv s ->
  wp (reg_exp_unterminated start body_end) (fun p s' =>
    kept s s' /\ token_flags s' = token_flags s /\ at_boundary t p /\ (start <= p)%nat /\
    diagnostics s' = diagnostics s
      ++ [mkDiagnostic Unterminated_regular_expression_literal (token_start s) (p - token_start s) []]) s.
Proof.
  intros Hi. unfold reg_exp_unterminated. apply wp_bind, wp_get. cbv zeta. rewrite (inv_text _ _ _ Hi).
  destruct (stops_boundary _ _ _ _ _ Hv (reg_exp_cut_end (take (body_end - start) (drop start t)) start false 0 false 0)
    Hstart Hend Hle) as [Hb Hp]; [done|].
  set (p := reg_exp_cut _ _ _ _ _ _) in *.
  destruct (reg_exp_trim_ok t start (S p) p Hv Hstart Hb) as (p' & -> & Hb' & Hp'); [lia|].
  apply wp_bind, wp_ret, wp_bind, wp_modify, wp_ret.
  split_and!; [|done|done|lia|done]. split; [destruct Hi; by split| |done]. split; try done. cbn. by apply prefix_app_r.
Qed.

Context (Hesc : escapes_ascii t) (Hnar : group_names_narrow t) `{SpellingSuggestions}.

Lemma run_reg_exp_parser_ok flags named s0 s (Q : unit -> Scanner -> Prop) :
  Inv s -> keeps s0 s -> (forall s', Inv s' -> keeps s0 s' -> Q tt s') -> wp (run_reg_exp_parser body_end flags named) Q s.
Proof.
  intros Hi Hk HQ. unfold run_reg_exp_parser.
  assert (PInv t (new_reg_exp_parser s body_end flags named)) as Hp by (split; [done|apply Hend]).
  pose proof (run_ok t Hv Hesc Hnar _ Hp) as Hrun. unfold wp in *.
  destruct (RegExp.run _) as [[[] q']| |]; [|done..]. destruct Hrun as [[H1 _] _ H2 _].
  apply HQ; [done|by eapply keeps_trans].
Qed.

Lemma reg_exp_terminated_ok report named s :
  Inv s -> t !! body_end = Some 47 ->
  wp (reg_exp_terminated report start body_end named) (fun p s' =>
    kept s s' /\ token_flags s' = token_flags s /\ at_boundary t p /\ (body_end < p)%nat /\
    identifier_range (body_end + 1) p) s.
Proof.
  intros Hi Hslash. unfold reg_exp_terminated. apply wp_bind, wp_get. rewrite (inv_text _ _ _ Hi).
  destruct (at_boundary_ascii t body_end 47 Hv Hslash) as [_ Hb]; [lia|].
  apply wp_bind. eapply wp_mono; [apply (reg_exp_flags_loop_ok _ _ _ _ s s (kept_refl s Hi) Hb); lia|].
  intros [p flags] s1 (H1 & H2 & H3 & H4 & H5); cbn in *. apply wp_bind, wp_when; intros _.
  - apply wp_bind, wp_modify, wp_bind. destruct H1 as [Hi1 Hk1 Hs1].
    eapply run_reg_exp_parser_ok; [destruct Hi1; by split|eapply keeps_trans; [exact Hk1|by split]|].
    intros s2 Hi2 Hk2. apply wp_bind, wp_modify, wp_modify, wp_ret.
    split_and!; [|done|done|lia|done]. split; [|eapply keeps_trans; [exact Hk2|by split]|done].
    pose proof (inv_token_start _ _ _ Hi). destruct Hi2. by split.
  - apply wp_ret. split_and!; try done. lia.
Qed.
End rescan.

Lemma is_ascii_names t : is_ascii t = true -> group_names_narrow t.
Proof. intros Ha i j b _ _ _ Hb. pose proof (is_ascii_lookup _ _ _ Ha Hb). lia. Qed.

(** What rescanning a slash makes of the scanner. *)
Record rescanned (t : bytes) (s s' : Scanner) : Prop := {
  rs_inv : ScannerInv.Inv t (length t) s';
  rs_keeps : keeps s s';
  rs_start : token_start s' = token_start s;
  rs_pos : (token_start s < pos s')%nat;
  rs_token : token s' = Kind.RegularExpressionLiteral;
  rs_value : token_value_ s' = SourceRange (token_start s) (pos s');
  rs_terminated : Z.land (token_flags s') TokenFlags.UNTERMINATED = 0 ->
    exists body flags, take (pos s' - token_start s) (drop (token_start s) t) = 47 :: body ++ 47 :: utf8 flags
      /\ body_chars body /\ Forall (fun ch => is_identifier_part ch = true) flags;
  rs_unterminated : Z.land (token_flags s') TokenFlags.UNTERMINATED <> 0 ->
    diagnostics s' = diagnostics s
      ++ [mkDiagnostic Unterminated_regular_expression_literal (token_start s) (pos s' - token_start s) []];
}.

Lemma rescanned_literal t body named i p :
  reg_exp_body (drop (i + 1) t) (i + 1) false false false = (body, named, false) ->
  t !! i = Some 47 -> (body < p)%nat -> identifier_range t (body + 1) p ->
  exists bs flags, take (p - i) (drop i t) = 47 :: bs ++ 47 :: utf8 flags
    /\ body_chars bs /\ Forall (fun ch => is_identifier_part ch = true) flags.
Proof.
  intros (bs & tail & Ht & Hbs & Hbody)%reg_exp_body_sound Hi Hlt (fs & Hfs & Hall).
  exists bs, fs. split; [|done]. rewrite (drop_S _ _ _ Hi). replace (S i) with (i + 1)%nat by lia. rewrite Ht.
  assert (drop (body + 1) t = tail) as Htail.
  { replace (body + 1)%nat with (i + 1 + (length bs + 1))%nat by lia. rewrite <- drop_drop, Ht.
    by rewrite drop_app_add. }
  rewrite Htail in Hfs. rewrite <- Hfs. replace (p - i)%nat with (S (length bs + S (p - (body + 1))))%nat by lia.
  cbn [take]. by rewrite take_app_add.
Qed.

Lemma unterminated_flag f : Z.land (Z.lor f TokenFlags.UNTERMINATED) TokenFlags.UNTERMINATED <> 0.
Proof.
  intros H. apply (f_equal (fun z => Z.testbit z 2)) in H.
  rewrite Z.land_spec, Z.lor_spec, Z.bits_0 in H. by destruct (Z.testbit f 2).
Qed.

(** The end of the rescan. *)
Lemma rescan_end_ok t p s s1 :
  kept t s s1 -> at_boundary t p -> at_boundary t (token_start s) -> (token_start s < p)%nat ->
  (Z.land (token_flags s1) TokenFlags.UNTERMINATED = 0 ->
    exists body flags, take (p - token_start s) (drop (token_start s) t) = 47 :: body ++ 47 :: utf8 flags
      /\ body_chars body /\ Forall (fun ch => is_identifier_part ch = true) flags) ->
  (Z.land (token_flags s1) TokenFlags.UNTERMINATED <> 0 ->
    diagnostics s1 = diagnostics s
      ++ [mkDiagnostic Unterminated_regular_expression_literal (token_start s) (p - token_start s) []]) ->
  wp (modify (set_pos p) ;; set_token_value_from_range (token_start s) p ;; set_token Kind.RegularExpressionLiteral)
    (fun _ s' => token s' = Kind.RegularExpressionLiteral /\ rescanned t s s') s1.
Proof.
  intros [Hi Hk Hs] Hp H0 Hlt H1 H2. apply wp_bind, wp_modify, wp_bind, wp_modify, wp_modify.
  split; [done|]. split; try done; [destruct Hi; split; try done; cbn; split_and!; (done || lia)|].
  eapply keeps_trans; [exact Hk|by split].
Qed.

Lemma body_end_boundary t start body_end named u :
  valid_utf8 t -> at_boundary t start -> reg_exp_body (drop start t) start false false false = (body_end, named, u) ->
  at_boundary t body_end /\ (start <= body_end)%nat.
Proof.
  intros Hv Hs H%reg_exp_body_end. pose proof (proj2 Hs).
  rewrite <- (take_ge (drop start t) (length t - start)) in H by (rewrite length_drop; lia).
  destruct (stops_boundary _ _ _ _ _ Hv H Hs (at_boundary_len t)) as [Hb Hp]; [lia| |by split; [|lia]].
  intros b [->|Hb] Hlt; [lia|]. unfold is_line_break in Hb. bool_to_prop. lia.
Qed.

(** From the end of the body on, with the flags the token has then. *)
Lemma rescan_rest_ok `{SpellingSuggestions} t report s body_end named u f :
  valid_utf8 t -> escapes_ascii t -> group_names_narrow t -> ScannerInv.Inv t (length t) s -> t !! token_start s = Some 47 ->
  reg_exp_body (drop (token_start s + 1) t) (token_start s + 1) false false false = (body_end, named, u) ->
  (u = true -> Z.land f TokenFlags.UNTERMINATED <> 0) ->
  wp (p ← (if negb (Z.land f TokenFlags.UNTERMINATED =? 0) then reg_exp_unterminated (token_start s + 1) body_end
           else reg_exp_terminated report (token_start s + 1) body_end named);
      modify (set_pos p) ;; set_token_value_from_range (token_start s) p ;; set_token Kind.RegularExpressionLiteral)
    (fun _ s' => token s' = Kind.RegularExpressionLiteral /\ rescanned t s s') (put_token_flags f s).
Proof.
  intros Hv Hesc Hnar Hi Hslash Ebody Hf.
  destruct (at_boundary_ascii t _ _ Hv Hslash) as [Hslash_b Hstart]; [lia|].
  destruct (body_end_boundary _ _ _ _ _ Hv Hstart Ebody) as [Hend Hle].
  pose proof (kept_flags t f _ _ (kept_refl t s Hi)) as Hk. pose proof (kept_inv _ _ _ Hk) as Hi'.
  assert (forall s1, kept t (put_token_flags f s) s1 -> kept t s s1) as Hback.
  { intros s1 [H1 H2 H3]. split; [done|eapply keeps_trans; [apply Hk|exact H2]|done]. }
  apply wp_bind, wp_if; intros E; rewrite ?negb_true_iff, ?negb_false_iff, ?Z.eqb_eq, ?Z.eqb_neq in E.
  - eapply wp_mono; [by apply (reg_exp_unterminated_ok t Hv _ body_end Hstart Hend Hle)|].
    intros p s1 (H1 & H2 & H3 & H4 & H5). apply rescan_end_ok; try done; [by apply Hback|lia|].
    intros H6. by rewrite H2 in H6.
  - assert (u = false) as -> by (destruct u; [by destruct Hf|done]).
    assert (t !! body_end = Some 47) as Hend_slash.
    { apply reg_exp_body_sound in Ebody as (bs & tail & Ht & _ & ->). rewrite <- lookup_drop, Ht. by apply list_lookup_middle. }
    eapply wp_mono; [by apply (reg_exp_terminated_ok t Hv _ body_end Hstart Hend)|].
    intros p s1 (H1 & H2 & H3 & H4 & H5). apply rescan_end_ok; try done; [by apply Hback|lia| |].
    + intros _. by eapply rescanned_literal.
    + intros H6. by rewrite H2 in H6.
Qed.

(** C3. Rescanning a slash that starts a token, in any mode and with or without errors to report, neither panics nor
    runs out of fuel in a text whose escapes are ASCII and whose group names have no character of three bytes or
    more, however deep its groups and classes nest. The token is a regular expression literal from the slash to the
    new position; unless it is flagged as unterminated it is a slash, a body of the lexical grammar, a slash and
    identifier characters, and when it is flagged the only new diagnostic covers exactly the token. *)
Theorem rescan_slash_token_total `{SpellingSuggestions} t report s :
  valid_utf8 t -> escapes_ascii t -> group_names_narrow t ->
  ScannerInv.Inv t (length t) s -> token s = Kind.SlashToken \/ token s = Kind.SlashEqualsToken ->
  t !! token_start s = Some 47 ->
  exists s', rescan_slash_token report s = Ok (Kind.RegularExpressionLiteral, s') /\ rescanned t s s'.
Proof.
  intros Hv Hesc Hnar Hi Htok Hslash.
  enough (wp (rescan_slash_token report) (fun r s' => r = Kind.RegularExpressionLiteral /\ rescanned t s s') s) as Hw.
  { apply wp_run in Hw as (r & s' & Hr & -> & Hs). by exists s'. }
  unfold rescan_slash_token. apply wp_bind, wp_get, wp_bind, wp_when.
  2: { intros E. exfalso. apply orb_false_iff in E as [E1 E2]. rewrite bool_decide_eq_false in E1, E2. tauto. }
  intros _. cbv zeta. rewrite (inv_text _ _ _ Hi).
  destruct (reg_exp_body _ _ _ _ _) as [[body_end named] u] eqn:Ebody.
  assert (exists f, (u = true -> Z.land f TokenFlags.UNTERMINATED <> 0) /\
    when u (add_flags TokenFlags.UNTERMINATED) s = Ok (tt, put_token_flags f s)) as (f & Hf & Hwhen).
  { destruct u; [eexists; split; [intros _; apply unterminated_flag|done]|exists (token_flags s); split; [done|by destruct s]]. }
  apply wp_bind. unfold wp at 1. rewrite Hwhen. apply wp_bind, wp_gets.
  eapply wp_mono; [by eapply rescan_rest_ok|]. intros x s' [Ht Hs]. by apply wp_gets.
Qed.

(** A literal with a named group, a class with a slash, an escape and flags. *)
Definition regexp_example : Scanner :=
  put_token Kind.SlashToken (set_pos 1 (new (bstr "/(?<ab>x)[a-z/]+\/\1/gi;") 0)).

Lemma rescan_slash_token_total_witness :
  let text := bstr "/(?<ab>x)[a-z/]+\/\1/gi;" in
  let _ := {| get_spelling_suggestion_for_strings _ _ := [] |} in
  is_ascii text = true
  /\ exists s', rescan_slash_token true regexp_example = Ok (Kind.RegularExpressionLiteral, s') /\ rescanned text regexp_example s'.
Proof.
  intros text sug. split; [reflexivity|]. apply (rescan_slash_token_total text true regexp_example).
  - by apply is_ascii_valid.
  - by apply is_ascii_escapes.
  - by apply is_ascii_names.
  - split; try done; split; (reflexivity || (cbn; lia)).
  - by left.
  - reflexivity.
Defined.

Lemma out_of_order_code_points_witness :
  is_surrogate 56832 = true /\ out_of_order (atom_bytes 56832) (atom_bytes 65533) = false.
Proof. split; [reflexivity|]. apply (out_of_order_code_points 56832 65533); [by left|by right]. Defined.

(** ** Where the code and the language differ *)

(** The bytes of a name are taken for characters: a character of three bytes after the first one ends the name
    inside it, and slicing the name panics. *)
Example group_name_of_three_byte_character `{SpellingSuggestions} :
  let text := bstr "/(?<a" ++ utf8_encode 20013 ++ bstr ">x)/u" in
  rescan_slash_token true (put_token Kind.SlashToken (set_pos 1 (new text 0))) = Panic.
Proof. by vm_compute. Qed.

(** A line separator does not end a literal, as its bytes are no line break. *)
Example line_separator_in_literal :
  reg_exp_body (bstr "a" ++ utf8_encode 8232 ++ bstr "b/") 1 false false false = (6%nat, false, false)
  /\ is_line_break 8232 = true.
Proof. by vm_compute. Qed.
