(* ===== verification/ScannerLit.v ===== *)
(** * ScannerLit: strings, templates and numbers are total

    The literal methods of ScannerOps, under the conditions of ScannerSpec. *)
From S2P Require Import Prelude Text Chars SyntaxKind Monad Numerals JsNum Keywords Trivia.
From S2P Require Import ScannerState ScannerOps ScannerInv ScannerWp ScannerSpec.

Section literals.
Context (t : bytes) (e : nat) (Hv : valid_utf8 t) (He : at_boundary t e) (Hesc : escapes_ascii t).

Abbreviation Inv := (Inv t e).
Abbreviation Adv := (Adv t e).
Abbreviation read := (read t e).

Ltac calls ::= first
  [ call scan_number_fragment_ok | call scan_digits_ok | call scan_escape_sequence_ok
  | call scan_identifier_parts_ok ].

Lemma push_part_ok result start s :
  Inv s -> at_boundary t start -> (start <= pos s)%nat ->
  wp (push_part result start) (fun _ s' => Adv true s s' /\ pos s' = pos s) s.
Proof. intros Hi Hb Hp. start Hi. unfold push_part. destruct result; run. Qed.

Lemma push_or_insert_part_ok result start s :
  Inv s -> at_boundary t start -> (start <= pos s)%nat ->
  wp (push_or_insert_part result start) (fun _ s' => Adv true s s' /\ pos s' = pos s) s.
Proof. intros Hi Hb Hp. start Hi. unfold push_or_insert_part. run. Qed.

Lemma finish_value_ok result i j s :
  Inv s -> at_boundary t i -> at_boundary t j -> (i <= j)%nat ->
  wp (finish_value result i j) (fun _ s' => Adv true s s' /\ pos s' = pos s) s.
Proof. intros Hi Hb Hb' Hp. start Hi. unfold finish_value. destruct result; run. Qed.

Lemma unterminated_string_ok result start i s :
  Inv s -> at_boundary t start -> (start <= pos s)%nat -> at_boundary t i -> (i <= pos s)%nat ->
  wp (unterminated_string result start i) (fun _ s' => Adv true s s' /\ pos s' = pos s) s.
Proof.
  intros Hi Hb Hp Hb' Hp'. start Hi. unfold unterminated_string. run.
  call push_part_ok. run. call finish_value_ok. finish.
Qed.

(** ** Strings *)
Lemma scan_string_loop_ok quote jsx s i :
  Inv s -> at_boundary t i -> i = pos s ->
  wp (scan_string_loop quote jsx i) (fun _ s' => Adv true s s' /\ True) s.
Proof.
  intros Hi Hb ->. start Hi. unfold scan_string_loop.
  eapply (wp_loop t e true _ (fun l s1 => at_boundary t l.2 /\ (l.2 <= pos s1)%nat)); [done|done| |].
  { cbn. finish. }
  intros [result start] s1 Ha1 [Hl1 Hl2]. cbn [fst snd] in *. steps.
  - call unterminated_string_ok. run.
  - call push_part_ok. run. call finish_value_ok. run.
  - call push_or_insert_part_ok. run.
  - call unterminated_string_ok. run.
  - finish.
Qed.

Lemma len_utf8_ascii ch : ch < 128 -> len_utf8 ch = 1%nat.
Proof. intros H. unfold len_utf8. by rewrite (proj2 (Z.ltb_lt _ _) H). Qed.

Lemma utf8_encode_ascii ch : ch < 128 -> utf8_encode ch = [ch].
Proof. intros H. unfold utf8_encode. by rewrite (proj2 (Z.ltb_lt _ _) H). Qed.

(** A byte found in the rest of the text. *)
Lemma find_byte_at i ch o :
  (i <= e)%nat -> find_sub [ch] (take (e - i) (drop i t)) = Some o ->
  t !! (i + o)%nat = Some ch /\ (i + o < e)%nat.
Proof.
  intros Hi H. apply find_sub_Some in H as [H _]. apply starts_with_spec in H as [r Hr].
  assert (take (e - i) (drop i t) !! o = Some ch) as Ho.
  { rewrite <- (Nat.add_0_r o), <- lookup_drop, Hr. done. }
  apply lookup_take_Some in Ho as [Ho Hlt]. rewrite lookup_drop in Ho. split; [done|lia].
Qed.

Lemma scan_string_ok quote jsx s :
  Inv s -> read (pos s) 0 quote -> quote = 34 \/ quote = 39 ->
  wp (scan_string_and_set_token_value jsx) (fun _ s' => Adv true s s' /\ (pos s < pos s')%nat) s.
Proof.
  intros Hi Hr Hq. start Hi. unfold scan_string_and_set_token_value. step. step.
  match goal with H : read _ 0 ?c |- _ => pose proof (read_fun _ _ _ _ _ _ Hr H) as <- end.
  rewrite (len_utf8_ascii quote), (utf8_encode_ascii quote) by lia.
  destruct (read_ascii t e Hv _ _ _ Hr) as (Hb & Hb1 & Hlt & _); [lia|lia|].
  rewrite Nat.add_0_r in *.
  steps.
  all: destruct (find_sub [quote] _) as [o|] eqn:Eo; [|call scan_string_loop_ok; finish].
  all: apply find_byte_at in Eo as [Ho Hoe]; [|facts; lia].
  all: destruct (at_boundary_ascii _ _ _ Hv Ho) as [Ho1 Ho2]; [lia|]; cbv zeta.
  all: run.
  all: call scan_string_loop_ok; finish.
Qed.
Ltac calls ::= first
  [ call push_part_ok | call push_or_insert_part_ok | call finish_value_ok
  | call scan_number_fragment_ok | call scan_digits_ok | call scan_escape_sequence_ok
  | call scan_identifier_parts_ok ].

(** ** Templates *)
Lemma scan_template_ok b s c :
  Inv s -> read (pos s) 0 c -> c <> 0 -> c < 128 ->
  wp (scan_template_and_set_token_value b) (fun k s' => Adv true s s' /\
    (pos s < pos s')%nat /\ k <> Kind.EndOfFile) s.
Proof.
  intros Hi Hr Hc Hlt. start Hi. unfold scan_template_and_set_token_value. do 5 step.
  assert (at_boundary t (pos s')) as Hb' by (facts; done).
  do 2 step. eapply (wp_loop t e true _ (fun l s1 => at_boundary t l.2 /\ (l.2 <= pos s1)%nat
    /\ (pos s' <= pos s1)%nat)); [done|done| |].
  { cbn. finish. }
  intros [result start] s1 Ha1 (Hl1 & Hl2 & Hl3). cbn [fst snd] in *. run.
  all: finish; by destruct (ch =? 96).
Qed.

(** ** Numbers *)
Section numbers.
Context `{JsNumber}.

(** Without the binary and octal flags the suffix never runs the bigint parser. *)
Lemma scan_big_int_suffix_ok s :
  Inv s ->
  bo_flags s = 0 \/ (exists v, token_value_ s = Owned v
    /\ exists d, parse_pseudo_big_int (v ++ [chr "n"]) = Some d) ->
  wp scan_big_int_suffix (fun k s' => Adv true s s' /\ k <> Kind.EndOfFile) s.
Proof.
  intros Hi Hbo. start Hi. unfold scan_big_int_suffix, push_token_value.
  rewrite utf8_encode_ascii by done. run.
  apply wp_unwrap. destruct Hbo as [Hbo|(w & Hw & d & Hd)].
  - pose proof (adv_flags _ _ _ _ _ H2 eq_refl) as Hf. rewrite Hbo in Hf. by destruct E0.
  - rewrite (H6 _ (H5 _ Hw)). exists d. split; [done|]. run.
Qed.

Lemma normalize_number_ok s :
  Inv s -> wp normalize_number (fun _ s' => Adv true s s' /\ pos s' = pos s) s.
Proof. intros Hi. start Hi. unfold normalize_number. run. Qed.

Lemma scan_fixed_part_ok s :
  Inv s ->
  wp (scan_fixed_part (pos s)) (fun r s' => Adv true s s' /\ digit_at t e (pos s) (pos s')
    /\ match r with inl _ => True | inr k => k = Kind.NumericLiteral /\ (pos s < pos s')%nat end) s.
Proof.
  intros Hi. start Hi. unfold scan_fixed_part. run.
  all: finish; first [by apply digit_at_lt; lia | idtac].
  match goal with H : digit_at _ _ (pos ?c) _, E : pos ?c = pos s |- _ => by rewrite E in H end.
Qed.

Lemma scan_fraction_and_exponent_ok s :
  Inv s ->
  wp scan_fraction_and_exponent (fun r s' => Adv true s s' /\ at_boundary t r.2
    /\ (pos s <= r.2 <= pos s')%nat
    /\ (read (pos s) 0 (chr ".") -> (pos s < pos s')%nat)) s.
Proof.
  intros Hi. start Hi. unfold scan_fraction_and_exponent. run.
  finish. intros Hr. by pose proof (read_fun _ _ _ _ _ _ Hr H1).
Qed.

Lemma check_identifier_after_number_ok start fe k s :
  Inv s ->
  wp (check_identifier_after_number start fe k) (fun k' s' => Adv true s s' /\ k' = k) s.
Proof. intros Hi. start Hi. unfold check_identifier_after_number. run. Qed.

Lemma set_number_value_ok start i a b c d s :
  Inv s -> at_boundary t start -> at_boundary t i -> (start <= i)%nat ->
  wp (set_number_value start i a b c d) (fun _ s' => Adv true s s' /\ pos s' = pos s) s.
Proof.
  intros Hi Hb Hb' Hp. start Hi. unfold set_number_value, push_token_value.
  rewrite utf8_encode_ascii by done. run.
Qed.

(** The character a number starts with. *)
Definition number_start (p : nat) : Prop :=
  exists c, read p 0 c /\ (is_ascii_digit c = true \/ c = chr ".").

Lemma scan_number_ok s :
  Inv s -> bo_flags s = 0 -> number_start (pos s) ->
  wp scan_number (fun k s' => Adv true s s' /\ (pos s < pos s')%nat /\ k <> Kind.EndOfFile) s.
Proof.
  intros Hi Hbo (c & Hr & Hc). start Hi. unfold scan_number. do 3 step.
  call scan_fixed_part_ok. destruct r as [fixed|k]; run.
  call scan_fraction_and_exponent_ok. destruct r as [[[a b] c'] i]. cbn [snd] in *.
  assert ((pos s < pos s'0)%nat) as Hlt.
  { facts. destruct (decide (pos s' = pos s)) as [Heq|]; [|lia].
    destruct Hc as [Hc | ->].
    - match goal with D : digit_at _ _ _ _ |- _ => specialize (D _ Hr Hc) end. lia.
    - rewrite Heq in *. naive_solver. }
  cbn [fst snd]. step. call set_number_value_ok. run.
  - call normalize_number_ok. run.
  - call scan_big_int_suffix_ok.
    { left. match goal with H : ScannerInv.Adv _ _ _ s ?c |- bo_flags ?c = 0 =>
        by rewrite (adv_flags _ _ _ _ _ H eq_refl) end. }
    call check_identifier_after_number_ok. subst. finish.
  - call normalize_number_ok. run. call check_identifier_after_number_ok. subst. finish.
Qed.
End numbers.

(** The digits of a binary or octal literal are what the bigint parser reads. *)
Lemma base_digits_value base v0 ds :
  base_digits base ds -> exists v, digits_value base v0 ds = Some v.
Proof.
  intros H. revert v0. induction H as [|ch ds [Hd Hlt] Hds IH]; intros v0; [by eexists|].
  cbn [digits_value]. unfold to_digit. rewrite Hd. cbn [mbind option_bind].
  rewrite (proj2 (Z.ltb_lt _ _) Hlt). test Hd. rewrite (proj2 (Z.eqb_neq ch 95)) by lia.
  cbn [mbind option_bind]. apply IH.
Qed.

Lemma base_digits_parse p base ds :
  prefix_base p = Some base -> base_digits base ds -> ds <> [] ->
  exists d, parse_pseudo_big_int (chr "0" :: p :: ds ++ bstr "n") = Some d.
Proof.
  intros Hp Hds Hne. destruct (base_digits_value base 0 ds Hds) as [v Hval].
  destruct (parse_prefixed p base v ds (bstr "n") Hp Hne Hval) as (d & Hd & _); [by right|].
  by exists d.
Qed.
End literals.
