(* ===== verification/ScannerTotal.v ===== *)
(** * ScannerTotal: [scan] always returns a token and moves forward

    The arms of [scan], the iteration and the loop, under the conditions of ScannerSpec. *)
From S2P Require Import Prelude Text Chars SyntaxKind Monad Numerals JsNum Keywords Trivia.
From S2P Require Import ScannerState ScannerOps Scanner ScannerInv ScannerWp ScannerSpec ScannerLit.

Section arms.
Context (t : bytes) (e : nat) (Hv : valid_utf8 t) (He : at_boundary t e) (Hesc : escapes_ascii t).

Abbreviation Inv := (Inv t e).
Abbreviation Adv := (Adv t e).
Abbreviation read := (read t e).

(** An arm that ends the [match]: it moves forward and sets a token that is not the end. *)
Definition arm_ok (m : MS unit) (s : Scanner) : Prop :=
  wp m (fun _ s' => Adv false s s' /\ (pos s < pos s')%nat /\ token s' <> Kind.EndOfFile) s.

(** An arm that may [continue]. *)
Definition branch_ok (m : MS (unit + Kind)) (s : Scanner) : Prop :=
  wp m (fun r s' => (pos s < pos s')%nat /\
    match r with
    | inl _ => Adv true s s'
    | inr k => Adv false s s' /\ k = token s' /\ k <> Kind.EndOfFile
    end) s.

Lemma scan_operator_ok s c m :
  scan_operator c = Some m ->
  Inv s -> read (pos s) 0 c -> c <> 0 -> c < 128 -> arm_ok m s.
Proof.
  intros Hm Hi Hr Hc Hlt. start Hi. unfold scan_operator in Hm.
  destruct (single_char_token c) as [k|] eqn:Ek.
  - injection Hm as <-.
    assert (k <> Kind.EndOfFile).
    { unfold single_char_token in Ek. intros ->.
      repeat match type of Ek with (if ?b then _ else _) = _ => destruct b; [done|] end. done. }
    unfold arm_ok, accept. run.
  - repeat match type of Hm with
    | (if ?b then _ else _) = _ => destruct b; [injection Hm as <-|]
    end; [..|done].
    all: unfold arm_ok, scan_exclamation, scan_percent, scan_ampersand, scan_asterisk, scan_plus,
      scan_minus, scan_question, scan_caret, accept; run.
Qed.

(** ** Trivia *)
Lemma skip_chars_ok p s :
  Inv s -> wp (skip_chars p) (fun _ s' => Adv true s s' /\ True) s.
Proof.
  intros Hi. start Hi. unfold skip_chars.
  eapply (wp_loop t e true _ (fun _ _ => True)); [done|done|done|].
  intros l s1 Ha1 _. run.
Qed.

Lemma process_comment_directive_ok i j b s :
  Inv s -> wp (process_comment_directive i j b) (fun _ s' => Adv true s s' /\ pos s' = pos s) s.
Proof.
  intros Hi. start Hi. unfold process_comment_directive. do 2 step.
  destruct (find_comment_directive _ i j b) as [d|]; [|run].
  apply wp_modify. split; [by apply Adv_directive|done].
Qed.

Ltac calls ::= first [ call skip_chars_ok | call process_comment_directive_ok ].
Ltac branch := unfold branch_ok, accept, continue_, done_.

Lemma scan_whitespace_ok s c :
  Inv s -> read (pos s) 0 c -> c <> 0 -> c < 128 -> branch_ok scan_whitespace s.
Proof. intros Hi Hr Hc Hlt. start Hi. branch. unfold scan_whitespace, continue_, done_. run. Qed.

Lemma scan_newline_ok s c :
  Inv s -> read (pos s) 0 c -> c = 10 \/ c = 13 -> branch_ok (scan_newline c) s.
Proof. intros Hi Hr Hc. start Hi. branch. unfold scan_newline, continue_, done_. run. Qed.

Lemma scan_block_comment_body_ok i s :
  Inv s -> wp (scan_block_comment_body i) (fun _ s' => Adv true s s' /\ True) s.
Proof.
  intros Hi. start Hi. unfold scan_block_comment_body.
  eapply (wp_loop t e true _ (fun _ _ => True)); [done|done|done|].
  intros l s1 Ha1 _. run.
Qed.

Lemma scan_slash_ok s :
  Inv s -> read (pos s) 0 (chr "/") -> branch_ok scan_slash s.
Proof.
  intros Hi Hr. start Hi. branch.
  unfold scan_slash, scan_single_line_comment, scan_multi_line_comment, accept, continue_, done_. run.
  call scan_block_comment_body_ok. run.
Qed.

Lemma scan_conflict_marker_as_token_ok s :
  Inv s ->
  wp scan_conflict_marker_as_token (fun r s' => Adv true s s' /\
    (if r then (pos s < pos s')%nat /\ token s' = Kind.ConflictMarkerTrivia else s' = s)) s.
Proof.
  intros Hi. start Hi. unfold scan_conflict_marker_as_token. do 2 step.
  rewrite (inv_text _ _ _ Hi). run.
  destruct (scan_conflict_marker_total t (pos s) Hv) as (p & Hp & Hb & Hlt); [done|].
  apply wp_unwrap. exists p. split; [done|]. run.
Qed.

Lemma arm_done m s : arm_ok m s -> branch_ok (m ;; done_) s.
Proof.
  intros Hm. branch. step. eapply wp_mono; [exact Hm|]. intros _ s' (H1 & H2 & H3).
  unfold done_. run.
Qed.

Lemma or_conflict_marker_ok m s :
  Inv s -> arm_ok m s -> branch_ok (or_conflict_marker m) s.
Proof.
  intros Hi Hm. start Hi. branch. unfold or_conflict_marker. step.
  call scan_conflict_marker_as_token_ok. destruct r.
  - unfold continue_, done_. run.
  - destruct H2 as [_ ->]. by apply arm_done.
Qed.

Lemma scan_less_than_ok s : Inv s -> read (pos s) 0 (chr "<") -> arm_ok scan_less_than s.
Proof. intros Hi Hr. start Hi. unfold arm_ok, scan_less_than, accept. run. Qed.

Lemma scan_equals_ok s : Inv s -> read (pos s) 0 (chr "=") -> arm_ok scan_equals s.
Proof. intros Hi Hr. start Hi. unfold arm_ok, scan_equals, accept. run. Qed.

Lemma scan_bar_ok s : Inv s -> read (pos s) 0 (chr "|") -> arm_ok scan_bar s.
Proof. intros Hi Hr. start Hi. unfold arm_ok, scan_bar, accept. run. Qed.

(** ** Names *)
Lemma get_identifier_token_not_eof v : get_identifier_token v <> Kind.EndOfFile.
Proof. intros H. pose proof (get_identifier_token_geb v) as Hg. by rewrite H in Hg. Qed.

Lemma scan_invalid_character_ok s :
  Inv s -> (pos s < e)%nat ->
  wp scan_invalid_character (fun _ s' => Adv true s s' /\ (pos s < pos s')%nat
    /\ token s' <> Kind.EndOfFile) s.
Proof. intros Hi Hlt. start Hi. unfold scan_invalid_character. run. Qed.

Lemma set_identifier_token_ok s :
  Inv s -> wp set_identifier_token (fun _ s' => Adv true s s' /\ pos s' = pos s
    /\ token s' <> Kind.EndOfFile) s.
Proof.
  intros Hi. start Hi. unfold set_identifier_token. run. finish.
  match goal with H : token _ = _ |- _ => rewrite H end. apply get_identifier_token_not_eof.
Qed.

Lemma peek_identifier_start_ok k s0 s (Q : option char -> Scanner -> Prop) :
  ScannerInv.Adv t e k s0 s ->
  (forall r, (forall ch, r = Some ch -> at_boundary t (pos s + 2)) -> Q r s) ->
  wp peek_identifier_start Q s.
Proof.
  intros Ha HQ. unfold peek_identifier_start. step.
  eapply peek_unicode_escape_ok; [done|done|done|]. intros r Hr. step. apply HQ.
  destruct r as [ch|]; [|done]. intros ch' _. by apply (Hr ch).
Qed.

Lemma scan_escaped_identifier_ok v s :
  Inv s -> at_boundary t (pos s + 2) ->
  wp (scan_escaped_identifier v) (fun _ s' => Adv true s s' /\ (pos s < pos s')%nat) s.
Proof.
  intros Hi Hb. start Hi. unfold scan_escaped_identifier. run.
  call scan_unicode_escape_ok. run. call scan_identifier_parts_ok. run.
Qed.

Lemma scan_backslash_ok s : Inv s -> read (pos s) 0 92 -> arm_ok scan_backslash s.
Proof.
  intros Hi Hr. start Hi. unfold arm_ok, scan_backslash. step.
  eapply peek_identifier_start_ok; [done|]. intros [ch|] Hb.
  - step. call scan_escaped_identifier_ok. call set_identifier_token_ok. finish.
  - facts. before_end. call scan_invalid_character_ok. finish.
Qed.

Lemma scan_private_name_ok s :
  Inv s -> read (pos s) 0 (chr "#") ->
  wp scan_private_name (fun _ s' => Adv true s s' /\ (pos s < pos s')%nat
    /\ token s' <> Kind.EndOfFile) s.
Proof.
  intros Hi Hr. start Hi. unfold scan_private_name. step.
  call scan_identifier_ok. destruct r; run.
Qed.

Lemma scan_hash_ok s : Inv s -> read (pos s) 0 (chr "#") -> branch_ok scan_hash s.
Proof.
  intros Hi Hr. start Hi. branch. unfold scan_hash, accept, continue_, done_. run.
  - eapply peek_identifier_start_ok; [eassumption|]. intros [ch'|] Hb; run.
    + call scan_escaped_identifier_ok. run.
    + call scan_private_name_ok. run.
  - call scan_private_name_ok. run.
Qed.

Lemma scan_other_ok s c :
  Inv s -> read (pos s) 0 c -> (pos s < e)%nat -> branch_ok scan_other s.
Proof.
  intros Hi Hr Hlt. start Hi. branch. unfold scan_other, continue_, done_. step.
  call scan_identifier_ok. destruct r; run.
  - call set_identifier_token_ok. run.
  - call scan_invalid_character_ok. run.
Qed.

(** ** Literals *)
Section literal_arms.
Context `{JsNumber}.

Lemma scan_dot_ok s : Inv s -> bo_flags s = 0 -> read (pos s) 0 (chr ".") -> arm_ok scan_dot s.
Proof.
  intros Hi Hbo Hr. start Hi. unfold arm_ok, scan_dot, accept. run.
  call scan_number_ok; [exists (chr "."); by auto|]. run.
Qed.

Lemma digits_or_error_ok m ds s :
  Inv s -> wp (digits_or_error m ds) (fun r s' => Adv true s s' /\ pos s' = pos s
    /\ (r = [48] \/ r = ds) /\ r <> []) s.
Proof.
  intros Hi. start Hi. unfold digits_or_error. destruct (bool_decide (ds = [])) eqn:E; run.
  - finish. by left.
  - finish; [by right|]. by apply bool_decide_eq_false in E.
Qed.

Lemma scan_hex_number_ok s :
  Inv s -> bo_flags s = 0 -> at_boundary t (pos s + 2) -> arm_ok scan_hex_number s.
Proof.
  intros Hi Hbo Hb. start Hi. unfold arm_ok, scan_hex_number. run.
  call scan_hex_digits_ok. run. call digits_or_error_ok. run.
  all: call scan_big_int_suffix_ok; [left|run].
  all: match goal with H : ScannerInv.Adv _ _ _ ?s ?c |- bo_flags ?c = 0 =>
         rewrite (adv_flags _ _ _ _ _ H eq_refl) end.
  all: done.
Qed.

Lemma scan_binary_or_octal_number_ok base p m f s :
  prefix_base p = Some base -> 1 < base ->
  Inv s -> at_boundary t (pos s + 2) ->
  arm_ok (scan_binary_or_octal_number base [chr "0"; p] m f) s.
Proof.
  intros Hp Hbase Hi Hb. start Hi. unfold arm_ok, scan_binary_or_octal_number. run.
  call scan_binary_or_octal_digits_ok. run. call digits_or_error_ok. run.
  match goal with H : ScannerInv.Adv _ _ _ s ?c |- wp (add_flags _) _ ?c =>
    apply (wp_add_flags t e false s); [by apply Adv_weaken|done|] end.
  intros s4 Ha4 Hs4.
  step. call scan_big_int_suffix_ok.
  { right. eexists. split; [by rewrite (same_value _ _ Hs4)|].
    destruct H9 as (_ & Hr & Hne). cbn [app].
    apply (base_digits_parse p base); [done| |done].
    destruct Hr as [-> | ->]; [|done]. constructor; [|constructor]. split; [done|lia]. }
  run.
Qed.

Lemma scan_zero_ok s : Inv s -> bo_flags s = 0 -> read (pos s) 0 (chr "0") -> arm_ok scan_zero s.
Proof.
  intros Hi Hbo Hr. start Hi. unfold arm_ok, scan_zero. run.
  all: try (assert (at_boundary t (pos s + 2)) as Hb by side).
  - by apply scan_hex_number_ok.
  - by apply scan_binary_or_octal_number_ok.
  - by apply scan_binary_or_octal_number_ok.
  - call scan_number_ok; [exists (chr "0"); by auto|]. run.
Qed.

Lemma scan_literal_ok s c m :
  scan_literal c = Some m ->
  Inv s -> bo_flags s = 0 -> read (pos s) 0 c -> c <> 0 -> c < 128 -> arm_ok m s.
Proof.
  intros Hm Hi Hbo Hr Hc Hlt. start Hi. unfold scan_literal in Hm.
  repeat match type of Hm with
  | (if ?b then _ else _) = _ =>
      let E := fresh "E" in destruct b eqn:E; [injection Hm as <-; test E|clear E]
  end; [..|done].
  - unfold arm_ok. step. call (scan_string_ok t e Hv He Hesc c false s Hi Hr E). run.
  - unfold arm_ok. step. call (scan_template_ok t e Hv He Hesc false s c Hi Hr Hc Hlt). run.
  - subst. by apply scan_dot_ok.
  - subst. by apply scan_zero_ok.
  - unfold arm_ok. step. call scan_number_ok.
    { exists c. split; [done|]. left. unfold is_ascii_digit. bool_to_goal. }
    run.
  - subst. by apply scan_backslash_ok.
Qed.

Lemma scan_operator_ascii c m : scan_operator c = Some m -> c <> 0 /\ c < 128.
Proof.
  unfold scan_operator, single_char_token. intros H'.
  repeat match type of H' with
  | context [if ?b then _ else _] => destruct b eqn:?; [bool_to_prop; subst; lia|]
  end. done.
Qed.

Lemma scan_literal_ascii c m : scan_literal c = Some m -> c <> 0 /\ c < 128.
Proof.
  unfold scan_literal. intros H'.
  repeat match type of H' with
  | context [if ?b then _ else _] =>
      let E := fresh "E" in destruct b eqn:E; [test E; lia|]
  end. done.
Qed.

(** ** The match, the iteration and the loop *)

(** At the end of the text: the token is [EndOfFile]. *)
Definition at_end (s : Scanner) (r : unit + Kind) (s' : Scanner) : Prop :=
  (e <= pos s)%nat /\ r = inr Kind.EndOfFile /\ s' = put_token Kind.EndOfFile s.

Lemma read_before_end p c : read p 0 c -> c <> 0 \/ (p < e)%nat -> (p < e)%nat.
Proof. intros [[H1 _]|[H1 ->]] [H2|H2]; by rewrite ?Nat.add_0_r in *. Qed.

Lemma scan_match_ok s c :
  Inv s -> bo_flags s = 0 -> read (pos s) 0 c ->
  wp (scan_match c) (fun r s' => at_end s r s' \/
    (pos s < e)%nat /\ (pos s < pos s')%nat /\
    match r with
    | inl _ => Adv true s s'
    | inr k => Adv false s s' /\ k = token s' /\ k <> Kind.EndOfFile
    end) s.
Proof.
  intros Hi Hbo Hr.
  assert (forall m, (pos s < e)%nat -> branch_ok m s ->
    wp m (fun r s' => at_end s r s' \/
      (pos s < e)%nat /\ (pos s < pos s')%nat /\
      match r with
      | inl _ => Adv true s s'
      | inr k => Adv false s s' /\ k = token s' /\ k <> Kind.EndOfFile
      end) s) as Hbr.
  { intros m Hlt Hm. eapply wp_mono; [exact Hm|]. intros r s' H'. by right. }
  assert (forall c', c = c' -> c' <> 0 -> (pos s < e)%nat) as Hlt.
  { intros c' -> Hne. eapply read_before_end; [done|by left]. }
  unfold scan_match.
  apply wp_if; intros E1; test E1.
  { assert (c <> 0 /\ c < 128) as [H0 H1] by lia.
    apply Hbr; [by eapply Hlt|]. by eapply scan_whitespace_ok. }
  apply wp_if; intros E2; test E2.
  { apply Hbr; [eapply Hlt; [done|lia]|]. by apply scan_newline_ok. }
  destruct (scan_operator c) as [m|] eqn:Em.
  { destruct (scan_operator_ascii _ _ Em) as [H0 H1].
    apply Hbr; [by eapply Hlt|]. apply arm_done. by eapply scan_operator_ok. }
  destruct (scan_literal c) as [m|] eqn:Em2.
  { destruct (scan_literal_ascii _ _ Em2) as [H0 H1].
    apply Hbr; [by eapply Hlt|]. apply arm_done. by eapply scan_literal_ok. }
  repeat (apply wp_if; [intros E; test E|intros _];
    [subst c; apply Hbr; [by eapply Hlt|]|]).
  - by apply scan_slash_ok.
  - apply or_conflict_marker_ok; [done|]. by apply scan_less_than_ok.
  - apply or_conflict_marker_ok; [done|]. by apply scan_equals_ok.
  - apply or_conflict_marker_ok; [done|]. start Hi. unfold arm_ok, accept. run.
  - apply or_conflict_marker_ok; [done|]. by apply scan_bar_ok.
  - by apply scan_hash_ok.
  - step. step. rewrite (inv_end _ _ _ Hi). step.
    + unfold done_. left. split; [lia|done].
    + apply Hbr; [eapply read_before_end; [done|lia]|].
      eapply scan_other_ok; [done|done|]. eapply read_before_end; [done|lia].
Qed.

(** What [scan] keeps from the state [s0] where it was called to a state [s] inside its loop. *)
Record Scanning (s0 s : Scanner) : Prop := {
  sc_inv : Inv s;
  sc_flags : bo_flags s = 0;
  sc_pos : (pos s0 <= pos s)%nat;
  sc_variant : language_variant s = language_variant s0;
  sc_target : script_target s = script_target s0;
  sc_skip : skip_trivia_ s = skip_trivia_ s0;
  sc_full : full_start_pos s = pos s0;
  sc_directives : comment_directives s0 `prefix_of` comment_directives s;
  sc_diagnostics : diagnostics s0 `prefix_of` diagnostics s;
}.

(** The result of [scan]. *)
Record scanned (s0 : Scanner) (k : Kind) (s : Scanner) : Prop := {
  res_inv : Inv s;
  res_token : token s = k;
  res_full : full_start_pos s = pos s0;
  res_start : (pos s0 <= token_start s)%nat;
  res_variant : language_variant s = language_variant s0;
  res_target : script_target s = script_target s0;
  res_skip : skip_trivia_ s = skip_trivia_ s0;
  res_directives : comment_directives s0 `prefix_of` comment_directives s;
  res_diagnostics : diagnostics s0 `prefix_of` diagnostics s;
  res_progress :
    if decide (k = Kind.EndOfFile) then (e <= token_start s)%nat /\ pos s = token_start s
    else (token_start s < e)%nat /\ (token_start s < pos s)%nat;
}.

Lemma scan_iteration_ok s0 s :
  Scanning s0 s ->
  wp (scan_iteration tt) (fun r s' =>
    match r with
    | inl _ => Scanning s0 s' /\ (pos s < pos s')%nat
    | inr k => scanned s0 k s'
    end) s.
Proof.
  intros [Hi Hbo Hp H1 H2 H3 H4 H5 H6]. unfold scan_iteration.
  step. apply wp_modify. step. apply wp_modify.
  set (s1 := put_token_value NoValue (set_token_start (pos s) s)).
  assert (Inv s1) as Hi1 by by destruct Hi.
  step. apply (wp_char t e He s1); [done|]. intros c Hr.
  eapply wp_mono; [by apply scan_match_ok|]. intros r s' [Hend|(Hlt & Hpos & Hr')].
  - destruct Hend as (Hle & -> & ->). cbn in Hle. split; try done.
    by destruct Hi1.
  - assert (exists k, Adv k s1 s') as [k []].
    { destruct r; [by eexists|]. destruct Hr' as [Hr' _]. by eexists. }
    cbn in *.
    assert (comment_directives s0 `prefix_of` comment_directives s') by (by etrans).
    assert (diagnostics s0 `prefix_of` diagnostics s') by (by etrans).
    destruct r as [[]|k'].
    + split; [|done]. split; try done; try lia; try congruence.
      by rewrite (ScannerInv.adv_flags _ _ _ _ _ Hr').
    + destruct Hr' as (_ & -> & Hne). split; try done; try lia; try congruence.
      rewrite decide_False by done. lia.
Qed.

Lemma scan_wp s0 : Inv s0 -> wp scan (fun k s => scanned s0 k s) s0.
Proof.
  intros Hi. unfold scan. step. apply wp_modify. step. apply wp_modify.
  unfold loop. do 2 step. unfold loop_fuel. cbn [text put_token_flags set_full_start_pos].
  rewrite (inv_text _ _ _ Hi).
  eapply (wp_iter scan_iteration (fun _ s => Scanning s0 s) (fun _ s => S (length t) - pos s)%nat).
  - intros [] s' Hs. eapply wp_mono; [by apply scan_iteration_ok|].
    intros [[]|k] s''; [|done]. intros [H1 H2]. split; [done|].
    pose proof (inv_pos _ _ _ (sc_inv _ _ H1)) as [_ Hle]. lia.
  - split; try done. destruct Hi. by split.
  - lia.
Qed.
End literal_arms.
End arms.
