(* ===== verification/ScannerThm.v ===== *)
(** * ScannerThm: what scanning guarantees

    The properties of [scan] as a whole: it is total and makes progress, the tokens of a text tile it,
    and speculation can be undone. *)
From S2P Require Import Prelude Text Chars SyntaxKind Monad Numerals JsNum Keywords Trivia.
From S2P Require Import ScannerState ScannerOps Scanner ScannerInv ScannerWp ScannerSpec ScannerLit.
From S2P Require Import ScannerTotal.

(** A scanner over a Rust [str] whose positions are character boundaries. *)
Record well_formed (s : Scanner) : Prop := {
  wf_text : valid_utf8 (text s);
  wf_end : at_boundary (text s) (end_ s);
  wf_inv : Inv (text s) (end_ s) s;
}.

Lemma new_well_formed t v : valid_utf8 t -> well_formed (new t v).
Proof.
  intros Hv. split; [done|apply at_boundary_len|]. split; cbn; try done; (split; [done|lia]).
Qed.

Section scanning.
Context `{JsNumber}.

Lemma scan_runs s :
  well_formed s -> escapes_ascii (text s) ->
  exists k s', scan s = Ok (k, s') /\ scanned (text s) (end_ s) s k s'.
Proof.
  intros [Hv He Hi] Hesc. pose proof (scan_wp (text s) (end_ s) Hv He Hesc s Hi) as Hw.
  apply wp_run in Hw as (k & s' & H1 & H2). by exists k, s'.
Qed.

Lemma scanned_well_formed s k s' :
  well_formed s -> scanned (text s) (end_ s) s k s' ->
  well_formed s' /\ text s' = text s /\ end_ s' = end_ s.
Proof.
  intros [Hv He Hi] Hs. pose proof (res_inv _ _ _ _ _ Hs) as Hi'.
  pose proof (inv_text _ _ _ Hi') as Ht. pose proof (inv_end _ _ _ Hi') as Hend.
  split; [|done]. split; [by rewrite Ht|by rewrite Ht, Hend|by rewrite Ht, Hend].
Qed.

(** C1. [scan] is total and makes progress: on every well-formed scanner whose text has no backslash
    before a non-ASCII character it returns a token without panicking and leaves a well-formed
    scanner over the same text, whose full start is the old position and whose token starts at or
    after it; the token is [EndOfFile] exactly when it starts at the end, and any other token is
    not empty and starts before the end. Diagnostics and comment directives are only appended. *)
Theorem scan_total (s : Scanner) :
  well_formed s -> escapes_ascii (text s) ->
  exists k s', scan s = Ok (k, s') /\ well_formed s'
    /\ text s' = text s /\ end_ s' = end_ s /\ token s' = k
    /\ full_start_pos s' = pos s /\ (pos s <= token_start s' <= pos s')%nat
    /\ (k = Kind.EndOfFile <-> (end_ s <= token_start s')%nat)
    /\ (k <> Kind.EndOfFile -> (token_start s' < pos s')%nat)
    /\ comment_directives s `prefix_of` comment_directives s'
    /\ diagnostics s `prefix_of` diagnostics s'.
Proof.
  intros Hw Hesc. destruct (scan_runs s Hw Hesc) as (k & s' & Hrun & Hs).
  destruct (scanned_well_formed _ _ _ Hw Hs) as (H1 & H2 & H3). exists k, s'.
  destruct Hs as [Hi Ht Hf Hst _ _ _ Hcd Hd Hp]. case_decide as Hk; naive_solver lia.
Qed.

(** ** The tokens of a text *)
Record TokenSpan := mkSpan {
  span_kind : Kind;
  span_full_start : nat;
  span_start : nat;
  span_end : nat;
}.

(** Scanning to the end of the file, as the parser does. *)
Fixpoint scan_all (fuel : nat) (s : Scanner) : outcome (list TokenSpan) :=
  match fuel with
  | O => OutOfFuel
  | S fuel =>
      match scan s with
      | Ok (k, s') =>
          let span := mkSpan k (full_start_pos s') (token_start s') (pos s') in
          if Kind_eqb k Kind.EndOfFile then Ok [span]
          else match scan_all fuel s' with
               | Ok spans => Ok (span :: spans)
               | Panic => Panic
               | OutOfFuel => OutOfFuel
               end
      | Panic => Panic
      | OutOfFuel => OutOfFuel
      end
  end.

(** The text of a token with the trivia before it. *)
Definition full_text (t : bytes) (span : TokenSpan) : bytes :=
  take (span_end span - span_full_start span) (drop (span_full_start span) t).

(** Every token but the last, [EndOfFile], is not empty. *)
Definition spans_ok (spans : list TokenSpan) : Prop :=
  exists front last, spans = front ++ [last] /\ span_kind last = Kind.EndOfFile
    /\ Forall (fun span => span_kind span <> Kind.EndOfFile
                /\ (span_full_start span <= span_start span < span_end span)%nat) front.

Lemma scan_all_ok fuel s :
  well_formed s -> escapes_ascii (text s) -> end_ s = length (text s) ->
  (S (length (text s)) - pos s < fuel)%nat ->
  exists spans, scan_all fuel s = Ok spans /\ spans_ok spans
    /\ concat (map (full_text (text s)) spans) = drop (pos s) (text s).
Proof.
  revert s. induction fuel as [|fuel IH]; intros s Hw Hesc Hend Hf; [lia|].
  destruct (scan_runs s Hw Hesc) as (k & s' & Hrun & Hs).
  destruct (scanned_well_formed _ _ _ Hw Hs) as (Hw' & Ht & He').
  pose proof (inv_pos _ _ _ (res_inv _ _ _ _ _ Hs)) as [_ Hle].
  pose proof (res_full _ _ _ _ _ Hs) as Hfull. pose proof (res_start _ _ _ _ _ Hs) as Hstart.
  pose proof (res_progress _ _ _ _ _ Hs) as Hp. cbn [scan_all]. rewrite Hrun. case_decide as Hk.
  - subst k. cbn [Kind_eqb]. rewrite (proj2 (Kind_eqb_eq _ _) eq_refl). eexists. split; [done|].
    split; [by exists [], (mkSpan Kind.EndOfFile (full_start_pos s') (token_start s') (pos s'))|].
    cbn. unfold full_text. cbn. rewrite app_nil_r, Hfull. apply take_ge. rewrite length_drop. lia.
  - rewrite (proj2 (Kind_eqb_neq _ _) Hk).
    destruct (IH s') as (spans & -> & Hok & Hcat); rewrite ?Ht, ?He'; [done|done|done|lia|].
    rewrite Ht in Hcat. eexists. split; [done|]. split.
    + destruct Hok as (front & last & -> & Hl & Hfr).
      exists (mkSpan k (full_start_pos s') (token_start s') (pos s') :: front), last.
      split; [done|]. split; [done|]. constructor; [|done]. cbn. split; [done|lia].
    + cbn [map concat]. rewrite Hcat. unfold full_text. cbn [span_end span_full_start].
      rewrite Hfull. replace (drop (pos s') (text s))
        with (drop (pos s' - pos s) (drop (pos s) (text s))) by (rewrite drop_drop; f_equal; lia).
      apply take_drop.
Qed.

(** C2. Tokens tile the source: scanning a text to the end terminates, only the last token is
    [EndOfFile], every other token is not empty, and the full texts of the tokens (leading trivia
    included), in order, are the source text, with no byte lost or read twice. *)
Theorem scan_all_tiles (t : bytes) (version : Z) :
  valid_utf8 t -> escapes_ascii t ->
  exists spans, scan_all (S (S (length t))) (new t version) = Ok spans /\ spans_ok spans
    /\ concat (map (full_text t) spans) = t.
Proof.
  intros Hv Hesc. destruct (scan_all_ok (S (S (length t))) (new t version))
    as (spans & H1 & H2 & H3); [by apply new_well_formed|done|done|cbn; lia|].
  exists spans. split; [done|]. split; [done|]. exact H3.
Qed.

(** ** Speculation *)

(** C20. Speculative scanning is undone by [rewind]: after scanning a token from a marked state,
    rewinding restores every field of the scanner except the list of diagnostics, which keeps the
    speculative ones, and the non-ASCII flag. *)
Theorem rewind_scan (s : Scanner) :
  well_formed s -> escapes_ascii (text s) ->
  exists k s', scan s = Ok (k, s')
    /\ rewind (mark s) s'
       = put_contains_non_ascii (contains_non_ascii s') (put_diagnostics (diagnostics s') s).
Proof.
  intros Hw Hesc. destruct (scan_runs s Hw Hesc) as (k & s' & Hrun & Hs).
  destruct (scanned_well_formed _ _ _ Hw Hs) as (_ & Ht & He).
  exists k, s'. split; [done|].
  destruct Hs as [_ _ _ _ Hlv Hst Hsk [ds Hcd] _ _].
  unfold rewind, mark, put_contains_non_ascii, put_diagnostics. cbn. destruct s, s'. cbn in *.
  subst. rewrite take_app_length. reflexivity.
Qed.

End scanning.

Lemma scan_total_witness :
  exists k s', @scan canonical_numbers (new (bstr "let x") 0) = Ok (k, s') /\ token s' = k.
Proof.
  destruct (@scan_total canonical_numbers (new (bstr "let x") 0)) as (k & s' & H1 & _ & _ & _ & H2 & _).
  - apply new_well_formed, is_ascii_valid. reflexivity.
  - apply is_ascii_escapes. reflexivity.
  - exists k, s'. split; [exact H1|exact H2].
Defined.

Lemma scan_all_tiles_witness :
  exists spans, @scan_all canonical_numbers 12 (new (bstr "a = b + 1;") 0) = Ok spans
    /\ concat (map (full_text (bstr "a = b + 1;")) spans) = bstr "a = b + 1;".
Proof.
  destruct (@scan_all_tiles canonical_numbers (bstr "a = b + 1;") 0) as (spans & H1 & _ & H2).
  - apply is_ascii_valid. reflexivity.
  - apply is_ascii_escapes. reflexivity.
  - exists spans. split; [exact H1|exact H2].
Defined.

Lemma rewind_scan_witness :
  exists k s', @scan canonical_numbers (new (bstr "// @ts-ignore") 0) = Ok (k, s')
    /\ rewind (mark (new (bstr "// @ts-ignore") 0)) s'
       = put_contains_non_ascii (contains_non_ascii s')
           (put_diagnostics (diagnostics s') (new (bstr "// @ts-ignore") 0)).
Proof.
  destruct (@rewind_scan canonical_numbers (new (bstr "// @ts-ignore") 0)) as (k & s' & H1 & H2).
  - apply new_well_formed, is_ascii_valid. reflexivity.
  - apply is_ascii_escapes. reflexivity.
  - exists k, s'. split; [exact H1|exact H2].
Defined.
