(* ===== verification/ScannerPanic.v ===== *)
(** * ScannerPanic: the escapes on which the scanner panics

    [scan_escape_sequence] reads the character after a backslash as a byte. Before a character of more
    than one byte it stops inside the character, and the next slice of the text panics. *)
From S2P Require Import Prelude Text Chars SyntaxKind Monad Numerals JsNum Keywords Trivia.
From S2P Require Import ScannerState ScannerOps Scanner.

Section panics.

Lemma run_char s b : (pos s < end_ s)%nat -> text s !! pos s = Some b -> char_ s = Ok (b, s).
Proof.
  intros H1 H2. unfold char_. rewrite (run_bind get _ s s s) by done.
  by rewrite (proj2 (Nat.ltb_lt _ _) H1), H2.
Qed.

Lemma run_char_at s n b :
  (pos s + n < end_ s)%nat -> text s !! (pos s + n)%nat = Some b -> char_at n s = Ok (b, s).
Proof.
  intros H1 H2. unfold char_at. rewrite (run_bind get _ s s s) by done.
  by rewrite (proj2 (Nat.ltb_lt _ _) H1), H2.
Qed.

Lemma run_char_and_size_ascii s b :
  (pos s < end_ s)%nat -> text s !! pos s = Some b -> b < 128 -> char_and_size s = Ok ((b, 1%nat), s).
Proof.
  intros H1 H2 H3. unfold char_and_size. rewrite (run_bind get _ s s s) by done.
  rewrite (proj2 (Nat.leb_gt _ _) H1), H2. rewrite (run_bind _ _ s b s) by done.
  by rewrite (proj2 (Z.ltb_lt _ _) H3).
Qed.

(** Inside a character [char_and_size] finds nothing to decode. *)
Lemma run_char_and_size_inner s :
  is_char_boundary (text s) (pos s) = false -> (pos s < end_ s)%nat -> (end_ s <= length (text s))%nat ->
  char_and_size s = Ok ((0, 0%nat), s).
Proof.
  intros H1 H2 H3. unfold char_and_size. rewrite (run_bind get _ s s s) by done.
  rewrite (proj2 (Nat.leb_gt _ _) H2).
  destruct (lookup_lt_is_Some_2 (text s) (pos s)) as [b Hb]; [lia|]. rewrite Hb.
  rewrite (run_bind _ _ s b s) by done.
  destruct (b <? 128) eqn:E.
  - exfalso. unfold is_char_boundary in H1. destruct (pos s); [done|]. rewrite Hb in H1.
    unfold is_boundary_byte in H1. by rewrite E in H1.
  - unfold slice_from, slice. rewrite H1, andb_false_r. done.
Qed.

Lemma lookup_encode t i ch size k :
  char_at_spec t i ch size -> (k < size)%nat -> t !! (i + k)%nat = utf8_encode ch !! k.
Proof.
  intros Hc Hk. rewrite <- (cas_take _ _ _ _ Hc), lookup_take_lt by done. by rewrite lookup_drop.
Qed.

(** The first two bytes of a character that is not ASCII; U+0085, U+2028 and U+2029 are the ones
    [scan_escape_other] recognises. *)
Lemma encode_two ch :
  is_scalar ch = true -> 128 <= ch -> ch <> 133 -> ch <> 8232 -> ch <> 8233 ->
  exists b0 b1, utf8_encode ch !! 0%nat = Some b0 /\ utf8_encode ch !! 1%nat = Some b1
    /\ 194 <= b0 < 256
    /\ (b0 = 194 -> b1 <> 133)
    /\ (b0 = 226 -> b1 = 128 -> exists b2, utf8_encode ch !! 2%nat = Some b2 /\ b2 <> 168 /\ b2 <> 169).
Proof.
  intros Hs Hlo H1 H2 H3. unfold is_scalar in Hs.
  assert (0 <= ch < 1114112) as Hch.
  { apply orb_true_iff in Hs as [Hs|Hs]; bool_to_prop; lia. }
  unfold utf8_encode. repeat case_if; try lia; eexists _, _; cbn;
    (split; [reflexivity|]); (split; [reflexivity|]); (split; [zdiv|]); (split; [intros; zdiv|]);
    intros H4 H5; first [exfalso; zdiv | eexists; split; [reflexivity|zdiv]].
Qed.

(** The text at a backslash before such a character. *)
Record bad_escape (t : bytes) (p e : nat) (ch : char) : Prop := {
  be_backslash : t !! p = Some 92;
  be_char : exists size, char_at_spec t (p + 1) ch size /\ (p + 1 + size <= e)%nat;
  be_end : (e <= length t)%nat;
  be_range : 128 <= ch /\ ch <> 133 /\ ch <> 8232 /\ ch <> 8233;
}.

Lemma scan_escape_sequence_bad s ch :
  bad_escape (text s) (pos s) (end_ s) ch ->
  exists r, scan_escape_sequence (Z.lor ESC_STRING ESC_REPORT_ERRORS) s
    = Ok (r, set_pos (pos s + 2) s).
Proof.
  intros [Hbs (size & Hc & He) Hl (R1 & R2 & R3 & R4)].
  destruct (encode_two ch (cas_scalar _ _ _ _ Hc) R1 R2 R3 R4) as (b0 & b1 & E0 & E1 & Hb0 & Hx & Hy).
  assert (2 <= size)%nat as Hsz.
  { rewrite (cas_size _ _ _ _ Hc), <- length_utf8_encode. by apply lookup_lt_Some in E1. }
  assert (text s !! (pos s + 1)%nat = Some b0) as T0.
  { rewrite <- (Nat.add_0_r (pos s + 1)), (lookup_encode _ _ ch size) by (done || lia). done. }
  assert (text s !! (pos s + 1 + 1)%nat = Some b1) as T1.
  { rewrite (lookup_encode _ _ ch size) by (done || lia). done. }
  exists (utf8_encode b0).
  unfold scan_escape_sequence. rewrite (run_bind (gets pos) _ s (pos s) s) by done.
  rewrite (run_bind (advance 1) _ s tt (set_pos (pos s + 1) s)) by done.
  rewrite (run_bind char_ _ _ b0 (set_pos (pos s + 1) s)) by (apply run_char; [cbn; lia|done]).
  repeat match goal with
  | |- context [if ?x =? ?y then _ else _] => rewrite (proj2 (Z.eqb_neq x y)) by lia
  end.
  rewrite (run_bind (advance 1) _ _ tt (set_pos (pos s + 1 + 1) s)) by done.
  repeat match goal with
  | |- context [if ?x =? ?y then _ else _] => rewrite (proj2 (Z.eqb_neq x y)) by lia
  end.
  rewrite (proj2 (Z.leb_gt b0 55)) by lia. rewrite andb_false_r.
  rewrite (proj2 (Z.eqb_neq b0 56)), (proj2 (Z.eqb_neq b0 57)) by lia. cbn [orb].
  unfold scan_escape_other.
  rewrite (run_bind char_ _ _ b1 (set_pos (pos s + 1 + 1) s)) by (apply run_char; [cbn; lia|done]).
  assert (exists c1, char_at 1 (set_pos (pos s + 1 + 1) s) = Ok (c1, set_pos (pos s + 1 + 1) s)
    /\ (b0 = 226 -> b1 = 128 -> c1 <> 168 /\ c1 <> 169)) as (c1 & Ec1 & Hc1).
  { destruct (decide (b0 = 226 /\ b1 = 128)) as [[Hb Hb']|Hne].
    - destruct (Hy Hb Hb') as (b2 & E2 & Hne).
      assert (2 < size)%nat as Hsz3.
      { rewrite (cas_size _ _ _ _ Hc), <- length_utf8_encode. by apply lookup_lt_Some in E2. }
      exists b2. split; [|done]. apply run_char_at; [cbn; lia|]. cbn.
      replace (pos s + 1 + 1 + 1)%nat with (pos s + 1 + 2)%nat by lia.
      by rewrite (lookup_encode _ _ ch size).
    - destruct (decide (pos s + 1 + 1 + 1 < end_ s)%nat) as [Hlt|Hge].
      + destruct (lookup_lt_is_Some_2 (text s) (pos s + 1 + 1 + 1)) as [b2 Hb2]; [lia|].
        exists b2. split; [by apply run_char_at|naive_solver].
      + exists 0. split; [|done]. unfold char_at. rewrite (run_bind get _ _ _ _ eq_refl).
        cbn [pos set_pos end_]. by rewrite (proj2 (Nat.ltb_ge _ _)) by lia. }
  rewrite (run_bind (char_at 1) _ _ _ _ Ec1).
  replace (pos s + 2)%nat with (pos s + 1 + 1)%nat by lia.
  destruct ((b0 =? 226) && (b1 =? 128)) eqn:E226.
  - bool_to_prop. destruct Hc1 as [N1 N2]; [done|done|].
    by rewrite (proj2 (Z.eqb_neq _ _) N1), (proj2 (Z.eqb_neq _ _) N2).
  - destruct ((b0 =? 194) && (b1 =? 133)) eqn:E194; [|done].
    bool_to_prop. by destruct Hx.
Qed.

Lemma scan_string_loop_bad s quote ch :
  quote <> 92 -> bad_escape (text s) (pos s) (end_ s) ch ->
  scan_string_loop quote false (pos s) s = Panic.
Proof.
  intros Hq Hb. pose proof Hb as [Hbs (size & Hc & He) Hl (R1 & _)].
  destruct (scan_escape_sequence_bad s ch Hb) as [r Hr].
  assert (2 <= size)%nat as Hsz.
  { rewrite (cas_size _ _ _ _ Hc). unfold len_utf8. repeat case_if; lia. }
  assert (is_char_boundary (text s) (pos s + 2) = false) as Hin.
  { apply (cas_inner _ _ _ _ Hc). lia. }
  assert (is_char_boundary (text s) (pos s) = true) as Hbd.
  { unfold is_char_boundary. destruct (pos s); [done|]. by rewrite Hbs. }
  (* The first iteration leaves the scanner inside the character. *)
  set (s' := set_pos (pos s + 2) s).
  unfold scan_string_loop, loop. rewrite (run_bind get _ s s s) by done. unfold loop_fuel.
  cbn [iter]. rewrite (run_bind _ _ s (inl (Some r, (pos s + 2)%nat)) s').
  2: { rewrite (run_bind _ _ s (92, 1%nat) s) by (apply run_char_and_size_ascii; (done || lia)).
    cbn [Nat.eqb]. rewrite (proj2 (Z.eqb_neq 92 quote)) by done. cbn [Z.eqb Pos.eqb andb negb].
    rewrite (run_bind (push_or_insert_part None (pos s)) _ s [] s).
    - rewrite (run_bind _ _ s r s') by exact Hr. done.
    - unfold push_or_insert_part. rewrite (run_bind (gets pos) _ s (pos s) s) by done.
      rewrite (run_bind (text_slice _ _) _ s [] s); [done|].
      unfold text_slice. rewrite (run_bind get _ s s s) by done.
      rewrite slice_some by done. by rewrite Nat.sub_diag. }
  (* The second one finds no character there and slices. *)
  cbn beta iota. apply panic_bind. rewrite (run_bind _ _ s' (0, 0%nat) s').
  2: { apply run_char_and_size_inner; [done|cbn; lia|done]. }
  cbn [Nat.eqb]. apply panic_bind, panic_bind. unfold push_part.
  rewrite (run_bind (gets pos) _ s' (pos s') s') by done. apply panic_bind.
  unfold text_slice. rewrite (run_bind get _ s' s' s') by done.
  unfold slice. cbn [text pos set_pos s']. by rewrite Hin, andb_false_r.
Qed.

(** The text at an opening quote whose first character is such an escape. *)
Lemma scan_string_bad s quote ch :
  quote = 34 \/ quote = 39 -> (pos s < end_ s)%nat -> text s !! pos s = Some quote ->
  at_boundary (text s) (end_ s) -> bad_escape (text s) (pos s + 1) (end_ s) ch ->
  scan_string_and_set_token_value false s = Panic.
Proof.
  intros Hq Hlt Ht [Heb _] Hb. pose proof Hb as [Hbs (size & Hc & He) _ _].
  unfold scan_string_and_set_token_value. rewrite (run_bind char_ _ s quote s) by (by apply run_char).
  set (s1 := if quote =? 39 then put_token_flags (Z.lor (token_flags s) TokenFlags.SINGLE_QUOTE) s else s).
  rewrite (run_bind (when _ _) _ s tt s1) by (subst s1; by destruct (quote =? 39)).
  assert (len_utf8 quote = 1%nat) as -> by (by destruct Hq as [-> | ->]).
  assert (utf8_encode quote = [quote]) as -> by (by destruct Hq as [-> | ->]).
  set (s2 := set_pos (pos s + 1) s1).
  rewrite (run_bind (advance 1) _ s1 tt s2) by (subst s2 s1; by destruct (quote =? 39)).
  assert (text s2 = text s /\ end_ s2 = end_ s /\ pos s2 = (pos s + 1)%nat) as (T2 & E2 & P2).
  { subst s2 s1. by destruct (quote =? 39). }
  rewrite (run_bind (gets pos) _ s2 (pos s2) s2), (run_bind (gets end_) _ s2 (end_ s2) s2) by done.
  set (rest := take (end_ s - (pos s + 1)) (drop (pos s + 1) (text s))).
  rewrite (run_bind (text_slice _ _) _ s2 rest s2).
  2: { unfold text_slice. rewrite (run_bind get _ s2 s2 s2) by done. rewrite T2, E2, P2.
    rewrite slice_some; [done|lia| |done].
    unfold is_char_boundary. rewrite Nat.add_1_r in *. by rewrite Hbs. }
  assert (rest !! 0%nat = Some 92) as Hr0.
  { subst rest. rewrite lookup_take_lt by lia. by rewrite lookup_drop, Nat.add_0_r. }
  assert (scan_string_loop quote false (pos s2) s2 = Panic) as Hloop.
  { apply (scan_string_loop_bad s2 quote ch); [lia|]. by rewrite T2, E2, P2. }
  destruct (find_sub [quote] rest) as [o|] eqn:Eo; [|done].
  apply find_sub_Some in Eo as [Eo _]. apply starts_with_spec in Eo as [x Hx].
  assert (rest !! o = Some quote) as Ho.
  { rewrite <- (Nat.add_0_r o), <- lookup_drop, Hx. done. }
  destruct o as [|o]; [rewrite Hr0 in Ho; injection Ho as <-; lia|]. cbn [Nat.eqb].
  pose proof Ho as Ho'. subst rest. apply lookup_take_Some in Ho' as [Ho' _].
  rewrite lookup_drop in Ho'.
  rewrite (run_bind (text_slice _ _) _ s2 (take (S o) (drop (pos s + 1) (text s))) s2).
  2: { unfold text_slice. rewrite (run_bind get _ s2 s2 s2) by done. rewrite T2, P2.
    rewrite slice_some; [by rewrite Nat.add_comm, Nat.add_sub|lia| |].
    - unfold is_char_boundary. rewrite Nat.add_1_r in *. by rewrite Hbs.
    - unfold is_char_boundary. destruct (pos s + 1 + S o)%nat eqn:E; [lia|]. rewrite Ho'.
      by destruct Hq as [-> | ->]. }
  rewrite (drop_S _ 92) by done. unfold simple_literal, contains_byte. cbn [take existsb].
  change (92 =? 92) with true. cbn [orb negb]. rewrite !andb_false_r. exact Hloop.
Qed.

Context `{JsNumber}.

(** C24. The scanner panics on a string literal whose first character is a backslash before a character
    of more than one byte (other than the line breaks U+0085, U+2028 and U+2029, whose bytes
    [scan_escape_sequence] matches): wherever such a literal starts, whatever follows it. *)
Theorem scan_string_escape_panics (s : Scanner) (quote ch : char) :
  quote = 34 \/ quote = 39 ->
  (pos s < end_ s)%nat ->
  text s !! pos s = Some quote ->
  at_boundary (text s) (end_ s) ->
  bad_escape (text s) (pos s + 1) (end_ s) ch ->
  scan s = Panic.
Proof.
  intros Hq Hlt Ht He Hb. unfold scan.
  set (s0 := put_token_flags TokenFlags.NONE (set_full_start_pos (pos s) s)).
  rewrite (run_bind _ _ s tt (set_full_start_pos (pos s) s)) by done.
  rewrite (run_bind _ _ _ tt s0) by done.
  unfold loop. rewrite (run_bind get _ s0 s0 s0) by done. unfold loop_fuel. cbn [iter].
  apply panic_bind. unfold scan_iteration.
  set (s1 := put_token_value NoValue (set_token_start (pos s0) s0)).
  rewrite (run_bind _ _ s0 tt (set_token_start (pos s0) s0)) by done.
  rewrite (run_bind clear_token_value _ _ tt s1) by done.
  rewrite (run_bind char_ _ s1 quote s1) by (by apply run_char).
  set (arm := (scan_string_and_set_token_value false ;; set_token Kind.StringLiteral) : MS unit).
  assert (scan_match quote = (arm ;; done_))
    as -> by (by destruct Hq as [-> | ->]).
  apply panic_bind, panic_bind. by apply (scan_string_bad s1 quote ch).
Qed.

End panics.

Lemma scan_string_escape_panics_witness :
  valid_utf8 (34 :: 92 :: utf8_encode 233 ++ [34])
  /\ @scan canonical_numbers (new (34 :: 92 :: utf8_encode 233 ++ [34]) 0) = Panic.
Proof.
  split.
  - exists [34; 92; 233; 34]. split; [repeat constructor|reflexivity].
  - apply (@scan_string_escape_panics canonical_numbers _ 34 233); [by left|cbn; lia|done|split; [done|cbn; lia]|].
    split; [done| |cbn; lia|lia]. exists 2%nat. split; [|cbn; lia].
    split; try done; [cbn; lia|cbn; lia|].
    intros j Hj. cbn in Hj. by assert (j = 3%nat) as -> by lia.
Defined.
