(* ===== verification/ScannerFun.v ===== *)
(** * ScannerFun: which token a text is, and its value

    Functional correctness of [scan] on identifiers and keywords, string literals and punctuation. *)
From S2P Require Import Prelude Text Chars SyntaxKind Monad Numerals JsNum Keywords Trivia.
From S2P Require Import ScannerState ScannerOps Scanner ScannerPanic.

(** The bytes of the text from [p] on, up to the end, start with [w]. *)
Definition text_at (s : Scanner) (p : nat) (w : bytes) : Prop :=
  forall k b, w !! k = Some b -> (p + k < end_ s)%nat /\ text s !! (p + k)%nat = Some b.

Lemma text_at_cons s p b w :
  text_at s p (b :: w) <-> ((p < end_ s)%nat /\ text s !! p = Some b) /\ text_at s (S p) w.
Proof.
  split.
  - intros H. split.
    + specialize (H 0%nat b eq_refl). by rewrite Nat.add_0_r in H.
    + intros k b' Hk. specialize (H (S k) b' Hk). by rewrite Nat.add_succ_r in H.
  - intros [H1 H2] [|k] b' Hk.
    + rewrite Nat.add_0_r. cbn in Hk. injection Hk as <-. done.
    + rewrite Nat.add_succ_r. by apply H2.
Qed.

(** What [char_] sees at [p]. *)
Definition char_after (s : Scanner) (p : nat) : char :=
  if (p <? end_ s)%nat then default 0 (text s !! p) else 0.

Lemma run_char_after s :
  (end_ s <= length (text s))%nat -> char_ s = Ok (char_after s (pos s), s).
Proof.
  intros He. unfold char_, char_after. rewrite (run_bind get _ s s s) by done.
  destruct (pos s <? end_ s)%nat eqn:E; [|done]. bool_to_prop.
  destruct (lookup_lt_is_Some_2 (text s) (pos s)) as [b Hb]; [lia|]. by rewrite Hb.
Qed.

Lemma run_char_at_after s n :
  (end_ s <= length (text s))%nat -> char_at n s = Ok (char_after s (pos s + n), s).
Proof.
  intros He. unfold char_at, char_after. rewrite (run_bind get _ s s s) by done.
  destruct (pos s + n <? end_ s)%nat eqn:E; [|done]. bool_to_prop.
  destruct (lookup_lt_is_Some_2 (text s) (pos s + n)) as [b Hb]; [lia|]. by rewrite Hb.
Qed.

(** ** Identifiers and keywords *)
Definition word_char (ch : char) : bool := is_word_character ch || (ch =? chr "$").
Definition word_start (ch : char) : bool :=
  is_ascii_alphabetic ch || (ch =? chr "_") || (ch =? chr "$").

(** An ASCII identifier. *)
Definition ascii_word (w : bytes) : Prop :=
  match w with
  | [] => False
  | b :: r => word_start b = true /\ Forall (fun ch => word_char ch = true) r
  end.

(** What may follow a word: neither a part of it, nor an escape, nor a non-ASCII character. *)
Definition ends_word (ch : char) : Prop :=
  word_char ch = false /\ ch <> 92 /\ ch < 128.

Lemma scan_word_run w s :
  (end_ s <= length (text s))%nat ->
  Forall (fun ch => word_char ch = true) w ->
  text_at s (S (pos s)) w ->
  word_char (char_after s (pos s + S (length w))) = false ->
  forall fuel, (length w < fuel)%nat ->
  iter fuel (fun _ : unit =>
    advance 1 ;;
    ch ← char_;
    if is_word_character ch || (ch =? chr "$") then mret (inl tt) else mret (inr ch)) tt s
  = Ok (char_after s (pos s + S (length w)), set_pos (pos s + S (length w)) s).
Proof.
  intros He Hw. revert s He. induction Hw as [|b w Hb Hw IH]; intros s He Ht Hend fuel Hf;
    (destruct fuel as [|fuel]; [cbn in Hf; lia|]); cbn [iter].
  - cbn [length] in *. set (s1 := set_pos (pos s + 1) s).
    rewrite (run_bind _ _ s (inr (char_after s (pos s + 1))) s1); [done|].
    rewrite (run_bind (advance 1) _ s tt s1) by done.
    rewrite (run_bind char_ _ s1 (char_after s (pos s + 1)) s1) by (by apply run_char_after).
    unfold word_char in Hend. by rewrite Hend.
  - apply text_at_cons in Ht as [[Hlt Hb'] Ht]. set (s1 := set_pos (S (pos s)) s).
    rewrite (run_bind _ _ s (inl tt) s1).
    + cbn [length] in *. rewrite (IH s1); cbn [pos set_pos s1].
      * by replace (S (pos s) + S (length w))%nat with (pos s + S (S (length w)))%nat by lia.
      * done.
      * exact Ht.
      * by replace (S (pos s) + S (length w))%nat with (pos s + S (S (length w)))%nat by lia.
      * lia.
    + rewrite (run_bind (advance 1) _ s tt s1).
      * rewrite (run_bind char_ _ s1 b s1) by (by apply run_char).
        unfold word_char in Hb. by rewrite Hb.
      * unfold advance, modify. subst s1. by rewrite Nat.add_1_r.
Qed.

(** Tests on a character below 128 are decided by trying them all. *)
Definition ascii_all (P : char -> bool) : bool :=
  forallb (fun n => P (Z.of_nat n)) (seq 0 128).

Lemma ascii_all_spec P ch : ascii_all P = true -> 0 <= ch < 128 -> P ch = true.
Proof.
  unfold ascii_all. rewrite forallb_forall. intros H Hch.
  rewrite <- (Z2Nat.id ch) by lia. apply H, in_seq. lia.
Qed.

Section functional.
Context `{JsNumber}.

(** The match of [scan] on a word goes to its last arm. *)
Definition reaches_other (ch : char) : bool :=
  negb ((ch =? 9) || (ch =? 11) || (ch =? 12) || (ch =? 32))
  && negb ((ch =? 10) || (ch =? 13))
  && match scan_operator ch with Some _ => false | None => true end
  && match scan_literal ch with Some _ => false | None => true end
  && negb (ch =? chr "/") && negb (ch =? chr "<") && negb (ch =? chr "=") && negb (ch =? chr ">")
  && negb (ch =? chr "|") && negb (ch =? chr "#") && negb (ch =? 0).

Lemma word_start_range ch : word_start ch = true -> 0 <= ch < 128.
Proof.
  unfold word_start, is_ascii_alphabetic, is_ascii_uppercase, is_ascii_lowercase.
  rewrite !orb_true_iff, !andb_true_iff, !Z.eqb_eq, !Z.leb_le. lia.
Qed.

Lemma scan_match_other ch s :
  reaches_other ch = true -> scan_match ch s = scan_other s.
Proof.
  unfold reaches_other, scan_match. intros Hr. bool_to_prop.
  repeat match goal with H : negb _ = true |- _ => apply negb_true_iff in H end.
  repeat match goal with H : _ || _ = false |- _ => apply orb_false_iff in H as [? ?] end.
  bool_to_prop.
  repeat match goal with H : ch <> ?c |- _ => rewrite (proj2 (Z.eqb_neq ch c) H); clear H end.
  cbn [orb]. destruct (scan_operator ch); [done|]. destruct (scan_literal ch); done.
Qed.

Lemma word_start_reaches_other ch : word_start ch = true -> reaches_other ch = true.
Proof.
  intros Hw. pose proof (word_start_range ch Hw) as Hr.
  assert (ascii_all (fun ch => negb (word_start ch) || reaches_other ch) = true) as Hall.
  { vm_compute. reflexivity. }
  pose proof (ascii_all_spec _ ch Hall Hr) as Hc. cbn beta in Hc. by rewrite Hw in Hc.
Qed.

Lemma scan_identifier_word s b w :
  (end_ s <= length (text s))%nat ->
  ascii_word (b :: w) -> text_at s (pos s) (b :: w) ->
  ends_word (char_after s (pos s + S (length w))) ->
  scan_identifier 0 s
  = Ok (true, put_token_value (SourceRange (pos s) (pos s + S (length w)))
                (set_pos (pos s + S (length w)) s)).
Proof.
  intros He [Hb Hw] Ht (E1 & E2 & E3). unfold scan_identifier.
  apply text_at_cons in Ht as [[Hlt Hb'] Ht].
  rewrite (run_bind (gets pos) _ s (pos s) s) by done.
  set (s0 := set_pos (pos s + 0) s). rewrite (run_bind (advance 0) _ s tt s0) by done.
  assert (pos s0 = pos s) as P0 by (cbn; lia).
  rewrite (run_bind char_ _ s0 b s0) by (apply run_char; by rewrite P0).
  unfold word_start in Hb. rewrite Hb.
  set (ch := char_after s (pos s + S (length w))) in *.
  rewrite (run_bind scan_word _ s0 ch (set_pos (pos s + S (length w)) s)).
  - unfold is_ascii_char. rewrite (proj2 (Z.ltb_lt _ _) E3), (proj2 (Z.eqb_neq _ _) E2). done.
  - unfold scan_word, loop. rewrite (run_bind get _ s0 s0 s0) by done.
    rewrite (scan_word_run w s0); rewrite ?P0; try done.
    unfold loop_fuel. cbn [text set_pos s0].
    assert (length w <= length (text s))%nat; [|lia].
    destruct w as [|b' w'] using rev_ind; [cbn; lia|].
    destruct (Ht (length w') b') as [_ Hl]; [by rewrite lookup_app_r, Nat.sub_diag|].
    apply lookup_lt_Some in Hl. rewrite length_app. cbn. lia.
Qed.

(** The state in which [scan] reads its first character. *)
Definition scan_start (s : Scanner) : Scanner :=
  put_token_value NoValue
    (set_token_start (pos s) (put_token_flags TokenFlags.NONE (set_full_start_pos (pos s) s))).

(** The first iteration of [scan] decides. *)
Lemma scan_first s c k s' :
  char_ (scan_start s) = Ok (c, scan_start s) ->
  scan_match c (scan_start s) = Ok (inr k, s') -> scan s = Ok (k, s').
Proof.
  intros Hc Hm. unfold scan.
  rewrite (run_bind _ _ s tt (set_full_start_pos (pos s) s)) by done.
  set (s0 := put_token_flags TokenFlags.NONE (set_full_start_pos (pos s) s)).
  rewrite (run_bind _ _ _ tt s0) by done.
  unfold loop. rewrite (run_bind get _ s0 s0 s0) by done. unfold loop_fuel. cbn [iter].
  rewrite (run_bind _ _ s0 (inr k) s'); [done|]. unfold scan_iteration.
  rewrite (run_bind _ _ s0 tt (set_token_start (pos s0) s0)) by done.
  rewrite (run_bind clear_token_value _ _ tt (scan_start s)) by done.
  by rewrite (run_bind char_ _ _ c (scan_start s)).
Qed.

Lemma char_after_boundary s p :
  at_boundary (text s) (end_ s) -> (p <= end_ s)%nat -> char_after s p < 128 ->
  is_char_boundary (text s) p = true.
Proof.
  intros [Hb He] Hp Hc. unfold char_after in Hc. destruct (p <? end_ s)%nat eqn:E; bool_to_prop.
  - destruct (lookup_lt_is_Some_2 (text s) p) as [b Eb]; [lia|]. rewrite Eb in Hc.
    unfold is_char_boundary. destruct p; [done|]. rewrite Eb. unfold is_boundary_byte.
    cbn in Hc. by rewrite (proj2 (Z.ltb_lt _ _) Hc).
  - by replace p with (end_ s) by lia.
Qed.

Lemma text_at_take s p w : text_at s p w -> take (length w) (drop p (text s)) = w.
Proof.
  revert p. induction w as [|b w IH]; intros p Ht; [done|].
  apply text_at_cons in Ht as [[_ Hb] Ht]. rewrite (drop_S _ b) by done. cbn. f_equal. by apply IH.
Qed.

Lemma text_at_end s p w : text_at s p w -> w <> [] -> (p + length w <= end_ s)%nat.
Proof.
  intros Ht Hw. destruct w as [|b w _] using rev_ind; [done|].
  destruct (Ht (length w) b) as [H1 _]; [by rewrite lookup_app_r, Nat.sub_diag|].
  rewrite length_app. cbn. lia.
Qed.

(** The text of a range between two boundaries. *)
Lemma token_value_range s p w :
  text_at s p w -> token_value_ s = SourceRange p (p + length w) ->
  is_char_boundary (text s) p = true -> is_char_boundary (text s) (p + length w) = true ->
  token_value s = Ok (w, s).
Proof.
  intros Ht Hval H1 H2. unfold token_value. rewrite (run_bind get _ s s s) by done. rewrite Hval.
  rewrite slice_some by (done || lia).
  replace (p + length w - p)%nat with (length w) by lia. by rewrite (text_at_take s p w Ht).
Qed.

(** ** What a word spells

    The keywords with their kinds, given apart from the scanner's table and its filter. *)

(** The reserved words of ECMAScript. *)
Definition reserved_words : list (Kind * bytes) :=
  [(Kind.BreakKeyword, bstr "break"); (Kind.CaseKeyword, bstr "case"); (Kind.CatchKeyword, bstr "catch");
   (Kind.ClassKeyword, bstr "class"); (Kind.ConstKeyword, bstr "const"); (Kind.ContinueKeyword, bstr "continue");
   (Kind.DebuggerKeyword, bstr "debugger"); (Kind.DefaultKeyword, bstr "default");
   (Kind.DeleteKeyword, bstr "delete"); (Kind.DoKeyword, bstr "do"); (Kind.ElseKeyword, bstr "else");
   (Kind.EnumKeyword, bstr "enum"); (Kind.ExportKeyword, bstr "export"); (Kind.ExtendsKeyword, bstr "extends");
   (Kind.FalseKeyword, bstr "false"); (Kind.FinallyKeyword, bstr "finally"); (Kind.ForKeyword, bstr "for");
   (Kind.FunctionKeyword, bstr "function"); (Kind.IfKeyword, bstr "if"); (Kind.ImportKeyword, bstr "import");
   (Kind.InKeyword, bstr "in"); (Kind.InstanceOfKeyword, bstr "instanceof"); (Kind.NewKeyword, bstr "new");
   (Kind.NullKeyword, bstr "null"); (Kind.ReturnKeyword, bstr "return"); (Kind.SuperKeyword, bstr "super");
   (Kind.SwitchKeyword, bstr "switch"); (Kind.ThisKeyword, bstr "this"); (Kind.ThrowKeyword, bstr "throw");
   (Kind.TrueKeyword, bstr "true"); (Kind.TryKeyword, bstr "try"); (Kind.TypeOfKeyword, bstr "typeof");
   (Kind.VarKeyword, bstr "var"); (Kind.VoidKeyword, bstr "void"); (Kind.WhileKeyword, bstr "while");
   (Kind.WithKeyword, bstr "with")].

(** The words that are reserved in strict mode. *)
Definition strict_words : list (Kind * bytes) :=
  [(Kind.ImplementsKeyword, bstr "implements"); (Kind.InterfaceKeyword, bstr "interface");
   (Kind.LetKeyword, bstr "let"); (Kind.PackageKeyword, bstr "package"); (Kind.PrivateKeyword, bstr "private");
   (Kind.ProtectedKeyword, bstr "protected"); (Kind.PublicKeyword, bstr "public");
   (Kind.StaticKeyword, bstr "static"); (Kind.YieldKeyword, bstr "yield")].

(** The words of TypeScript that are keywords where the grammar asks for them. *)
Definition contextual_words : list (Kind * bytes) :=
  [(Kind.AbstractKeyword, bstr "abstract"); (Kind.AccessorKeyword, bstr "accessor"); (Kind.AnyKeyword, bstr "any");
   (Kind.AsKeyword, bstr "as"); (Kind.AssertKeyword, bstr "assert"); (Kind.AssertsKeyword, bstr "asserts");
   (Kind.AsyncKeyword, bstr "async"); (Kind.AwaitKeyword, bstr "await"); (Kind.BigIntKeyword, bstr "bigint");
   (Kind.BooleanKeyword, bstr "boolean"); (Kind.ConstructorKeyword, bstr "constructor");
   (Kind.DeclareKeyword, bstr "declare"); (Kind.DeferKeyword, bstr "defer"); (Kind.FromKeyword, bstr "from");
   (Kind.GetKeyword, bstr "get"); (Kind.GlobalKeyword, bstr "global"); (Kind.ImmediateKeyword, bstr "immediate");
   (Kind.InferKeyword, bstr "infer"); (Kind.IntrinsicKeyword, bstr "intrinsic"); (Kind.IsKeyword, bstr "is");
   (Kind.KeyOfKeyword, bstr "keyof"); (Kind.ModuleKeyword, bstr "module"); (Kind.NamespaceKeyword, bstr "namespace");
   (Kind.NeverKeyword, bstr "never"); (Kind.NumberKeyword, bstr "number"); (Kind.ObjectKeyword, bstr "object");
   (Kind.OfKeyword, bstr "of"); (Kind.OutKeyword, bstr "out"); (Kind.OverrideKeyword, bstr "override");
   (Kind.ReadonlyKeyword, bstr "readonly"); (Kind.RequireKeyword, bstr "require");
   (Kind.SatisfiesKeyword, bstr "satisfies"); (Kind.SetKeyword, bstr "set"); (Kind.StringKeyword, bstr "string");
   (Kind.SymbolKeyword, bstr "symbol"); (Kind.TypeKeyword, bstr "type"); (Kind.UndefinedKeyword, bstr "undefined");
   (Kind.UniqueKeyword, bstr "unique"); (Kind.UnknownKeyword, bstr "unknown"); (Kind.UsingKeyword, bstr "using")].

Definition keywords : list (Kind * bytes) := reserved_words ++ strict_words ++ contextual_words.

(** A word is a keyword of the list, or an identifier if it is none of them. *)
Definition spells (w : bytes) (k : Kind) : Prop :=
  In (k, w) keywords \/ k = Kind.Identifier /\ forall k', ~ In (k', w) keywords.

Definition in_keywords (k : Kind) (w : bytes) : bool :=
  existsb (fun r => Kind_eqb k r.1 && bool_decide (w = r.2)) keywords.

Lemma in_keywords_spec k w : in_keywords k w = true <-> In (k, w) keywords.
Proof.
  unfold in_keywords. rewrite existsb_exists. split.
  - intros ([k' w'] & Hi & [->%Kind_eqb_eq ->%bool_decide_eq_true]%andb_true_iff). exact Hi.
  - intros Hi. exists (k, w). split; [done|]. cbn [fst snd].
    by rewrite (proj2 (Kind_eqb_eq k k)), bool_decide_eq_true_2 by done.
Qed.

(** The lookup of the scanner finds what the word spells. *)
Lemma get_identifier_token_spells w : spells w (get_identifier_token w).
Proof.
  rewrite get_identifier_token_eq. case_decide as Hk.
  - right. split; [done|]. intros k' Hi.
    assert (forallb (fun r => bool_decide (string_to_keyword_kind r.2 = r.1) && negb (Kind_eqb r.1 Kind.Unknown)) keywords
      = true) as Ht by (vm_compute; reflexivity).
    rewrite forallb_forall in Ht. apply Ht, andb_true_iff in Hi as [Hi%bool_decide_eq_true Hn]. cbn [fst snd] in *.
    rewrite Hk in Hi. by subst k'.
  - left. apply in_keywords_spec.
    eapply (table_all (fun r => in_keywords r.2 r.1)); [|apply string_to_keyword_kind_known, Hk]. vm_compute. reflexivity.
Qed.

(** C7. Words: at an ASCII identifier that is followed by no identifier character, [scan] returns the keyword of the list
    [keywords] that the word is, or [Identifier] if it is none of them, consumes exactly the word, and its value is the
    word. *)
Theorem scan_word_token (s : Scanner) (w : bytes) :
  at_boundary (text s) (end_ s) ->
  ascii_word w -> text_at s (pos s) w -> ends_word (char_after s (pos s + length w)) ->
  exists k s', scan s = Ok (k, s') /\ spells w k
    /\ pos s' = (pos s + length w)%nat /\ token_start s' = pos s /\ full_start_pos s' = pos s
    /\ token_value s' = Ok (w, s') /\ diagnostics s' = diagnostics s.
Proof.
  intros He Hw Ht Hend. exists (get_identifier_token w).
  enough (exists s', scan s = Ok (get_identifier_token w, s')
    /\ pos s' = (pos s + length w)%nat /\ token_start s' = pos s /\ full_start_pos s' = pos s
    /\ token_value s' = Ok (w, s') /\ diagnostics s' = diagnostics s) as (s' & H1 & H2)
    by (exists s'; split; [done|]; split; [apply get_identifier_token_spells|done]).
  destruct w as [|b w]; [done|].
  pose proof He as [_ Hle]. pose proof Hw as [Hb _]. cbn [length] in *.
  set (s1 := scan_start s).
  set (n := (pos s + S (length w))%nat) in *.
  set (s2 := put_token_value (SourceRange (pos s) n) (set_pos n s1)).
  set (k := get_identifier_token (b :: w)). set (s3 := put_token k s2).
  pose proof (text_at_end _ _ _ Ht) as Hn. cbn [length] in Hn.
  pose proof Ht as Ht'. apply text_at_cons in Ht' as [[Hlt Hb'] _].
  assert (is_char_boundary (text s) (pos s) = true) as B1.
  { apply char_after_boundary; [done|lia|]. unfold char_after.
    rewrite (proj2 (Nat.ltb_lt _ _) Hlt), Hb'. apply word_start_range in Hb; cbn; lia. }
  assert (is_char_boundary (text s) n = true) as B2.
  { apply char_after_boundary; [done|by apply Hn|apply Hend]. }
  exists s3. split; [|do 3 (split; [done|]); split; [|done]].
  - apply (scan_first s b); [by apply run_char|]. fold s1.
    rewrite scan_match_other by (by apply word_start_reaches_other). unfold scan_other.
    rewrite (run_bind _ _ s1 true s2) by (apply (scan_identifier_word s1 b w); [exact Hle|exact Hw|exact Ht|exact Hend]).
    rewrite (run_bind set_identifier_token _ s2 tt s3); [done|].
    unfold set_identifier_token. rewrite (run_bind token_value _ s2 (b :: w) s2); [done|].
    by apply (token_value_range s2 (pos s)).
  - by apply (token_value_range s3 (pos s)).
Qed.

(** ** String literals *)
Lemma find_sub_first q w r :
  Forall (fun b => b <> q) w -> find_sub [q] (w ++ q :: r) = Some (length w).
Proof.
  induction 1 as [|b w Hb Hw IH]; cbn [app find_sub].
  - unfold starts_with. cbn [length take]. by rewrite bool_decide_eq_true_2.
  - unfold starts_with. cbn [length take]. rewrite bool_decide_eq_false_2 by congruence. by rewrite IH.
Qed.

(** The text of a literal that needs no decoding. *)
Definition plain_literal (q : char) (w : bytes) : Prop :=
  Forall (fun b => b <> q /\ b <> 92 /\ b <> 10 /\ b <> 13) w.

Lemma plain_contains q w b :
  plain_literal q w -> b = 92 \/ b = 10 \/ b = 13 -> contains_byte b w = false.
Proof.
  intros Hw Hb. unfold contains_byte. induction Hw as [|b' w Hb' Hw IH]; [done|].
  cbn [existsb]. rewrite IH, orb_false_r. apply Z.eqb_neq. lia.
Qed.

Lemma plain_simple q w : plain_literal q w -> simple_literal false w = true.
Proof.
  intros Hw. unfold simple_literal. rewrite !(plain_contains q w) by auto. done.
Qed.

Lemma text_at_app s p v w :
  text_at s p (v ++ w) -> text_at s p v /\ text_at s (p + length v) w.
Proof.
  revert p. induction v as [|b v IH]; intros p Ht.
  - split; [by intros ? ?|]. by rewrite Nat.add_0_r.
  - apply text_at_cons in Ht as [Hb Ht]. apply IH in Ht as [H1 H2]. split.
    + by apply text_at_cons.
    + cbn [length]. by rewrite <- Nat.add_succ_comm.
Qed.

(** The rest of the text from a position, up to the end. *)
Lemma text_at_rest s p w :
  (end_ s <= length (text s))%nat -> text_at s p w -> w <> [] ->
  exists r, take (end_ s - p) (drop p (text s)) = w ++ r.
Proof.
  intros He Ht Hne. pose proof (text_at_end _ _ _ Ht Hne).
  exists (take (end_ s - p - length w) (drop (p + length w) (text s))).
  rewrite <- (text_at_take _ _ _ Ht) at 1. rewrite <- drop_drop, take_take_drop. f_equal. lia.
Qed.

(** String literals: between matching quotes a literal without escapes, line breaks and quotes
    (whatever characters it has, of any length in bytes) is one [StringLiteral] whose value is
    exactly the text between the quotes; no diagnostic is reported and the flag of single quotes is
    the only one set. *)
Theorem scan_plain_string (s : Scanner) (q : char) (w : bytes) :
  valid_utf8 (text s) -> at_boundary (text s) (end_ s) ->
  q = 34 \/ q = 39 -> plain_literal q w -> text_at s (pos s) (q :: w ++ [q]) ->
  exists s', scan s = Ok (Kind.StringLiteral, s')
    /\ pos s' = (pos s + length w + 2)%nat /\ token_start s' = pos s
    /\ token_value s' = Ok (w, s') /\ diagnostics s' = diagnostics s
    /\ token_flags s' = (if q =? 39 then TokenFlags.SINGLE_QUOTE else TokenFlags.NONE).
Proof.
  intros Hv He Hq Hw Ht. pose proof He as [Heb Hle]. pose proof Ht as Ht'.
  apply text_at_cons in Ht as [[Hlt Hb] Ht].
  pose proof (text_at_app _ _ _ _ Ht) as [Htw Htq].
  apply text_at_cons in Htq as [[Hltq Hbq] _].
  assert (q < 128) as Hq128 by lia.
  destruct (ascii_byte_boundary _ _ _ Hv Hb Hq128) as [_ B1].
  destruct (ascii_byte_boundary _ _ _ Hv Hbq Hq128) as [B2 _].
  set (s1 := scan_start s).
  set (s2 := if q =? 39 then put_token_flags (Z.lor (token_flags s1) TokenFlags.SINGLE_QUOTE) s1 else s1).
  set (n := (S (pos s) + length w)%nat) in *.
  set (s3 := put_token_value (SourceRange (S (pos s)) n) (set_pos (S n) s2)).
  set (s4 := put_token Kind.StringLiteral s3).
  assert (text s2 = text s /\ end_ s2 = end_ s /\ pos s2 = pos s) as (T2 & E2 & P2).
  { subst s2. by destruct (q =? 39). }
  exists s4. split; [|split; [cbn; lia|]; split; [subst s4 s3 s2; by destruct (q =? 39)|]; split;
    [|split; subst s4 s3 s2; by destruct (q =? 39)]].
  2: { apply (token_value_range s4 (S (pos s))); [|done| |].
    - subst s4 s3 s2. by destruct (q =? 39).
    - subst s4 s3 s2. by destruct (q =? 39).
    - subst s4 s3 s2. by destruct (q =? 39). }
  apply (scan_first s q); [by apply run_char|]. fold s1.
  set (arm := (scan_string_and_set_token_value false ;; set_token Kind.StringLiteral) : MS unit).
  assert (scan_match q = (arm ;; done_)) as -> by (by destruct Hq as [-> | ->]).
  rewrite (run_bind arm _ s1 tt s4); [done|]. unfold arm.
  rewrite (run_bind _ _ s1 tt s3); [done|]. unfold scan_string_and_set_token_value.
  rewrite (run_bind char_ _ s1 q s1) by (by apply run_char).
  rewrite (run_bind (when _ _) _ s1 tt s2) by (subst s2; by destruct (q =? 39)).
  assert (len_utf8 q = 1%nat) as -> by (by destruct Hq as [-> | ->]).
  assert (utf8_encode q = [q]) as -> by (by destruct Hq as [-> | ->]).
  set (s2' := set_pos (S (pos s)) s2).
  rewrite (run_bind (advance 1) _ s2 tt s2').
  2: { unfold advance, modify. by rewrite P2, Nat.add_1_r. }
  rewrite (run_bind (gets pos) _ s2' (S (pos s)) s2') by done.
  rewrite (run_bind (gets end_) _ s2' (end_ s) s2') by (cbn; by rewrite <- E2).
  assert (forall j, (S (pos s) <= j)%nat -> is_char_boundary (text s) j = true ->
    text_slice (S (pos s)) j s2' = Ok (take (j - S (pos s)) (drop (S (pos s)) (text s)), s2')) as Hslice.
  { intros j Hj Hbj. unfold text_slice. rewrite (run_bind get _ s2' s2' s2') by done.
    unfold s2'. cbn [text set_pos]. rewrite T2. by rewrite slice_some. }
  rewrite (run_bind (text_slice _ _) _ s2' _ s2' (Hslice (end_ s) ltac:(lia) Heb)).
  destruct (text_at_rest s (S (pos s)) (w ++ [q]) Hle Ht) as [r Hr]; [by destruct w|].
  rewrite <- app_assoc in Hr. rewrite Hr. cbn [app].
  rewrite find_sub_first by (eapply Forall_impl; [exact Hw|]; cbn; tauto).
  destruct (length w =? 0)%nat eqn:Elen.
  { bool_to_prop. unfold s3, n. rewrite Elen, Nat.add_0_r.
    rewrite (run_bind (advance 1) _ s2' tt (set_pos (S (S (pos s))) s2)); [done|].
    unfold advance, modify. cbn. by rewrite Nat.add_1_r. }
  rewrite (run_bind (text_slice _ _) _ s2' _ s2' (Hslice (S (pos s) + length w)%nat ltac:(lia) B2)).
  replace (S (pos s) + length w - S (pos s))%nat with (length w) by lia.
  rewrite (text_at_take _ _ _ Htw), (plain_simple q w Hw).
  rewrite (run_bind (advance _) _ s2' tt (set_pos (S n) s2)); [done|].
  unfold advance, modify. cbn [pos set_pos s2'].
  replace (S (pos s) + (length w + 1))%nat with (S n) by (unfold n; lia). done.
Qed.

End functional.

Lemma scan_word_token_witness :
  exists s', @scan canonical_numbers (new (bstr "constructor;") 0) = Ok (Kind.ConstructorKeyword, s') /\ pos s' = 11%nat.
Proof.
  destruct (@scan_word_token canonical_numbers (new (bstr "constructor;") 0) (bstr "constructor"))
    as (k & s' & H1 & Hk & H2 & _).
  - split; [reflexivity|cbn; lia].
  - split; [reflexivity|repeat constructor].
  - intros k b Hk. do 11 (destruct k as [|k]; [cbn in Hk |- *; split; [lia|exact Hk]|]). done.
  - split; [reflexivity|split; [discriminate|reflexivity]].
  - exists s'. assert (k = Kind.ConstructorKeyword) as Ek.
    { apply (f_equal (fun o => match o with Ok (k, _) => k | _ => Kind.Unknown end)) in H1. vm_compute in H1. by rewrite <- H1. }
    rewrite Ek in H1. split; [exact H1|exact H2].
Defined.

Lemma scan_plain_string_witness :
  exists s', @scan canonical_numbers (new (34 :: utf8_encode 233 ++ [34]) 0) = Ok (Kind.StringLiteral, s')
    /\ token_value s' = Ok (utf8_encode 233, s').
Proof.
  destruct (@scan_plain_string canonical_numbers (new (34 :: utf8_encode 233 ++ [34]) 0) 34 (utf8_encode 233))
    as (s' & H1 & _ & _ & H2 & _).
  - exists [34; 233; 34]. split; [repeat constructor|reflexivity].
  - split; [reflexivity|cbn; lia].
  - by left.
  - unfold plain_literal. change (utf8_encode 233) with [195; 169].
    apply Forall_cons. split; [lia|]. apply Forall_cons. split; [lia|constructor].
  - intros k b Hk. do 4 (destruct k as [|k]; [cbn in Hk |- *; split; [lia|exact Hk]|]). done.
  - exists s'. split; [exact H1|exact H2].
Defined.
