(* ===== verification/ScannerPunct.v ===== *)
(** * ScannerPunct: punctuation is scanned by longest match

    The hand-written arms of [scan] and [rescan_greater_than_token] against the token table. *)
From S2P Require Import Prelude Text Chars SyntaxKind Monad Numerals JsNum Keywords Trivia.
From S2P Require Import ScannerState ScannerOps Scanner ScannerPanic ScannerFun.

(** ** Longest match in a table *)
Fixpoint same_chars (cs p : list char) : bool :=
  match cs, p with
  | [], [] => true
  | c :: cs, a :: p => (c =? a) && same_chars cs p
  | _, _ => false
  end.

(** The tokens that only a rescan produces. *)
Definition rescanned (k : Kind) : bool :=
  match k with
  | Kind.GreaterThanEqualsToken | Kind.GreaterThanGreaterThanToken
  | Kind.GreaterThanGreaterThanGreaterThanToken | Kind.GreaterThanGreaterThanEqualsToken
  | Kind.GreaterThanGreaterThanGreaterThanEqualsToken => true
  | _ => false
  end.

(** The rows that can match before the characters [c1] and [c2]: [</] exists in JSX only, and not
    before a comment; [?.] before a digit starts a conditional expression. *)
Definition token_enabled (jsx : bool) (c2 : char) (k : Kind) : bool :=
  match k with
  | Kind.LessThanSlashToken => jsx && negb (c2 =? chr "*")
  | Kind.QuestionDotToken => negb (is_ascii_digit c2)
  | k => negb (rescanned k)
  end.

(** The rows of the table that start with a character. *)
Definition rows_of (c0 : char) : list (bytes * Kind) :=
  List.filter (fun row => match row.1 with a :: _ => c0 =? a | [] => false end) punctuation_table.

Definition token_of (jsx : bool) (rows : list (bytes * Kind)) (c2 : char) (cs : list char)
    : option (nat * Kind) :=
  match List.find (fun row => same_chars cs row.1 && token_enabled jsx c2 row.2) rows with
  | Some (_, k) => Some (length cs, k)
  | None => None
  end.

(** Three characters if they are a token, else two, else one. *)
Definition longest_token (jsx : bool) (c0 c1 c2 : char) : option (nat * Kind) :=
  let rows := rows_of c0 in
  match token_of jsx rows c2 [c0; c1; c2] with
  | Some r => Some r
  | None =>
      match token_of jsx rows c2 [c0; c1] with
      | Some r => Some r
      | None => token_of jsx rows c2 [c0]
      end
  end.

(** The characters that only punctuation starts with. *)
Definition punctuation_start (c0 : char) : bool :=
  existsb (Z.eqb c0) (bstr "!%&()*+,-:;<=>?@[]^{|}~").

(** The state after a punctuation token of [n] characters. *)
Definition punctuation_state (s : Scanner) (n : nat) (k : Kind) : Scanner :=
  put_token k (set_pos (pos s + n) s).

Lemma run_accept n k s : accept n k s = Ok (tt, punctuation_state s n k).
Proof. done. Qed.

Section punctuation.
Context `{JsNumber}.

Definition jsx (s : Scanner) : bool := language_variant s =? LANGUAGE_VARIANT_JSX.

(** What running an operator gives: the longest token. *)
Definition munches (m : MS unit) (c0 : char) (s : Scanner) : Prop :=
  exists n k,
    longest_token (jsx s) c0 (char_after s (pos s + 1)) (char_after s (pos s + 2)) = Some (n, k)
    /\ m s = Ok (tt, punctuation_state s n k).

(** Run an operator, splitting on its tests; then compute the table lookup, splitting on the tests
    that are left. *)
Ltac run_operator He :=
  repeat first
    [ rewrite (run_bind (char_at _) _ _ _ _ (run_char_at_after _ _ He))
    | rewrite (run_bind (gets _) _ _ _ _ eq_refl)
    | match goal with
      | |- context [?a =? ?b] => destruct (a =? b) eqn:?; cbn [andb orb negb]
      | |- context [is_ascii_digit ?a] => destruct (is_ascii_digit a) eqn:?; cbn [andb orb negb]
      end ].

Ltac lookup_token :=
  unfold longest_token, jsx; cbv zeta;
  match goal with |- context [rows_of ?c] =>
    let r := eval vm_compute in (rows_of c) in
    replace (rows_of c) with r by (vm_compute; reflexivity)
  end;
  unfold token_of; cbn [List.find same_chars fst snd Z.eqb Pos.eqb token_enabled rescanned andb negb
       length];
  repeat match goal with
  | H : (?a =? ?b) = _ |- context [?a =? ?b] => rewrite H
  | H : is_ascii_digit ?a = _ |- context [is_ascii_digit ?a] => rewrite H
  | |- context [?a =? ?b] => destruct (a =? b) eqn:?
  | |- context [is_ascii_digit ?a] => destruct (is_ascii_digit a) eqn:?
  end; cbn [andb negb];
  first [reflexivity | exfalso; bool_to_prop; congruence].

Ltac munch He := unfold munches, jsx; run_operator He; eexists _, _; (split; [|reflexivity]); lookup_token.

#[local] Arguments Z.eqb !x !y : simpl nomatch.

Lemma scan_operator_munches c0 m s :
  (end_ s <= length (text s))%nat -> scan_operator c0 = Some m -> munches m c0 s.
Proof.
  intros He Hm. unfold scan_operator, single_char_token in Hm.
  repeat match type of Hm with
  | context [if c0 =? ?x then _ else _] =>
      destruct (Z.eqb_spec c0 x) as [->|_]; [injection Hm as <-|]
  end; [..|done].
  1-11: (exists 1%nat; eexists; split; [lookup_token|reflexivity]).
  - unfold scan_exclamation. munch He.
  - unfold scan_percent. munch He.
  - unfold scan_ampersand. munch He.
  - unfold scan_asterisk. munch He.
  - unfold scan_plus. munch He.
  - unfold scan_minus. munch He.
  - unfold scan_question. munch He.
  - unfold scan_caret. munch He.
Qed.

Lemma scan_less_than_munches s :
  (end_ s <= length (text s))%nat -> munches scan_less_than (chr "<") s.
Proof. intros He. unfold scan_less_than. munch He. Qed.

Lemma scan_equals_munches s :
  (end_ s <= length (text s))%nat -> munches scan_equals (chr "=") s.
Proof. intros He. unfold scan_equals. munch He. Qed.

Lemma scan_bar_munches s :
  (end_ s <= length (text s))%nat -> munches scan_bar (chr "|") s.
Proof. intros He. unfold scan_bar. munch He. Qed.

Lemma scan_greater_munches s : munches (accept 1 Kind.GreaterThanToken) (chr ">") s.
Proof. exists 1%nat. eexists. split; [lookup_token|reflexivity]. Qed.

(** The arm of the [match] for a punctuation character. *)
Definition punctuation_arm (c0 : char) : option (MS unit) :=
  match scan_operator c0 with
  | Some m => Some m
  | None =>
      if c0 =? chr "<" then Some scan_less_than
      else if c0 =? chr "=" then Some scan_equals
      else if c0 =? chr ">" then Some (accept 1 Kind.GreaterThanToken)
      else if c0 =? chr "|" then Some scan_bar
      else None
  end.

Lemma punctuation_arm_munches c0 m s :
  (end_ s <= length (text s))%nat -> punctuation_arm c0 = Some m -> munches m c0 s.
Proof.
  intros He Hm. unfold punctuation_arm in Hm. destruct (scan_operator c0) as [m'|] eqn:E.
  { injection Hm as <-. by apply scan_operator_munches. }
  repeat match type of Hm with
  | context [if c0 =? ?x then _ else _] =>
      destruct (Z.eqb_spec c0 x) as [->|_]; [injection Hm as <-|]
  end; [..|done].
  - by apply scan_less_than_munches.
  - by apply scan_equals_munches.
  - apply scan_greater_munches.
  - by apply scan_bar_munches.
Qed.

Lemma punctuation_arm_some c0 :
  punctuation_start c0 = true -> exists m, punctuation_arm c0 = Some m.
Proof.
  intros Hc. assert (ascii_all (fun c => negb (punctuation_start c)
    || match punctuation_arm c with Some _ => true | None => false end) = true) as Hall.
  { vm_compute. reflexivity. }
  assert (0 <= c0 < 128) as Hr.
  { unfold punctuation_start in Hc. cbn in Hc. rewrite !orb_true_iff, !Z.eqb_eq in Hc. lia. }
  pose proof (ascii_all_spec _ c0 Hall Hr) as H'. cbn beta in H'. rewrite Hc in H'.
  destruct (punctuation_arm c0) as [m|]; [by exists m|done].
Qed.

Lemma scan_match_punctuation c0 m s k s' :
  is_conflict_marker_trivia (text s) (pos s) = false ->
  punctuation_start c0 = true -> punctuation_arm c0 = Some m ->
  m s = Ok (tt, s') -> token s' = k -> scan_match c0 s = Ok (inr k, s').
Proof.
  intros Hcm Hp Hm Hr <-. assert (done_ s' = Ok (inr (token s'), s')) as Hd by done.
  assert (forall m, m s = Ok (tt, s') -> or_conflict_marker m s = Ok (inr (token s'), s')) as Hor.
  { intros m' Hm'. unfold or_conflict_marker. rewrite (run_bind _ _ s false s).
    - by rewrite (run_bind m' _ s tt s' Hm').
    - unfold scan_conflict_marker_as_token. rewrite (run_bind get _ s s s) by done. by rewrite Hcm. }
  unfold punctuation_arm in Hm. unfold scan_match.
  assert (scan_literal c0 = None) as Hlit.
  { unfold punctuation_start in Hp. cbn in Hp. rewrite !orb_true_iff, !Z.eqb_eq in Hp.
    by repeat destruct Hp as [-> | Hp]. }
  assert (((c0 =? 9) || (c0 =? 11) || (c0 =? 12) || (c0 =? 32)) = false
    /\ ((c0 =? 10) || (c0 =? 13)) = false /\ (c0 =? chr "/") = false) as (-> & -> & ->).
  { unfold punctuation_start in Hp. cbn in Hp. rewrite !orb_true_iff, !Z.eqb_eq in Hp.
    by repeat destruct Hp as [-> | Hp]. }
  rewrite Hlit. destruct (scan_operator c0) as [m'|].
  { injection Hm as ->. by rewrite (run_bind m _ s tt s' Hr). }
  repeat match type of Hm with
  | context [if ?x then _ else _] => destruct x; [injection Hm as <-; by apply Hor|]
  end. done.
Qed.

(** C8. Maximal munch: where punctuation starts, outside a conflict marker, [scan] returns the longest
    token of the token table that the next three characters spell, and consumes exactly it. The
    tokens that begin with [>] and have more characters are left to the rescan; [</] is a token in
    JSX only and not before a comment, [?.] is none before a digit. *)
Theorem scan_longest_token (s : Scanner) (c0 : char) :
  (pos s < end_ s)%nat -> (end_ s <= length (text s))%nat ->
  text s !! pos s = Some c0 -> punctuation_start c0 = true ->
  is_conflict_marker_trivia (text s) (pos s) = false ->
  exists n k,
    longest_token (jsx s) c0 (char_after s (pos s + 1)) (char_after s (pos s + 2)) = Some (n, k)
    /\ scan s = Ok (k, punctuation_state (scan_start s) n k).
Proof.
  intros Hlt He Ht Hp Hcm. destruct (punctuation_arm_some c0 Hp) as [m Hm].
  destruct (punctuation_arm_munches c0 m (scan_start s) He Hm) as (n & k & H1 & H2).
  exists n, k. split; [exact H1|]. apply (scan_first s c0); [by apply run_char|].
  by apply (scan_match_punctuation c0 m).
Qed.

End punctuation.

Lemma scan_longest_token_witness :
  exists n k, longest_token false (chr "=") (chr "=") (chr "=") = Some (n, k)
    /\ @scan canonical_numbers (new (bstr "====") 0) = Ok (k, punctuation_state (scan_start (new (bstr "====") 0)) n k).
Proof.
  apply (@scan_longest_token canonical_numbers (new (bstr "====") 0) (chr "=")); try reflexivity; cbn; lia.
Defined.

(** ** Rescanning [>] *)

(** The bytes [p] stand at [i]. *)
Fixpoint has_bytes (t : bytes) (i : nat) (p : bytes) : bool :=
  match p with
  | [] => true
  | b :: p => bool_decide (t !! i = Some b) && has_bytes t (S i) p
  end.

(** The longest token of [>] and [=] signs at a position. *)
Definition greater_tokens : list bytes :=
  [bstr ">>>="; bstr ">>>"; bstr ">>="; bstr ">>"; bstr ">="; bstr ">"].
Definition longest_greater (t : bytes) (i : nat) : option bytes :=
  List.find (has_bytes t i) greater_tokens.

(** [rescan_greater_than_token] completes the maximal munch of [>]: from a [GreaterThanToken] it
      returns the longest of the six tokens at the start of the token, which the token table names,
      ends after it, and changes nothing else. *)
Theorem rescan_greater_longest (s : Scanner) :
  token s = Kind.GreaterThanToken -> text s !! token_start s = Some (chr ">") ->
  exists p, longest_greater (text s) (token_start s) = Some p
    /\ rescan_greater_than_token s
       = Ok (string_to_token p,
             put_token (string_to_token p) (set_pos (token_start s + length p) s)).
Proof.
  intros Ht H0. unfold rescan_greater_than_token.
  rewrite (run_bind get _ s s s) by done. rewrite Ht.
  change (Kind_eqb Kind.GreaterThanToken Kind.GreaterThanToken) with true. cbn [when].
  set (i := token_start s) in *. set (s1 := set_pos (i + 1) s).
  assert (forall n b, byte_at_is n b s1 = Ok (bool_decide (text s !! (S i + n)%nat = Some b), s1)) as Hb.
  { intros n b. unfold byte_at_is. rewrite (run_bind get _ s1 s1 s1) by done.
    cbn [pos set_pos s1 text]. by rewrite Nat.add_1_r. }
  unfold longest_greater, greater_tokens. cbn [List.find has_bytes].
  rewrite (bool_decide_eq_true_2 _ H0). cbn [andb].
  unfold mbind at 1, M_bind. unfold mbind at 1, M_bind. unfold modify at 1. fold s1.
  rewrite (run_bind _ _ s1 _ s1 (Hb 0%nat 62)), (run_bind _ _ s1 _ s1 (Hb 1%nat 62)).
  rewrite (run_bind _ _ s1 _ s1 (Hb 0%nat 61)), (run_bind _ _ s1 _ s1 (Hb 1%nat 61)).
  rewrite (run_bind _ _ s1 _ s1 (Hb 2%nat 61)).
  rewrite Nat.add_0_r, Nat.add_1_r. replace (S i + 2)%nat with (S (S (S i))) by lia.
  assert (forall n k, Ok (k, put_token k (set_pos (pos s1 + n) s1))
    = Ok (k, put_token k (set_pos (i + S n) s))) as Hacc.
  { intros n k. cbn [pos set_pos s1]. by replace (i + 1 + n)%nat with (i + S n)%nat by lia. }
  assert (put_token Kind.GreaterThanToken (set_pos (i + 1) s) = s1) as Hkeep.
  { subst s1. rewrite <- Ht. by destruct s. }
  repeat case_bool_decide; cbn [andb when]; eexists; (split; [reflexivity|]);
    first [exact (Hacc 3%nat Kind.GreaterThanGreaterThanGreaterThanEqualsToken)
      | exact (Hacc 2%nat Kind.GreaterThanGreaterThanGreaterThanToken)
      | exact (Hacc 2%nat Kind.GreaterThanGreaterThanEqualsToken)
      | exact (Hacc 1%nat Kind.GreaterThanGreaterThanToken)
      | exact (Hacc 1%nat Kind.GreaterThanEqualsToken)
      | change (string_to_token [62]) with Kind.GreaterThanToken; cbn [length]; rewrite Hkeep;
        unfold gets; cbn [mret M_ret token set_pos s1]; unfold mret, M_ret; by rewrite <- Ht].
Qed.

Lemma rescan_greater_longest_witness :
  exists s p, longest_greater (text s) (token_start s) = Some p
    /\ rescan_greater_than_token s
       = Ok (string_to_token p, put_token (string_to_token p) (set_pos (token_start s + length p) s)).
Proof.
  exists (put_token Kind.GreaterThanToken (new (bstr ">>= x") 0)).
  apply (rescan_greater_longest (put_token Kind.GreaterThanToken (new (bstr ">>= x") 0))); reflexivity.
Defined.
