(* ===== verification/ScannerEscape.v ===== *)
(** * ScannerEscape: extended unicode escapes denote their code point

    Printing a code point in hexadecimal between [\u{] and [}] and scanning the escape are inverse. *)
From S2P Require Import Prelude Text Chars SyntaxKind Monad Numerals JsNum Keywords Trivia.
From S2P Require Import ScannerState ScannerOps Scanner ScannerPanic ScannerFun.

Lemma lower_hex_facts b :
  lower_hex b = true -> is_ascii_hexdigit b = true /\ to_ascii_lowercase b = b /\ b <> chr "_".
Proof.
  intros Hb. assert (0 <= b < 128) as Hr.
  { unfold lower_hex, is_ascii_digit in Hb.
    rewrite !orb_true_iff, !andb_true_iff, !Z.leb_le in Hb. lia. }
  assert (ascii_all (fun b => negb (lower_hex b)
    || is_ascii_hexdigit b && (to_ascii_lowercase b =? b) && negb (b =? 95)) = true) as Hall.
  { vm_compute. reflexivity. }
  pose proof (ascii_all_spec _ b Hall Hr) as Hc. cbn beta in Hc. rewrite Hb in Hc. cbn [negb orb] in Hc.
  by bool_to_prop.
Qed.

(** ** Scanning the digits *)
Lemma hex_loop_run ds s count :
  (end_ s <= length (text s))%nat ->
  Forall (fun b => is_ascii_hexdigit b = true) ds -> text_at s (pos s) ds ->
  is_ascii_hexdigit (char_after s (pos s + length ds)) = false ->
  forall fuel, (length ds < fuel)%nat ->
  iter fuel (fun l =>
    if (digit_count l <? 1)%nat || true then
      ch ← char_;
      if is_ascii_hexdigit ch then
        advance 1 ;;
        mret (inl (mkDigits [] 0 (S (digit_count l)) false false))
      else if false && (ch =? chr "_") then
        add_flags TokenFlags.CONTAINS_SEPARATOR ;;
        if allow_separator l then
          advance 1 ;; mret (inl (mkDigits [] 0 (digit_count l) false true))
        else
          separator_error (is_previous_token_separator l) ;;
          advance 1 ;;
          mret (inl (mkDigits [] 0 (digit_count l) false (is_previous_token_separator l)))
      else mret (inr l)
    else mret (inr l)) (mkDigits [] 0 count false false) s
  = Ok (mkDigits [] 0 (count + length ds) false false, set_pos (pos s + length ds) s).
Proof.
  intros He Hd. revert s count He. induction Hd as [|b ds Hb Hd IH];
    intros s count He Ht Hend fuel Hf; (destruct fuel as [|fuel]; [cbn in Hf; lia|]); cbn [iter length].
  - rewrite (run_bind _ _ s (inr (mkDigits [] 0 count false false)) s).
    + rewrite !Nat.add_0_r. by destruct s.
    + rewrite orb_true_r. rewrite (run_bind char_ _ s _ s (run_char_after s He)).
      cbn [length] in Hend. rewrite Nat.add_0_r in Hend. by rewrite Hend.
  - apply text_at_cons in Ht as [[Hlt Hb'] Ht]. set (s1 := set_pos (S (pos s)) s).
    rewrite (run_bind _ _ s (inl (mkDigits [] 0 (S count) false false)) s1).
    + cbn [length] in *. rewrite (IH s1); cbn [pos set_pos s1].
      * do 2 f_equal; [f_equal; lia|]. subst s1.
        by replace (S (pos s) + length ds)%nat with (pos s + S (length ds))%nat by lia.
      * done.
      * exact Ht.
      * by replace (S (pos s) + length ds)%nat with (pos s + S (length ds))%nat by lia.
      * lia.
    + rewrite orb_true_r. rewrite (run_bind char_ _ s b s) by (by apply run_char). rewrite Hb.
      rewrite (run_bind (advance 1) _ s tt s1); [done|].
      unfold advance, modify. by rewrite Nat.add_1_r.
Qed.

Lemma text_at_length s p w :
  (end_ s <= length (text s))%nat -> text_at s p w -> (length w <= length (text s))%nat.
Proof.
  intros He Ht. destruct w as [|b w]; [cbn; lia|]. pose proof (text_at_end _ _ _ Ht ltac:(done)). lia.
Qed.

Lemma scan_hex_digits_run ds s :
  at_boundary (text s) (end_ s) ->
  Forall (fun b => lower_hex b = true) ds -> ds <> [] -> text_at s (pos s) ds ->
  is_ascii_hexdigit (char_after s (pos s + length ds)) = false ->
  char_after s (pos s + length ds) < 128 ->
  scan_hex_digits 1 true false s = Ok (ds, set_pos (pos s + length ds) s).
Proof.
  intros Hend Hd Hne Ht Hstop Hascii. pose proof Hend as [_ He].
  assert (Forall (fun b => is_ascii_hexdigit b = true) ds) as Hd'.
  { eapply Forall_impl; [exact Hd|]. intros b Hb. by apply lower_hex_facts. }
  pose proof (text_at_end _ _ _ Ht Hne) as Hle.
  unfold scan_hex_digits. rewrite (run_bind (gets pos) _ s (pos s) s) by done.
  set (s1 := set_pos (pos s + length ds) s).
  rewrite (run_bind (loop _ _) _ s (mkDigits [] 0 (0 + length ds) false false) s1).
  2: { unfold loop. rewrite (run_bind get _ s s s) by done. apply hex_loop_run; try done.
    unfold loop_fuel. pose proof (text_at_length _ _ _ He Ht). lia. }
  cbn [is_previous_token_separator digit_count Nat.add].
  rewrite (run_bind (when false _) _ s1 tt s1) by done.
  destruct (length ds <? 1)%nat eqn:E; bool_to_prop; [destruct ds; [done|cbn in E; lia]|].
  rewrite (run_bind (gets pos) _ s1 (pos s + length ds)%nat s1) by done.
  rewrite (run_bind (text_slice _ _) _ s1 ds s1).
  - rewrite (run_bind (gets token_flags) _ s1 (token_flags s1) s1) by done.
    assert (map to_ascii_lowercase ds = ds) as ->.
    { rewrite <- (map_id ds) at 2. apply map_ext_in. intros b Hb. rewrite Forall_forall in Hd.
      apply lower_hex_facts, Hd. by apply list_elem_of_In. }
    unfold mret, M_ret. destruct (TokenFlags.contains _ _); [|done].
    rewrite filter_all; [done|]. eapply Forall_impl; [exact Hd|]. intros b Hb. by apply lower_hex_facts.
  - unfold text_slice. rewrite (run_bind get _ s1 s1 s1) by done. cbn [text set_pos s1].
    rewrite slice_some; [|lia| |by apply char_after_boundary].
    + replace (pos s + length ds - pos s)%nat with (length ds) by lia. by rewrite (text_at_take _ _ _ Ht).
    + destruct ds as [|b ds']; [done|]. apply text_at_cons in Ht as [[Hlt Hb] _].
      apply char_after_boundary; [done|lia|]. unfold char_after.
      rewrite (proj2 (Nat.ltb_lt _ _) Hlt), Hb. inversion Hd as [|? ? Hb2 _]; subst.
      unfold lower_hex, is_ascii_digit in Hb2.
      rewrite !orb_true_iff, !andb_true_iff, !Z.leb_le in Hb2. cbn. lia.
Qed.

(** The escape that denotes a code point. *)
Definition extended_escape (cp : Z) : bytes := bstr "\u{" ++ format_radix 16 cp ++ bstr "}".

(** C21. Extended unicode escapes round-trip: the escape printed for a code point is scanned back to that
    code point, entirely, with the flag of extended escapes and no diagnostic. *)
Theorem extended_escape_roundtrip (s : Scanner) (cp : Z) (report : bool) :
  at_boundary (text s) (end_ s) ->
  0 <= cp <= 1114111 ->
  text_at s (pos s) (extended_escape cp) ->
  exists s', scan_unicode_escape report s = Ok (Some cp, s')
    /\ pos s' = (pos s + length (extended_escape cp))%nat
    /\ diagnostics s' = diagnostics s
    /\ token_flags s' = Z.lor (token_flags s) TokenFlags.EXTENDED_UNICODE_ESCAPE.
Proof.
  intros Hend Hcp Ht. pose proof Hend as [_ He].
  assert (extended_escape cp = [92; 117] ++ [123] ++ format_radix 16 cp ++ [125]) as Heq by done.
  rewrite Heq in *. set (ds := format_radix 16 cp) in *.
  apply text_at_app in Ht as [_ Ht]. apply text_at_app in Ht as [Hopen Ht].
  apply text_at_app in Ht as [Hds Hclose].
  apply text_at_cons in Hopen as [[L1 O1] _]. apply text_at_cons in Hclose as [[L2 O2] _].
  cbn [length] in *.
  set (p := (pos s + 2)%nat) in *. set (q := (p + 1 + length ds)%nat) in *.
  assert (char_after s q = 125) as Hq.
  { unfold char_after. by rewrite (proj2 (Nat.ltb_lt _ _) L2), O2. }
  assert (from_str_radix 16 U32_MAX ds = Some cp) as Hparse.
  { apply from_str_radix_format; [lia|]. unfold U32_MAX. lia. }
  assert (ds <> []) as Hne by (intros E; rewrite E in Hparse; done).
  assert (Forall (fun b => lower_hex b = true) ds) as Hlow by (by apply radix_digits_lower).
  exists (put_token_flags (Z.lor (token_flags s) TokenFlags.EXTENDED_UNICODE_ESCAPE) (set_pos (q + 1) s)).
  split; [|split; [cbn [pos put_token_flags set_pos]; rewrite !length_app; cbn [length]; lia|done]].
  set (s1 := set_pos p s). set (s2 := set_pos (p + 1) s). set (s3 := set_pos q s).
  unfold scan_unicode_escape. rewrite (run_bind (advance 2) _ s tt s1) by done.
  rewrite (run_bind (gets pos) _ s1 p s1) by done.
  rewrite (run_bind char_ _ s1 123 s1) by (by apply run_char). cbn [Z.eqb Pos.eqb].
  rewrite (run_bind _ _ s1 ds s3).
  2: { rewrite (run_bind (advance 1) _ s1 tt s2) by done.
    apply (scan_hex_digits_run ds s2); [done|done|done|exact Hds| |]; cbn [pos set_pos s2 end_ text];
      change (char_after s2) with (char_after s); fold q; rewrite Hq; done. }
  destruct ds as [|d ds'] eqn:Eds; [done|]. rewrite <- Eds in *. rewrite Hparse.
  rewrite (proj2 (Z.ltb_ge 1114111 cp)) by lia. cbn [andb orb].
  rewrite (run_bind (when false _) _ s3 tt s3) by done.
  rewrite (run_bind get _ s3 s3 s3) by done.
  rewrite (run_bind char_ _ s3 125 s3) by (by apply run_char).
  cbn [end_ pos set_pos s3]. rewrite (proj2 (Nat.leb_gt _ _)) by done. cbn [Z.eqb Pos.eqb].
  by rewrite (run_bind _ _ s3 false (set_pos (q + 1) s)).
Qed.

Lemma extended_escape_roundtrip_witness :
  exists s', scan_unicode_escape true (new (bstr "\u{1f600}") 0) = Ok (Some 128512, s').
Proof.
  destruct (extended_escape_roundtrip (new (bstr "\u{1f600}") 0) 128512 true) as (s' & H & _).
  - split; [reflexivity|cbn; lia].
  - lia.
  - change (extended_escape 128512) with (bstr "\u{1f600}"). intros k b Hk.
    do 9 (destruct k as [|k]; [cbn in Hk |- *; split; [lia|exact Hk]|]). done.
  - exists s'. exact H.
Defined.
