(* ===== verification/ScannerJsx.v ===== *)
(** * ScannerJsx: scanning JSX text

    [scan_jsx_token_ex] is total; its only token that consumes nothing is [EndOfFile], which it also
    returns at a NUL character inside the text. *)
From S2P Require Import Prelude Text Chars SyntaxKind Monad Numerals JsNum Keywords Trivia.
From S2P Require Import ScannerState ScannerOps Scanner ScannerInv ScannerWp ScannerThm ScannerPanic.

Section jsx.
Context (t : bytes) (e : nat) (Hv : valid_utf8 t) (He : at_boundary t e).

Abbreviation Inv := (Inv t e).
Abbreviation Adv := (Adv t e).
Abbreviation read := (read t e).

Ltac calls ::= fail.

(** The two ways to read a character agree. *)
Lemma char_read_agrees p c ch size :
  read p 0 c -> c <> 0 -> char_read t e p ch size -> size <> 0%nat /\ (ch < 128 -> ch = c).
Proof.
  intros Hr Hc [_ _ Hs Ha]. split.
  - intros ->. destruct Hs as [(_ & _ & Hle)|(Hs & _)]; [|lia].
    destruct Hr as [[Hlt _]|[_ ->]]; [lia|done].
  - intros Hlt. by apply (read_fun t e p 0 ch c); [apply Ha|].
Qed.

(** Text that starts with a character that ends no text is not empty. *)
Lemma scan_jsx_text_ok b c s :
  Inv s -> read (pos s) 0 c -> c <> 0 -> c <> chr "<" -> c <> chr "{" ->
  wp (scan_jsx_text b) (fun r s' => Adv true s s' /\ (pos s < pos s')%nat
    /\ match r with inl _ => True | inr k => k = token s' /\ k = Kind.ConflictMarkerTrivia end) s.
Proof.
  intros Hi Hr H0 H1 H2. start Hi. unfold scan_jsx_text.
  eapply (wp_loop t e true _ (fun l s1 => (pos s < pos s1)%nat \/ (pos s1 = pos s /\ l = 0)));
    [done|done|by right|].
  intros l s1 Ha1 Hl. do 2 step.
  match goal with Hcr : char_read _ _ _ ?ch ?size |- _ =>
    assert (pos s1 = pos s -> size <> 0%nat /\ (ch < 128 -> ch = c)) as Hag end.
  { intros Heq. rewrite Heq in *. by apply (char_read_agrees (pos s)). }
  run.
  match goal with H : ScannerInv.Adv _ _ _ _ ?c |- context [text ?c] =>
    rewrite (inv_text _ _ _ (adv_inv _ _ _ _ _ H)) in * end.
  destruct (scan_conflict_marker_total t (pos s') Hv) as (p & Hp & Hb & Hlt); [done|].
  apply wp_unwrap. exists p. split; [done|]. run.
Qed.

(** The result of [scan_jsx_token_ex] from [s]. *)
Definition jsx_scanned (s : Scanner) (k : Kind) (s' : Scanner) : Prop :=
  Inv s' /\ token s' = k /\ full_start_pos s' = pos s /\ token_start s' = pos s
  /\ (if decide (k = Kind.EndOfFile) then pos s' = pos s /\ read (pos s) 0 0
      else (pos s < pos s')%nat).

Lemma scan_jsx_token_wp b s :
  Inv s -> wp (scan_jsx_token_ex b) (fun k s' => jsx_scanned s k s') s.
Proof.
  intros Hi. unfold scan_jsx_token_ex. step. apply wp_modify. step. apply wp_modify.
  set (s1 := set_token_start _ _). assert (Inv s1) as Hi1 by by destruct Hi.
  start Hi1. assert (pos s1 = pos s) as P1 by done.
  assert (forall s', Adv true s1 s' ->
    ((pos s < pos s')%nat /\ token s' <> Kind.EndOfFile
     \/ pos s' = pos s /\ token s' = Kind.EndOfFile /\ read (pos s) 0 0) ->
    jsx_scanned s (token s') s') as Hfin.
  { intros s' Ha Hp. split; [apply Ha|]. split; [done|].
    split; [by rewrite (adv_full _ _ _ _ _ Ha)|]. split; [by rewrite (adv_start _ _ _ _ _ Ha)|].
    case_decide; naive_solver. }
  step. step. step. step; unfold accept.
  - steps. apply Hfin; [eassumption|]. right. subst. finish.
  - steps; try (apply Hfin; [eassumption|]; left; finish).
    call (scan_jsx_text_ok b ch). destruct r as [l|k].
    + pose proof (adv_full _ _ _ _ _ H1) as Hf. cbn [full_start_pos set_token_start s1 set_full_start_pos] in Hf.
      step. step. step.
      * eapply wp_set_range; [side|rewrite Hf; side|rewrite Hf; side|side|]. intros ? ? ? ? ?.
        steps. apply Hfin; [eassumption|]. left. destruct (l =? -1); finish.
    + steps. apply Hfin; [eassumption|]. left. finish.
Qed.
End jsx.

(** C22. JSX text: scanning a JSX token is total on every well-formed scanner, starts the token where
    the scanner was, and leaves a well-formed scanner; every token but [EndOfFile] is not empty, and
    [EndOfFile] is returned at the end of the text or at a NUL character, consuming nothing. *)
Theorem scan_jsx_token_total (s : Scanner) (allow_multiline : bool) :
  well_formed s ->
  exists k s', scan_jsx_token_ex allow_multiline s = Ok (k, s') /\ well_formed s' /\ token s' = k
    /\ token_start s' = pos s /\ full_start_pos s' = pos s
    /\ (k <> Kind.EndOfFile -> (pos s < pos s')%nat)
    /\ (k = Kind.EndOfFile ->
        pos s' = pos s /\ ((end_ s <= pos s)%nat \/ text s !! pos s = Some 0)).
Proof.
  intros [Hv He Hi]. pose proof (scan_jsx_token_wp _ _ Hv He allow_multiline s Hi) as Hw.
  apply wp_run in Hw as (k & s' & Hrun & Hi' & Ht & Hf & Hs & Hp). exists k, s'.
  pose proof (inv_text _ _ _ Hi') as Htx. pose proof (inv_end _ _ _ Hi') as Hend.
  split; [done|]. split; [split; rewrite ?Htx, ?Hend; done|].
  do 3 (split; [done|]). unfold read in Hp. rewrite Nat.add_0_r in Hp.
  case_decide; naive_solver.
Qed.

Lemma scan_jsx_token_total_witness :
  exists k s', scan_jsx_token_ex true (new (bstr "some text<b>") 0) = Ok (k, s') /\ token s' = k.
Proof.
  destruct (scan_jsx_token_total (new (bstr "some text<b>") 0) true) as (k & s' & H1 & _ & H2 & _).
  - apply new_well_formed, is_ascii_valid. reflexivity.
  - exists k, s'. split; [exact H1|exact H2].
Defined.

(** A NUL character inside JSX text ends the file for the scanner: [scan_jsx_token_ex] returns
    [EndOfFile] there, with text left, and never moves past it. *)
Theorem scan_jsx_token_nul (s : Scanner) (allow_multiline : bool) :
  (pos s < end_ s)%nat -> text s !! pos s = Some 0 ->
  exists s', scan_jsx_token_ex allow_multiline s = Ok (Kind.EndOfFile, s') /\ (pos s' < end_ s')%nat
    /\ scan_jsx_token_ex allow_multiline s' = Ok (Kind.EndOfFile, s').
Proof.
  intros Hlt H0. set (s1 := set_token_start (pos s) (set_full_start_pos (pos s) s)).
  assert (forall s, (pos s < end_ s)%nat -> text s !! pos s = Some 0 ->
    scan_jsx_token_ex allow_multiline s
    = Ok (Kind.EndOfFile, put_token Kind.EndOfFile (set_token_start (pos s) (set_full_start_pos (pos s) s))))
    as Hrun.
  { clear. intros s Hlt H0. unfold scan_jsx_token_ex.
    rewrite (run_bind _ _ s tt (set_full_start_pos (pos s) s)) by done.
    set (s1 := set_token_start (pos s) (set_full_start_pos (pos s) s)).
    rewrite (run_bind _ _ _ tt s1) by done.
    rewrite (run_bind char_ _ s1 0 s1) by (by apply run_char). done. }
  exists (put_token Kind.EndOfFile s1). split; [by apply Hrun|]. split; [done|].
  by rewrite Hrun.
Qed.

Lemma scan_jsx_token_nul_witness :
  exists s', scan_jsx_token_ex true (new [0; chr "a"] 0) = Ok (Kind.EndOfFile, s')
    /\ (pos s' < end_ s')%nat.
Proof.
  destruct (scan_jsx_token_nul (new [0; chr "a"] 0) true) as (s' & H1 & H2 & _);
    [cbn; lia|reflexivity|]. exists s'. split; [exact H1|exact H2].
Defined.
