(* ===== verification/LineMap.v ===== *)
(** * LineMap: line starts, and positions as lines and characters

    Models the line map of ts-core/src/core.rs ([ECMALineStartsSeq], [utf16len]) and the conversions of
    ts-scanner/src/scanner.rs between byte positions and lines with byte or UTF-16 offsets. [TextPos]
    is [i32]: positions are [Z], a length is cast with [as_i32]. *)
From S2P Require Import Prelude Text Chars Trivia.

(** ** The iterator [ECMALineStartsSeq] *)
Record ECMALineStartsSeq := mkSeq {
  seq_pos : Z;
  seq_line_start : Z;
  seq_done : bool;
}.

(** The [while] loop of [next]: [None] stands for a panic. *)
Fixpoint next_loop (fuel : nat) (text : bytes) (pos line_start : Z)
    : option (Z * ECMALineStartsSeq) :=
  match fuel with
  | O => None
  | S fuel =>
      let text_len := as_i32 (Z.of_nat (length text)) in
      if pos <? text_len then
        b ← text !! Z.to_nat pos;
        if b <? 128 then
          let pos := pos + 1 in
          if b =? 13 then
            let pos := if (pos <? text_len) && bool_decide (text !! Z.to_nat pos = Some 10)
                       then pos + 1 else pos in
            Some (line_start, mkSeq pos pos false)
          else if b =? 10 then Some (line_start, mkSeq pos pos false)
          else next_loop fuel text pos line_start
        else
          rest ← slice_from text (Z.to_nat pos);
          '(ch, size) ← next_char rest;
          let pos := pos + Z.of_nat size in
          if is_line_break ch then Some (line_start, mkSeq pos pos false)
          else next_loop fuel text pos line_start
      else Some (line_start, mkSeq pos line_start true)
  end.

Definition next (text : bytes) (st : ECMALineStartsSeq) : option (option Z * ECMALineStartsSeq) :=
  if seq_done st then Some (None, st)
  else
    '(start, st) ← next_loop (S (length text)) text (seq_pos st) (seq_line_start st);
    Some (Some start, st).

(** [.collect()] *)
Fixpoint collect (fuel : nat) (text : bytes) (st : ECMALineStartsSeq) : option (list Z) :=
  match fuel with
  | O => None
  | S fuel =>
      '(start, st) ← next text st;
      match start with
      | None => Some []
      | Some start => rest ← collect fuel text st; Some (start :: rest)
      end
  end.

Definition compute_ecma_line_starts (text : bytes) : option (list Z) :=
  collect (S (S (S (length text)))) text (mkSeq 0 0 false).

(** ** Conversions *)

(** [slice.binary_search(&x)] on a strictly increasing slice: [inl] the index, [inr] where it would be
    inserted. *)
Fixpoint binary_search (xs : list Z) (x : Z) : nat + nat :=
  match xs with
  | [] => inr 0%nat
  | y :: ys =>
      if x <? y then inr 0%nat
      else if x =? y then inl 0%nat
      else match binary_search ys x with inl i => inl (S i) | inr i => inr (S i) end
  end.

(** [slice.partition_point(p)]: the length of the prefix that satisfies [p]. *)
Fixpoint partition_point (p : Z -> bool) (xs : list Z) : nat :=
  match xs with
  | x :: xs => if p x then S (partition_point p xs) else 0
  | [] => 0
  end.

Definition compute_line_of_position (line_starts : list Z) (pos : nat) : nat :=
  match binary_search line_starts (as_i32 (Z.of_nat pos)) with
  | inl index => index
  | inr index => index - 1
  end.

Definition position_to_line_and_byte_offset (position : nat) (line_starts : list Z)
    : option (nat * nat) :=
  let line := Nat.pred (partition_point (fun line_start => line_start <=? Z.of_nat position) line_starts) in
  start ← line_starts !! line;
  if start <=? Z.of_nat position then Some (line, (position - Z.to_nat start)%nat) else None.

(** [line_map.get(line).copied().unwrap_or_default().max(0) as usize] *)
Definition line_start_at (line_map : list Z) (line : nat) : nat :=
  Z.to_nat (Z.max 0 (default 0 (line_map !! line))).

Fixpoint sum_utf16 (cs : list char) : Z :=
  match cs with [] => 0 | ch :: cs => len_utf16 ch + sum_utf16 cs end.

Definition get_ecma_line_and_utf16_character_of_position (text : bytes) (line_map : list Z) (pos : nat)
    : option (nat * Z) :=
  let line := compute_line_of_position line_map pos in
  s ← slice text (line_start_at line_map line) (Nat.min pos (length text));
  Some (line, sum_utf16 (chars s)).

Definition get_ecma_line_and_byte_offset_of_position (line_map : list Z) (pos : nat) : nat * nat :=
  let line := compute_line_of_position line_map pos in
  (line, (pos - line_start_at line_map line)%nat).

Definition compute_position_of_line_and_byte_offset (line_starts : list Z) (line byte_offset : nat) : Z :=
  Z.min (2 ^ 31 - 1) (default 0 (line_starts !! line) + as_i32 (Z.of_nat byte_offset)).

(** The [while] loop over the characters of the line. *)
Fixpoint utf16_loop (fuel : nat) (text : bytes) (line_end : nat) (character : Z) (utf16 : Z) (pos : nat)
    : option (Z * nat) :=
  match fuel with
  | O => None
  | S fuel =>
      if (pos <? line_end)%nat then
        if character <=? utf16 then Some (utf16, pos)
        else
          rest ← slice_from text pos;
          match next_char rest with
          | None => Some (utf16, pos)
          | Some (ch, size) =>
              utf16_loop fuel text line_end character (utf16 + len_utf16 ch) (pos + size)
          end
      else Some (utf16, pos)
  end.

Definition compute_position_of_line_and_utf16_character (line_starts : list Z) (line : nat)
    (character : Z) (text : bytes) (allow_edits : bool) : option nat :=
  match line_starts !! line with
  | None =>
      if negb allow_edits then None
      else match line_starts with
           | [] => Some 0%nat
           | first :: _ =>
               if (line =? 0)%nat then Some (Z.to_nat (Z.max 0 first))
               else Some (Z.to_nat (Z.max 0 (default 0 (last line_starts))))
           end
  | Some line_start =>
      let line_start := Z.to_nat (Z.max 0 line_start) in
      if 0 <? character then
        let line_end := match line_starts !! S line with
                        | Some pos => Z.to_nat (Z.max 0 pos)
                        | None => length text
                        end in
        '(utf16, pos) ← utf16_loop (S (length text)) text line_end character 0 line_start;
        if negb allow_edits && (pos =? line_end)%nat && (utf16 <? character) then None
        else if allow_edits && (length text <? pos)%nat then Some (length text)
        else Some pos
      else if allow_edits && (length text <? line_start)%nat then Some (length text)
      else if negb allow_edits && negb (line_start <=? length text)%nat then None
      else Some line_start
  end.

(** [utf16len], with its scan for the first byte that is not ASCII. *)
Definition utf16len (s : bytes) : option Z :=
  match find_index (fun b => 128 <=? b) s with
  | Some i => rest ← slice_from s i; Some (as_i32 (Z.of_nat i) + sum_utf16 (chars rest))
  | None => Some (as_i32 (Z.of_nat (length s)))
  end.

(** [get_ecma_end_line_position]: back from the start of the next line over its line break. *)
Fixpoint end_line_loop (fuel : nat) (text : bytes) (start pos : nat) : option nat :=
  match fuel with
  | O => None
  | S fuel =>
      if (start <=? pos)%nat then
        prefix ← slice text 0 (S pos);
        match last (chars prefix) with
        | None => Some pos
        | Some ch =>
            if negb ((ch =? 13) || (ch =? 10) || (ch =? 8232) || (ch =? 8233)) then Some pos
            else if (pos =? 0)%nat then Some pos
            else end_line_loop fuel text start (pos - len_utf8 ch)
        end
      else Some pos
  end.

Definition get_ecma_end_line_position (text : bytes) (line_map : list Z) (line : nat) : option nat :=
  if (S line =? length line_map)%nat then Some (length text - 1)%nat
  else
    next ← line_map !! S line;
    end_line_loop (S (length text)) text (line_start_at line_map line) (Z.to_nat (Z.max 0 next) - 1).

(** ** The line starts of a text *)

(** The positions after the line breaks of [cs], the first character being at [pos]; [\r\n] is one
    break. *)
Fixpoint breaks (pos : Z) (cs : list char) : list Z :=
  match cs with
  | [] => []
  | ch :: cs' =>
      let pos := pos + Z.of_nat (len_utf8 ch) in
      if ch =? 13 then
        match cs' with
        | ch2 :: cs'' => if ch2 =? 10 then pos + 1 :: breaks (pos + 1) cs'' else pos :: breaks pos cs'
        | [] => [pos]
        end
      else if is_line_break ch then pos :: breaks pos cs'
      else breaks pos cs'
  end.

Definition position (cs : list char) : Z := Z.of_nat (length (utf8 cs)).

Lemma position_snoc cs ch : position (cs ++ [ch]) = position cs + Z.of_nat (len_utf8 ch).
Proof.
  unfold position. rewrite utf8_app, length_app. cbn. rewrite app_nil_r, length_utf8_encode. lia.
Qed.

Section line_starts.
Context (text : bytes) (Hlen : Z.of_nat (length text) < 2 ^ 31).

Lemma text_len : as_i32 (Z.of_nat (length text)) = Z.of_nat (length text).
Proof. by apply as_i32_small. Qed.

(** The text split at a character boundary. *)
Definition split_at (cs1 cs2 : list char) : Prop :=
  Forall (fun ch => is_scalar ch = true) (cs1 ++ cs2) /\ text = utf8 cs1 ++ utf8 cs2.

Lemma split_at_shift cs1 ch cs2 : split_at cs1 (ch :: cs2) -> split_at (cs1 ++ [ch]) cs2.
Proof.
  intros [H1 H2]. split; [by rewrite <- app_assoc|]. rewrite H2, utf8_app. cbn.
  by rewrite app_nil_r, <- app_assoc.
Qed.

Lemma split_at_le cs1 cs2 : split_at cs1 cs2 -> position cs1 <= Z.of_nat (length text).
Proof. clear Hlen. intros [_ ->]. unfold position. rewrite length_app. lia. Qed.

Lemma split_at_lt cs1 ch cs2 : split_at cs1 (ch :: cs2) -> position cs1 < Z.of_nat (length text).
Proof. clear Hlen.
  intros Hs. pose proof (split_at_le _ _ (split_at_shift _ _ _ Hs)) as H.
  rewrite position_snoc in H. pose proof (len_utf8_pos ch). lia.
Qed.

Lemma split_at_end cs1 : split_at cs1 [] -> position cs1 = Z.of_nat (length text).
Proof. clear Hlen. intros [_ ->]. cbn. by rewrite app_nil_r. Qed.

Lemma split_at_first cs1 ch cs2 :
  split_at cs1 (ch :: cs2) -> exists b, text !! Z.to_nat (position cs1) = Some b
    /\ (ch < 128 -> b = ch) /\ (128 <= ch -> 128 <= b).
Proof.
  intros [Hf Ht]. apply Forall_app in Hf as [_ Hf]. apply Forall_cons in Hf as [Hch _].
  unfold position. rewrite Nat2Z.id, Ht, lookup_app_r by lia. rewrite Nat.sub_diag. cbn [utf8 flat_map].
  pose proof (length_utf8_encode ch) as Hl. pose proof (len_utf8_pos ch).
  destruct (lookup_lt_is_Some_2 (utf8_encode ch) 0) as [b Hb]; [lia|].
  exists b. rewrite lookup_app_l by lia. split; [done|].
  unfold utf8_encode in Hb. unfold is_scalar in Hch. apply orb_true_iff in Hch.
  split; intros Hlt.
  - rewrite (proj2 (Z.ltb_lt _ _) Hlt) in Hb. by injection Hb.
  - rewrite (proj2 (Z.ltb_ge _ _) Hlt) in Hb.
    destruct (ch <? 2048); [|destruct (ch <? 65536)]; injection Hb as <-; zdiv.
Qed.

Lemma split_at_slice cs1 cs2 :
  split_at cs1 cs2 -> slice_from text (Z.to_nat (position cs1)) = Some (utf8 cs2).
Proof.
  intros [Hf Ht]. apply Forall_app in Hf as [_ Hf]. unfold position. rewrite Nat2Z.id.
  rewrite slice_from_at.
  - by rewrite Ht, drop_app_length.
  - rewrite Ht. split; [by apply is_char_boundary_app|rewrite length_app; lia].
Qed.

(** What [next] does from a boundary: it reaches the next break, or the end. *)
Lemma next_loop_ok fuel cs1 cs2 ls :
  split_at cs1 cs2 -> (length cs2 < fuel)%nat ->
  (breaks (position cs1) cs2 = []
   /\ exists p, next_loop fuel text (position cs1) ls = Some (ls, mkSeq p ls true))
  \/ (exists cs1' cs2', split_at cs1' cs2' /\ (length cs2' < length cs2)%nat
      /\ breaks (position cs1) cs2 = position cs1' :: breaks (position cs1') cs2'
      /\ next_loop fuel text (position cs1) ls
         = Some (ls, mkSeq (position cs1') (position cs1') false)).
Proof.
  revert cs1 cs2. induction fuel as [|fuel IH]; intros cs1 cs2 Hs Hf; [lia|].
  cbn [next_loop]. rewrite text_len. destruct cs2 as [|ch cs2].
  { left. split; [done|]. rewrite (split_at_end _ Hs), Z.ltb_irrefl. by eexists. }
  rewrite (proj2 (Z.ltb_lt _ _) (split_at_lt _ _ _ Hs)).
  destruct (split_at_first _ _ _ Hs) as (b & Hb & Hb1 & Hb2). rewrite Hb.
  cbn [mbind option_bind]. pose proof (split_at_shift _ _ _ Hs) as Hs'.
  pose proof (position_snoc cs1 ch) as Hp. cbn [length] in Hf.
  destruct (b <? 128) eqn:Eb; bool_to_prop.
  - assert (ch < 128) as Hch by (destruct (decide (ch < 128)); [done|lia]).
    rewrite (Hb1 Hch) in *. assert (len_utf8 ch = 1%nat) as Hl.
    { unfold len_utf8. by rewrite (proj2 (Z.ltb_lt _ _) Hch). }
    rewrite Hl in Hp. replace (position cs1 + 1) with (position (cs1 ++ [ch])) by lia.
    cbn [breaks]. rewrite Hl. replace (position cs1 + Z.of_nat 1) with (position (cs1 ++ [ch])) by lia.
    destruct (ch =? 13) eqn:E13; bool_to_prop.
    + right. subst ch. destruct cs2 as [|ch2 cs2].
      { exists (cs1 ++ [13]), []. split; [done|]. split; [cbn; lia|].
        rewrite (split_at_end _ Hs'), Z.ltb_irrefl. by rewrite <- (split_at_end _ Hs'). }
      rewrite (proj2 (Z.ltb_lt _ _) (split_at_lt _ _ _ Hs')).
      destruct (split_at_first _ _ _ Hs') as (b2 & Hbb & Hb3 & Hb4). rewrite Hbb.
      destruct (decide (ch2 = 10)) as [->|Hne].
      * rewrite (Hb3 ltac:(lia)), bool_decide_eq_true_2 by done. cbn [andb].
        pose proof (split_at_shift _ _ _ Hs') as Hs2. pose proof (position_snoc (cs1 ++ [13]) 10) as Hp2.
        cbn [len_utf8 Z.ltb] in Hp2. change (Z.of_nat 1) with 1 in Hp2.
        exists ((cs1 ++ [13]) ++ [10]), cs2. split; [done|]. split; [cbn; lia|].
        by rewrite Hp2.
      * rewrite bool_decide_eq_false_2 by (intros [= ->]; destruct (decide (ch2 < 128)); lia).
        cbn [andb]. exists (cs1 ++ [13]), (ch2 :: cs2). split; [done|]. split; [cbn; lia|].
        split; [|done]. by rewrite (proj2 (Z.eqb_neq _ _) Hne).
    + assert (is_line_break ch = (ch =? 10)) as Hbr.
      { unfold is_line_break. rewrite (proj2 (Z.eqb_neq ch 13)) by done.
        rewrite (proj2 (Z.eqb_neq ch 8232)), (proj2 (Z.eqb_neq ch 8233)) by lia.
        by rewrite !orb_false_r. }
      rewrite Hbr. destruct (ch =? 10) eqn:E10.
      * right. exists (cs1 ++ [ch]), cs2. split; [done|]. split; [cbn; lia|]. done.
      * destruct (IH (cs1 ++ [ch]) cs2 Hs') as [H|(cs1' & cs2' & H1 & H2 & H3 & H4)]; [lia|by left|].
        right. exists cs1', cs2'. split; [done|]. split; [cbn; lia|]. done.
  - assert (128 <= ch) as Hch by (destruct (decide (ch < 128)) as [Hlt|]; [rewrite (Hb1 Hlt) in Eb; lia|lia]).
    rewrite (split_at_slice _ _ Hs). cbn [mbind option_bind].
    assert (is_scalar ch = true) as Hsc.
    { destruct Hs as [Hf' _]. apply Forall_app in Hf' as [_ Hf']. by apply Forall_cons in Hf' as [? _]. }
    cbn [utf8 flat_map]. rewrite next_char_encode by done. cbn [mbind option_bind breaks].
    rewrite (proj2 (Z.eqb_neq ch 13)) by lia. rewrite <- Hp.
    destruct (is_line_break ch).
    + right. exists (cs1 ++ [ch]), cs2. split; [done|]. split; [cbn; lia|]. done.
    + destruct (IH (cs1 ++ [ch]) cs2 Hs') as [H|(cs1' & cs2' & H1 & H2 & H3 & H4)]; [lia|by left|].
      right. exists cs1', cs2'. split; [done|]. split; [cbn; lia|]. done.
Qed.

Lemma collect_ok n fuel cs1 cs2 ls :
  split_at cs1 cs2 -> (length cs2 <= n)%nat -> (n + 2 <= fuel)%nat -> (length cs2 <= length text)%nat ->
  collect fuel text (mkSeq (position cs1) ls false) = Some (ls :: breaks (position cs1) cs2).
Proof.
  revert fuel cs1 cs2 ls. induction n as [|n IH]; intros fuel cs1 cs2 ls Hs Hn Hf Hl;
    (destruct fuel as [|[|fuel]]; [lia|lia|]); cbn [collect]; unfold next; cbn [seq_done seq_pos seq_line_start];
    (destruct (next_loop_ok (S (length text)) cs1 cs2 ls Hs ltac:(lia))
      as [[Hb [p Hr]]|(cs1' & cs2' & H1 & H2 & H3 & H4)]).
  - rewrite Hr, Hb. done.
  - lia.
  - rewrite Hr, Hb. done.
  - rewrite H4. cbn [mbind option_bind]. rewrite H3.
    pose proof (IH (S fuel) cs1' cs2' (position cs1') H1 ltac:(lia) ltac:(lia) ltac:(lia)) as Hc.
    cbn [collect] in Hc. unfold next in Hc. rewrite Hc. done.
Qed.
End line_starts.

Lemma utf8_length_le cs : (length cs <= length (utf8 cs))%nat.
Proof.
  induction cs as [|ch cs IH]; [done|]. rewrite length_utf8_cons. cbn. pose proof (len_utf8_pos ch). lia.
Qed.

(** C17. The line map is right: for every text under 2 GiB the byte-level iterator (with its fast path for
    ASCII bytes) collects, without panicking, [0] and the positions after the line breaks of the
    text read as characters: a carriage return with the line feed after it if any, a line feed,
    U+2028 and U+2029. *)
Theorem line_starts_correct (cs : list char) :
  Forall (fun ch => is_scalar ch = true) cs -> Z.of_nat (length (utf8 cs)) < 2 ^ 31 ->
  compute_ecma_line_starts (utf8 cs) = Some (0 :: breaks 0 cs).
Proof.
  intros Hcs Hlen. unfold compute_ecma_line_starts. pose proof (utf8_length_le cs).
  apply (collect_ok (utf8 cs) Hlen (length cs) _ [] cs 0); [done|done|lia|done].
Qed.

Lemma line_starts_correct_witness :
  compute_ecma_line_starts (utf8 [chr "a"; 13; 10; 8232; chr "b"]) = Some [0; 3; 6].
Proof.
  rewrite (line_starts_correct [chr "a"; 13; 10; 8232; chr "b"]); [reflexivity| |reflexivity].
  repeat constructor.
Defined.

(** ** Lines of positions *)

(** Strictly increasing from [lo]. *)
Fixpoint increasing (lo : Z) (xs : list Z) : Prop :=
  match xs with
  | [] => True
  | x :: xs => lo < x /\ increasing x xs
  end.

Lemma breaks_increasing n lo pos cs :
  (length cs <= n)%nat -> lo <= pos -> increasing lo (breaks pos cs).
Proof.
  revert lo pos cs. induction n as [|n IH]; intros lo pos cs Hn Hlo;
    (destruct cs as [|ch cs]; [done|]); cbn [length breaks] in *; [lia|].
  pose proof (len_utf8_pos ch). destruct (ch =? 13); [|destruct (is_line_break ch)].
  - destruct cs as [|ch2 cs]; [cbn; lia|]. cbn [length] in Hn.
    destruct (ch2 =? 10); cbn [increasing]; (split; [lia|]); apply IH; cbn; lia.
  - cbn [increasing]. split; [lia|]. apply IH; lia.
  - apply IH; lia.
Qed.

(** Each break is the position after a prefix of the text. *)
Lemma breaks_prefix n cs1 cs2 p :
  (length cs2 <= n)%nat -> p ∈ breaks (position cs1) cs2 ->
  exists x y, cs2 = x ++ y /\ p = position (cs1 ++ x).
Proof.
  revert cs1 cs2. induction n as [|n IH]; intros cs1 cs2 Hn Hp;
    (destruct cs2 as [|ch cs2]; [by apply elem_of_nil in Hp|]); [cbn in Hn; lia|].
  cbn [breaks length] in *. rewrite <- position_snoc in Hp.
  assert (p ∈ breaks (position (cs1 ++ [ch])) cs2 -> exists x y, ch :: cs2 = x ++ y /\ p = position (cs1 ++ x))
    as Hrest.
  { intros H. destruct (IH (cs1 ++ [ch]) cs2 ltac:(lia) H) as (x & y & -> & ->).
    exists (ch :: x), y. split; [done|]. by rewrite <- app_assoc. }
  assert (p = position (cs1 ++ [ch]) -> exists x y, ch :: cs2 = x ++ y /\ p = position (cs1 ++ x)) as Hhere.
  { intros ->. by exists [ch], cs2. }
  destruct (ch =? 13) eqn:E13; bool_to_prop; [|destruct (is_line_break ch)].
  - destruct cs2 as [|ch2 cs2]; [apply list_elem_of_singleton in Hp; by apply Hhere|].
    destruct (ch2 =? 10) eqn:E10; bool_to_prop; apply elem_of_cons in Hp as [Hp|Hp].
    + subst. exists [13; 10], cs2. split; [done|].
      rewrite (position_snoc cs1 13) in *. change [13; 10] with ([13] ++ [10]).
      rewrite app_assoc, !position_snoc. done.
    + subst. assert (position (cs1 ++ [13]) + 1 = position (cs1 ++ [13; 10])) as Hpos.
      { change [13; 10] with ([13] ++ [10]). rewrite app_assoc, (position_snoc (cs1 ++ [13]) 10). done. }
      rewrite Hpos in Hp. cbn in Hn.
      destruct (IH (cs1 ++ [13; 10]) cs2 ltac:(lia) Hp) as (x & y & -> & ->).
      exists (13 :: 10 :: x), y. split; [done|]. by rewrite <- app_assoc.
    + by apply Hhere.
    + by apply Hrest.
  - apply elem_of_cons in Hp as [Hp|Hp]; [by apply Hhere|by apply Hrest].
  - by apply Hrest.
Qed.

(** A binary search finds the last start that is not after the position. *)
Lemma binary_search_line lo xs x :
  lo <= x -> increasing lo xs ->
  let line := match binary_search (lo :: xs) x with inl i => i | inr i => (i - 1)%nat end in
  exists a, (lo :: xs) !! line = Some a /\ a <= x
    /\ forall b, (lo :: xs) !! S line = Some b -> x < b.
Proof.
  revert lo. induction xs as [|y xs IH]; intros lo Hlo Hinc; cbn [binary_search].
  - rewrite (proj2 (Z.ltb_ge _ _) Hlo). destruct (x =? lo) eqn:E; by exists lo.
  - rewrite (proj2 (Z.ltb_ge _ _) Hlo). cbn in Hinc. destruct Hinc as [Hy Hinc].
    destruct (x =? lo) eqn:E; bool_to_prop.
    + exists lo. split; [done|]. split; [lia|]. cbn. intros b [= <-]. lia.
    + destruct (decide (x < y)) as [Hxy|Hxy].
      * cbn [binary_search]. rewrite (proj2 (Z.ltb_lt _ _) Hxy). exists lo. split; [done|].
        split; [lia|]. cbn. by intros b [= <-].
      * specialize (IH y ltac:(lia) Hinc). cbn zeta in IH.
        cbn [binary_search] in IH |- *. rewrite (proj2 (Z.ltb_ge x y)) in IH |- * by lia.
        destruct (x =? y); [exact IH|].
        destruct (binary_search xs x) as [i|i]; [exact IH|].
        destruct i as [|i]; cbn in IH |- *; exact IH.
Qed.

(** ** Positions as lines and UTF-16 characters *)
Lemma len_utf16_pos ch : 1 <= len_utf16 ch.
Proof. unfold len_utf16. destruct (ch <? 65536); lia. Qed.

Lemma sum_utf16_nonneg cs : 0 <= sum_utf16 cs.
Proof. induction cs as [|ch cs IH]; cbn; [lia|]. pose proof (len_utf16_pos ch). lia. Qed.

Lemma sum_utf16_app cs1 cs2 : sum_utf16 (cs1 ++ cs2) = sum_utf16 cs1 + sum_utf16 cs2.
Proof. induction cs1 as [|ch cs1 IH]; cbn; [done|]. rewrite IH. lia. Qed.

(** [utf16len] is the number of UTF-16 units. *)
Lemma ascii_prefix cs :
  Forall (fun ch => is_scalar ch = true) cs ->
  match find_index (fun b => 128 <=? b) (utf8 cs) with
  | Some i => exists a b, cs = a ++ b /\ length (utf8 a) = i /\ sum_utf16 a = Z.of_nat i
  | None => sum_utf16 cs = Z.of_nat (length (utf8 cs))
  end.
Proof.
  induction 1 as [|ch cs Hch Hcs IH]; [done|]. cbn [utf8 flat_map]. fold (utf8 cs). unfold utf8_encode.
  assert (0 <= ch < 1114112) as Hr.
  { unfold is_scalar in Hch. rewrite orb_true_iff, !andb_true_iff, !Z.leb_le, !Z.ltb_lt in Hch. lia. }
  destruct (ch <? 128) eqn:E; bool_to_prop.
  - cbn [app find_index]. rewrite (proj2 (Z.leb_gt _ _)) by lia.
    assert (len_utf16 ch = 1) as Hl by (unfold len_utf16; by rewrite (proj2 (Z.ltb_lt _ _)) by lia).
    destruct (find_index _ (utf8 cs)) as [i|].
    + destruct IH as (a & b & -> & H1 & H2). exists (ch :: a), b. split; [done|]. cbn [fmap option_fmap option_map sum_utf16].
      rewrite length_utf8_cons. unfold len_utf8. rewrite (proj2 (Z.ltb_lt _ _)) by lia. lia.
    + cbn [fmap option_fmap option_map sum_utf16 length]. lia.
  - assert (forall b r, 128 <= b -> exists a c, ch :: cs = a ++ c /\ length (utf8 a) = 0%nat /\ sum_utf16 a = 0 /\
      find_index (fun b => 128 <=? b) (b :: r) = Some 0%nat) as Hhere.
    { intros b r Hb. exists [], (ch :: cs). cbn. by rewrite (proj2 (Z.leb_le _ _)). }
    repeat case_if; cbn [app]; match goal with |- context [find_index _ (?b :: ?r)] =>
      destruct (Hhere b r ltac:(zdiv)) as (a & c & H1 & H2 & H3 & ->) end; by exists a, c.
Qed.

Lemma utf16len_spec cs :
  Forall (fun ch => is_scalar ch = true) cs -> Z.of_nat (length (utf8 cs)) < 2 ^ 31 ->
  utf16len (utf8 cs) = Some (sum_utf16 cs).
Proof.
  intros Hs Hl. unfold utf16len. pose proof (ascii_prefix cs Hs) as Ha. destruct (find_index _ _) as [i|].
  - destruct Ha as (a & b & -> & <- & Hsum). rewrite utf8_app, length_app in Hl. apply Forall_app in Hs as [Ha Hb].
    rewrite slice_from_at.
    + rewrite utf8_app, drop_app_length. cbn [mbind option_bind]. by rewrite chars_utf8, as_i32_id, <- Hsum, sum_utf16_app by (done || lia).
    + rewrite utf8_app. split; [by apply is_char_boundary_app|rewrite length_app; lia].
  - by rewrite Ha, as_i32_id by lia.
Qed.

Section positions.
Context (cs : list char) (Hcs : Forall (fun ch => is_scalar ch = true) cs).
Context (Hlen : Z.of_nat (length (utf8 cs)) < 2 ^ 31).

Definition pos_nat (cs : list char) : nat := length (utf8 cs).

Lemma pos_nat_app a b : pos_nat (a ++ b) = (pos_nat a + pos_nat b)%nat.
Proof. unfold pos_nat. by rewrite utf8_app, length_app. Qed.

Lemma pos_nat_zero a : pos_nat a = 0%nat -> a = [].
Proof.
  destruct a as [|ch a]; [done|]. unfold pos_nat. rewrite length_utf8_cons.
  pose proof (len_utf8_pos ch). lia.
Qed.

(** Of two prefixes of a text the one that ends first is a prefix of the other. *)
Lemma prefix_of_position a b c d :
  a ++ b = c ++ d -> (pos_nat a <= pos_nat c)%nat -> exists m, c = a ++ m.
Proof.
  intros H Hle. apply app_eq_app in H as [l [[-> ->]|[-> ->]]].
  - exists []. rewrite pos_nat_app in Hle. assert (l = []) as -> by (apply pos_nat_zero; lia).
    by rewrite !app_nil_r.
  - by exists l.
Qed.

Lemma slice_middle a m b :
  cs = a ++ m ++ b -> slice (utf8 cs) (pos_nat a) (pos_nat (a ++ m)) = Some (utf8 m).
Proof.
  intros ->. rewrite pos_nat_app. apply Forall_app in Hcs as [_ Hmb].
  apply Forall_app in Hmb as [Hm Hb].
  rewrite slice_some.
  - replace (pos_nat a + pos_nat m - pos_nat a)%nat with (length (utf8 m)) by (unfold pos_nat; lia).
    rewrite utf8_app. unfold pos_nat. rewrite drop_app_length, utf8_app. by rewrite take_app_length.
  - lia.
  - rewrite utf8_app. apply is_char_boundary_app. by apply Forall_app.
  - rewrite <- pos_nat_app, app_assoc, utf8_app. by apply is_char_boundary_app.
Qed.

(** The loop over the characters of a line stops after the ones that add up. *)
Lemma utf16_loop_run m a b fuel line_end n0 :
  cs = a ++ m ++ b -> (pos_nat (a ++ m) <= line_end)%nat -> (length m < fuel)%nat ->
  utf16_loop fuel (utf8 cs) line_end (n0 + sum_utf16 m) n0 (pos_nat a)
  = Some (n0 + sum_utf16 m, pos_nat (a ++ m)).
Proof.
  revert a n0 fuel. induction m as [|ch m IH]; intros a n0 fuel Heq Hle Hf;
    (destruct fuel as [|fuel]; [cbn in Hf; lia|]); cbn [utf16_loop sum_utf16 length] in *.
  - rewrite app_nil_r, Z.add_0_r. destruct (_ <? _)%nat; [|done]. by rewrite Z.leb_refl.
  - pose proof (len_utf16_pos ch). pose proof (sum_utf16_nonneg m).
    pose proof (len_utf8_pos ch).
    rewrite pos_nat_app in Hle. unfold pos_nat at 2 in Hle. rewrite length_utf8_cons in Hle.
    rewrite (proj2 (Nat.ltb_lt _ _)) by lia. rewrite (proj2 (Z.leb_gt _ _)) by lia.
    assert (slice_from (utf8 cs) (pos_nat a) = Some (utf8 (ch :: m ++ b))) as ->.
    { rewrite slice_from_at.
      - rewrite Heq, utf8_app. unfold pos_nat. by rewrite drop_app_length.
      - rewrite Heq, utf8_app. split; [|rewrite length_app; unfold pos_nat; lia].
        apply is_char_boundary_app. rewrite Heq in Hcs. by apply Forall_app in Hcs as [_ ?]. }
    assert (is_scalar ch = true) as Hch.
    { rewrite Heq in Hcs. apply Forall_app in Hcs as [_ H']. by apply Forall_cons in H' as [? _]. }
    cbn [mbind option_bind utf8 flat_map]. rewrite next_char_encode by done.
    replace (pos_nat a + len_utf8 ch)%nat with (pos_nat (a ++ [ch])).
    2: { rewrite pos_nat_app. unfold pos_nat. cbn. rewrite app_nil_r, length_utf8_encode. done. }
    replace (n0 + (len_utf16 ch + sum_utf16 m)) with (n0 + len_utf16 ch + sum_utf16 m) by lia.
    rewrite (IH (a ++ [ch])); [by rewrite <- app_assoc|by rewrite <- app_assoc| |lia].
    rewrite <- app_assoc. cbn [app]. rewrite pos_nat_app. unfold pos_nat at 2. rewrite length_utf8_cons. lia.
Qed.

Definition line_map : list Z := 0 :: breaks 0 cs.

Lemma line_map_prefix p :
  p ∈ line_map -> exists x y, cs = x ++ y /\ p = Z.of_nat (pos_nat x).
Proof.
  intros Hp. apply elem_of_cons in Hp as [->|Hp]; [by exists [], cs|].
  destruct (breaks_prefix (length cs) [] cs p ltac:(lia) Hp) as (x & y & -> & ->). by exists x, y.
Qed.

(** The line of a position: it starts at a prefix [a] of the text before the position, and the next
    line starts after it. *)
Lemma line_of_position c d :
  cs = c ++ d ->
  let line := compute_line_of_position line_map (pos_nat c) in
  exists a m, c = a ++ m /\ line_map !! line = Some (Z.of_nat (pos_nat a))
    /\ forall b, line_map !! S line = Some b -> Z.of_nat (pos_nat c) < b.
Proof.
  intros Heq. unfold compute_line_of_position. rewrite as_i32_small.
  2: { rewrite Heq, utf8_app, length_app in Hlen. unfold pos_nat. lia. }
  destruct (binary_search_line 0 (breaks 0 cs) (Z.of_nat (pos_nat c))) as (p & H1 & H2 & H3).
  - lia.
  - apply (breaks_increasing (length cs)); lia.
  - fold line_map in *. destruct (line_map_prefix p) as (x & y & Hxy & ->).
    { by eapply list_elem_of_lookup_2. }
    destruct (prefix_of_position x y c d) as [m ->]; [congruence|lia|].
    exists x, m. done.
Qed.

(** C18. Positions round-trip through lines and UTF-16 characters: for every character boundary of a text
    under 2 GiB, the line and character computed from the position exist, and the position computed
    back from them, in the strict mode that panics on a bad line or character, is that position. *)
Theorem utf16_position_roundtrip (c d : list char) :
  cs = c ++ d ->
  exists line character,
    get_ecma_line_and_utf16_character_of_position (utf8 cs) line_map (pos_nat c)
      = Some (line, character)
    /\ compute_position_of_line_and_utf16_character line_map line character (utf8 cs) false
       = Some (pos_nat c).
Proof.
  intros Heq. destruct (line_of_position c d Heq) as (a & m & Hc & Hline & Hnext).
  set (line := compute_line_of_position line_map (pos_nat c)) in *. subst c.
  assert (cs = a ++ m ++ d) as Hsplit by (by rewrite Heq, <- app_assoc).
  assert (pos_nat (a ++ m) <= length (utf8 cs))%nat as Hle.
  { rewrite Heq, utf8_app, length_app. unfold pos_nat. lia. }
  exists line, (sum_utf16 m). split.
  - unfold get_ecma_line_and_utf16_character_of_position, line_start_at. fold line. rewrite Hline.
    cbn [from_option id]. rewrite (Z.max_r 0 (Z.of_nat (pos_nat a))) by lia. rewrite Nat2Z.id, (Nat.min_l _ _ Hle).
    rewrite (slice_middle a m d Hsplit). cbn [mbind option_bind]. rewrite chars_utf8; [done|].
    rewrite Hsplit in Hcs. apply Forall_app in Hcs as [_ H']. by apply Forall_app in H' as [? _].
  - unfold compute_position_of_line_and_utf16_character. rewrite Hline.
    rewrite Z.max_r, Nat2Z.id by lia.
    destruct (0 <? sum_utf16 m) eqn:E; bool_to_prop.
    + set (line_end := match line_map !! S line with Some pos => _ | None => _ end).
      assert (pos_nat (a ++ m) <= line_end)%nat as Hend.
      { subst line_end. destruct (line_map !! S line) as [b|]; [|done].
        specialize (Hnext b eq_refl). lia. }
      pose proof (utf16_loop_run m a d (S (length (utf8 cs))) line_end 0 Hsplit Hend) as Hrun.
      rewrite Z.add_0_l in Hrun. rewrite Hrun.
      * cbn [mbind option_bind]. rewrite Z.ltb_irrefl, andb_false_r. done.
      * rewrite pos_nat_app in Hle. pose proof (utf8_length_le m). unfold pos_nat in Hle. lia.
    + assert (m = []) as ->.
      { destruct m as [|ch m]; [done|]. cbn in E. pose proof (len_utf16_pos ch).
        pose proof (sum_utf16_nonneg m). lia. }
      rewrite app_nil_r in *. cbn [andb negb]. by rewrite (proj2 (Nat.leb_le _ _) Hle).
Qed.
End positions.

Lemma utf16_position_roundtrip_witness :
  exists line character,
    get_ecma_line_and_utf16_character_of_position (utf8 [10; 128512; chr "b"])
      (line_map [10; 128512; chr "b"]) 5 = Some (line, character)
    /\ compute_position_of_line_and_utf16_character (line_map [10; 128512; chr "b"]) line character
         (utf8 [10; 128512; chr "b"]) false = Some 5%nat.
Proof.
  apply (utf16_position_roundtrip [10; 128512; chr "b"] ltac:(repeat constructor) ltac:(reflexivity)
    [10; 128512] [chr "b"]). reflexivity.
Defined.
