(* ===== verification/TextWriter.v ===== *)
(** * TextWriter: the printer's output (ts-printer/src/textwriter.rs, singlelinestringwriter.rs, emittextwriter.rs)

    The trait [EmitTextWriter] is a class, its two implementations are instances: [TextWriter], which indents lines and
    counts them for source maps, and [SingleLineStringWriter]. The counters are [i32]: where their arithmetic leaves
    that range a build with overflow checks panics and one without wraps around, as the class [OverflowChecks] says. *)
From S2P Require Import Prelude Text Chars Monad Trivia LineMap.

(** ** [i32] arithmetic *)

(** Whether the build checks for overflow. *)
Class OverflowChecks := overflow_checks : bool.

Definition in_i32 (z : Z) : bool := (- 2 ^ 31 <=? z) && (z <? 2 ^ 31).

(** The result of an operation whose exact result is [z]. *)
Definition i32 `{OverflowChecks} (z : Z) : option Z :=
  if in_i32 z then Some z else if overflow_checks then None else Some (as_i32 z).

(** ** The trait *)
Class EmitTextWriter (W : Type) := {
  write : bytes -> M W unit;
  write_comment : bytes -> M W unit;
  write_line : M W unit;
  write_line_force : bool -> M W unit;
  increase_indent : M W unit;
  decrease_indent : M W unit;
  clear : M W unit;
  string : W -> bytes;
  raw_write : bytes -> M W unit;
  get_text_pos : W -> Z;
  get_line : W -> Z;
  get_column : M W Z;
  get_indent : W -> Z;
  is_at_start_of_line : W -> bool;
  has_trailing_comment : W -> bool;
  has_trailing_whitespace : W -> bool;
}.

(** [write_keyword], [write_operator], [write_punctuation], [write_space], [write_string_literal], [write_parameter],
    [write_property], [write_symbol], [write_literal] and [write_trailing_semicolon] all pass on to [write]. *)
Definition write_keyword {W} `{EmitTextWriter W} (text : bytes) : M W unit := write text.

(** ** Helpers *)
Definition DEFAULT_INDENT_SIZE : Z := 4.
Definition get_default_indent_size : Z := DEFAULT_INDENT_SIZE.

(** [" ".repeat(n as usize)]: a negative [i32] becomes a number of bytes that cannot be allocated. *)
Definition get_indent_string `{OverflowChecks} (indent indent_size : Z) : option bytes :=
  if indent =? 0 then Some []
  else
    n ← i32 (indent * indent_size);
    if n <? 0 then None else Some (replicate (Z.to_nat n) 32).

(** The loop of [compute_ecma_line_starts_seq]; the fuel is the number of characters left, and one. *)
Fixpoint line_starts_loop (fuel : nat) (text : bytes) (pos line_start : nat) : option (list nat) :=
  match fuel with
  | O => None
  | S fuel =>
      if (pos <? length text)%nat then
        b ← text !! pos;
        if b <? 128 then
          let pos := S pos in
          if b =? 13 then
            let pos := if (pos <? length text)%nat && bool_decide (text !! pos = Some 10) then S pos else pos in
            (line_start ::.) <$> line_starts_loop fuel text pos pos
          else if b =? 10 then (line_start ::.) <$> line_starts_loop fuel text pos pos
          else line_starts_loop fuel text pos line_start
        else
          rest ← slice_from text pos;
          match next_char rest with
          | None => Some [line_start]
          | Some (ch, size) =>
              let pos := (pos + size)%nat in
              if is_line_break ch then (line_start ::.) <$> line_starts_loop fuel text pos pos
              else line_starts_loop fuel text pos line_start
          end
      else Some [line_start]
  end.

Definition compute_ecma_line_starts_seq (text : bytes) : option (list nat) :=
  line_starts_loop (S (length text)) text 0 0.

(** [utf16_len]: the bytes before the first that is not ASCII, and the units of the characters from there. *)
Fixpoint add_utf16 `{OverflowChecks} (n : Z) (cs : list char) : option Z :=
  match cs with
  | [] => Some n
  | ch :: cs => n ← i32 (n + len_utf16 ch); add_utf16 n cs
  end.

Definition utf16_len `{OverflowChecks} (s : bytes) : option Z :=
  match find_index (fun b => 128 <=? b) s with
  | Some i => rest ← slice_from s i; add_utf16 (as_i32 (Z.of_nat i)) (chars rest)
  | None => Some (as_i32 (Z.of_nat (length s)))
  end.

(** The loop of [update_line_count_and_pos_for]: how many lines start, and where the last one does. *)
Fixpoint count_lines `{OverflowChecks} (count : Z) (last_line_start : nat) (starts : list nat) : option (Z * nat) :=
  match starts with
  | [] => Some (count, last_line_start)
  | line_start :: starts => count ← i32 (count + 1); count_lines count line_start starts
  end.

(** [s.chars().next_back()]: the last character is white space. *)
Definition ends_with_white_space (s : bytes) : bool :=
  match last (chars s) with Some ch => is_white_space_like ch | None => false end.

(** ** TextWriter *)
Module TextWriter.
Record t := mk {
  new_line : bytes;
  indent_size : Z;
  builder : bytes;
  last_written : bytes;
  indent : Z;
  line_start : bool;
  line_count : Z;
  line_pos : nat;
  has_trailing_comment_state : bool;
}.

(** [new_with_indent_size], and [clear] on a writer. *)
Definition new_with_indent_size (new_line : bytes) (indent_size : Z) : t := mk new_line indent_size [] [] 0 true 0 0 false.
Definition cleared (w : t) : t := new_with_indent_size (new_line w) (indent_size w).

(** [new_text_writer] *)
Definition new_text_writer (new_line : bytes) (indent_size : Z) : t :=
  let indent_size := if indent_size <=? 0 then DEFAULT_INDENT_SIZE else indent_size in
  cleared (mk new_line indent_size [] [] 0 false 0 0 false).

Definition put_builder (b : bytes) (w : t) : t :=
  mk (new_line w) (indent_size w) b (last_written w) (indent w) (line_start w) (line_count w) (line_pos w)
    (has_trailing_comment_state w).
Definition put_last (l : bytes) (w : t) : t :=
  mk (new_line w) (indent_size w) (builder w) l (indent w) (line_start w) (line_count w) (line_pos w)
    (has_trailing_comment_state w).
Definition put_indent (n : Z) (w : t) : t :=
  mk (new_line w) (indent_size w) (builder w) (last_written w) n (line_start w) (line_count w) (line_pos w)
    (has_trailing_comment_state w).
Definition put_line (count : Z) (pos : nat) (start : bool) (w : t) : t :=
  mk (new_line w) (indent_size w) (builder w) (last_written w) (indent w) start count pos (has_trailing_comment_state w).
Definition put_comment (b : bool) (w : t) : t :=
  mk (new_line w) (indent_size w) (builder w) (last_written w) (indent w) (line_start w) (line_count w) (line_pos w) b.

(** [self.builder.push_str(s)] and [self.last_written] set to it. *)
Definition push_str (s : bytes) : M t unit := modify (fun w => put_builder (builder w ++ s) w).
Definition set_last (s : bytes) : M t unit := modify (put_last s).

Definition update_line_count_and_pos_for `{OverflowChecks} (s : bytes) : M t unit :=
  starts ← unwrap (compute_ecma_line_starts_seq s);
  '(count, last_line_start) ← unwrap (count_lines 0 0 starts);
  w ← get;
  if 1 <? count then
    line_count ← unwrap (i32 (line_count w + (count - 1)));
    let cur_len := length (builder w) in
    let line_pos := (cur_len - length s + last_line_start)%nat in
    modify (put_line line_count line_pos (line_pos =? cur_len)%nat)
  else modify (put_line (line_count w) (line_pos w) false).

Definition write_text `{OverflowChecks} (s : bytes) : M t unit :=
  match s with
  | [] => mret tt
  | _ =>
      w ← get;
      (if line_start w then
         indentation ← unwrap (get_indent_string (indent w) (indent_size w));
         push_str indentation ;;
         modify (put_line (line_count w) (line_pos w) false)
       else mret tt) ;;
      push_str s ;; set_last s ;; update_line_count_and_pos_for s
  end.

Definition write_line_raw `{OverflowChecks} : M t unit :=
  nl ← gets new_line;
  push_str nl ;; set_last nl ;;
  w ← get;
  line_count ← unwrap (i32 (line_count w + 1));
  modify (fun w => put_comment false (put_line line_count (length (builder w)) true w)).

#[global] Instance emit `{OverflowChecks} : EmitTextWriter t := {
  write s := when (negb (bool_decide (s = []))) (modify (put_comment false)) ;; write_text s;
  write_comment s := when (negb (bool_decide (s = []))) (modify (put_comment true)) ;; write_text s;
  write_line := w ← get; when (negb (line_start w)) write_line_raw;
  write_line_force force := w ← get; when (negb (line_start w) || force) write_line_raw;
  increase_indent := w ← get; n ← unwrap (i32 (indent w + 1)); modify (put_indent n);
  decrease_indent := w ← get; n ← unwrap (i32 (indent w - 1)); modify (put_indent n);
  clear := modify cleared;
  string := builder;
  raw_write s :=
    when (negb (bool_decide (s = []))) (push_str s ;; set_last s ;; modify (put_comment false)) ;;
    update_line_count_and_pos_for s;
  get_text_pos w := as_i32 (Z.of_nat (length (builder w)));
  get_line := line_count;
  get_column :=
    w ← get;
    if line_start w then unwrap (i32 (indent w * indent_size w))
    else unwrap (rest ← slice_from (builder w) (line_pos w); utf16_len rest);
  get_indent := indent;
  is_at_start_of_line := line_start;
  has_trailing_comment := has_trailing_comment_state;
  has_trailing_whitespace w := negb (bool_decide (builder w = [])) && ends_with_white_space (last_written w);
}.
End TextWriter.

(** ** SingleLineStringWriter *)
Module SingleLineStringWriter.
Record t := mk {
  builder : bytes;
  last_written : bytes;
}.

Definition write_raw_text (text : bytes) : M t unit := modify (fun w => mk (builder w ++ text) text).

#[global] Instance emit_single : EmitTextWriter t := {
  write := write_raw_text;
  write_comment := write_raw_text;
  write_line := write_raw_text [32];
  write_line_force _ := write_raw_text [32];
  increase_indent := mret tt;
  decrease_indent := mret tt;
  clear := modify (fun _ => mk [] []);
  string := builder;
  raw_write := write_raw_text;
  get_text_pos w := as_i32 (Z.of_nat (length (builder w)));
  get_line _ := 0;
  get_column := mret 0;
  get_indent _ := 0;
  is_at_start_of_line _ := false;
  has_trailing_comment _ := false;
  has_trailing_whitespace w := negb (bool_decide (builder w = [])) && ends_with_white_space (last_written w);
}.
End SingleLineStringWriter.

(** * The writer knows its line and column

    After any writes the line is the number of line breaks written, the column the length of the text after the last
    one in UTF-16 units, and no write panics as long as the indentation does not become negative and the counters stay in
    the range of [i32]. *)

(** ** Line breaks of a text in two parts *)
Abbreviation scalars cs := (Forall (fun ch => is_scalar ch = true) cs).

Lemma breaks_app pos a b :
  last a <> Some 13 -> breaks pos (a ++ b) = breaks pos a ++ breaks (pos + position a) b.
Proof.
  remember (length a) as n eqn:Hn. revert pos a Hn. induction n as [n IH] using lt_wf_ind; intros pos a -> Hl.
  destruct a as [|ch a]; [change (position []) with 0; by rewrite Z.add_0_r|].
  assert (forall pos a', (length a' < length (ch :: a))%nat -> last a' <> Some 13 ->
    breaks pos (a' ++ b) = breaks pos a' ++ breaks (pos + position a') b) as IH' by (intros; by eapply IH). clear IH.
  assert (forall c l, position (c :: l) = Z.of_nat (len_utf8 c) + position l) as Hc.
  { intros c l. unfold position. rewrite length_utf8_cons. lia. }
  assert (forall c l, last (c :: l) <> Some 13 -> l <> [] -> last l <> Some 13) as Hlast.
  { intros c [|c' l]; [done|]. by rewrite last_cons_cons. }
  rewrite Hc, Z.add_assoc. cbn [app breaks]. destruct (Z.eqb_spec ch 13) as [->|Hne].
  - destruct a as [|ch2 a]; [done|]. cbn [app]. change (len_utf8 13) with 1%nat. destruct (Z.eqb_spec ch2 10) as [->|Hne].
    + rewrite Hc. change (len_utf8 10) with 1%nat. cbn [app]. rewrite IH'; [do 3 f_equal; lia|cbn; lia|].
      destruct a as [|c a]; [done|]. by rewrite !last_cons_cons in Hl.
    + change (ch2 :: a ++ b) with ((ch2 :: a) ++ b). rewrite IH'; [done|cbn; lia|by apply (Hlast 13)].
  - assert (last a <> Some 13) as Hl' by (destruct a; [done|by rewrite last_cons_cons in Hl]).
    destruct (is_line_break ch); rewrite IH' by (done || (cbn; lia)); done.
Qed.

(** ** The loop over line starts *)
Definition start_list (cs : list char) : list nat := 0%nat :: map Z.to_nat (breaks 0 cs).

Lemma line_starts_loop_ok (text : bytes) cs1 cs2 ls fuel :
  split_at text cs1 cs2 -> (length cs2 < fuel)%nat ->
  line_starts_loop fuel text (Z.to_nat (position cs1)) ls = Some (ls :: map Z.to_nat (breaks (position cs1) cs2)).
Proof.
  revert cs1 cs2 ls. induction fuel as [|fuel IH]; intros cs1 cs2 ls Hs Hf; [lia|]. cbn [line_starts_loop].
  assert (0 <= position cs1) as Hp0 by (unfold position; lia).
  destruct cs2 as [|ch cs2].
  { pose proof (split_at_end _ _ Hs). rewrite (proj2 (Nat.ltb_ge _ _)) by lia. done. }
  pose proof (split_at_lt _ _ _ _ Hs) as Hlt. rewrite (proj2 (Nat.ltb_lt _ _)) by lia.
  destruct (split_at_first _ _ _ _ Hs) as (b & Hb & Hb1 & Hb2). rewrite Hb. cbn [mbind option_bind].
  pose proof (split_at_shift _ _ _ _ Hs) as Hs'. pose proof (position_snoc cs1 ch) as Hp. pose proof (len_utf8_pos ch).
  cbn [length] in Hf. destruct (b <? 128) eqn:Eb; bool_to_prop.
  - assert (ch < 128) as Hch by (destruct (decide (ch < 128)); [done|lia]). rewrite (Hb1 Hch) in *.
    assert (len_utf8 ch = 1%nat) as Hl by (unfold len_utf8; by rewrite (proj2 (Z.ltb_lt _ _) Hch)).
    cbn [breaks]. rewrite <- Hp. replace (S (Z.to_nat (position cs1))) with (Z.to_nat (position (cs1 ++ [ch]))) by lia.
    destruct (ch =? 13) eqn:E13; bool_to_prop.
    + subst ch. destruct cs2 as [|ch2 cs2].
      { pose proof (split_at_end _ _ Hs'). rewrite (proj2 (Nat.ltb_ge _ _)) by lia. cbn [andb].
        by rewrite (IH _ [] _ Hs') by (cbn; lia). }
      pose proof (split_at_lt _ _ _ _ Hs'). rewrite (proj2 (Nat.ltb_lt _ _)) by lia.
      destruct (split_at_first _ _ _ _ Hs') as (b2 & Hbb & Hb3 & Hb4). rewrite Hbb.
      destruct (decide (ch2 = 10)) as [->|Hne].
      * rewrite (Hb3 ltac:(lia)), bool_decide_eq_true_2 by done. cbn [andb Z.eqb Pos.eqb].
        pose proof (split_at_shift _ _ _ _ Hs') as Hs2. pose proof (position_snoc (cs1 ++ [13]) 10) as Hp2.
        change (Z.of_nat (len_utf8 10)) with 1 in Hp2. rewrite <- Hp2.
        replace (S (Z.to_nat (position (cs1 ++ [13])))) with (Z.to_nat (position ((cs1 ++ [13]) ++ [10]))) by lia.
        by rewrite (IH _ cs2 _ Hs2) by (cbn in Hf; lia).
      * rewrite bool_decide_eq_false_2 by (intros [= ->]; destruct (decide (ch2 < 128)); lia). cbn [andb].
        rewrite (proj2 (Z.eqb_neq ch2 10)) by done. by rewrite (IH _ (ch2 :: cs2) _ Hs') by lia.
    + assert (is_line_break ch = (ch =? 10)) as Hbr.
      { unfold is_line_break. rewrite (proj2 (Z.eqb_neq ch 13)) by done.
        rewrite (proj2 (Z.eqb_neq ch 8232)), (proj2 (Z.eqb_neq ch 8233)) by lia. by rewrite !orb_false_r. }
      rewrite Hbr. destruct (ch =? 10); by rewrite (IH _ cs2 _ Hs') by lia.
  - assert (128 <= ch) as Hch by (destruct (decide (ch < 128)) as [Hlt'|]; [rewrite (Hb1 Hlt') in Eb; lia|lia]).
    rewrite (split_at_slice _ _ _ Hs). cbn [mbind option_bind].
    assert (is_scalar ch = true) as Hsc.
    { destruct Hs as [Hf' _]. apply Forall_app in Hf' as [_ Hf']. by apply Forall_cons in Hf' as [? _]. }
    cbn [utf8 flat_map]. rewrite next_char_encode by done. cbn [breaks].
    rewrite (proj2 (Z.eqb_neq ch 13)) by lia. rewrite <- Hp.
    replace (Z.to_nat (position cs1) + len_utf8 ch)%nat with (Z.to_nat (position (cs1 ++ [ch]))) by lia.
    destruct (is_line_break ch); by rewrite (IH _ cs2 _ Hs') by lia.
Qed.

Lemma line_starts_seq_ok cs : scalars cs -> compute_ecma_line_starts_seq (utf8 cs) = Some (start_list cs).
Proof.
  intros Hs. unfold compute_ecma_line_starts_seq. apply (line_starts_loop_ok (utf8 cs) [] cs); [by split|].
  pose proof (utf8_length_le cs). lia.
Qed.

(** ** Arithmetic within [i32] *)
Lemma i32_ok `{OverflowChecks} z : in_i32 z = true -> i32 z = Some z.
Proof. unfold i32. by intros ->. Qed.

Lemma in_i32_spec z : in_i32 z = true <-> - 2 ^ 31 <= z < 2 ^ 31.
Proof. unfold in_i32. rewrite andb_true_iff, Z.leb_le, Z.ltb_lt. done. Qed.

Ltac fits := apply in_i32_spec; lia.

Lemma count_lines_ok `{OverflowChecks} starts count start :
  0 <= count -> count + Z.of_nat (length starts) < 2 ^ 31 ->
  count_lines count start starts = Some (count + Z.of_nat (length starts), List.last starts start).
Proof.
  revert count start. induction starts as [|p starts IH]; intros count start H0 Hlt; cbn [count_lines length].
  - by rewrite Z.add_0_r.
  - cbn [length] in Hlt. rewrite i32_ok by fits. cbn [mbind option_bind]. rewrite IH by lia. f_equal. f_equal; [lia|].
    clear. assert (forall l (d d' : nat), l <> [] -> List.last l d = List.last l d') as Hd.
    { induction l as [|x [|y l] IH]; intros d d' Hne; [done|done|]. by apply IH. }
    destruct starts as [|q l]; [done|]. by apply (Hd (q :: l)).
Qed.

Lemma add_utf16_ok `{OverflowChecks} cs n : 0 <= n -> n + sum_utf16 cs < 2 ^ 31 -> add_utf16 n cs = Some (n + sum_utf16 cs).
Proof.
  revert n. induction cs as [|ch cs IH]; intros n H0 Hlt; cbn [add_utf16 sum_utf16] in *; [by rewrite Z.add_0_r|].
  pose proof (len_utf16_pos ch). pose proof (sum_utf16_nonneg cs). rewrite i32_ok by fits. cbn [mbind option_bind].
  rewrite IH by lia. f_equal. lia.
Qed.

Lemma sum_utf16_le cs : sum_utf16 cs <= Z.of_nat (length (utf8 cs)).
Proof.
  induction cs as [|ch cs IH]; [done|]. cbn [sum_utf16]. rewrite length_utf8_cons. unfold len_utf16, len_utf8.
  repeat case_if; bool_to_prop; lia.
Qed.

Lemma utf16_len_ok `{OverflowChecks} cs :
  scalars cs -> Z.of_nat (length (utf8 cs)) < 2 ^ 31 -> utf16_len (utf8 cs) = Some (sum_utf16 cs).
Proof.
  intros Hs Hl. unfold utf16_len. pose proof (ascii_prefix cs Hs) as Ha. pose proof (sum_utf16_le cs).
  destruct (find_index _ _) as [i|]; [|by rewrite Ha, as_i32_id by lia].
  destruct Ha as (a & b & -> & <- & Hsum). rewrite utf8_app, length_app in *. apply Forall_app in Hs as [Ha Hb].
  rewrite sum_utf16_app in *. rewrite slice_from_at.
  - rewrite drop_app_length. cbn [mbind option_bind]. rewrite chars_utf8, as_i32_id by (done || lia).
    rewrite add_utf16_ok, Hsum by lia. done.
  - split; [by apply is_char_boundary_app|rewrite length_app; lia].
Qed.

(** ** Where the last line starts *)

(** A text has no break, or a part of it ends with the first one. *)
Lemma first_break p cs :
  breaks p cs = []
  \/ exists a b, cs = a ++ b /\ (length b < length cs)%nat /\ breaks p cs = (p + position a) :: breaks (p + position a) b.
Proof.
  revert p. induction cs as [|ch cs IH]; intros p; [by left|]. cbn [breaks].
  assert (position [ch] = Z.of_nat (len_utf8 ch)) as Hp by (unfold position; cbn; by rewrite app_nil_r, length_utf8_encode).
  assert (forall c l, position (c :: l) = Z.of_nat (len_utf8 c) + position l) as Hc.
  { intros c l. unfold position. rewrite length_utf8_cons. lia. }
  destruct (Z.eqb_spec ch 13) as [->|].
  - right. destruct cs as [|c cs]; [exists [13], []; by split_and!; [|cbn; lia|]|]. destruct (Z.eqb_spec c 10) as [->|].
    + exists [13; 10], cs. split_and!; [done|cbn; lia|]. rewrite Hc, Z.add_assoc. done.
    + exists [13], (c :: cs). by split_and!; [|cbn; lia|rewrite Hp].
  - destruct (is_line_break ch); [right; exists [ch], cs; by split_and!; [|cbn; lia|rewrite Hp]|].
    destruct (IH (p + Z.of_nat (len_utf8 ch))) as [?|(a & b & -> & Hl & Hb)]; [by left|right].
    exists (ch :: a), b. split_and!; [done|cbn; lia|]. by rewrite Hc, Z.add_assoc.
Qed.

Lemma breaks_shift pos cs : breaks pos cs = map (Z.add pos) (breaks 0 cs).
Proof.
  assert (forall p q cs, breaks (p + q) cs = map (Z.add p) (breaks q cs)) as Hg.
  { intros p q l. remember (length l) as n eqn:Hn. revert q l Hn. induction n as [n IH] using lt_wf_ind; intros q l ->.
    destruct l as [|ch l]; [done|]. cbn [breaks]. rewrite <- !Z.add_assoc.
    destruct (ch =? 13); [destruct l as [|c l]; [done|]; destruct (c =? 10)|destruct (is_line_break ch)];
      cbn [map]; rewrite <- ?Z.add_assoc; f_equal; (eapply IH; [|done]; cbn; lia). }
  rewrite <- Hg. by rewrite Z.add_0_r.
Qed.

Lemma breaks_nonneg cs : Forall (fun p => 0 <= p) (breaks 0 cs).
Proof.
  apply Forall_forall. intros p Hp. destruct (breaks_prefix (length cs) [] cs p ltac:(lia) Hp) as (x & y & _ & ->).
  unfold position. lia.
Qed.

Definition last_start (cs : list char) : nat := List.last (start_list cs) 0%nat.

Lemma start_list_app a b :
  last a <> Some 13 ->
  start_list (a ++ b) = start_list a ++ map (fun p => (length (utf8 a) + p)%nat) (tail (start_list b)).
Proof.
  intros Hl. unfold start_list. rewrite breaks_app, map_app, Z.add_0_l by done. cbn [app tail]. f_equal. f_equal.
  rewrite breaks_shift, !map_map. apply map_ext_in. intros p Hp. pose proof (breaks_nonneg b) as Hn.
  rewrite Forall_forall in Hn. specialize (Hn p). rewrite list_elem_of_In in Hn. unfold position. specialize (Hn Hp). lia.
Qed.

Lemma last_app_ne {A} (l1 l2 : list A) d : l2 <> [] -> List.last (l1 ++ l2) d = List.last l2 d.
Proof.
  intros H. induction l1 as [|x l1 IH]; [done|]. cbn [app List.last]. destruct (l1 ++ l2) eqn:E; [|done].
  by apply app_nil in E as [_ ->].
Qed.

Lemma last_map {A B} (f : A -> B) l d d' : l <> [] -> List.last (map f l) d' = f (List.last l d).
Proof. induction l as [|x [|y l] IH]; intros H; [done|done|]. by apply IH. Qed.

Lemma last_cons_ne {A} (x : A) l d : l <> [] -> List.last (x :: l) d = List.last l d.
Proof. by destruct l. Qed.

(** How an appended text changes the count of lines and the start of the last one. *)
Lemma last_start_app a b :
  last a <> Some 13 ->
  (length (start_list (a ++ b)) = length (start_list a) + (length (start_list b) - 1))%nat
  /\ last_start (a ++ b) = if (1 <? length (start_list b))%nat then (length (utf8 a) + last_start b)%nat else last_start a.
Proof.
  intros Hl. unfold last_start. rewrite start_list_app by done. split.
  - rewrite length_app, length_map. unfold start_list. cbn [length tail]. lia.
  - unfold start_list at 2 3 4. cbn [tail length]. destruct (map Z.to_nat (breaks 0 b)) as [|p ps] eqn:E; [cbn; by rewrite app_nil_r|].
    cbn [length Nat.ltb Nat.leb]. rewrite last_app_ne by done. rewrite last_cons_ne by done.
    by apply (last_map (fun p => (length (utf8 a) + p)%nat)).
Qed.

(** The last line has no break. *)
Lemma last_line_split cs :
  exists cs1 cs2, cs = cs1 ++ cs2 /\ length (utf8 cs1) = last_start cs /\ breaks 0 cs2 = [].
Proof.
  remember (length cs) as n eqn:Hn. revert cs Hn. induction n as [n IH] using lt_wf_ind; intros cs ->.
  destruct (first_break 0 cs) as [Hb|(a & b & -> & Hl & Hb)].
  - exists [], cs. unfold last_start, start_list. by rewrite Hb.
  - destruct (IH _ Hl b eq_refl) as (b1 & b2 & E & Hs & Hb2). exists (a ++ b1), b2. subst b. split_and!; [by rewrite app_assoc| |done].
    rewrite utf8_app, length_app, Hs. unfold last_start, start_list. rewrite Hb, Z.add_0_l, (breaks_shift (position a)).
    cbn [map]. rewrite map_map. rewrite (last_cons_ne 0%nat (Z.to_nat (position a) :: _)) by done.
    assert (forall l x, Forall (fun p => 0 <= p) l ->
      List.last (Z.to_nat x :: map (fun p => Z.to_nat (x + p)) l) 0%nat = (Z.to_nat x + List.last (0%nat :: map Z.to_nat l) 0)%nat \/ x < 0) as Hg.
    { intros l x Hf. destruct (decide (x < 0)); [by right|left]. destruct l as [|y l]; [cbn; lia|].
      rewrite !last_cons_ne by done. rewrite <- (last_map (fun p => (Z.to_nat x + p)%nat)) with (d' := 0%nat) by done.
      f_equal. rewrite map_map. apply map_ext_in. intros p Hp. rewrite Forall_forall in Hf. specialize (Hf p).
      rewrite list_elem_of_In in Hf. specialize (Hf Hp). lia. }
    destruct (Hg (breaks 0 (b1 ++ b2)) (position a) (breaks_nonneg _)) as [->|]; unfold position in *; lia.
Qed.

Lemma spaces_no_breaks n pos : breaks pos (replicate n 32) = [].
Proof. revert pos. induction n as [|n IH]; intros pos; [done|]. cbn [replicate breaks]. change (is_line_break 32) with false. apply IH. Qed.

Lemma spaces_utf8 n : utf8 (replicate n 32) = replicate n 32.
Proof. induction n as [|n IH]; [done|]. cbn [replicate utf8 flat_map]. unfold utf8 in IH. by rewrite IH. Qed.

(** ** The invariant *)
Record Lines (w : TextWriter.t) (cs : list char) : Prop := {
  ln_builder : TextWriter.builder w = utf8 cs;
  ln_scalars : scalars cs;
  ln_last : last cs <> Some 13;
  ln_count : TextWriter.line_count w + 1 = Z.of_nat (length (start_list cs));
  ln_pos : TextWriter.line_pos w = last_start cs;
  ln_start : TextWriter.line_start w = true -> TextWriter.line_pos w = length (TextWriter.builder w);
  ln_new_line : TextWriter.new_line w = [10] \/ TextWriter.new_line w = [13; 10];
  ln_indent_size : 0 <= TextWriter.indent_size w;
}.

(** What operations on the text keep. *)
Definition same_settings (w w' : TextWriter.t) : Prop :=
  TextWriter.new_line w' = TextWriter.new_line w /\ TextWriter.indent_size w' = TextWriter.indent_size w
  /\ TextWriter.indent w' = TextWriter.indent w.

Section writer.
Import TextWriter.
Context `{OverflowChecks}.

Notation breaks_of s := (Z.of_nat (length (breaks 0 s))).

Lemma wp_append cs s w (Q : unit -> t -> Prop) :
  Lines w cs -> scalars s -> last s <> Some 13 -> line_count w + breaks_of s < 2 ^ 31 - 1 ->
  (forall w', Lines w' (cs ++ s) -> same_settings w w' -> line_count w' = line_count w + breaks_of s -> Q tt w') ->
  wp (push_str (utf8 s) ;; set_last (utf8 s) ;; update_line_count_and_pos_for (utf8 s)) Q w.
Proof.
  intros [] Hs Hl Hlt HQ. do 2 (apply wp_bind, wp_modify). unfold update_line_count_and_pos_for.
  apply wp_bind, wp_unwrap. eexists. split; [by apply line_starts_seq_ok|].
  assert (length (start_list s) = S (length (breaks 0 s))) as Hb by (unfold start_list; cbn; by rewrite length_map).
  assert (1 <= Z.of_nat (length (start_list cs))) as Hc1 by (unfold start_list; cbn [length]; lia).
  apply wp_bind, wp_unwrap. eexists. split; [apply count_lines_ok; lia|]. apply wp_bind, wp_get. rewrite Z.add_0_l.
  destruct (last_start_app cs s ln_last0) as [H1 H2]. fold (last_start s).
  assert (last (cs ++ s) <> Some 13) as Hl'.
  { rewrite last_app. by destruct (last s). }
  assert (scalars (cs ++ s)) as Hs' by (by apply Forall_app).
  destruct (Z.ltb_spec 1 (Z.of_nat (length (start_list s)))) as [Hc|Hc].
  1: apply wp_bind, wp_unwrap; eexists; split; [apply i32_ok; cbn [line_count put_last put_builder]; fits|].
  all: apply wp_modify, HQ; try done; cbn [line_count put_line put_last put_builder]; try lia;
    split; cbn [builder put_line put_last put_builder line_count line_pos line_start new_line indent_size]; try done.
  - by rewrite ln_builder0, utf8_app.
  - lia.
  - rewrite H2, (proj2 (Nat.ltb_lt _ _)), length_app, ln_builder0 by lia. lia.
  - by intros ?%Nat.eqb_eq.
  - by rewrite ln_builder0, utf8_app.
  - lia.
  - by rewrite H2, (proj2 (Nat.ltb_ge _ _)) by lia.
Qed.

Lemma wp_indentation cs w (Q : unit -> t -> Prop) :
  Lines w cs -> 0 <= indent w -> in_i32 (indent w * indent_size w) = true ->
  (forall w' n, Lines w' (cs ++ replicate n 32) -> same_settings w w' -> line_count w' = line_count w -> Q tt w') ->
  wp (if line_start w then
        indentation ← unwrap (get_indent_string (indent w) (indent_size w));
        push_str indentation ;; modify (put_line (line_count w) (line_pos w) false)
      else mret tt) Q w.
Proof.
  intros HL Hi Hfit HQ. destruct (line_start w) eqn:E.
  2: { apply wp_ret, (HQ w 0%nat); [by rewrite app_nil_r|done|done]. }
  destruct HL. apply wp_bind, wp_unwrap. exists (replicate (Z.to_nat (indent w * indent_size w)) 32). split.
  { unfold get_indent_string. destruct (Z.eqb_spec (indent w) 0) as [->|]; [done|].
    rewrite i32_ok by done. cbn [mbind option_bind]. by rewrite (proj2 (Z.ltb_ge _ _)) by nia. }
  set (n := Z.to_nat _). apply wp_bind, wp_modify, wp_modify, (HQ _ n); [|done|done].
  destruct (last_start_app cs (replicate n 32) ln_last0) as [H1 H2].
  assert (start_list (replicate n 32) = [0%nat]) as Hn by (unfold start_list; by rewrite spaces_no_breaks). rewrite Hn in H1, H2.
  split; cbn [builder put_line put_builder line_count line_pos line_start new_line indent_size]; try done.
  - by rewrite ln_builder0, utf8_app, spaces_utf8.
  - apply Forall_app. split; [done|]. by apply Forall_replicate.
  - rewrite last_app. destruct (last (replicate n 32)) as [c|] eqn:Ec; [|done].
    apply last_Some_elem_of, elem_of_replicate in Ec as [-> _]. done.
  - rewrite H1, ln_count0. cbn [length]. lia.
  - by rewrite H2.
Qed.
End writer.

(** ** Sequences of operations *)
Inductive WriterOp :=
  | Write (s : list char) | WriteComment (s : list char) | RawWrite (s : list char)
  | WriteLine | WriteLineForce (force : bool) | IncreaseIndent | DecreaseIndent | Clear.

Definition run_op {W} `{EmitTextWriter W} (op : WriterOp) : M W unit :=
  match op with
  | Write s => write (utf8 s)
  | WriteComment s => write_comment (utf8 s)
  | RawWrite s => raw_write (utf8 s)
  | WriteLine => write_line
  | WriteLineForce force => write_line_force force
  | IncreaseIndent => increase_indent
  | DecreaseIndent => decrease_indent
  | Clear => clear
  end.

Fixpoint run_ops {W} `{EmitTextWriter W} (ops : list WriterOp) : M W unit :=
  match ops with
  | [] => mret tt
  | op :: ops => run_op op ;; run_ops ops
  end.

(** What is written ends with no carriage return, whose line feed might come with the next write. *)
Definition writable (s : list char) : Prop := scalars s /\ last s <> Some 13.

(** The line breaks of a text. *)
Abbreviation line_breaks s := (Z.of_nat (length (breaks 0 s))).

(** The indentation is not negative where text is written and its width stays in [i32]; there are fewer than 2^31 - 1 line
    breaks since the last [clear]. [size] is the width of one level; the counts so far are [lines], where each line end
    that the writer may leave out counts, and [depth]. *)
Fixpoint balanced (size lines depth : Z) (ops : list WriterOp) : Prop :=
  match ops with
  | [] => True
  | Write s :: ops | WriteComment s :: ops =>
      writable s /\ 0 <= depth /\ lines + line_breaks s < 2 ^ 31 - 1 /\ balanced size (lines + line_breaks s) depth ops
  | RawWrite s :: ops =>
      writable s /\ lines + line_breaks s < 2 ^ 31 - 1 /\ balanced size (lines + line_breaks s) depth ops
  | WriteLine :: ops | WriteLineForce _ :: ops => lines + 1 < 2 ^ 31 - 1 /\ balanced size (lines + 1) depth ops
  | IncreaseIndent :: ops => (depth + 1) * size < 2 ^ 31 /\ balanced size lines (depth + 1) ops
  | DecreaseIndent :: ops => - 2 ^ 31 <= (depth - 1) * size /\ balanced size lines (depth - 1) ops
  | Clear :: ops => balanced size 0 0 ops
  end.

Section operations.
Import TextWriter.
Context `{OverflowChecks}.

(** What holds between operations, with at most [lines] lines so far. *)
Record Wrote (nl : bytes) (size lines : Z) (w : t) : Prop := {
  wr_lines : exists cs, Lines w cs;
  wr_new_line : new_line w = nl;
  wr_indent_size : indent_size w = size;
  wr_size : 0 < size;
  wr_bound : line_count w <= lines;
  wr_indent : - 2 ^ 31 <= indent w * size < 2 ^ 31;
}.

Lemma Lines_put_comment b w cs : Lines w cs -> Lines (put_comment b w) cs.
Proof. by intros []. Qed.
Lemma Lines_put_indent n w cs : Lines w cs -> Lines (put_indent n w) cs.
Proof. by intros []. Qed.

Lemma wp_write_text cs s w (Q : unit -> t -> Prop) :
  Lines w cs -> writable s -> 0 <= indent w -> in_i32 (indent w * indent_size w) = true ->
  line_count w + line_breaks s < 2 ^ 31 - 1 ->
  (forall w' cs', Lines w' cs' -> same_settings w w' -> line_count w' = line_count w + line_breaks s -> Q tt w') ->
  wp (write_text (utf8 s)) Q w.
Proof.
  intros HL [Hs Hl] Hi Hfit Hlt HQ. unfold write_text. destruct (utf8 s) eqn:E.
  { apply wp_ret, (HQ w cs); [done|done|]. destruct s as [|ch s]; [cbn; lia|]. apply (f_equal length) in E.
    rewrite length_utf8_cons in E. pose proof (len_utf8_pos ch). cbn in E. lia. }
  rewrite <- E. apply wp_bind, wp_get. apply wp_bind. eapply (wp_indentation cs); [done..|]. intros w1 n HL1 (S1 & S2 & S3) Hc1.
  eapply wp_append; [done..|by rewrite Hc1|]. intros w2 HL2 (T1 & T2 & T3) Hc2.
  apply (HQ w2 _ HL2); [split_and!; congruence|lia].
Qed.

Lemma wp_write_line_raw cs w (Q : unit -> t -> Prop) :
  Lines w cs -> line_count w + 1 < 2 ^ 31 - 1 ->
  (forall w' cs', Lines w' cs' -> same_settings w w' -> line_count w' = line_count w + 1 -> Q tt w') -> wp write_line_raw Q w.
Proof.
  intros [] Hlt HQ. unfold write_line_raw. apply wp_bind, wp_gets. do 2 (apply wp_bind, wp_modify). apply wp_bind, wp_get.
  assert (1 <= Z.of_nat (length (start_list cs))) as Hc1 by (unfold start_list; cbn [length]; lia).
  apply wp_bind, wp_unwrap. eexists. split; [apply i32_ok; cbn [line_count put_last put_builder]; fits|]. apply wp_modify.
  assert (scalars (new_line w) /\ utf8 (new_line w) = new_line w /\ last (new_line w) = Some 10
    /\ start_list (new_line w) = [0; length (new_line w)]%nat) as (N1 & N2 & N3 & N4).
  { destruct ln_new_line0 as [-> | ->]; repeat split; repeat constructor. }
  apply (HQ _ (cs ++ new_line w)); [|done|done].
  destruct (last_start_app cs (new_line w) ln_last0) as [H1 H2]. rewrite N4 in H1, H2.
  split; cbn [builder put_line put_last put_builder put_comment line_count line_pos line_start new_line indent_size]; try done.
  - by rewrite ln_builder0, utf8_app, N2.
  - by apply Forall_app.
  - by rewrite last_app, N3.
  - rewrite H1, Nat2Z.inj_add, <- ln_count0. cbn [length]. lia.
  - rewrite H2, ln_builder0, length_app. unfold last_start. by rewrite N4.
Qed.

Lemma in_i32_factor a size : 0 < size -> - 2 ^ 31 <= a * size < 2 ^ 31 -> - 2 ^ 31 <= a < 2 ^ 31.
Proof.
  intros Hs Ha. split.
  - destruct (decide (- 2 ^ 31 <= a)); [done|]. assert (a * size <= a * 1) by (apply Z.mul_le_mono_nonpos_l; lia). lia.
  - destruct (decide (a < 2 ^ 31)); [done|]. assert (a * 1 <= a * size) by (apply Z.mul_le_mono_nonneg_l; lia). lia.
Qed.

(** Every operation keeps the invariant. *)
Lemma wp_run_op nl size lines op w (Q : unit -> t -> Prop) ops :
  Wrote nl size lines w -> balanced size lines (indent w) (op :: ops) ->
  (forall w' lines', Wrote nl size lines' w' -> balanced size lines' (indent w') ops -> Q tt w') -> wp (run_op op) Q w.
Proof.
  intros HW Hb HQ. pose proof HW as [[cs HL] Hnl Hsz Hpos Hbound Hind].
  assert (forall w' lines' cs', Lines w' cs' -> same_settings w w' -> line_count w' <= lines' ->
    balanced size lines' (indent w) ops -> Q tt w') as Hw.
  { intros w' lines' cs' HL' (S1 & S2 & S3) Hc Hops. apply (HQ w' lines'); [|by rewrite S3].
    split; [by exists cs'|congruence..|done|done|by rewrite S3]. }
  assert (forall b s, writable s -> 0 <= indent w -> lines + line_breaks s < 2 ^ 31 - 1 ->
    balanced size (lines + line_breaks s) (indent w) ops ->
    wp (when (negb (bool_decide (utf8 s = []))) (modify (put_comment b)) ;; write_text (utf8 s)) Q w) as Hwrite.
  { intros b s Hs Hi Hlt Hops. assert (in_i32 (indent w * indent_size w) = true) as Hfit by (rewrite Hsz; by apply in_i32_spec).
    assert (line_count w + line_breaks s < 2 ^ 31 - 1) as Hlt' by lia.
    apply wp_bind, wp_when; [intros _; apply wp_modify|intros _].
    1: eapply (wp_write_text cs); [by apply Lines_put_comment|done..|]. 2: eapply (wp_write_text cs); [done..|].
    all: intros w' cs' HL' Hse Hc; eapply (Hw w' (lines + line_breaks s)); [exact HL'|exact Hse| |exact Hops];
      cbn [line_count put_comment] in Hc; lia. }
  assert (lines + 1 < 2 ^ 31 - 1 -> balanced size (lines + 1) (indent w) ops -> wp write_line_raw Q w) as Hline.
  { intros Hlt Hops. eapply wp_write_line_raw; [done|lia|]. intros w' cs' HL' Hse Hc.
    eapply (Hw w' (lines + 1)); [exact HL'|exact Hse|lia|exact Hops]. }
  destruct op as [s|s|s| |force| | |]; cbn [balanced] in Hb; cbn [run_op].
  - destruct Hb as (H1 & H2 & H3 & H4). by apply (Hwrite false).
  - destruct Hb as (H1 & H2 & H3 & H4). by apply (Hwrite true).
  - destruct Hb as ([Hs Hl] & Hlt & Hb). cbn [raw_write emit]. destruct s as [|ch s].
    + apply wp_bind, wp_ret. pose proof HL as []. apply wp_bind, wp_unwrap. exists [0%nat]. split; [done|].
      apply wp_bind, wp_unwrap. exists (1, 0%nat). split; [done|]. apply wp_bind, wp_get, wp_modify.
      eapply (Hw _ (lines + line_breaks []) cs); [by split|done| |exact Hb]. cbn. lia.
    + rewrite bool_decide_eq_false_2; [|by intros [E _]%app_nil; apply (f_equal length) in E;
        rewrite length_utf8_encode in E; pose proof (len_utf8_pos ch); cbn in E; lia].
      assert (wp (push_str (utf8 (ch :: s)) ;; set_last (utf8 (ch :: s)) ;;
        update_line_count_and_pos_for (utf8 (ch :: s))) Q (put_comment false w)) as Hraw.
      { eapply wp_append; [by apply Lines_put_comment|done|done|cbn [line_count put_comment]; lia|]. intros w' HL' Hse Hc.
        eapply (Hw w' (lines + line_breaks (ch :: s))); [exact HL'|exact Hse| |exact Hb]. cbn [line_count put_comment] in Hc. lia. }
      do 2 apply wp_bind. apply wp_modify, wp_bind, wp_modify, wp_modify. exact Hraw.
  - destruct Hb as [Hlt Hb]. apply wp_bind, wp_get, wp_when; [by intros _; apply Hline|intros _].
    eapply (Hw w (lines + 1) cs); [done|done| |exact Hb]. lia.
  - destruct Hb as [Hlt Hb]. apply wp_bind, wp_get, wp_when; [by intros _; apply Hline|intros _].
    eapply (Hw w (lines + 1) cs); [done|done| |exact Hb]. lia.
  - destruct Hb as [Hlt Hb]. apply wp_bind, wp_get, wp_bind, wp_unwrap. eexists. split; [apply i32_ok; apply in_i32_spec, (in_i32_factor _ size); [done|lia]|].
    apply wp_modify, (HQ _ lines); [|done]. split; cbn; [exists cs; by apply Lines_put_indent|done|done|done|lia|lia].
  - destruct Hb as [Hlt Hb]. apply wp_bind, wp_get, wp_bind, wp_unwrap. eexists. split; [apply i32_ok; apply in_i32_spec, (in_i32_factor _ size); [done|lia]|].
    apply wp_modify, (HQ _ lines); [|done]. split; cbn; [exists cs; by apply Lines_put_indent|done|done|done|lia|lia].
  - apply wp_modify, (HQ _ 0); [|done]. split; try done. exists []. by destruct HL.
Qed.

Lemma wp_run_ops nl size lines ops w :
  Wrote nl size lines w -> balanced size lines (indent w) ops ->
  wp (run_ops ops) (fun _ w' => exists lines', Wrote nl size lines' w') w.
Proof.
  revert w lines. induction ops as [|op ops IH]; intros w lines HW Hb; cbn [run_ops]; [apply wp_ret; by exists lines|].
  apply wp_bind. eapply wp_run_op; [done|done|]. intros w' lines' HW' Hb'. by eapply IH.
Qed.
End operations.

(** C35. Whatever is written between line breaks that are not torn apart, with an indentation that is never negative where
    text is written and whose width stays in [i32], and with fewer than 2^31 - 1 line breaks: the writer does not panic, with
    or without overflow checks, its line is the number of line breaks of its text, and its column the number of UTF-16 units
    after the last one, or the indentation to come at the start of a line. *)
Theorem text_writer_positions (build : OverflowChecks) (nl : bytes) (size : Z) (ops : list WriterOp) :
  nl = [10] \/ nl = [13; 10] -> 0 < size -> balanced size 0 0 ops ->
  exists w cs,
    run_ops ops (TextWriter.new_text_writer nl size) = Ok (tt, w)
    /\ string w = utf8 cs /\ get_line w = Z.of_nat (length (breaks 0 cs))
    /\ (Z.of_nat (length (utf8 cs)) < 2 ^ 31 ->
        exists line_text last_line, cs = line_text ++ last_line /\ breaks 0 last_line = []
          /\ length (utf8 line_text) = last_start cs
          /\ get_column w = Ok (if is_at_start_of_line w then get_indent w * size else sum_utf16 last_line, w)).
Proof.
  intros Hnl Hsize Hb. set (w0 := TextWriter.new_text_writer nl size).
  assert (TextWriter.indent_size w0 = size) as Hw0.
  { unfold w0, TextWriter.new_text_writer. by rewrite (proj2 (Z.leb_gt size 0)). }
  assert (Wrote nl size 0 w0) as H0.
  { split; try done. exists []. split; try done. by rewrite Hw0; lia. }
  pose proof (wp_run_ops nl size 0 ops w0 H0 Hb) as Hwp. apply wp_run in Hwp as ([] & w & E & lines & [[cs HL] _ Hs _ _ Hfit]).
  exists w, cs. split; [done|]. destruct HL. split; [done|]. split.
  { unfold start_list in ln_count0. cbn [length] in ln_count0. rewrite length_map in ln_count0. cbn [get_line TextWriter.emit]. lia. }
  intros Hlt. destruct (last_line_split cs) as (cs1 & cs2 & -> & Hl & Hbr). exists cs1, cs2. do 3 (split; [done|]).
  cbn [get_column TextWriter.emit get_indent is_at_start_of_line]. rewrite (run_bind get _ w w w) by done.
  destruct (TextWriter.line_start w); [by rewrite Hs, i32_ok by by apply in_i32_spec|].
  apply Forall_app in ln_scalars0 as [Hs1 Hs2]. rewrite utf8_app, length_app in Hlt.
  rewrite ln_pos0, <- Hl, ln_builder0, slice_from_at.
  - rewrite utf8_app, drop_app_length. cbn [mbind option_bind]. rewrite utf16_len_ok by (done || lia). done.
  - rewrite utf8_app. split; [by apply is_char_boundary_app|rewrite length_app; lia].
Qed.

(** Writing nothing raw at the start of a line takes the writer for in the line: the next text is not indented. *)
Example raw_write_nothing (build : OverflowChecks) :
  let ops := [IncreaseIndent; Write [97]; WriteLine; RawWrite []; Write [98]] in
  match run_ops ops (TextWriter.new_text_writer [10] 4) with
  | Ok (_, w) => string w = bstr "    a" ++ [10] ++ bstr "b"
  | _ => False
  end.
Proof. reflexivity. Qed.

(** A negative indentation panics at the next text. *)
Example negative_indentation (build : OverflowChecks) :
  run_ops [DecreaseIndent; Write [97]] (TextWriter.new_text_writer [10] 4) = Panic.
Proof. reflexivity. Qed.

(** So does one whose width is not an [i32]: the product overflows, or wraps around to a negative number. *)
Example wide_indentation (build : OverflowChecks) :
  run_ops [IncreaseIndent; IncreaseIndent; Write [97]] (TextWriter.new_text_writer [10] (2 ^ 31 - 1)) = Panic.
Proof. destruct build; reflexivity. Qed.

Lemma text_writer_positions_witness :
  exists w cs, run_ops (H := TextWriter.emit (H := true))
      [IncreaseIndent; Write [97; 10; 8232; 128512]; WriteLine; WriteComment [98]; DecreaseIndent]
      (TextWriter.new_text_writer [13; 10] 2) = Ok (tt, w)
    /\ string (EmitTextWriter := TextWriter.emit (H := true)) w = utf8 cs
    /\ get_line (EmitTextWriter := TextWriter.emit (H := true)) w = Z.of_nat (length (breaks 0 cs)).
Proof.
  destruct (text_writer_positions true [13; 10] 2
      [IncreaseIndent; Write [97; 10; 8232; 128512]; WriteLine; WriteComment [98]; DecreaseIndent])
    as (w & cs & H1 & H2 & H3 & _).
  - right. reflexivity.
  - lia.
  - unfold balanced, writable. split_and!; first [discriminate | lia | reflexivity | solve [repeat constructor]].
  - exists w, cs. split; [exact H1|]. split; [exact H2|exact H3].
Defined.
