(* ===== verification/Strs.v ===== *)
(** * Strs: the standard library on strings as lists of characters

    Where a component works on whole characters, a [str] is the list of its scalar values; the byte
    lists of Text.v are its UTF-8 encoding. Lengths are taken only of ASCII strings, where both agree,
    and the order of UTF-8 bytes is the order of the scalar values. *)
From S2P Require Import Prelude Text Chars Trivia Numerals.

Abbreviation str := (list Z) (only parsing).

(** [char::is_whitespace] *)
Definition is_whitespace (ch : char) : bool :=
  ((9 <=? ch) && (ch <=? 13)) || (ch =? 32) || is_whitespace_non_ascii ch.

Fixpoint trim_start_while (p : char -> bool) (s : str) : str :=
  match s with
  | c :: r => if p c then trim_start_while p r else s
  | [] => []
  end.
Definition trim_start (s : str) : str := trim_start_while is_whitespace s.
Definition trim_end (s : str) : str := reverse (trim_start (reverse s)).
Definition trim (s : str) : str := trim_end (trim_start s).

(** [s.split(p)]: always at least one part. *)
Fixpoint split_by (p : char -> bool) (s : str) : list str :=
  match s with
  | [] => [[]]
  | c :: r =>
      if p c then [] :: split_by p r
      else match split_by p r with
           | part :: parts => (c :: part) :: parts
           | [] => [[c]]
           end
  end.
Definition split (d : char) (s : str) : list str := split_by (Z.eqb d) s.

Definition split_whitespace (s : str) : list str :=
  filter (fun part => part <> []) (split_by is_whitespace s).

(** [s.split(needle)]; every round but the last removes the needle. *)
Fixpoint split_str_fuel (fuel : nat) (needle s : str) : list str :=
  match fuel with
  | O => [s]
  | S fuel =>
      match find_sub needle s with
      | Some i => take i s :: split_str_fuel fuel needle (drop (i + length needle) s)
      | None => [s]
      end
  end.
Definition split_str (needle s : str) : list str := split_str_fuel (length s) needle s.

(** [s.split_once(d)] *)
Fixpoint split_once_char (d : char) (s : str) : option (str * str) :=
  match s with
  | [] => None
  | c :: r =>
      if c =? d then Some ([], r)
      else '(before, after) ← split_once_char d r; Some (c :: before, after)
  end.

Definition strip_prefix (p s : str) : option str :=
  if starts_with p s then Some (drop (length p) s) else None.

(** [parts.join(sep)] *)
Fixpoint join (sep : str) (parts : list str) : str :=
  match parts with
  | [] => []
  | [part] => part
  | part :: parts => part ++ sep ++ join sep parts
  end.

(** [a.cmp(b)] *)
Fixpoint str_compare (a b : str) : comparison :=
  match a, b with
  | [], [] => Eq
  | [], _ => Lt
  | _, [] => Gt
  | x :: a, y :: b => match x ?= y with Eq => str_compare a b | c => c end
  end.

(** [text.parse::<u32>().ok()]: an optional plus sign and digits. *)
Definition parse_u32 (s : str) : option Z :=
  match s with
  | 43 :: (_ :: _) as r => from_str_radix 10 U32_MAX (tail s)
  | _ => from_str_radix 10 U32_MAX s
  end.

(** [format!("{}", n)] *)
Definition to_decimal (n : Z) : str := format_radix 10 n.

(** ** Lemmas *)
Lemma str_compare_refl a : str_compare a a = Eq.
Proof. induction a as [|x a IH]; cbn; [done|]. by rewrite Z.compare_refl. Qed.

Lemma str_compare_eq a b : str_compare a b = Eq <-> a = b.
Proof.
  split; [|intros ->; apply str_compare_refl].
  revert b. induction a as [|x a IH]; intros [|y b]; cbn; try done.
  destruct (Z.compare_spec x y) as [->| |]; try done. by intros ->%IH.
Qed.

Lemma str_compare_antisym a b : str_compare b a = CompOpp (str_compare a b).
Proof.
  revert b. induction a as [|x a IH]; intros [|y b]; cbn; try done.
  rewrite (Z.compare_antisym x y). destruct (x ?= y); cbn; [apply IH|done|done].
Qed.

Lemma str_compare_trans a b c :
  str_compare a b = Lt -> str_compare b c = Lt -> str_compare a c = Lt.
Proof.
  revert b c. induction a as [|x a IH]; intros [|y b] [|z c]; cbn; try done.
  destruct (Z.compare_spec x y), (Z.compare_spec y z); try done; intros;
    destruct (Z.compare_spec x z); try done; try lia; by eapply IH.
Qed.

Lemma split_by_cons p s : exists part parts, split_by p s = part :: parts.
Proof.
  destruct s as [|c s]; cbn; [by eexists _, _|]. destruct (p c); [by eexists _, _|].
  destruct (split_by p s); by eexists _, _.
Qed.

(** Splitting a part without delimiter, then the delimiter. *)
Lemma split_app d part s :
  d ∉ part -> split d (part ++ d :: s) = part :: split d s.
Proof.
  unfold split. induction part as [|c part IH]; intros Hd; cbn.
  - by rewrite Z.eqb_refl.
  - apply not_elem_of_cons in Hd as [Hc Hd]. rewrite (proj2 (Z.eqb_neq d c)) by done.
    by rewrite IH.
Qed.

Lemma split_none d part : d ∉ part -> split d part = [part].
Proof.
  unfold split. induction part as [|c part IH]; intros Hd; cbn; [done|].
  apply not_elem_of_cons in Hd as [Hc Hd]. rewrite (proj2 (Z.eqb_neq d c)) by done.
  by rewrite IH.
Qed.

(** [split] inverts [join]. *)
Lemma split_join d parts :
  parts <> [] -> Forall (fun part => d ∉ part) parts -> split d (join [d] parts) = parts.
Proof.
  induction parts as [|part parts IH]; intros Hne Hf; [done|].
  apply Forall_cons in Hf as [Hp Hf]. destruct parts as [|part' parts]; cbn [join].
  - by apply split_none.
  - cbn [app]. rewrite split_app by done. f_equal. by apply IH.
Qed.

(** [join] inverts [split]. *)
Lemma join_split d s : join [d] (split d s) = s.
Proof.
  unfold split. induction s as [|c s IH]; cbn [split_by]; [done|].
  destruct (split_by_cons (Z.eqb d) s) as (part & parts & E).
  destruct (Z.eqb_spec d c) as [<-|].
  - rewrite E in IH |- *. transitivity (d :: join [d] (part :: parts)); [done|by rewrite IH].
  - rewrite E in IH |- *. destruct parts; cbn [join app] in *; by rewrite <- IH.
Qed.

Lemma split_once_none d s : d ∉ s -> split_once_char d s = None.
Proof.
  induction s as [|c s IH]; intros Hd; [done|]. cbn. apply not_elem_of_cons in Hd as [Hc Hd].
  rewrite (proj2 (Z.eqb_neq c d)) by done. by rewrite IH.
Qed.

Lemma split_once_app d before after :
  d ∉ before -> split_once_char d (before ++ d :: after) = Some (before, after).
Proof.
  induction before as [|c before IH]; intros Hd; cbn.
  - by rewrite Z.eqb_refl.
  - apply not_elem_of_cons in Hd as [Hc Hd]. rewrite (proj2 (Z.eqb_neq c d)) by done. by rewrite IH.
Qed.

Lemma split_once_Some d s before after :
  split_once_char d s = Some (before, after) -> s = before ++ d :: after /\ d ∉ before.
Proof.
  revert before. induction s as [|c s IH]; intros before; cbn; [done|].
  destruct (Z.eqb_spec c d) as [->|Hc].
  - intros [= <- <-]. split; [done|]. apply not_elem_of_nil.
  - destruct (split_once_char d s) as [[b a]|]; cbn; [|done]. intros [= <- <-].
    destruct (IH b eq_refl) as [-> Hb]. split; [done|]. by apply not_elem_of_cons.
Qed.

Lemma split_once_None d s : split_once_char d s = None -> d ∉ s.
Proof.
  induction s as [|c s IH]; cbn; [intros _; apply not_elem_of_nil|].
  destruct (Z.eqb_spec c d) as [->|Hc]; [done|].
  destruct (split_once_char d s) as [[? ?]|]; [done|]. intros _. apply not_elem_of_cons. auto.
Qed.

(** A delimiter separates the parts on both sides. *)
Lemma split_app_parts d a b : split d (a ++ d :: b) = split d a ++ split d b.
Proof.
  unfold split. induction a as [|c a IH]; cbn [app split_by].
  - by rewrite Z.eqb_refl.
  - rewrite IH. destruct (d =? c); [done|]. destruct (split_by_cons (Z.eqb d) a) as (p & ps & ->). done.
Qed.

(** No part holds the delimiter. *)
Lemma split_parts d s : Forall (fun part => d ∉ part) (split d s).
Proof.
  unfold split. induction s as [|c s IH]; cbn [split_by].
  - constructor; [apply not_elem_of_nil|constructor].
  - destruct (Z.eqb_spec d c) as [|Hc].
    + constructor; [apply not_elem_of_nil|done].
    + destruct (split_by_cons (Z.eqb d) s) as (p & ps & E). rewrite E in IH |- *.
      apply Forall_cons in IH as [Hp Hps]. constructor; [|done]. by apply not_elem_of_cons.
Qed.

(** The first part is what comes before the first delimiter. *)
Lemma split_prefix d a s p ps :
  d ∉ a -> split d s = p :: ps -> split d (a ++ s) = (a ++ p) :: ps.
Proof.
  unfold split. intros Ha Hs. induction a as [|c a IH]; [done|]. apply not_elem_of_cons in Ha as [Hc Ha].
  cbn [app split_by]. rewrite (proj2 (Z.eqb_neq d c)) by done. by rewrite IH.
Qed.
