(* ===== verification/Number.v ===== *)
(** * Number: JavaScript numbers (ts-jsnum/src/lib.rs)

    A [Number] wraps an [f64], which is a [spec_float] of 53 bits here: the payload of a NaN is left out, since
    no function of the file can tell two NaNs apart. The arithmetic of Rust's [f64] is that of IEEE 754; what the
    standard library does with decimal text and [powf] is the class [FloatLib]. *)
From Stdlib Require Import Floats.SpecFloat.
From S2P Require Import Prelude Text Chars Numerals Strs.

(** ** Doubles *)
Abbreviation f64 := spec_float.

Definition prec : Z := 53.
Definition emax : Z := 1024.

Definition f64_add : f64 -> f64 -> f64 := SFadd prec emax.
Definition f64_sub : f64 -> f64 -> f64 := SFsub prec emax.
Definition f64_mul : f64 -> f64 -> f64 := SFmul prec emax.
Definition f64_div : f64 -> f64 -> f64 := SFdiv prec emax.

(** [z as f64] *)
Definition f64_of_Z (z : Z) : f64 := binary_normalize prec emax z 0 false.

Definition is_nan_f64 (x : f64) : bool := match x with S754_nan => true | _ => false end.
Definition signed (s : bool) (z : Z) : Z := if s then - z else z.

(** The integer part of a finite double, towards zero. *)
Definition integer_part (s : bool) (m : positive) (e : Z) : Z :=
  signed s (if 0 <=? e then Z.pos m * 2 ^ e else Z.pos m / 2 ^ (- e)).

(** [x.trunc()] *)
Definition f64_trunc (x : f64) : f64 :=
  match x with
  | S754_finite s m e => if 0 <=? e then x else binary_normalize prec emax (integer_part s m e) 0 s
  | _ => x
  end.

(** [x % y], which is exact: the remainder of the magnitudes with the sign of [x]. *)
Definition f64_rem (x y : f64) : f64 :=
  match x, y with
  | S754_nan, _ | _, S754_nan | S754_infinity _, _ | _, S754_zero _ => S754_nan
  | S754_zero _, _ | _, S754_infinity _ => x
  | S754_finite sx mx ex, S754_finite _ my ey =>
      let e := Z.min ex ey in
      let r := (Z.pos mx * 2 ^ (ex - e)) mod (Z.pos my * 2 ^ (ey - e)) in
      binary_normalize prec emax (signed sx r) e sx
  end.

(** [x as i32] and [x as i64]: towards zero, within the range of the type; [NaN] gives zero. *)
Definition as_int (low high : Z) (x : f64) : Z :=
  match x with
  | S754_nan | S754_zero _ => 0
  | S754_infinity s => if s then low else high
  | S754_finite s m e => Z.max low (Z.min high (integer_part s m e))
  end.
Definition f64_as_i32 : f64 -> Z := as_int (- 2 ^ 31) (2 ^ 31 - 1).
Definition f64_as_i64 : f64 -> Z := as_int (- 2 ^ 63) (2 ^ 63 - 1).

(** [x.to_bits()], for a double in its canonical form. *)
Definition to_bits (x : f64) : Z :=
  match x with
  | S754_zero s => if s then 2 ^ 63 else 0
  | S754_infinity s => (if s then 2 ^ 63 else 0) + 2047 * 2 ^ 52
  | S754_nan => 2047 * 2 ^ 52 + 2 ^ 51
  | S754_finite s m e => (if s then 2 ^ 63 else 0) + (e + 1074) * 2 ^ 52 + Z.pos m
  end.

(** [x.fract()] *)
Definition f64_fract (x : f64) : f64 := f64_sub x (f64_trunc x).

(** The standard library on decimal text, and [powf]. *)
Class FloatLib := {
  parse_f64 : str -> option f64;
  format_f64 : f64 -> str;
  format_integer : f64 -> str;
  format_exponential : f64 -> str;
  f64_powf : f64 -> f64 -> f64;
}.

(** ** Number *)
Module Number.

Definition MAX_SAFE_INTEGER : f64 := f64_sub (f64_of_Z (2 ^ 53)) (f64_of_Z 1).
Definition MIN_SAFE_INTEGER : f64 := SFopp MAX_SAFE_INTEGER.

Definition compare (a b : f64) : Z :=
  if is_nan_f64 a || is_nan_f64 b then
    match is_nan_f64 a, is_nan_f64 b with
    | true, true => 0
    | true, false => 1
    | false, _ => -1
    end
  else if SFltb a b then -1
  else if SFltb b a then 1
  else 0.

Definition is_nan (x : f64) : bool := is_nan_f64 x.
Definition is_inf (x : f64) : bool := match x with S754_infinity _ => true | _ => false end.

Definition is_non_finite (value : f64) : bool :=
  let MASK := 9218868437227405312 in Z.land (to_bits value) MASK =? MASK.

Definition to_int32 (x : f64) : Z :=
  let smi := f64_as_i32 x in
  if SFeqb (f64_of_Z smi) x then smi
  else if is_non_finite x then 0
  else as_i32 (f64_as_i64 (f64_rem (f64_trunc x) (f64_of_Z 4294967296))).

(** [as u32] of an [i32] *)
Definition to_uint32 (x : f64) : Z := to_int32 x mod 2 ^ 32.
Definition to_shift_count (x : f64) : Z := Z.land (to_uint32 x) 31.

Definition bitwise_not (x : f64) : f64 := f64_of_Z (Z.lnot (to_int32 x)).
Definition bitwise_or (x rhs : f64) : f64 := f64_of_Z (Z.lor (to_int32 x) (to_int32 rhs)).
Definition bitwise_and (x rhs : f64) : f64 := f64_of_Z (Z.land (to_int32 x) (to_int32 rhs)).
Definition bitwise_xor (x rhs : f64) : f64 := f64_of_Z (Z.lxor (to_int32 x) (to_int32 rhs)).
Definition signed_right_shift (x rhs : f64) : f64 := f64_of_Z (Z.shiftr (to_int32 x) (to_shift_count rhs)).
Definition unsigned_right_shift (x rhs : f64) : f64 := f64_of_Z (Z.shiftr (to_uint32 x) (to_shift_count rhs)).
(** [<<] of an [i32] drops the bits shifted out. *)
Definition left_shift (x rhs : f64) : f64 := f64_of_Z (as_i32 (Z.shiftl (to_int32 x) (to_shift_count rhs))).
Definition remainder (x rhs : f64) : f64 := f64_rem x rhs.

(** [From<i32>], [Neg] and the [number_binop!]s. *)
Definition from_i32 (value : Z) : f64 := f64_of_Z value.
Definition neg (x : f64) : f64 := SFopp x.
Definition add (x rhs : f64) : f64 := f64_add x rhs.
Definition sub (x rhs : f64) : f64 := f64_sub x rhs.
Definition mul (x rhs : f64) : f64 := f64_mul x rhs.
Definition div (x rhs : f64) : f64 := f64_div x rhs.

(** [PartialEq] and the key that [Hash] hashes. *)
Definition eq (x other : f64) : bool := SFeqb x other || (is_nan x && is_nan other).
Definition hash_key (x : f64) : Z :=
  if SFeqb x (S754_zero false) then to_bits (S754_zero false)
  else if is_nan x then to_bits S754_nan
  else to_bits x.

(** ** Text *)

(** The loop over the digits: [value * radix + digit] is rounded twice at each. *)
Fixpoint prefixed_digits (radix : Z) (value : f64) (digits : str) : option f64 :=
  match digits with
  | [] => Some value
  | ch :: digits =>
      if ch =? chr "_" then prefixed_digits radix value digits
      else
        digit ← to_digit radix ch;
        prefixed_digits radix (f64_add (f64_mul value (f64_of_Z radix)) (f64_of_Z digit)) digits
  end.

(** [strip_prefix] of either of two prefixes. *)
Definition strip_either (lower upper text : str) : option str :=
  match strip_prefix lower text with Some digits => Some digits | None => strip_prefix upper text end.

Definition split_radix (text : str) : option (str * Z) :=
  match strip_either (bstr "0x") (bstr "0X") text with
  | Some digits => Some (digits, 16)
  | None =>
      match strip_either (bstr "0b") (bstr "0B") text with
      | Some digits => Some (digits, 2)
      | None => (fun digits => (digits, 8)) <$> strip_either (bstr "0o") (bstr "0O") text
      end
  end.

Definition try_parse_prefixed_integer (text : str) : option f64 :=
  '(digits, radix) ← split_radix (trim text);
  prefixed_digits radix (f64_of_Z 0) digits.

Section text.
Context `{FloatLib}.

Definition from_string (text : str) : f64 :=
  match try_parse_prefixed_integer text with
  | Some number => number
  | None => default S754_nan (parse_f64 text)
  end.

Fixpoint trim_end_matches (ch : char) (s : str) : str :=
  match s with
  | [] => []
  | c :: s => match trim_end_matches ch s with [] => if c =? ch then [] else [c] | s => c :: s end
  end.

Definition format_js_exponential (value : f64) : str :=
  let raw := format_exponential value in
  match split_once_char (chr "e") raw with
  | None => raw
  | Some (mantissa, exponent) =>
      let mantissa := trim_end_matches (chr ".") (trim_end_matches (chr "0") mantissa) in
      let negative := bool_decide (head exponent = Some (chr "-")) in
      let digits := if negative then tail exponent else exponent in
      let exponent_value := default 0 (from_str_radix 10 (if negative then 2 ^ 31 else 2 ^ 31 - 1) digits) in
      if negative && negb (exponent_value =? 0) then mantissa ++ bstr "e" ++ bstr "-" ++ to_decimal exponent_value
      else mantissa ++ bstr "e+" ++ to_decimal exponent_value
  end.

(** [fmt] of [Display]. *)
Definition to_string (x : f64) : str :=
  if is_nan x then bstr "NaN"
  else if is_inf x then (if SFltb x (S754_zero false) then bstr "-Infinity" else bstr "Infinity")
  else if SFeqb x (S754_zero false) then bstr "0"
  else if SFleb (f64_of_Z (10 ^ 21)) (SFabs x) || SFltb (SFabs x) (f64_div (f64_of_Z 1) (f64_of_Z (10 ^ 6))) then
    format_js_exponential x
  else if SFeqb (f64_fract x) (S754_zero false) then format_integer x
  else format_f64 x.

Definition exponentiate (x rhs : f64) : f64 := f64_powf x rhs.
End text.
End Number.
