(* ===== verification/NumberThm.v ===== *)
(** * NumberThm: the integer operations of JavaScript numbers are exact

    [is_int x z]: the double [x] is the integer [z]. Roundings of values that are doubles are exact
    ([round_exact]), from which the conversions to 32 bits and the bit operations follow. Then what the evaluator of
    constants relies on: operations give doubles in canonical form, the operators of ECMAScript on numbers ([JsUnary],
    [JsBinary]), the text of a number ([NumberText]) and the number of a numeral ([NumeralValue]), each proved to be
    what the code computes. *)
From Stdlib Require Import Floats.SpecFloat.
From S2P Require Import Prelude Text Chars Numerals JsNum Strs SyntaxKind Number.

Abbreviation valid := (valid_binary prec emax).

(** ** Digits *)
Lemma digits_log2 m : Z.pos (digits2_pos m) = Z.log2 (Z.pos m) + 1.
Proof.
  induction m as [m IH|m IH|]; cbn [digits2_pos]; [| |done].
  - rewrite Pos2Z.inj_succ, IH. rewrite (Pos2Z.inj_xI m), Z.log2_succ_double by lia. lia.
  - rewrite Pos2Z.inj_succ, IH. rewrite (Pos2Z.inj_xO m), Z.log2_double by lia. lia.
Qed.

Lemma digits_mul_pow2 m k n : 0 <= n -> Z.pos k = Z.pos m * 2 ^ n -> Z.pos (digits2_pos k) = Z.pos (digits2_pos m) + n.
Proof. intros Hn H. rewrite !digits_log2, H, Z.log2_mul_pow2 by lia. lia. Qed.

Lemma digits_bound m n : 0 <= n -> Z.pos m < 2 ^ n -> Z.pos (digits2_pos m) <= n.
Proof. intros Hn H. rewrite digits_log2. apply Z.log2_lt_pow2 in H; lia. Qed.

(** ** Exact roundings *)
Lemma shr_1_even m r s : (* a shift out of a zero bit *)
  shr_1 (Build_shr_record (2 * m) r s) = Build_shr_record m false (r || s).
Proof. by destruct m. Qed.

Lemma iter_shr_exact n k :
  SpecFloat.iter_pos shr_1 n (Build_shr_record (k * 2 ^ Z.pos n) false false) = Build_shr_record k false false.
Proof.
  revert k. induction n as [n IH|n IH|]; intros k; cbn [SpecFloat.iter_pos].
  - replace (k * 2 ^ Z.pos n~1) with (2 * (k * 2 ^ Z.pos n * 2 ^ Z.pos n)).
    + by rewrite shr_1_even, !IH.
    + rewrite Pos2Z.inj_xI, Z.pow_add_r, Z.mul_comm, <- Z.mul_assoc by lia. replace (2 * Z.pos n) with (Z.pos n + Z.pos n) by lia.
      rewrite Z.pow_add_r by lia. ring.
  - replace (k * 2 ^ Z.pos n~0) with (k * 2 ^ Z.pos n * 2 ^ Z.pos n); [by rewrite !IH|].
    rewrite (Pos2Z.inj_xO n). replace (2 * Z.pos n) with (Z.pos n + Z.pos n) by lia. rewrite Z.pow_add_r by lia. ring.
  - replace (k * 2 ^ 1) with (2 * k) by lia. by rewrite shr_1_even.
Qed.

Abbreviation fexp := (fexp prec emax).

(** The exponent of the canonical form of [m * 2 ^ e]. *)
Definition target (m : positive) (e : Z) : Z := fexp (Z.pos (digits2_pos m) + e).

Lemma shr_fexp_exact k m e :
  e <= target m e -> Z.pos m = k * 2 ^ (target m e - e) ->
  shr_fexp prec emax (Z.pos m) e loc_Exact = (Build_shr_record k false false, target m e).
Proof.
  intros He Hm. unfold shr_fexp. cbn [shr_record_of_loc Zdigits2]. fold (target m e).
  destruct (target m e - e) as [|n|n] eqn:En; cbn [shr]; [|rewrite Hm, iter_shr_exact|lia].
  - f_equal; [|lia]. f_equal. rewrite Hm. lia.
  - f_equal. lia.
Qed.

Lemma round_aux_exact s k m e :
  e <= target m e -> Z.pos m = Z.pos k * 2 ^ (target m e - e) -> target m e <= emax - prec ->
  binary_round_aux prec emax s (Z.pos m) e loc_Exact = S754_finite s k (target m e).
Proof.
  intros He Hm Hmax. unfold binary_round_aux. rewrite (shr_fexp_exact (Z.pos k)) by done. cbn [shr_m loc_of_shr_record round_nearest_even].
  assert (target k (target m e) = target m e) as Ht.
  { pose proof (digits_mul_pow2 k m (target m e - e) ltac:(lia) Hm).
    transitivity (fexp (Z.pos (digits2_pos m) + e)); [|done]. unfold target at 1. f_equal. lia. }
  rewrite (shr_fexp_exact (Z.pos k) k); rewrite ?Ht; [|lia|by rewrite Z.sub_diag, Z.mul_1_r].
  cbn [shr_m]. by rewrite (proj2 (Z.leb_le _ _)) by lia.
Qed.

Lemma pos_iter_xO m d : Z.pos (Pos.iter xO m d) = Z.pos m * 2 ^ Z.pos d.
Proof.
  induction d as [|d IH] using Pos.peano_ind; [cbn; lia|].
  rewrite Pos.iter_succ, Pos2Z.inj_xO, IH, Pos2Z.inj_succ, Z.pow_succ_r by lia. ring.
Qed.

(** [k * 2 ^ target] is [m * 2 ^ e]. *)
Definition same_value (k : positive) (m : positive) (e : Z) : Prop :=
  (target m e <= e /\ Z.pos k = Z.pos m * 2 ^ (e - target m e))
  \/ (e < target m e /\ Z.pos m = Z.pos k * 2 ^ (target m e - e)).

Lemma round_exact s k m e :
  same_value k m e -> target m e <= emax - prec -> binary_round prec emax s m e = S754_finite s k (target m e).
Proof.
  intros Hv Hmax. unfold binary_round, shl_align. fold (target m e). destruct Hv as [[He Hk]|[He Hm]].
  - assert (forall z, Z.pos z = Z.pos k -> target z (target m e) = target m e) as Ht.
    { intros z Hz. pose proof (digits_mul_pow2 m z (e - target m e) ltac:(lia) ltac:(lia)).
      transitivity (fexp (Z.pos (digits2_pos m) + e)); [|done]. unfold target at 1. f_equal. lia. }
    destruct (target m e - e) as [|d|d] eqn:Ed; [|lia|].
    + replace e with (target m e) at 1 by lia. assert (k = m) as -> by (replace (e - target m e) with 0 in Hk by lia; lia).
      rewrite (round_aux_exact _ m); rewrite ?Ht by done; [done|lia|rewrite Z.sub_diag; lia|done].
    + assert (Z.pos (Pos.iter xO m d) = Z.pos k) as Hi.
      { rewrite pos_iter_xO, Hk. f_equal. f_equal. lia. }
      rewrite (round_aux_exact _ k); rewrite ?(Ht _ Hi); [done|lia|rewrite Z.sub_diag; lia|done].
  - destruct (target m e - e) as [|d|d] eqn:Ed; try lia. by rewrite (round_aux_exact _ k); rewrite ?Ed; try lia.
Qed.

(** ** Integers *)
Definition is_int (x : f64) (z : Z) : Prop :=
  match x with
  | S754_zero _ => z = 0
  | S754_finite s m e => if 0 <=? e then z = signed s (Z.pos m * 2 ^ e) else signed s (Z.pos m) = z * 2 ^ (- e)
  | _ => False
  end.

(** The double that is the integer [± p]. *)
Definition int_digits (p : Z) : Z := Z.log2 p + 1.
Definition int_double (s : bool) (p : Z) : f64 := S754_finite s (Z.to_pos (p * 2 ^ (53 - int_digits p))) (int_digits p - 53).

Lemma int_digits_range p : 0 < p < 2 ^ 53 -> 1 <= int_digits p <= 53.
Proof. intros Hp. unfold int_digits. pose proof (Z.log2_nonneg p). destruct Hp as [H0 H1]. apply Z.log2_lt_pow2 in H1; lia. Qed.

Lemma int_target p m e :
  0 < p < 2 ^ 53 -> Z.pos (digits2_pos m) + e = int_digits p -> target m e = int_digits p - 53.
Proof.
  intros Hp Hd. pose proof (int_digits_range p Hp). unfold target. rewrite Hd. unfold SpecFloat.fexp, emin, prec, emax. lia.
Qed.

(** An integer below 2^53, given with any scale, is rounded to itself. *)
Lemma int_round s p j :
  0 < p < 2 ^ 53 -> 0 <= j -> binary_round prec emax s (Z.to_pos (p * 2 ^ j)) (- j) = int_double s p.
Proof.
  intros Hp Hj. pose proof (int_digits_range p Hp) as Hd.
  assert (0 < 2 ^ j) by (by apply Z.pow_pos_nonneg). assert (0 < 2 ^ (53 - int_digits p)) by (apply Z.pow_pos_nonneg; lia).
  assert (0 < p * 2 ^ j) by nia. assert (0 < p * 2 ^ (53 - int_digits p)) by nia.
  assert (target (Z.to_pos (p * 2 ^ j)) (- j) = int_digits p - 53) as Ht.
  { apply int_target; [done|]. rewrite digits_log2, Z2Pos.id, Z.log2_mul_pow2 by lia. unfold int_digits. lia. }
  rewrite (round_exact _ (Z.to_pos (p * 2 ^ (53 - int_digits p)))); [by rewrite Ht| |rewrite Ht; unfold emax, prec; lia].
  unfold same_value. rewrite Ht, !Z2Pos.id by done. destruct (decide (int_digits p - 53 <= - j)) as [Hc|Hc].
  - left. split; [done|]. rewrite <- Z.mul_assoc, <- Z.pow_add_r by lia. f_equal. f_equal. lia.
  - right. split; [lia|]. rewrite <- Z.mul_assoc, <- Z.pow_add_r by lia. f_equal. f_equal. lia.
Qed.

Lemma int_normalize z j s :
  Z.abs z < 2 ^ 53 -> 0 <= j ->
  binary_normalize prec emax (z * 2 ^ j) (- j) s = if z =? 0 then S754_zero s else int_double (z <? 0) (Z.abs z).
Proof.
  intros Hz Hj. assert (0 < 2 ^ j) by (by apply Z.pow_pos_nonneg).
  destruct z as [|p|p]; [done|..]; cbn [Z.abs] in Hz.
  - transitivity (int_double false (Z.pos p)); [|done]. rewrite <- (int_round false (Z.pos p) j) by lia. destruct (Z.pos p * 2 ^ j) eqn:E; try lia. done.
  - transitivity (int_double true (Z.pos p)); [|done]. rewrite <- (int_round true (Z.pos p) j) by lia. rewrite <- Pos2Z.opp_pos, Z.mul_opp_l.
    destruct (Z.pos p * 2 ^ j) eqn:E; try lia. done.
Qed.

Lemma f64_of_Z_int z : Z.abs z < 2 ^ 53 -> f64_of_Z z = if z =? 0 then S754_zero false else int_double (z <? 0) (Z.abs z).
Proof. intros Hz. rewrite <- (int_normalize z 0 false) by lia. unfold f64_of_Z. by rewrite Z.mul_1_r. Qed.

Lemma int_double_value s p : 0 < p < 2 ^ 53 -> is_int (int_double s p) (signed s p).
Proof.
  intros Hp. pose proof (int_digits_range p Hp) as Hd. unfold int_double, is_int.
  assert (0 < 2 ^ (53 - int_digits p)) by (apply Z.pow_pos_nonneg; lia). rewrite Z2Pos.id by nia.
  destruct (0 <=? _) eqn:E; bool_to_prop.
  - replace (int_digits p) with 53 by lia. unfold signed. destruct s; lia.
  - replace (- (int_digits p - 53)) with (53 - int_digits p) by lia. unfold signed. destruct s; lia.
Qed.

Lemma int_double_valid s p : 0 < p < 2 ^ 53 -> valid (int_double s p) = true.
Proof.
  intros Hp. pose proof (int_digits_range p Hp) as Hd.
  assert (0 < 2 ^ (53 - int_digits p)) by (apply Z.pow_pos_nonneg; lia).
  cbn. apply andb_true_iff. split; [|apply Z.leb_le; unfold emax, prec; lia].
  apply Z.eqb_eq. pose proof (int_target p (Z.to_pos (p * 2 ^ (53 - int_digits p))) (int_digits p - 53) Hp) as Ht.
  apply Ht. rewrite digits_log2, Z2Pos.id, Z.log2_mul_pow2 by nia. unfold int_digits. lia.
Qed.

(** There is only one. *)
Lemma is_int_unique x z :
  valid x = true -> is_int x z -> 0 < Z.abs z < 2 ^ 53 -> x = int_double (z <? 0) (Z.abs z).
Proof.
  intros Hv Hx Hz. destruct x as [s|s| |s m e]; cbn [is_int] in Hx; [lia|done..|].
  cbn in Hv. apply andb_true_iff in Hv as [Hc _]. apply Z.eqb_eq in Hc.
  assert (Z.abs z = if 0 <=? e then Z.pos m * 2 ^ e else Z.abs z) as Habs.
  { destruct (0 <=? e) eqn:E; [|done]. bool_to_prop. assert (0 < 2 ^ e) by (apply Z.pow_pos_nonneg; lia). unfold signed in Hx. destruct s; nia. }
  assert (s = (z <? 0)) as <-.
  { destruct (0 <=? e) eqn:E; bool_to_prop.
    - assert (0 < 2 ^ e) by (apply Z.pow_pos_nonneg; lia). unfold signed in Hx. symmetry. destruct s; [apply Z.ltb_lt|apply Z.ltb_ge]; nia.
    - assert (0 < 2 ^ (- e)) by (apply Z.pow_pos_nonneg; lia). unfold signed in Hx. symmetry. destruct s; [apply Z.ltb_lt|apply Z.ltb_ge]; nia. }
  assert (Z.pos (digits2_pos m) + e = int_digits (Z.abs z)) as Hd.
  { unfold int_digits. rewrite digits_log2. destruct (0 <=? e) eqn:E; bool_to_prop.
    - rewrite Habs, Z.log2_mul_pow2 by lia. lia.
    - assert (Z.pos m = Z.abs z * 2 ^ (- e)) as -> by (assert (0 < 2 ^ (- e)) by (apply Z.pow_pos_nonneg; lia); unfold signed in Hx; destruct s; nia).
      rewrite Z.log2_mul_pow2 by lia. lia. }
  pose proof (int_target _ _ _ Hz Hd) as Ht. unfold target in Ht. rewrite Hc in Ht. pose proof (int_digits_range _ Hz) as Hr.
  unfold int_double. rewrite <- Ht. f_equal. apply Pos2Z.inj. rewrite Z2Pos.id.
  - destruct (0 <=? e) eqn:E; bool_to_prop.
    + assert (e = 0) as -> by lia. replace (53 - int_digits (Z.abs z)) with 0 by lia. lia.
    + replace (53 - int_digits (Z.abs z)) with (- e) by lia.
      assert (0 < 2 ^ (- e)) by (apply Z.pow_pos_nonneg; lia). unfold signed in Hx. destruct s; nia.
  - assert (0 < 2 ^ (53 - int_digits (Z.abs z))) by (apply Z.pow_pos_nonneg; lia). nia.
Qed.

Lemma f64_of_Z_spec z : Z.abs z < 2 ^ 53 -> is_int (f64_of_Z z) z /\ valid (f64_of_Z z) = true.
Proof.
  intros Hz. rewrite f64_of_Z_int by done. destruct (z =? 0) eqn:E; bool_to_prop; [by subst|].
  split; [|apply int_double_valid; lia].
  assert (signed (z <? 0) (Z.abs z) = z) as Hs by (unfold signed; destruct (z <? 0) eqn:E2; bool_to_prop; lia).
  rewrite <- Hs at 3. apply int_double_value. lia.
Qed.

(** ** Conversion to 32 bits *)

(** The integer part of a double, zero for what is not finite. *)
Definition number_int (x : f64) : Z := match x with S754_finite s m e => integer_part s m e | _ => 0 end.

Lemma is_int_number_int x z : is_int x z -> number_int x = z.
Proof.
  destruct x as [s|s| |s m e]; cbn; try done. unfold integer_part. destruct (0 <=? e) eqn:E; [done|]. bool_to_prop.
  intros Hz. assert (0 < 2 ^ (- e)) by (apply Z.pow_pos_nonneg; lia).
  assert (Z.pos m = Z.abs z * 2 ^ (- e)) as -> by (unfold signed in Hz; destruct s; nia).
  rewrite Z.div_mul by lia. unfold signed in *. destruct s; nia.
Qed.

Lemma SFeqb_true a b : SFeqb a b = true -> a = b \/ exists s s', a = S754_zero s /\ b = S754_zero s'.
Proof.
  unfold SFeqb. destruct a as [s|s| |s m e], b as [s'|s'| |s' m' e']; cbn; try done; try (by destruct s); try (by destruct s').
  - intros _. right. by exists s, s'.
  - destruct s, s'; by try left.
  - destruct s, s'; try done; destruct (Z.compare_spec e e') as [->| |]; try done;
      change (Pos.compare_cont Eq m m') with (Pos.compare m m'); destruct (Pos.compare_spec m m') as [->| |]; try done; by left.
Qed.

Lemma SFeqb_refl x : x <> S754_nan -> SFeqb x x = true.
Proof.
  intros Hx. unfold SFeqb. destruct x as [s|s| |s m e]; cbn; try done; [by destruct s|].
  rewrite Z.compare_refl. change (Pos.compare_cont Eq m m) with (Pos.compare m m). rewrite Pos.compare_refl. by destruct s.
Qed.

Lemma finite_valid s m e : valid (S754_finite s m e) = true -> Z.pos m < 2 ^ 53 /\ -1074 <= e <= 971.
Proof.
  cbn. intros [Hc He]%andb_true_iff. apply Z.eqb_eq in Hc. apply Z.leb_le in He.
  unfold SpecFloat.fexp, emin, prec, emax in *. split; [|lia].
  apply Z.log2_lt_pow2; [lia|]. rewrite digits_log2 in Hc. lia.
Qed.

Lemma is_non_finite_spec x : valid x = true -> Number.is_non_finite x = match x with S754_infinity _ | S754_nan => true | _ => false end.
Proof.
  intros Hv. unfold Number.is_non_finite. destruct x as [s|s| |s m e]; [by destruct s..|done|].
  destruct (finite_valid _ _ _ Hv) as [Hm He]. apply Z.eqb_neq. intros H.
  apply (f_equal (fun z => Z.shiftr z 52)) in H. rewrite Z.shiftr_land in H.
  assert (Z.shiftr (to_bits (S754_finite s m e)) 52 = (if s then 2 ^ 11 else 0) + (e + 1074 + Z.pos m / 2 ^ 52)) as Hs.
  { rewrite Z.shiftr_div_pow2 by lia. cbn [to_bits]. destruct s.
    - replace (2 ^ 63) with (2 ^ 11 * 2 ^ 52) by lia. rewrite <- Z.mul_add_distr_r, Z.add_comm, Z.div_add by lia. lia.
    - rewrite Z.add_0_l, Z.add_comm, Z.div_add by lia. lia. }
  rewrite Hs in H. change (Z.shiftr 9218868437227405312 52) with (Z.ones 11) in H. rewrite Z.land_ones in H by lia.
  assert (0 <= Z.pos m / 2 ^ 52 < 2) by (split; [by apply Z.div_pos|apply Z.div_lt_upper_bound; lia]).
  assert (Hmod : (e + 1074 + Z.pos m / 2 ^ 52) mod 2 ^ 11 = 2047).
  { destruct s; [|done]. replace (2 ^ 11 + (e + 1074 + Z.pos m / 2 ^ 52)) with (e + 1074 + Z.pos m / 2 ^ 52 + 1 * 2 ^ 11) in H by lia.
    by rewrite Z.mod_add in H by lia. }
  rewrite Z.mod_small in Hmod by lia. lia.
Qed.

(** Truncating and the remainder of a division by an integer stay with the integers. *)
Lemma f64_trunc_int s m e :
  valid (S754_finite s m e) = true -> is_int (f64_trunc (S754_finite s m e)) (integer_part s m e).
Proof.
  intros Hv. destruct (finite_valid _ _ _ Hv) as [Hm He]. cbn [f64_trunc]. destruct (0 <=? e) eqn:E; bool_to_prop.
  - cbn. unfold integer_part. by rewrite (proj2 (Z.leb_le _ _)) by lia.
  - assert (0 < 2 ^ (- e)) as Hp by (apply Z.pow_pos_nonneg; lia).
    assert (Z.abs (integer_part s m e) < 2 ^ 53) as Habs.
    { unfold integer_part. rewrite (proj2 (Z.leb_gt _ _)) by lia.
      assert (0 <= Z.pos m / 2 ^ (- e) <= Z.pos m) by (split; [apply Z.div_pos; lia|apply Z.div_le_upper_bound; nia]).
      unfold signed. destruct s; lia. }
    pose proof (int_normalize (integer_part s m e) 0 s Habs ltac:(lia)) as Hn.
    rewrite Z.mul_1_r in Hn. change (- 0) with 0 in Hn. rewrite Hn. destruct (integer_part s m e =? 0) eqn:E0; bool_to_prop; [done|].
    set (z := integer_part s m e) in *.
    assert (signed (z <? 0) (Z.abs z) = z) as Hs by (unfold signed; destruct (z <? 0) eqn:E2; bool_to_prop; lia).
    rewrite <- Hs at 3. apply int_double_value. lia.
Qed.

Lemma is_int_normalize z j s : Z.abs z < 2 ^ 53 -> 0 <= j -> is_int (binary_normalize prec emax (z * 2 ^ j) (- j) s) z.
Proof.
  intros Hz Hj. rewrite int_normalize by done. destruct (z =? 0) eqn:E; bool_to_prop; [done|].
  assert (signed (z <? 0) (Z.abs z) = z) as Hs by (unfold signed; destruct (z <? 0) eqn:E2; bool_to_prop; lia).
  rewrite <- Hs at 3. apply int_double_value. lia.
Qed.

(** The mantissa of an integer at a scale. *)
Lemma is_int_scaled s m e z em :
  is_int (S754_finite s m e) z -> em <= e -> em <= 0 -> Z.pos m * 2 ^ (e - em) = Z.abs z * 2 ^ (- em) /\ s = (z <? 0).
Proof.
  intros Hz He Hem. cbn in Hz. destruct (0 <=? e) eqn:E; bool_to_prop.
  - assert (0 < 2 ^ e) by (apply Z.pow_pos_nonneg; lia). assert (Z.abs z = Z.pos m * 2 ^ e) as -> by (unfold signed in Hz; destruct s; nia).
    split; [rewrite <- Z.mul_assoc, <- Z.pow_add_r by lia; f_equal; f_equal; lia|].
    symmetry. unfold signed in Hz. destruct s; [apply Z.ltb_lt|apply Z.ltb_ge]; nia.
  - assert (0 < 2 ^ (- e)) by (apply Z.pow_pos_nonneg; lia).
    assert (Z.pos m = Z.abs z * 2 ^ (- e)) as -> by (unfold signed in Hz; destruct s; nia).
    split; [rewrite <- Z.mul_assoc, <- Z.pow_add_r by lia; f_equal; f_equal; lia|].
    symmetry. unfold signed in Hz. destruct s; [apply Z.ltb_lt|apply Z.ltb_ge]; nia.
Qed.

Lemma f64_rem_int x z p : is_int x z -> 0 < p < 2 ^ 53 -> is_int (f64_rem x (f64_of_Z p)) (Z.rem z p).
Proof.
  intros Hx Hp. rewrite f64_of_Z_int by lia. rewrite (proj2 (Z.eqb_neq _ _)) by lia.
  rewrite (proj2 (Z.ltb_ge _ _)), Z.abs_eq by lia. pose proof (int_double_value false p Hp) as Hy.
  unfold int_double in *. destruct x as [s|s| |s m e]; try done; [by cbn in Hx; subst|]. cbn [f64_rem].
  set (ey := int_digits p - 53) in *. set (k := Z.to_pos _) in *. set (em := Z.min e ey).
  pose proof (int_digits_range p Hp).
  destruct (is_int_scaled s m e z em Hx) as [Hm Hs]; [lia..|].
  destruct (is_int_scaled false k ey p em Hy) as [Hk _]; [lia..|].
  rewrite Hm, Hk, (Z.abs_eq p) by lia. assert (0 < 2 ^ (- em)) by (apply Z.pow_pos_nonneg; lia).
  rewrite Z.mul_mod_distr_r by lia. pose proof (Z.mod_pos_bound (Z.abs z) p ltac:(lia)).
  assert (signed s (Z.abs z mod p * 2 ^ (- em)) = signed s (Z.abs z mod p) * 2 ^ (- em)) as -> by (unfold signed; destruct s; lia).
  assert (Z.rem z p = signed s (Z.abs z mod p)) as ->.
  { subst s. unfold signed. destruct (z <? 0) eqn:E; bool_to_prop.
    - rewrite <- (Z.opp_involutive z) at 1. rewrite Z.rem_opp_l, Z.rem_mod_nonneg by lia. f_equal. f_equal. lia.
    - rewrite Z.rem_mod_nonneg by lia. f_equal. lia. }
  replace em with (- - em) at 2 by lia. apply is_int_normalize; [unfold signed; destruct s; lia|lia].
Qed.

Lemma as_int_int low high x z : is_int x z -> low <= z <= high -> as_int low high x = z.
Proof.
  intros Hx Hz. pose proof (is_int_number_int x z Hx) as Hn. destruct x as [s|s| |s m e]; cbn in *; [done..|]. lia.
Qed.

Lemma as_i32_rem z : as_i32 (Z.rem z (2 ^ 32)) = as_i32 z.
Proof.
  unfold as_i32. f_equal. pose proof (Z.quot_rem' z (2 ^ 32)).
  replace (z + 2 ^ 31) with (Z.rem z (2 ^ 32) + 2 ^ 31 + Z.quot z (2 ^ 32) * 2 ^ 32) by lia. by rewrite Z.mod_add.
Qed.

Lemma to_int32_value x : valid x = true -> Number.to_int32 x = as_i32 (number_int x).
Proof.
  intros Hv. unfold Number.to_int32. destruct (SFeqb _ x) eqn:E.
  - apply SFeqb_true in E as [E|(s & s' & E1 & ->)]; [|done].
    assert (- 2 ^ 31 <= f64_as_i32 x < 2 ^ 31) as Hr.
    { unfold f64_as_i32, as_int. destruct x as [s|s| |s m e]; try lia. destruct s; lia. }
    destruct (f64_of_Z_spec (f64_as_i32 x)) as [Hi _]; [lia|]. rewrite E in Hi.
    rewrite (is_int_number_int _ _ Hi). by rewrite as_i32_id.
  - rewrite is_non_finite_spec by done. destruct x as [s|s| |s m e]; try done.
    pose proof (f64_trunc_int s m e Hv) as Ht.
    pose proof (f64_rem_int _ _ 4294967296 Ht ltac:(lia)) as Hr. cbn [number_int].
    unfold f64_as_i64. rewrite (as_int_int _ _ _ _ Hr); [by apply as_i32_rem|].
    pose proof (Z.rem_bound_abs (integer_part s m e) 4294967296 ltac:(lia)). lia.
Qed.

(** ** Bit operations *)
Definition i32 (z : Z) : Prop := - 2 ^ 31 <= z < 2 ^ 31.

Lemma i32_sign z : i32 z <-> Z.shiftr z 31 = 0 \/ Z.shiftr z 31 = -1.
Proof. unfold i32. rewrite Z.shiftr_div_pow2 by lia. Z.div_mod_to_equations. lia. Qed.

Lemma i32_bits a b : i32 a -> i32 b -> i32 (Z.lor a b) /\ i32 (Z.land a b) /\ i32 (Z.lxor a b) /\ i32 (Z.lnot a).
Proof.
  rewrite !i32_sign. intros Ha Hb. rewrite Z.shiftr_lor, Z.shiftr_land, Z.shiftr_lxor.
  assert (Z.shiftr (Z.lnot a) 31 = Z.lnot (Z.shiftr a 31)) as ->.
  { rewrite !Z.shiftr_div_pow2 by lia. unfold Z.lnot. Z.div_mod_to_equations. lia. }
  destruct Ha as [-> | ->], Hb as [-> | ->]; vm_compute; tauto.
Qed.

Lemma as_i32_range z : i32 (as_i32 z).
Proof. unfold i32, as_i32. pose proof (Z.mod_pos_bound (z + 2 ^ 31) (2 ^ 32) ltac:(lia)). lia. Qed.

Lemma shift_count_value x : valid x = true -> Number.to_shift_count x = number_int x mod 32.
Proof.
  intros Hv. unfold Number.to_shift_count, Number.to_uint32. rewrite to_int32_value by done.
  change 31 with (Z.ones 5). rewrite Z.land_ones by lia. unfold as_i32. Z.div_mod_to_equations. lia.
Qed.

(** [x] is the integer [z] as a double in canonical form. *)
Definition represents (x : f64) (z : Z) : Prop := is_int x z /\ valid x = true.

Lemma represents_i32 z : i32 z -> represents (f64_of_Z z) z.
Proof. unfold i32. intros Hz. apply f64_of_Z_spec. lia. Qed.

(** C32. The bit operations are those of the language: an operand is its integer part modulo 2^32 as a signed integer,
    a shift count the integer part modulo 32, and the result an integer that is represented exactly, NaN
    and the infinities counting as zero. *)
Theorem bit_operations_spec (x y : f64) :
  valid x = true -> valid y = true ->
  let a := as_i32 (number_int x) in
  let b := as_i32 (number_int y) in
  let n := number_int y mod 32 in
  represents (Number.bitwise_not x) (- a - 1)
  /\ represents (Number.bitwise_or x y) (Z.lor a b)
  /\ represents (Number.bitwise_and x y) (Z.land a b)
  /\ represents (Number.bitwise_xor x y) (Z.lxor a b)
  /\ represents (Number.left_shift x y) (as_i32 (a * 2 ^ n))
  /\ represents (Number.signed_right_shift x y) (a / 2 ^ n)
  /\ represents (Number.unsigned_right_shift x y) (a mod 2 ^ 32 / 2 ^ n).
Proof.
  intros Hx Hy a b n. pose proof (as_i32_range (number_int x)) as Ha. pose proof (as_i32_range (number_int y)) as Hb.
  destruct (i32_bits a b Ha Hb) as (H1 & H2 & H3 & H4).
  assert (0 <= n < 32) by (by apply Z.mod_pos_bound). assert (0 < 2 ^ n) by (apply Z.pow_pos_nonneg; lia).
  unfold Number.bitwise_not, Number.bitwise_or, Number.bitwise_and, Number.bitwise_xor, Number.left_shift,
    Number.signed_right_shift, Number.unsigned_right_shift, Number.to_uint32.
  rewrite !to_int32_value, !shift_count_value by done. fold a b n. rewrite !Z.shiftr_div_pow2, Z.shiftl_mul_pow2 by lia.
  replace (- a - 1) with (Z.lnot a) by (unfold Z.lnot; lia).
  split_and!; try (by apply represents_i32); [apply represents_i32, as_i32_range|apply represents_i32|apply f64_of_Z_spec].
  - unfold i32 in *. Z.div_mod_to_equations. nia.
  - pose proof (Z.mod_pos_bound a (2 ^ 32) ltac:(lia)).
    assert (0 <= a mod 2 ^ 32 / 2 ^ n <= a mod 2 ^ 32) by (split; [apply Z.div_pos; lia|apply Z.div_le_upper_bound; nia]). lia.
Qed.

(** ** Order, equality and hash *)

(** Doubles in their order, the zeros equal and NaN last: a triple compared lexicographically. *)
Definition rank (x : f64) : Z * Z * Z :=
  match x with
  | S754_nan => (3, 0, 0)
  | S754_infinity s => (signed s 2, 0, 0)
  | S754_zero _ => (0, 0, 0)
  | S754_finite s m e => (signed s 1, signed s e, signed s (Z.pos m))
  end.

Definition lex (a b : Z * Z * Z) : comparison :=
  match Z.compare a.1.1 b.1.1 with
  | Eq => match Z.compare a.1.2 b.1.2 with Eq => Z.compare a.2 b.2 | c => c end
  | c => c
  end.

Lemma SFcompare_rank a b :
  is_nan_f64 a = false -> is_nan_f64 b = false -> SFcompare a b = Some (lex (rank a) (rank b)).
Proof.
  intros Ha Hb. destruct a as [s|s| |s m e], b as [s'|s'| |s' m' e']; try done; try (by destruct s); try (by destruct s');
    destruct s, s'; try done; unfold lex; cbn.
  destruct (Z.compare_spec e e'), (Z.compare_spec (- e) (- e')); try lia; done.
Qed.

Lemma compare_rank a b :
  Number.compare a b = match lex (rank a) (rank b) with Lt => -1 | Eq => 0 | Gt => 1 end.
Proof.
  unfold Number.compare. destruct (is_nan_f64 a) eqn:Ha; [|destruct (is_nan_f64 b) eqn:Hb]; cbn [orb].
  - destruct a; try done. destruct b as [s|s| |s m e]; try done; by destruct s.
  - destruct b; try done. destruct a as [s|s| |s m e]; try done; by destruct s.
  - unfold SFltb. rewrite !SFcompare_rank by done. assert (lex (rank b) (rank a) = CompOpp (lex (rank a) (rank b))) as ->.
    { unfold lex. rewrite (Z.compare_antisym (rank a).1.1), (Z.compare_antisym (rank a).1.2), (Z.compare_antisym (rank a).2).
      destruct (Z.compare (rank a).1.1 _), (Z.compare (rank a).1.2 _); done. }
    by destruct (lex (rank a) (rank b)).
Qed.

Lemma lex_spec a b :
  CompareSpec (a = b)
    (a.1.1 < b.1.1 \/ a.1.1 = b.1.1 /\ (a.1.2 < b.1.2 \/ a.1.2 = b.1.2 /\ a.2 < b.2))
    (b.1.1 < a.1.1 \/ b.1.1 = a.1.1 /\ (b.1.2 < a.1.2 \/ b.1.2 = a.1.2 /\ b.2 < a.2)) (lex a b).
Proof.
  destruct a as [[a1 a2] a3], b as [[b1 b2] b3]. unfold lex. cbn.
  destruct (Z.compare_spec a1 b1); [|constructor; lia..].
  destruct (Z.compare_spec a2 b2); [|constructor; lia..].
  destruct (Z.compare_spec a3 b3); constructor; try lia. by subst.
Qed.

(** A double in canonical form is determined by its bits. *)
Lemma finite_bits s m e : valid (S754_finite s m e) = true -> 0 < (e + 1074) * 2 ^ 52 + Z.pos m < 2047 * 2 ^ 52.
Proof. intros Hv. destruct (finite_valid _ _ _ Hv). lia. Qed.

Lemma normal_mantissa s m e : valid (S754_finite s m e) = true -> e = -1074 \/ 2 ^ 52 <= Z.pos m.
Proof.
  cbn. intros [Hc _]%andb_true_iff. apply Z.eqb_eq in Hc. unfold SpecFloat.fexp, emin, prec, emax in Hc.
  destruct (decide (e = -1074)) as [|He]; [by left|right]. apply Z.log2_le_pow2; [lia|]. rewrite digits_log2 in Hc. lia.
Qed.

Lemma to_bits_inj x y : valid x = true -> valid y = true -> to_bits x = to_bits y -> x = y.
Proof.
  intros Hx Hy. destruct x as [s|s| |s m e], y as [s'|s'| |s' m' e']; cbn [to_bits];
    try pose proof (finite_bits _ _ _ Hx); try pose proof (finite_bits _ _ _ Hy); try lia;
    destruct s || idtac; destruct s' || idtac; try done; try lia; intros H1.
  all: destruct (finite_valid _ _ _ Hx), (finite_valid _ _ _ Hy), (normal_mantissa _ _ _ Hx), (normal_mantissa _ _ _ Hy).
  all: assert (e = e') as -> by lia; f_equal; lia.
Qed.

Lemma eq_rank a b : Number.eq a b = true <-> rank a = rank b.
Proof.
  unfold Number.eq, Number.is_nan. destruct (is_nan_f64 a) eqn:Ha; [|destruct (is_nan_f64 b) eqn:Hb].
  - destruct a; try done. destruct b as [s|s| |s m e]; try done; destruct s; try done.
  - destruct b; try done. destruct a as [s|s| |s m e]; try done; destruct s; try done.
  - cbn [andb]. rewrite orb_false_r. unfold SFeqb. rewrite SFcompare_rank by done.
    destruct (lex_spec (rank a) (rank b)) as [E|E|E]; [done|split; [done|intros E'; rewrite E' in E; lia]..].
Qed.

Lemma rank_inj a b : rank a = rank b -> a = b \/ exists s s', a = S754_zero s /\ b = S754_zero s'.
Proof.
  destruct a as [s|s| |s m e], b as [s'|s'| |s' m' e']; cbn; intros H; try (by destruct s); try (by destruct s');
    try (by destruct s, s'; try done; left); [right; by exists s, s'|by left|left].
  destruct s, s'; cbn in H; try done; injection H; intros; f_equal; lia.
Qed.

Lemma hash_key_zero s : Number.hash_key (S754_zero s) = 0.
Proof. by destruct s. Qed.

Lemma hash_key_bits x : (forall s, x <> S754_zero s) -> Number.hash_key x = to_bits x.
Proof.
  intros Hx. unfold Number.hash_key. destruct (SFeqb x (S754_zero false)) eqn:E.
  - apply SFeqb_true in E as [->|(s & s' & -> & _)]; [|by destruct (Hx s)]. by destruct (Hx false).
  - by destruct x.
Qed.

Lemma to_bits_zero x : valid x = true -> to_bits x = 0 -> exists s, x = S754_zero s.
Proof.
  intros Hx. destruct x as [s|s| |s m e]; [by exists s|by destruct s|done|].
  pose proof (finite_bits _ _ _ Hx). cbn [to_bits]. destruct s; lia.
Qed.

Lemma hash_key_inj a b : valid a = true -> valid b = true -> Number.hash_key a = Number.hash_key b -> rank a = rank b.
Proof.
  intros Ha Hb. assert (forall x, (exists s, x = S754_zero s) \/ forall s, x <> S754_zero s) as Hz.
  { intros [s|s| |s m e]; [left; by exists s|by right..]. }
  destruct (Hz a) as [[s ->]|Hna], (Hz b) as [[s' ->]|Hnb]; rewrite ?hash_key_zero, ?(hash_key_bits a), ?(hash_key_bits b) by done.
  - done.
  - intros H. symmetry in H. apply to_bits_zero in H as [s'' ->]; [by destruct (Hnb s'')|done].
  - intros H. apply to_bits_zero in H as [s'' ->]; [by destruct (Hna s'')|done].
  - intros H. by rewrite (to_bits_inj a b).
Qed.

(** [compare] is a total preorder of all numbers, with the zeros equal and NaN equal to itself and last; two numbers
    compare equal exactly when [PartialEq] says so, and for numbers in canonical form exactly when they hash alike, so
    that they can be keys of a map. *)
Theorem number_order (a b c : f64) :
  Number.compare b a = - Number.compare a b
  /\ (Number.compare a b <= 0 -> Number.compare b c <= 0 -> Number.compare a c <= 0)
  /\ (Number.compare a b = 0 <-> Number.eq a b = true)
  /\ (valid a = true -> valid b = true -> (Number.eq a b = true <-> Number.hash_key a = Number.hash_key b)).
Proof.
  rewrite !compare_rank, eq_rank. split_and!.
  - destruct (lex_spec (rank a) (rank b)), (lex_spec (rank b) (rank a)); try done; exfalso; try lia.
    all: match goal with E : rank _ = rank _, H : _ \/ _ |- _ => rewrite E in H; lia end.
  - destruct (lex_spec (rank a) (rank b)) as [E1|E1|E1], (lex_spec (rank b) (rank c)) as [E2|E2|E2],
      (lex_spec (rank a) (rank c)) as [E3|E3|E3]; try lia; intros _ _; exfalso.
    all: repeat match goal with E : rank _ = rank _, H : _ \/ _ |- _ => rewrite E in H; clear E end; lia.
  - destruct (lex_spec (rank a) (rank b)) as [E|E|E]; [done|split; [lia|intros E'; rewrite E' in E; lia]..].
  - intros Ha Hb. split; [|by apply hash_key_inj].
    intros [->|(s & s' & -> & ->)]%rank_inj; [done|]. by rewrite !hash_key_zero.
Qed.

(** ** Integers with a prefix *)
Lemma f64_of_pos p : 0 < p < 2 ^ 53 -> f64_of_Z p = int_double false p.
Proof.
  intros Hp. rewrite f64_of_Z_int, (proj2 (Z.eqb_neq _ _)), (proj2 (Z.ltb_ge _ _)), Z.abs_eq by lia. done.
Qed.

Lemma f64_mul_exact a b : 0 <= a -> 0 <= b -> a < 2 ^ 53 -> b < 2 ^ 53 -> a * b < 2 ^ 53 -> f64_mul (f64_of_Z a) (f64_of_Z b) = f64_of_Z (a * b).
Proof.
  intros Ha Hb Ha2 Hb2 Hab. destruct (decide (a = 0)) as [->|Ha0].
  { change (f64_of_Z 0) with (S754_zero false). destruct (decide (b = 0)) as [->|]; [done|]. rewrite (f64_of_pos b) by lia. done. }
  destruct (decide (b = 0)) as [->|Hb0]; [rewrite Z.mul_0_r, (f64_of_pos a) by lia; done|].
  rewrite !f64_of_pos by nia. unfold int_double, f64_mul, SFmul. cbn [xorb].
  pose proof (int_digits_range a ltac:(lia)) as Hda. pose proof (int_digits_range b ltac:(lia)) as Hdb.
  pose proof (int_digits_range (a * b) ltac:(nia)) as Hdab.
  assert (int_digits a + int_digits b - 1 <= int_digits (a * b)) as Hlog.
  { unfold int_digits. pose proof (Z.log2_mul_below a b ltac:(lia) ltac:(lia)). lia. }
  set (da := int_digits a) in *. set (db := int_digits b) in *. set (d := int_digits (a * b)) in *.
  assert (0 < 2 ^ (53 - da)) by (apply Z.pow_pos_nonneg; lia). assert (0 < 2 ^ (53 - db)) by (apply Z.pow_pos_nonneg; lia).
  assert (0 < 2 ^ (53 - d)) by (apply Z.pow_pos_nonneg; lia).
  assert (Z.pos (Z.to_pos (a * 2 ^ (53 - da)) * Z.to_pos (b * 2 ^ (53 - db))) = a * b * 2 ^ (106 - da - db)) as Hm.
  { rewrite Pos2Z.inj_mul, !Z2Pos.id by nia. replace (106 - da - db) with (53 - da + (53 - db)) by lia.
    rewrite Z.pow_add_r by lia. ring. }
  set (m := (Z.to_pos _ * Z.to_pos _)%positive) in *. replace (da - 53 + (db - 53)) with (da + db - 106) by lia.
  assert (target m (da + db - 106) = d - 53) as Ht.
  { apply int_target; [nia|]. rewrite digits_log2, Hm, Z.log2_mul_pow2 by nia. unfold d, int_digits. lia. }
  rewrite (round_aux_exact _ (Z.to_pos (a * b * 2 ^ (53 - d)))); rewrite ?Ht; [done|lia| |unfold emax, prec; lia].
  rewrite Hm, Z2Pos.id by nia. replace (106 - da - db) with (53 - d + (d - 53 - (da + db - 106))) by lia.
  rewrite Z.pow_add_r by lia. ring.
Qed.

Lemma shl_align_value m e em : em <= e -> Z.pos (fst (shl_align m e em)) = Z.pos m * 2 ^ (e - em).
Proof.
  intros He. unfold shl_align. destruct (em - e) as [|d|d] eqn:Ed; cbn [fst]; [|lia|].
  - replace (e - em) with 0 by lia. lia.
  - rewrite pos_iter_xO. f_equal. f_equal. lia.
Qed.

Lemma f64_add_exact a b : 0 <= a -> 0 <= b -> a + b < 2 ^ 53 -> f64_add (f64_of_Z a) (f64_of_Z b) = f64_of_Z (a + b).
Proof.
  intros Ha Hb Hab. destruct (decide (a = 0)) as [->|Ha0].
  { change (f64_of_Z 0) with (S754_zero false). rewrite Z.add_0_l. destruct (decide (b = 0)) as [->|]; [done|]. rewrite (f64_of_pos b) by lia. done. }
  destruct (decide (b = 0)) as [->|Hb0]; [rewrite Z.add_0_r, (f64_of_pos a) by lia; done|].
  rewrite !f64_of_pos by lia. pose proof (int_double_value false a ltac:(lia)) as Hva. pose proof (int_double_value false b ltac:(lia)) as Hvb.
  pose proof (int_digits_range a ltac:(lia)). pose proof (int_digits_range b ltac:(lia)).
  unfold int_double, f64_add, SFadd in *. set (ma := Z.to_pos (a * _)) in *. set (mb := Z.to_pos (b * _)) in *.
  set (ea := int_digits a - 53) in *. set (eb := int_digits b - 53) in *. set (em := Z.min ea eb). cbn [cond_Zopp].
  rewrite !shl_align_value by lia.
  destruct (is_int_scaled _ _ _ _ em Hva) as [-> _]; [lia..|]. destruct (is_int_scaled _ _ _ _ em Hvb) as [-> _]; [lia..|].
  cbn [signed]. rewrite !Z.abs_eq, <- Z.mul_add_distr_r by lia. replace em with (- - em) at 2 by lia.
  rewrite int_normalize, (proj2 (Z.eqb_neq _ _)), (proj2 (Z.ltb_ge _ _)), Z.abs_eq by lia. done.
Qed.

Lemma to_digit_bounds radix ch d : to_digit radix ch = Some d -> 0 <= d < radix.
Proof. apply to_digit_range. Qed.

Lemma digits_value_le radix v digits r : 1 <= radix -> 0 <= v -> digits_value radix v digits = Some r -> v <= r.
Proof.
  intros Hr. revert v. induction digits as [|ch digits IH]; intros v Hv; cbn [digits_value]; [intros [= ->]; lia|].
  destruct (ch =? 95); [by apply IH|]. destruct (to_digit radix ch) as [d|] eqn:Ed; [|done]. cbn [mbind option_bind].
  pose proof (to_digit_bounds _ _ _ Ed). intros Hd. apply IH in Hd; nia.
Qed.

Lemma prefixed_digits_exact radix v digits r :
  1 <= radix <= 16 -> 0 <= v -> digits_value radix v digits = Some r -> r < 2 ^ 53 ->
  Number.prefixed_digits radix (f64_of_Z v) digits = Some (f64_of_Z r).
Proof.
  intros Hr. revert v. induction digits as [|ch digits IH]; intros v Hv; cbn [digits_value Number.prefixed_digits]; [by intros [= ->]|].
  destruct (ch =? 95); [by apply IH|]. destruct (to_digit radix ch) as [d|] eqn:Ed; [|done]. cbn [mbind option_bind].
  pose proof (to_digit_bounds _ _ _ Ed). intros Hd Hlt.
  assert (v * radix + d <= r) by (eapply digits_value_le; [| |exact Hd]; nia).
  rewrite f64_mul_exact, f64_add_exact by nia. apply IH; [nia|done|done].
Qed.

Lemma split_radix_letter p radix digits : RadixLetter p radix -> Number.split_radix (chr "0" :: p :: digits) = Some (digits, radix).
Proof. by intros []. Qed.

(** C33. A binary, octal or hexadecimal numeral ([0b], [0o] or [0x] in either case) with blanks around it and separators in
    it denotes the number of its digits exactly, below 2^53. *)
Theorem prefixed_integer_exact `{FloatLib} (text digits : str) (p : char) (radix v : Z) :
  trim text = chr "0" :: p :: digits -> RadixLetter p radix -> digits_value radix 0 digits = Some v -> v < 2 ^ 53 ->
  represents (Number.from_string text) v.
Proof.
  intros Ht Hp Hd Hv. pose proof (radix_letter_range p radix Hp).
  assert (0 <= v) by (eapply digits_value_le; [| |exact Hd]; lia).
  unfold Number.from_string, Number.try_parse_prefixed_integer. rewrite Ht, (split_radix_letter p radix) by done.
  cbn [mbind option_bind]. rewrite (prefixed_digits_exact _ _ _ v) by (done || lia). apply f64_of_Z_spec. lia.
Qed.

(** Above it the rounding of every step adds up: the last bits decide how a number halfway between two doubles is
    rounded, and they are lost. *)
Example prefixed_integer_rounded_twice :
  Number.try_parse_prefixed_integer (bstr "0x200000000000018") = Some (f64_of_Z (2 ^ 57))
  /\ f64_of_Z (2 ^ 57 + 24) = f64_of_Z (2 ^ 57 + 32) /\ SFeqb (f64_of_Z (2 ^ 57)) (f64_of_Z (2 ^ 57 + 32)) = false.
Proof. by vm_compute. Qed.

(** ** Operations on doubles give doubles

    [valid] is kept by rounding, and so by all operations. *)
Definition zdigits (m : Z) : Z := Zdigits2 m.

Lemma zdigits_log2 m : 0 < m -> zdigits m = Z.log2 m + 1.
Proof. destruct m as [|m|m]; try lia. intros _. apply digits_log2. Qed.

Lemma zdigits_nonneg m : 0 <= zdigits m.
Proof. destruct m; cbn; lia. Qed.

Lemma zdigits_mono a b : 0 <= a <= b -> zdigits a <= zdigits b.
Proof.
  intros Hab. destruct (decide (a = 0)) as [->|]; [apply zdigits_nonneg|].
  rewrite !zdigits_log2 by lia. pose proof (Z.log2_le_mono a b). lia.
Qed.

Lemma zdigits_div m k : 0 <= m -> 0 <= k -> zdigits (m / 2 ^ k) = Z.max 0 (zdigits m - k).
Proof.
  intros Hm Hk. destruct (decide (m = 0)) as [->|Hm0]; [rewrite Z.div_0_l by lia; change (zdigits 0) with 0; lia|].
  rewrite (zdigits_log2 m), <- Z.shiftr_div_pow2 by lia. pose proof (Z.log2_nonneg m).
  destruct (decide (Z.shiftr m k = 0)) as [E|E].
  - rewrite E. apply Z.shiftr_eq_0_iff in E as [|[_ E]]; [lia|]. change (zdigits 0) with 0. lia.
  - assert (0 < Z.shiftr m k) as Hs by (pose proof (proj2 (Z.shiftr_nonneg m k)); lia).
    rewrite zdigits_log2, Z.log2_shiftr by lia.
    assert (~ (0 < m /\ Z.log2 m < k)) by (intros Hl; apply E, Z.shiftr_eq_0_iff; by right). lia.
Qed.

Lemma shr_1_div mrs : 0 <= shr_m mrs -> shr_m (shr_1 mrs) = shr_m mrs / 2.
Proof. rewrite <- Z.div2_div. by destruct mrs as [[|[p|p|]|p] r s]. Qed.

Lemma iter_shr_div n mrs : 0 <= shr_m mrs -> shr_m (SpecFloat.iter_pos shr_1 n mrs) = shr_m mrs / 2 ^ Z.pos n.
Proof.
  assert (forall k, 0 < 2 ^ Z.pos k) as Hp by (intros; by apply Z.pow_pos_nonneg).
  assert (forall z k, 0 <= z -> 0 <= z / 2 ^ Z.pos k) as Hq by (intros; by apply Z.div_pos).
  revert mrs. induction n as [n IH|n IH|]; intros mrs Hm; cbn [SpecFloat.iter_pos]; [| |by apply shr_1_div].
  - pose proof (shr_1_div mrs Hm) as H1. change 2 with (2 ^ Z.pos 1) in H1 at 1.
    assert (0 <= shr_m (shr_1 mrs)) as Hm1 by (rewrite H1; by apply Hq).
    rewrite IH, IH, H1, !Z.div_div by (rewrite ?IH; auto; specialize (Hp n); lia). f_equal.
    rewrite (Pos2Z.inj_xI n), <- !Z.pow_add_r by lia. f_equal. lia.
  - rewrite IH, IH, Z.div_div by (rewrite ?IH; auto; specialize (Hp n); lia). f_equal.
    rewrite (Pos2Z.inj_xO n), <- Z.pow_add_r by lia. f_equal. lia.
Qed.

Lemma shr_fexp_div m e l :
  0 <= m -> let t := fexp (zdigits m + e) in e <= t ->
  exists mrs, shr_fexp prec emax m e l = (mrs, t) /\ shr_m mrs = m / 2 ^ (t - e).
Proof.
  intros Hm t Ht. assert (shr_m (shr_record_of_loc m l) = m) as Hl by (by destruct l as [|[]]).
  unfold shr_fexp. fold (zdigits m). fold t. destruct (t - e) as [|n|n] eqn:E; cbn [shr]; [| |lia];
    eexists; (split; [f_equal; lia|]).
  - by rewrite Hl, Z.div_1_r.
  - by rewrite iter_shr_div; rewrite Hl.
Qed.

(** [e] is no finer than the canonical exponent of [m * 2 ^ e]: what rounding expects. *)
Definition scaled (m e : Z) : Prop := e <= fexp (zdigits m + e).

Lemma shr_fexp_scaled m e l :
  0 <= m -> scaled m e ->
  exists mrs t, shr_fexp prec emax m e l = (mrs, t) /\ 0 <= shr_m mrs /\ fexp (zdigits (shr_m mrs) + t) = t.
Proof.
  intros Hm Hs. destruct (shr_fexp_div m e l Hm Hs) as (mrs & E & Hd). eexists mrs, _. split; [exact E|].
  rewrite Hd. unfold scaled in Hs. set (t := fexp (zdigits m + e)) in *.
  assert (0 < 2 ^ (t - e)) by (apply Z.pow_pos_nonneg; lia). split; [by apply Z.div_pos|].
  rewrite zdigits_div by lia. unfold t, SpecFloat.fexp, emin, prec, emax in *. lia.
Qed.

Lemma binary_round_aux_valid s m e l : 0 <= m -> scaled m e -> valid (binary_round_aux prec emax s m e l) = true.
Proof.
  intros Hm Hs. unfold binary_round_aux. destruct (shr_fexp_scaled m e l Hm Hs) as (r1 & t1 & -> & H1 & Ht1).
  set (m2 := round_nearest_even _ _).
  assert (0 <= m2 /\ zdigits (shr_m r1) <= zdigits m2) as [Hm2 Hd].
  { assert (shr_m r1 <= m2) by (unfold m2, round_nearest_even; repeat case_match; lia).
    split; [lia|]. by apply zdigits_mono. }
  assert (scaled m2 t1) as Hs2 by (unfold scaled, SpecFloat.fexp in *; lia).
  destruct (shr_fexp_scaled m2 t1 loc_Exact Hm2 Hs2) as (r2 & t2 & -> & H2 & Ht2).
  destruct (shr_m r2) as [|p|p]; [done| |done]. destruct (t2 <=? emax - prec) eqn:Ele; [|done].
  cbn. unfold bounded, canonical_mantissa. change (Z.pos (digits2_pos p)) with (zdigits (Z.pos p)).
  by rewrite Ht2, Z.eqb_refl, Ele.
Qed.

Lemma binary_round_valid s m e : valid (binary_round prec emax s m e) = true.
Proof.
  unfold binary_round, shl_align. fold (target m e). destruct (target m e - e) as [|d|d] eqn:E.
  - apply binary_round_aux_valid; [lia|]. unfold scaled, target in *. cbn [zdigits Zdigits2]. lia.
  - apply binary_round_aux_valid; [lia|]. unfold scaled, target in *. cbn [zdigits Zdigits2]. lia.
  - apply binary_round_aux_valid; [lia|]. unfold scaled. change (zdigits (Z.pos ?p)) with (Z.pos (digits2_pos p)).
    rewrite (digits_mul_pow2 m _ (Z.pos d)) by (lia || apply pos_iter_xO).
    replace (Z.pos (digits2_pos m) + Z.pos d + target m e) with (Z.pos (digits2_pos m) + e) by lia. unfold target. lia.
Qed.

Lemma binary_normalize_valid m e s : valid (binary_normalize prec emax m e s) = true.
Proof. destruct m; [done|apply binary_round_valid..]. Qed.

Lemma f64_of_Z_valid z : valid (f64_of_Z z) = true.
Proof. apply binary_normalize_valid. Qed.

Lemma SFopp_valid x : valid (SFopp x) = valid x.
Proof. by destruct x. Qed.

Lemma f64_add_valid x y : valid x = true -> valid y = true -> valid (f64_add x y) = true.
Proof.
  intros Hx Hy. destruct x as [[]|[]| |], y as [[]|[]| |]; try done; exact (binary_normalize_valid _ _ _).
Qed.

Lemma f64_sub_valid x y : valid x = true -> valid y = true -> valid (f64_sub x y) = true.
Proof.
  intros Hx Hy. destruct x as [[]|[]| |], y as [[]|[]| |]; try done; exact (binary_normalize_valid _ _ _).
Qed.

Lemma f64_rem_valid x y : valid x = true -> valid (f64_rem x y) = true.
Proof. intros Hx. destruct x, y; try done; exact (binary_normalize_valid _ _ _). Qed.

Lemma f64_trunc_valid x : valid x = true -> valid (f64_trunc x) = true.
Proof. intros Hx. destruct x as [| | |s m e]; try done. cbn. destruct (0 <=? e); [done|apply binary_normalize_valid]. Qed.

Lemma f64_mul_valid x y : valid x = true -> valid y = true -> valid (f64_mul x y) = true.
Proof.
  intros Hx Hy. destruct x as [| | |sx mx ex], y as [| | |sy my ey]; try done.
  cbn [f64_mul SFmul]. apply binary_round_aux_valid; [lia|]. cbn in Hx, Hy.
  apply andb_true_iff in Hx as [Hx _], Hy as [Hy _]. apply Z.eqb_eq in Hx, Hy.
  pose proof (zdigits_mono (Z.pos mx) (Z.pos (mx * my)) ltac:(rewrite Pos2Z.inj_mul; nia)) as H1.
  pose proof (zdigits_mono (Z.pos my) (Z.pos (mx * my)) ltac:(rewrite Pos2Z.inj_mul; nia)) as H2.
  unfold scaled. change (Z.pos (digits2_pos mx)) with (zdigits (Z.pos mx)) in Hx. change (Z.pos (digits2_pos my)) with (zdigits (Z.pos my)) in Hy.
  unfold SpecFloat.fexp, emin, prec, emax in *. lia.
Qed.

Lemma zdigits_quotient a b : 0 < a -> 0 < b -> zdigits a - zdigits b <= zdigits (a / b).
Proof.
  intros Ha Hb. rewrite (zdigits_log2 a), (zdigits_log2 b) by done. destruct (decide (a < b)).
  - rewrite Z.div_small by lia. pose proof (Z.log2_le_mono a b). change (zdigits 0) with 0. lia.
  - assert (0 < a / b) by (apply Z.div_str_pos; lia). rewrite zdigits_log2 by done.
    pose proof (Z.log2_spec a Ha). pose proof (Z.log2_spec b Hb). pose proof (Z.log2_spec (a / b) ltac:(done)).
    destruct (decide (Z.log2 a - Z.log2 b <= Z.log2 (a / b) + 1)); [lia|exfalso].
    pose proof (Z.log2_nonneg a). pose proof (Z.log2_nonneg b). pose proof (Z.log2_nonneg (a / b)).
    assert (a < b * 2 ^ Z.succ (Z.log2 (a / b))) as Hlt.
    { pose proof (Z.mul_succ_div_gt a b ltac:(lia)). nia. }
    assert (b * 2 ^ Z.succ (Z.log2 (a / b)) <= 2 ^ Z.succ (Z.log2 b) * 2 ^ Z.succ (Z.log2 (a / b))) by (apply Z.mul_le_mono_nonneg_r; lia).
    rewrite <- Z.pow_add_r in * by lia.
    assert (2 ^ (Z.succ (Z.log2 b) + Z.succ (Z.log2 (a / b))) <= 2 ^ Z.log2 a) by (apply Z.pow_le_mono_r; lia). lia.
Qed.

Lemma f64_div_valid x y : valid x = true -> valid y = true -> valid (f64_div x y) = true.
Proof.
  intros Hx Hy. destruct x as [| | |sx m1 e1], y as [| | |sy m2 e2]; try done. clear Hx Hy.
  unfold f64_div, SFdiv, SFdiv_core_binary. fold (zdigits (Z.pos m1)) (zdigits (Z.pos m2)).
  set (e' := Z.min _ _). set (s := e1 - e2 - e'). assert (0 <= s) as Hs by lia.
  assert (match s with Z.pos _ => Z.shiftl (Z.pos m1) s | Z0 => Z.pos m1 | Z.neg _ => 0 end = Z.pos m1 * 2 ^ s) as ->.
  { destruct s; [lia|by rewrite Z.shiftl_mul_pow2 by lia|lia]. }
  assert (0 < 2 ^ s) by (by apply Z.pow_pos_nonneg).
  pose proof (zdigits_quotient (Z.pos m1 * 2 ^ s) (Z.pos m2) ltac:(lia) ltac:(lia)) as Hq.
  assert (zdigits (Z.pos m1 * 2 ^ s) = zdigits (Z.pos m1) + s) as Hd.
  { rewrite !zdigits_log2, Z.log2_mul_pow2 by lia. lia. }
  assert (0 <= Z.pos m1 * 2 ^ s / Z.pos m2) by (apply Z.div_pos; lia).
  unfold Z.div in Hq, H0. destruct (Z.div_eucl _ _) as [q r]. apply binary_round_aux_valid; [done|].
  unfold scaled. unfold SpecFloat.fexp in *. lia.
Qed.

Lemma prefixed_digits_valid radix x digits y :
  valid x = true -> Number.prefixed_digits radix x digits = Some y -> valid y = true.
Proof.
  revert x. induction digits as [|ch digits IH]; intros x Hx; cbn [Number.prefixed_digits]; [by intros [= <-]|].
  destruct (ch =? chr "_"); [by apply IH|]. destruct (to_digit radix ch) as [d|]; [|done]. cbn [mbind option_bind].
  apply IH, f64_add_valid; [apply f64_mul_valid; [done|]|]; apply f64_of_Z_valid.
Qed.

(** ** Operators of the language

    The number operators as ECMAScript defines them, on doubles: the arithmetic of IEEE 754, and integers modulo 2^32
    for the bits. [**] is the [powf] of the standard library, which gives 1 for a power of 1 and of -1 that is NaN or
    infinite where ECMAScript gives NaN. *)
Definition int32 (x : f64) : Z := as_i32 (number_int x).
Definition shift_count (x : f64) : Z := number_int x mod 32.

Inductive JsUnary (x : f64) : Kind -> f64 -> Prop :=
  | js_plus : JsUnary x Kind.PlusToken x
  | js_minus : JsUnary x Kind.MinusToken (SFopp x)
  | js_not : JsUnary x Kind.TildeToken (f64_of_Z (- int32 x - 1)).

Inductive JsBinary `{FloatLib} (x y : f64) : Kind -> f64 -> Prop :=
  | js_or : JsBinary x y Kind.BarToken (f64_of_Z (Z.lor (int32 x) (int32 y)))
  | js_and : JsBinary x y Kind.AmpersandToken (f64_of_Z (Z.land (int32 x) (int32 y)))
  | js_xor : JsBinary x y Kind.CaretToken (f64_of_Z (Z.lxor (int32 x) (int32 y)))
  | js_left : JsBinary x y Kind.LessThanLessThanToken (f64_of_Z (as_i32 (int32 x * 2 ^ shift_count y)))
  | js_right : JsBinary x y Kind.GreaterThanGreaterThanToken (f64_of_Z (int32 x / 2 ^ shift_count y))
  | js_right_unsigned :
      JsBinary x y Kind.GreaterThanGreaterThanGreaterThanToken (f64_of_Z (int32 x mod 2 ^ 32 / 2 ^ shift_count y))
  | js_times : JsBinary x y Kind.AsteriskToken (SFmul 53 1024 x y)
  | js_over : JsBinary x y Kind.SlashToken (SFdiv 53 1024 x y)
  | js_add : JsBinary x y Kind.PlusToken (SFadd 53 1024 x y)
  | js_subtract : JsBinary x y Kind.MinusToken (SFsub 53 1024 x y)
  | js_remainder : JsBinary x y Kind.PercentToken (f64_rem x y)
  | js_power : JsBinary x y Kind.AsteriskAsteriskToken (f64_powf x y).

Lemma bit_values x y :
  valid x = true -> valid y = true ->
  Number.bitwise_not x = f64_of_Z (- int32 x - 1)
  /\ Number.bitwise_or x y = f64_of_Z (Z.lor (int32 x) (int32 y))
  /\ Number.bitwise_and x y = f64_of_Z (Z.land (int32 x) (int32 y))
  /\ Number.bitwise_xor x y = f64_of_Z (Z.lxor (int32 x) (int32 y))
  /\ Number.left_shift x y = f64_of_Z (as_i32 (int32 x * 2 ^ shift_count y))
  /\ Number.signed_right_shift x y = f64_of_Z (int32 x / 2 ^ shift_count y)
  /\ Number.unsigned_right_shift x y = f64_of_Z (int32 x mod 2 ^ 32 / 2 ^ shift_count y).
Proof.
  intros Hx Hy. pose proof (Z.mod_pos_bound (number_int y) 32 ltac:(lia)) as Hn.
  unfold Number.bitwise_not, Number.bitwise_or, Number.bitwise_and, Number.bitwise_xor, Number.left_shift,
    Number.signed_right_shift, Number.unsigned_right_shift, Number.to_uint32, int32, shift_count.
  rewrite !to_int32_value, !shift_count_value by done. rewrite !Z.shiftr_div_pow2, Z.shiftl_mul_pow2 by lia.
  by split_and!.
Qed.

(** ** Text of numbers *)

(** Decimal digits of an integer. *)
Definition int_text (z : Z) : str := (if z <? 0 then bstr "-" else []) ++ to_decimal (Z.abs z).

(** The digits of scientific notation: a sign, a digit, and others after a point that do not end in zero. *)
Inductive Significand : str -> Prop :=
  | significand_sign s : Significand s -> head s <> Some (chr "-") -> Significand (chr "-" :: s)
  | significand_digit d : 49 <= d <= 57 -> Significand [d]
  | significand_point d ds last :
      49 <= d <= 57 -> Forall (fun d => 48 <= d <= 57) ds -> 49 <= last <= 57 ->
      Significand (d :: chr "." :: ds ++ [last]).

Definition scientific `{FloatLib} (x : f64) (digits : str) (k : Z) : Prop :=
  Significand digits /\ -324 <= k <= 308 /\ format_exponential x = digits ++ chr "e" :: int_text k.

(** What the standard library documents: [parse] and [powf] give doubles, [{:.0}] the digits of an integer, [{:e}]
    scientific notation. *)
Class FloatLaws `{FloatLib} : Prop := {
  parse_f64_valid text x : parse_f64 text = Some x -> valid x = true;
  f64_powf_valid x y : valid x = true -> valid y = true -> valid (f64_powf x y) = true;
  format_integer_text x z : valid x = true -> is_int x z -> z <> 0 -> format_integer x = int_text z;
  format_exponential_text s m e :
    valid (S754_finite s m e) = true -> exists digits k, scientific (S754_finite s m e) digits k;
}.

(** At least 10^21, or below 10^-6. *)
Definition far (x : f64) : Prop :=
  SFleb (f64_of_Z (10 ^ 21)) (SFabs x) = true \/ SFltb (SFabs x) (f64_div (f64_of_Z 1) (f64_of_Z (10 ^ 6))) = true.

(** The text of a number: an integer below 10^21 by its digits (all of them: from 2^53 on ECMAScript has zeros after the
    digits that tell the double apart), other numbers from 10^-6 up to there with a point, and the rest in scientific
    notation with the sign of the exponent. *)
Inductive NumberText `{FloatLib} : f64 -> str -> Prop :=
  | text_nan : NumberText S754_nan (bstr "NaN")
  | text_infinity : NumberText (S754_infinity false) (bstr "Infinity")
  | text_minus_infinity : NumberText (S754_infinity true) (bstr "-Infinity")
  | text_zero s : NumberText (S754_zero s) (bstr "0")
  | text_integer x z : is_int x z -> z <> 0 -> ~ far x -> NumberText x (int_text z)
  | text_fraction s m e :
      (forall z, ~ is_int (S754_finite s m e) z) -> ~ far (S754_finite s m e) ->
      NumberText (S754_finite s m e) (format_f64 (S754_finite s m e))
  | text_scientific s m e digits k :
      far (S754_finite s m e) -> scientific (S754_finite s m e) digits k ->
      NumberText (S754_finite s m e)
        (digits ++ chr "e" :: (if k <? 0 then chr "-" else chr "+") :: to_decimal (Z.abs k)).

(** *** The fraction of a number *)
Lemma shr_fexp_positive m e l :
  0 < m -> scaled m e -> emin prec emax <= e ->
  exists mrs t, shr_fexp prec emax m e l = (mrs, t) /\ 0 < shr_m mrs /\ e <= t /\ fexp (zdigits (shr_m mrs) + t) = t.
Proof.
  intros Hm Hs He. destruct (shr_fexp_scaled m e l ltac:(lia) Hs) as (mrs & t & E & Hn & Ht).
  destruct (shr_fexp_div m e l ltac:(lia) Hs) as (mrs' & E' & Hd). rewrite E in E'. injection E' as <- ->.
  eexists _, _. split; [done|]. split; [|by split]. rewrite Hd in Hn |- *.
  assert (zdigits (m / 2 ^ (fexp (zdigits m + e) - e)) <> 0) as Hz.
  { rewrite zdigits_div by (unfold scaled in Hs; lia). rewrite zdigits_log2 by done. pose proof (Z.log2_nonneg m).
    unfold SpecFloat.fexp, emin, prec, emax in *. lia. }
  destruct (decide (m / 2 ^ (fexp (zdigits m + e) - e) = 0)) as [E0|]; [by rewrite E0 in Hz|lia].
Qed.

Lemma binary_round_aux_nonzero s m e :
  0 < m -> scaled m e -> emin prec emax <= e ->
  SFeqb (binary_round_aux prec emax s m e loc_Exact) (S754_zero false) = false.
Proof.
  intros Hm Hs He. unfold binary_round_aux. destruct (shr_fexp_positive m e loc_Exact Hm Hs He) as (r1 & t1 & -> & H1 & Ht1 & Hc).
  set (m2 := round_nearest_even _ _). assert (shr_m r1 <= m2) by (unfold m2, round_nearest_even; repeat case_match; lia).
  pose proof (zdigits_mono (shr_m r1) m2 ltac:(lia)).
  destruct (shr_fexp_positive m2 t1 loc_Exact) as (r2 & t2 & -> & H2 & _); [lia|unfold scaled, SpecFloat.fexp in *; lia|lia|].
  destruct (shr_m r2) as [|p|p]; [lia| |lia]. destruct (t2 <=? _); by destruct s.
Qed.

Lemma binary_normalize_nonzero m e s :
  m <> 0 -> emin prec emax <= e -> SFeqb (binary_normalize prec emax m e s) (S754_zero false) = false.
Proof.
  assert (forall s p, emin prec emax <= e -> SFeqb (binary_round prec emax s p e) (S754_zero false) = false) as Hr.
  { intros s' p He. unfold binary_round, shl_align. fold (target p e). destruct (target p e - e) as [|d|d] eqn:E.
    - apply binary_round_aux_nonzero; [lia| |done]. unfold scaled, target in *. cbn [zdigits Zdigits2]. lia.
    - apply binary_round_aux_nonzero; [lia| |done]. unfold scaled, target in *. cbn [zdigits Zdigits2]. lia.
    - apply binary_round_aux_nonzero; [lia| |unfold target, SpecFloat.fexp in *; lia].
      unfold scaled. change (zdigits (Z.pos ?p)) with (Z.pos (digits2_pos p)).
      rewrite (digits_mul_pow2 p _ (Z.pos d)) by (lia || apply pos_iter_xO).
      replace (Z.pos (digits2_pos p) + Z.pos d + target p e) with (Z.pos (digits2_pos p) + e) by lia. unfold target. lia. }
  intros Hm He. destruct m; [done|by apply Hr..].
Qed.

Lemma f64_sub_diag x : (match x with S754_finite _ _ _ => True | _ => False end) -> SFeqb (f64_sub x x) (S754_zero false) = true.
Proof.
  destruct x as [| | |s m e]; try done. intros _. unfold f64_sub, SFsub. rewrite Z.min_id, Z.sub_diag. done.
Qed.

Lemma trunc_of_int s m e z :
  valid (S754_finite s m e) = true -> is_int (S754_finite s m e) z -> f64_trunc (S754_finite s m e) = S754_finite s m e.
Proof.
  intros Hv Hz. destruct (0 <=? e) eqn:E; [cbn; by rewrite E|].
  pose proof (f64_trunc_int s m e Hv) as Ht. pose proof (is_int_number_int _ _ Hz) as Hn. cbn [number_int] in Hn. rewrite Hn in Ht.
  destruct (finite_valid _ _ _ Hv) as [Hm _]. pose proof Hz as Hs. cbn in Hs. rewrite E in Hs. bool_to_prop.
  assert (0 < 2 ^ (- e)) by (apply Z.pow_pos_nonneg; lia). assert (0 < Z.abs z < 2 ^ 53) by (unfold signed in Hs; destruct s; nia).
  rewrite (is_int_unique _ _ (f64_trunc_valid _ Hv) Ht) by done. symmetry. by apply is_int_unique.
Qed.

(** Only an integer has no fraction. *)
Lemma fract_zero s m e :
  valid (S754_finite s m e) = true ->
  SFeqb (f64_fract (S754_finite s m e)) (S754_zero false) = true <-> exists z, is_int (S754_finite s m e) z.
Proof.
  intros Hv. unfold f64_fract. split.
  2:{ intros [z Hz]. rewrite (trunc_of_int _ _ _ z) by done. by apply f64_sub_diag. }
  intros Hf. destruct (0 <=? e) eqn:E; [by eexists; cbn; rewrite E|]. exists (integer_part s m e).
  pose proof (f64_trunc_int s m e Hv) as Ht. pose proof (f64_trunc_valid _ Hv) as Htv.
  set (ip := integer_part s m e) in *. cbn [is_int]. rewrite E. bool_to_prop. destruct (finite_valid _ _ _ Hv) as [_ He].
  destruct (f64_trunc (S754_finite s m e)) as [s'|s'| |s' m' e']; try done; [by destruct s, s'|].
  destruct (finite_valid _ _ _ Htv) as [_ He']. unfold f64_sub, SFsub in Hf. set (em := Z.min e e') in *.
  destruct (is_int_scaled _ _ _ _ em Ht) as [Hm' Hs']; [lia..|]. rewrite !shl_align_value, Hm' in Hf by lia.
  match type of Hf with context [binary_normalize _ _ ?d _ _] => destruct (decide (d = 0)) as [Hd|Hd] end.
  2:{ rewrite binary_normalize_nonzero in Hf; [done|done|unfold emin, prec, emax; lia]. }
  assert (0 < 2 ^ (e - em)) by (apply Z.pow_pos_nonneg; lia).
  assert (2 ^ (- em) = 2 ^ (- e) * 2 ^ (e - em)) as Hp by (rewrite <- Z.pow_add_r by lia; f_equal; lia). rewrite Hp in Hd.
  subst s'. unfold cond_Zopp, signed in *. apply (Z.mul_reg_r _ _ (2 ^ (e - em))); [lia|].
  destruct (ip <? 0) eqn:Ei; bool_to_prop; destruct s; nia.
Qed.

(** *** The printed text *)
Lemma trim_end_matches_other ch s c : c <> ch -> Number.trim_end_matches ch (s ++ [c]) = s ++ [c].
Proof.
  intros Hc. induction s as [|b s IH]; cbn; [by rewrite (proj2 (Z.eqb_neq _ _) Hc)|]. rewrite IH. by destruct s.
Qed.

Lemma significand_last s : Significand s -> exists pre last, s = pre ++ [last] /\ 49 <= last <= 57.
Proof.
  induction 1 as [s _ (pre & last & -> & Hl) _|d Hd|d ds last _ _ Hl].
  - by exists (chr "-" :: pre), last.
  - by exists [], d.
  - by exists (d :: chr "." :: ds), last.
Qed.

Lemma significand_no_e s : Significand s -> chr "e" ∉ s.
Proof.
  assert (forall d, 48 <= d <= 57 -> chr "e" <> d) as Hd by (intros d Hd; change (chr "e") with 101; lia).
  induction 1 as [s _ IH _|d H1|d ds last H1 H2 H3]; rewrite ?not_elem_of_cons.
  - by split.
  - split; [apply Hd; lia|apply not_elem_of_nil].
  - split_and!; [apply Hd; lia|done|]. rewrite not_elem_of_app, list_elem_of_singleton. split; [|apply Hd; lia].
    intros Hin. rewrite Forall_forall in H2. by apply (Hd _ (H2 _ Hin)).
Qed.

Lemma to_decimal_head n : 0 <= n <= 2 ^ 31 -> head (to_decimal n) <> Some (chr "-").
Proof.
  intros Hn Hh. pose proof (from_str_radix_format 10 (2 ^ 31) n ltac:(lia) Hn) as Hp. fold (to_decimal n) in Hp.
  destruct (to_decimal n) as [|b s]; [done|]. by injection Hh as ->.
Qed.

Lemma js_exponential `{FloatLib} x digits k :
  scientific x digits k ->
  Number.format_js_exponential x = digits ++ chr "e" :: (if k <? 0 then chr "-" else chr "+") :: to_decimal (Z.abs k).
Proof.
  intros (Hd & Hk & E). unfold Number.format_js_exponential. rewrite E, split_once_app by by apply significand_no_e.
  destruct (significand_last _ Hd) as (pre & last & -> & Hl). rewrite !trim_end_matches_other by (cbn; lia).
  assert (forall max, 1000 <= max -> from_str_radix 10 max (to_decimal (Z.abs k)) = Some (Z.abs k)) as Hr.
  { intros max Hmax. apply from_str_radix_format; lia. }
  pose proof (to_decimal_head (Z.abs k) ltac:(lia)) as Hh. unfold int_text. destruct (k <? 0) eqn:Ek; bool_to_prop.
  - cbn [head app]. rewrite bool_decide_eq_true_2 by done. cbn [tail]. rewrite Hr by lia. cbn [default]. unfold id.
    by rewrite (proj2 (Z.eqb_neq (Z.abs k) 0)) by lia.
  - rewrite app_nil_l, bool_decide_eq_false_2 by done. by rewrite Hr by lia.
Qed.

Lemma to_string_finite `{FloatLib} s m e (x := S754_finite s m e) :
  (far x -> Number.to_string x = Number.format_js_exponential x)
  /\ (~ far x -> Number.to_string x
       = if SFeqb (f64_fract x) (S754_zero false) then format_integer x else format_f64 x).
Proof.
  assert (SFeqb x (S754_zero false) = false) as Hz by by destruct s.
  assert (far x <-> SFleb (f64_of_Z (10 ^ 21)) (SFabs x) || SFltb (SFabs x) (f64_div (f64_of_Z 1) (f64_of_Z (10 ^ 6))) = true)
    as Hf by (unfold far; by rewrite orb_true_iff).
  unfold Number.to_string. rewrite Hz. unfold x at 1 2 7 8. cbn [Number.is_nan is_nan_f64 Number.is_inf].
  split; intros Hd; [by rewrite (proj1 Hf Hd)|]. rewrite Hf, not_true_iff_false in Hd. by rewrite Hd.
Qed.

Lemma to_string_text `{FloatLaws} x : valid x = true -> NumberText x (Number.to_string x).
Proof.
  intros Hv. destruct x as [s|s| |s m e]; [by destruct s; constructor..|constructor|].
  destruct (to_string_finite s m e) as [Hfar Hnear]. pose proof (fract_zero s m e Hv) as Hfr.
  destruct (decide (SFleb (f64_of_Z (10 ^ 21)) (SFabs (S754_finite s m e)) = true \/
    SFltb (SFabs (S754_finite s m e)) (f64_div (f64_of_Z 1) (f64_of_Z (10 ^ 6))) = true)) as [Hd|Hd].
  - rewrite (Hfar Hd). destruct (format_exponential_text s m e Hv) as (digits & k & Hs).
    rewrite (js_exponential _ _ _ Hs). by constructor.
  - rewrite (Hnear Hd). destruct (SFeqb _ _).
    + destruct (proj1 Hfr eq_refl) as [z Hz]. assert (z <> 0) as Hz0.
      { intros ->. cbn in Hz. destruct (0 <=? e) eqn:E; bool_to_prop; [assert (0 < 2 ^ e) by (apply Z.pow_pos_nonneg; lia)|];
          unfold signed in Hz; destruct s; nia. }
      rewrite (format_integer_text _ z) by done. by constructor.
    + constructor; [|done]. intros z Hz. destruct Hfr as [_ Hfr]. by discriminate Hfr; exists z.
Qed.

Lemma number_text `{FloatLaws} x text : valid x = true -> NumberText x text <-> Number.to_string x = text.
Proof.
  intros Hv. split; [|intros <-; by apply to_string_text].
  intros Ht. destruct Ht as [| | |s|x z Hz Hz0 Hd|s m e Hi Hd|s m e digits k Hd Hs]; [done..| | |].
  - destruct x as [s|s| |s m e]; try done. rewrite (proj2 (to_string_finite s m e)) by done.
    rewrite (proj2 (fract_zero s m e Hv)) by by exists z. by apply format_integer_text.
  - rewrite (proj2 (to_string_finite s m e)) by done. destruct (SFeqb _ _) eqn:E; [|done].
    apply fract_zero in E as [z Hz]; [|done]. by destruct (Hi z).
  - rewrite (proj1 (to_string_finite s m e)) by done. by apply js_exponential.
Qed.

(** *** Numerals *)

(** The number of a numeric literal: that of its digits when it has a prefix, rounded at every digit from 2^53 on, and
    that of the standard library otherwise. *)
Inductive NumeralValue `{FloatLib} (text : str) : f64 -> Prop :=
  | numeral_prefixed p radix digits v :
      trim text = chr "0" :: p :: digits -> RadixLetter p radix -> digits_value radix 0 digits = Some v -> v < 2 ^ 53 ->
      NumeralValue text (f64_of_Z v)
  | numeral_large p radix digits v x :
      trim text = chr "0" :: p :: digits -> RadixLetter p radix -> digits_value radix 0 digits = Some v -> 2 ^ 53 <= v ->
      Number.prefixed_digits radix (f64_of_Z 0) digits = Some x -> NumeralValue text x
  | numeral_other :
      (forall p radix digits, trim text = chr "0" :: p :: digits -> RadixLetter p radix -> digits_value radix 0 digits = None) ->
      NumeralValue text (default S754_nan (parse_f64 text)).

Lemma strip_prefix_pair a b s digits : strip_prefix [a; b] s = Some digits -> s = a :: b :: digits.
Proof.
  unfold strip_prefix, starts_with. case_bool_decide as Ht; [|done]. intros [= <-].
  destruct s as [|x [|y s]]; try done. cbn in Ht. rewrite take_0 in Ht. injection Ht as -> ->. cbn. by rewrite drop_0.
Qed.

Lemma strip_either_pair a b c s digits :
  Number.strip_either [a; b] [a; c] s = Some digits -> exists p, s = a :: p :: digits /\ (p = b \/ p = c).
Proof.
  unfold Number.strip_either. destruct (strip_prefix [a; b] s) eqn:E.
  - intros [= ->]. apply strip_prefix_pair in E. eauto.
  - intros E'%strip_prefix_pair. eauto.
Qed.

Lemma split_radix_form text digits radix :
  Number.split_radix text = Some (digits, radix) -> exists p, text = chr "0" :: p :: digits /\ RadixLetter p radix.
Proof.
  unfold Number.split_radix.
  destruct (Number.strip_either (bstr "0x") (bstr "0X") text) eqn:Ex.
  { intros [= -> <-]. apply strip_either_pair in Ex as (p & -> & [-> | ->]); eexists; (split; [done|]); constructor. }
  destruct (Number.strip_either (bstr "0b") (bstr "0B") text) eqn:Eb.
  { intros [= -> <-]. apply strip_either_pair in Eb as (p & -> & [-> | ->]); eexists; (split; [done|]); constructor. }
  destruct (Number.strip_either (bstr "0o") (bstr "0O") text) eqn:Eo; [|done].
  intros [= -> <-]. apply strip_either_pair in Eo as (p & -> & [-> | ->]); eexists; (split; [done|]); constructor.
Qed.

Lemma radix_letter_unique p r1 r2 : RadixLetter p r1 -> RadixLetter p r2 -> r1 = r2.
Proof. intros H1 H2. by inversion H1; subst; inversion H2. Qed.

(** Both readings of the digits fail on the same characters. *)
Lemma prefixed_digits_some radix v x digits :
  is_Some (digits_value radix v digits) <-> is_Some (Number.prefixed_digits radix x digits).
Proof.
  revert v x. induction digits as [|ch digits IH]; intros v x; cbn [digits_value Number.prefixed_digits]; [by split; eexists|].
  change (ch =? chr "_") with (ch =? 95). destruct (ch =? 95); [apply IH|].
  destruct (to_digit radix ch) as [d|]; cbn [mbind option_bind]; [apply IH|by split; intros []].
Qed.

Lemma from_string_prefixed `{FloatLib} text p radix digits :
  trim text = chr "0" :: p :: digits -> RadixLetter p radix ->
  Number.from_string text
  = default (default S754_nan (parse_f64 text)) (Number.prefixed_digits radix (f64_of_Z 0) digits).
Proof.
  intros Ht Hp. unfold Number.from_string, Number.try_parse_prefixed_integer. rewrite Ht, (split_radix_letter p radix) by done.
  cbn [mbind option_bind]. by destruct (Number.prefixed_digits radix _ digits).
Qed.

Lemma numeral_value `{FloatLib} text x : NumeralValue text x <-> x = Number.from_string text.
Proof.
  split.
  - intros [p radix digits v Ht Hp Hd Hv|p radix digits v y Ht Hp Hd Hv Hy|Hn].
    + pose proof (radix_letter_range p radix Hp). rewrite (from_string_prefixed _ p radix digits) by done.
      by rewrite (prefixed_digits_exact _ _ _ v) by (done || lia).
    + rewrite (from_string_prefixed _ p radix digits) by done. by rewrite Hy.
    + destruct (Number.split_radix (trim text)) as [[digits radix]|] eqn:E.
      * apply split_radix_form in E as (p & Ht & Hp). rewrite (from_string_prefixed _ p radix digits) by done.
        pose proof (proj2 (prefixed_digits_some radix 0 (f64_of_Z 0) digits)) as Hs. rewrite (Hn _ _ _ Ht Hp) in Hs.
        destruct (Number.prefixed_digits radix _ digits); [|done]. by destruct (Hs ltac:(by eexists)).
      * unfold Number.from_string, Number.try_parse_prefixed_integer. by rewrite E.
  - intros ->. destruct (Number.split_radix (trim text)) as [[digits radix]|] eqn:E.
    + apply split_radix_form in E as (p & Ht & Hp). pose proof (prefixed_digits_some radix 0 (f64_of_Z 0) digits) as Hs.
      destruct (digits_value radix 0 digits) as [v|] eqn:Hd.
      * destruct (decide (v < 2 ^ 53)).
        -- rewrite (from_string_prefixed _ p radix digits) by done. pose proof (radix_letter_range p radix Hp).
           rewrite (prefixed_digits_exact _ _ _ v) by (done || lia). by eapply numeral_prefixed.
        -- destruct (proj1 Hs ltac:(by eexists)) as [y Hy]. rewrite (from_string_prefixed _ p radix digits), Hy by done.
           eapply numeral_large; [done..|lia|done].
      * rewrite (from_string_prefixed _ p radix digits) by done.
        destruct (Number.prefixed_digits radix _ digits); [by destruct (proj2 Hs ltac:(by eexists))|].
        apply numeral_other. intros p' radix' digits' Ht' Hp'. rewrite Ht in Ht'. injection Ht' as <- <-.
        by rewrite (radix_letter_unique _ _ _ Hp' Hp).
    + unfold Number.from_string, Number.try_parse_prefixed_integer. rewrite E. cbn [mbind option_bind].
      apply numeral_other. intros p radix digits Ht Hp. by rewrite Ht, (split_radix_letter p radix) in E.
Qed.

Lemma from_string_valid `{FloatLaws} text : valid (Number.from_string text) = true.
Proof.
  unfold Number.from_string, Number.try_parse_prefixed_integer.
  destruct (Number.split_radix (trim text)) as [[digits radix]|]; cbn [mbind option_bind];
    [destruct (Number.prefixed_digits radix _ digits) eqn:E; [by eapply prefixed_digits_valid, E|]|];
    (destruct (parse_f64 text) eqn:Ep; [by eapply parse_f64_valid|done]).
Qed.

(** ** Witnesses *)
Definition no_float_lib : FloatLib := {|
  parse_f64 _ := None; format_f64 _ := []; format_integer _ := []; format_exponential _ := []; f64_powf x _ := x |}.

Lemma bit_operations_spec_witness :
  valid (f64_of_Z (2 ^ 33 + 5)) = true /\ represents (Number.left_shift (f64_of_Z (2 ^ 33 + 5)) (f64_of_Z 31)) (- 2 ^ 31).
Proof.
  split; [reflexivity|].
  destruct (bit_operations_spec (f64_of_Z (2 ^ 33 + 5)) (f64_of_Z 31) eq_refl eq_refl) as (_ & _ & _ & _ & H & _). exact H.
Defined.

Lemma prefixed_integer_exact_witness : represents (@Number.from_string no_float_lib (bstr " 0xFF_ff ")) 65535.
Proof. apply (@prefixed_integer_exact no_float_lib _ (bstr "FF_ff") (chr "x") 16); [|exact radix_x| |]; reflexivity. Defined.

Lemma number_order_witness :
  valid (S754_zero true) = true /\ Number.hash_key (S754_zero true) = Number.hash_key (S754_zero false).
Proof.
  split; [reflexivity|]. destruct (number_order (S754_zero true) (S754_zero false) S754_nan) as (_ & _ & _ & H).
  apply H; reflexivity.
Defined.
