(* ===== verification/Escape.v ===== *)
(** * Escape: printing strings as literals (ts-printer/src/utilities.rs)

    A [str] is the list of its characters. The loops over [&s[i..]] run on that suffix; the slice
    [s\[pos..i\]] of characters still to be copied is the list [run]. *)
From S2P Require Import Prelude Text Numerals Chars Strs.

(** ** Flags and quotes *)
Module GetLiteralTextFlags.
Definition NONE : Z := 0.
Definition NEVER_ASCII_ESCAPE : Z := 1.
Definition JSX_ATTRIBUTE_ESCAPE : Z := 2.
Definition TERMINATE_UNTERMINATED_LITERALS : Z := 4.
Definition ALLOW_NUMERIC_SEPARATOR : Z := 8.
Definition contains (flags other : Z) : bool := negb (Z.land flags other =? 0).
End GetLiteralTextFlags.

Inductive QuoteChar := SingleQuote | DoubleQuote | Backtick.
#[global] Instance QuoteChar_eq_dec : EqDecision QuoteChar.
Proof. solve_decision. Defined.

Definition as_char (q : QuoteChar) : char :=
  match q with SingleQuote => 39 | DoubleQuote => 34 | Backtick => chr "`" end.

(** ** Escapes *)
Definition jsx_escaped_char (ch : char) : option str :=
  if ch =? 34 then Some (bstr "&quot;")
  else if ch =? 39 then Some (bstr "&apos;")
  else None.

Definition escaped_char (ch : char) : option str :=
  if ch =? 9 then Some (bstr "\t")
  else if ch =? 11 then Some (bstr "\v")
  else if ch =? 12 then Some (bstr "\f")
  else if ch =? 8 then Some (bstr "\b")
  else if ch =? 13 then Some (bstr "\r")
  else if ch =? 10 then Some (bstr "\n")
  else if ch =? 92 then Some [92; 92]
  else if ch =? 34 then Some [92; 34]
  else if ch =? 39 then Some [92; 39]
  else if ch =? chr "`" then Some (bstr "\`")
  else if ch =? chr "$" then Some (bstr "\$")
  else if ch =? 8232 then Some (bstr "\u2028")
  else if ch =? 8233 then Some (bstr "\u2029")
  else if ch =? 133 then Some (bstr "\u0085")
  else None.

(** [format!("{:X}", n)] *)
Definition to_ascii_uppercase (b : byte) : byte := if (97 <=? b) && (b <=? 122) then b - 32 else b.
Definition upper_hex (n : Z) : str := map to_ascii_uppercase (format_radix 16 n).

Definition encode_jsx_character_entity (b : str) (char_code : char) : str :=
  b ++ bstr "&#x" ++ upper_hex char_code ++ bstr ";".

Definition encode_utf16_escape_sequence (b : str) (char_code : Z) : str :=
  let hex := upper_hex char_code in
  b ++ bstr "\u" ++ replicate (4 - length hex) (chr "0") ++ hex.

Section worker.
Context (quote_char : QuoteChar) (flags : Z).

(** [i + 1 < s.len() && s.as_bytes()[i + 1] == b], for an ASCII byte. *)
Definition next_is (b : byte) (rest : str) : bool := bool_decide (head rest = Some b).

Definition needs_escape (ch : char) (rest : str) : bool :=
  if ch =? 92 then negb (GetLiteralTextFlags.contains flags GetLiteralTextFlags.JSX_ATTRIBUTE_ESCAPE)
  else if ch =? chr "$" then bool_decide (quote_char = Backtick) && next_is (chr "{") rest
  else if (ch =? 8232) || (ch =? 8233) || (ch =? 133) || (ch =? 13) then true
  else if ch =? 10 then negb (bool_decide (quote_char = Backtick))
  else if ch =? as_char quote_char then true
  else (ch <=? 31)
       || (negb (GetLiteralTextFlags.contains flags GetLiteralTextFlags.NEVER_ASCII_ESCAPE) && (127 <? ch)).

Definition escape_jsx (b : str) (ch : char) : str :=
  if ch =? 0 then b ++ bstr "&#0;"
  else match jsx_escaped_char ch with
       | Some matched => b ++ matched
       | None => encode_jsx_character_entity b ch
       end.

Definition escape_char (b : str) (ch : char) (rest : str) : str :=
  if 65535 <? ch then
    let codepoint := ch - 65536 in
    let b := encode_utf16_escape_sequence b (Z.land (Z.shiftr codepoint 10) 1023 + 55296) in
    encode_utf16_escape_sequence b (Z.land codepoint 1023 + 56320)
  else if ch =? 0 then
    let next_is_digit := match head rest with Some next => is_ascii_digit next | None => false end in
    b ++ (if next_is_digit then bstr "\x00" else bstr "\0")
  else match escaped_char ch with
       | Some matched => b ++ matched
       | None => encode_utf16_escape_sequence b ch
       end.

Fixpoint escape_loop (run : str) (s : str) (b : str) : str :=
  match s with
  | [] => b ++ run
  | ch :: rest =>
      if needs_escape ch rest then
        let b := b ++ run in
        if GetLiteralTextFlags.contains flags GetLiteralTextFlags.JSX_ATTRIBUTE_ESCAPE then
          escape_loop [] rest (escape_jsx b ch)
        else
          match rest with
          | next :: rest' =>
              if (ch =? 13) && bool_decide (quote_char = Backtick) && (next =? 10) then
                escape_loop [] rest' (b ++ bstr "\r\n")
              else escape_loop [] rest (escape_char b ch rest)
          | [] => escape_loop [] rest (escape_char b ch rest)
          end
      else escape_loop (run ++ [ch]) rest b
  end.

Definition escape_string_worker (s b : str) : str := escape_loop [] s b.
End worker.

Definition escape_string (s : str) (quote_char : QuoteChar) : str :=
  escape_string_worker quote_char GetLiteralTextFlags.NEVER_ASCII_ESCAPE s [].

Definition escape_non_ascii_string (s : str) (quote_char : QuoteChar) : str :=
  escape_string_worker quote_char GetLiteralTextFlags.NONE s [].

Definition escape_jsx_attribute_string (s : str) (quote_char : QuoteChar) : str :=
  escape_string_worker quote_char
    (Z.lor GetLiteralTextFlags.JSX_ATTRIBUTE_ESCAPE GetLiteralTextFlags.NEVER_ASCII_ESCAPE) s [].
