(* ===== verification/EscapeScan.v ===== *)
(** * EscapeScan: what the printer escapes, the scanner reads back

    The literal that [escape_string_worker] prints between quotes is one token of the scanner, whose value is
    the string, for every string and every way to print it. *)
From S2P Require Import Prelude Text Chars SyntaxKind Monad Numerals JsNum Keywords Trivia Strs.
From S2P Require Import ScannerState ScannerOps Scanner ScannerPanic ScannerFun ScannerEscape Escape.

(** ** Four hexadecimal digits *)
Definition hex4 (n : Z) : str := let hex := upper_hex n in replicate (4 - length hex) (chr "0") ++ hex.

Lemma encode_utf16_hex4 b n : encode_utf16_escape_sequence b n = b ++ bstr "\u" ++ hex4 n.
Proof. done. Qed.

Lemma upper_lower b :
  lower_hex b = true -> to_ascii_lowercase (to_ascii_uppercase b) = b /\ is_ascii_hexdigit (to_ascii_uppercase b) = true.
Proof.
  intros Hb. assert (0 <= b < 128) as Hr.
  { unfold lower_hex, is_ascii_digit in Hb. rewrite !orb_true_iff, !andb_true_iff, !Z.leb_le in Hb. lia. }
  assert (ascii_all (fun b => negb (lower_hex b)
    || (to_ascii_lowercase (to_ascii_uppercase b) =? b) && is_ascii_hexdigit (to_ascii_uppercase b)) = true) as Hall
    by (vm_compute; reflexivity).
  pose proof (ascii_all_spec _ b Hall Hr) as Hc. cbn beta in Hc. rewrite Hb in Hc. cbn [negb orb] in Hc.
  by bool_to_prop.
Qed.

Lemma radix_digits_length fuel n acc k :
  0 <= n < 16 ^ Z.of_nat k -> (1 <= k)%nat -> (length (radix_digits fuel 16 n acc) <= length acc + k)%nat.
Proof.
  revert n acc k. induction fuel as [|fuel IH]; intros n acc k Hn Hk; cbn [radix_digits]; [lia|].
  destruct (n / 16 =? 0) eqn:E; bool_to_prop; [cbn; lia|].
  destruct k as [|k]; [lia|]. rewrite Nat2Z.inj_succ, Z.pow_succ_r in Hn by lia.
  assert (0 <= n / 16 < 16 ^ Z.of_nat k) as Hd.
  { split; [apply Z.div_pos; lia|]. apply Z.div_lt_upper_bound; lia. }
  destruct k as [|k]; [cbn in Hd; lia|]. specialize (IH (n / 16) (digit_char (n mod 16) :: acc) _ Hd ltac:(lia)).
  cbn [length] in IH. lia.
Qed.

Lemma parse_leading_zeros max k ds :
  0 <= max -> parse_digits 16 max 0 (replicate k (chr "0") ++ ds) = parse_digits 16 max 0 ds.
Proof.
  intros Hm. induction k as [|k IH]; [done|]. cbn [replicate app parse_digits]. cbn [to_digit mbind option_bind Z.eqb].
  change (to_digit 16 (chr "0")) with (Some 0). cbn [mbind option_bind].
  by rewrite (proj2 (Z.ltb_ge max (0 * 16 + 0))) by lia.
Qed.

Lemma hex4_spec n :
  0 <= n < 65536 ->
  length (hex4 n) = 4%nat /\ Forall (fun b => is_ascii_hexdigit b = true) (hex4 n)
  /\ from_str_radix 16 U32_MAX (map to_ascii_lowercase (hex4 n)) = Some n.
Proof.
  intros Hn. unfold hex4, upper_hex. set (ds := format_radix 16 n).
  assert (Forall (fun b => lower_hex b = true) ds) as Hlow by (by apply radix_digits_lower).
  assert (length ds <= 4)%nat as Hlen by (apply (radix_digits_length _ n [] 4); [cbn; lia|lia]).
  assert (from_str_radix 16 U32_MAX ds = Some n) as Hp by (apply from_str_radix_format; [lia|unfold U32_MAX; lia]).
  split_and!.
  - rewrite length_app, length_replicate, length_map. lia.
  - apply Forall_app. split; [by apply Forall_replicate|]. apply Forall_map.
    eapply Forall_impl; [exact Hlow|]. intros b Hb. by apply upper_lower.
  - rewrite map_app, map_map.
    assert (map (fun b => to_ascii_lowercase (to_ascii_uppercase b)) ds = ds) as ->.
    { rewrite <- (map_id ds) at 2. apply map_ext_in. intros b Hb. rewrite Forall_forall in Hlow.
      apply upper_lower, Hlow. by apply list_elem_of_In. }
    set (k := (4 - length (map to_ascii_uppercase ds))%nat).
    change (map to_ascii_lowercase (replicate k (chr "0"))) with (to_ascii_lowercase <$> replicate k (chr "0")).
    rewrite fmap_replicate. change (to_ascii_lowercase (chr "0")) with (chr "0").
    assert (forall l, l <> [] -> from_str_radix 16 U32_MAX l = parse_digits 16 U32_MAX 0 l) as Hne by (by intros []).
    assert (ds <> []) as Hds by (by intros E; rewrite E in Hp).
    rewrite Hne in Hp |- *; [|done|by intros [_ ?]%app_nil]. by rewrite parse_leading_zeros.
Qed.

Lemma hex_run h s count :
  (end_ s <= length (text s))%nat ->
  Forall (fun b => is_ascii_hexdigit b = true) h -> text_at s (pos s) h -> (count + length h)%nat = 4%nat ->
  forall fuel, (length h < fuel)%nat ->
  iter fuel (fun l =>
    if (digit_count l <? 4)%nat || false then
      ch ← char_;
      if is_ascii_hexdigit ch then
        advance 1 ;;
        mret (inl (mkDigits [] 0 (S (digit_count l)) false false))
      else if false && (ch =? chr "_") then
        add_flags TokenFlags.CONTAINS_SEPARATOR ;;
        if allow_separator l then
          advance 1 ;; mret (inl (mkDigits [] 0 (digit_count l) false true))
        else
          separator_error (is_previous_token_separator l) ;;
          advance 1 ;;
          mret (inl (mkDigits [] 0 (digit_count l) false (is_previous_token_separator l)))
      else mret (inr l)
    else mret (inr l)) (mkDigits [] 0 count false false) s
  = Ok (mkDigits [] 0 4 false false, set_pos (pos s + length h) s).
Proof.
  intros He Hh. revert s count He. induction Hh as [|b h Hb Hh IH];
    intros s count He Ht Hc fuel Hf; (destruct fuel as [|fuel]; [cbn in Hf; lia|]); cbn [iter length] in *.
  - rewrite Nat.add_0_r in Hc |- *. subst count. by destruct s.
  - apply text_at_cons in Ht as [[Hlt Hb'] Ht]. set (s1 := set_pos (S (pos s)) s).
    rewrite (run_bind _ _ s (inl (mkDigits [] 0 (S count) false false)) s1).
    + cbn [length] in *. rewrite (IH s1); cbn [pos set_pos s1]; [|done|exact Ht|lia|lia].
      do 2 f_equal. subst s1. by replace (S (pos s) + length h)%nat with (pos s + S (length h))%nat by lia.
    + cbn [digit_count]. rewrite (proj2 (Nat.ltb_lt count 4)) by lia. cbn [orb].
      rewrite (run_bind char_ _ s b s) by (by apply run_char). rewrite Hb.
      rewrite (run_bind (advance 1) _ s tt s1); [done|]. unfold advance, modify. by rewrite Nat.add_1_r.
Qed.

(** What reading a piece of a literal keeps. *)
Record quiet (s s' : Scanner) : Prop := {
  quiet_text : text s' = text s;
  quiet_end : end_ s' = end_ s;
  quiet_start : token_start s' = token_start s;
  quiet_full : full_start_pos s' = full_start_pos s;
  quiet_value : token_value_ s' = token_value_ s;
  quiet_diagnostics : diagnostics s' = diagnostics s;
}.

Lemma quiet_refl s : quiet s s.
Proof. done. Qed.
Lemma quiet_trans s1 s2 s3 : quiet s1 s2 -> quiet s2 s3 -> quiet s1 s3.
Proof. intros [] []. split; congruence. Qed.

Lemma text_at_quiet s s' p w : quiet s s' -> text_at s p w -> text_at s' p w.
Proof. intros Hq H k b Hk. rewrite (quiet_text _ _ Hq), (quiet_end _ _ Hq). by apply H. Qed.

(** A text whose end is a boundary. *)
Definition well_formed (s : Scanner) : Prop := valid_utf8 (text s) /\ at_boundary (text s) (end_ s).
Lemma well_formed_quiet s s' : quiet s s' -> well_formed s -> well_formed s'.
Proof. intros Hq. unfold well_formed. by rewrite (quiet_text _ _ Hq), (quiet_end _ _ Hq). Qed.

(** Both ends of ASCII bytes of the text are boundaries. *)
Lemma text_at_boundaries s p w :
  well_formed s -> Forall (fun b => b < 128) w -> w <> [] -> text_at s p w ->
  is_char_boundary (text s) p = true /\ is_char_boundary (text s) (p + length w) = true.
Proof.
  intros [Hv _] Hw Hne Ht. split.
  - destruct w as [|b w]; [done|]. apply text_at_cons in Ht as [[_ Hb] _]. inversion Hw; subst.
    by eapply ascii_byte_boundary.
  - destruct w as [|b w _] using rev_ind; [done|]. apply Forall_app in Hw as [_ Hb]. inversion Hb; subst.
    destruct (Ht (length w) b) as [_ Hl]; [by rewrite lookup_app_r, Nat.sub_diag|].
    rewrite length_app. cbn. replace (p + (length w + 1))%nat with (S (p + length w)) by lia.
    by eapply ascii_byte_boundary.
Qed.

Lemma text_slice_at s p w :
  is_char_boundary (text s) p = true -> is_char_boundary (text s) (p + length w) = true -> text_at s p w ->
  text_slice p (p + length w) s = Ok (w, s).
Proof.
  intros H1 H2 Ht. unfold text_slice. rewrite (run_bind get _ s s s) by done. rewrite slice_some by (done || lia).
  replace (p + length w - p)%nat with (length w) by lia. by rewrite (text_at_take _ _ _ Ht).
Qed.

Lemma hexdigits_ascii h : Forall (fun b => is_ascii_hexdigit b = true) h -> Forall (fun b => b < 128) h.
Proof.
  intros H. eapply Forall_impl; [exact H|]. intros b Hb. unfold is_ascii_hexdigit, is_ascii_digit in Hb.
  rewrite !orb_true_iff, !andb_true_iff, !Z.leb_le in Hb. lia.
Qed.

Lemma hexdigit_lower b : is_ascii_hexdigit b = true -> to_ascii_lowercase b <> 95.
Proof.
  intros Hb. assert (0 <= b < 128) as Hr.
  { unfold is_ascii_hexdigit, is_ascii_digit in Hb. rewrite !orb_true_iff, !andb_true_iff, !Z.leb_le in Hb. lia. }
  assert (ascii_all (fun b => negb (is_ascii_hexdigit b) || negb (to_ascii_lowercase b =? 95)) = true) as Hall
    by (vm_compute; reflexivity).
  pose proof (ascii_all_spec _ b Hall Hr) as Hc. cbn beta in Hc. rewrite Hb in Hc. cbn [negb orb] in Hc. by bool_to_prop.
Qed.

(** Four digits and the escape with them. *)
Lemma scan_hex4 h s :
  well_formed s -> Forall (fun b => is_ascii_hexdigit b = true) h -> length h = 4%nat -> text_at s (pos s) h ->
  scan_hex_digits 4 false false s = Ok (map to_ascii_lowercase h, set_pos (pos s + 4) s).
Proof.
  intros Hwf Hh Hl Ht. pose proof Hwf as [_ [_ He]]. unfold scan_hex_digits.
  rewrite (run_bind (gets pos) _ s (pos s) s) by done. set (s1 := set_pos (pos s + 4) s).
  rewrite (run_bind (loop _ _) _ s (mkDigits [] 0 4 false false) s1).
  2: { unfold loop. rewrite (run_bind get _ s s s) by done. replace s1 with (set_pos (pos s + length h) s) by (by rewrite Hl).
    apply hex_run; try done; try lia.
    unfold loop_fuel. pose proof (text_at_length _ _ _ He Ht). lia. }
  cbn [is_previous_token_separator digit_count]. rewrite (run_bind (when false _) _ s1 tt s1) by done. cbn [Nat.ltb Nat.leb].
  rewrite (run_bind (gets pos) _ s1 (pos s + 4)%nat s1) by done.
  destruct (text_at_boundaries s (pos s) h Hwf) as [B1 B2]; [by apply hexdigits_ascii|by intros ->|done|].
  rewrite (run_bind (text_slice _ _) _ s1 h s1) by (rewrite <- Hl in *; by apply (text_slice_at s1)).
  rewrite (run_bind (gets token_flags) _ s1 (token_flags s1) s1) by done.
  destruct (TokenFlags.contains _ _); [|done]. do 2 f_equal. unfold mret. rewrite filter_all; [done|].
  apply Forall_map. eapply Forall_impl; [exact Hh|]. intros b Hb. apply hexdigit_lower in Hb. lia.
Qed.

(** Run the next command, which reads or sets what the goal's state says. *)
Ltac run_to st := match goal with |- context [(?m ≫= _) ?s0] => erewrite (run_bind m _ s0 _ st) end.

Lemma scan_unicode4 report n s :
  well_formed s -> 0 <= n < 65536 -> text_at s (pos s) (bstr "\u" ++ hex4 n) ->
  exists s', scan_unicode_escape report s = Ok (Some n, s') /\ quiet s s' /\ pos s' = (pos s + 6)%nat.
Proof.
  intros Hwf Hn Ht. destruct (hex4_spec n Hn) as (Hl & Hh & Hp).
  apply text_at_app in Ht as [_ Ht]. cbn [length] in Ht.
  set (s1 := set_pos (pos s + 2) s). set (s2 := put_token_flags (Z.lor (token_flags s1) TokenFlags.UNICODE_ESCAPE) s1).
  exists (set_pos (pos s2 + 4) s2). split; [|split; [done|cbn; lia]].
  unfold scan_unicode_escape. rewrite (run_bind (advance 2) _ s tt s1) by done.
  rewrite (run_bind (gets pos) _ s1 (pos s1) s1) by done.
  destruct (hex4 n) as [|h hs] eqn:E; [done|]. rewrite <- E in *.
  assert (is_ascii_hexdigit h = true) as Hh1 by (rewrite E in Hh; by inversion Hh).
  rewrite (run_bind char_ _ s1 h s1).
  2: { rewrite E in Ht. apply text_at_cons in Ht as [[L1 L2] _]. by apply run_char. }
  assert ((h =? 123) = false) as ->.
  { apply Z.eqb_neq. intros ->. done. }
  rewrite (run_bind _ _ s1 (map to_ascii_lowercase (hex4 n)) (set_pos (pos s2 + 4) s2)).
  2: { rewrite (run_bind (add_flags _) _ s1 tt s2) by done. by apply scan_hex4. }
  destruct (map to_ascii_lowercase (hex4 n)) eqn:E2; [done|]. by rewrite Hp.
Qed.

(** ** Escape sequences *)

(** The flags with which literals are scanned. *)
Definition literal_flags (flags : Z) : Prop :=
  flags = Z.lor ESC_STRING ESC_REPORT_ERRORS \/ flags = ESC_STRING.

Lemma literal_flags_has flags :
  literal_flags flags -> has flags ESC_REGULAR_EXPRESSION = false /\ has flags ESC_ANY_UNICODE_MODE = false.
Proof. by intros [-> | ->]. Qed.

(** What scanning a piece [w] of a literal that stands for [v] does. *)
Definition reads (m : MS bytes) (w v : bytes) (s : Scanner) : Prop :=
  exists s', m s = Ok (v, s') /\ quiet s s' /\ pos s' = (pos s + length w)%nat.

(** A backslash and a character of its own. *)
Definition simple_escape (ch : char) : option char :=
  if ch =? chr "b" then Some 8
  else if ch =? chr "t" then Some 9
  else if ch =? chr "n" then Some 10
  else if ch =? chr "v" then Some 11
  else if ch =? chr "f" then Some 12
  else if ch =? chr "r" then Some 13
  else if (ch =? 39) || (ch =? 34) || (ch =? 92) || (ch =? chr "`") || (ch =? chr "$") then Some ch
  else None.

Lemma scan_simple_escape flags ch v s :
  well_formed s -> literal_flags flags -> simple_escape ch = Some v -> text_at s (pos s) [92; ch] ->
  reads (scan_escape_sequence flags) [92; ch] [v] s.
Proof.
  intros [_ [_ He]] Hf Hv Ht. apply text_at_cons in Ht as [_ Ht]. apply text_at_cons in Ht as [[L1 L2] _].
  exists (set_pos (pos s + 1 + 1) s). split; [|split; [done|cbn; lia]].
  destruct (literal_flags_has _ Hf) as [F1 F2].
  unfold scan_escape_sequence. rewrite (run_bind (gets pos) _ s (pos s) s) by done.
  rewrite (run_bind (advance 1) _ s tt (set_pos (pos s + 1) s)) by done.
  rewrite (run_bind char_ _ _ ch (set_pos (pos s + 1) s)) by (apply run_char; cbn; by rewrite Nat.add_1_r).
  assert (ch = 98 /\ v = 8 \/ ch = 116 /\ v = 9 \/ ch = 110 /\ v = 10 \/ ch = 118 /\ v = 11 \/ ch = 102 /\ v = 12
    \/ ch = 114 /\ v = 13 \/ (ch = 39 \/ ch = 34 \/ ch = 92 \/ ch = 96 \/ ch = 36) /\ v = ch) as Hc.
  { unfold simple_escape in Hv.
    repeat match type of Hv with (if ?b then _ else _) = _ => destruct b eqn:?Hb end; try done;
      injection Hv as <-; rewrite ?orb_true_iff, ?Z.eqb_eq in *; lia. }
  assert (ch <> 0) as Hne by lia. rewrite (proj2 (Z.eqb_neq ch 0)) by done.
  rewrite (run_bind (advance 1) _ _ tt (set_pos (pos s + 1 + 1) s)) by done.
  destruct Hc as [[-> ->]|[[-> ->]|[[-> ->]|[[-> ->]|[[-> ->]|[[-> ->]|[[->|[->|Hc]] ->]]]]]]]; try done.
  set (s2 := set_pos (pos s + 1 + 1) s).
  assert (scan_escape_other ch flags s2 = Ok (utf8_encode ch, s2)) as Ho.
  { unfold scan_escape_other. rewrite (run_bind char_ _ s2 _ s2 (run_char_after s2 He)).
    rewrite (run_bind (char_at 1) _ s2 (char_after s2 (pos s2 + 1)) s2).
    - rewrite (proj2 (Z.eqb_neq ch 226)), (proj2 (Z.eqb_neq ch 194)) by lia. cbn [andb].
      rewrite F1, F2. done.
    - unfold char_at, char_after. rewrite (run_bind get _ s2 s2 s2) by done.
      destruct (pos s2 + 1 <? end_ s2)%nat eqn:E; [|done]. bool_to_prop.
      destruct (lookup_lt_is_Some_2 (text s2) (pos s2 + 1)) as [b Hb]; [cbn in *; lia|]. by rewrite Hb. }
  destruct Hc as [->|[->| ->]]; exact Ho.
Qed.

(** The first steps of [scan_escape_sequence] on an escape with the letter [ch]. *)
Lemma scan_escape_letter flags ch w s :
  well_formed s -> ch <> 0 -> text_at s (pos s) (92 :: ch :: w) ->
  scan_escape_sequence flags s
  = (let start := pos s in
     if ch =? chr "0" then
       next ← char_;
       if negb (is_ascii_digit next) then mret [0] else scan_octal_escape_tail start ch flags
     else if ch =? chr "u" then scan_escape_u start flags
     else if ch =? chr "x" then scan_escape_x start flags
     else fun _ => scan_escape_sequence flags s) (set_pos (pos s + 2) s).
Proof.
  intros Hwf Hne Ht. apply text_at_cons in Ht as [_ Ht]. apply text_at_cons in Ht as [[L1 L2] _].
  cbn zeta. destruct (ch =? 48) eqn:E1, (ch =? 117) eqn:E2, (ch =? 120) eqn:E3; bool_to_prop; try lia; try done.
  all: unfold scan_escape_sequence; rewrite (run_bind (gets pos) _ s (pos s) s) by done.
  all: rewrite (run_bind (advance 1) _ s tt (set_pos (pos s + 1) s)) by done.
  all: rewrite (run_bind char_ _ _ ch (set_pos (pos s + 1) s)) by (apply run_char; cbn; by rewrite Nat.add_1_r).
  all: rewrite (proj2 (Z.eqb_neq ch 0)) by done.
  all: rewrite (run_bind (advance 1) _ _ tt (set_pos (pos s + 2) s))
    by (unfold advance, modify; cbn; by rewrite <- Nat.add_assoc).
  all: by subst ch.
Qed.

Lemma scan_null_escape flags s :
  well_formed s -> text_at s (pos s) (bstr "\0") ->
  is_ascii_digit (char_after s (pos s + 2)) = false -> reads (scan_escape_sequence flags) (bstr "\0") [0] s.
Proof.
  intros Hwf Ht Hd. pose proof Hwf as [_ [_ He]]. exists (set_pos (pos s + 2) s). split; [|done].
  rewrite (scan_escape_letter _ 48 []) by done. cbn [Z.eqb Pos.eqb].
  rewrite (run_bind char_ _ _ _ _ (run_char_after (set_pos (pos s + 2) s) He)). cbn [pos set_pos].
  change (char_after (set_pos _ s)) with (char_after s). by rewrite Hd.
Qed.

Lemma scan_x00_escape flags s :
  well_formed s -> text_at s (pos s) (bstr "\x00") -> reads (scan_escape_sequence flags) (bstr "\x00") [0] s.
Proof.
  intros Hwf Ht. pose proof Hwf as [_ [_ He]].
  set (s2 := set_pos (pos s + 4) s). set (s3 := put_token_flags (Z.lor (token_flags s) TokenFlags.HEX_ESCAPE) s2).
  exists s3. split; [|done].
  rewrite (scan_escape_letter _ 120 (bstr "00")) by done. cbn [Z.eqb Pos.eqb].
  pose proof (text_at_app s (pos s) [92; 120] [48; 48] Ht) as [_ Hz]. cbn [length] in Hz.
  pose proof Hz as Hz'. apply text_at_cons in Hz' as [Hz1 Hz2]. apply text_at_cons in Hz2 as [Hz2 _].
  unfold scan_escape_x. set (s0 := set_pos (pos s + 2) s). set (s1 := set_pos (S (pos s + 2)) s).
  rewrite (run_bind (loop _ _) _ s0 true s2).
  2: { unfold loop. rewrite (run_bind get _ s0 s0 s0) by done.
    pose proof (text_at_length _ _ _ He Ht) as Hl. change (length _) with 4%nat in Hl at 1.
    assert (loop_fuel s0 = S (S (S (loop_fuel s0 - 3)))) as ->
      by (unfold loop_fuel; change (text s0) with (text s); lia).
    cbn [iter].
    rewrite (run_bind _ _ s0 (inl tt) s1).
    2: { rewrite (run_bind (gets pos) _ s0 (pos s + 2)%nat s0) by done. rewrite (proj2 (Nat.ltb_lt _ _)) by lia.
      rewrite (run_bind char_ _ s0 48 s0) by (apply run_char; apply Hz1).
      change (negb (is_ascii_hexdigit 48)) with false. cbv iota. rewrite (run_bind (advance 1) _ s0 tt s1); [done|].
      unfold advance, modify. cbn. by rewrite Nat.add_1_r. }
    rewrite (run_bind _ _ s1 (inl tt) s2).
    2: { rewrite (run_bind (gets pos) _ s1 (S (pos s + 2))%nat s1) by done. rewrite (proj2 (Nat.ltb_lt _ _)) by lia.
      rewrite (run_bind char_ _ s1 48 s1) by (apply run_char; apply Hz2).
      change (negb (is_ascii_hexdigit 48)) with false. cbv iota. rewrite (run_bind (advance 1) _ s1 tt s2); [done|].
      unfold advance, modify. cbn. unfold s2. by replace (S (pos s + 2 + 1)) with (pos s + 4)%nat by lia. }
    rewrite (run_bind _ _ s2 (inr true) s2); [done|].
    rewrite (run_bind (gets pos) _ s2 (pos s + 4)%nat s2) by done. by rewrite Nat.ltb_irrefl. }
  rewrite (run_bind (gets pos) _ s2 (pos s + 4)%nat s2) by done.
  rewrite (run_bind (add_flags _) _ s2 tt s3) by done.
  destruct (text_at_boundaries s (pos s + 2) (bstr "00") Hwf) as [B1 B2]; [by repeat constructor|done|done|].
  rewrite (run_bind (text_slice _ _) _ s3 [48; 48] s3); [done|].
  replace (pos s + 4)%nat with (pos s + 2 + length [48%Z; 48%Z])%nat by (cbn; lia). by apply (text_slice_at s3).
Qed.

Lemma text_at_char_after s p b w : text_at s p (b :: w) -> char_after s p = b.
Proof.
  intros Ht. apply text_at_cons in Ht as [[L1 L2] _]. unfold char_after.
  by rewrite (proj2 (Nat.ltb_lt _ _) L1), L2.
Qed.

(** The escape of a code unit, up to what the unit stands for. *)
Lemma scan_unit_escape flags n s :
  well_formed s -> literal_flags flags -> 0 <= n < 65536 -> text_at s (pos s) (bstr "\u" ++ hex4 n) ->
  exists s', scan_escape_sequence flags s = scan_code_unit (pos s) n flags s'
    /\ quiet s s' /\ pos s' = (pos s + 6)%nat.
Proof.
  intros Hwf Hf Hn Ht. pose proof Hwf as [_ [_ He]]. destruct (literal_flags_has _ Hf) as [F1 F2].
  set (s0 := set_pos (pos s + 2) s). destruct (hex4_spec n Hn) as (Hl & Hh & _).
  destruct (scan_unicode4 (has flags ESC_REPORT_INVALID_ESCAPE_ERRORS) n s Hwf Hn Ht) as (s' & Hs & Hq & Hp).
  exists s'. split; [|done].
  rewrite (scan_escape_letter _ 117 (hex4 n)) by done. cbn zeta. cbn [Z.eqb Pos.eqb]. fold s0. unfold scan_escape_u.
  apply text_at_app in Ht as [_ Ht]. cbn [length] in Ht. destruct (hex4 n) as [|h hs] eqn:E; [done|].
  rewrite (run_bind char_ _ s0 h s0).
  2: { rewrite (run_char_after s0 He). apply text_at_char_after in Ht. unfold s0. cbn [pos set_pos].
    change (char_after (set_pos _ s)) with (char_after s). by rewrite Ht. }
  assert ((h =? 123) = false) as ->.
  { apply Z.eqb_neq. intros ->. inversion Hh. done. }
  cbn zeta. rewrite (run_bind (modify _) _ s0 tt s).
  2: { unfold modify, s0. cbn [pos set_pos]. replace (pos s + 2 - 2)%nat with (pos s) by lia. by destruct s. }
  rewrite (run_bind _ _ _ _ _ Hs). by rewrite (run_bind (gets pos) _ s' (pos s') s').
Qed.

Lemma scan_bmp_escape flags n s :
  well_formed s -> literal_flags flags -> is_scalar n = true -> n < 65536 ->
  text_at s (pos s) (bstr "\u" ++ hex4 n) ->
  reads (scan_escape_sequence flags) (bstr "\u" ++ hex4 n) (utf8_encode n) s.
Proof.
  intros Hwf Hf Hsc Hlt Ht. assert (0 <= n < 65536) as Hn.
  { unfold is_scalar in Hsc. rewrite orb_true_iff, !andb_true_iff, !Z.leb_le, !Z.ltb_lt in Hsc. lia. }
  destruct (scan_unit_escape flags n s Hwf Hf Hn Ht) as (s' & Hs & Hq & Hp).
  exists s'. split; [|split; [done|]]; [|rewrite Hp, length_app, (proj1 (hex4_spec n Hn)); done].
  rewrite Hs. apply (well_formed_quiet _ _ Hq) in Hwf as [_ [_ He]]. unfold scan_code_unit.
  rewrite (run_bind _ _ _ _ _ (run_char_after s' He)), !(run_bind _ _ _ _ _ (run_char_at_after s' _ He)).
  assert (code_point_is_high_surrogate n = false /\ code_point_is_low_surrogate n = false) as [-> ->].
  { unfold is_scalar in Hsc. unfold code_point_is_high_surrogate, code_point_is_low_surrogate.
    rewrite orb_true_iff, !andb_true_iff, !Z.leb_le, !Z.ltb_lt in Hsc.
    rewrite !andb_false_iff, !Z.leb_gt, !Z.ltb_ge. lia. }
  cbn [andb orb]. unfold char_or_replacement, char_from_u32. by rewrite Hsc.
Qed.

(** A character outside the basic plane as two code units. *)
Definition high_unit (ch : char) : Z := Z.land (Z.shiftr (ch - 65536) 10) 1023 + 55296.
Definition low_unit (ch : char) : Z := Z.land (ch - 65536) 1023 + 56320.

(** The scanner joins two code units with [|] after adding 2^16 to the second: a carry is lost when bit 16 is
    set in the first already. *)
Definition joinable (ch : char) : bool := negb (Z.testbit (ch - 65536) 16).

Lemma lor_split c : 0 <= c -> Z.lor (Z.shiftl (c / 1024) 10) (c mod 1024) = c.
Proof.
  intros Hc. rewrite <- Z.add_nocarry_lor.
  - rewrite Z.shiftl_mul_pow2 by lia. pose proof (Z.div_mod c 1024 ltac:(lia)). change (2 ^ 10) with 1024. lia.
  - apply Z.bits_inj'. intros n Hn. rewrite Z.bits_0, Z.land_spec. destruct (decide (n < 10)).
    + by rewrite Z.shiftl_spec_low.
    + change 1024 with (2 ^ 10). rewrite Z.mod_pow2_bits_high by lia. apply andb_false_r.
Qed.

Lemma lor_bit c n : 0 <= n -> Z.lor c (2 ^ n) = if Z.testbit c n then c else c + 2 ^ n.
Proof.
  intros Hn. destruct (Z.testbit c n) eqn:E.
  - apply Z.bits_inj'. intros m Hm. rewrite Z.lor_spec, Z.pow2_bits_eqb by lia.
    destruct (Z.eqb_spec n m) as [<-|]; [by rewrite E|by rewrite orb_false_r].
  - rewrite Z.add_nocarry_lor; [done|]. apply Z.bits_inj'. intros m Hm.
    rewrite Z.bits_0, Z.land_spec, Z.pow2_bits_eqb by lia. destruct (Z.eqb_spec n m) as [<-|]; [by rewrite E|apply andb_false_r].
Qed.

Lemma units_spec ch :
  65536 <= ch < 1114112 ->
  55296 <= high_unit ch < 56320 /\ 56320 <= low_unit ch < 57344
  /\ surrogate_pair_to_codepoint (high_unit ch) (low_unit ch) = if joinable ch then ch else ch - 65536.
Proof.
  intros Hch. unfold high_unit, low_unit, surrogate_pair_to_codepoint, joinable. change 1023 with (Z.ones 10).
  rewrite !Z.land_ones, Z.shiftr_div_pow2 by lia. change (2 ^ 10) with 1024.
  set (c := ch - 65536). assert (0 <= c < 1048576) by (unfold c; lia).
  assert (0 <= c / 1024 < 1024) by (split; [apply Z.div_pos; lia|apply Z.div_lt_upper_bound; lia]).
  rewrite (Z.mod_small (c / 1024)) by lia. pose proof (Z.mod_pos_bound c 1024 ltac:(lia)).
  split; [lia|]. split; [lia|]. rewrite !Z.add_simpl_r. change 65536 with (2 ^ 16).
  assert (c mod 1024 + 2 ^ 16 = Z.lor (c mod 1024) (2 ^ 16)) as ->.
  { rewrite lor_bit by lia. rewrite Z.bits_above_log2; [done|lia|].
    destruct (decide (c mod 1024 = 0)) as [->|]; [done|]. apply Z.log2_lt_pow2; lia. }
  rewrite Z.lor_assoc, lor_split, lor_bit by lia. destruct (Z.testbit c 16); cbn [negb]; unfold c; lia.
Qed.

Lemma joined_scalar ch :
  65536 <= ch < 1114112 -> is_scalar (if joinable ch then ch else ch - 65536) = true.
Proof.
  intros Hch. unfold joinable. destruct (Z.testbit (ch - 65536) 16) eqn:E; cbn [negb]; unfold is_scalar;
    rewrite orb_true_iff, !andb_true_iff, !Z.leb_le, !Z.ltb_lt; [|lia].
  right. assert (65536 <= ch - 65536); [|lia]. destruct (decide (ch - 65536 < 65536)); [|lia].
  rewrite Z.bits_above_log2 in E; [done|lia|]. destruct (decide (ch - 65536 = 0)) as [->|]; [done|]. apply Z.log2_lt_pow2; lia.
Qed.

Lemma scan_pair_escape flags ch s :
  well_formed s -> literal_flags flags -> 65536 <= ch < 1114112 ->
  text_at s (pos s) ((bstr "\u" ++ hex4 (high_unit ch)) ++ bstr "\u" ++ hex4 (low_unit ch)) ->
  reads (scan_escape_sequence flags) ((bstr "\u" ++ hex4 (high_unit ch)) ++ bstr "\u" ++ hex4 (low_unit ch))
    (utf8_encode (if joinable ch then ch else ch - 65536)) s.
Proof.
  intros Hwf Hf Hch Ht. destruct (units_spec ch Hch) as (Hh & Hl & Hj).
  destruct (hex4_spec (high_unit ch) ltac:(lia)) as (L1 & _). destruct (hex4_spec (low_unit ch) ltac:(lia)) as (L2 & D2 & _).
  apply text_at_app in Ht as [H1 H2]. rewrite length_app, L1 in H2. cbn [length Nat.add] in H2.
  destruct (scan_unit_escape flags (high_unit ch) s Hwf Hf ltac:(lia) H1) as (s1 & E1 & Q1 & P1).
  apply (text_at_quiet _ _ _ _ Q1) in H2. rewrite <- P1 in H2.
  pose proof (well_formed_quiet _ _ Q1 Hwf) as Hwf1. pose proof Hwf1 as [_ [_ He]].
  destruct (scan_unicode4 (has flags ESC_REPORT_INVALID_ESCAPE_ERRORS) (low_unit ch) s1 Hwf1 ltac:(lia) H2)
    as (s2 & E2 & Q2 & P2).
  exists s2. split; [|split; [by eapply quiet_trans|]].
  2: { rewrite P2, P1, !length_app, L1, L2. cbn. lia. }
  rewrite E1. unfold scan_code_unit.
  rewrite (run_bind _ _ _ _ _ (run_char_after s1 He)), !(run_bind _ _ _ _ _ (run_char_at_after s1 _ He)).
  destruct (hex4 (low_unit ch)) as [|h hs]; [done|].
  assert (char_after s1 (pos s1) = 92 /\ char_after s1 (pos s1 + 1) = 117 /\ char_after s1 (pos s1 + 2) = h) as (-> & -> & ->).
  { rewrite (Nat.add_1_r (pos s1)). replace (pos s1 + 2)%nat with (S (S (pos s1))) by lia.
    split_and!; [|apply text_at_cons in H2 as [_ H2]|do 2 apply text_at_cons in H2 as [_ H2]]; by eapply text_at_char_after. }
  assert ((h =? 123) = false) as -> by (apply Z.eqb_neq; intros ->; inversion D2; done).
  destruct (literal_flags_has _ Hf) as [F1 F2]. rewrite F1, F2.
  assert (code_point_is_high_surrogate (high_unit ch) = true) as ->.
  { unfold code_point_is_high_surrogate. rewrite andb_true_iff, Z.leb_le, Z.ltb_lt. lia. }
  cbn [andb orb negb Z.eqb Pos.eqb].
  rewrite (run_bind (gets pos) _ s1 (pos s1) s1) by done. rewrite (run_bind _ _ _ _ _ E2).
  assert (code_point_is_low_surrogate (low_unit ch) = true) as ->.
  { unfold code_point_is_low_surrogate. rewrite andb_true_iff, Z.leb_le, Z.ltb_lt. lia. }
  rewrite Hj. unfold char_from_u32.
  by rewrite joined_scalar.
Qed.

(** ** Literals *)

(** [escapes w ch r]: the escape [w] before [r] stands for [ch]. *)
Inductive escapes : bytes -> char -> bytes -> Prop :=
  | escapes_simple ch v r : simple_escape ch = Some v -> escapes [92; ch] v r
  | escapes_null r : is_ascii_digit (hd 0 r) = false -> escapes (bstr "\0") 0 r
  | escapes_x00 r : escapes (bstr "\x00") 0 r
  | escapes_unit n r : is_scalar n = true -> n < 65536 -> escapes (bstr "\u" ++ hex4 n) n r
  | escapes_pair ch r :
      65536 <= ch < 1114112 -> joinable ch = true ->
      escapes ((bstr "\u" ++ hex4 (high_unit ch)) ++ bstr "\u" ++ hex4 (low_unit ch)) ch r.

(** [literal_of q w v]: the text [w], up to and with the closing quote, is a literal with the value [v]; a template
    may hold line feeds, but no substitution. *)
Inductive literal_of (q : char) : bytes -> list char -> Prop :=
  | literal_end : literal_of q [q] []
  | literal_plain ch w v :
      is_scalar ch = true -> ch <> q -> ch <> 92 -> ch <> 13 -> (q = chr "`" \/ ch <> 10) ->
      (q = chr "`" -> ch = chr "$" -> hd 0 w <> chr "{") ->
      literal_of q w v -> literal_of q (utf8_encode ch ++ w) (ch :: v)
  | literal_escape e ch w v :
      is_scalar ch = true -> escapes e ch w -> literal_of q w v -> literal_of q (e ++ w) (ch :: v).

Lemma hex4_ascii n : 0 <= n < 65536 -> Forall (fun b => b < 128) (hex4 n).
Proof. intros Hn. by apply hexdigits_ascii, hex4_spec. Qed.

Lemma simple_escape_ascii ch v : simple_escape ch = Some v -> ch < 128 /\ v < 128.
Proof.
  unfold simple_escape. intros Hv.
  repeat match type of Hv with (if ?b then _ else _) = _ => destruct b eqn:?Hb end; try done;
    injection Hv as <-; rewrite ?orb_true_iff, ?Z.eqb_eq in *; lia.
Qed.

Lemma escapes_ascii_bytes e ch r :
  escapes e ch r -> Forall (fun b => b < 128) e /\ exists e', e = 92 :: e'.
Proof.
  intros [c v ? Hv|?|?|n ? Hs Hn|c ? Hc Hj].
  - apply simple_escape_ascii in Hv as [H1 _]. split; [by repeat constructor|by eexists].
  - split; [by repeat constructor|by eexists].
  - split; [by repeat constructor|by eexists].
  - split; [|by eexists]. apply Forall_app. split; [by repeat constructor|]. apply hex4_ascii.
    unfold is_scalar in Hs. rewrite orb_true_iff, !andb_true_iff, !Z.leb_le, !Z.ltb_lt in Hs. lia.
  - split; [|by eexists]. destruct (units_spec c Hc) as (H1 & H2 & _).
    apply Forall_app; split; (apply Forall_app; split; [by repeat constructor|apply hex4_ascii; lia]).
Qed.

Lemma escapes_reads flags e ch r s :
  well_formed s -> literal_flags flags -> escapes e ch r -> r <> [] -> text_at s (pos s) (e ++ r) ->
  reads (scan_escape_sequence flags) e (utf8_encode ch) s.
Proof.
  intros Hwf Hf He Hr Ht. apply text_at_app in Ht as [Ht Hn]. destruct He as [c v ? Hv|? Hd|?|n ? Hs Hn'|c ? Hc Hj].
  - assert (utf8_encode v = [v]) as ->.
    { apply simple_escape_ascii in Hv as [_ ?]. unfold utf8_encode. by rewrite (proj2 (Z.ltb_lt _ _)). }
    by apply scan_simple_escape.
  - apply scan_null_escape; [done|done|]. destruct r as [|b r]; [done|].
    apply text_at_char_after in Hn. cbn [length] in Hn. by rewrite Hn.
  - by apply scan_x00_escape.
  - by apply scan_bmp_escape.
  - pose proof (scan_pair_escape flags c s Hwf Hf Hc Ht) as Hp. by rewrite Hj in Hp.
Qed.

Lemma literal_of_ne q w v : literal_of q w v -> w <> [].
Proof.
  intros [|ch w' v' Hs _ _ _ _ _ _|e ch w' v' _ He _]; [done| |].
  - intros E%(f_equal length). rewrite length_app, length_utf8_encode in E. pose proof (len_utf8_pos ch). cbn in E. lia.
  - by apply escapes_ascii_bytes in He as (_ & e' & ->).
Qed.

(** Reading one character of the text. *)
Lemma text_at_drop s p w : text_at s p w -> w <> [] -> exists r, drop p (text s) = w ++ r.
Proof.
  intros Ht _. exists (drop (length w) (drop p (text s))).
  pattern w at 1. rewrite <- (text_at_take _ _ _ Ht). by rewrite take_drop.
Qed.

Lemma encode_ne ch : utf8_encode ch <> [].
Proof. intros E%(f_equal length). rewrite length_utf8_encode in E. pose proof (len_utf8_pos ch). cbn in E. lia. Qed.

Lemma char_boundary_next s p ch :
  well_formed s -> is_scalar ch = true -> is_char_boundary (text s) p = true -> text_at s p (utf8_encode ch) ->
  is_char_boundary (text s) (p + len_utf8 ch) = true.
Proof.
  intros [Hv [_ He]] Hs Hb Ht. pose proof (text_at_end _ _ _ Ht (encode_ne ch)) as Hl.
  rewrite length_utf8_encode in Hl. pose proof (len_utf8_pos ch).
  destruct (next_char_at (text s) p Hv Hb ltac:(lia)) as (c & size & Hn & Hc).
  destruct (text_at_drop _ _ _ Ht (encode_ne ch)) as [r Hr]. rewrite Hr, next_char_encode in Hn by done.
  injection Hn as -> ->. apply (cas_next _ _ _ _ Hc).
Qed.

Lemma run_char_and_size_at ch s :
  well_formed s -> is_scalar ch = true -> is_char_boundary (text s) (pos s) = true ->
  text_at s (pos s) (utf8_encode ch) ->
  exists s', char_and_size s = Ok ((ch, len_utf8 ch), s') /\ quiet s s' /\ pos s' = pos s.
Proof.
  intros [Hv [_ He]] Hs Hb Ht. pose proof (text_at_end _ _ _ Ht (encode_ne ch)) as Hl.
  rewrite length_utf8_encode in Hl. pose proof (len_utf8_pos ch) as Hpos.
  unfold char_and_size. rewrite (run_bind get _ s s s) by done. rewrite (proj2 (Nat.leb_gt _ _)) by lia.
  destruct (utf8_encode ch) as [|b bs] eqn:E; [by apply encode_ne in E|]. rewrite <- E in *.
  assert (text s !! pos s = Some b) as Hb0.
  { rewrite E in Ht. by apply text_at_cons in Ht as [[_ ?] _]. }
  rewrite Hb0. rewrite (run_bind _ _ s b s) by done. destruct (b <? 128) eqn:E1.
  - exists s. split; [|done]. unfold utf8_encode in E. unfold len_utf8.
    assert (0 <= ch < 1114112) as Hch.
    { unfold is_scalar in Hs. rewrite orb_true_iff, !andb_true_iff, !Z.leb_le, !Z.ltb_lt in Hs. lia. }
    bool_to_prop. destruct (ch <? 128) eqn:E2; [by simplify_eq|]. exfalso.
    bool_to_prop. repeat match type of E with (if ?b then _ else _) = _ => destruct b eqn:?Hx; bool_to_prop end;
      injection E as E _; subst; zdiv.
  - unfold slice_from. rewrite slice_some; [|lia|done|apply is_char_boundary_len].
    rewrite take_ge by (rewrite length_drop; lia). cbn [mbind option_bind].
    destruct (text_at_drop _ _ _ Ht (encode_ne ch)) as [r Hr]. rewrite Hr, next_char_encode by done.
    destruct (1 <? len_utf8 ch)%nat; [exists (put_contains_non_ascii true s)|exists s]; done.
Qed.

(** ** The loops over literals *)

(** Where a loop stands: the characters [read] are in the buffer and the slice from [start], the text [w] from
    here on is the rest of a literal. *)
Record reading (q : char) (s0 : Scanner) (value_start fin : nat) (result : option bytes) (start : nat)
    (read todo : list char) (w : bytes) (s : Scanner) : Prop := {
  rd_quiet : quiet s0 s;
  rd_text : text_at s (pos s) w;
  rd_literal : literal_of q w todo;
  rd_fin : (pos s + length w)%nat = fin;
  rd_pos : is_char_boundary (text s) (pos s) = true;
  rd_start : is_char_boundary (text s) start = true;
  rd_value : exists part, text_at s start part /\ (start + length part)%nat = pos s
    /\ default [] result ++ part = utf8 read;
  rd_none : result = None -> start = value_start;
}.

(** The scanner after a literal. *)
Record literal_read (s0 : Scanner) (fin : nat) (v : list char) (s : Scanner) : Prop := {
  lr_text : text s = text s0;
  lr_end : end_ s = end_ s0;
  lr_start : token_start s = token_start s0;
  lr_full : full_start_pos s = full_start_pos s0;
  lr_diagnostics : diagnostics s = diagnostics s0;
  lr_pos : pos s = fin;
  lr_value : token_value s = Ok (utf8 v, s);
}.

Section loops.
Context (q : char) (s0 : Scanner) (value_start fin : nat).
Hypothesis Hwf : well_formed s0.

Lemma reading_part result start read todo w s :
  reading q s0 value_start fin result start read todo w s ->
  exists part, text_slice start (pos s) s = Ok (part, s) /\ default [] result ++ part = utf8 read.
Proof.
  intros [Hq _ _ _ Hp Hs (part & Ht & Hl & Hv) _]. exists part. split; [|done].
  rewrite <- Hl. apply text_slice_at; [done|by rewrite Hl|done].
Qed.

Lemma reading_push_part result start read todo w s :
  reading q s0 value_start fin result start read todo w s ->
  push_part result start s = Ok ((fun _ => utf8 read) <$> result, s).
Proof.
  intros Hr. destruct (reading_part _ _ _ _ _ _ Hr) as (part & Hs & Hv). destruct result as [r|]; [|done].
  unfold push_part. rewrite (run_bind (gets pos) _ s (pos s) s) by done. rewrite (run_bind _ _ _ _ _ Hs).
  cbn in Hv |- *. by rewrite Hv.
Qed.

Lemma reading_push_or_insert result start read todo w s :
  reading q s0 value_start fin result start read todo w s ->
  push_or_insert_part result start s = Ok (utf8 read, s).
Proof.
  intros Hr. destruct (reading_part _ _ _ _ _ _ Hr) as (part & Hs & Hv).
  unfold push_or_insert_part. rewrite (run_bind (gets pos) _ s (pos s) s) by done. rewrite (run_bind _ _ _ _ _ Hs).
  by rewrite Hv.
Qed.

(** A character is read, or an escape decoded. *)
Lemma reading_plain result start read ch todo w s s' n :
  reading q s0 value_start fin result start read (ch :: todo) (utf8_encode ch ++ w) s ->
  is_scalar ch = true -> literal_of q w todo -> n = len_utf8 ch -> quiet s s' -> pos s' = pos s ->
  reading q s0 value_start fin result start (read ++ [ch]) todo w (set_pos (pos s' + n) s').
Proof.
  intros [Hq Ht _ Hf Hp Hs (part & Htp & Hl & Hv) Hn] Hsc Hw -> Hq' Hp'.
  pose proof (text_at_app _ _ _ _ Ht) as [Hc Hr]. rewrite length_utf8_encode in Hr.
  assert (well_formed s) as Hwfs by (by eapply well_formed_quiet).
  assert (quiet s (set_pos (pos s' + len_utf8 ch) s')) as Hq2 by (eapply quiet_trans; [exact Hq'|done]).
  assert (text (set_pos (pos s' + len_utf8 ch) s') = text s) as Htx by apply Hq2.
  rewrite Hp' in *. split; [by eapply quiet_trans| |done| | | | |done]; cbn [pos set_pos].
  - by eapply text_at_quiet.
  - rewrite <- Hf, length_app, length_utf8_encode. lia.
  - rewrite Htx. by apply char_boundary_next.
  - by rewrite Htx.
  - exists (part ++ utf8_encode ch). split; [|split].
    + eapply text_at_quiet; [exact Hq2|]. intros k b Hk. apply lookup_app_Some in Hk as [Hk|[Hge Hk]]; [by apply Htp|].
      apply Hc in Hk. by replace (start + k)%nat with (pos s + (k - length part))%nat by lia.
    + rewrite length_app, length_utf8_encode. lia.
    + rewrite utf8_app, app_assoc, Hv. cbn [utf8 flat_map]. by rewrite app_nil_r.
Qed.

Lemma reading_escape result start read ch todo e w s s' :
  reading q s0 value_start fin result start read (ch :: todo) (e ++ w) s ->
  literal_of q w todo -> Forall (fun b => b < 128) e -> e <> [] ->
  quiet s s' -> pos s' = (pos s + length e)%nat ->
  reading q s0 value_start fin (Some (utf8 read ++ utf8_encode ch)) (pos s') (read ++ [ch]) todo w s'.
Proof.
  intros [Hq Ht _ Hf Hp _ _ _] Hw Ha Hne Hq' Hp'. apply text_at_app in Ht as [He Hr].
  assert (well_formed s) as Hwfs by (by eapply well_formed_quiet).
  destruct (text_at_boundaries s (pos s) e Hwfs Ha Hne He) as [_ B].
  assert (text s' = text s) as Htx by apply Hq'.
  split; [by eapply quiet_trans| |done| | | | |done].
  - rewrite Hp'. by eapply text_at_quiet.
  - rewrite Hp', <- Hf, length_app. lia.
  - by rewrite Hp', Htx.
  - by rewrite Hp', Htx.
  - exists []. split; [by intros ? ?|]. split; [cbn; lia|]. rewrite utf8_app. cbn [utf8 flat_map default]. by rewrite !app_nil_r.
Qed.

(** At the closing quote the value is complete. *)
Lemma reading_finish result start read s n :
  reading q s0 value_start fin result start read [] [q] s ->
  (n = fin) ->
  exists s', finish_value ((fun _ => utf8 read) <$> result) value_start (pos s) (set_pos n s) = Ok (tt, s')
    /\ literal_read s0 fin read s'.
Proof.
  intros Hr ->. pose proof (reading_part _ _ _ _ _ _ Hr) as (part & Hs & Hv).
  destruct Hr as [Hq Ht _ Hf Hp Hst _ Hn]. destruct Hq. destruct result as [r|]; cbn [fmap option_fmap option_map finish_value].
  - exists (put_token_value (Owned (utf8 read)) (set_pos fin s)). by repeat split.
  - exists (put_token_value (SourceRange value_start (pos s)) (set_pos fin s)). rewrite Hn in Hs by done.
    repeat split; try done. unfold token_value.
    rewrite (run_bind get _ _ _ _ eq_refl). cbn [token_value_ put_token_value text set_pos].
    unfold text_slice in Hs. rewrite (run_bind get _ s s s) in Hs by done. cbn in Hv. subst part.
    destruct (slice (text s) value_start (pos s)); [|done]. by injection Hs as ->.
Qed.
End loops.

Lemma reading_not_done q s0 vs fin result start read todo w s :
  well_formed s0 -> reading q s0 vs fin result start read todo w s -> (pos s < fin <= length (text s))%nat.
Proof.
  intros Hwf [Hq Ht Hw Hf _ _ _ _]. pose proof (literal_of_ne _ _ _ Hw) as Hne.
  pose proof (text_at_end _ _ _ Ht Hne). apply (well_formed_quiet _ _ Hq) in Hwf as [_ [_ He]].
  destruct w; [done|]. cbn in *. lia.
Qed.

Lemma quote_encode q : q < 128 -> utf8_encode q = [q] /\ len_utf8 q = 1%nat.
Proof. intros Hq. unfold utf8_encode, len_utf8. by rewrite (proj2 (Z.ltb_lt _ _) Hq). Qed.

(** What the next iteration finds: the closing quote, a character that stands for itself, or an escape. *)
Inductive next_piece (q : char) (s0 : Scanner) (vs fin : nat) (flags : Z) (result : option bytes) (start : nat)
    (read : list char) (s : Scanner) : list char -> Prop :=
  | next_quote :
      char_and_size s = Ok ((q, 1%nat), s) -> advance 1 s = Ok (tt, set_pos fin s) ->
      (exists s', finish_value ((fun _ => utf8 read) <$> result) vs (pos s) (set_pos fin s) = Ok (tt, s')
         /\ literal_read s0 fin read s') ->
      next_piece q s0 vs fin flags result start read s []
  | next_plain ch todo w s1 :
      char_and_size s = Ok ((ch, len_utf8 ch), s1) -> (len_utf8 ch =? 0)%nat = false ->
      (ch =? q) = false -> (ch =? 92) = false -> (ch =? 13) = false -> (q = chr "`" \/ (ch =? 10) = false) ->
      (q = chr "`" -> (ch =? chr "$") && (char_after s1 (pos s1 + 1) =? chr "{") = false) ->
      (pos s < pos s1 + len_utf8 ch)%nat ->
      reading q s0 vs fin result start (read ++ [ch]) todo w (set_pos (pos s1 + len_utf8 ch) s1) ->
      next_piece q s0 vs fin flags result start read s (ch :: todo)
  | next_escape ch todo w s1 :
      char_and_size s = Ok ((92, 1%nat), s) ->
      scan_escape_sequence flags s = Ok (utf8_encode ch, s1) -> (pos s < pos s1)%nat ->
      reading q s0 vs fin (Some (utf8 read ++ utf8_encode ch)) (pos s1) (read ++ [ch]) todo w s1 ->
      next_piece q s0 vs fin flags result start read s (ch :: todo).

Lemma reading_next q s0 vs fin flags result start read todo w s :
  well_formed s0 -> q < 128 -> literal_flags flags -> reading q s0 vs fin result start read todo w s ->
  next_piece q s0 vs fin flags result start read s todo.
Proof.
  intros Hwf Hq Hf Hr. pose proof (well_formed_quiet _ _ (rd_quiet _ _ _ _ _ _ _ _ _ _ Hr) Hwf) as Hwfs.
  pose proof (rd_text _ _ _ _ _ _ _ _ _ _ Hr) as Ht. pose proof (rd_pos _ _ _ _ _ _ _ _ _ _ Hr) as Hb.
  pose proof (rd_fin _ _ _ _ _ _ _ _ _ _ Hr) as Hfin.
  destruct (rd_literal _ _ _ _ _ _ _ _ _ _ Hr) as [|ch w v Hs Hc1 Hc2 Hc3 Hc4 Hc5 Hw|e ch w v Hs He Hw].
  - apply next_quote.
    + apply text_at_cons in Ht as [[L1 L2] _]. by apply run_char_and_size_ascii.
    + by rewrite <- Hfin.
    + by eapply reading_finish.
  - pose proof (text_at_app _ _ _ _ Ht) as [Hct Hnt]. pose proof (len_utf8_pos ch).
    destruct (run_char_and_size_at ch s Hwfs Hs Hb Hct) as (s1 & E & Hq1 & Hp1).
    apply (next_plain _ _ _ _ _ _ _ _ _ ch v w s1); try done; try (by apply Z.eqb_neq); try (apply Nat.eqb_neq; lia); try lia.
    + intros Hq96. destruct (ch =? 36) eqn:E36; [|done]. bool_to_prop. subst ch. apply Z.eqb_neq.
      specialize (Hc5 Hq96 eq_refl). pose proof (literal_of_ne _ _ _ Hw). destruct w as [|b w]; [done|].
      apply (text_at_quiet _ _ _ _ Hq1), text_at_char_after in Hnt. rewrite Hp1.
      change (length (utf8_encode 36)) with 1%nat in Hnt. by rewrite Hnt.
    + by eapply reading_plain.
  - destruct (escapes_ascii_bytes _ _ _ He) as [Ha [e' Ee]].
    destruct (escapes_reads flags e ch w s Hwfs) as (s1 & E & Hq1 & Hp1); [done|done|by eapply literal_of_ne|done|].
    apply (next_escape _ _ _ _ _ _ _ _ _ ch v w s1); [|done| |].
    + rewrite Ee in Ht. apply text_at_cons in Ht as [[L1 L2] _]. by apply run_char_and_size_ascii.
    + rewrite Hp1, Ee. cbn [length]. lia.
    + eapply reading_escape; try done. by rewrite Ee.
Qed.

(** The loop reads a literal to its end. *)
Lemma scan_string_loop_literal q s0 vs fin v w :
  well_formed s0 -> q = 34 \/ q = 39 -> reading q s0 vs fin None vs [] v w s0 ->
  wp (scan_string_loop q false vs) (fun _ s' => literal_read s0 fin v s') s0.
Proof.
  intros Hwf Hq H0. unfold scan_string_loop, loop. apply wp_bind, wp_get.
  apply (wp_iter _ (fun l s => exists read todo w, v = read ++ todo /\ reading q s0 vs fin (fst l) (snd l) read todo w s)
    (fun _ s => (fin - pos s)%nat)).
  3: { pose proof (reading_not_done _ _ _ _ _ _ _ _ _ _ Hwf H0). unfold loop_fuel. lia. }
  2: { by exists [], v, w. }
  clear H0 w. intros [result start] s (read & todo & w & -> & Hr). cbn [fst snd] in Hr.
  pose proof (reading_not_done _ _ _ _ _ _ _ _ _ _ Hwf Hr) as Hlt. apply wp_run.
  destruct (reading_next q s0 vs fin (Z.lor ESC_STRING ESC_REPORT_ERRORS) result start read todo w s)
    as [E Ha (s' & Ef & Hd)|ch todo w' s1 E E0 E1 E2 E3 E4 _ Hp Hr'|ch todo w' s1 E Ee Hp Hr']; [done|lia|by left|done| | |].
  - exists (inr tt), s'. split; [|by rewrite app_nil_r].
    rewrite (run_bind _ _ _ _ _ E). cbn [Nat.eqb]. rewrite Z.eqb_refl.
    rewrite (run_bind _ _ _ _ _ (reading_push_part _ _ _ _ _ _ _ _ _ _ Hr)), (run_bind (gets pos) _ s (pos s) s) by done.
    by rewrite (run_bind _ _ _ _ _ Ha), (run_bind _ _ _ _ _ Ef).
  - eexists (inl (result, start)), _. split.
    + rewrite (run_bind _ _ _ _ _ E), E0, E1, E2, E3. destruct E4 as [?|E4]; [lia|]. by rewrite E4.
    + split; [|cbn [pos set_pos]; lia]. exists (read ++ [ch]), todo, w'. by split; [rewrite <- app_assoc|].
  - eexists (inl (Some (utf8 read ++ utf8_encode ch), pos s1)), s1. split.
    + rewrite (run_bind _ _ _ _ _ E). cbn [Nat.eqb]. rewrite (proj2 (Z.eqb_neq 92 q)) by lia. cbn [Z.eqb Pos.eqb negb andb].
      by rewrite (run_bind _ _ _ _ _ (reading_push_or_insert _ _ _ _ _ _ _ _ _ _ Hr)), (run_bind _ _ _ _ _ Ee).
    + split; [|lia]. exists (read ++ [ch]), todo, w'. by split; [rewrite <- app_assoc|].
Qed.

(** ** The fast path: the first quote and what is before it *)
Lemma find_sub_elem q l : In q l -> exists n, find_sub [q] l = Some n.
Proof.
  induction l as [|b l IH]; [done|]. cbn [In find_sub]. unfold starts_with. cbn [length take]. intros Hin.
  destruct (decide (b = q)) as [->|Hne]; [rewrite bool_decide_eq_true_2 by done; by exists 0%nat|].
  rewrite bool_decide_eq_false_2 by congruence. destruct IH as [n ->]; [tauto|]. by exists (S n).
Qed.

Lemma find_sub_skip q v l : Forall (fun b => b <> q) v -> find_sub [q] (v ++ l) = (fun n => (length v + n)%nat) <$> find_sub [q] l.
Proof.
  induction 1 as [|b v Hb Hv IH]; cbn [app find_sub length]; [by destruct (find_sub [q] l)|].
  unfold starts_with. cbn [length take]. rewrite bool_decide_eq_false_2 by congruence. rewrite IH.
  by destruct (find_sub [q] l).
Qed.

Lemma encode_no_ascii ch q : is_scalar ch = true -> ch <> q -> q < 128 -> Forall (fun b => b <> q) (utf8_encode ch).
Proof.
  intros Hs Hne Hq. unfold is_scalar in Hs. assert (0 <= ch < 1114112) as Hch.
  { apply orb_true_iff in Hs as [Hs|Hs]; bool_to_prop; lia. }
  unfold utf8_encode. repeat case_if; repeat constructor; try done; zdiv.
Qed.

Lemma literal_of_closed q w v : literal_of q w v -> In q w.
Proof. induction 1; [by left|apply in_or_app; by right..]. Qed.

Lemma contains_byte_app b l1 l2 : contains_byte b (l1 ++ l2) = contains_byte b l1 || contains_byte b l2.
Proof. apply existsb_app. Qed.

Lemma literal_find q w v r :
  q = 34 \/ q = 39 -> literal_of q w v ->
  exists n, find_sub [q] (w ++ r) = Some n
    /\ (w = utf8 v ++ [q] /\ n = length (utf8 v) \/ contains_byte 92 (take n (w ++ r)) = true).
Proof.
  intros Hq Hw. induction Hw as [|ch w v Hs Hc1 Hc2 _ _ _ Hw IH|e ch w v Hs He Hw IH].
  - exists 0%nat. cbn [app find_sub]. unfold starts_with. cbn [length take].
    rewrite bool_decide_eq_true_2 by done. split; [done|]. by left.
  - destruct IH as (n & Hn & Hd). exists (length (utf8_encode ch) + n)%nat.
    rewrite <- app_assoc, find_sub_skip by (apply encode_no_ascii; (done || lia)). rewrite Hn. split; [done|].
    destruct Hd as [[-> ->]|Hd]; [left; cbn [utf8 flat_map]; by rewrite <- app_assoc, length_app|right].
    rewrite take_app_add, contains_byte_app, Hd. apply orb_true_r.
  - destruct (escapes_ascii_bytes _ _ _ He) as (_ & e' & ->). cbn [app find_sub]. unfold starts_with. cbn [length take].
    rewrite bool_decide_eq_false_2 by (intros [=]; lia).
    destruct (find_sub_elem q ((e' ++ w) ++ r)) as [n ->].
    { apply in_or_app; left. apply in_or_app; right. by eapply literal_of_closed. }
    exists (S n). split; [done|]. by right.
Qed.

Lemma find_byte_lookup q l n : find_sub [q] l = Some n -> l !! n = Some q.
Proof.
  revert n. induction l as [|b l IH]; intros n; cbn [find_sub]; [done|]. unfold starts_with. cbn [length take].
  case_bool_decide as E; [by intros [= <-]; injection E as ->|]. destruct (find_sub [q] l); [|done].
  intros [= <-]. by apply IH.
Qed.

(** The slice up to the quote that was found. *)
Lemma run_slice_found q s p n l :
  well_formed s -> q < 128 -> is_char_boundary (text s) p = true ->
  take (end_ s - p) (drop p (text s)) = l -> find_sub [q] l = Some n ->
  is_char_boundary (text s) (p + n) = true /\ text_slice p (p + n) s = Ok (take n l, s).
Proof.
  intros [Hv _] Hq Hb <- Hf. apply find_byte_lookup in Hf. apply lookup_take_Some in Hf as [Hl Hn].
  rewrite lookup_drop in Hl. destruct (ascii_byte_boundary _ _ _ Hv Hl Hq) as [B _]. split; [done|].
  unfold text_slice. rewrite (run_bind get _ s s s) by done. rewrite slice_some by (done || lia).
  replace (p + n - p)%nat with n by lia. by rewrite take_take, Nat.min_l by lia.
Qed.

Lemma utf8_nil v : length (utf8 v) = 0%nat -> v = [].
Proof. destruct v as [|ch v]; [done|]. rewrite length_utf8_cons. pose proof (len_utf8_pos ch). lia. Qed.

(** The rest of the text from the first character of a literal. *)
Lemma run_slice_to_end s p w :
  well_formed s -> is_char_boundary (text s) p = true -> text_at s p w -> w <> [] ->
  exists r, text_slice p (end_ s) s = Ok (w ++ r, s) /\ take (end_ s - p) (drop p (text s)) = w ++ r.
Proof.
  intros [_ [Heb He]] Hb Ht Hne. destruct (text_at_rest s p w He Ht Hne) as [r Hr].
  exists r. split; [|done]. pose proof (text_at_end _ _ _ Ht Hne). unfold text_slice. rewrite (run_bind get _ s s s) by done.
  rewrite slice_some by (done || lia). by rewrite Hr.
Qed.

Lemma scan_string_value q w v s :
  well_formed s -> q = 34 \/ q = 39 -> text_at s (pos s) (q :: w) -> literal_of q w v ->
  exists s', scan_string_and_set_token_value false s = Ok (tt, s')
    /\ literal_read s (S (pos s) + length w)%nat v s'.
Proof.
  intros Hwf Hq Ht Hw. destruct (quote_encode q ltac:(lia)) as [Eq Lq]. pose proof Hwf as [Hv [Heb He]].
  pose proof Ht as Ht'. apply text_at_cons in Ht' as [[L1 L2] Htw].
  destruct (ascii_byte_boundary _ _ _ Hv L2 ltac:(lia)) as [_ B1].
  set (s1 := if q =? 39 then put_token_flags (Z.lor (token_flags s) TokenFlags.SINGLE_QUOTE) s else s).
  set (s2 := set_pos (S (pos s)) s1).
  assert (quiet s s2) as Hq2 by (subst s2 s1; by destruct (q =? 39)).
  assert (text s2 = text s /\ end_ s2 = end_ s /\ pos s2 = S (pos s)) as (T2 & E2 & P2) by (subst s2 s1; by destruct (q =? 39)).
  pose proof (well_formed_quiet _ _ Hq2 Hwf) as Hwf2. pose proof (text_at_quiet _ _ _ _ Hq2 Htw) as Htw2.
  pose proof (literal_of_ne _ _ _ Hw) as Hne. set (fin := (S (pos s) + length w)%nat).
  assert (reading q s2 (S (pos s)) fin None (S (pos s)) [] v w s2) as H0.
  { rewrite <- P2 in Htw2 |- *. split; try done; try (by rewrite P2, ?T2).
    exists []. split; [by intros ? ?|]. split; [cbn; lia|done]. }
  assert (forall s', literal_read s2 fin v s' -> literal_read s fin v s') as Hlr.
  { destruct Hq2. intros s' []. split; congruence. }
  unfold scan_string_and_set_token_value. rewrite (run_bind char_ _ s q s) by (by apply run_char).
  rewrite (run_bind (when _ _) _ s tt s1) by (subst s1; by destruct (q =? 39)).
  rewrite Lq, Eq. rewrite (run_bind (advance 1) _ s1 tt s2).
  2: { unfold advance, modify, s2. subst s1. destruct (q =? 39); cbn; by rewrite Nat.add_1_r. }
  rewrite (run_bind (gets pos) _ s2 (S (pos s)) s2) by (unfold gets; by rewrite P2).
  rewrite (run_bind (gets end_) _ s2 (end_ s2) s2) by done.
  rewrite <- T2 in B1. destruct (run_slice_to_end s2 (S (pos s)) w Hwf2 B1 Htw2 Hne) as (r & Hr & Hrest).
  rewrite (run_bind _ _ _ _ _ Hr). destruct (literal_find q w v r Hq Hw) as (n & Hfind & Hn). rewrite Hfind.
  destruct (run_slice_found q s2 (S (pos s)) n _ Hwf2 ltac:(lia) B1 Hrest Hfind) as [B2 Hslice].
  assert (w = utf8 v ++ [q] -> n = length (utf8 v) ->
    literal_read s fin v (put_token_value (SourceRange (S (pos s)) (S (pos s) + n)) (set_pos fin s2))) as Hfast.
  { intros Ew ->. rewrite Ew in Htw2. apply text_at_app in Htw2 as [Hvat _].
    apply Hlr. split; try done. by apply (token_value_range _ (S (pos s))). }
  assert (forall k, (S (pos s) + k)%nat = fin -> advance k s2 = Ok (tt, set_pos fin s2)) as Hadv.
  { intros k <-. unfold advance, modify. by rewrite P2. }
  assert (w = utf8 v ++ [q] -> n = length (utf8 v) -> (S (pos s) + (n + 1))%nat = fin) as Hfin.
  { intros Ew ->. unfold fin. rewrite Ew, length_app. done. }
  cbn zeta. destruct (n =? 0)%nat eqn:E0; bool_to_prop.
  - subst n. destruct Hn as [[Ew Hlen]|Hn]; [|done]. eexists. split; [|by apply Hfast].
    by rewrite (run_bind _ _ _ _ _ (Hadv 1%nat (Hfin Ew Hlen))).
  - rewrite (run_bind _ _ _ _ _ Hslice). destruct (simple_literal false (take n (w ++ r))) eqn:Es.
    + destruct Hn as [[Ew Hlen]|Hn]; [|unfold simple_literal in Es; rewrite Hn, !andb_false_r in Es; done].
      eexists. split; [|by apply Hfast]. by rewrite (run_bind _ _ _ _ _ (Hadv (n + 1)%nat (Hfin Ew Hlen))).
    + pose proof (scan_string_loop_literal q s2 (S (pos s)) fin v w Hwf2 Hq H0) as Hwp.
      apply wp_run in Hwp as ([] & s' & E & Hd). exists s'. split; [done|by apply Hlr].
Qed.

(** ** Templates *)
Definition template_flags (report : bool) : Z := if report then Z.lor ESC_STRING ESC_REPORT_ERRORS else ESC_STRING.

Lemma template_flags_literal report : literal_flags (template_flags report).
Proof. destruct report; [by left|by right]. Qed.

Lemma scan_template_literal report s w v :
  well_formed s -> text_at s (pos s) (chr "`" :: w) -> literal_of (chr "`") w v ->
  exists s', scan_template_and_set_token_value report s = Ok (Kind.NoSubstitutionTemplateLiteral, s')
    /\ literal_read s (S (pos s) + length w)%nat v s'.
Proof.
  intros Hwf Ht Hw. pose proof Hwf as [Hv [Heb He]]. pose proof Ht as Ht'. apply text_at_cons in Ht' as [[L1 L2] Htw].
  destruct (ascii_byte_boundary _ _ _ Hv L2 ltac:(lia)) as [_ B1].
  set (s0 := set_pos (S (pos s)) s). assert (well_formed s0) as Hwf0 by exact Hwf. set (vs := S (pos s)). set (fin := (vs + length w)%nat).
  assert (reading (chr "`") s0 vs fin None vs [] v w s0) as H0.
  { split; try done. exists []. split; [by intros ? ?|]. split; [cbn; lia|done]. }
  unfold scan_template_and_set_token_value. rewrite (run_bind char_ _ s 96 s) by (by apply run_char). cbn zeta.
  rewrite (run_bind (advance 1) _ s tt s0) by (unfold advance, modify; by rewrite Nat.add_1_r).
  rewrite (run_bind (gets pos) _ s0 vs s0) by done. fold (template_flags report).
  match goal with |- context [(loop ?body ?l ≫= _) s0] =>
    assert (wp (loop body l) (fun r s' => exists s'', r.1.1 = Kind.NoSubstitutionTemplateLiteral
      /\ finish_value r.1.2 vs r.2 s' = Ok (tt, s'') /\ literal_read s0 fin v s'') s0) as Hloop end.
  2: { apply wp_run in Hloop as ([[token result] value_end] & s' & E & s'' & Hk & Hf & Hd). cbn [fst snd] in *. subst token.
    rewrite (run_bind _ _ _ _ _ E), (run_bind _ _ _ _ _ Hf). exists s''. split; [done|]. by destruct Hd; split. }
  unfold loop. apply wp_bind, wp_get.
  apply (wp_iter _ (fun l s => exists read todo w, v = read ++ todo
      /\ reading (chr "`") s0 vs fin (fst l) (snd l) read todo w s) (fun _ s => (fin - pos s)%nat)).
  3: { pose proof (reading_not_done _ _ _ _ _ _ _ _ _ _ Hwf0 H0). unfold loop_fuel. lia. }
  2: { by exists [], v, w. }
  clear -Hwf0. intros [result start] s1 (read & todo & w1 & -> & Hr). cbn [fst snd] in Hr.
  pose proof (reading_not_done _ _ _ _ _ _ _ _ _ _ Hwf0 Hr) as Hlt. apply wp_run.
  pose proof (well_formed_quiet _ _ (rd_quiet _ _ _ _ _ _ _ _ _ _ Hr) Hwf0) as [_ [_ He1]].
  destruct (reading_next (chr "`") _ _ _ (template_flags report) _ _ _ _ _ _ Hwf0 ltac:(lia) (template_flags_literal report) Hr)
    as [E Ha (s' & Ef & Hd)|ch todo w' s2 E E0 E1 E2 E3 E4 E5 Hp Hr'|ch todo w' s2 E Ee Hp Hr'].
  - eexists (inr (_, _, _)), (set_pos fin s1). split; [|exists s'; rewrite app_nil_r; split; [|split; [exact Ef|exact Hd]]].
    + rewrite (run_bind _ _ _ _ _ E), (run_bind _ _ _ _ _ (run_char_at_after s1 1 He1)). cbn [Nat.eqb Z.eqb Pos.eqb orb].
      rewrite (run_bind (gets pos) _ s1 (pos s1) s1) by done.
      rewrite (run_bind _ _ _ _ _ (reading_push_part _ _ _ _ _ _ _ _ _ _ Hr)). by rewrite (run_bind _ _ _ _ _ Ha).
    + done.
  - eexists (inl (result, start)), _. split.
    + assert (end_ s2 <= length (text s2))%nat as He2.
      { pose proof (quiet_text _ _ (rd_quiet _ _ _ _ _ _ _ _ _ _ Hr')) as T. pose proof (quiet_end _ _ (rd_quiet _ _ _ _ _ _ _ _ _ _ Hr')) as T'.
        cbn [text set_pos end_] in T, T'. rewrite T, T'. apply Hwf0. }
      rewrite (run_bind _ _ _ _ _ E), (run_bind _ _ _ _ _ (run_char_at_after s2 1 He2)), E0, E1, (E5 eq_refl), E2, E3. done.
    + split; [|cbn [pos set_pos]; lia]. exists (read ++ [ch]), todo, w'. by split; [rewrite <- app_assoc|].
  - eexists (inl (Some (utf8 read ++ utf8_encode ch), pos s2)), s2. split.
    + rewrite (run_bind _ _ _ _ _ E), (run_bind _ _ _ _ _ (run_char_at_after s1 1 He1)). cbn [Nat.eqb Z.eqb Pos.eqb orb andb].
      rewrite (run_bind _ _ _ _ _ (reading_push_or_insert _ _ _ _ _ _ _ _ _ _ Hr)), (run_bind _ _ _ _ _ Ee).
      by rewrite (run_bind (gets pos) _ s2 (pos s2) s2).
    + split; [|lia]. exists (read ++ [ch]), todo, w'. by split; [rewrite <- app_assoc|].
Qed.
