(* ===== verification/EscapeThm.v ===== *)
(** * EscapeThm: printed literals are scanned back

    What the printer of Escape.v writes between quotes is a literal in the sense of EscapeScan.v, so that the scanner
    reads it as one token whose value is the string; but two escapes for a character of every second plane
    are joined to a different character. *)
From S2P Require Import Prelude Text Chars SyntaxKind Monad Numerals JsNum Keywords Trivia Strs.
From S2P Require Import ScannerState ScannerOps Scanner ScannerPanic ScannerFun ScannerEscape Escape EscapeScan.

(** ** The printer *)

(** The table of escapes: a letter of its own, or the code unit. *)
Lemma escaped_char_spec ch m :
  escaped_char ch = Some m -> (exists c, m = [92; c] /\ simple_escape c = Some ch) \/ m = bstr "\u" ++ hex4 ch.
Proof.
  unfold escaped_char. intros H.
  repeat match type of H with (if ch =? ?n then _ else _) = _ => destruct (Z.eqb_spec ch n) as [->|_] end; try done;
    injection H as <-; first [right; vm_compute; reflexivity | left; eexists; split; [reflexivity|vm_compute; reflexivity]].
Qed.

Section printer.
Context (quote_char : QuoteChar) (flags : Z).
Abbreviation loop := (escape_loop quote_char flags).
Abbreviation q := (as_char quote_char).

Lemma escape_char_app b ch rest : escape_char b ch rest = b ++ escape_char [] ch rest.
Proof.
  unfold escape_char. rewrite !encode_utf16_hex4. repeat case_match; by rewrite ?app_nil_l, <- ?app_assoc.
Qed.

Lemma escape_jsx_app b ch : escape_jsx b ch = b ++ escape_jsx [] ch.
Proof. unfold escape_jsx, encode_jsx_character_entity. by repeat case_match. Qed.

(** The buffer and the pending slice come before what the rest of the loop writes. *)
Lemma escape_loop_app run s b : loop run s b = b ++ run ++ loop [] s [].
Proof.
  remember (length s) as n eqn:Hn. revert run s b Hn. induction n as [n IH] using lt_wf_ind; intros run s b ->.
  destruct s as [|ch rest]; cbn [escape_loop]; [by rewrite app_nil_r|].
  assert (forall run s b, (length s < length (ch :: rest))%nat -> loop run s b = b ++ run ++ loop [] s []) as IH'
    by (intros; by eapply IH). clear IH.
  destruct (needs_escape quote_char flags ch rest).
  2: { rewrite (IH' _ _ b), (IH' ([] ++ [ch])) by (cbn; lia). by rewrite <- !app_assoc. }
  case_match.
  { rewrite (IH' _ _ (escape_jsx _ _)), (IH' _ _ (escape_jsx ([] ++ []) _)) by (cbn; lia).
    rewrite escape_jsx_app. cbn [app]. by rewrite <- !app_assoc. }
  destruct rest as [|next rest].
  { rewrite (IH' _ _ (escape_char _ _ _)), (IH' _ _ (escape_char ([] ++ []) _ _)) by (cbn; lia).
    rewrite escape_char_app. cbn [app]. by rewrite <- !app_assoc. }
  case_match; rewrite (IH' _ _ (_ ++ _)) || rewrite (IH' _ _ (escape_char _ _ _)); try (cbn; lia).
  - rewrite (IH' _ _ (([] ++ []) ++ _)) by (cbn; lia). cbn [app]. by rewrite <- !app_assoc.
  - rewrite (IH' _ _ (escape_char ([] ++ []) _ _)) by (cbn; lia). rewrite escape_char_app. cbn [app]. by rewrite <- !app_assoc.
Qed.

Definition escaped (s : str) : str := loop [] s [].

Lemma escaped_worker s b : escape_string_worker quote_char flags s b = b ++ escaped s.
Proof. apply escape_loop_app. Qed.

Hypothesis no_jsx : GetLiteralTextFlags.contains flags GetLiteralTextFlags.JSX_ATTRIBUTE_ESCAPE = false.

Definition crlf (ch : char) (rest : str) : bool :=
  (ch =? 13) && bool_decide (quote_char = Backtick) && next_is 10 rest.

Lemma escaped_cons ch rest :
  escaped (ch :: rest)
  = if needs_escape quote_char flags ch rest then
      if crlf ch rest then bstr "\r\n" ++ escaped (tail rest) else escape_char [] ch rest ++ escaped rest
    else ch :: escaped rest.
Proof.
  unfold escaped at 1. cbn [escape_loop]. rewrite no_jsx. unfold crlf, next_is.
  destruct (needs_escape quote_char flags ch rest); [|rewrite escape_loop_app; by cbn [app]].
  destruct rest as [|next rest]; cbn [head tail].
  - rewrite (bool_decide_eq_false_2 (None = Some 10)), andb_false_r by done. by rewrite escape_loop_app.
  - assert (bool_decide (Some next = Some 10) = (next =? 10)) as ->.
    { destruct (Z.eqb_spec next 10) as [->|]; [by apply bool_decide_eq_true_2|apply bool_decide_eq_false_2; congruence]. }
    case_match; rewrite escape_loop_app; by cbn [app].
Qed.

(** A character that no escape loses: two escapes of a character outside the basic plane are joined to it. *)
Definition survives (ch : char) : bool :=
  GetLiteralTextFlags.contains flags GetLiteralTextFlags.NEVER_ASCII_ESCAPE || (ch <? 65536) || joinable ch.

Lemma utf8_small l : Forall (fun b => b < 128) l -> utf8 l = l.
Proof. induction 1 as [|b l Hb Hl IH]; [done|]. cbn [utf8 flat_map]. rewrite (proj1 (quote_encode b Hb)). by cbn [app]; f_equal. Qed.

(** The first byte of what is written for a string, before the closing quote. *)
Lemma hd_escaped rest c :
  c < 128 -> c <> 92 -> c <> q -> Forall (fun ch => is_scalar ch = true) rest ->
  hd 0 (utf8 (escaped rest ++ [q])) = c -> head rest = Some c.
Proof.
  intros Hc H92 Hcq Hs Hh. assert (q < 128) as Hq by (by destruct quote_char). destruct rest as [|ch rest].
  - cbn [escaped escape_loop app] in Hh. cbn in Hh. destruct (quote_encode q Hq) as [E _]. rewrite E in Hh. by cbn in Hh.
  - rewrite escaped_cons in Hh. apply Forall_cons in Hs as [Hsc Hs]. destruct (needs_escape _ _ _ _).
    + exfalso. destruct (crlf ch rest); [by cbn in Hh|].
      assert (exists e, escape_char [] ch rest = 92 :: e) as [e Ee].
      { unfold escape_char. rewrite !encode_utf16_hex4. repeat case_match; (eexists; done) || idtac.
        unfold escaped_char in *. repeat (case_match; simplify_eq; try by eexists). }
      rewrite Ee in Hh. cbn in Hh. lia.
    + cbn [app utf8 flat_map] in Hh. cbn [head]. f_equal. unfold utf8_encode in Hh.
      assert (0 <= ch < 1114112) as Hch.
      { unfold is_scalar in Hsc. rewrite orb_true_iff, !andb_true_iff, !Z.leb_le, !Z.ltb_lt in Hsc. lia. }
      repeat case_match; bool_to_prop; cbn [app hd] in Hh; [lia|zdiv..].
Qed.

Lemma next_is_spec b rest : next_is b rest = true <-> head rest = Some b.
Proof. apply bool_decide_eq_true. Qed.

(** What is not escaped stands for itself. *)
Lemma unescaped_plain ch rest :
  needs_escape quote_char flags ch rest = false ->
  ch <> q /\ ch <> 92 /\ ch <> 13 /\ (q = chr "`" \/ ch <> 10) /\ (q = chr "`" -> ch = chr "$" -> head rest <> Some (chr "{")).
Proof.
  unfold needs_escape. rewrite no_jsx.
  destruct (Z.eqb_spec ch 92) as [|H1]; [done|]. destruct (Z.eqb_spec ch 36) as [->|H2].
  - intros H. split_and!; [by destruct quote_char|done|done|by right|]. intros Hq _ Hh.
    apply next_is_spec in Hh. rewrite Hh, andb_true_r in H. by destruct quote_char.
  - destruct (Z.eqb_spec ch 13) as [|H3]; [by rewrite !orb_true_r|]. case_match; [done|].
    destruct (Z.eqb_spec ch 10) as [->|H4].
    + intros H'. split_and!; try done; [destruct quote_char; done|]. left. by destruct quote_char.
    + destruct (Z.eqb_spec ch q); [done|]. intros _. split_and!; try done; by right.
Qed.

(** An escape stands for its character. *)
Lemma escape_char_escapes ch rest w :
  is_scalar ch = true -> needs_escape quote_char flags ch rest = true -> survives ch = true ->
  (is_ascii_digit (hd 0 w) = true -> exists d, head rest = Some d /\ is_ascii_digit d = true) ->
  escapes (escape_char [] ch rest) ch w.
Proof.
  intros Hs Hn Hv Hd. assert (0 <= ch < 1114112) as Hch.
  { unfold is_scalar in Hs. rewrite orb_true_iff, !andb_true_iff, !Z.leb_le, !Z.ltb_lt in Hs. lia. }
  unfold escape_char. destruct (65535 <? ch) eqn:E; bool_to_prop.
  - rewrite !encode_utf16_hex4. apply escapes_pair; [lia|]. unfold survives in Hv.
    rewrite (proj2 (Z.ltb_ge ch 65536)), orb_false_r in Hv by lia. destruct (joinable ch); [done|].
    rewrite orb_false_r in Hv. exfalso. unfold needs_escape in Hn. rewrite Hv in Hn.
    assert (q < 128) by (by destruct quote_char).
    repeat match type of Hn with context [ch =? ?x] => rewrite (proj2 (Z.eqb_neq ch x)) in Hn by lia end.
    rewrite (proj2 (Z.leb_gt ch 31)) in Hn by lia. done.
  - destruct (Z.eqb_spec ch 0) as [->|H0].
    + destruct (head rest) as [d|] eqn:Eh; [destruct (is_ascii_digit d) eqn:Ed; [apply escapes_x00|]|]; apply escapes_null.
      all: destruct (is_ascii_digit (hd 0 w)) eqn:Ew; [|done]; destruct (Hd eq_refl) as (d' & Hd1 & Hd2); congruence.
    + destruct (escaped_char ch) as [m|] eqn:Em.
      * apply escaped_char_spec in Em as [(c & -> & Hc)| ->]; [by apply escapes_simple|apply escapes_unit; [done|lia]].
      * rewrite encode_utf16_hex4. apply escapes_unit; [done|lia].
Qed.

(** The printer writes a literal of the string. *)
Lemma escaped_literal s :
  Forall (fun ch => is_scalar ch = true) s -> Forall (fun ch => survives ch = true) s ->
  literal_of q (utf8 (escaped s ++ [q])) s.
Proof.
  assert (q < 128 /\ is_ascii_digit q = false) as [Hq Hqd] by (by destruct quote_char). destruct (quote_encode q Hq) as [Eq _].
  remember (length s) as n eqn:Hn. revert s Hn. induction n as [n IH] using lt_wf_ind; intros s -> Hs Hv.
  destruct s as [|ch rest]; [cbn [escaped escape_loop app utf8 flat_map]; rewrite Eq; apply literal_end|].
  assert (forall s, (length s < length (ch :: rest))%nat -> Forall (fun ch => is_scalar ch = true) s ->
    Forall (fun ch => survives ch = true) s -> literal_of q (utf8 (escaped s ++ [q])) s) as IH' by (intros; by eapply IH).
  clear IH. apply Forall_cons in Hs as [Hsc Hs]. apply Forall_cons in Hv as [Hvc Hv]. rewrite escaped_cons.
  destruct (needs_escape quote_char flags ch rest) eqn:En.
  2: { apply unescaped_plain in En as (H1 & H2 & H3 & H4 & H5). cbn [app]. cbn [utf8 flat_map].
    apply literal_plain; try done; [|by apply IH'; [cbn; lia|..]].
    intros E1 E2 Hh. apply (H5 E1 E2). by apply hd_escaped; [..|exact Hh]; rewrite ?E1. }
  destruct (crlf ch rest) eqn:Ec.
  - unfold crlf in Ec. rewrite !andb_true_iff, next_is_spec in Ec. destruct Ec as [[E1 _] E2]. apply Z.eqb_eq in E1.
    destruct rest as [|c rest]; [done|]. injection E2 as ->. subst ch. cbn [tail].
    apply Forall_cons in Hs as [_ Hs]. apply Forall_cons in Hv as [_ Hv].
    change (utf8 ((bstr "\r\n" ++ escaped rest) ++ [q])) with (bstr "\r" ++ bstr "\n" ++ utf8 (escaped rest ++ [q])).
    do 2 (apply literal_escape; [done|by apply escapes_simple|]). by apply IH'; [cbn; lia|..].
  - assert (literal_of q (utf8 (escaped rest ++ [q])) rest) as IHr by (by apply IH'; [cbn; lia|..]).
    assert (escapes (escape_char [] ch rest) ch (utf8 (escaped rest ++ [q]))) as He.
    { apply escape_char_escapes; try done. intros Hd. eexists. split; [|exact Hd].
      assert (48 <= hd 0 (utf8 (escaped rest ++ [q])) <= 57) by
        (unfold is_ascii_digit in Hd; rewrite andb_true_iff, !Z.leb_le in Hd; lia).
      apply hd_escaped; try done; try lia. intros E. by rewrite E, Hqd in Hd. }
    destruct (escapes_ascii_bytes _ _ _ He) as [Ha _].
    rewrite <- app_assoc, utf8_app. rewrite (utf8_small (escape_char [] ch rest)) by done. by apply literal_escape.
Qed.
End printer.

(** ** The scanner on what the printer writes *)
Section round_trip.
Context `{JsNumber}.

Definition literal_kind (quote_char : QuoteChar) : Kind :=
  match quote_char with Backtick => Kind.NoSubstitutionTemplateLiteral | _ => Kind.StringLiteral end.

Lemma token_value_put_token k s a : token_value s = Ok (a, s) -> token_value (put_token k s) = Ok (a, put_token k s).
Proof.
  unfold token_value. rewrite (run_bind get _ s s s), (run_bind get _ (put_token k s) _ (put_token k s)) by done.
  cbn [token_value_ text put_token]. destruct (token_value_ s) as [|i j|o]; [by intros [= <-]| |by intros [= <-]].
  destruct (slice (text s) i j); [by intros [= <-]|done].
Qed.

Lemma scan_quoted_literal quote_char s w v :
  well_formed s -> text_at s (pos s) (as_char quote_char :: w) -> literal_of (as_char quote_char) w v ->
  exists s', scan s = Ok (literal_kind quote_char, s')
    /\ pos s' = (S (pos s) + length w)%nat /\ token_start s' = pos s
    /\ token_value s' = Ok (utf8 v, s') /\ diagnostics s' = diagnostics s.
Proof.
  intros Hwf Ht Hw. pose proof Hwf as [_ [_ He]].
  assert (exists s1, literal_read (scan_start s) (S (pos s) + length w)%nat v s1
    /\ scan_match (as_char quote_char) (scan_start s) = Ok (inr (literal_kind quote_char), put_token (literal_kind quote_char) s1))
    as (s1 & [] & E).
  { destruct quote_char; cbn [as_char literal_kind] in *.
    1: destruct (scan_string_value 39 w v (scan_start s) Hwf (or_intror eq_refl) Ht Hw) as (s1 & E & Hl).
    2: destruct (scan_string_value 34 w v (scan_start s) Hwf (or_introl eq_refl) Ht Hw) as (s1 & E & Hl).
    3: destruct (scan_template_literal false (scan_start s) w v Hwf Ht Hw) as (s1 & E & Hl).
    all: exists s1; split; [exact Hl|].
    1: change (scan_match 39) with ((scan_string_and_set_token_value false ;; set_token Kind.StringLiteral) ;; done_).
    2: change (scan_match 34) with ((scan_string_and_set_token_value false ;; set_token Kind.StringLiteral) ;; done_).
    3: change (scan_match 96) with ((k ← scan_template_and_set_token_value false; set_token k) ;; done_).
    all: match goal with |- _ = Ok (inr ?k, _) => rewrite (run_bind _ _ _ tt (put_token k s1)) end; [reflexivity|].
    all: by rewrite (run_bind _ _ _ _ _ E). }
  exists (put_token (literal_kind quote_char) s1). split; [|split_and!; try done; by apply token_value_put_token].
  apply (scan_first s (as_char quote_char)); [|done]. apply run_char; apply text_at_cons in Ht as [[L1 L2] _]; done.
Qed.

(** C34. Printing and scanning a literal: between any quotes and with any of the printer's settings for literals, the text that
    [escape_string_worker] writes for a string is scanned as one token, complete and without a
    diagnostic, whose value is the string - provided that escapes of characters outside the basic plane, if they
    are written, survive. *)
Theorem printed_literal_scanned (quote_char : QuoteChar) (flags : Z) (v : str) (s : Scanner) :
  GetLiteralTextFlags.contains flags GetLiteralTextFlags.JSX_ATTRIBUTE_ESCAPE = false ->
  Forall (fun ch => is_scalar ch = true) v -> Forall (fun ch => survives flags ch = true) v ->
  let literal := utf8 (as_char quote_char :: escape_string_worker quote_char flags v [] ++ [as_char quote_char]) in
  well_formed s -> text_at s (pos s) literal ->
  exists s', scan s = Ok (literal_kind quote_char, s')
    /\ pos s' = (pos s + length literal)%nat /\ token_start s' = pos s
    /\ token_value s' = Ok (utf8 v, s') /\ diagnostics s' = diagnostics s.
Proof.
  intros Hj Hs Hv literal Hwf Ht. pose proof (escaped_literal quote_char flags Hj v Hs Hv) as Hw.
  assert (literal = as_char quote_char :: utf8 (escaped quote_char flags v ++ [as_char quote_char])) as El.
  { unfold literal. rewrite escaped_worker. by destruct quote_char. }
  rewrite El in Ht. destruct (scan_quoted_literal quote_char s _ v Hwf Ht Hw) as (s' & H1 & H2 & H3).
  exists s'. split; [done|]. split; [|done]. rewrite H2, El. cbn [length]. lia.
Qed.
End round_trip.

(** Two escapes for a character of planes 2, 4, ... 16 are joined to the character one plane below. *)
Theorem escaped_plane_misread (ch : char) (flags : Z) (s : Scanner) :
  is_scalar ch = true -> 65536 <= ch -> joinable ch = false -> well_formed s -> literal_flags flags ->
  text_at s (pos s) (escape_non_ascii_string [ch] DoubleQuote) ->
  exists s', scan_escape_sequence flags s = Ok (utf8_encode (ch - 65536), s').
Proof.
  intros Hs Hge Hj Hwf Hf Ht. assert (65536 <= ch < 1114112) as Hch.
  { unfold is_scalar in Hs. rewrite orb_true_iff, !andb_true_iff, !Z.leb_le, !Z.ltb_lt in Hs. lia. }
  assert (escape_non_ascii_string [ch] DoubleQuote
    = (bstr "\u" ++ hex4 (high_unit ch)) ++ bstr "\u" ++ hex4 (low_unit ch)) as E.
  { unfold escape_non_ascii_string. rewrite escaped_worker, escaped_cons by done.
    assert (needs_escape DoubleQuote GetLiteralTextFlags.NONE ch [] = true) as ->.
    { unfold needs_escape, as_char. repeat (rewrite (proj2 (Z.eqb_neq ch _)) by lia). cbn [orb negb andb].
      by rewrite (proj2 (Z.ltb_lt 127 ch)), andb_true_r, orb_true_r by lia. }
    unfold crlf. rewrite (proj2 (Z.eqb_neq ch 13)) by lia. cbn [andb]. unfold escape_char.
    rewrite (proj2 (Z.ltb_lt 65535 ch)) by lia. rewrite !encode_utf16_hex4. by rewrite app_nil_r. }
  rewrite E in Ht. destruct (scan_pair_escape flags ch s Hwf Hf Hch Ht) as (s' & Hr & _). rewrite Hj in Hr. by exists s'.
Qed.

(** ** Examples and witnesses *)
Lemma text_at_new t : text_at (new t 0) 0 t.
Proof. intros k b Hk. split; [|done]. by apply lookup_lt_Some in Hk. Qed.

Lemma well_formed_new t : is_ascii t = true -> well_formed (new t 0).
Proof. intros Ht. split; [by apply is_ascii_valid|]. split; [apply is_char_boundary_len|done]. Qed.

(** U+20000 is printed as [\uD840\uDC00] and read back as U+10000. *)
Example plane_two_literal :
  match @scan canonical_numbers (new (34 :: escape_non_ascii_string [131072] DoubleQuote ++ [34]) 0) with
  | Ok (k, s) => k = Kind.StringLiteral /\ token_value s = Ok (utf8_encode 65536, s) /\ diagnostics s = []
  | _ => False
  end.
Proof. vm_compute. done. Qed.

Definition sample_string : str := [104; 0; 49; 10; 233; 8232; 36; 123; 96; 92; 128512].
Definition sample_literal : bytes :=
  utf8 (as_char Backtick :: escape_string_worker Backtick GetLiteralTextFlags.NONE sample_string [] ++ [as_char Backtick]).

Lemma printed_literal_scanned_witness :
  exists s', @scan canonical_numbers (new sample_literal 0) = Ok (Kind.NoSubstitutionTemplateLiteral, s')
    /\ token_value s' = Ok (utf8 sample_string, s').
Proof.
  destruct (@printed_literal_scanned canonical_numbers Backtick GetLiteralTextFlags.NONE sample_string (new sample_literal 0))
    as (s' & H1 & _ & _ & H2 & _).
  - reflexivity.
  - repeat constructor.
  - repeat constructor.
  - apply well_formed_new. vm_compute. reflexivity.
  - apply text_at_new.
  - exists s'. split; [exact H1|exact H2].
Defined.

Lemma escaped_plane_misread_witness :
  exists s', scan_escape_sequence ESC_STRING (new (escape_non_ascii_string [131072] DoubleQuote) 0)
    = Ok (utf8_encode 65536, s').
Proof.
  apply (escaped_plane_misread 131072 ESC_STRING).
  - reflexivity.
  - lia.
  - reflexivity.
  - apply well_formed_new. vm_compute. reflexivity.
  - right. reflexivity.
  - apply text_at_new.
Defined.
