(* ===== verification/Semver.v ===== *)
(** * Semver: versions and version ranges (ts-semver/src/lib.rs)

    [Version] with its precedence order, its parser and printer, and [VersionRange] with its parser,
    its printer and its test. Incrementing a component is checked in a build with overflow checks and
    wraps around in one without; the parameter [overflow_checks] is the build. *)
From S2P Require Import Prelude Text Chars Numerals Strs.

(** ** Versions *)
Record Version := mkVersion {
  major : Z;
  minor : Z;
  patch : Z;
  prerelease : list str;
  build : list str;
}.

Definition default_version : Version := mkVersion 0 0 0 [] [].
Definition version_zero : Version := mkVersion 0 0 0 [bstr "0"] [].

Definition COMPARISON_LESS_THAN : Z := -1.
Definition COMPARISON_EQUAL_TO : Z := 0.
Definition COMPARISON_GREATER_THAN : Z := 1.

Definition ordering_to_comparison (ordering : comparison) : Z :=
  match ordering with
  | Lt => COMPARISON_LESS_THAN
  | Eq => COMPARISON_EQUAL_TO
  | Gt => COMPARISON_GREATER_THAN
  end.

(** [ComparisonExt::then_with] *)
Definition then_with (c : Z) (f : Z) : Z := if c =? COMPARISON_EQUAL_TO then f else c.

Definition is_digit_1_9 (ch : char) : bool := (49 <=? ch) && (ch <=? 57).

Definition is_numeric_identifier (text : str) : bool :=
  if bool_decide (text = bstr "0") then true
  else match text with
       | c :: r => is_digit_1_9 c && forallb is_ascii_digit r
       | [] => false
       end.
Definition is_uint_component (text : str) : bool := is_numeric_identifier text.
Definition get_uint_component (text : str) : option Z := parse_u32 text.

Definition compare_pre_release_identifier (left right : str) : Z :=
  let compare_result := ordering_to_comparison (str_compare left right) in
  if compare_result =? COMPARISON_EQUAL_TO then compare_result
  else
    let left_is_numeric := is_numeric_identifier left in
    let right_is_numeric := is_numeric_identifier right in
    if left_is_numeric || right_is_numeric then
      if negb right_is_numeric then COMPARISON_LESS_THAN
      else if negb left_is_numeric then COMPARISON_GREATER_THAN
      else match get_uint_component left, get_uint_component right with
           | Some left_as_number, Some right_as_number =>
               ordering_to_comparison (left_as_number ?= right_as_number)
           | _, _ =>
               let len_compare := ordering_to_comparison (length left ?= length right)%nat in
               if len_compare =? COMPARISON_EQUAL_TO then compare_result else len_compare
           end
    else compare_result.

(** The loop over the identifiers both sides have. *)
Fixpoint compare_identifiers (left right : list str) : Z :=
  match left, right with
  | l :: ls, r :: rs =>
      let result := compare_pre_release_identifier l r in
      if negb (result =? COMPARISON_EQUAL_TO) then result else compare_identifiers ls rs
  | _, _ => COMPARISON_EQUAL_TO
  end.

Definition compare_pre_release_identifiers (left right : list str) : Z :=
  match left, right with
  | [], [] => COMPARISON_EQUAL_TO
  | [], _ => COMPARISON_GREATER_THAN
  | _, [] => COMPARISON_LESS_THAN
  | _, _ =>
      let result := compare_identifiers left right in
      if negb (result =? COMPARISON_EQUAL_TO) then result
      else ordering_to_comparison (length left ?= length right)%nat
  end.

(** [Version::compare]; [None] is an absent version. *)
Definition compare (a : Version) (b : option Version) : Z :=
  match b with
  | None => COMPARISON_GREATER_THAN
  | Some b =>
      then_with (then_with (then_with
        (ordering_to_comparison (major a ?= major b))
        (ordering_to_comparison (minor a ?= minor b)))
        (ordering_to_comparison (patch a ?= patch b)))
        (compare_pre_release_identifiers (prerelease a) (prerelease b))
  end.

(** [Version::fmt] *)
Definition version_to_string (v : Version) : str :=
  to_decimal (major v) ++ bstr "." ++ to_decimal (minor v) ++ bstr "." ++ to_decimal (patch v)
  ++ (if bool_decide (prerelease v = []) then [] else bstr "-" ++ join (bstr ".") (prerelease v))
  ++ (if bool_decide (build v = []) then [] else bstr "+" ++ join (bstr ".") (build v)).

(** ** Parsing a version *)
Definition is_identifier_char (ch : char) : bool := is_ascii_alphanumeric ch || (ch =? chr "-").

Definition is_prerelease_part (text : str) : bool :=
  if is_numeric_identifier text then true
  else match text with
       | c :: r => (is_ascii_alphabetic c || (c =? chr "-")) && forallb is_identifier_char r
       | [] => false
       end.
Definition is_prerelease (text : str) : bool :=
  negb (bool_decide (text = [])) && forallb is_prerelease_part (split (chr ".") text).

Definition is_build_part (text : str) : bool :=
  negb (bool_decide (text = [])) && forallb is_identifier_char text.
Definition is_build (text : str) : bool :=
  negb (bool_decide (text = [])) && forallb is_build_part (split (chr ".") text).

(** [split_once]: the parts around the only delimiter; an empty second part is an error. *)
Definition split_once (text : str) (delimiter : char) : option (str * option str) :=
  match split delimiter text with
  | [before] => Some (before, None)
  | [before; after] => if bool_decide (after = []) then None else Some (before, Some after)
  | _ => None
  end.

(** [split_once_first]: the parts around the first delimiter. *)
Definition split_once_first (text : str) (delimiter : char) : option (str * option str) :=
  match split_once_char delimiter text with
  | None => Some (text, None)
  | Some (before, after) => if bool_decide (after = []) then None else Some (before, Some after)
  end.

(** An optional list of identifiers, checked. *)
Definition identifiers (valid : str -> bool) (text : option str) : option (list str) :=
  match text with
  | None => Some []
  | Some text => if valid text then Some (split (chr ".") text) else None
  end.

(** [try_parse_version]; [None] is [Err(SemverParseError)]. *)
Definition try_parse_version (text : str) : option Version :=
  '(version_part, build_str) ← split_once text (chr "+");
  '(core_part, prerelease_str) ← split_once_first version_part (chr "-");
  let core_parts := split (chr ".") core_part in
  if (length core_parts =? 0)%nat || (3 <? length core_parts)%nat then None
  else if existsb (fun part => negb (is_uint_component part)) core_parts then None
  else if (length core_parts <? 3)%nat
          && (bool_decide (prerelease_str <> None) || bool_decide (build_str <> None)) then None
  else
    major ← get_uint_component (nth 0 core_parts []);
    minor ← (if (1 <? length core_parts)%nat then get_uint_component (nth 1 core_parts []) else Some 0);
    patch ← (if (2 <? length core_parts)%nat then get_uint_component (nth 2 core_parts []) else Some 0);
    prerelease ← identifiers is_prerelease prerelease_str;
    build ← identifiers is_build build_str;
    Some (mkVersion major minor patch prerelease build).

(** [must_parse] panics where [try_parse_version] fails. *)
Definition must_parse (text : str) : option Version := try_parse_version text.

(** ** Ranges *)
Inductive ComparatorOperator : Type :=
  | LessThan | LessThanEqual | Equal | GreaterThanEqual | GreaterThan | Tilde | Caret.

#[global] Instance ComparatorOperator_eq_dec : EqDecision ComparatorOperator.
Proof. solve_decision. Defined.

Definition as_str (op : ComparatorOperator) : str :=
  match op with
  | LessThan => bstr "<"
  | LessThanEqual => bstr "<="
  | Equal => bstr "="
  | GreaterThanEqual => bstr ">="
  | GreaterThan => bstr ">"
  | Tilde => bstr "~"
  | Caret => bstr "^"
  end.

Record VersionComparator := mkComparator {
  operator : ComparatorOperator;
  operand : Version;
}.

Record VersionRange := mkRange { alternatives : list (list VersionComparator) }.

Definition format_comparator (c : VersionComparator) : str :=
  as_str (operator c) ++ version_to_string (operand c).
Definition format_alternative (comparators : list VersionComparator) : str :=
  join (bstr " ") (map format_comparator comparators).
Definition format_disjunction (alternatives : list (list VersionComparator)) : str :=
  let s := join (bstr " || ") (map format_alternative alternatives) in
  if bool_decide (s = []) then bstr "*" else s.
(** [VersionRange::fmt] *)
Definition range_to_string (r : VersionRange) : str := format_disjunction (alternatives r).

(** The tests; [None] is the panic on an operator that is no comparison. *)
Definition test_comparator (c : VersionComparator) (version : Version) : option bool :=
  let cmp := compare version (Some (operand c)) in
  match operator c with
  | LessThan => Some (cmp <? 0)
  | LessThanEqual => Some (cmp <=? 0)
  | Equal => Some (cmp =? 0)
  | GreaterThanEqual => Some (0 <=? cmp)
  | GreaterThan => Some (0 <? cmp)
  | Tilde | Caret => None
  end.

Fixpoint test_alternative (alternative : list VersionComparator) (version : Version) : option bool :=
  match alternative with
  | [] => Some true
  | c :: alternative =>
      ok ← test_comparator c version;
      if ok : bool then test_alternative alternative version else Some false
  end.

(** The loop over the alternatives. *)
Fixpoint test_alternatives (alternatives : list (list VersionComparator)) (version : Version)
    : option bool :=
  match alternatives with
  | [] => Some false
  | alternative :: alternatives =>
      ok ← test_alternative alternative version;
      if ok : bool then Some true else test_alternatives alternatives version
  end.
Definition test_disjunction (alternatives : list (list VersionComparator)) (version : Version)
    : option bool :=
  match alternatives with
  | [] => Some true
  | _ => test_alternatives alternatives version
  end.

(** [VersionRange::test] *)
Definition test (r : VersionRange) (version : Version) : option bool :=
  test_disjunction (alternatives r) version.

(** ** Parsing a range *)

(** [(x, true)], [(Vec::new(), false)] and a panic. *)
Inductive parsed (A : Type) : Type :=
  | Parsed (a : A)
  | NotOk
  | Overflow.
Arguments Parsed {A} a.
Arguments NotOk {A}.
Arguments Overflow {A}.

#[global] Instance parsed_ret : MRet parsed := fun A a => Parsed a.
#[global] Instance parsed_bind : MBind parsed := fun A B f x =>
  match x with Parsed a => f a | NotOk => NotOk | Overflow => Overflow end.

(** A callee that returns an option. *)
Definition or_not_ok {A} (o : option A) : parsed A :=
  match o with Some a => Parsed a | None => NotOk end.

Definition is_wildcard (text : str) : bool :=
  bool_decide (text = bstr "*") || bool_decide (text = bstr "x") || bool_decide (text = bstr "X").
Definition is_xr (text : str) : bool := is_wildcard text || is_uint_component text.

Definition is_range_atom (text : str) : bool :=
  negb (bool_decide (text = []))
  && forallb (fun ch => is_ascii_alphanumeric ch || (ch =? chr "-") || (ch =? chr "+")
                        || (ch =? chr ".") || (ch =? chr "*")) text.

Definition is_qualifier_part_list (text : str) : bool :=
  negb (bool_decide (text = []))
  && forallb (fun ch => is_ascii_alphanumeric ch || (ch =? chr "-") || (ch =? chr ".")) text.

Definition split_optional (text : str) (delimiter : char) : option (str * option str) :=
  match split delimiter text with
  | [before] => Some (before, None)
  | [before; after] =>
      if bool_decide (after = []) then None
      else if negb (is_qualifier_part_list after) then None
      else Some (before, Some after)
  | _ => None
  end.

Definition split_optional_first (text : str) (delimiter : char) : option (str * option str) :=
  match split_once_char delimiter text with
  | None => Some (text, None)
  | Some (before, after) =>
      if bool_decide (after = []) || negb (is_qualifier_part_list after) then None
      else Some (before, Some after)
  end.

Record PartialVersion := mkPartial {
  version : Version;
  major_str : str;
  minor_str : str;
  patch_str : str;
}.

(** The numbers of the three parts, zero from the first wildcard on. *)
Definition partial_numbers (major_str minor_str patch_str : str) : option (Z * Z * Z) :=
  if is_wildcard major_str then Some (0, 0, 0)
  else
    major ← get_uint_component major_str;
    if is_wildcard minor_str then Some (major, 0, 0)
    else
      minor ← get_uint_component minor_str;
      if is_wildcard patch_str then Some (major, minor, 0)
      else patch ← get_uint_component patch_str; Some (major, minor, patch).

Definition split_list (text : option str) : list str :=
  match text with Some s => split (chr ".") s | None => [] end.

(** [parse_partial]; [None] is [(partial_version_default(), false)]. *)
Definition parse_partial (text : str) : option PartialVersion :=
  '(version_part, build_str) ← split_optional text (chr "+");
  '(core_part, prerelease_str) ← split_optional_first version_part (chr "-");
  let parts := split (chr ".") core_part in
  if (length parts =? 0)%nat || (3 <? length parts)%nat
     || existsb (fun part => negb (is_xr part)) parts then None
  else if (length parts <? 3)%nat
          && (bool_decide (prerelease_str <> None) || bool_decide (build_str <> None)) then None
  else
    let major_str := nth 0 parts [] in
    let minor_str := nth 1 parts (bstr "*") in
    let patch_str := nth 2 parts (bstr "*") in
    '(major, minor, patch) ← partial_numbers major_str minor_str patch_str;
    Some (mkPartial
            (mkVersion major minor patch (split_list prerelease_str) (split_list build_str))
            major_str minor_str patch_str).

(** [parse_hyphen_range]: the first hyphen between white space and range atoms. *)
Fixpoint hyphen_range_from (before : str) (text : str) : option (str * str) :=
  match text with
  | [] => None
  | ch :: after =>
      let left := trim before in
      let right := trim after in
      if (ch =? chr "-")
         && match last before with Some c => is_whitespace c | None => false end
         && match head after with Some c => is_whitespace c | None => false end
         && negb (bool_decide (left = [])) && negb (bool_decide (right = []))
         && is_range_atom left && is_range_atom right
      then Some (left, right)
      else hyphen_range_from (before ++ [ch]) after
  end.
Definition parse_hyphen_range (text : str) : option (str * str) := hyphen_range_from [] text.

(** The operator a simple range starts with, and the rest. *)
Definition split_operator (text : str) : option ComparatorOperator * str :=
  match strip_prefix (bstr "<=") text with Some rest => (Some LessThanEqual, rest) | None =>
  match strip_prefix (bstr ">=") text with Some rest => (Some GreaterThanEqual, rest) | None =>
  match strip_prefix (bstr "<") text with Some rest => (Some LessThan, rest) | None =>
  match strip_prefix (bstr ">") text with Some rest => (Some GreaterThan, rest) | None =>
  match strip_prefix (bstr "=") text with Some rest => (Some Equal, rest) | None =>
  match strip_prefix (bstr "~") text with Some rest => (Some Tilde, rest) | None =>
  match strip_prefix (bstr "^") text with Some rest => (Some Caret, rest) | None =>
  (None, text) end end end end end end end.

Definition parse_range (text : str) : option (option ComparatorOperator * str) :=
  let '(op, rest) := split_operator text in
  let rest := trim_start rest in
  if bool_decide (rest = []) || negb (is_range_atom rest) then None else Some (op, rest).

Section ranges.
Context (overflow_checks : bool).

(** [x + 1] on [u32]. *)
Definition add_one (x : Z) : parsed Z :=
  if overflow_checks && (x =? U32_MAX) then Overflow else Parsed ((x + 1) mod 2 ^ 32).

Definition increment_major (v : Version) : parsed Version :=
  m ← add_one (major v); mret (mkVersion m 0 0 [] []).
Definition increment_minor (v : Version) : parsed Version :=
  m ← add_one (minor v); mret (mkVersion (major v) m 0 [] []).
Definition increment_patch (v : Version) : parsed Version :=
  p ← add_one (patch v); mret (mkVersion (major v) (minor v) p [] []).

(** [version.prerelease = vec!["0".to_owned()]] *)
Definition with_prerelease_zero (v : Version) : Version :=
  mkVersion (major v) (minor v) (patch v) [bstr "0"] (build v).

Definition parse_hyphen (left right : str) : parsed (list VersionComparator) :=
  left_result ← or_not_ok (parse_partial left);
  right_result ← or_not_ok (parse_partial right);
  let lower :=
    if is_wildcard (major_str left_result) then []
    else [mkComparator GreaterThanEqual (version left_result)] in
  if is_wildcard (major_str right_result) then mret lower
  else
    let operand := version right_result in
    upper ←
      (if is_wildcard (minor_str right_result) then
         operand ← increment_major operand; mret (mkComparator LessThan operand)
       else if is_wildcard (patch_str right_result) then
         operand ← increment_minor operand; mret (mkComparator LessThan operand)
       else mret (mkComparator LessThanEqual operand));
    mret (lower ++ [upper]).

(** The arms of [parse_comparator] for a version that is not a wildcard. *)
Definition tilde_comparators (r : PartialVersion) : parsed (list VersionComparator) :=
  second ← (if is_wildcard (minor_str r) then increment_major (version r)
            else increment_minor (version r));
  mret [mkComparator GreaterThanEqual (version r); mkComparator LessThan second].

Definition caret_comparators (r : PartialVersion) : parsed (list VersionComparator) :=
  second ← (if (0 <? major (version r)) || is_wildcard (minor_str r) then increment_major (version r)
            else if (0 <? minor (version r)) || is_wildcard (patch_str r) then increment_minor (version r)
            else increment_patch (version r));
  mret [mkComparator GreaterThanEqual (version r); mkComparator LessThan second].

(** [<] and [>=] *)
Definition lower_comparators (operator : ComparatorOperator) (r : PartialVersion)
    : parsed (list VersionComparator) :=
  mret [mkComparator operator
          (if is_wildcard (minor_str r) || is_wildcard (patch_str r)
           then with_prerelease_zero (version r) else version r)].

(** [<=] and [>] *)
Definition upper_comparators (operator : ComparatorOperator) (r : PartialVersion)
    : parsed (list VersionComparator) :=
  let widened := if decide (operator = LessThanEqual) then LessThan else GreaterThanEqual in
  if is_wildcard (minor_str r) then
    v ← increment_major (version r); mret [mkComparator widened (with_prerelease_zero v)]
  else if is_wildcard (patch_str r) then
    v ← increment_minor (version r); mret [mkComparator widened (with_prerelease_zero v)]
  else mret [mkComparator operator (version r)].

Definition equal_comparators (r : PartialVersion) : parsed (list VersionComparator) :=
  if is_wildcard (minor_str r) || is_wildcard (patch_str r) then
    second ← (if is_wildcard (minor_str r) then increment_major (version r)
              else increment_minor (version r));
    mret [mkComparator GreaterThanEqual (with_prerelease_zero (version r));
          mkComparator LessThan (with_prerelease_zero second)]
  else mret [mkComparator Equal (version r)].

Definition parse_comparator (op : option ComparatorOperator) (text : str)
    : parsed (list VersionComparator) :=
  let operator := default Equal op in
  result ← or_not_ok (parse_partial text);
  if negb (is_wildcard (major_str result)) then
    match operator with
    | Tilde => tilde_comparators result
    | Caret => caret_comparators result
    | LessThan | GreaterThanEqual => lower_comparators operator result
    | LessThanEqual | GreaterThan => upper_comparators operator result
    | Equal => equal_comparators result
    end
  else if bool_decide (operator = LessThan) || bool_decide (operator = GreaterThan) then
    mret [mkComparator LessThan version_zero]
  else mret [].

(** The loop over the simple ranges of an alternative. *)
Fixpoint parse_simples (simples : list str) : parsed (list VersionComparator) :=
  match simples with
  | [] => mret []
  | simple :: simples =>
      '(op, text) ← or_not_ok (parse_range (trim simple));
      comparators ← parse_comparator op text;
      rest ← parse_simples simples;
      mret (comparators ++ rest)
  end.

Definition parse_alternative (r : str) : parsed (list VersionComparator) :=
  match parse_hyphen_range r with
  | Some (l, r) => parse_hyphen l r
  | None => parse_simples (split_whitespace r)
  end.

(** The loop over the ranges between [||]. *)
Fixpoint parse_ranges (ranges : list str) : parsed (list (list VersionComparator)) :=
  match ranges with
  | [] => mret []
  | r :: ranges =>
      let r := trim r in
      if bool_decide (r = []) then parse_ranges ranges
      else
        comparators ← parse_alternative r;
        rest ← parse_ranges ranges;
        mret (comparators :: rest)
  end.

Definition parse_alternatives (text : str) : parsed (list (list VersionComparator)) :=
  parse_ranges (split_str (bstr "||") (trim text)).

Definition try_parse_version_range (text : str) : parsed VersionRange :=
  alternatives ← parse_alternatives text; mret (mkRange alternatives).
End ranges.
