(* ===== verification/SemverOrder.v ===== *)
(** * SemverOrder: precedence of versions

    [compare] is the precedence of the semantic versioning specification, which the comments of the
    source quote, over unbounded numbers; it is a total order on versions without their build. *)
From S2P Require Import Prelude Text Chars Numerals JsNum Strs Semver.

(** ** Digit strings *)
Lemma dec_value_fold v s :
  fold_left (fun v b => v * 10 + (b - 48)) s v = v * 10 ^ Z.of_nat (length s) + dec_value s.
Proof.
  unfold dec_value. revert v. induction s as [|b s IH]; intros v; cbn [fold_left length]; [lia|].
  rewrite IH, (IH (0 * 10 + _)). rewrite Nat2Z.inj_succ, Z.pow_succ_r by lia. lia.
Qed.

Lemma dec_value_cons b s : dec_value (b :: s) = (b - 48) * 10 ^ Z.of_nat (length s) + dec_value s.
Proof. unfold dec_value at 1. cbn [fold_left]. rewrite dec_value_fold. lia. Qed.

Lemma dec_value_bounds s : dec_digits s -> 0 <= dec_value s < 10 ^ Z.of_nat (length s).
Proof.
  induction 1 as [|b s Hb Hs IH]; [cbn; lia|]. rewrite dec_value_cons. cbn [length].
  rewrite Nat2Z.inj_succ, Z.pow_succ_r by lia. nia.
Qed.

(** Of equal length, the order of the numbers is that of the strings. *)
Lemma dec_value_compare a b :
  dec_digits a -> dec_digits b -> length a = length b ->
  (dec_value a ?= dec_value b) = str_compare a b.
Proof.
  intros Ha. revert b. induction Ha as [|x a Hx Ha IH]; intros [|y b] Hb Hl; try done.
  apply Forall_cons in Hb as [Hy Hb]. injection Hl as Hl. cbn [str_compare].
  rewrite <- (IH b Hb Hl), !dec_value_cons, Hl.
  pose proof (dec_value_bounds a Ha) as Ba. pose proof (dec_value_bounds b Hb) as Bb. rewrite Hl in Ba.
  destruct (Z.compare_spec x y) as [->|Hlt|Hlt].
  - destruct (Z.compare_spec (dec_value a) (dec_value b)); apply Z.compare_eq_iff
      || apply Z.compare_lt_iff || apply Z.compare_gt_iff; lia.
  - apply Z.compare_lt_iff. nia.
  - apply Z.compare_gt_iff. nia.
Qed.

(** A digit string without leading zero is worth at least the power of ten of its length. *)
Lemma is_numeric_identifier_spec s :
  is_numeric_identifier s = true ->
  dec_digits s /\ s <> [] /\ (s = bstr "0" \/ 10 ^ (Z.of_nat (length s) - 1) <= dec_value s).
Proof.
  unfold is_numeric_identifier. case_bool_decide as H0.
  - intros _. subst s. split; [repeat constructor; lia|]. split; [done|by left].
  - destruct s as [|c r]; [done|]. intros H. apply andb_true_iff in H as [Hc Hr].
    unfold is_digit_1_9 in Hc. bool_to_prop.
    assert (dec_digits r) as Hd.
    { apply Forall_forall. intros b Hb. rewrite forallb_forall in Hr.
      specialize (Hr b (proj1 (list_elem_of_In _ _) Hb)). unfold is_ascii_digit in Hr.
      bool_to_prop. lia. }
    split; [constructor; [lia|done]|]. split; [done|]. right. rewrite dec_value_cons. cbn [length].
    pose proof (dec_value_bounds r Hd). rewrite Nat2Z.inj_succ, Z.sub_1_r, Z.pred_succ. nia.
Qed.

Lemma numeric_length_lt a b :
  is_numeric_identifier a = true -> is_numeric_identifier b = true ->
  (length a < length b)%nat -> dec_value a < dec_value b.
Proof.
  intros (Da & Na & _)%is_numeric_identifier_spec (Db & Nb & [->|Hb])%is_numeric_identifier_spec Hl.
  - destruct a; cbn in Hl; [done|lia].
  - pose proof (dec_value_bounds a Da) as Ba.
    assert (10 ^ Z.of_nat (length a) <= 10 ^ (Z.of_nat (length b) - 1)) by (apply Z.pow_le_mono_r; lia).
    lia.
Qed.

(** ** [parse::<u32>] on digits *)
Lemma parse_digits_value max v s :
  dec_digits s -> 0 <= v ->
  parse_digits 10 max v s
  = if decide (s = [] \/ v * 10 ^ Z.of_nat (length s) + dec_value s <= max)
    then Some (v * 10 ^ Z.of_nat (length s) + dec_value s) else None.
Proof.
  intros Hs. revert v. induction Hs as [|b s Hb Hs IH]; intros v Hv.
  - cbn. rewrite decide_True by by left. f_equal. lia.
  - cbn [parse_digits]. unfold to_digit, is_ascii_digit.
    rewrite (proj2 (Z.leb_le 48 b)), (proj2 (Z.leb_le b 57)) by lia. cbn [andb mbind option_bind].
    rewrite (proj2 (Z.ltb_lt (b - 48) 10)) by lia. cbn [mbind option_bind].
    rewrite dec_value_cons. cbn [length]. rewrite Nat2Z.inj_succ, Z.pow_succ_r by lia.
    pose proof (dec_value_bounds s Hs) as Bs.
    pose proof (Z.pow_pos_nonneg 10 (Z.of_nat (length s)) ltac:(lia) ltac:(lia)) as Hp.
    destruct (max <? v * 10 + (b - 48)) eqn:E; bool_to_prop.
    + rewrite decide_False; [done|]. intros [|Hle]; [done|nia].
    + rewrite IH by lia.
      destruct (decide (s = [] \/ _)) as [H1|H1], (decide (b :: s = [] \/ _)) as [H2|H2];
        try (f_equal; lia); exfalso.
      * apply H2. right. destruct H1 as [->|]; [cbn in *; lia|lia].
      * apply H1. destruct H2 as [|]; [done|]. right. lia.
Qed.

Lemma parse_u32_value s :
  dec_digits s -> s <> [] ->
  parse_u32 s = if decide (dec_value s <= U32_MAX) then Some (dec_value s) else None.
Proof.
  intros Hs Hne.
  assert (parse_u32 s = parse_digits 10 U32_MAX 0 s) as ->.
  { destruct s as [|b s]; [done|]. apply Forall_cons in Hs as [Hb _].
    unfold parse_u32. do 6 (destruct b as [|b|b]; try done; try lia). }
  rewrite parse_digits_value by done. rewrite Z.mul_0_l, Z.add_0_l.
  repeat case_decide; naive_solver.
Qed.

(** ** Precedence of identifiers *)

(** Items 9 and 11.4 of the specification: a numeric identifier has digits only and, but for 0 itself, no leading zero. *)
Definition numeric_identifier (s : str) : bool :=
  match s with
  | [] => false
  | c :: r => forallb (fun c => (48 <=? c) && (c <=? 57)) s && (negb (c =? 48) || bool_decide (r = []))
  end.

(** Item 11.4 of the specification: numeric identifiers as numbers, before all others. *)
Definition identifier_order (l r : str) : comparison :=
  match numeric_identifier l, numeric_identifier r with
  | true, true => dec_value l ?= dec_value r
  | true, false => Lt
  | false, true => Gt
  | false, false => str_compare l r
  end.

(** The classification of the source is that. *)
Lemma is_numeric_identifier_rule s : is_numeric_identifier s = numeric_identifier s.
Proof.
  unfold is_numeric_identifier, numeric_identifier. case_bool_decide as H0; [by subst s|].
  destruct s as [|c r]; [done|]. cbn [forallb]. unfold is_digit_1_9, is_ascii_digit. apply eq_true_iff_eq.
  rewrite !andb_true_iff, orb_true_iff, negb_true_iff, Z.eqb_neq, bool_decide_eq_true, !Z.leb_le.
  split; [intros [Hc Hr]; split_and!; [lia|lia|done|left; lia]|].
  intros [[Hc Hr] [Hz| ->]]; [split; [lia|done]|]. split; [|done].
  assert (c <> 48) by (intros ->; by apply H0). lia.
Qed.

Lemma identifier_order_classes l r :
  identifier_order l r
  = match is_numeric_identifier l, is_numeric_identifier r with
    | true, true => dec_value l ?= dec_value r
    | true, false => Lt
    | false, true => Gt
    | false, false => str_compare l r
    end.
Proof. unfold identifier_order. by rewrite !is_numeric_identifier_rule. Qed.

Lemma numeric_value_inj a b :
  is_numeric_identifier a = true -> is_numeric_identifier b = true ->
  dec_value a = dec_value b -> a = b.
Proof.
  intros Ha Hb Hv. destruct (Nat.lt_trichotomy (length a) (length b)) as [Hl|[Hl|Hl]].
  - pose proof (numeric_length_lt a b Ha Hb Hl). lia.
  - apply is_numeric_identifier_spec in Ha as [Da _], Hb as [Db _].
    pose proof (dec_value_compare a b Da Db Hl) as Hc. rewrite Hv, Z.compare_refl in Hc.
    by apply str_compare_eq.
  - pose proof (numeric_length_lt b a Hb Ha Hl). lia.
Qed.

(** The order of the numbers by length, then as strings: the fallback of an overflow is exact. *)
Lemma numeric_compare a b :
  is_numeric_identifier a = true -> is_numeric_identifier b = true ->
  (dec_value a ?= dec_value b)
  = match (length a ?= length b)%nat with Eq => str_compare a b | c => c end.
Proof.
  intros Ha Hb. destruct (Nat.compare_spec (length a) (length b)) as [Hl|Hl|Hl].
  - apply is_numeric_identifier_spec in Ha as [Da _], Hb as [Db _]. by apply dec_value_compare.
  - apply Z.compare_lt_iff. by apply numeric_length_lt.
  - apply Z.compare_gt_iff. by apply numeric_length_lt.
Qed.

Lemma identifier_order_eq l r : identifier_order l r = Eq <-> l = r.
Proof.
  rewrite identifier_order_classes. split.
  - destruct (is_numeric_identifier l) eqn:El, (is_numeric_identifier r) eqn:Er; try done.
    + intros H%Z.compare_eq. by apply numeric_value_inj.
    + apply str_compare_eq.
  - intros ->. destruct (is_numeric_identifier r); [apply Z.compare_refl|apply str_compare_refl].
Qed.

Lemma compare_identifier_order l r :
  compare_pre_release_identifier l r = ordering_to_comparison (identifier_order l r).
Proof.
  unfold compare_pre_release_identifier.
  destruct (decide (l = r)) as [->|Hne].
  { rewrite str_compare_refl. by rewrite (proj2 (identifier_order_eq r r)). }
  assert (str_compare l r <> Eq) as Hs by by rewrite str_compare_eq.
  assert ((ordering_to_comparison (str_compare l r) =? COMPARISON_EQUAL_TO) = false) as ->.
  { by destruct (str_compare l r). }
  rewrite identifier_order_classes.
  destruct (is_numeric_identifier l) eqn:El, (is_numeric_identifier r) eqn:Er; try done.
  cbn [orb negb]. rewrite (numeric_compare l r El Er).
  pose proof (is_numeric_identifier_spec l El) as (Dl & Nl & _).
  pose proof (is_numeric_identifier_spec r Er) as (Dr & Nr & _).
  unfold get_uint_component. rewrite !parse_u32_value by done.
  pose proof (numeric_compare l r El Er) as Hc.
  assert (forall c, (if ordering_to_comparison c =? COMPARISON_EQUAL_TO
      then ordering_to_comparison (str_compare l r) else ordering_to_comparison c)
    = ordering_to_comparison (match c with Eq => str_compare l r | c => c end)) as Hf.
  { by intros []. }
  repeat case_decide; rewrite ?Hf, ?Hc; try done; by destruct (_ ?= _)%nat.
Qed.

(** ** Precedence of versions *)

(** Lexicographic composition of comparisons. *)
Definition lex (c1 c2 : comparison) : comparison := match c1 with Eq => c2 | _ => c1 end.

(** Identifiers from left to right; a larger set of them has a higher precedence. *)
Fixpoint identifiers_order (l r : list str) : comparison :=
  match l, r with
  | [], [] => Eq
  | [], _ => Lt
  | _, [] => Gt
  | a :: l', b :: r' => lex (identifier_order a b) (identifiers_order l' r')
  end.

(** A version without pre-release identifiers comes after those that have some. *)
Definition prerelease_order (l r : list str) : comparison :=
  match l, r with
  | [], [] => Eq
  | [], _ => Gt
  | _, [] => Lt
  | _, _ => identifiers_order l r
  end.

(** Item 11 of the specification. *)
Definition precedence (a b : Version) : comparison :=
  lex (major a ?= major b) (lex (minor a ?= minor b)
    (lex (patch a ?= patch b) (prerelease_order (prerelease a) (prerelease b)))).

Lemma then_with_lex c1 c2 :
  then_with (ordering_to_comparison c1) (ordering_to_comparison c2) = ordering_to_comparison (lex c1 c2).
Proof. by destruct c1. Qed.

Lemma compare_identifiers_order l r :
  (if negb (compare_identifiers l r =? COMPARISON_EQUAL_TO) then compare_identifiers l r
   else ordering_to_comparison (length l ?= length r)%nat)
  = ordering_to_comparison (identifiers_order l r).
Proof.
  revert r. induction l as [|a l IH]; intros [|b r]; try done. cbn [compare_identifiers identifiers_order].
  rewrite compare_identifier_order. destruct (identifier_order a b); try done. apply IH.
Qed.

Lemma compare_precedence a b : compare a (Some b) = ordering_to_comparison (precedence a b).
Proof.
  unfold compare, precedence.
  assert (compare_pre_release_identifiers (prerelease a) (prerelease b)
    = ordering_to_comparison (prerelease_order (prerelease a) (prerelease b))) as ->.
  { destruct (prerelease a) as [|x l], (prerelease b) as [|y r]; try done.
    apply compare_identifiers_order. }
  rewrite !then_with_lex. f_equal.
  by destruct (_ ?= _), (_ ?= _), (_ ?= _).
Qed.

(** C14. [Version::compare] is the precedence of the semantic versioning specification over unbounded numbers, with its
    own rule for what a numeric identifier is: the 32-bit parse of numeric identifiers and its fallback on overflow, by
    length and then by characters, give the numeric order whatever the number of digits. *)
Theorem compare_semver_precedence (a b : Version) :
  compare a (Some b) = match precedence a b with Lt => -1 | Eq => 0 | Gt => 1 end.
Proof. rewrite compare_precedence. by destruct (precedence a b). Qed.

(** ** A total order *)

(** What makes a comparison function a total order, up to its own equality. *)
Class TotalCompare {A} (f : A -> A -> comparison) : Prop := {
  total_antisym x y : f y x = CompOpp (f x y);
  total_eq x y : f x y = Eq <-> x = y;
  total_trans x y z : f x y = Lt -> f y z = Lt -> f x z = Lt;
}.

#[global] Instance Z_total : TotalCompare Z.compare.
Proof.
  split; [intros; apply Z.compare_antisym|apply Z.compare_eq_iff|].
  intros x y z. rewrite !Z.compare_lt_iff. lia.
Qed.

#[global] Instance str_total : TotalCompare str_compare.
Proof. split; [apply str_compare_antisym|apply str_compare_eq|apply str_compare_trans]. Qed.

#[global] Instance identifier_total : TotalCompare identifier_order.
Proof.
  split; [|apply identifier_order_eq|]; intros x y.
  - rewrite !identifier_order_classes. destruct (is_numeric_identifier x), (is_numeric_identifier y); try done; apply total_antisym.
  - intros z. rewrite !identifier_order_classes. destruct (is_numeric_identifier x), (is_numeric_identifier y), (is_numeric_identifier z);
      try done; apply total_trans.
Qed.

(** Transitivity of one component of a lexicographic order. *)
Lemma lex_trans {A} (f : A -> A -> comparison) `{!TotalCompare f} x y z c1 c2 c3 :
  (c1 = Lt -> c2 = Lt -> c3 = Lt) ->
  lex (f x y) c1 = Lt -> lex (f y z) c2 = Lt -> lex (f x z) c3 = Lt.
Proof.
  intros Hc H1 H2. unfold lex in *. destruct (f x y) eqn:E1.
  - apply total_eq in E1 as ->. destruct (f y z); naive_solver.
  - destruct (f y z) eqn:E2; [|by rewrite (total_trans x y z)|done].
    apply total_eq in E2 as ->. by rewrite E1.
  - done.
Qed.

Lemma lex_antisym {A} (f : A -> A -> comparison) `{!TotalCompare f} x y c c' :
  c' = CompOpp c -> lex (f y x) c' = CompOpp (lex (f x y) c).
Proof. intros ->. rewrite (total_antisym x y). by destruct (f x y). Qed.

Lemma lex_eq c1 c2 : lex c1 c2 = Eq <-> c1 = Eq /\ c2 = Eq.
Proof. destruct c1; naive_solver. Qed.

#[global] Instance identifiers_total : TotalCompare identifiers_order.
Proof.
  split.
  - intros x. induction x as [|a x IH]; intros [|b y]; try done. by apply lex_antisym; [apply _|].
  - intros x. induction x as [|a x IH]; intros [|b y]; try done. cbn [identifiers_order].
    rewrite lex_eq, total_eq, IH. naive_solver.
  - intros x. induction x as [|a x IH]; intros [|b y] [|c z]; try done. cbn [identifiers_order].
    apply lex_trans; [apply _|apply IH].
Qed.

#[global] Instance prerelease_total : TotalCompare prerelease_order.
Proof.
  split.
  - intros [|a x] [|b y]; try done. apply (total_antisym (f := identifiers_order)).
  - intros [|a x] [|b y]; try done. apply (total_eq (f := identifiers_order)).
  - intros [|a x] [|b y] [|c z]; try done. apply (total_trans (f := identifiers_order)).
Qed.

Lemma precedence_antisym a b : precedence b a = CompOpp (precedence a b).
Proof. unfold precedence. do 3 (apply lex_antisym; [apply _|]). apply total_antisym. Qed.

Lemma precedence_eq a b :
  precedence a b = Eq <->
  major a = major b /\ minor a = minor b /\ patch a = patch b /\ prerelease a = prerelease b.
Proof. unfold precedence. by rewrite !lex_eq, !total_eq. Qed.

Lemma precedence_trans a b c : precedence a b = Lt -> precedence b c = Lt -> precedence a c = Lt.
Proof. unfold precedence. do 3 (apply lex_trans; [apply _|]). apply total_trans. Qed.

(** [Version::compare] orders versions totally, up to their build: exchanging the sides negates
    the result, it is zero exactly when the numbers and the pre-release identifiers are the same, and
    it is transitive. *)
Theorem compare_total_order (a b c : Version) :
  compare b (Some a) = - compare a (Some b)
  /\ (compare a (Some b) = 0 <->
      major a = major b /\ minor a = minor b /\ patch a = patch b /\ prerelease a = prerelease b)
  /\ (compare a (Some b) <= 0 -> compare b (Some c) <= 0 -> compare a (Some c) <= 0).
Proof.
  rewrite !compare_precedence, (precedence_antisym a b), <- precedence_eq.
  split; [by destruct (precedence a b)|]. split; [by destruct (precedence a b)|].
  pose proof (precedence_trans a b c) as Ht.
  destruct (precedence a b) eqn:E1, (precedence b c) eqn:E2;
    unfold ordering_to_comparison, COMPARISON_LESS_THAN, COMPARISON_EQUAL_TO, COMPARISON_GREATER_THAN;
    try lia; intros _ _.
  - assert (precedence a c = Eq) as ->; [|done].
    apply precedence_eq in E1 as (? & ? & ? & ?), E2 as (? & ? & ? & ?).
    apply precedence_eq. naive_solver congruence.
  - assert (precedence a c = Lt) as ->; [|done].
    apply precedence_eq in E1 as (H1 & H2 & H3 & H4). unfold precedence in *. by rewrite H1, H2, H3, H4.
  - assert (precedence a c = Lt) as ->; [|done].
    apply precedence_eq in E2 as (H1 & H2 & H3 & H4). unfold precedence in *. by rewrite <- H1, <- H2, <- H3, <- H4.
  - by rewrite Ht.
Qed.

Lemma compare_total_order_witness :
  compare (mkVersion 1 0 0 [bstr "9"] []) (Some (mkVersion 1 0 0 [] [])) <= 0
  /\ compare (mkVersion 1 0 0 [bstr "9"] []) (Some (mkVersion 1 0 1 [] [])) <= 0.
Proof.
  split; [vm_compute; discriminate|].
  apply (compare_total_order _ (mkVersion 1 0 0 [] []) _); vm_compute; discriminate.
Defined.
