(* ===== verification/SemverParse.v ===== *)
(** * SemverParse: printing and parsing versions

    The printed form of a version is read back, by [try_parse_version] and as the operand of a range
    by [parse_partial], as the same version. *)
From S2P Require Import Prelude Text Chars Numerals JsNum Strs Semver SemverOrder.

#[local] Arguments to_decimal : simpl never.
#[local] Arguments get_uint_component : simpl never.
#[local] Arguments is_numeric_identifier : simpl never.
#[local] Arguments is_uint_component : simpl never.
#[local] Arguments split : simpl never.

(** ** Printed numbers *)
Lemma radix_digits_shape fuel n acc :
  0 <= n < 2 ^ Z.of_nat fuel -> (1 <= fuel)%nat ->
  exists d ds, radix_digits fuel 10 n acc = d :: ds ++ acc /\ dec_digits (d :: ds)
    /\ (if n =? 0 then d = 48 /\ ds = [] else 49 <= d).
Proof.
  revert n acc. induction fuel as [|fuel IH]; intros n acc Hn Hf; [lia|]. cbn [radix_digits].
  pose proof (Z.mod_pos_bound n 10 ltac:(lia)) as Hm. pose proof (Z.div_mod n 10 ltac:(lia)) as Hdm.
  assert (digit_char (n mod 10) = 48 + n mod 10) as Hd.
  { unfold digit_char. by rewrite (proj2 (Z.ltb_lt _ _)) by lia. }
  rewrite Hd. destruct (n / 10 =? 0) eqn:E; bool_to_prop.
  - exists (48 + n mod 10), []. split; [done|]. split; [constructor; [lia|constructor]|].
    destruct (n =? 0) eqn:E0; bool_to_prop; [|lia]. split; [lia|done].
  - rewrite Nat2Z.inj_succ, Z.pow_succ_r in Hn by lia.
    assert (0 <= n / 10) by (apply Z.div_pos; lia).
    destruct fuel as [|fuel]; [cbn in Hn; lia|].
    destruct (IH (n / 10) ((48 + n mod 10) :: acc)) as (d & ds & -> & Hds & Hz); [lia|lia|].
    exists d, (ds ++ [48 + n mod 10]). rewrite <- app_assoc. split; [done|].
    rewrite (proj2 (Z.eqb_neq _ _) E) in Hz. split.
    + apply Forall_cons in Hds as [? ?]. constructor; [done|]. apply Forall_app. split; [done|].
      constructor; [lia|constructor].
    + by rewrite (proj2 (Z.eqb_neq n 0)) by lia.
Qed.

Lemma to_decimal_numeric n :
  0 <= n -> is_numeric_identifier (to_decimal n) = true /\ dec_digits (to_decimal n) /\ to_decimal n <> [].
Proof.
  intros Hn. unfold to_decimal, format_radix. set (fuel := S (Z.to_nat (Z.log2 n))).
  assert (n < 2 ^ Z.of_nat fuel) as Hf.
  { subst fuel. rewrite Nat2Z.inj_succ, Z2Nat.id by apply Z.log2_nonneg.
    destruct (decide (n = 0)) as [->|]; [done|]. apply Z.log2_spec. lia. }
  destruct (radix_digits_shape fuel n [] ltac:(lia) ltac:(lia)) as (d & ds & -> & Hds & Hz).
  rewrite app_nil_r. split; [|done]. unfold is_numeric_identifier.
  destruct (n =? 0); [destruct Hz as [-> ->]; by rewrite bool_decide_eq_true_2|].
  case_bool_decide; [done|]. apply Forall_cons in Hds as [Hd Hds].
  apply andb_true_iff. split; [unfold is_digit_1_9; apply andb_true_iff; rewrite !Z.leb_le; lia|].
  apply forallb_forall. intros b Hb%list_elem_of_In. rewrite Forall_forall in Hds.
  specialize (Hds b Hb). unfold is_ascii_digit. apply andb_true_iff. rewrite !Z.leb_le. lia.
Qed.

Lemma get_uint_to_decimal n : 0 <= n <= U32_MAX -> get_uint_component (to_decimal n) = Some n.
Proof.
  intros Hn. destruct (to_decimal_numeric n ltac:(lia)) as (_ & Hd & Hne).
  unfold get_uint_component. rewrite (parse_u32_value _ Hd Hne).
  pose proof (from_str_radix_format 10 U32_MAX n ltac:(lia) Hn) as Hp. fold (to_decimal n) in Hp.
  unfold from_str_radix in Hp. destruct (to_decimal n) as [|b s] eqn:E; [done|]. rewrite <- E in *.
  rewrite parse_digits_value, Z.mul_0_l, Z.add_0_l in Hp by (done || lia).
  repeat case_decide; naive_solver.
Qed.

Lemma digits_not_in s c : dec_digits s -> c < 48 \/ 57 < c -> c ∉ s.
Proof. intros Hs Hc Hin. unfold dec_digits in Hs. rewrite Forall_forall in Hs. specialize (Hs c Hin). lia. Qed.

(** ** The pieces of a printed version *)
Definition core_text (v : Version) : str :=
  join (bstr ".") [to_decimal (major v); to_decimal (minor v); to_decimal (patch v)].

Definition list_text (l : list str) : option str :=
  if bool_decide (l = []) then None else Some (join (bstr ".") l).

(** A delimiter and a text, when there is one. *)
Definition optional_text (delimiter : char) (text : option str) : str :=
  match text with Some text => delimiter :: text | None => [] end.

Lemma version_to_string_pieces v :
  version_to_string v
  = core_text v ++ optional_text 45 (list_text (prerelease v))
    ++ optional_text 43 (list_text (build v)).
Proof.
  assert (forall d l, (if bool_decide (l = []) then [] else [d] ++ join [46] l)
    = optional_text d (list_text l)) as Hl.
  { intros d l. unfold list_text. by case_bool_decide. }
  unfold version_to_string. rewrite !Hl. unfold core_text. cbn [join]. by rewrite <- !app_assoc.
Qed.

(** The components are 32-bit integers. *)
Definition numbers_ok (v : Version) : Prop :=
  0 <= major v <= U32_MAX /\ 0 <= minor v <= U32_MAX /\ 0 <= patch v <= U32_MAX.

Lemma core_text_chars v : numbers_ok v -> Forall (fun c => c = 46 \/ 48 <= c <= 57) (core_text v).
Proof.
  intros (H1 & H2 & H3). unfold core_text. cbn [join].
  assert (forall n, 0 <= n -> Forall (fun c => c = 46 \/ 48 <= c <= 57) (to_decimal n)) as Hd.
  { intros n Hn. destruct (to_decimal_numeric n Hn) as (_ & Hd & _).
    eapply Forall_impl; [exact Hd|]. intros c Hc. by right. }
  repeat (apply Forall_app; split); first [apply Hd; lia|repeat constructor].
Qed.

Lemma core_text_not_in v c : numbers_ok v -> c <> 46 -> c < 48 \/ 57 < c -> c ∉ core_text v.
Proof.
  intros Hv Hc1 Hc2 Hin. pose proof (core_text_chars v Hv) as Hf. rewrite Forall_forall in Hf.
  specialize (Hf c Hin). lia.
Qed.

Lemma split_core_text v :
  numbers_ok v ->
  split (chr ".") (core_text v) = [to_decimal (major v); to_decimal (minor v); to_decimal (patch v)].
Proof.
  intros (H1 & H2 & H3). apply split_join; [done|].
  repeat constructor; (eapply digits_not_in; [apply to_decimal_numeric; lia|lia]).
Qed.

Lemma split_build_text core pre bld :
  43 ∉ core -> (forall s, pre = Some s -> 43 ∉ s) -> (forall s, bld = Some s -> 43 ∉ s) ->
  split 43 (core ++ optional_text 45 pre ++ optional_text 43 bld)
  = (core ++ optional_text 45 pre) :: match bld with Some s => [s] | None => [] end.
Proof.
  intros Hc Hp Hb.
  assert (43 ∉ core ++ optional_text 45 pre) as Hcp.
  { rewrite elem_of_app. intros [?|Hin]; [done|]. destruct pre as [s|]; cbn in Hin.
    - apply elem_of_cons in Hin as [|?]; [done|]. by eapply Hp.
    - by apply not_elem_of_nil in Hin. }
  rewrite app_assoc. destruct bld as [s|]; cbn [optional_text].
  - rewrite split_app by done. by rewrite split_none by by apply Hb.
  - rewrite app_nil_r. by apply split_none.
Qed.

Lemma split_prerelease_text core pre :
  45 ∉ core ->
  split_once_char 45 (core ++ optional_text 45 pre)
  = match pre with Some s => Some (core, s) | None => None end.
Proof.
  intros Hc. destruct pre as [s|]; cbn [optional_text].
  - by apply split_once_app.
  - rewrite app_nil_r. by apply split_once_none.
Qed.

(** ** Versions *)
Definition version_ok (v : Version) : Prop :=
  numbers_ok v /\ Forall (fun part => is_prerelease_part part = true) (prerelease v)
  /\ Forall (fun part => is_build_part part = true) (build v).

Lemma is_identifier_char_range c :
  is_identifier_char c = true -> c <> 43 /\ c <> 46 /\ 45 <= c /\ c <= 122.
Proof.
  unfold is_identifier_char, is_ascii_alphanumeric, is_ascii_alphabetic, is_ascii_uppercase,
    is_ascii_lowercase, is_ascii_digit.
  rewrite !orb_true_iff, !andb_true_iff, !Z.leb_le, Z.eqb_eq. lia.
Qed.

Lemma digit_identifier_char c : is_ascii_digit c = true -> is_identifier_char c = true.
Proof. unfold is_identifier_char, is_ascii_alphanumeric. intros ->. by rewrite orb_true_r. Qed.

(** The parts of both lists: not empty, of identifier characters. *)
Lemma build_part_chars part :
  is_build_part part = true -> part <> [] /\ Forall (fun c => is_identifier_char c = true) part.
Proof.
  unfold is_build_part. rewrite andb_true_iff, negb_true_iff, bool_decide_eq_false.
  intros [Hne Hf]. split; [done|]. apply Forall_forall. intros c Hc%list_elem_of_In.
  rewrite forallb_forall in Hf. by apply Hf.
Qed.

Lemma prerelease_part_build part : is_prerelease_part part = true -> is_build_part part = true.
Proof.
  unfold is_prerelease_part, is_build_part.
  assert (forall c r, is_identifier_char c = true -> forallb is_identifier_char r = true ->
    negb (bool_decide (c :: r = [])) && forallb is_identifier_char (c :: r) = true) as Hcr.
  { intros c r Hc Hr. rewrite bool_decide_eq_false_2 by done. cbn. by rewrite Hc, Hr. }
  destruct (is_numeric_identifier part) eqn:E.
  - intros _. apply is_numeric_identifier_spec in E as (Hd & Hne & _). destruct part as [|c r]; [done|].
    assert (Forall (fun c => is_identifier_char c = true) (c :: r)) as Hf.
    { eapply Forall_impl; [exact Hd|]. intros x Hx. apply digit_identifier_char. unfold is_ascii_digit.
      apply andb_true_iff. rewrite !Z.leb_le. by cbn in Hx. }
    apply Forall_cons in Hf as [? Hf]. apply Hcr; [done|]. apply forallb_forall.
    intros x Hx%list_elem_of_In. rewrite Forall_forall in Hf. by apply Hf.
  - destruct part as [|c r]; [done|]. intros [Hc Hr]%andb_true_iff. apply Hcr; [|done].
    unfold is_identifier_char, is_ascii_alphanumeric. apply orb_true_iff in Hc as [-> | ->]; [done|].
    by rewrite orb_true_r.
Qed.

Lemma join_chars (P : char -> Prop) parts :
  P 46 -> Forall (Forall P) parts -> Forall P (join (bstr ".") parts).
Proof.
  intros HP. induction parts as [|part parts IH]; intros Hf; [constructor|].
  apply Forall_cons in Hf as [Hp Hf]. destruct parts; [done|]. cbn [join].
  apply Forall_app. split; [done|]. constructor; [done|by apply IH].
Qed.

Lemma join_parts parts :
  parts <> [] -> Forall (fun part => is_build_part part = true) parts ->
  split (chr ".") (join (bstr ".") parts) = parts /\ join (bstr ".") parts <> []
  /\ 43 ∉ join (bstr ".") parts.
Proof.
  intros Hne Hf.
  assert (Forall (fun part => part <> [] /\ Forall (fun c => is_identifier_char c = true) part) parts) as Hc.
  { eapply Forall_impl; [exact Hf|]. apply build_part_chars. }
  assert (forall part c, part ∈ parts -> c ∈ part -> is_identifier_char c = true) as Hin.
  { intros part c Hp Hc'. rewrite Forall_forall in Hc. destruct (Hc part Hp) as [_ Hcs].
    rewrite Forall_forall in Hcs. by apply Hcs. }
  split; [|split].
  - apply split_join; [done|]. apply Forall_forall. intros part Hp Hc'.
    apply (Hin part) in Hc'; [|done]. by apply is_identifier_char_range in Hc' as (? & ? & ?).
  - destruct parts as [|part [|part' parts]]; [done| |]; apply Forall_cons in Hc as [[Hp _] _]; cbn.
    + done.
    + by destruct part.
  - assert (Forall (fun c => c <> 43) (join (bstr ".") parts)) as Hj.
    { apply join_chars; [done|]. apply Forall_forall. intros part Hp. apply Forall_forall.
      intros c Hc'. apply (Hin part) in Hc'; [|done]. by apply is_identifier_char_range in Hc' as (? & ? & ?). }
    intros Hc'. rewrite Forall_forall in Hj. by apply (Hj 43).
Qed.

Lemma list_text_parts parts :
  Forall (fun part => is_build_part part = true) parts ->
  forall s, list_text parts = Some s -> split (chr ".") s = parts /\ s <> [] /\ 43 ∉ s.
Proof. unfold list_text. intros Hf s. case_bool_decide; [done|]. intros [= <-]. by apply join_parts. Qed.

Lemma identifiers_list valid part_valid parts :
  (forall s, valid s = negb (bool_decide (s = [])) && forallb part_valid (split (chr ".") s)) ->
  Forall (fun part => is_build_part part = true) parts ->
  Forall (fun part => part_valid part = true) parts ->
  identifiers valid (list_text parts) = Some parts.
Proof.
  intros Hv Hb Hp. unfold identifiers. pose proof (list_text_parts parts Hb) as Hs.
  destruct (list_text parts) as [s|] eqn:E.
  - destruct (Hs s eq_refl) as (Hsplit & Hne & _). rewrite Hv, Hsplit, bool_decide_eq_false_2 by done.
    assert (forallb part_valid parts = true) as ->; [|done].
    apply forallb_forall. intros part Hin%list_elem_of_In. rewrite Forall_forall in Hp. by apply Hp.
  - unfold list_text in E. by case_bool_decide; subst.
Qed.

Lemma parse_printed_version (v : Version) :
  version_ok v -> try_parse_version (version_to_string v) = Some v.
Proof.
  intros (Hn & Hp & Hb). pose proof Hn as (H1 & H2 & H3).
  assert (Forall (fun part => is_build_part part = true) (prerelease v)) as Hp'.
  { eapply Forall_impl; [exact Hp|]. apply prerelease_part_build. }
  pose proof (list_text_parts _ Hp') as Tp. pose proof (list_text_parts _ Hb) as Tb.
  unfold try_parse_version, split_once. rewrite version_to_string_pieces, split_build_text.
  2: by apply core_text_not_in; [|lia..]. 2: by intros s (_ & _ & ?)%Tp. 2: by intros s (_ & _ & ?)%Tb.
  assert (forall (A : Type) (x : A) (f : str * option str -> option A),
    f (core_text v ++ optional_text 45 (list_text (prerelease v)), list_text (build v)) = Some x ->
    (p ← match (core_text v ++ optional_text 45 (list_text (prerelease v)))
             :: match list_text (build v) with Some s => [s] | None => [] end with
         | [before] => Some (before, None)
         | [before; after] => if bool_decide (after = []) then None else Some (before, Some after)
         | _ => None end; f p) = Some x) as Hsplit.
  { intros A x f Hf. destruct (list_text (build v)) as [s|]; [|done].
    rewrite bool_decide_eq_false_2; [done|]. by apply Tb. }
  apply Hsplit. unfold split_once_first. rewrite split_prerelease_text by (apply core_text_not_in; [done|lia..]).
  assert (match match list_text (prerelease v) with Some s => Some (core_text v, s) | None => None end with
    | Some (before, after) => if bool_decide (after = []) then None else Some (before, Some after)
    | None => Some (core_text v ++ optional_text 45 (list_text (prerelease v)), None) end
    = Some (core_text v, list_text (prerelease v))) as ->.
  { destruct (list_text (prerelease v)) as [s|]; [|by cbn; rewrite app_nil_r].
    rewrite bool_decide_eq_false_2; [done|]. by apply Tp. }
  cbn [mbind option_bind]. rewrite split_core_text by done. cbn [length existsb nth].
  unfold is_uint_component.
  rewrite (proj1 (to_decimal_numeric (major v) (proj1 H1))), (proj1 (to_decimal_numeric (minor v) (proj1 H2))),
    (proj1 (to_decimal_numeric (patch v) (proj1 H3))). cbn [negb orb andb].
  rewrite !get_uint_to_decimal by done. cbn.
  rewrite (identifiers_list is_prerelease is_prerelease_part) by done.
  cbn. rewrite (identifiers_list is_build is_build_part) by done. cbn. by destruct v.
Qed.

(** ** The texts that are accepted *)
Lemma numeric_to_decimal s n :
  is_uint_component s = true -> get_uint_component s = Some n -> s = to_decimal n /\ 0 <= n <= U32_MAX.
Proof.
  unfold is_uint_component, get_uint_component. intros Hs Hp.
  pose proof (is_numeric_identifier_spec s Hs) as (Hd & Hne & _).
  rewrite (parse_u32_value s Hd Hne) in Hp. case_decide; [|done]. injection Hp as <-.
  pose proof (dec_value_bounds s Hd). split; [|lia].
  destruct (to_decimal_numeric (dec_value s)) as (Hn & Hd' & Hne'); [lia|].
  apply numeric_value_inj; [done..|].
  pose proof (get_uint_to_decimal (dec_value s) ltac:(lia)) as Hg. unfold get_uint_component in Hg.
  rewrite (parse_u32_value _ Hd' Hne') in Hg. case_decide; [|done]. by injection Hg as ->.
Qed.

Lemma split_once_inv text before after :
  split_once text 43 = Some (before, after) -> text = before ++ optional_text 43 after.
Proof.
  unfold split_once. pose proof (join_split 43 text) as Hj.
  destruct (split 43 text) as [|a [|b [|]]]; try done.
  - intros [= <- <-]. cbn in *. by rewrite app_nil_r.
  - case_bool_decide; [done|]. by intros [= <- <-].
Qed.

Lemma split_once_first_inv text before after :
  split_once_first text 45 = Some (before, after) -> text = before ++ optional_text 45 after.
Proof.
  unfold split_once_first. destruct (split_once_char 45 text) as [[a b]|] eqn:E.
  - case_bool_decide; [done|]. intros [= <- <-]. by apply split_once_Some in E as [-> _].
  - intros [= <- <-]. cbn. by rewrite app_nil_r.
Qed.

Lemma identifiers_inv valid part_valid text parts :
  (forall s, valid s = negb (bool_decide (s = [])) && forallb part_valid (split (chr ".") s)) ->
  identifiers valid text = Some parts ->
  text = list_text parts /\ Forall (fun part => part_valid part = true) parts.
Proof.
  intros Hv. unfold identifiers, list_text. destruct text as [s|].
  - rewrite Hv. destruct (negb _ && _) eqn:E; [|done]. intros [= <-].
    apply andb_true_iff in E as [_ Hf]. split.
    + destruct (split_by_cons (Z.eqb 46) s) as (a & l & Es). rewrite bool_decide_eq_false_2.
      * by rewrite join_split.
      * unfold split. by rewrite Es.
    + apply Forall_forall. intros part Hin%list_elem_of_In. rewrite forallb_forall in Hf. by apply Hf.
  - by intros [= <-].
Qed.

(** The short forms: the missing numbers are zero. *)
Definition short_text (v : Version) (text : str) : Prop :=
  prerelease v = [] /\ build v = [] /\ patch v = 0
  /\ (text = to_decimal (major v) ++ bstr "." ++ to_decimal (minor v)
      \/ minor v = 0 /\ text = to_decimal (major v)).

Lemma parse_short_version v text : numbers_ok v -> short_text v text -> try_parse_version text = Some v.
Proof.
  intros (H1 & H2 & H3) (Hp & Hb & Hz & Ht).
  pose proof (to_decimal_numeric (major v) ltac:(lia)) as (N1 & D1 & _).
  pose proof (to_decimal_numeric (minor v) ltac:(lia)) as (N2 & D2 & _).
  assert (exists parts, parts <> [] /\ text = join (bstr ".") parts /\
    (parts = [to_decimal (major v); to_decimal (minor v)] \/ minor v = 0 /\ parts = [to_decimal (major v)]))
    as (parts & Hne & -> & Hparts).
  { destruct Ht as [-> | [Hm ->]]; eexists; split_and!; [| |by left| | |by right]; done. }
  assert (forall c, c = 43 \/ c = 45 -> c ∉ join (bstr ".") parts) as Hc.
  { intros c Hc Hin. assert (Forall (fun c => c = 46 \/ 48 <= c <= 57) (join (bstr ".") parts)) as Hf.
    { assert (forall s, dec_digits s -> Forall (fun c => c = 46 \/ 48 <= c <= 57) s) as Hd
        by (intros s Hs; eapply Forall_impl; [exact Hs|]; cbn; lia).
      apply join_chars; [by left|]. destruct Hparts as [-> | [_ ->]]; repeat constructor; by apply Hd. }
    rewrite Forall_forall in Hf. specialize (Hf c Hin). lia. }
  assert (split (chr ".") (join (bstr ".") parts) = parts) as Hsplit.
  { apply split_join; [done|]. destruct Hparts as [-> | [_ ->]]; repeat constructor;
      (eapply digits_not_in; [done|lia]). }
  unfold try_parse_version, split_once. rewrite split_none by (apply Hc; by left). cbn [mbind option_bind].
  unfold split_once_first. rewrite split_once_none by (apply Hc; by right). cbn [mbind option_bind].
  rewrite Hsplit. destruct v as [M m p pre bld]. cbn in *. subst. unfold is_uint_component.
  destruct Hparts as [-> | [-> ->]]; cbn; rewrite N1, ?N2; cbn; rewrite !get_uint_to_decimal by done; done.
Qed.

(** ** The rules of the specification *)

(** Items 9 and 10: dot separated identifiers of ASCII alphanumerics and hyphens, none empty; those of the pre-release that
    are numeric have no leading zero. *)
Definition identifier_chars (s : str) : Prop :=
  s <> [] /\ Forall (fun c => 48 <= c <= 57 \/ 65 <= c <= 90 \/ 97 <= c <= 122 \/ c = 45) s.
Definition no_leading_zero (s : str) : Prop := dec_digits s -> (1 < length s)%nat -> head s <> Some 48.

(** The source asks for more: a pre-release identifier that starts with a digit is numeric. *)
Definition digit_starts_number (s : str) : Prop := (exists d r, s = d :: r /\ 48 <= d <= 57) -> dec_digits s.

Record standard_version (v : Version) : Prop := {
  sv_numbers : numbers_ok v;
  sv_prerelease : Forall (fun s => identifier_chars s /\ no_leading_zero s) (prerelease v);
  sv_build : Forall identifier_chars (build v);
}.

Lemma identifier_char_rule c :
  is_identifier_char c = true <-> 48 <= c <= 57 \/ 65 <= c <= 90 \/ 97 <= c <= 122 \/ c = 45.
Proof.
  unfold is_identifier_char, is_ascii_alphanumeric, is_ascii_alphabetic, is_ascii_uppercase, is_ascii_lowercase,
    is_ascii_digit. change (chr "-") with 45. rewrite !orb_true_iff, !andb_true_iff, !Z.leb_le, Z.eqb_eq. lia.
Qed.

Lemma build_part_rule s : is_build_part s = true <-> identifier_chars s.
Proof.
  unfold is_build_part, identifier_chars. rewrite andb_true_iff, negb_true_iff, bool_decide_eq_false, forallb_forall, Forall_forall.
  apply and_iff_compat_l. split; intros H c Hc.
  - apply identifier_char_rule, H. by apply list_elem_of_In.
  - apply identifier_char_rule, H. by apply list_elem_of_In.
Qed.

Lemma numeric_rule s : is_numeric_identifier s = true <-> s <> [] /\ dec_digits s /\ no_leading_zero s.
Proof.
  rewrite is_numeric_identifier_rule. unfold numeric_identifier, no_leading_zero. destruct s as [|c r]; [naive_solver|].
  assert (forallb (fun c => (48 <=? c) && (c <=? 57)) (c :: r) = true <-> dec_digits (c :: r)) as Hd.
  { unfold dec_digits. rewrite forallb_forall, Forall_forall. split; intros H x Hx%list_elem_of_In.
    - apply H in Hx. rewrite andb_true_iff, !Z.leb_le in Hx. done.
    - rewrite andb_true_iff, !Z.leb_le. by apply H. }
  rewrite andb_true_iff, Hd, orb_true_iff, negb_true_iff, Z.eqb_neq, bool_decide_eq_true. cbn [head length].
  split.
  - intros [H1 H2]. split; [done|]. split; [done|]. intros _ Hl [= ->]. destruct H2 as [? | ->]; [done|]. cbn in Hl. lia.
  - intros (_ & H1 & H2). split; [done|]. destruct r as [|c' r]; [by right|left]. intros ->. apply H2; [done|cbn; lia|done].
Qed.

Lemma prerelease_part_rule s :
  is_prerelease_part s = true <-> (identifier_chars s /\ no_leading_zero s) /\ digit_starts_number s.
Proof.
  split.
  - intros Hp. pose proof (proj1 (build_part_rule s) (prerelease_part_build s Hp)) as Hb. split; [split; [done|]|].
    all: unfold is_prerelease_part in Hp; destruct (is_numeric_identifier s) eqn:En.
    1, 3: apply numeric_rule in En as (? & ? & ?); first [done | by intros _].
    all: destruct s as [|c r]; [done|]; apply andb_true_iff in Hp as [Hc _].
    all: assert (~ 48 <= c <= 57) as Hn by (unfold is_ascii_alphabetic, is_ascii_uppercase, is_ascii_lowercase in Hc;
      change (chr "-") with 45 in Hc; rewrite !orb_true_iff, !andb_true_iff, !Z.leb_le, Z.eqb_eq in Hc; lia).
    + intros Hd. apply Forall_cons in Hd as [? _]. lia.
    + intros (d & r' & [= -> ->] & ?). lia.
  - intros [[[Hne Hc] Hz] Hs]. unfold is_prerelease_part. destruct (is_numeric_identifier s) eqn:En; [done|].
    destruct s as [|c r]; [done|]. assert (~ 48 <= c <= 57) as Hn.
    { intros Hd. apply not_true_iff_false in En. apply En, numeric_rule. split; [done|]. split; [|done]. apply Hs. by exists c, r. }
    apply Forall_cons in Hc as [Hc Hr]. apply andb_true_iff. split.
    + unfold is_ascii_alphabetic, is_ascii_uppercase, is_ascii_lowercase. change (chr "-") with 45.
      rewrite !orb_true_iff, !andb_true_iff, !Z.leb_le, Z.eqb_eq. lia.
    + apply forallb_forall. intros x Hx%list_elem_of_In. rewrite Forall_forall in Hr. by apply identifier_char_rule, Hr.
Qed.

Lemma version_ok_rule v :
  version_ok v <-> standard_version v /\ Forall digit_starts_number (prerelease v).
Proof.
  unfold version_ok. assert (Forall (fun s => is_prerelease_part s = true) (prerelease v)
    <-> Forall (fun s => identifier_chars s /\ no_leading_zero s) (prerelease v) /\ Forall digit_starts_number (prerelease v)) as ->.
  { rewrite !Forall_forall. split; [intros Hp; split; intros s Hs; by apply prerelease_part_rule, Hp|].
    intros [H1 H2] s Hs. apply prerelease_part_rule. split; [by apply H1|by apply H2]. }
  assert (Forall (fun s => is_build_part s = true) (build v) <-> Forall identifier_chars (build v)) as ->.
  { rewrite !Forall_forall. split; intros Hp s Hs; by apply build_part_rule, Hp. }
  split; [intros (H1 & [H2 H3] & H4); by split|intros [[H1 H2 H4] H3]; by split_and!].
Qed.

(** C25. [try_parse_version] accepts the printed forms of the versions of the specification, save those with a pre-release
    identifier that starts with a digit and is not numeric: it returns a version for a text if and only if the numbers
    of the version fit 32 bits, its identifiers are valid by the rules of the specification, those of the pre-release that
    start with a digit are numbers, and the text is the printed form of the version, or its short form with the last zero
    numbers left out. *)
Theorem try_parse_version_exact (text : str) (v : Version) :
  try_parse_version text = Some v
  <-> standard_version v /\ Forall digit_starts_number (prerelease v)
      /\ (text = version_to_string v \/ short_text v text).
Proof.
  enough (try_parse_version text = Some v <-> version_ok v /\ (text = version_to_string v \/ short_text v text)) as E
    by (rewrite version_ok_rule in E; tauto).
  split; [|intros [Hv [-> | Hs]]; [by apply parse_printed_version|by apply parse_short_version; [apply Hv|]]].
  unfold try_parse_version. destruct (split_once text 43) as [[vp bs]|] eqn:E1; [|done]. cbn.
  apply split_once_inv in E1 as ->. destruct (split_once_first vp 45) as [[core ps]|] eqn:E2; [|done]. cbn.
  apply split_once_first_inv in E2 as ->. pose proof (join_split 46 core) as Hj.
  destruct (split 46 core) as [|a [|b [|c [|]]]]; try done; cbn [length Nat.eqb Nat.ltb Nat.leb orb existsb nth andb];
    (destruct (_ || _) eqn:Hu; [done|]); rewrite ?orb_false_r in Hu; bool_to_prop.
  - (destruct (_ || _) eqn:Ho; [done|]); bool_to_prop.
    apply bool_decide_eq_false, dec_stable in H, H0. subst ps bs. cbn.
    destruct (get_uint_component a) as [M|] eqn:Ea; [|done]. cbn. intros [= <-].
    apply numeric_to_decimal in Ea as [-> HM]; [|by destruct (is_uint_component a)].
    split; [split; [|split; constructor]; unfold numbers_ok, U32_MAX in *; cbn; lia|]. right.
    do 3 (split; [done|]). right. split; [done|]. cbn in *. by rewrite !app_nil_r.
  - (destruct (_ || _) eqn:Ho; [done|]); bool_to_prop.
    apply bool_decide_eq_false, dec_stable in H1, H2. subst ps bs. cbn.
    destruct (get_uint_component a) as [M|] eqn:Ea; [|done]. cbn.
    destruct (get_uint_component b) as [m|] eqn:Eb; [|done]. cbn. intros [= <-].
    apply numeric_to_decimal in Ea as [-> HM]; [|by destruct (is_uint_component a)].
    apply numeric_to_decimal in Eb as [-> Hm]; [|by destruct (is_uint_component b)].
    split; [split; [|split; constructor]; unfold numbers_ok, U32_MAX in *; cbn; lia|]. right.
    do 3 (split; [done|]). left. rewrite !app_nil_r. by cbn in *.
  - destruct (get_uint_component a) as [M|] eqn:Ea; [|done]. cbn.
    destruct (get_uint_component b) as [m|] eqn:Eb; [|done]. cbn.
    destruct (get_uint_component c) as [p|] eqn:Ec; [|done]. cbn.
    destruct (identifiers is_prerelease ps) as [pre|] eqn:Ep; [|done]. cbn.
    destruct (identifiers is_build bs) as [bld|] eqn:Eb'; [|done]. cbn. intros [= <-].
    apply numeric_to_decimal in Ea as [-> HM]; [|by destruct (is_uint_component a)].
    apply numeric_to_decimal in Eb as [-> Hm]; [|by destruct (is_uint_component b)].
    apply numeric_to_decimal in Ec as [-> Hp]; [|by destruct (is_uint_component c)].
    apply (identifiers_inv _ is_prerelease_part) in Ep as [-> Hpre]; [|done].
    apply (identifiers_inv _ is_build_part) in Eb' as [-> Hbld]; [|done].
    split; [by split|]. left. rewrite version_to_string_pieces. unfold core_text. cbn [major minor patch].
    rewrite Hj. by rewrite <- app_assoc.
Qed.

(** The specification allows the pre-release identifier [1alpha]. *)
Example digit_first_identifier :
  try_parse_version (bstr "1.0.0-1alpha") = None
  /\ standard_version (mkVersion 1 0 0 [bstr "1alpha"] []) /\ version_to_string (mkVersion 1 0 0 [bstr "1alpha"] []) = bstr "1.0.0-1alpha".
Proof.
  split; [reflexivity|]. split; [|reflexivity]. split; [unfold numbers_ok, U32_MAX; cbn; lia| |constructor].
  apply Forall_singleton. split; [by apply build_part_rule|].
  intros Hd. apply Forall_inv_tail, Forall_inv in Hd. cbn in Hd. lia.
Qed.
