(* ===== verification/SemverRange.v ===== *)
(** * SemverRange: version ranges

    Parsed ranges can be tested on every version, and printing and parsing a range gives it back unless it
    has an alternative that accepts everything. *)
From S2P Require Import Prelude Text Chars Trivia Numerals JsNum Strs Semver SemverOrder SemverParse.

#[local] Arguments to_decimal : simpl never.
#[local] Arguments get_uint_component : simpl never.
#[local] Arguments is_numeric_identifier : simpl never.
#[local] Arguments is_uint_component : simpl never.
#[local] Arguments split : simpl never.
#[local] Arguments is_wildcard : simpl never.

(** ** Operands *)

(** An identifier list of an operand: the parts of a text of identifier characters and dots, which may
    be empty. *)
Definition qualifier_parts (parts : list str) : Prop :=
  parts = [] \/ exists s, is_qualifier_part_list s = true /\ parts = split (chr ".") s.

Definition operand_ok (v : Version) : Prop :=
  numbers_ok v /\ qualifier_parts (prerelease v) /\ qualifier_parts (build v).

Lemma qualifier_spec s :
  is_qualifier_part_list s = true ->
  s <> [] /\ Forall (fun c => is_identifier_char c = true \/ c = 46) s.
Proof.
  unfold is_qualifier_part_list. rewrite andb_true_iff, negb_true_iff, bool_decide_eq_false.
  intros [Hne Hf]. split; [done|]. apply Forall_forall. intros c Hc%list_elem_of_In.
  rewrite forallb_forall in Hf. specialize (Hf c Hc). unfold is_identifier_char.
  rewrite !orb_true_iff in Hf. rewrite orb_true_iff. rewrite Z.eqb_eq in *. rewrite Z.eqb_eq in Hf. tauto.
Qed.

Lemma qualifier_text parts :
  qualifier_parts parts ->
  forall s, list_text parts = Some s -> is_qualifier_part_list s = true /\ parts = split (chr ".") s.
Proof.
  unfold list_text. intros Hq s. case_bool_decide; [done|]. intros [= <-].
  destruct Hq as [|(s & Hs & ->)]; [done|]. by rewrite join_split.
Qed.

Lemma split_list_text parts : qualifier_parts parts -> split_list (list_text parts) = parts.
Proof.
  intros Hq. pose proof (qualifier_text parts Hq) as Ht. destruct (list_text parts) as [s|] eqn:E; cbn.
  - by destruct (Ht s eq_refl) as [_ ->].
  - unfold list_text in E. by case_bool_decide.
Qed.

Lemma to_decimal_not_wildcard n : 0 <= n -> is_wildcard (to_decimal n) = false.
Proof.
  intros Hn. pose proof (to_decimal_numeric n Hn) as (_ & Hd & _). unfold is_wildcard.
  assert (forall c, c < 48 \/ 57 < c -> to_decimal n <> [c]) as Hc.
  { intros c Hc E. rewrite E in Hd. apply Forall_cons in Hd as [? _]. lia. }
  rewrite !bool_decide_eq_false_2; [done|apply Hc; lia..].
Qed.

(** The operand of a range is read back from its printed form. *)
Lemma parse_partial_printed v :
  operand_ok v ->
  parse_partial (version_to_string v)
  = Some (mkPartial v (to_decimal (major v)) (to_decimal (minor v)) (to_decimal (patch v))).
Proof.
  intros (Hn & Hp & Hb). pose proof Hn as (H1 & H2 & H3).
  pose proof (qualifier_text _ Hp) as Tp. pose proof (qualifier_text _ Hb) as Tb.
  assert (forall s, is_qualifier_part_list s = true -> 43 ∉ s /\ s <> []) as Hq.
  { intros s [Hne Hf]%qualifier_spec. split; [|done]. intros Hin. rewrite Forall_forall in Hf.
    destruct (Hf 43 Hin); [done|lia]. }
  unfold parse_partial, split_optional. rewrite version_to_string_pieces, split_build_text.
  2: by apply core_text_not_in; [|lia..]. 2: by intros s [Hs _]%Tp; apply Hq.
  2: by intros s [Hs _]%Tb; apply Hq.
  assert (match (core_text v ++ optional_text 45 (list_text (prerelease v)))
             :: match list_text (build v) with Some s => [s] | None => [] end with
         | [before] => Some (before, None)
         | [before; after] => if bool_decide (after = []) then None
             else if negb (is_qualifier_part_list after) then None else Some (before, Some after)
         | _ => None end
    = Some (core_text v ++ optional_text 45 (list_text (prerelease v)), list_text (build v))) as ->.
  { destruct (list_text (build v)) as [s|]; [|done]. destruct (Tb s eq_refl) as [Hs _].
    rewrite bool_decide_eq_false_2 by (by apply Hq). by rewrite Hs. }
  cbn [mbind option_bind]. unfold split_optional_first.
  rewrite split_prerelease_text by (apply core_text_not_in; [done|lia..]).
  assert (match match list_text (prerelease v) with Some s => Some (core_text v, s) | None => None end with
    | Some (before, after) => if bool_decide (after = []) || negb (is_qualifier_part_list after) then None
        else Some (before, Some after)
    | None => Some (core_text v ++ optional_text 45 (list_text (prerelease v)), None) end
    = Some (core_text v, list_text (prerelease v))) as ->.
  { destruct (list_text (prerelease v)) as [s|]; [|by cbn; rewrite app_nil_r].
    destruct (Tp s eq_refl) as [Hs _].
    rewrite bool_decide_eq_false_2 by (by apply Hq). by rewrite Hs. }
  cbn [mbind option_bind]. rewrite split_core_text by done. cbn [length existsb nth].
  unfold is_xr, is_uint_component.
  rewrite (proj1 (to_decimal_numeric (major v) (proj1 H1))), (proj1 (to_decimal_numeric (minor v) (proj1 H2))),
    (proj1 (to_decimal_numeric (patch v) (proj1 H3))), !orb_true_r. cbn [negb orb andb Nat.eqb Nat.ltb Nat.leb].
  unfold partial_numbers. rewrite !to_decimal_not_wildcard by lia. rewrite !get_uint_to_decimal by done.
  cbn. rewrite !split_list_text by done. by destruct v.
Qed.

(** ** Texts of range atoms *)
Definition atom_char (c : char) : bool :=
  is_ascii_alphanumeric c || (c =? chr "-") || (c =? chr "+") || (c =? chr ".") || (c =? chr "*").

Lemma is_range_atom_spec s : is_range_atom s = true <-> s <> [] /\ Forall (fun c => atom_char c = true) s.
Proof.
  unfold is_range_atom. rewrite andb_true_iff, negb_true_iff, bool_decide_eq_false, forallb_forall, Forall_forall.
  split; (intros [Hne Hf]; split; [done|]); intros c Hc; apply Hf; by apply list_elem_of_In.
Qed.

Lemma identifier_atom c : is_identifier_char c = true \/ c = 46 -> atom_char c = true.
Proof.
  unfold is_identifier_char, atom_char. rewrite !orb_true_iff, !Z.eqb_eq. tauto.
Qed.

Lemma atom_char_range c : atom_char c = true -> 42 <= c <= 122 /\ is_whitespace c = false.
Proof.
  intros Hc. assert (42 <= c <= 122) as Hr.
  { unfold atom_char, is_ascii_alphanumeric, is_ascii_alphabetic, is_ascii_uppercase,
      is_ascii_lowercase, is_ascii_digit in Hc.
    rewrite !orb_true_iff, !andb_true_iff, !Z.leb_le, !Z.eqb_eq in Hc. lia. }
  split; [done|]. unfold is_whitespace, is_whitespace_non_ascii. cbn [existsb].
  rewrite !orb_false_iff, andb_false_iff, !Z.leb_gt, !Z.eqb_neq. lia.
Qed.

Lemma version_atoms v : operand_ok v -> is_range_atom (version_to_string v) = true.
Proof.
  intros (Hn & Hp & Hb). apply is_range_atom_spec. rewrite version_to_string_pieces. split.
  - pose proof (to_decimal_numeric (major v) ltac:(apply Hn)) as (_ & _ & Hne). unfold core_text. cbn [join].
    by destruct (to_decimal (major v)).
  - assert (forall parts, qualifier_parts parts -> forall d, atom_char d = true ->
      Forall (fun c => atom_char c = true) (optional_text d (list_text parts))) as Ho.
    { intros parts Hq d Hd. pose proof (qualifier_text parts Hq) as Ht.
      destruct (list_text parts) as [s|]; cbn; [|constructor].
      destruct (Ht s eq_refl) as [[_ Hs]%qualifier_spec _]. constructor; [done|].
      eapply Forall_impl; [exact Hs|]. apply identifier_atom. }
    apply Forall_app. split; [|apply Forall_app; split; by apply Ho].
    eapply Forall_impl; [by apply core_text_chars|]. cbn. intros c Hc. apply identifier_atom.
    destruct Hc as [-> |Hc]; [by right|left]. apply digit_identifier_char. unfold is_ascii_digit.
    apply andb_true_iff. by rewrite !Z.leb_le.
Qed.

(** ** White space and bars around texts *)

(** A text that [trim] leaves alone. *)
Definition tight (s : str) : Prop :=
  exists a b, head s = Some a /\ last s = Some b /\ is_whitespace a = false /\ is_whitespace b = false.

Lemma trim_start_app pre s :
  Forall (fun c => is_whitespace c = true) pre ->
  match head s with Some a => is_whitespace a = false | None => True end ->
  trim_start (pre ++ s) = s.
Proof.
  intros Hp Hs. unfold trim_start. induction Hp as [|c pre Hc Hp IH]; cbn.
  - destruct s as [|a s]; [done|]. cbn in *. by rewrite Hs.
  - by rewrite Hc.
Qed.

Lemma trim_app pre s post :
  Forall (fun c => is_whitespace c = true) pre -> Forall (fun c => is_whitespace c = true) post ->
  tight s -> trim (pre ++ s ++ post) = s.
Proof.
  intros Hp Hq (a & b & Ha & Hb & Wa & Wb). unfold trim, trim_end.
  assert (s <> []) as Hne by by destruct s.
  rewrite trim_start_app; [|done|]. 2: { destruct s; [done|]. cbn in *. by injection Ha as ->. }
  rewrite reverse_app, trim_start_app.
  - apply reverse_involutive.
  - by apply Forall_reverse.
  - by rewrite head_reverse, Hb.
Qed.

Lemma trim_tight s : tight s -> trim s = s.
Proof. intros Hs. rewrite <- (app_nil_r s) at 1. apply (trim_app [] s []); [constructor..|done]. Qed.

Lemma tight_solid s : s <> [] -> Forall (fun c => is_whitespace c = false) s -> tight s.
Proof.
  intros Hne Hs. destruct s as [|a s]; [done|]. destruct (last (a :: s)) as [b|] eqn:E.
  - exists a, b. split_and!; [done|done|by apply Forall_cons in Hs as [? _]|].
    rewrite Forall_forall in Hs. apply Hs. apply last_Some in E as [l ->]. apply elem_of_app; right; by apply list_elem_of_singleton.
  - by apply last_None in E.
Qed.

(** Texts joined by a separator are tight when they are. *)
Lemma tight_join sep parts :
  parts <> [] -> Forall tight parts -> tight (join sep parts).
Proof.
  induction parts as [|s parts IH]; intros Hne Hf; [done|]. apply Forall_cons in Hf as [Hs Hf].
  destruct parts as [|s' parts]; [done|].
  change (join sep (s :: s' :: parts)) with (s ++ sep ++ join sep (s' :: parts)).
  destruct Hs as (a & b & Ha & Hb & Wa & Wb). destruct IH as (a' & b' & Ha' & Hb' & Wa' & Wb'); [done..|].
  exists a, b'. split_and!; [by destruct s|by rewrite !last_app, Hb'|done|done].
Qed.

Lemma find_bars_none s : 124 ∉ s -> find_sub [124; 124] s = None.
Proof.
  induction s as [|c s IH]; intros Hs; [done|]. apply not_elem_of_cons in Hs as [Hc Hs].
  cbn [find_sub]. rewrite IH by done. unfold starts_with. rewrite bool_decide_eq_false_2; [done|].
  intros E. destruct s; cbn in E; congruence.
Qed.

Lemma find_bars_app w s : 124 ∉ w -> find_sub [124; 124] (w ++ 124 :: 124 :: s) = Some (length w).
Proof.
  induction w as [|c w IH]; intros Hw; cbn [app find_sub].
  - unfold starts_with. by rewrite bool_decide_eq_true_2.
  - apply not_elem_of_cons in Hw as [Hc Hw]. rewrite IH by done. unfold starts_with.
    rewrite bool_decide_eq_false_2; [done|]. intros E. destruct w; cbn in E; congruence.
Qed.

(** The parts that [split_str] makes of alternatives: with a space on the sides of the bars. *)
Fixpoint spaced (pre : str) (alts : list str) : list str :=
  match alts with
  | [] => [pre]
  | [a] => [pre ++ a]
  | a :: alts => (pre ++ a ++ [32]) :: spaced [32] alts
  end.

Lemma split_bars fuel pre alts :
  124 ∉ pre -> Forall (fun a => 124 ∉ a) alts -> (length (pre ++ join (bstr " || ") alts) <= fuel)%nat ->
  split_str_fuel fuel (bstr "||") (pre ++ join (bstr " || ") alts) = spaced pre alts.
Proof.
  revert pre fuel. induction alts as [|a alts IH]; intros pre fuel Hp Hf Hl.
  - cbn [join spaced] in *. rewrite app_nil_r in *. destruct fuel; [done|].
    cbn [split_str_fuel]. by rewrite find_bars_none.
  - apply Forall_cons in Hf as [Ha Hf]. destruct alts as [|a' alts].
    + cbn [join spaced] in *. destruct fuel; [done|]. cbn [split_str_fuel].
      rewrite find_bars_none; [done|]. rewrite elem_of_app. tauto.
    + set (rest := a' :: alts) in *. change (join (bstr " || ") (a :: rest))
        with (a ++ [32; 124; 124; 32] ++ join (bstr " || ") rest) in *.
      assert (pre ++ a ++ [32; 124; 124; 32] ++ join (bstr " || ") rest
        = (pre ++ a ++ [32]) ++ 124 :: 124 :: ([32] ++ join (bstr " || ") rest)) as E.
      { by rewrite <- !app_assoc. }
      rewrite E in *. rewrite length_app in Hl. cbn [length] in Hl.
      destruct fuel as [|fuel]; [lia|]. cbn [split_str_fuel]. rewrite find_bars_app.
      2: { rewrite !elem_of_app. intros [?|[?|?%list_elem_of_singleton]]; done. }
      change (length [124; 124]) with 2%nat. rewrite take_app_length, <- drop_drop, drop_app_length.
      cbn [drop]. change (spaced pre (a :: rest)) with ((pre ++ a ++ [32]) :: spaced [32] rest). f_equal.
      apply IH; [by intros ?%list_elem_of_singleton|done|lia].
Qed.

(** ** Hyphens and spaces in an alternative *)

(** No hyphen comes after white space; [w] tells whether the text before ends in white space. *)
Fixpoint no_hyphen (w : bool) (s : str) : bool :=
  match s with
  | [] => true
  | c :: s => negb (w && (c =? 45)) && no_hyphen (is_whitespace c) s
  end.

Lemma hyphen_range_none before s w :
  match last before with Some c => is_whitespace c | None => false end = w ->
  no_hyphen w s = true -> hyphen_range_from before s = None.
Proof.
  revert before w. induction s as [|c s IH]; intros before w Hw Hs; [done|].
  cbn [hyphen_range_from no_hyphen] in *. apply andb_true_iff in Hs as [Hc Hs]. rewrite Hw.
  assert ((c =? 45) && w = false) as -> by (destruct w; [by destruct (c =? 45)|by rewrite andb_false_r]).
  cbn [andb]. eapply IH; [|exact Hs]. by rewrite last_snoc.
Qed.

Lemma no_hyphen_tail s r :
  Forall (fun c => is_whitespace c = false) s -> no_hyphen false (s ++ r) = no_hyphen false r.
Proof. induction 1 as [|c s Hc Hs IH]; [done|]. cbn. by rewrite Hc. Qed.

Lemma no_hyphen_solid w s r :
  Forall (fun c => is_whitespace c = false) s -> s <> [] -> head s <> Some 45 ->
  no_hyphen w (s ++ r) = no_hyphen false r.
Proof.
  intros Hf Hne Hh. destruct s as [|c s]; [done|]. cbn [app no_hyphen].
  rewrite (proj2 (Z.eqb_neq c 45)) by (intros ->; by apply Hh). rewrite andb_false_r. cbn [negb andb].
  apply Forall_cons in Hf as [-> Hf]. by apply no_hyphen_tail.
Qed.

(** The simple ranges of a printed alternative: no white space, no bar, not a hyphen first. *)
Definition simple_text (s : str) : Prop :=
  s <> [] /\ Forall (fun c => is_whitespace c = false /\ c <> 124) s /\ head s <> Some 45.

Lemma simple_solid s : simple_text s -> Forall (fun c => is_whitespace c = false) s.
Proof. intros (_ & Hf & _). by eapply Forall_impl; [exact Hf|intros c [? _]]. Qed.

Lemma parse_hyphen_range_simples parts :
  Forall simple_text parts -> parse_hyphen_range (join (bstr " ") parts) = None.
Proof.
  intros Hf. unfold parse_hyphen_range. apply (hyphen_range_none [] _ false); [done|].
  assert (forall w, no_hyphen w (join (bstr " ") parts) = true) as Hn; [|apply Hn].
  induction Hf as [|s parts Hs Hf IH]; intros w; [done|]. pose proof (simple_solid s Hs) as Hw.
  destruct Hs as (Hne & _ & Hh). destruct parts as [|s' parts].
  - cbn [join]. rewrite <- (app_nil_r s). by rewrite no_hyphen_solid.
  - change (join (bstr " ") (s :: s' :: parts)) with (s ++ 32 :: join (bstr " ") (s' :: parts)).
    rewrite no_hyphen_solid by done. cbn [no_hyphen]. apply IH.
Qed.

Lemma split_by_solid p s : Forall (fun c => p c = false) s -> split_by p s = [s].
Proof. induction 1 as [|c s Hc Hs IH]; [done|]. cbn. by rewrite Hc, IH. Qed.

Lemma split_by_app p s d r :
  Forall (fun c => p c = false) s -> p d = true -> split_by p (s ++ d :: r) = s :: split_by p r.
Proof. intros Hs Hd. induction Hs as [|c s Hc Hs IH]; cbn; [by rewrite Hd|by rewrite Hc, IH]. Qed.

Lemma split_whitespace_join parts :
  Forall simple_text parts -> split_whitespace (join (bstr " ") parts) = parts.
Proof.
  unfold split_whitespace. intros Hf. destruct parts as [|s parts]; [done|].
  assert (split_by is_whitespace (join (bstr " ") (s :: parts)) = s :: parts) as ->.
  { revert s Hf. induction parts as [|s' parts IH]; intros s Hf; apply Forall_cons in Hf as [Hs Hf].
    - cbn [join]. by apply split_by_solid, simple_solid.
    - change (join (bstr " ") (s :: s' :: parts)) with (s ++ 32 :: join (bstr " ") (s' :: parts)).
      rewrite split_by_app by (done || by apply simple_solid). f_equal. by apply IH. }
  induction Hf as [|part l [Hne _] Hl IH]; [done|]. by rewrite filter_cons_True, IH.
Qed.

Lemma tight_simple s : simple_text s -> tight s.
Proof. intros Hs. apply tight_solid; [apply Hs|by apply simple_solid]. Qed.

Lemma bar_not_in_simples parts : Forall simple_text parts -> 124 ∉ join (bstr " ") parts.
Proof.
  intros Hf. assert (Forall (fun c => c <> 124) (join (bstr " ") parts)) as Hj.
  { induction Hf as [|s parts (_ & Hs & _) Hf IH]; [constructor|].
    assert (Forall (fun c => c <> 124) s) by (by eapply Forall_impl; [exact Hs|intros c [_ ?]]).
    destruct parts as [|s' parts]; [done|].
    change (join (bstr " ") (s :: s' :: parts)) with (s ++ 32 :: join (bstr " ") (s' :: parts)).
    apply Forall_app. split; [done|]. by constructor. }
  intros Hin. rewrite Forall_forall in Hj. by apply (Hj 124).
Qed.

(** ** Parsing a printed range *)
Section parsing.
Context (overflow_checks : bool).

(** [parse_ranges] on alternatives that are not empty. *)
Fixpoint parse_each (alts : list str) : parsed (list (list VersionComparator)) :=
  match alts with
  | [] => mret []
  | a :: alts =>
      comparators ← parse_alternative overflow_checks a; rest ← parse_each alts;
      mret (comparators :: rest)
  end.

Lemma parse_ranges_spaced pre alts :
  Forall (fun c => is_whitespace c = true) pre -> alts <> [] -> Forall tight alts ->
  parse_ranges overflow_checks (spaced pre alts) = parse_each alts.
Proof.
  intros Hp Hne Hf. revert pre Hp. induction Hf as [|a alts Ha Hf IH]; intros pre Hp; [done|].
  assert (a <> []) as Hne' by (by destruct Ha as (? & ? & ? & _); destruct a).
  destruct alts as [|a' alts].
  - cbn [spaced parse_ranges parse_each].
    assert (trim (pre ++ a) = a) as ->.
    { rewrite <- (app_nil_r a) at 1. by apply trim_app. }
    by rewrite bool_decide_eq_false_2.
  - change (spaced pre (a :: a' :: alts)) with ((pre ++ a ++ [32]) :: spaced [32] (a' :: alts)).
    cbn [parse_ranges]. rewrite trim_app by (done || by repeat constructor).
    rewrite bool_decide_eq_false_2 by done. rewrite IH by (done || by repeat constructor). done.
Qed.

Lemma parse_alternatives_join alts :
  Forall (fun parts => parts <> [] /\ Forall simple_text parts) alts ->
  parse_alternatives overflow_checks (join (bstr " || ") (map (join (bstr " ")) alts))
  = parse_each (map (join (bstr " ")) alts).
Proof.
  intros Hf. destruct (decide (alts = [])) as [-> |Hne]; [done|].
  assert (Forall tight (map (join (bstr " ")) alts)) as Ht.
  { apply Forall_map. eapply Forall_impl; [exact Hf|]. cbn. intros parts [Hp Hs].
    apply tight_join; [done|]. eapply Forall_impl; [exact Hs|]. apply tight_simple. }
  unfold parse_alternatives. rewrite trim_tight by (apply tight_join; [by destruct alts|done]).
  unfold split_str. set (texts := map (join (bstr " ")) alts) in *.
  change (join (bstr " || ") texts) with ([] ++ join (bstr " || ") texts). rewrite split_bars.
  - apply parse_ranges_spaced; [constructor|by destruct alts|done].
  - apply not_elem_of_nil.
  - apply Forall_map. eapply Forall_impl; [exact Hf|]. cbn. intros parts [_ Hs].
    by apply bar_not_in_simples.
  - done.
Qed.

Lemma parse_alternative_simples parts :
  Forall simple_text parts ->
  parse_alternative overflow_checks (join (bstr " ") parts) = parse_simples overflow_checks parts.
Proof.
  intros Hf. unfold parse_alternative. rewrite parse_hyphen_range_simples by done.
  by rewrite split_whitespace_join.
Qed.

(** A comparator as it is printed, with any of the operators. *)
Lemma comparator_text_simple op v : operand_ok v -> simple_text (as_str op ++ version_to_string v).
Proof.
  intros Hv. pose proof (version_atoms v Hv) as [Hne Ha]%is_range_atom_spec.
  split; [by destruct op|]. split; [|by destruct op]. apply Forall_app. split.
  - destruct op; repeat constructor; done.
  - eapply Forall_impl; [exact Ha|]. cbn. intros c Hc. apply atom_char_range in Hc as [? ->].
    split; [done|lia].
Qed.

Lemma parse_range_printed op v :
  operand_ok v -> parse_range (as_str op ++ version_to_string v) = Some (Some op, version_to_string v).
Proof.
  intros Hv. pose proof (version_atoms v Hv) as Ha. pose proof Ha as Ha'.
  apply is_range_atom_spec in Ha' as [Hne Hf].
  assert (trim_start (version_to_string v) = version_to_string v) as Ht.
  { apply (trim_start_app []); [constructor|]. destruct (version_to_string v) as [|c s]; [done|].
    apply Forall_cons in Hf as [Hc _]. by apply atom_char_range. }
  assert (split_operator (as_str op ++ version_to_string v) = (Some op, version_to_string v)) as Hs.
  { destruct (version_to_string v) as [|c s]; [done|]. apply Forall_cons in Hf as [Hc _].
    unfold split_operator, strip_prefix, starts_with.
    destruct op; cbn; repeat (case_bool_decide as E;
      [simplify_eq; try done|try (exfalso; by apply E); clear E]); try done. }
  unfold parse_range. rewrite Hs, Ht, bool_decide_eq_false_2 by done. by rewrite Ha.
Qed.

(** What [parse_comparator] makes of an operator and a complete version. *)
Definition comparators_of (op : ComparatorOperator) (v : Version) : parsed (list VersionComparator) :=
  match op with
  | Tilde => second ← increment_minor overflow_checks v;
      mret [mkComparator GreaterThanEqual v; mkComparator LessThan second]
  | Caret =>
      second ← (if 0 <? major v then increment_major overflow_checks v
                else if 0 <? minor v then increment_minor overflow_checks v
                else increment_patch overflow_checks v);
      mret [mkComparator GreaterThanEqual v; mkComparator LessThan second]
  | _ => mret [mkComparator op v]
  end.

Lemma parse_comparator_printed op v :
  operand_ok v -> parse_comparator overflow_checks (Some op) (version_to_string v) = comparators_of op v.
Proof.
  intros Hv. pose proof Hv as ((H1 & H2 & H3) & _). unfold parse_comparator.
  rewrite parse_partial_printed by done. cbn.
  unfold tilde_comparators, caret_comparators, lower_comparators, upper_comparators, equal_comparators.
  cbn. rewrite !to_decimal_not_wildcard by lia. cbn. rewrite !orb_false_r. by destruct op.
Qed.

Lemma parse_printed_comparator op v :
  operand_ok v ->
  try_parse_version_range overflow_checks (as_str op ++ version_to_string v)
  = (comparators ← comparators_of op v; mret (mkRange [comparators])).
Proof.
  intros Hv. unfold try_parse_version_range. pose proof (comparator_text_simple op v Hv) as Hs.
  assert (Forall simple_text [as_str op ++ version_to_string v]) as Hf by by apply Forall_singleton.
  change (as_str op ++ version_to_string v)
    with (join (bstr " || ") (map (join (bstr " ")) [[as_str op ++ version_to_string v]])).
  rewrite parse_alternatives_join by by apply Forall_singleton. cbn [map parse_each].
  rewrite parse_alternative_simples by done. cbn [parse_simples].
  rewrite trim_tight by by apply tight_simple. rewrite parse_range_printed by done.
  cbn [or_not_ok mbind parsed_bind]. rewrite parse_comparator_printed by done.
  destruct (comparators_of op v); cbn; by rewrite ?app_nil_r.
Qed.

(** A simple range without an operator. *)
Lemma parse_bare_range s :
  is_range_atom s = true -> head s <> Some 45 ->
  try_parse_version_range overflow_checks s
  = (comparators ← parse_comparator overflow_checks None s; mret (mkRange [comparators])).
Proof.
  intros Ha Hh. apply is_range_atom_spec in Ha as Ha'. destruct Ha' as [Hne Hc].
  assert (simple_text s) as Hs.
  { split; [done|]. split; [|done]. eapply Forall_impl; [exact Hc|]. cbn. intros c [? ->]%atom_char_range.
    split; [done|lia]. }
  assert (Forall simple_text [s]) as Hf by by apply Forall_singleton.
  unfold try_parse_version_range.
  change s with (join (bstr " || ") (map (join (bstr " ")) [[s]])) at 1.
  rewrite parse_alternatives_join by by apply Forall_singleton. cbn [map parse_each].
  rewrite parse_alternative_simples by done. cbn [parse_simples].
  rewrite trim_tight by by apply tight_simple.
  assert (parse_range s = Some (None, s)) as ->.
  { assert (split_operator s = (None, s)) as Ho.
    { destruct s as [|c s]; [done|]. apply Forall_cons in Hc as [Hc _]. apply atom_char_range in Hc as Hr.
      unfold split_operator, strip_prefix, starts_with. cbn.
      repeat (case_bool_decide as E; [exfalso; injection E; intros; subst; done|clear E]). done. }
    unfold parse_range. rewrite Ho.
    assert (trim_start s = s) as ->.
    { apply (trim_start_app []); [constructor|]. destruct s as [|c s]; [done|].
      apply Forall_cons in Hc as [Hc _]. by apply atom_char_range. }
    rewrite bool_decide_eq_false_2 by done. by rewrite Ha. }
  cbn [or_not_ok mbind parsed_bind].
  destruct (parse_comparator overflow_checks None s); cbn; by rewrite ?app_nil_r.
Qed.

(** ** What the parser produces *)
Definition comparator_ok (c : VersionComparator) : Prop :=
  operator c <> Tilde /\ operator c <> Caret /\ operand_ok (operand c).

Lemma parse_digits_bound max v s n :
  0 <= v <= max -> parse_digits 10 max v s = Some n -> 0 <= n <= max.
Proof.
  revert v. induction s as [|c s IH]; intros v Hv; cbn [parse_digits]; [by intros [= <-]|].
  destruct (to_digit 10 c) as [d|] eqn:E; [|done]. cbn [mbind option_bind].
  apply to_digit_range in E. destruct (max <? _) eqn:Em; [done|]. bool_to_prop. apply IH. lia.
Qed.

Lemma get_uint_bound s n : get_uint_component s = Some n -> 0 <= n <= U32_MAX.
Proof.
  unfold get_uint_component, parse_u32.
  assert (forall t, from_str_radix 10 U32_MAX t = Some n -> 0 <= n <= U32_MAX) as Hf.
  { intros t. unfold from_str_radix. destruct t; [done|]. apply parse_digits_bound. unfold U32_MAX. lia. }
  repeat case_match; apply Hf.
Qed.

Lemma split_list_ok text :
  (forall s, text = Some s -> is_qualifier_part_list s = true) -> qualifier_parts (split_list text).
Proof. intros Hq. destruct text as [s|]; [right; eexists; by split; [apply Hq|]|by left]. Qed.

Lemma parse_partial_ok text r : parse_partial text = Some r -> operand_ok (version r).
Proof.
  unfold parse_partial. destruct (split_optional text 43) as [[vp bs]|] eqn:E1; [|done].
  cbn [mbind option_bind]. destruct (split_optional_first vp 45) as [[core ps]|] eqn:E2; [|done].
  cbn [mbind option_bind]. destruct (_ || _); [done|]. destruct (_ && _); [done|].
  destruct (partial_numbers _ _ _) as [[[M m] p]|] eqn:E3; [|done]. cbn [mbind option_bind].
  intros [= <-]. split; [|split; apply split_list_ok; cbn].
  - unfold numbers_ok. cbn. unfold partial_numbers in E3.
    assert (0 <= 0 <= U32_MAX) by (unfold U32_MAX; lia).
    repeat match type of E3 with
    | context [if ?b then _ else _] => destruct b
    | context [get_uint_component ?s] =>
        destruct (get_uint_component s) eqn:?; cbn [mbind option_bind] in E3; [|done]
    end; simplify_eq;
      repeat match goal with H : get_uint_component _ = Some _ |- _ => apply get_uint_bound in H end;
      split_and!; lia.
  - intros s ->. unfold split_optional_first in E2. destruct (split_once_char 45 vp) as [[a b]|]; [|done].
    destruct (_ || _) eqn:E; [done|]. injection E2 as <- <-. bool_to_prop. by destruct (is_qualifier_part_list b).
  - intros s ->. unfold split_optional in E1. destruct (split 43 text) as [|a [|b [|]]]; try done.
    case_bool_decide; [done|]. destruct (is_qualifier_part_list b) eqn:E; [|done]. by injection E1 as <- <-.
Qed.

Lemma add_one_ok x y : 0 <= x <= U32_MAX -> add_one overflow_checks x = Parsed y -> 0 <= y <= U32_MAX.
Proof.
  unfold add_one. intros Hx. destruct (_ && _); [done|]. intros [= <-]. unfold U32_MAX.
  pose proof (Z.mod_pos_bound (x + 1) (2 ^ 32) ltac:(lia)). lia.
Qed.

Lemma increment_ok v w :
  operand_ok v ->
  increment_major overflow_checks v = Parsed w \/ increment_minor overflow_checks v = Parsed w
    \/ increment_patch overflow_checks v = Parsed w ->
  operand_ok w.
Proof.
  intros ((H1 & H2 & H3) & _) Hw. unfold increment_major, increment_minor, increment_patch in Hw.
  assert (0 <= 0 <= U32_MAX) by (unfold U32_MAX; lia).
  destruct Hw as [Hw|[Hw|Hw]];
    match type of Hw with context [add_one _ ?x] =>
      destruct (add_one overflow_checks x) eqn:E; try done; apply add_one_ok in E; [|done] end;
    injection Hw as <-; (split; [split_and!; cbn; lia|split; by left]).
Qed.

Lemma prerelease_zero_ok v : operand_ok v -> operand_ok (with_prerelease_zero v).
Proof.
  intros (Hn & _ & Hb). split; [done|]. split; [right; by exists (bstr "0")|done].
Qed.

Create HintDb semver.
#[local] Hint Resolve prerelease_zero_ok increment_ok parse_partial_ok : semver.

(** Inversion of the computations of the parser. *)
Ltac parsed_inv :=
  repeat match goal with
  | H : (_ ≫= _) = Parsed _ |- _ => unfold mbind, parsed_bind in H
  | H : match ?x with Parsed _ => _ | NotOk => _ | Overflow => _ end = Parsed _ |- _ =>
      destruct x eqn:?; try discriminate H
  | H : (if ?b then _ else _) = Parsed _ |- _ => destruct b eqn:?
  | H : mret _ = Parsed _ |- _ => unfold mret, parsed_ret in H
  | H : Parsed _ = Parsed _ |- _ => injection H as H
  | H : or_not_ok ?o = Parsed _ |- _ => destruct o eqn:?; [|discriminate H]; cbn [or_not_ok] in H
  end.

Lemma parse_comparator_ok op text cs :
  parse_comparator overflow_checks op text = Parsed cs -> Forall comparator_ok cs.
Proof.
  unfold parse_comparator. destruct (parse_partial text) as [p|] eqn:Ep; [|done].
  cbn [or_not_ok mbind parsed_bind]. intros H. parsed_inv; subst; [| |constructor].
  - assert (operand_ok (version p)) as Hv by eauto with semver.
    assert (forall o v, o <> Tilde -> o <> Caret -> operand_ok v -> comparator_ok (mkComparator o v)) as Hc
      by (intros; by split).
    destruct (default Equal op); unfold tilde_comparators, caret_comparators, lower_comparators,
      upper_comparators, equal_comparators in *; parsed_inv; subst;
      repeat (apply Forall_cons; split); try exact (List.Forall_nil _); apply Hc;
      try done; try (case_decide; done); eauto 6 with semver.
    all: repeat case_match; eauto 6 with semver.
  - apply Forall_singleton. split; [done|]. split; [done|]. split; [|split; [right; by exists (bstr "0")|by left]].
    unfold numbers_ok, U32_MAX. cbn. lia.
Qed.

Lemma parse_hyphen_ok l r cs : parse_hyphen overflow_checks l r = Parsed cs -> Forall comparator_ok cs.
Proof.
  unfold parse_hyphen. destruct (parse_partial l) as [pl|] eqn:El; [|done].
  destruct (parse_partial r) as [pr|] eqn:Er; [|done]. cbn [or_not_ok mbind parsed_bind].
  assert (operand_ok (version pl)) as Hl by eauto with semver.
  assert (operand_ok (version pr)) as Hr by eauto with semver.
  assert (forall o v, o <> Tilde -> o <> Caret -> operand_ok v -> comparator_ok (mkComparator o v)) as Hc
    by (intros; by split).
  set (lower := if is_wildcard (major_str pl) then _ else _).
  assert (Forall comparator_ok lower) as Hlow.
  { subst lower. destruct (is_wildcard _); [constructor|]. constructor; [by apply Hc|constructor]. }
  clearbody lower. intros H. parsed_inv; subst; [done|..];
    (apply Forall_app; split; [done|]; apply Forall_singleton, Hc; [done|done|]); eauto 6 with semver.
Qed.

Lemma parse_simples_ok simples cs :
  parse_simples overflow_checks simples = Parsed cs -> Forall comparator_ok cs.
Proof.
  revert cs. induction simples as [|s simples IH]; intros cs; cbn [parse_simples].
  - intros [= <-]. constructor.
  - destruct (parse_range (trim s)) as [[op text]|]; [|done]. cbn [or_not_ok mbind parsed_bind].
    destruct (parse_comparator overflow_checks op text) as [c| |] eqn:E; try done.
    destruct (parse_simples overflow_checks simples) as [rest| |]; try done. intros [= <-].
    apply Forall_app. split; [by eapply parse_comparator_ok|by apply IH].
Qed.

Lemma parse_ranges_ok ranges alts :
  parse_ranges overflow_checks ranges = Parsed alts -> Forall (Forall comparator_ok) alts.
Proof.
  revert alts. induction ranges as [|r ranges IH]; intros alts; cbn [parse_ranges].
  - intros [= <-]. constructor.
  - case_bool_decide; [apply IH|]. cbn [mbind parsed_bind].
    destruct (parse_alternative overflow_checks (trim r)) as [c| |] eqn:E; try done.
    destruct (parse_ranges overflow_checks ranges) as [rest| |]; try done. intros [= <-].
    constructor; [|by apply IH]. unfold parse_alternative in E.
    destruct (parse_hyphen_range (trim r)) as [[a b]|]; [by eapply parse_hyphen_ok|by eapply parse_simples_ok].
Qed.

Lemma try_parse_version_range_ok text r :
  try_parse_version_range overflow_checks text = Parsed r -> Forall (Forall comparator_ok) (alternatives r).
Proof.
  unfold try_parse_version_range, parse_alternatives.
  destruct (parse_ranges overflow_checks _) as [alts| |] eqn:E; try done. intros [= <-].
  by eapply parse_ranges_ok.
Qed.

(** ** Testing parsed ranges *)

(** What a comparator asks of a version, in the precedence of the specification. A parsed range has neither [~] nor [^],
    which stand for two comparators. *)
Definition satisfies (v : Version) (c : VersionComparator) : Prop :=
  match operator c with
  | LessThan => precedence v (operand c) = Lt
  | LessThanEqual => precedence v (operand c) = Lt \/ precedence v (operand c) = Eq
  | Equal => precedence v (operand c) = Eq
  | GreaterThanEqual => precedence v (operand c) = Gt \/ precedence v (operand c) = Eq
  | GreaterThan => precedence v (operand c) = Gt
  | Tilde | Caret => False
  end.

Lemma test_comparator_satisfies v c : test_comparator c v = Some true <-> satisfies v c.
Proof.
  unfold satisfies, test_comparator. destruct (operator c); try done; rewrite compare_precedence;
    destruct (precedence v (operand c)); cbn; split; try done; try (by left); try (by right); naive_solver.
Qed.

Lemma test_alternative_spec alt v :
  Forall comparator_ok alt ->
  exists b, test_alternative alt v = Some b /\ (b = true <-> Forall (satisfies v) alt).
Proof.
  induction 1 as [|c alt (H1 & H2 & _) Hf IH]; [by exists true|]. cbn [test_alternative].
  destruct IH as (b & -> & Hb).
  assert (exists b', test_comparator c v = Some b') as [b' Hb'].
  { unfold test_comparator. destruct (operator c); first [done|by eexists]. }
  rewrite Hb'. cbn [mbind option_bind]. destruct b'.
  - exists b. split; [done|]. rewrite Hb, Forall_cons, <- (test_comparator_satisfies v c), Hb'. naive_solver.
  - exists false. split; [done|]. rewrite Forall_cons, <- (test_comparator_satisfies v c), Hb'. naive_solver.
Qed.

Lemma test_alternatives_spec alts v :
  Forall (Forall comparator_ok) alts ->
  exists b, test_alternatives alts v = Some b /\ (b = true <-> Exists (Forall (satisfies v)) alts).
Proof.
  induction 1 as [|alt alts Ha Hf IH]; cbn [test_alternatives].
  { exists false. split; [done|]. by rewrite Exists_nil. }
  destruct (test_alternative_spec alt v Ha) as (b & -> & Hb), IH as (b' & -> & Hb').
  cbn [mbind option_bind]. destruct b; eexists; (split; [done|]); rewrite Exists_cons, <- Hb, <- Hb'; naive_solver.
Qed.

(** C26. Testing a parsed range never panics: whatever text a range was parsed from, the test of every
    version returns; it is true exactly when the range is empty or the version is before, at or after the operands of all
    comparators of some alternative as their operators say, in the precedence of the specification. *)
Theorem parsed_range_test (text : str) (r : VersionRange) (v : Version) :
  try_parse_version_range overflow_checks text = Parsed r ->
  exists b, test r v = Some b
    /\ (b = true <-> alternatives r = [] \/ Exists (Forall (satisfies v)) (alternatives r)).
Proof.
  intros Hf%try_parse_version_range_ok. unfold test, test_disjunction.
  destruct (alternatives r) as [|alt alts] eqn:E; [exists true; naive_solver|].
  destruct (test_alternatives_spec (alt :: alts) v Hf) as (b & -> & Hb). exists b. split; [done|].
  rewrite Hb. naive_solver.
Qed.

(** ** Printing and parsing ranges *)
Lemma parse_simples_printed cs :
  Forall comparator_ok cs ->
  parse_simples overflow_checks (map format_comparator cs) = Parsed cs.
Proof.
  induction 1 as [|[op v] cs (H1 & H2 & Hv) Hf IH]; [done|]. cbn [map parse_simples].
  cbn [operator operand] in *.
  change (format_comparator (mkComparator op v)) with (as_str op ++ version_to_string v).
  rewrite trim_tight by by apply tight_simple, comparator_text_simple.
  rewrite parse_range_printed by done. cbn [or_not_ok mbind parsed_bind].
  rewrite parse_comparator_printed, IH by done. by destruct op.
Qed.

Lemma format_comparators_simple cs :
  Forall comparator_ok cs -> Forall simple_text (map format_comparator cs).
Proof.
  intros Hf. apply Forall_map. eapply Forall_impl; [exact Hf|]. cbn. intros c (_ & _ & Hv).
  by apply comparator_text_simple.
Qed.

Lemma parse_each_printed alts :
  Forall (Forall comparator_ok) alts ->
  parse_each (map format_alternative alts) = Parsed alts.
Proof.
  induction 1 as [|cs alts Hc Hf IH]; [done|]. cbn [map parse_each].
  change (format_alternative cs) with (join (bstr " ") (map format_comparator cs)).
  rewrite parse_alternative_simples by by apply format_comparators_simple.
  rewrite parse_simples_printed, IH by done. done.
Qed.

Lemma parse_alternatives_printed alts :
  Forall (fun cs => cs <> [] /\ Forall comparator_ok cs) alts ->
  parse_alternatives overflow_checks (join (bstr " || ") (map format_alternative alts)) = Parsed alts.
Proof.
  intros Hf. assert (map format_alternative alts = map (join (bstr " ")) (map (map format_comparator) alts)) as E.
  { by rewrite map_map. }
  rewrite E, parse_alternatives_join, <- E.
  - apply parse_each_printed. eapply Forall_impl; [exact Hf|]. by intros cs [_ ?].
  - apply Forall_map. eapply Forall_impl; [exact Hf|]. cbn. intros cs [Hne Hc].
    split; [by destruct cs|by apply format_comparators_simple].
Qed.

Lemma format_alternatives_nonempty alts :
  alts <> [] -> Forall (fun cs => cs <> []) alts -> join (bstr " || ") (map format_alternative alts) <> [].
Proof.
  intros Hne Hf. destruct alts as [|cs alts]; [done|]. apply Forall_cons in Hf as [Hcs _].
  assert (format_alternative cs <> []) as Ha.
  { destruct cs as [|[op v] cs]; [done|]. unfold format_alternative. cbn [map].
    destruct (map format_comparator cs); cbn [join]; unfold format_comparator; by destruct op. }
  cbn [map join]. destruct (map format_alternative alts); [done|]. by destruct (format_alternative cs).
Qed.

(** C27. Ranges round-trip through text: a parsed range all of whose alternatives have a comparator is
    read back from its printed form, with the same alternatives when it has any, and accepts the same
    versions. *)
Theorem range_roundtrip (text : str) (r : VersionRange) :
  try_parse_version_range overflow_checks text = Parsed r ->
  Forall (fun cs => cs <> []) (alternatives r) ->
  exists r', try_parse_version_range overflow_checks (range_to_string r) = Parsed r'
    /\ (alternatives r <> [] -> r' = r)
    /\ forall v, test r' v = test r v.
Proof.
  intros Hok%try_parse_version_range_ok Hne. destruct r as [alts]. cbn in *.
  destruct (decide (alts = [])) as [-> |Hnil]; [by exists (mkRange [[]])|].
  exists (mkRange alts). split; [|done]. unfold try_parse_version_range, range_to_string, format_disjunction.
  cbn. rewrite bool_decide_eq_false_2 by by apply format_alternatives_nonempty.
  rewrite parse_alternatives_printed; [done|]. apply Forall_and. by split.
Qed.
End parsing.

Lemma parsed_range_test_witness :
  exists r, try_parse_version_range true (bstr "^1.2.3 || 3.x - 4.1") = Parsed r
    /\ (exists b, test r (mkVersion 4 1 9 [] []) = Some b
        /\ (b = true <-> alternatives r = [] \/ Exists (Forall (satisfies (mkVersion 4 1 9 [] []))) (alternatives r)))
    /\ test r (mkVersion 4 1 9 [] []) = Some true /\ test r (mkVersion 1 2 2 [] []) = Some false.
Proof.
  destruct (try_parse_version_range true (bstr "^1.2.3 || 3.x - 4.1")) as [r| |] eqn:E;
    [|vm_compute in E; discriminate..].
  exists r. split; [reflexivity|]. split; [exact (parsed_range_test true _ r (mkVersion 4 1 9 [] []) E)|].
  vm_compute in E. injection E as <-. split; vm_compute; reflexivity.
Defined.

Lemma range_roundtrip_witness :
  exists r r', try_parse_version_range true (bstr ">=1.2.3-beta.1+x <2 || 3.*") = Parsed r
    /\ try_parse_version_range true (range_to_string r) = Parsed r'.
Proof.
  destruct (try_parse_version_range true (bstr ">=1.2.3-beta.1+x <2 || 3.*")) as [r| |] eqn:E;
    [|vm_compute in E; discriminate..].
  destruct (range_roundtrip true _ r E) as (r' & Hr & _).
  - vm_compute in E. injection E as <-. by repeat constructor.
  - by exists r, r'.
Defined.
