(* ===== verification/SemverThm.v ===== *)
(** * SemverThm: what ranges accept

    Caret, tilde and wildcard ranges, the alternative that is lost in printing, and the overflow of an
    upper bound. *)
From S2P Require Import Prelude Text Chars Numerals JsNum Strs Semver SemverOrder SemverParse SemverRange.

#[local] Arguments to_decimal : simpl never.
#[local] Arguments is_wildcard : simpl never.
#[local] Arguments split : simpl never.
#[local] Arguments version_to_string : simpl never.

(** ** Comparisons as propositions *)

(** The order of the numbers of two versions. *)
Definition numbers_lt (a b : Version) : Prop :=
  major a < major b \/ major a = major b /\ (minor a < minor b \/ minor a = minor b /\ patch a < patch b).
Definition numbers_eq (a b : Version) : Prop :=
  major a = major b /\ minor a = minor b /\ patch a = patch b.

Lemma precedence_cases v w :
  precedence v w = (if decide (numbers_lt v w) then Lt
                    else if decide (numbers_eq v w) then prerelease_order (prerelease v) (prerelease w)
                    else Gt).
Proof.
  unfold precedence, lex, numbers_lt, numbers_eq.
  destruct (Z.compare_spec (major v) (major w)), (Z.compare_spec (minor v) (minor w)),
    (Z.compare_spec (patch v) (patch w)); repeat case_decide; try done; lia.
Qed.

Lemma satisfies_spec v op w :
  satisfies v (mkComparator op w) <->
  match op with
  | LessThan => precedence v w = Lt
  | LessThanEqual => precedence v w <> Gt
  | Equal => precedence v w = Eq
  | GreaterThanEqual => precedence v w <> Lt
  | GreaterThan => precedence v w = Gt
  | Tilde | Caret => False
  end.
Proof.
  unfold satisfies. cbn [operator operand]. destruct op; try done; destruct (precedence v w); naive_solver.
Qed.

(** Testing a range with one alternative of two comparators. *)
Lemma test_two c1 c2 v :
  comparator_ok c1 -> comparator_ok c2 ->
  test (mkRange [[c1; c2]]) v = Some true <-> satisfies v c1 /\ satisfies v c2.
Proof.
  intros H1 H2. destruct (test_alternative_spec [c1; c2] v) as (b & Hb & Hs).
  { constructor; [done|]. by apply Forall_singleton. }
  unfold test, test_disjunction. cbn [alternatives test_alternatives]. rewrite Hb. cbn [mbind option_bind].
  rewrite !Forall_cons, Forall_nil in Hs. destruct b; naive_solver.
Qed.

Lemma release_ok M m p :
  0 <= M <= U32_MAX -> 0 <= m <= U32_MAX -> 0 <= p <= U32_MAX -> operand_ok (mkVersion M m p [] []).
Proof. intros. split; [unfold numbers_ok; cbn; lia|]. split; by left. Qed.

Lemma comparison_ok op w : op <> Tilde -> op <> Caret -> operand_ok w -> comparator_ok (mkComparator op w).
Proof. by split. Qed.

Lemma add_one_small oc x : 0 <= x < U32_MAX -> add_one oc x = Parsed (x + 1).
Proof.
  intros Hx. unfold add_one. rewrite (proj2 (Z.eqb_neq _ _)) by lia. rewrite andb_false_r.
  f_equal. apply Z.mod_small. unfold U32_MAX in Hx. lia.
Qed.

(** ** Caret and tilde *)

(** The versions a caret range is for: no change of the first number that is not zero. *)
Definition caret_accepts (M m p : Z) (v : Version) : Prop :=
  if 0 <? M then major v = M /\ (m < minor v \/ minor v = m /\ p <= patch v)
  else if 0 <? m then major v = 0 /\ minor v = m /\ p <= patch v
  else major v = 0 /\ minor v = 0 /\ patch v = p.

(** Caret and tilde ranges accept the versions they are documented for: of the versions without
    pre-release identifiers, [^M.m.p] accepts exactly those from M.m.p on that do not change the
    first number that is not zero, and [~M.m.p] those with the same major and minor numbers and at
    least the patch number. *)
Theorem caret_tilde_ranges (overflow_checks : bool) (M m p : Z) :
  0 <= M < U32_MAX -> 0 <= m < U32_MAX -> 0 <= p < U32_MAX ->
  exists caret tilde,
    try_parse_version_range overflow_checks (bstr "^" ++ version_to_string (mkVersion M m p [] []))
      = Parsed caret
    /\ try_parse_version_range overflow_checks (bstr "~" ++ version_to_string (mkVersion M m p [] []))
      = Parsed tilde
    /\ forall v, numbers_ok v -> prerelease v = [] ->
         (test caret v = Some true <-> caret_accepts M m p v)
         /\ (test tilde v = Some true <-> major v = M /\ minor v = m /\ p <= patch v).
Proof.
  intros HM Hm Hp. set (w := mkVersion M m p [] []).
  assert (0 <= 0 <= U32_MAX) as H0 by (unfold U32_MAX; lia).
  assert (operand_ok w) as Hw by (apply release_ok; lia).
  set (u1 := if 0 <? M then mkVersion (M + 1) 0 0 [] [] else if 0 <? m then mkVersion M (m + 1) 0 [] []
             else mkVersion M m (p + 1) [] []).
  set (u2 := mkVersion M (m + 1) 0 [] []).
  set (between := fun u => mkRange [[mkComparator GreaterThanEqual w; mkComparator LessThan u]]).
  assert (try_parse_version_range overflow_checks (bstr "^" ++ version_to_string w) = Parsed (between u1)) as Hc.
  { etransitivity; [exact (parse_printed_comparator overflow_checks Caret w Hw)|]. cbn [comparators_of].
    unfold increment_major, increment_minor, increment_patch. cbn [major minor patch w].
    subst u1. destruct (0 <? M); [|destruct (0 <? m)]; by rewrite add_one_small. }
  assert (try_parse_version_range overflow_checks (bstr "~" ++ version_to_string w) = Parsed (between u2)) as Ht.
  { etransitivity; [exact (parse_printed_comparator overflow_checks Tilde w Hw)|]. cbn [comparators_of].
    unfold increment_minor. cbn [major minor w]. by rewrite add_one_small. }
  exists (between u1), (between u2). split; [exact Hc|]. split; [exact Ht|]. clear Hc Ht.
  assert (forall u v, operand_ok u -> prerelease u = [] -> prerelease v = [] ->
    test (between u) v = Some true <-> ~ numbers_lt v w /\ numbers_lt v u) as Htest.
  { intros u v Hu Pu Pv. unfold between. rewrite test_two by by apply comparison_ok.
    rewrite !satisfies_spec, !precedence_cases, Pu, Pv.
    cbn [prerelease w prerelease_order]. repeat case_decide; naive_solver. }
  intros v (B1 & B2 & B3) Pv. unfold caret_accepts. split.
  - subst u1. destruct (0 <? M) eqn:EM; [|destruct (0 <? m) eqn:Em]; bool_to_prop;
      (rewrite Htest; [|apply release_ok; lia|done|done]); unfold numbers_lt; cbn; lia.
  - rewrite Htest; [|apply release_ok; lia|done|done]. unfold numbers_lt. cbn. lia.
Qed.

Lemma caret_tilde_ranges_witness :
  exists caret, try_parse_version_range true (bstr "^" ++ version_to_string (mkVersion 0 2 3 [] []))
      = Parsed caret
    /\ (test caret (mkVersion 0 2 9 [] []) = Some true <-> 0 = 0 /\ 2 = 2 /\ 3 <= 9).
Proof.
  destruct (caret_tilde_ranges true 0 2 3) as (caret & tilde & Hc & _ & Hv); try (unfold U32_MAX; lia).
  exists caret. split; [exact Hc|]. apply (Hv (mkVersion 0 2 9 [] [])); [|reflexivity].
  unfold numbers_ok, U32_MAX. cbn. lia.
Defined.

(** ** Overflow of an upper bound *)

(** The upper bound of a caret range overflows: for the largest 32-bit major number, parsing the
    range panics in a build with overflow checks; in one without, the bound wraps to zero and the
    range accepts no version, not even the one it names. *)
Theorem caret_overflow (v : Version) :
  operand_ok v -> major v = U32_MAX ->
  try_parse_version_range true (bstr "^" ++ version_to_string v) = Overflow
  /\ exists r, try_parse_version_range false (bstr "^" ++ version_to_string v) = Parsed r
      /\ forall w, test r w <> Some true.
Proof.
  intros Hv HM. pose proof (fun oc => parse_printed_comparator oc Caret v Hv) as Hc.
  cbn [comparators_of as_str] in Hc. rewrite HM in Hc. cbn [Z.ltb Z.compare U32_MAX] in Hc.
  unfold increment_major in Hc. rewrite HM in Hc.
  change (0 <? U32_MAX) with true in Hc. cbn iota in Hc.
  split; [rewrite (Hc true); done|].
  exists (mkRange [[mkComparator GreaterThanEqual v; mkComparator LessThan default_version]]).
  split; [rewrite (Hc false); done|]. intros w Ht.
  apply test_two in Ht as [Hge Hlt]; [|by apply comparison_ok|apply comparison_ok; [done|done|]; apply release_ok; unfold U32_MAX; lia].
  apply satisfies_spec in Hge, Hlt. rewrite precedence_cases in Hge, Hlt.
  unfold numbers_lt, numbers_eq in *. cbn in *. rewrite HM in Hge. unfold U32_MAX in Hge.
  repeat case_decide; try done; try lia.
Qed.

Lemma caret_overflow_witness :
  try_parse_version_range true (bstr "^" ++ version_to_string (mkVersion U32_MAX 0 0 [] [])) = Overflow.
Proof.
  apply (caret_overflow (mkVersion U32_MAX 0 0 [] [])); [|reflexivity].
  split; [|split; by left]. unfold numbers_ok, U32_MAX. cbn. lia.
Defined.

(** ** Wildcards *)

(** No version comes before the one with the pre-release identifier 0. *)
Lemma prerelease_zero_least l : prerelease_order l [bstr "0"] <> Lt.
Proof.
  destruct l as [|x l]; [done|]. cbn. unfold lex.
  assert (identifier_order x (bstr "0") <> Lt) as Hx.
  { rewrite identifier_order_classes. change (is_numeric_identifier (bstr "0")) with true.
    destruct (is_numeric_identifier x) eqn:E; [|done].
    apply is_numeric_identifier_spec in E as (Hd & _). pose proof (dec_value_bounds x Hd).
    change (dec_value (bstr "0")) with 0. rewrite Z.compare_lt_iff. lia. }
  destruct (identifier_order x _); [by destruct l|done|done].
Qed.

Lemma between_zeros u w v :
  operand_ok u -> operand_ok w ->
  test (mkRange [[mkComparator GreaterThanEqual (with_prerelease_zero u);
                  mkComparator LessThan (with_prerelease_zero w)]]) v = Some true
  <-> ~ numbers_lt v u /\ numbers_lt v w.
Proof.
  intros Hu Hw. rewrite test_two by by apply comparison_ok; [..|apply prerelease_zero_ok].
  rewrite !satisfies_spec, !precedence_cases.
  pose proof (prerelease_zero_least (prerelease v)) as Hz.
  assert (forall x, numbers_lt v (with_prerelease_zero x) <-> numbers_lt v x) as Hlt by done.
  cbn [prerelease with_prerelease_zero].
  repeat case_decide; rewrite ?Hlt in *; naive_solver.
Qed.

Definition wildcard (w : str) : Prop := w = bstr "*" \/ w = bstr "x" \/ w = bstr "X".

Lemma wildcard_facts w :
  wildcard w -> is_wildcard w = true /\ Forall (fun c => atom_char c = true) w /\ 43 ∉ w /\ 45 ∉ w /\ 46 ∉ w.
Proof.
  intros [-> |[-> | ->]]; (split; [reflexivity|]); (split; [by apply Forall_singleton|]);
    split_and!; by intros ?%list_elem_of_singleton.
Qed.

(** A partial version: numbers, then a wildcard. *)
Lemma parse_partial_wildcard (ns : list Z) w :
  Forall (fun n => 0 <= n <= U32_MAX) ns -> (1 <= length ns <= 2)%nat -> wildcard w ->
  let s := join (bstr ".") (map to_decimal ns ++ [w]) in
  is_range_atom s = true /\ head s <> Some 45
  /\ parse_partial s
     = Some (mkPartial (mkVersion (nth 0 ns 0) (nth 1 ns 0) 0 [] []) (to_decimal (nth 0 ns 0))
               (nth 1 (map to_decimal ns ++ [w]) []) (nth 2 (map to_decimal ns ++ [w]) (bstr "*"))).
Proof.
  intros Hns Hl Hw. pose proof (wildcard_facts w Hw) as (W1 & W2 & W3 & W4 & W5).
  set (parts := map to_decimal ns ++ [w]). intros s.
  assert (forall n, n ∈ ns -> is_uint_component (to_decimal n) = true /\ dec_digits (to_decimal n)
    /\ to_decimal n <> []) as Hn.
  { intros n Hin. rewrite Forall_forall in Hns. apply to_decimal_numeric. by apply Hns. }
  assert (Forall (Forall (fun c => c <> 43 /\ c <> 45 /\ atom_char c = true)) parts) as Hp.
  { apply Forall_app. split.
    - apply Forall_map, Forall_forall. intros n Hin. destruct (Hn n Hin) as (_ & Hd & _).
      eapply Forall_impl; [exact Hd|]. cbn. intros c Hc. split; [lia|]. split; [lia|].
      apply identifier_atom. left. apply digit_identifier_char. unfold is_ascii_digit.
      apply andb_true_iff. by rewrite !Z.leb_le.
    - apply Forall_singleton, Forall_forall. intros c Hc. rewrite Forall_forall in W2.
      split_and!; [by intros ->|by intros ->|by apply W2]. }
  assert (Forall (fun c => c <> 43 /\ c <> 45 /\ atom_char c = true) s) as Hs by by apply join_chars.
  assert (split (chr ".") s = parts) as Hsplit.
  { apply split_join; [by destruct ns|]. apply Forall_app. split; [|by apply Forall_singleton].
    apply Forall_map, Forall_forall. intros n Hin. destruct (Hn n Hin) as (_ & Hd & _).
    eapply digits_not_in; [done|lia]. }
  assert (forall c, c = 43 \/ c = 45 -> c ∉ s) as Hc.
  { intros c Hc Hin. rewrite Forall_forall in Hs. specialize (Hs c Hin). lia. }
  destruct ns as [|M ns]; [cbn in Hl; lia|].
  pose proof (Hn M ltac:(by left)) as (N1 & D1 & E1).
  split; [|split].
  - apply is_range_atom_spec. split; [|eapply Forall_impl; [exact Hs|]; by intros c (_ & _ & ?)].
    subst s parts. destruct ns; cbn; by destruct (to_decimal M).
  - intros Hh. apply (Hc 45); [by right|]. destruct s as [|c s']; [done|]. injection Hh as ->. by left.
  - unfold parse_partial, split_optional. rewrite split_none by (apply Hc; by left). cbn [mbind option_bind].
    unfold split_optional_first. rewrite split_once_none by (apply Hc; by right). cbn [mbind option_bind].
    rewrite Hsplit. rewrite Forall_forall in Hns. pose proof (Hns M ltac:(by left)) as BM.
    destruct ns as [|m [|]]; [| |cbn in Hl; lia]; subst parts; cbn [map app nth length existsb]; unfold is_xr;
      rewrite N1, W1, !orb_true_r; cbn [negb orb andb Nat.ltb Nat.leb Nat.eqb].
    + unfold partial_numbers. rewrite to_decimal_not_wildcard by lia. rewrite get_uint_to_decimal by done.
      cbn [mbind option_bind]. by rewrite W1.
    + pose proof (Hns m ltac:(right; by left)) as Bm.
      destruct (Hn m ltac:(right; by left)) as (N2 & _). rewrite N2, !orb_true_r. cbn [negb orb].
      unfold partial_numbers. rewrite !to_decimal_not_wildcard by lia. rewrite !get_uint_to_decimal by done.
      cbn [mbind option_bind]. by rewrite W1.
Qed.

(** Wildcard ranges accept every version of their numbers, pre-releases included: [M.*] (or [x], or
    [X]) exactly the versions with major number M, [M.m.*] exactly those with major number M and
    minor number m. *)
Theorem wildcard_ranges (overflow_checks : bool) (M m : Z) (w : str) :
  0 <= M < U32_MAX -> 0 <= m < U32_MAX -> wildcard w ->
  exists any_minor any_patch,
    try_parse_version_range overflow_checks (join (bstr ".") [to_decimal M; w]) = Parsed any_minor
    /\ try_parse_version_range overflow_checks (join (bstr ".") [to_decimal M; to_decimal m; w])
       = Parsed any_patch
    /\ forall v, numbers_ok v ->
         (test any_minor v = Some true <-> major v = M)
         /\ (test any_patch v = Some true <-> major v = M /\ minor v = m).
Proof.
  intros HM Hm Hw. pose proof (wildcard_facts w Hw) as (W & _).
  assert (0 <= 0 <= U32_MAX) as H0 by (unfold U32_MAX; lia).
  destruct (parse_partial_wildcard [M] w) as (A1 & B1 & C1);
    [apply Forall_singleton; lia|cbn; lia|done|].
  destruct (parse_partial_wildcard [M; m] w) as (A2 & B2 & C2);
    [constructor; [lia|apply Forall_singleton; lia]|cbn; lia|done|].
  cbn [map app nth] in *.
  set (between := fun u w => mkRange [[mkComparator GreaterThanEqual (with_prerelease_zero u);
    mkComparator LessThan (with_prerelease_zero w)]]).
  exists (between (mkVersion M 0 0 [] []) (mkVersion (M + 1) 0 0 [] [])),
    (between (mkVersion M m 0 [] []) (mkVersion M (m + 1) 0 [] [])).
  split; [|split].
  - rewrite parse_bare_range by done. unfold parse_comparator. rewrite C1. cbn.
    rewrite to_decimal_not_wildcard by lia. unfold equal_comparators, increment_major. cbn. rewrite W. cbn.
    by rewrite add_one_small.
  - rewrite parse_bare_range by done. unfold parse_comparator. rewrite C2. cbn.
    rewrite to_decimal_not_wildcard by lia. unfold equal_comparators, increment_minor. cbn.
    rewrite to_decimal_not_wildcard, W by lia. cbn. by rewrite add_one_small.
  - intros v (V1 & V2 & V3). unfold between. split;
      (rewrite between_zeros; [|apply release_ok; lia..]); unfold numbers_lt; cbn; lia.
Qed.

Lemma wildcard_ranges_witness :
  exists any_minor any_patch,
    try_parse_version_range true (join (bstr ".") [to_decimal 5; bstr "x"]) = Parsed any_minor
    /\ try_parse_version_range true (join (bstr ".") [to_decimal 5; to_decimal 1; bstr "x"]) = Parsed any_patch.
Proof.
  destruct (wildcard_ranges true 5 1 (bstr "x")) as (a & b & H1 & H2 & _);
    [unfold U32_MAX; lia|unfold U32_MAX; lia|right; by left|].
  exists a, b. split; [exact H1|exact H2].
Defined.

(** ** The alternative that printing loses *)

Lemma split_bars_first fuel s :
  split_str_fuel (S fuel) (bstr "||") (124 :: 124 :: s) = [] :: split_str_fuel fuel (bstr "||") s.
Proof.
  cbn [split_str_fuel]. change (124 :: 124 :: s) with ([] ++ 124 :: 124 :: s).
  by rewrite find_bars_app by apply not_elem_of_nil.
Qed.

(** Printing a range loses an alternative that accepts everything: the range of [* || =v] accepts
    every version, but its printed form is read as a range that accepts only the versions that
    compare equal to [v]. *)
Theorem printing_loses_wildcard (overflow_checks : bool) (v : Version) :
  operand_ok v ->
  exists r r',
    try_parse_version_range overflow_checks (bstr "* || =" ++ version_to_string v) = Parsed r
    /\ try_parse_version_range overflow_checks (range_to_string r) = Parsed r'
    /\ forall w, test r w = Some true /\ (test r' w = Some true <-> compare w (Some v) = 0).
Proof.
  intros Hv. set (s := bstr "=" ++ version_to_string v).
  assert (simple_text s) as Hs by by apply (comparator_text_simple Equal).
  assert (Forall simple_text [s]) as Hf by by apply Forall_singleton.
  assert (parse_alternative overflow_checks s = Parsed [mkComparator Equal v]) as Hp.
  { rewrite <- (parse_simples_printed overflow_checks [mkComparator Equal v])
      by by apply Forall_singleton, comparison_ok.
    by apply (parse_alternative_simples overflow_checks [s]). }
  exists (mkRange [[]; [mkComparator Equal v]]), (mkRange [[mkComparator Equal v]]).
  split; [|split].
  - change (bstr "* || =" ++ version_to_string v)
      with (join (bstr " || ") (map (join (bstr " ")) [[bstr "*"]; [s]])).
    unfold try_parse_version_range. rewrite parse_alternatives_join.
    + cbn [map parse_each join]. rewrite Hp. by destruct overflow_checks.
    + constructor; [|by apply Forall_singleton]. split; [done|]. apply Forall_singleton.
      split; [done|]. split; [by apply Forall_singleton|done].
  - unfold try_parse_version_range, range_to_string, format_disjunction. cbn [alternatives map].
    change (format_alternative []) with ([] : str).
    change (format_alternative [mkComparator Equal v]) with s.
    change (join (bstr " || ") [[]; s]) with (bstr " " ++ (bstr "|| " ++ s)).
    rewrite bool_decide_eq_false_2 by done. unfold parse_alternatives.
    assert (tight (bstr "|| " ++ s)) as Ht.
    { destruct (tight_simple s Hs) as (a & b & _ & Hb & _ & Wb). exists 124, b. split_and!; try done. }
    assert (trim (bstr " " ++ (bstr "|| " ++ s)) = bstr "|| " ++ s) as ->.
    { rewrite <- (app_nil_r (bstr "|| " ++ s)) at 1. apply trim_app; [by apply Forall_singleton|constructor|done]. }
    unfold split_str. change (bstr "|| " ++ s) with (124 :: 124 :: 32 :: s). cbn [length].
    rewrite split_bars_first. change (32 :: s) with (bstr " " ++ join (bstr " || ") [s]).
    rewrite split_bars; [| |apply Forall_singleton; by apply (bar_not_in_simples [s])|cbn; lia].
    2: by intros ?%list_elem_of_singleton.
    cbn [parse_ranges].
    change (bool_decide (trim [] = [])) with true. cbn iota.
    rewrite parse_ranges_spaced; [|by apply Forall_singleton|done|by apply Forall_singleton, tight_simple].
    cbn [parse_each]. by rewrite Hp.
  - intros w. split; [done|]. pose proof (satisfies_spec w Equal v) as Hsat. rewrite <- test_comparator_satisfies in Hsat.
    unfold test, test_disjunction. cbn [alternatives test_alternatives test_alternative].
    rewrite compare_precedence. unfold test_comparator in *. cbn [operator operand] in *.
    rewrite compare_precedence in *. by destruct (precedence w v).
Qed.

Lemma printing_loses_wildcard_witness :
  exists r r',
    try_parse_version_range true (bstr "* || =" ++ version_to_string (mkVersion 2 0 0 [] [])) = Parsed r
    /\ try_parse_version_range true (range_to_string r) = Parsed r'.
Proof.
  destruct (printing_loses_wildcard true (mkVersion 2 0 0 [] [])) as (r & r' & H1 & H2 & _).
  - split; [|split; by left]. unfold numbers_ok, U32_MAX. cbn. lia.
  - exists r, r'. split; [exact H1|exact H2].
Defined.
