(* ===== verification/Path.v ===== *)
(** * Path: file paths (ts-tspath/src/path.rs)

    Paths are UTF-8 strings, as lists of bytes; all delimiters are ASCII, so that every slice taken at
    one is at a character boundary. The lower case of a non-ASCII character, which the standard
    library takes from the Unicode tables, is the parameter [CaseMapping]. *)
From S2P Require Import Prelude Text Chars Numerals Strs.

(** [char::to_lowercase] *)
Class CaseMapping := {
  to_lowercase : char -> list char;
}.

Definition DIRECTORY_SEPARATOR : byte := chr "/".
Definition URL_SCHEME_SEPARATOR : bytes := bstr "://".

Definition is_any_directory_separator (ch : byte) : bool := (ch =? chr "/") || (ch =? 92).
Definition is_volume_character (ch : byte) : bool := is_ascii_alphabetic ch.

(** [bytes[i]]; the callers test the length first. *)
Definition byte_at (s : bytes) (i : nat) : byte := nth i s 0.

(** [s.rfind(ch)] *)
Fixpoint rfind (ch : byte) (s : bytes) : option nat :=
  match s with
  | [] => None
  | c :: r => match rfind ch r with
              | Some i => Some (S i)
              | None => if c =? ch then Some 0%nat else None
              end
  end.

(** ** Roots *)
Definition get_file_url_volume_separator_end (url : bytes) (start : nat) : option nat :=
  if (length url <=? start)%nat then None
  else if byte_at url start =? chr ":" then Some (start + 1)%nat
  else if (byte_at url start =? chr "%") && (start + 2 <? length url)%nat
          && (byte_at url (start + 1) =? chr "3") then
    let ch2 := byte_at url (start + 2) in
    if (ch2 =? chr "a") || (ch2 =? chr "A") then Some (start + 3)%nat else None
  else None.

(** [!n] on [isize] *)
Definition complement (n : nat) : Z := - Z.of_nat n - 1.

(** The root of a URL: scheme and authority, and the volume of a file URL. *)
Definition encoded_url_root (path : bytes) (scheme_end : nat) : Z :=
  let len := length path in
  let authority_start := (scheme_end + length URL_SCHEME_SEPARATOR)%nat in
  match find_sub (bstr "/") (drop authority_start path) with
  | None => complement len
  | Some authority_length =>
      let authority_end := (authority_start + authority_length)%nat in
      let scheme := take scheme_end path in
      let authority := take authority_length (drop authority_start path) in
      let volume_separator_end :=
        if bool_decide (scheme = bstr "file")
           && (bool_decide (authority = []) || bool_decide (authority = bstr "localhost"))
           && (authority_end + 2 <? len)%nat
           && is_volume_character (byte_at path (authority_end + 1))
        then get_file_url_volume_separator_end path (authority_end + 2) else None in
      match volume_separator_end with
      | Some e =>
          if (e =? len)%nat then complement e
          else if byte_at path e =? chr "/" then complement (e + 1)
          else complement (authority_end + 1)
      | None => complement (authority_end + 1)
      end
  end.

Definition get_encoded_root_length (path : bytes) : Z :=
  let len := length path in
  if (len =? 0)%nat then 0
  else
    let ch0 := byte_at path 0 in
    if (ch0 =? chr "/") || (ch0 =? 92) then
      if (len =? 1)%nat || negb (byte_at path 1 =? ch0) then 1
      else match find_sub [ch0] (drop 2 path) with
           | Some p1 => Z.of_nat (p1 + 2 + 1)
           | None => Z.of_nat len
           end
    else
      let volume := is_volume_character ch0 && (1 <? len)%nat && (byte_at path 1 =? chr ":") in
      if volume && (len =? 2)%nat then 2
      else if volume && is_any_directory_separator (byte_at path 2) then 3
      else if (ch0 =? chr "^") && (1 <? len)%nat && (byte_at path 1 =? chr "/") then 2
      else match find_sub URL_SCHEME_SEPARATOR path with
           | Some scheme_end => encoded_url_root path scheme_end
           | None => 0
           end.

Definition get_root_length (path : bytes) : nat :=
  let root_length := get_encoded_root_length path in
  if root_length <? 0 then Z.to_nat (- root_length - 1) else Z.to_nat root_length.

Definition is_url (path : bytes) : bool := get_encoded_root_length path <? 0.
Definition is_rooted_disk_path (path : bytes) : bool := 0 <? get_encoded_root_length path.
Definition is_disk_path_root (path : bytes) : bool :=
  let root_length := get_encoded_root_length path in
  (0 <? root_length) && (Z.to_nat root_length =? length path)%nat.
Definition is_dynamic_file_name (file_name : bytes) : bool := starts_with (bstr "^/") file_name.
Definition path_is_absolute (path : bytes) : bool := negb (get_encoded_root_length path =? 0).

(** ** Separators *)
Definition has_trailing_directory_separator (path : bytes) : bool :=
  match last path with Some ch => is_any_directory_separator ch | None => false end.

Definition remove_trailing_directory_separator (path : bytes) : bytes :=
  if has_trailing_directory_separator path then take (length path - 1) path else path.

Fixpoint remove_separators_fuel (fuel : nat) (path : bytes) : bytes :=
  match fuel with
  | O => path
  | S fuel =>
      if has_trailing_directory_separator path
      then remove_separators_fuel fuel (remove_trailing_directory_separator path) else path
  end.
Definition remove_trailing_directory_separators (path : bytes) : bytes :=
  remove_separators_fuel (length path) path.

Definition ensure_trailing_directory_separator (path : bytes) : bytes :=
  if has_trailing_directory_separator path then path else path ++ bstr "/".

Definition normalize_slashes (path : bytes) : bytes :=
  map (fun b => if b =? 92 then chr "/" else b) path.

(** ** Components *)

(** The loop of [combine_paths]. *)
Definition combine_step (result trailing_path : bytes) : bytes :=
  if bool_decide (trailing_path = []) then result
  else
    let trailing_path := normalize_slashes trailing_path in
    if bool_decide (result = []) || negb (get_root_length trailing_path =? 0)%nat then trailing_path
    else (if has_trailing_directory_separator result then result else result ++ [DIRECTORY_SEPARATOR])
         ++ trailing_path.
Definition combine_paths (first_path : bytes) (paths : list bytes) : bytes :=
  fold_left combine_step paths (normalize_slashes first_path).

Definition path_components (path : bytes) (root_length : nat) : list bytes :=
  let rest := split (chr "/") (drop root_length path) in
  let rest := match last rest with Some [] => removelast rest | _ => rest end in
  take root_length path :: rest.

Definition get_path_components (path current_directory : bytes) : list bytes :=
  let path := combine_paths current_directory [path] in
  path_components path (get_root_length path).

Definition get_path_from_path_components (components : list bytes) : bytes :=
  match components with
  | [] => []
  | root :: rest =>
      (if bool_decide (root = []) then root else ensure_trailing_directory_separator root)
      ++ join (bstr "/") rest
  end.

(** One component of [reduce_path_components]: [reduced] ends with it, is shortened, or is left. *)
Definition reduce_step (reduced : list bytes) (component : bytes) : list bytes :=
  if bool_decide (component = []) || bool_decide (component = bstr ".") then reduced
  else if bool_decide (component = bstr "..")
          && ((1 <? length reduced)%nat && negb (bool_decide (last reduced = Some (bstr "..")))) then
    removelast reduced
  else if bool_decide (component = bstr "..")
          && ((length reduced =? 1)%nat && negb (bool_decide (head reduced = Some []))) then
    reduced
  else reduced ++ [component].
Definition reduce_path_components (components : list bytes) : list bytes :=
  match components with
  | [] => []
  | root :: rest => fold_left reduce_step rest [root]
  end.

(** ** Normalization *)

(** The component loop of [get_normalized_path_components_from_combined], at [index]. *)
Definition push_component (components : list bytes) (component : bytes) : list bytes :=
  if bool_decide (component = []) || bool_decide (component = bstr ".") then components
  else if bool_decide (component = bstr "..") && (1 <? length components)%nat then
    if bool_decide (last components = Some (bstr "..")) then components ++ [component]
    else removelast components
  else if bool_decide (component = bstr "..") && negb (bool_decide (head components = Some [])) then
    components
  else components ++ [component].

Fixpoint normalized_loop (fuel : nat) (path : bytes) (index : nat) (components : list bytes)
    : option (list bytes) :=
  match fuel with
  | O => None
  | S fuel =>
      if (length path <=? index)%nat then Some components
      else
        let start := skip_while (fun b => b =? chr "/") path index (length path) in
        if (length path <=? start)%nat then Some components
        else
          let index := skip_while (fun b => negb (b =? chr "/")) path start (length path) in
          normalized_loop fuel path index
            (push_component components (take (index - start) (drop start path)))
  end.

Definition get_normalized_path_components_from_combined (path : bytes) : option (list bytes) :=
  let root_length := get_root_length path in
  normalized_loop (S (length path)) path root_length [take root_length path].

Definition get_normalized_path_components (path current_directory : bytes) : option (list bytes) :=
  get_normalized_path_components_from_combined (combine_paths current_directory [path]).

Definition get_normalized_absolute_path (file_name current_directory : bytes) : option bytes :=
  let file_name :=
    if (get_root_length file_name =? 0)%nat && negb (bool_decide (current_directory = []))
    then combine_paths current_directory [file_name] else normalize_slashes file_name in
  components ← get_normalized_path_components_from_combined file_name;
  let result := get_path_from_path_components components in
  let root_length := get_root_length file_name in
  Some (if (root_length <? length result)%nat then remove_trailing_directory_separator result
        else if (length result =? root_length)%nat && negb (root_length =? 0)%nat
        then ensure_trailing_directory_separator result
        else result).

Definition get_normalized_absolute_path_without_root (file_name current_directory : bytes)
    : option bytes :=
  absolute_path ← get_normalized_absolute_path file_name current_directory;
  Some (drop (get_root_length absolute_path) absolute_path).

(** The loop of [has_relative_path_segment]. *)
Fixpoint segment_loop (bs : bytes) (previous_slash : bool) (segment_len : nat) (dot_count : Z) : bool :=
  let dots := ((segment_len =? 1)%nat && (dot_count =? 1)) || ((segment_len =? 2)%nat && (dot_count =? 2)) in
  match bs with
  | [] => dots
  | b :: bs =>
      if b =? chr "/" then
        if previous_slash then true
        else if dots then true
        else segment_loop bs true 0 0
      else
        let dot_count :=
          if b =? chr "." then (if 0 <=? dot_count then dot_count + 1 else dot_count) else -1 in
        segment_loop bs false (S segment_len) dot_count
  end.

Definition has_relative_path_segment (path : bytes) : bool :=
  let len := length path in
  if (len =? 0)%nat then false
  else if bool_decide (path = bstr ".") || bool_decide (path = bstr "..") then true
  else if (byte_at path 0 =? chr ".")
          && (((2 <=? len)%nat && (byte_at path 1 =? chr "/"))
              || ((3 <=? len)%nat && (byte_at path 1 =? chr ".") && (byte_at path 2 =? chr "/"))) then true
  else if (byte_at path (len - 1) =? chr ".")
          && (((2 <=? len)%nat && (byte_at path (len - 2) =? chr "/"))
              || ((3 <=? len)%nat && (byte_at path (len - 2) =? chr ".")
                  && (byte_at path (len - 3) =? chr "/"))) then true
  else segment_loop path false 0 0.

(** [path.replace("/./", "/")] *)
Fixpoint replace_dot_segments (path : bytes) : bytes :=
  match path with
  | 47 :: (46 :: 47 :: rest) as r => 47 :: replace_dot_segments rest
  | b :: rest => b :: replace_dot_segments rest
  | [] => []
  end.

Definition simple_normalize_path (path : bytes) : option bytes :=
  if negb (has_relative_path_segment path) then Some path
  else
    let simplified := replace_dot_segments path in
    let trimmed := default simplified (strip_prefix (bstr "./") simplified) in
    if negb (bool_decide (trimmed = path)) && negb (has_relative_path_segment trimmed)
       && negb (negb (bool_decide (trimmed = simplified)) && starts_with (bstr "/") trimmed)
    then Some trimmed else None.

Definition normalize_path (path : bytes) : option bytes :=
  let path := normalize_slashes path in
  match simple_normalize_path path with
  | Some normalized => Some normalized
  | None =>
      result ← get_normalized_absolute_path path [];
      Some (if has_trailing_directory_separator path && negb (has_trailing_directory_separator result)
            then result ++ bstr "/" else result)
  end.

Definition resolve_path (path : bytes) (paths : list bytes) : option bytes :=
  let combined := if bool_decide (paths = []) then normalize_slashes path else combine_paths path paths in
  normalize_path combined.

(** ** Directories and file names *)
Definition get_directory_path (path : bytes) : bytes :=
  let path := normalize_slashes path in
  let root_length := get_root_length path in
  if (root_length =? length path)%nat then path
  else
    let path := remove_trailing_directory_separator path in
    let last_separator := default 0%nat (rfind (chr "/") path) in
    take (Nat.max root_length last_separator) path.

Definition get_base_file_name (path : bytes) : bytes :=
  let path := normalize_slashes path in
  let root_length := get_root_length path in
  if (root_length =? length path)%nat then []
  else
    let path := remove_trailing_directory_separator path in
    let last_separator := match rfind (chr "/") path with Some index => S index | None => 0%nat end in
    drop (Nat.max root_length last_separator) path.

Definition has_extension (file_name : bytes) : bool :=
  existsb (Z.eqb (chr ".")) (get_base_file_name file_name).

Definition eq_ignore_ascii_case (a b : bytes) : bool :=
  bool_decide (map to_ascii_lowercase a = map to_ascii_lowercase b).

(** The loop over the extensions; [None] is the panic of a slice inside a character. *)
Fixpoint find_extension (path : bytes) (extensions : list bytes) (ignore_case : bool) : option bytes :=
  match extensions with
  | [] => Some []
  | extension :: extensions =>
      let extension := if starts_with (bstr ".") extension then extension else bstr "." ++ extension in
      if (length extension <=? length path)%nat then
        path_extension ← slice path (length path - length extension) (length path);
        if (if ignore_case then eq_ignore_ascii_case path_extension extension
            else bool_decide (path_extension = extension))
        then Some path_extension else find_extension path extensions ignore_case
      else find_extension path extensions ignore_case
  end.
Definition get_any_extension_from_path (path : bytes) (extensions : list bytes) (ignore_case : bool)
    : option bytes :=
  if bool_decide (extensions = []) then
    let base := get_base_file_name path in
    Some (match rfind (chr ".") base with Some index => drop index base | None => [] end)
  else find_extension (remove_trailing_directory_separator path) extensions ignore_case.

Definition file_extension_is (path extension : bytes) : bool :=
  (length extension <? length path)%nat && ends_with extension path.

(** The callback keeps a state [S]; [None] is running out of fuel, which never happens. *)
Fixpoint for_each_ancestor_fuel {S T} (fuel : nat) (callback : bytes -> S -> option T * S)
    (directory : bytes) (st : S) : option (option T * S) :=
  match fuel with
  | O => None
  | Datatypes.S fuel =>
      let '(result, st) := callback directory st in
      match result with
      | Some result => Some (Some result, st)
      | None =>
          let parent := get_directory_path directory in
          if bool_decide (parent = directory) then Some (None, st)
          else for_each_ancestor_fuel fuel callback parent st
      end
  end.
Definition for_each_ancestor_directory {S T} (directory : bytes) (callback : bytes -> S -> option T * S)
    (st : S) : option (option T * S) :=
  for_each_ancestor_fuel (Datatypes.S (Datatypes.S (length directory))) callback directory st.

Definition for_each_ancestor_directory_stopping_at_global_cache {S T} (global_cache_location directory : bytes)
    (callback : bytes -> S -> (T * bool) * S) (st : S) : option (option T * S) :=
  for_each_ancestor_directory directory (fun ancestor st =>
    let '((result, stop), st) := callback ancestor st in
    ((if (stop : bool) || bool_decide (ancestor = global_cache_location) then Some result else None), st)) st.

Definition split_volume_path (path : bytes) : option (bytes * bytes) :=
  if (2 <=? length path)%nat && is_volume_character (byte_at path 0) && (byte_at path 1 =? chr ":")
  then Some (map to_ascii_lowercase (take 2 path), drop 2 path) else None.

(** ** Relative paths *)
Definition path_is_relative (path : bytes) : bool :=
  bool_decide (path = bstr ".") || bool_decide (path = bstr "..")
  || starts_with (bstr "./") path || starts_with (46 :: [92]) path
  || starts_with (bstr "../") path || starts_with (46 :: 46 :: [92]) path.

Definition ensure_path_is_non_module_name (path : bytes) : bytes :=
  if negb (path_is_absolute path) && negb (path_is_relative path) then bstr "./" ++ path else path.

Definition is_external_module_name_relative (module_name : bytes) : bool :=
  path_is_relative module_name || is_rooted_disk_path module_name.

Definition resolve_tripleslash_reference (module_name containing_file : bytes) : option bytes :=
  if is_rooted_disk_path module_name then normalize_path module_name
  else normalize_path (combine_paths (get_directory_path containing_file) [module_name]).

Definition compare_number_of_directory_separators (path1 path2 : bytes) : comparison :=
  (length (filter (fun b => b = chr "/") path1) ?= length (filter (fun b => b = chr "/") path2))%nat.

Section comparing.
Context `{CaseMapping}.

Definition to_file_name_lower_case (file_name : bytes) : bytes :=
  if is_ascii file_name then map to_ascii_lowercase file_name
  else utf8 (flat_map (fun ch => if ch =? 304 then [ch] else to_lowercase ch) (chars file_name)).

Definition get_canonical_file_name (file_name : bytes) (use_case_sensitive_file_names : bool) : bytes :=
  if use_case_sensitive_file_names then file_name else to_file_name_lower_case file_name.

Definition to_path (file_name base_path : bytes) (use_case_sensitive_file_names : bool) : option bytes :=
  path ← (if is_rooted_disk_path file_name then normalize_path file_name
          else get_normalized_absolute_path file_name base_path);
  Some (get_canonical_file_name path use_case_sensitive_file_names).

Record ComparePathsOptions := mkOptions {
  use_case_sensitive_file_names : bool;
  current_directory : bytes;
}.

Definition compare_strings (options : ComparePathsOptions) (a b : bytes) : comparison :=
  if use_case_sensitive_file_names options then str_compare a b
  else str_compare (to_file_name_lower_case a) (to_file_name_lower_case b).
Definition equal_strings (options : ComparePathsOptions) (a b : bytes) : bool :=
  match compare_strings options a b with Eq => true | _ => false end.

(** The number of components both lists start with; [first] for the roots. *)
Fixpoint common_components (options : ComparePathsOptions) (first : bool) (from to : list bytes) : nat :=
  match from, to with
  | f :: from, t :: to =>
      if (if first then eq_ignore_ascii_case f t else equal_strings options f t)
      then S (common_components options false from to) else 0
  | _, _ => 0
  end.

Definition get_path_components_relative_to (from to : bytes) (options : ComparePathsOptions) : list bytes :=
  let from_components := reduce_path_components (get_path_components from (current_directory options)) in
  let to_components := reduce_path_components (get_path_components to (current_directory options)) in
  let start := common_components options true from_components to_components in
  if (start =? 0)%nat then to_components
  else [] :: repeat (bstr "..") (length from_components - start) ++ drop start to_components.

(** [None] is the failure of the assertion. *)
Definition get_relative_path_from_directory (from_directory to : bytes) (options : ComparePathsOptions)
    : option bytes :=
  if Bool.eqb (0 <? get_root_length from_directory)%nat (0 <? get_root_length to)%nat
  then Some (get_path_from_path_components (get_path_components_relative_to from_directory to options))
  else None.

Definition get_relative_path_from_file (from to : bytes) (options : ComparePathsOptions) : option bytes :=
  path ← get_relative_path_from_directory (get_directory_path from) to options;
  Some (ensure_path_is_non_module_name path).

Definition get_relative_path_to_directory_or_url (directory_path_or_url relative_or_absolute_path : bytes)
    (is_absolute_path_an_url : bool) (options : ComparePathsOptions) : bytes :=
  let components := get_path_components_relative_to directory_path_or_url relative_or_absolute_path options in
  get_path_from_path_components
    match components with
    | root :: rest =>
        if is_absolute_path_an_url && is_rooted_disk_path root
        then ((if starts_with (bstr "/") root then bstr "file://" else bstr "file:///") ++ root) :: rest
        else components
    | [] => components
    end.

Definition convert_to_relative_path (path : bytes) (options : ComparePathsOptions) : bytes :=
  if negb (is_rooted_disk_path path) then path
  else get_relative_path_to_directory_or_url (current_directory options) path false options.

(** The loop over the common components of [compare_paths], after the roots. *)
Fixpoint compare_components (options : ComparePathsOptions) (a b : list bytes) : comparison :=
  match a, b with
  | x :: a', y :: b' =>
      match compare_strings options x y with Eq => compare_components options a' b' | order => order end
  | _, _ => (length a ?= length b)%nat
  end.

Definition compare_paths (a b : bytes) (options : ComparePathsOptions) : comparison :=
  let a := combine_paths (current_directory options) [a] in
  let b := combine_paths (current_directory options) [b] in
  if bool_decide (a = b) then Eq
  else if bool_decide (a = []) then Lt
  else if bool_decide (b = []) then Gt
  else
    let a_root_length := get_root_length a in
    let b_root_length := get_root_length b in
    let root_order := str_compare (to_file_name_lower_case (take a_root_length a))
                        (to_file_name_lower_case (take b_root_length b)) in
    match root_order with
    | Eq =>
        let a_rest := drop a_root_length a in
        let b_rest := drop b_root_length b in
        if negb (has_relative_path_segment a_rest) && negb (has_relative_path_segment b_rest)
        then compare_strings options a_rest b_rest
        else compare_components options (tail (reduce_path_components (get_path_components a [])))
               (tail (reduce_path_components (get_path_components b [])))
    | _ => root_order
    end.

Definition compare_paths_case_sensitive (a b current_directory : bytes) : comparison :=
  compare_paths a b (mkOptions true current_directory).
Definition compare_paths_case_insensitive (a b current_directory : bytes) : comparison :=
  compare_paths a b (mkOptions false current_directory).

(** The components of the parent are the first components of the child. *)
Fixpoint components_prefix (options : ComparePathsOptions) (first : bool) (parent child : list bytes) : bool :=
  match parent, child with
  | [], _ => true
  | _, [] => false
  | p :: parent, c :: child =>
      (if first then bool_decide (to_file_name_lower_case p = to_file_name_lower_case c)
       else equal_strings options p c)
      && components_prefix options false parent child
  end.

Definition contains_path (parent child : bytes) (options : ComparePathsOptions) : bool :=
  let parent := combine_paths (current_directory options) [parent] in
  let child := combine_paths (current_directory options) [child] in
  if bool_decide (parent = []) || bool_decide (child = []) then false
  else if bool_decide (parent = child) then true
  else
    components_prefix options true (reduce_path_components (get_path_components parent []))
      (reduce_path_components (get_path_components child [])).

Definition path_contains_path (parent child : bytes) : bool :=
  negb (bool_decide (parent = []))
  && (bool_decide (parent = child)
      || (length parent <? length child)%nat && starts_with parent child
         && (ends_with (bstr "/") parent || (byte_at child (length parent) =? chr "/"))).

Definition trim_end_separators (s : bytes) : bytes :=
  reverse (trim_start_while is_any_directory_separator (reverse s)).

Definition starts_with_directory (file_name directory_name : bytes) (use_case_sensitive_file_names : bool)
    : bool :=
  if bool_decide (directory_name = []) then false
  else
    let file_name := get_canonical_file_name file_name use_case_sensitive_file_names in
    let directory_name := get_canonical_file_name directory_name use_case_sensitive_file_names in
    let directory_name := trim_end_separators directory_name in
    starts_with (directory_name ++ bstr "/") file_name || starts_with (directory_name ++ [92]) file_name.
End comparing.
