(* ===== verification/PathThm.v ===== *)
(** * PathThm: roots, segments and components of paths

    Roots end at character boundaries within the path; the byte loops that look for relative segments
    and that normalize the components agree with their definitions on the segments of the path; walking
    up the ancestors of a directory terminates. *)
From S2P Require Import Prelude Text Chars Numerals Trivia Strs Path.

(** ** Roots *)

(** A position that follows an ASCII byte, or the start, or the end. *)
Definition cut (path : bytes) (i : nat) : Prop :=
  (i <= length path)%nat /\
  (i = 0%nat \/ i = length path \/ exists b, path !! (i - 1)%nat = Some b /\ b < 128 /\ (0 < i)%nat).

Lemma cut_boundary path i : valid_utf8 path -> cut path i -> is_char_boundary path i = true.
Proof.
  intros Hv [Hl [-> |[-> |(b & Hb & Hb' & Hi)]]]; [done|apply is_char_boundary_len|].
  destruct (ascii_byte_boundary path (i - 1) b Hv Hb Hb') as [_ H].
  by replace (S (i - 1))%nat with i in H by lia.
Qed.

Lemma cut_after path i b : path !! i = Some b -> b < 128 -> cut path (S i).
Proof.
  intros Hb Hlt. pose proof (lookup_lt_Some _ _ _ Hb). split; [lia|]. right. right. exists b.
  by rewrite Nat.sub_succ, Nat.sub_0_r; split_and!; [| |lia].
Qed.

Lemma cut_full path : cut path (length path).
Proof. split; [lia|]. by right; left. Qed.

Lemma byte_at_lookup s i b : (i < length s)%nat -> byte_at s i = b -> s !! i = Some b.
Proof.
  unfold byte_at. intros Hi <-. destruct (lookup_lt_is_Some_2 s i Hi) as [c Hc]. rewrite Hc. f_equal.
  by erewrite nth_lookup_Some.
Qed.

Lemma find_sub_lookup needle s i k b :
  find_sub needle s = Some i -> needle !! k = Some b -> s !! (i + k)%nat = Some b.
Proof.
  intros [Hs _]%find_sub_Some Hk. apply starts_with_spec in Hs as [r Hr].
  rewrite <- (lookup_drop s i k), Hr. by apply lookup_app_l_Some.
Qed.

Lemma volume_separator_cut url start e :
  get_file_url_volume_separator_end url start = Some e -> cut url e.
Proof.
  unfold get_file_url_volume_separator_end.
  destruct (length url <=? start)%nat eqn:E; [done|]. bool_to_prop.
  destruct (byte_at url start =? 58) eqn:E1; bool_to_prop.
  - intros [= <-]. rewrite Nat.add_1_r. eapply cut_after; [by apply byte_at_lookup|lia].
  - destruct (_ && _) eqn:E2; [|done]. bool_to_prop.
    assert (byte_at url (start + 2) = 97 \/ byte_at url (start + 2) = 65 ->
      cut url (start + 3)) as Hc.
    { intros Hb. replace (start + 3)%nat with (S (start + 2)) by lia.
      eapply cut_after; [by apply byte_at_lookup|]. lia. }
    destruct (byte_at url (start + 2) =? 97) eqn:E3; cbn [orb]; bool_to_prop;
      [intros [= <-]; apply Hc; by left|].
    destruct (byte_at url (start + 2) =? 65) eqn:E4; [|done]. bool_to_prop.
    intros [= <-]. apply Hc. by right.
Qed.

(** The length of a root, encoded or not, is a cut. *)
Definition encoded_cut (path : bytes) (n : Z) : Prop :=
  cut path (if n <? 0 then Z.to_nat (- n - 1) else Z.to_nat n).

Lemma complement_cut path n : cut path n -> encoded_cut path (complement n).
Proof.
  unfold encoded_cut, complement. intros Hc. rewrite (proj2 (Z.ltb_lt _ _)) by lia.
  by replace (Z.to_nat (- (- Z.of_nat n - 1) - 1)) with n by lia.
Qed.

Lemma nat_cut path n : cut path n -> encoded_cut path (Z.of_nat n).
Proof.
  unfold encoded_cut. intros Hc. rewrite (proj2 (Z.ltb_ge _ _)) by lia. by rewrite Nat2Z.id.
Qed.

Lemma encoded_url_root_cut path scheme_end : encoded_cut path (encoded_url_root path scheme_end).
Proof.
  unfold encoded_url_root. destruct (find_sub _ _) as [n|] eqn:E; [|apply complement_cut, cut_full].
  set (a := (scheme_end + length URL_SCHEME_SEPARATOR)%nat) in *.
  assert (path !! (a + n)%nat = Some 47) as Hs.
  { apply (find_sub_lookup _ _ _ 0 47) in E; [|done]. rewrite lookup_drop in E.
    by rewrite Nat.add_0_r in E. }
  assert (cut path (a + n + 1)) as Hc by (rewrite Nat.add_1_r; by eapply cut_after).
  match goal with |- context [match ?x with Some _ => _ | None => _ end] => destruct x as [e|] eqn:E2 end;
    [|by apply complement_cut].
  destruct (_ && _); [|done]. apply volume_separator_cut in E2 as He.
  destruct (e =? length path)%nat eqn:E3; bool_to_prop; [by apply complement_cut|].
  destruct (byte_at path e =? 47) eqn:E4; bool_to_prop; [|by apply complement_cut].
  apply complement_cut. rewrite Nat.add_1_r. apply (cut_after _ _ 47); [|lia].
  apply byte_at_lookup; [destruct He; lia|done].
Qed.

Lemma get_encoded_root_length_cut path : encoded_cut path (get_encoded_root_length path).
Proof.
  unfold get_encoded_root_length. destruct (length path =? 0)%nat eqn:E0; bool_to_prop.
  { apply (nat_cut path 0). split; [lia|by left]. }
  assert (forall i b, (i < length path)%nat -> byte_at path i = b -> b < 128 -> cut path (S i)) as Hb.
  { intros i b Hi Hb Hlt. eapply cut_after; [by apply byte_at_lookup|done]. }
  destruct (_ || _) eqn:E1.
  - assert (byte_at path 0 < 128) as H0 by (apply orb_true_iff in E1 as [?|?]; bool_to_prop; lia).
    destruct (_ || negb _); [apply (nat_cut path 1); eapply Hb; [lia|done|done]|].
    destruct (find_sub _ _) as [p|] eqn:E2; [|apply nat_cut, cut_full].
    apply nat_cut. rewrite Nat.add_1_r. eapply cut_after; [|exact H0].
    apply (find_sub_lookup _ _ _ 0 (byte_at path 0)) in E2; [|done]. rewrite lookup_drop in E2.
    by replace (2 + (p + 0))%nat with (p + 2)%nat in E2 by lia.
  - set (volume := is_volume_character _ && _ && _).
    destruct (volume && _) eqn:E2.
    { apply andb_true_iff in E2 as [_ E2]. bool_to_prop. apply (nat_cut path 2). replace 2%nat with (length path). apply cut_full. }
    destruct (volume && is_any_directory_separator _) eqn:E3.
    { apply andb_true_iff in E3 as [Hv Hd]. rewrite Hv in E2. cbn [andb] in E2. subst volume. bool_to_prop.
      apply (nat_cut path 3). assert (2 < length path)%nat by lia.
      eapply Hb; [lia|done|]. unfold is_any_directory_separator in Hd.
      apply orb_true_iff in Hd as [?|?]; bool_to_prop; lia. }
    clear E2 E3. clearbody volume. destruct (_ && _ && _) eqn:E4.
    { bool_to_prop. apply (nat_cut path 2). eapply Hb; [lia|done|lia]. }
    destruct (find_sub _ _); [apply encoded_url_root_cut|]. apply (nat_cut path 0). split; [lia|by left].
Qed.

Lemma get_root_length_cut path : cut path (get_root_length path).
Proof. apply get_encoded_root_length_cut. Qed.

(** The root of a path is a prefix of it: for every path, [get_root_length] is at most its length
    and at a character boundary, so that no slice at the root panics. *)
Theorem root_length_boundary (path : bytes) :
  valid_utf8 path ->
  (get_root_length path <= length path)%nat
  /\ is_char_boundary path (get_root_length path) = true
  /\ slice path 0 (get_root_length path) = Some (take (get_root_length path) path)
  /\ slice path (get_root_length path) (length path) = Some (drop (get_root_length path) path).
Proof.
  intros Hv. pose proof (get_root_length_cut path) as Hc. pose proof (cut_boundary path _ Hv Hc) as Hb.
  destruct Hc as [Hl _]. split; [done|]. split; [done|].
  rewrite !slice_some by (done || lia || apply is_char_boundary_len).
  rewrite Nat.sub_0_r, drop_0. split; [done|]. rewrite take_ge; [done|]. rewrite length_drop. lia.
Qed.

Lemma root_length_boundary_witness :
  (get_root_length (bstr "file:///c:/a") <= 12)%nat
  /\ is_char_boundary (bstr "file:///c:/a") (get_root_length (bstr "file:///c:/a")) = true.
Proof.
  destruct (root_length_boundary (bstr "file:///c:/a")) as (H1 & H2 & _).
  - by apply is_ascii_valid.
  - split; [exact H1|exact H2].
Defined.

(** ** Relative segments *)
Definition dots (s : bytes) : Prop := s = bstr "." \/ s = bstr "..".

(** A segment is [.] or [..], or an empty one stands between two others. *)
Definition relative_segment (path : bytes) : Prop :=
  Exists dots (split (chr "/") path)
  \/ exists a b, a <> [] /\ b <> [] /\ split (chr "/") path = a ++ [] :: b.

(** The segments from one on, [first] for the first one. *)
Fixpoint bad_segments (first : bool) (segments : list bytes) : Prop :=
  match segments with
  | [] => False
  | s :: rest => dots s \/ (first = false /\ s = [] /\ rest <> []) \/ bad_segments false rest
  end.

Lemma bad_segments_false segments :
  bad_segments false segments <->
  Exists dots segments \/ exists a b, b <> [] /\ segments = a ++ [] :: b.
Proof.
  induction segments as [|s rest IH]; cbn [bad_segments].
  - rewrite Exists_nil. split; [done|]. intros [|(a & b & _ & E)]; [done|by destruct a].
  - rewrite IH, Exists_cons. split.
    + intros [Hd|[(_ & -> & Hr)|[He|(a & b & Hb & ->)]]]; [by left; left| |by left; right|].
      * right. by exists [], rest.
      * right. by exists (s :: a), b.
    + intros [[Hd|He]|(a & b & Hb & E)]; [by left|by right; right; left|].
      destruct a as [|x a]; injection E as -> ->; [by right; left|].
      right. right. right. by exists a, b.
Qed.

Lemma bad_segments_spec path : bad_segments true (split (chr "/") path) <-> relative_segment path.
Proof.
  unfold relative_segment. destruct (split_by_cons (Z.eqb 47) path) as (s & rest & E).
  unfold split. rewrite E. cbn [bad_segments]. rewrite bad_segments_false, Exists_cons. split.
  - intros [Hd|[(? & _)|[He|(a & b & Hb & ->)]]]; [by left; left|done|by left; right|].
    right. by exists (s :: a), b.
  - intros [[Hd|He]|(a & b & Ha & Hb & E')]; [by left|by right; right; left|].
    destruct a as [|x a]; [done|]. injection E' as -> ->. right. right. right. by exists a, b.
Qed.

(** The state of the loop in the middle of the segment [cur]. *)
Definition dot_count_of (cur : bytes) : Z :=
  if forallb (fun b => b =? chr ".") cur then Z.of_nat (length cur) else -1.

Lemma dots_state cur :
  (((length cur =? 1)%nat && (dot_count_of cur =? 1))
   || ((length cur =? 2)%nat && (dot_count_of cur =? 2))) = true <-> dots cur.
Proof.
  unfold dot_count_of, dots. destruct cur as [|a [|b [|c r]]]; cbn; rewrite ?andb_true_r.
  - naive_solver.
  - destruct (Z.eqb_spec a 46) as [-> |]; cbn; naive_solver.
  - destruct (Z.eqb_spec a 46) as [-> |], (Z.eqb_spec b 46) as [-> |]; cbn; naive_solver.
  - naive_solver.
Qed.

Lemma dot_count_snoc cur b :
  dot_count_of (cur ++ [b])
  = (if b =? chr "." then (if 0 <=? dot_count_of cur then dot_count_of cur + 1 else dot_count_of cur) else -1).
Proof.
  unfold dot_count_of. rewrite forallb_app. cbn. rewrite andb_true_r, length_app. cbn.
  destruct (forallb _ cur), (b =? 46); cbn; try lia.
  by rewrite (proj2 (Z.leb_le _ _)) by lia; lia.
Qed.

Lemma segment_loop_spec bs first cur s rest :
  chr "/" ∉ cur -> split (chr "/") bs = s :: rest ->
  segment_loop bs (negb first && bool_decide (cur = [])) (length cur) (dot_count_of cur) = true
  <-> bad_segments first ((cur ++ s) :: rest).
Proof.
  unfold split. revert first cur s rest. induction bs as [|b bs IH]; intros first cur s rest Hc Hs.
  - injection Hs as <- <-. cbn [segment_loop]. rewrite app_nil_r, dots_state. cbn. naive_solver.
  - cbn [split_by] in Hs. cbn [segment_loop]. rewrite (Z.eqb_sym b 47). destruct (Z.eqb_spec 47 b) as [<-|Hb].
    + injection Hs as <- Hs. rewrite app_nil_r. cbn [bad_segments].
      destruct (split_by_cons (Z.eqb 47) bs) as (s' & rest' & E). rewrite E in Hs. subst rest.
      pose proof (dots_state cur) as Hd. destruct (negb first && bool_decide (cur = [])) eqn:Ef.
      { apply andb_true_iff in Ef as [Hf Hn]. apply bool_decide_eq_true in Hn. apply negb_true_iff in Hf.
        split; [|done]. intros _. right. by left. }
      destruct ((_ && _) || _) eqn:Eq; [split; [|done]; intros _; left; by apply Hd|].
      specialize (IH false [] s' rest' ltac:(apply not_elem_of_nil) E). cbn [negb andb app length] in IH.
      rewrite bool_decide_eq_true_2 in IH by done. change (dot_count_of []) with 0 in IH. rewrite IH.
      split; [by right; right|]. intros [Hd'|[(-> & -> & _)|]]; [by apply Hd in Hd'|done|done].
    + destruct (split_by_cons (Z.eqb 47) bs) as (s' & rest' & E). rewrite E in Hs. injection Hs as <- <-.
      specialize (IH first (cur ++ [b]) s' rest'). rewrite <- app_assoc, dot_count_snoc, length_app in IH.
      rewrite bool_decide_eq_false_2, andb_false_r in IH by by destruct cur.
      cbn [length app] in IH. rewrite Nat.add_1_r in IH. apply IH; [|done].
      rewrite elem_of_app, list_elem_of_singleton. naive_solver.
Qed.

Lemma segment_loop_relative path : segment_loop path false 0 0 = true <-> relative_segment path.
Proof.
  rewrite <- bad_segments_spec. destruct (split_by_cons (Z.eqb 47) path) as (s & rest & E).
  unfold split. rewrite E. by apply (segment_loop_spec path true [] s rest); [apply not_elem_of_nil|].
Qed.

Lemma relative_last a s : dots s -> relative_segment (a ++ chr "/" :: s).
Proof.
  intros Hs. left. rewrite split_app_parts. apply Exists_app. right. by destruct Hs as [-> | ->]; left; [left|right].
Qed.

Lemma ends_with_bytes (path s : bytes) (n : nat) :
  n = length s -> (n <= length path)%nat ->
  (forall i b, s !! i = Some b -> byte_at path (length path - n + i) = b) ->
  exists a, path = a ++ s.
Proof.
  intros -> Hl Hb. exists (take (length path - length s) path). rewrite <- (take_drop (length path - length s) path) at 1.
  f_equal. apply list_eq. intros i. rewrite lookup_drop. destruct (s !! i) as [b|] eqn:E.
  - apply lookup_lt_Some in E as Hi. apply byte_at_lookup; [lia|by apply Hb].
  - apply lookup_ge_None in E. apply lookup_ge_None. lia.
Qed.

(** The byte loop and the tests before it. *)
Lemma relative_segment_decided (path : bytes) :
  has_relative_path_segment path = true <-> relative_segment path.
Proof.
  rewrite <- segment_loop_relative. unfold has_relative_path_segment.
  destruct (length path =? 0)%nat eqn:E0; bool_to_prop; [by destruct path|].
  case_bool_decide as E1; [by subst|]. case_bool_decide as E2; [by subst|]. cbn [orb].
  destruct (_ && (_ || _)) eqn:E3.
  { split; [intros _|done]. apply andb_true_iff in E3 as [H0 H]. bool_to_prop.
    apply orb_true_iff in H as [H|H]; bool_to_prop.
    - by destruct path as [|a [|b path]]; cbn in *; [lia|lia|subst].
    - by destruct path as [|a [|b [|c path]]]; cbn in *; [lia|lia|lia|subst]. }
  clear E3. destruct (_ && (_ || _)) eqn:E3; [|done].
  split; [intros _|done]. apply segment_loop_relative.
  apply andb_true_iff in E3 as [H0 H]. bool_to_prop. apply orb_true_iff in H as [H|H]; bool_to_prop.
  - destruct (ends_with_bytes path (bstr "/.") 2 eq_refl ltac:(lia)) as [a ->]; [|by apply relative_last; left].
    intros [|[|i]] b [= <-]; [by rewrite Nat.add_0_r|]. by replace (length path - 2 + 1)%nat with (length path - 1)%nat by lia.
  - destruct (ends_with_bytes path (bstr "/..") 3 eq_refl ltac:(lia)) as [a ->]; [|by apply relative_last; right].
    intros [|[|[|i]]] b [= <-]; [by rewrite Nat.add_0_r| |].
    + by replace (length path - 3 + 1)%nat with (length path - 2)%nat by lia.
    + by replace (length path - 3 + 2)%nat with (length path - 1)%nat by lia.
Qed.

(** [has_relative_path_segment] decides its definition: the byte loop with its counters, and the tests
    of the first and last bytes before it, answer whether a segment of the path is [.] or [..] or two
    slashes follow each other. *)
Theorem has_relative_path_segment_spec (path : bytes) :
  has_relative_path_segment path = true <-> relative_segment path.
Proof. apply relative_segment_decided. Qed.

(** ** Normalized components *)

(** Skipping to the end of the text: the bytes passed over satisfy [p], the next one does not. *)
Lemma skip_while_spec p path i :
  (i <= length path)%nat ->
  exists pre rest, drop i path = pre ++ rest /\ Forall (fun b => p b = true) pre
    /\ skip_while p path i (length path) = (i + length pre)%nat
    /\ match rest with b :: _ => p b = false | [] => True end.
Proof.
  intros Hi. unfold skip_while. rewrite take_ge by (rewrite length_drop; lia).
  destruct (find_index _ (drop i path)) as [k|] eqn:E.
  - apply find_index_Some in E as (b & Hb & Hp & Hbefore). exists (take k (drop i path)), (drop k (drop i path)).
    rewrite take_drop. split; [done|]. pose proof (lookup_lt_Some _ _ _ Hb). split_and!.
    + apply Forall_forall. intros c Hc. apply list_elem_of_lookup_1 in Hc as [j Hj].
      apply lookup_take_Some in Hj as [Hj Hjk]. specialize (Hbefore j c Hjk Hj). by apply negb_false_iff.
    + rewrite length_take. lia.
    + rewrite (drop_S _ b k) by done. by apply negb_true_iff.
  - exists (drop i path), []. rewrite app_nil_r. split; [done|]. split_and!; [|rewrite length_drop; lia|done].
    apply Forall_forall. intros c Hc. apply list_elem_of_lookup_1 in Hc as [j Hj].
    rewrite find_index_None in E. specialize (E j c Hj). by apply negb_false_iff.
Qed.

Lemma fold_slashes pre rest cs :
  Forall (fun b => (b =? chr "/") = true) pre ->
  fold_left push_component (split (chr "/") (pre ++ rest)) cs
  = fold_left push_component (split (chr "/") rest) cs.
Proof.
  induction 1 as [|b pre Hb Hp IH]; [done|]. apply Z.eqb_eq in Hb as ->.
  cbn [app]. change (split 47 (47 :: pre ++ rest)) with ([] :: split 47 (pre ++ rest)). cbn [fold_left].
  change (push_component cs []) with cs. done.
Qed.

Lemma normalized_loop_spec fuel path i cs :
  (i <= length path)%nat -> (length path - i < fuel)%nat ->
  normalized_loop fuel path i cs = Some (fold_left push_component (split (chr "/") (drop i path)) cs).
Proof.
  revert i cs. induction fuel as [|fuel IH]; intros i cs Hi Hf; [lia|]. cbn [normalized_loop].
  destruct (length path <=? i)%nat eqn:E; bool_to_prop.
  { rewrite drop_ge by lia. done. }
  destruct (skip_while_spec (fun b => b =? chr "/") path i Hi) as (pre & rest & Hd & Hpre & -> & Hr).
  pose proof (f_equal length Hd) as Hlen. rewrite length_drop, length_app in Hlen.
  rewrite Hd, fold_slashes by done.
  destruct (length path <=? i + length pre)%nat eqn:E2; bool_to_prop.
  { destruct rest; [done|]. cbn in Hlen. lia. }
  destruct (skip_while_spec (fun b => negb (b =? chr "/")) path (i + length pre)) as (comp & rest' & Hd' & Hcomp & -> & Hr');
    [lia|].
  assert (drop (i + length pre) path = rest) as Hdrop.
  { rewrite <- drop_drop, Hd. apply drop_app_length. }
  assert (drop (i + length pre + length comp) path = rest') as Hdrop'.
  { rewrite <- drop_drop, Hd'. apply drop_app_length. }
  rewrite Hdrop in Hd'. rewrite Hdrop.
  assert (47 ∉ comp) as Hn.
  { intros Hin. rewrite Forall_forall in Hcomp. by apply Hcomp in Hin. }
  assert (comp <> []) as Hne.
  { intros ->. cbn in Hd'. subst rest'. destruct rest as [|b rest]; [cbn in Hlen; lia|].
    rewrite Hr in Hr'. done. }
  pose proof (f_equal length Hd') as Hlen'. rewrite length_app in Hlen'.
  assert (length comp <> 0%nat) by by destruct comp.
  rewrite IH, Hdrop' by lia.
  replace (i + length pre + length comp - (i + length pre))%nat with (length comp) by lia.
  rewrite Hd', take_app_length. f_equal. destruct rest' as [|b rest'].
  - rewrite app_nil_r, (split_none 47 comp) by done. done.
  - apply negb_false_iff, Z.eqb_eq in Hr' as ->. rewrite split_app by done.
    change (split 47 (47 :: rest')) with ([] :: split 47 rest'). done.
Qed.

Lemma push_reduce cs c : cs <> [] -> push_component cs c = reduce_step cs c.
Proof.
  intros Hne. unfold push_component, reduce_step.
  destruct (bool_decide (c = []) || bool_decide (c = [46])); [done|].
  case_bool_decide as Hd; cbn [andb]; [|done].
  destruct cs as [|r [|x cs]]; [done| |].
  - cbn [length Nat.ltb Nat.leb Nat.eqb andb head]. by destruct (negb _).
  - cbn [length Nat.ltb Nat.leb Nat.eqb andb]. by destruct (bool_decide (last _ = _)).
Qed.

Lemma reduce_step_nonempty cs c : cs <> [] -> reduce_step cs c <> [].
Proof.
  intros Hne. unfold reduce_step. destruct (_ || _); [done|].
  destruct (_ && (_ && _)) eqn:E.
  - apply andb_true_iff in E as [_ E]. apply andb_true_iff in E as [E _]. bool_to_prop.
    destruct cs as [|a [|b cs]]; cbn in *; [lia|lia|done].
  - match goal with |- (if ?b then _ else _) <> _ => destruct b end; [done|]. by destruct cs.
Qed.

Lemma fold_push_reduce segments cs :
  cs <> [] -> fold_left push_component segments cs = fold_left reduce_step segments cs.
Proof.
  revert cs. induction segments as [|c segments IH]; intros cs Hne; [done|]. cbn.
  rewrite push_reduce by done. apply IH. by apply reduce_step_nonempty.
Qed.

(** Dropping an empty last segment does not matter. *)
Lemma fold_last_empty segments cs :
  fold_left reduce_step (match last segments with Some [] => removelast segments | _ => segments end) cs
  = fold_left reduce_step segments cs.
Proof.
  destruct (last segments) as [[|]|] eqn:E; [|done..].
  apply last_Some in E as [l ->]. rewrite removelast_last, fold_left_app. done.
Qed.

Lemma normalized_components_reduce path :
  get_normalized_path_components_from_combined path
  = Some (reduce_path_components (path_components path (get_root_length path))).
Proof.
  unfold get_normalized_path_components_from_combined, reduce_path_components, path_components.
  pose proof (get_root_length_cut path) as [Hl _].
  rewrite normalized_loop_spec by lia. rewrite fold_push_reduce by done. by rewrite fold_last_empty.
Qed.

(** C28. The loop over the bytes in [get_normalized_path_components] is total and gives exactly the
    components of the path, split at the slashes and then reduced: the fast path and the slow one
    normalize alike. *)
Theorem normalized_path_components (path current_directory : bytes) :
  get_normalized_path_components path current_directory
  = Some (reduce_path_components (get_path_components path current_directory)).
Proof.
  unfold get_normalized_path_components, get_path_components. apply normalized_components_reduce.
Qed.

(** ** Ancestors *)
Lemma length_normalize_slashes path : length (normalize_slashes path) = length path.
Proof. apply length_map. Qed.

Lemma normalize_slashes_no_backslash path : 92 ∉ path -> normalize_slashes path = path.
Proof.
  unfold normalize_slashes. induction path as [|b path IH]; [done|]. intros [Hb Hp]%not_elem_of_cons.
  cbn. rewrite (proj2 (Z.eqb_neq b 92)) by done. by rewrite IH.
Qed.

Lemma backslash_not_in_normalized path : 92 ∉ normalize_slashes path.
Proof.
  unfold normalize_slashes. intros (b & Hb & _)%list_elem_of_fmap. by destruct (Z.eqb_spec b 92).
Qed.

Lemma normalize_slashes_twice path : normalize_slashes (normalize_slashes path) = normalize_slashes path.
Proof. apply normalize_slashes_no_backslash, backslash_not_in_normalized. Qed.

Lemma rfind_bound ch s i : rfind ch s = Some i -> (i < length s)%nat.
Proof.
  revert i. induction s as [|c s IH]; intros i; cbn; [done|].
  destruct (rfind ch s) as [k|]; [intros [= <-]; specialize (IH k eq_refl); lia|].
  destruct (c =? ch); [intros [= <-]; lia|done].
Qed.

Lemma length_remove_separator path :
  (length (remove_trailing_directory_separator path) <= length path)%nat.
Proof.
  unfold remove_trailing_directory_separator. destruct (has_trailing_directory_separator path); [|done].
  rewrite length_take. lia.
Qed.

(** A step up is shorter, or it is the root with its slashes normalized. *)
Lemma get_directory_path_step d :
  (length (get_directory_path d) < length d)%nat
  \/ get_directory_path d = normalize_slashes d /\ get_directory_path (normalize_slashes d) = normalize_slashes d.
Proof.
  unfold get_directory_path. rewrite normalize_slashes_twice.
  destruct (get_root_length_cut (normalize_slashes d)) as [Hl _].
  destruct (get_root_length (normalize_slashes d) =? length (normalize_slashes d))%nat eqn:E; [by right|].
  bool_to_prop. left. rewrite length_normalize_slashes in *. rewrite length_take.
  pose proof (length_remove_separator (normalize_slashes d)) as Hr. rewrite length_normalize_slashes in Hr.
  destruct (rfind 47 _) as [i|] eqn:Ei; cbn [default from_option id].
  - apply rfind_bound in Ei. lia.
  - lia.
Qed.

(** The directories from [d] up to the first one that is its own parent. *)
Fixpoint ancestors (fuel : nat) (d : bytes) : list bytes :=
  match fuel with
  | O => [d]
  | S fuel => if bool_decide (get_directory_path d = d) then [d] else d :: ancestors fuel (get_directory_path d)
  end.

(** The first answer of a callback on a list of directories, in order. *)
Fixpoint first_answer {St T} (callback : bytes -> St -> option T * St) (ds : list bytes) (st : St)
    : option T * St :=
  match ds with
  | [] => (None, st)
  | d :: ds =>
      let '(result, st) := callback d st in
      match result with Some result => (Some result, st) | None => first_answer callback ds st end
  end.

Lemma for_each_ancestor_spec {St T} fuel (callback : bytes -> St -> option T * St) d st :
  (length d + 2 <= fuel)%nat \/ (get_directory_path d = d /\ 1 <= fuel)%nat ->
  for_each_ancestor_fuel fuel callback d st = Some (first_answer callback (ancestors fuel d) st).
Proof.
  revert d st. induction fuel as [|fuel IH]; intros d st Hf; [lia|].
  cbn [for_each_ancestor_fuel ancestors]. case_bool_decide as Hd; cbn [first_answer].
  - by destruct (callback d st) as [[r|] st'].
  - destruct (callback d st) as [[r|] st']; [done|].
    apply IH. destruct Hf as [Hf|[? _]]; [|done].
    destruct (get_directory_path_step d) as [Hs|[H1 H2]]; [left; lia|right]. rewrite H1. split; [done|lia].
Qed.

Lemma ancestors_last fuel d :
  (length d + 2 <= fuel)%nat \/ (get_directory_path d = d /\ 1 <= fuel)%nat ->
  exists l, last (ancestors fuel d) = Some l /\ get_directory_path l = l.
Proof.
  revert d. induction fuel as [|fuel IH]; intros d Hf; [lia|]. cbn [ancestors].
  case_bool_decide as Hd; [by exists d|].
  destruct (IH (get_directory_path d)) as (l & Hl & Hg).
  { destruct Hf as [Hf|[? _]]; [|done].
    destruct (get_directory_path_step d) as [Hs|[H1 H2]]; [left; lia|right]. rewrite H1. split; [done|lia]. }
  exists l. split; [|done]. rewrite last_cons. by rewrite Hl.
Qed.

(** Walking up the ancestors terminates: [for_each_ancestor_directory] calls its callback on the
    directory and its parents, in order, until the callback answers or a directory is its own
    parent, and returns that answer, within as many steps as the directory has bytes, plus two. *)
Theorem for_each_ancestor_directory_total {St T} (d : bytes) (callback : bytes -> St -> option T * St) (st : St) :
  for_each_ancestor_directory d callback st
    = Some (first_answer callback (ancestors (length d + 2) d) st)
  /\ exists l, last (ancestors (length d + 2) d) = Some l /\ get_directory_path l = l.
Proof.
  unfold for_each_ancestor_directory. replace (S (S (length d))) with (length d + 2)%nat by lia.
  split; [apply for_each_ancestor_spec|apply ancestors_last]; by left.
Qed.

(** ** Two defects *)
Lemma split_segment a : 47 ∉ a -> split 47 (a ++ bstr "/../") = [a; bstr ".."; []].
Proof. intros Ha. by rewrite split_app. Qed.

(** A name that is an ordinary segment: not empty, no separator, no dots, no volume, URL or [^]. *)
Definition plain_name (a : bytes) : Prop :=
  a <> [] /\ a <> bstr "." /\ a <> bstr ".." /\ Forall (fun b => b <> 47 /\ b <> 92 /\ b <> 58 /\ b <> 94) a.

Lemma plain_name_not_in a b : plain_name a -> b = 47 \/ b = 92 \/ b = 58 -> b ∉ a.
Proof.
  intros (_ & _ & _ & Hf) Hb Hin. rewrite Forall_forall in Hf. specialize (Hf b Hin). lia.
Qed.

Lemma find_sub_not_in c s needle : c ∉ s -> find_sub (c :: needle) s = None.
Proof.
  induction s as [|x s IH]; intros Hc; cbn [find_sub]; unfold starts_with.
  - by rewrite bool_decide_eq_false_2.
  - apply not_elem_of_cons in Hc as [Hx Hc]. rewrite bool_decide_eq_false_2 by (cbn; congruence).
    by rewrite IH.
Qed.

(** A path that starts with a plain name and has no colon has no root. *)
Lemma plain_root a rest :
  plain_name a -> 58 ∉ rest -> get_encoded_root_length (a ++ rest) = 0.
Proof.
  intros Ha Hr. pose proof (plain_name_not_in a 58 Ha ltac:(lia)) as Hc.
  assert (58 ∉ a ++ rest) as Hcol by (rewrite elem_of_app; tauto).
  destruct Ha as (Hne & _ & _ & Hf). destruct a as [|x a]; [done|]. apply Forall_cons in Hf as [Hx _].
  unfold get_encoded_root_length. cbn [app length Nat.eqb byte_at nth] in *.
  rewrite !(proj2 (Z.eqb_neq x _)) by lia. cbn [orb andb].
  assert ((nth 0 (a ++ rest) 0 =? 58) = false) as Hy.
  { apply Z.eqb_neq. destruct (a ++ rest) as [|y r]; [done|]. intros E. cbn in E. subst y.
    apply Hcol. right. by left. }
  unfold byte_at. cbn [nth]. rewrite Hy, !andb_false_r. cbn [andb].
  change URL_SCHEME_SEPARATOR with (bstr "://"). by rewrite find_sub_not_in.
Qed.

Lemma replace_dots_none a s : 47 ∉ a -> replace_dot_segments (a ++ s) = a ++ replace_dot_segments s.
Proof.
  induction a as [|b a IH]; [done|]. intros [Hb Ha]%not_elem_of_cons. cbn [app].
  assert (replace_dot_segments (b :: a ++ s) = b :: replace_dot_segments (a ++ s)) as ->.
  { cbn [replace_dot_segments]. repeat case_match; congruence. }
  by rewrite IH.
Qed.

Lemma push_plain cs a : plain_name a -> push_component cs a = cs ++ [a].
Proof.
  intros (H1 & H2 & H3 & _). unfold push_component.
  by rewrite (bool_decide_eq_false_2 _ H1), (bool_decide_eq_false_2 _ H2), (bool_decide_eq_false_2 _ H3).
Qed.

(** Normalization turns a relative path into the root of the disk: for every plain name [a],
    [normalize_path] of the relative path [a/../] is [/], because the separator at its end is put
    back on the empty result. *)
Theorem normalize_path_parent_is_root (a : bytes) :
  plain_name a ->
  path_is_absolute (a ++ bstr "/../") = false /\ normalize_path (a ++ bstr "/../") = Some (bstr "/").
Proof.
  intros Ha. set (path := a ++ bstr "/../").
  assert (forall b, b = 47 \/ b = 92 \/ b = 58 -> b ∉ a) as Hn by (intros; by apply plain_name_not_in).
  assert (get_encoded_root_length path = 0) as Hroot.
  { apply plain_root; [done|]. rewrite !not_elem_of_cons. split_and!; try done. apply not_elem_of_nil. }
  split; [unfold path_is_absolute; by rewrite Hroot|].
  assert (normalize_slashes path = path) as Hs.
  { apply normalize_slashes_no_backslash. unfold path. rewrite elem_of_app, !elem_of_cons.
    intros [?|[?|[?|[?|[?|?%not_elem_of_nil]]]]]; try done. by apply (Hn 92); [lia|]. }
  assert (split 47 path = [a; bstr ".."; []]) as Hsplit by (apply split_segment, Hn; lia).
  assert (has_relative_path_segment path = true) as Hrel.
  { apply relative_segment_decided. left. rewrite Hsplit. by right; left; right. }
  assert (replace_dot_segments path = path) as Hrep by (unfold path; rewrite replace_dots_none; [done|apply Hn; lia]).
  assert (strip_prefix (bstr "./") path = None) as Hstrip.
  { unfold strip_prefix. destruct (starts_with (bstr "./") path) eqn:E; [|done]. exfalso.
    apply starts_with_spec in E as [r E]. subst path. destruct Ha as (H1 & H2 & _).
    destruct a as [|x [|y a]]; [done| |]; injection E; intros; subst; [done|].
    apply (Hn 47); [lia|]. right. by left. }
  unfold normalize_path. rewrite Hs. unfold simple_normalize_path.
  rewrite Hrel, Hrep, Hstrip. cbn [negb default from_option id].
  rewrite bool_decide_eq_true_2 by done. cbn [negb andb].
  unfold get_normalized_absolute_path. change (negb (bool_decide ((@nil Z) = []))) with false.
  rewrite andb_false_r.
  rewrite Hs. unfold get_normalized_path_components_from_combined, get_root_length. rewrite Hroot.
  cbn [Z.ltb Z.compare Z.to_nat take]. rewrite normalized_loop_spec by lia.
  rewrite drop_0, Hsplit. cbn [fold_left]. change (take (Z.to_nat 0) path) with (@nil Z). rewrite (push_plain [[]] a) by done.
  change (push_component (push_component ([[]] ++ [a]) [46; 46]) []) with
    (push_component ([[]] ++ [a]) [46; 46]).
  assert (push_component ([[]] ++ [a]) [46; 46] = [[]]) as ->.
  { unfold push_component. destruct Ha as (H1 & H2 & H3 & _). cbn.
    by rewrite (bool_decide_eq_false_2 (Some a = _)) by congruence. }
  cbn [mbind option_bind get_path_from_path_components join]. cbn. unfold has_trailing_directory_separator, path.
  by rewrite last_app.
Qed.

Lemma normalize_path_parent_is_root_witness : normalize_path (bstr "src/../") = Some (bstr "/").
Proof.
  apply (normalize_path_parent_is_root (bstr "src")).
  split_and!; [discriminate..|]. repeat constructor; discriminate.
Defined.

(** [get_any_extension_from_path] panics when an extension is as long as the end of the path that
    starts inside a character: for the first extension of the list that begins with a dot, a path
    whose byte at that distance from the end is not a boundary makes the slice panic. *)
Theorem extension_inside_character (path extension : bytes) (extensions : list bytes) (ignore_case : bool) :
  has_trailing_directory_separator path = false ->
  starts_with (bstr ".") extension = true ->
  (length extension <= length path)%nat ->
  is_char_boundary path (length path - length extension) = false ->
  get_any_extension_from_path path (extension :: extensions) ignore_case = None.
Proof.
  intros Ht Hd Hl Hb. unfold get_any_extension_from_path, remove_trailing_directory_separator.
  rewrite bool_decide_eq_false_2, Ht by done. cbn [find_extension]. rewrite Hd.
  rewrite (proj2 (Nat.leb_le _ _)) by done. unfold slice. rewrite Hb, andb_false_r. done.
Qed.

Lemma extension_inside_character_witness :
  valid_utf8 (utf8_encode 233 ++ bstr "a")
  /\ get_any_extension_from_path (utf8_encode 233 ++ bstr "a") [bstr ".x"] false = None.
Proof.
  split; [exists [233; 97]; split; [repeat constructor|reflexivity]|].
  apply extension_inside_character; try reflexivity. cbn. lia.
Defined.
