(* ===== verification/PathRel.v ===== *)
(** * PathRel: relative paths and normal forms

    A relative path leads from its directory to its target, and normalizing a path twice is normalizing
    it once, for the paths below the root of a disk. *)
From S2P Require Import Prelude Text Chars Numerals Trivia Strs Path PathThm.

(** ** Reduced components *)

(** A segment that [reduce_path_components] keeps below a root. *)
Definition normal_segment (s : bytes) : Prop :=
  s <> [] /\ s <> bstr "." /\ s <> bstr ".." /\ 47 ∉ s /\ 92 ∉ s.

Lemma reduce_normal cs s : normal_segment s -> reduce_step cs s = cs ++ [s].
Proof.
  intros (H1 & H2 & H3 & _). unfold reduce_step.
  by rewrite (bool_decide_eq_false_2 _ H1), (bool_decide_eq_false_2 _ H2), (bool_decide_eq_false_2 _ H3).
Qed.

Lemma reduce_normals segments cs :
  Forall normal_segment segments -> fold_left reduce_step segments cs = cs ++ segments.
Proof.
  intros Hf. revert cs. induction Hf as [|s segments Hs Hf IH]; intros cs; cbn; [by rewrite app_nil_r|].
  rewrite reduce_normal by done. rewrite IH, <- app_assoc. done.
Qed.

(** One step up removes the last segment. *)
Lemma reduce_up r cs s :
  s <> bstr ".." -> reduce_step (r :: cs ++ [s]) (bstr "..") = r :: cs.
Proof.
  intros Hs. unfold reduce_step. change (bool_decide (bstr ".." = []) || bool_decide (bstr ".." = bstr ".")) with false.
  change (bool_decide (bstr ".." = bstr "..")) with true. cbn [andb].
  rewrite app_comm_cons, last_snoc. rewrite (bool_decide_eq_false_2 (Some s = _)) by congruence.
  rewrite removelast_last. cbn [app length]. rewrite length_app. cbn [length].
  by rewrite (proj2 (Nat.ltb_lt _ _)) by lia.
Qed.

Lemma reduce_ups r cs up :
  Forall (fun s => s <> bstr "..") up ->
  fold_left reduce_step (repeat (bstr "..") (length up)) (r :: cs ++ up) = r :: cs.
Proof.
  induction up as [|s up IH] using rev_ind; intros Hf; [by rewrite app_nil_r|].
  apply Forall_app in Hf as [Hf Hs]. apply Forall_cons in Hs as [Hs _].
  rewrite length_app, Nat.add_1_r. cbn [repeat fold_left].
  rewrite app_assoc, reduce_up by done. by apply IH.
Qed.

(** Below a root that is not empty, only normal segments are left. *)
Lemma reduce_rooted r segments cs :
  r <> [] -> Forall (fun s => 47 ∉ s /\ 92 ∉ s) segments -> Forall normal_segment cs ->
  exists cs', fold_left reduce_step segments (r :: cs) = r :: cs' /\ Forall normal_segment cs'.
Proof.
  intros Hr Hs. revert cs. induction Hs as [|s segments [Hn Hn'] Hs IH]; intros cs Hc; [by exists cs|]. cbn [fold_left].
  destruct (decide (s = [])) as [-> |H1]; [by apply IH|].
  destruct (decide (s = bstr ".")) as [-> |H2]; [by apply IH|].
  destruct (decide (s = bstr "..")) as [-> |H3].
  - destruct cs as [|x cs] using rev_ind; [|clear IHcs].
    + assert (reduce_step [r] (bstr "..") = [r]) as ->; [|by apply IH].
      unfold reduce_step. cbn. by rewrite (bool_decide_eq_false_2 (Some r = _)) by congruence.
    + apply Forall_app in Hc as [Hc Hx]. apply Forall_cons in Hx as [Hx _].
      rewrite reduce_up by apply Hx. by apply IH.
  - rewrite reduce_normal by by split_and!. apply (IH (cs ++ [s])). apply Forall_app. split; [done|].
    by apply Forall_singleton; split_and!.
Qed.

(** Splitting after a separator, or at the start. *)
Definition slash_ended (x : bytes) : Prop := x = [] \/ exists g, x = g ++ [47].

Lemma reduce_split_app x s cs :
  slash_ended x ->
  fold_left reduce_step (split 47 (x ++ s)) cs
  = fold_left reduce_step (split 47 s) (fold_left reduce_step (split 47 x) cs).
Proof.
  intros [-> |[g ->]]; [done|]. rewrite <- app_assoc. cbn [app].
  rewrite !split_app_parts, !fold_left_app. done.
Qed.

Lemma reduce_slash x cs :
  fold_left reduce_step (split 47 (x ++ [47])) cs = fold_left reduce_step (split 47 x) cs.
Proof. rewrite split_app_parts, fold_left_app. done. Qed.

Lemma split_incl d s : Forall (fun part => forall b, b ∈ part -> b ∈ s) (split d s).
Proof.
  unfold split. induction s as [|c s IH]; cbn [split_by]; [by apply Forall_singleton|].
  assert (forall part : list Z, (forall b, b ∈ part -> b ∈ s) -> forall b, b ∈ part -> b ∈ c :: s) as Hs.
  { intros part Hp b Hb. apply elem_of_cons. auto. }
  destruct (d =? c).
  - constructor; [by intros b Hb%not_elem_of_nil|]. eapply Forall_impl; [exact IH|apply Hs].
  - destruct (split_by_cons (Z.eqb d) s) as (p & ps & E). rewrite E in *.
    apply Forall_cons in IH as [Hp Hps]. constructor; [|eapply Forall_impl; [exact Hps|apply Hs]].
    intros b. rewrite !elem_of_cons. intros [|]; auto.
Qed.

(** The segments of a path with slashes only. *)
Lemma slash_segments f : 92 ∉ f -> Forall (fun s => 47 ∉ s /\ 92 ∉ s) (split 47 f).
Proof.
  intros Hf. apply Forall_and. split; [apply split_parts|].
  eapply Forall_impl; [apply split_incl|]. intros s Hs Hin. by apply Hf, Hs.
Qed.

Lemma parent_segments n : Forall (fun s => 47 ∉ s /\ 92 ∉ s) (repeat (bstr "..") n).
Proof.
  induction n as [|n IH]; cbn [repeat]; constructor; [|done].
  by split; rewrite !not_elem_of_cons; split_and!; try apply not_elem_of_nil.
Qed.

Lemma join_not_elem (d : Z) sep parts :
  d ∉ sep -> Forall (fun part => d ∉ part) parts -> d ∉ join sep parts.
Proof.
  intros Hs Hp. induction Hp as [|part parts Hd Hp IH]; [apply not_elem_of_nil|].
  destruct parts as [|part' parts]; cbn [join] in *; [done|]. by rewrite !not_elem_of_app.
Qed.

(** ** Paths of a disk *)
Definition disk_root (r : bytes) : Prop :=
  r = bstr "/" \/ exists v, is_volume_character v = true /\ r = [v; 58; 47].

(** A path below a root, with slashes only. *)
Definition below (r p f : bytes) : Prop :=
  disk_root r /\ p = r ++ f /\ head f <> Some 47 /\ 92 ∉ f.

Lemma volume_range v : is_volume_character v = true -> 65 <= v <= 122 /\ v <> 92 /\ v <> 94.
Proof.
  unfold is_volume_character, is_ascii_alphabetic, is_ascii_uppercase, is_ascii_lowercase.
  rewrite orb_true_iff, !andb_true_iff, !Z.leb_le. lia.
Qed.

Lemma disk_root_length r f :
  disk_root r -> head f <> Some 47 -> get_encoded_root_length (r ++ f) = Z.of_nat (length r).
Proof.
  intros [-> |(v & Hv & ->)] Hf; unfold get_encoded_root_length.
  - cbn. destruct f as [|b f]; [done|]. cbn. destruct (Z.eqb_spec b 47) as [-> |]; [done|done].
  - apply volume_range in Hv as Hr. cbn. rewrite !(proj2 (Z.eqb_neq v _)) by lia. by rewrite Hv.
Qed.

Lemma below_root r p f : below r p f -> get_encoded_root_length p = Z.of_nat (length r) /\ get_root_length p = length r.
Proof.
  intros (Hr & -> & Hh & _). pose proof (disk_root_length r f Hr Hh) as He. split; [done|].
  unfold get_root_length. rewrite He. rewrite (proj2 (Z.ltb_ge _ _)) by lia. apply Nat2Z.id.
Qed.

Lemma below_slashes r p f : below r p f -> 92 ∉ p.
Proof.
  intros (Hr & -> & _ & Hf). rewrite elem_of_app. intros [Hin|]; [|done].
  destruct Hr as [-> |(v & Hv & ->)].
  - by apply list_elem_of_singleton in Hin.
  - apply volume_range in Hv. rewrite !elem_of_cons in Hin. destruct Hin as [|[|[|Hin]]]; try lia.
    by apply not_elem_of_nil in Hin.
Qed.

Lemma disk_root_facts r : disk_root r -> r <> [] /\ slash_ended r /\ has_trailing_directory_separator r = true.
Proof.
  intros [-> |(v & _ & ->)]; (split; [done|]); (split; [right|done]); [by exists []|by exists [v; 58]].
Qed.

(** A path below a root replaces the current directory. *)
Lemma combine_rooted cd r p f : below r p f -> combine_paths cd [p] = p.
Proof.
  intros Hb. destruct (below_root _ _ _ Hb) as [_ Hroot]. pose proof (below_slashes _ _ _ Hb) as Hs.
  destruct Hb as (Hr & Hp & _). unfold combine_paths. cbn [fold_left]. unfold combine_step.
  rewrite (normalize_slashes_no_backslash p), Hroot by done.
  assert (p <> [] /\ length r <> 0%nat) as [Hne Hl] by (subst p; destruct Hr as [-> |(v & _ & ->)]; done).
  rewrite (bool_decide_eq_false_2 _ Hne), (proj2 (Nat.eqb_neq _ _) Hl). by rewrite orb_true_r.
Qed.

Lemma below_components cd r p f :
  below r p f ->
  reduce_path_components (get_path_components p cd) = fold_left reduce_step (split 47 f) [r].
Proof.
  intros Hb. pose proof Hb as (Hr & Hp & _). unfold get_path_components.
  rewrite (combine_rooted cd r p f) by done. subst p.
  destruct (below_root _ _ _ Hb) as [_ ->]. unfold path_components.
  rewrite take_app_length, drop_app_length. unfold reduce_path_components. apply fold_last_empty.
Qed.

(** The path of a relative path from a directory. *)
Lemma combine_relative r p f rel :
  below r p f -> rel <> [] -> 92 ∉ rel -> get_root_length rel = 0%nat -> head rel <> Some 47 ->
  exists x, combine_paths p [rel] = r ++ x ++ rel /\ slash_ended x /\ head (x ++ rel) <> Some 47
    /\ fold_left reduce_step (split 47 x) [r] = fold_left reduce_step (split 47 f) [r].
Proof.
  intros Hb Hne Hrel Hroot Hh. pose proof Hb as (Hr & Hp & Hf & Hs).
  pose proof (disk_root_facts r Hr) as (Hrn & _ & Hrt).
  assert (combine_paths p [rel]
    = (if has_trailing_directory_separator p then p else p ++ [DIRECTORY_SEPARATOR]) ++ rel) as ->.
  { unfold combine_paths. cbn [fold_left]. rewrite (normalize_slashes_no_backslash p) by by eapply below_slashes.
    unfold combine_step. rewrite bool_decide_eq_false_2 by done.
    rewrite normalize_slashes_no_backslash, Hroot by done. cbn [Nat.eqb negb orb].
    rewrite orb_false_r, bool_decide_eq_false_2; [done|]. subst p. by destruct r. }
  subst p. destruct f as [|b f' _] using rev_ind.
  - rewrite app_nil_r, Hrt. exists []. split_and!; [done|by left|done|done].
  - assert (has_trailing_directory_separator (r ++ f' ++ [b]) = is_any_directory_separator b) as ->.
    { unfold has_trailing_directory_separator. by rewrite app_assoc, last_snoc. }
    assert (b <> 92) as Hb92 by (intros ->; apply Hs, elem_of_app; right; by apply list_elem_of_singleton).
    assert (forall y, head ((f' ++ [b]) ++ y) <> Some 47) as Hhead.
    { intros y. destruct f' as [|c f']; cbn in *; done. }
    unfold is_any_directory_separator. rewrite (proj2 (Z.eqb_neq b 92)), orb_false_r by done.
    destruct (Z.eqb_spec b 47) as [-> |Hb47].
    + exists (f' ++ [47]). rewrite <- app_assoc. split_and!; [done|right; by exists f'|apply Hhead|done].
    + exists ((f' ++ [b]) ++ [47]). rewrite <- !app_assoc. split_and!.
      * done.
      * right. exists (f' ++ [b]). by rewrite <- app_assoc.
      * rewrite (app_assoc f'). apply Hhead.
      * by rewrite (app_assoc f'), reduce_slash.
Qed.

Lemma rootless_head rel : get_root_length rel = 0%nat -> head rel <> Some 47.
Proof.
  destruct rel as [|b rel]; [done|]. intros Hr [= ->]. revert Hr.
  unfold get_root_length, get_encoded_root_length. change (byte_at (47 :: rel) 0) with 47.
  cbn [length Nat.eqb Z.eqb Pos.eqb orb].
  destruct (_ || _); [done|]. destruct (find_sub _ _) as [n|].
  - rewrite (proj2 (Z.ltb_ge _ _)) by lia. lia.
  - rewrite (proj2 (Z.ltb_ge _ _)) by lia. lia.
Qed.

(** A path without a root continues the components of the path it is taken from. *)
Lemma relative_components r p f rel :
  below r p f -> 92 ∉ rel -> get_root_length rel = 0%nat ->
  reduce_path_components (get_path_components rel p)
  = fold_left reduce_step (split 47 rel) (fold_left reduce_step (split 47 f) [r]).
Proof.
  intros Hb Hrel Hroot. destruct (decide (rel = [])) as [-> |Hne].
  - pose proof (below_components [] r p f Hb) as <-. unfold get_path_components.
    rewrite (combine_rooted [] r p f Hb).
    assert (combine_paths p [[]] = p) as ->; [|done].
    unfold combine_paths. cbn. by rewrite normalize_slashes_no_backslash by by eapply below_slashes.
  - destruct (combine_relative r p f rel) as (x & Hx & Hxs & Hh & <-); [by auto using rootless_head..|].
    unfold get_path_components. rewrite Hx.
    assert (get_root_length (r ++ x ++ rel) = length r) as ->.
    { unfold get_root_length. rewrite disk_root_length by (done || apply Hb).
      rewrite (proj2 (Z.ltb_ge _ _)) by lia. apply Nat2Z.id. }
    unfold path_components. rewrite take_app_length, drop_app_length. unfold reduce_path_components.
    rewrite fold_last_empty. by apply reduce_split_app.
Qed.

(** ** Normalization of rooted paths *)
Lemma normal_segments_good segments tail :
  Forall normal_segment segments -> tail = [] \/ tail = [[]] -> ~ bad_segments false (segments ++ tail).
Proof.
  intros Hf Ht. induction Hf as [|s segments (H1 & H2 & H3 & _) Hf IH]; cbn [app bad_segments].
  - destruct Ht as [-> | ->]; cbn; [tauto|]. intros [[?|?]|[(_ & _ & ?)|?]]; done.
  - intros [[?|?]|[(_ & ? & _)|?]]; done.
Qed.

(** A root followed by normal segments, with or without a separator at the end. *)
Lemma rooted_no_relative_segment r segments (trailing : bool) :
  disk_root r -> Forall normal_segment segments ->
  has_relative_path_segment
    (r ++ join (bstr "/") segments ++ (if trailing && negb (bool_decide (segments = [])) then bstr "/" else [])) = false.
Proof.
  intros Hr Hf. apply not_true_is_false. intros Hrel%relative_segment_decided%bad_segments_spec.
  assert (exists g, r = g ++ [47] /\ split 47 g = [g] /\ ~ dots g) as (g & -> & Hg & Hd).
  { destruct Hr as [-> |(v & Hv & ->)]; [exists []|exists [v; 58]]; (split; [done|]).
    - by split; [|intros [?|?]].
    - split; [|by intros [?|?]]. apply split_none. rewrite !not_elem_of_cons.
      apply volume_range in Hv. split_and!; [lia|done|apply not_elem_of_nil]. }
  rewrite <- app_assoc in Hrel. cbn [app] in Hrel. rewrite split_app_parts, Hg in Hrel. cbn [app bad_segments] in Hrel.
  destruct Hrel as [?|[[? _]|Hrel]]; [done|done|]. revert Hrel.
  assert (Forall (fun part => 47 ∉ part) segments) as H47.
  { eapply Forall_impl; [exact Hf|]. by intros s (_ & _ & _ & ? & _). }
  case_bool_decide as Hs.
  - subst. rewrite andb_false_r. cbn. intros [[?|?]|[(_ & _ & ?)|?]]; done.
  - rewrite andb_true_r. change (bstr "/") with [47]. destruct trailing.
    + rewrite split_app_parts, split_join by done. apply (normal_segments_good segments [[]]); [done|by right].
    + rewrite app_nil_r, split_join by done. rewrite <- (app_nil_r segments).
      apply (normal_segments_good segments []); [done|by left].
Qed.

Lemma normalize_unchanged path :
  92 ∉ path -> has_relative_path_segment path = false -> normalize_path path = Some path.
Proof.
  intros Hs Hr. unfold normalize_path. rewrite normalize_slashes_no_backslash by done.
  unfold simple_normalize_path. by rewrite Hr.
Qed.

Lemma replace_dot_segments_incl path b : b ∈ replace_dot_segments path -> b ∈ path.
Proof.
  revert path. fix IH 1. intros [|x path]; [done|].
  assert (b ∈ x :: replace_dot_segments path -> b ∈ x :: path) as Hd.
  { rewrite !elem_of_cons. intros [|Hb]; [by left|right; by apply IH]. }
  destruct (decide (x = 47)) as [-> |Hx].
  - destruct path as [|y path]; [exact Hd|]. destruct (decide (y = 46)) as [-> |Hy].
    + destruct path as [|z path]; [exact Hd|]. destruct (decide (z = 47)) as [-> |Hz].
      * cbn [replace_dot_segments]. rewrite !elem_of_cons. intros [|Hb]; [by left|].
        right. right. right. by apply IH.
      * assert (replace_dot_segments (47 :: 46 :: z :: path) = 47 :: replace_dot_segments (46 :: z :: path)) as ->;
          [|exact Hd]. cbn [replace_dot_segments]. repeat case_match; congruence.
    + assert (replace_dot_segments (47 :: y :: path) = 47 :: replace_dot_segments (y :: path)) as ->;
        [|exact Hd]. cbn [replace_dot_segments]. repeat case_match; congruence.
  - assert (replace_dot_segments (x :: path) = x :: replace_dot_segments path) as ->; [|exact Hd].
    cbn [replace_dot_segments]. repeat case_match; congruence.
Qed.

(** What the shortcut returns has no relative segment. *)
Lemma simple_normalize_result path q :
  92 ∉ path -> simple_normalize_path path = Some q -> 92 ∉ q /\ has_relative_path_segment q = false.
Proof.
  intros Hs. unfold simple_normalize_path. destruct (has_relative_path_segment path) eqn:E; cbn [negb];
    [|by intros [= <-]].
  destruct (_ && _ && _) eqn:E2; [|done]. intros [= <-]. bool_to_prop.
  split; [|done]. intros Hin. apply Hs. apply replace_dot_segments_incl.
  revert Hin. destruct (strip_prefix _ _) as [t|] eqn:Et; cbn [default from_option id]; [|done].
  unfold strip_prefix in Et. destruct (starts_with _ _); [|done]. injection Et as <-. intros Hin.
  rewrite <- (take_drop (length (bstr "./")) (replace_dot_segments path)). apply elem_of_app. by right.
Qed.

Lemma join_last_normal segments :
  Forall normal_segment segments -> segments <> [] ->
  join (bstr "/") segments <> []
  /\ forall r, has_trailing_directory_separator (r ++ join (bstr "/") segments) = false.
Proof.
  intros Hf Hne. assert (exists l b, join (bstr "/") segments = l ++ [b] /\ b <> 47 /\ b <> 92) as (l & b & E & H1 & H2).
  { induction Hf as [|s segments (Hs & _ & _ & H47 & H92) Hf IH]; [done|].
    destruct segments as [|s' segments]; cbn [join].
    - destruct s as [|b l _] using rev_ind; [done|]. exists l, b. split; [done|].
      split; intros ->; [apply H47|apply H92]; apply elem_of_app; right; by apply list_elem_of_singleton.
    - destruct IH as (l & b & E & Hb); [done|]. cbn [join] in E. rewrite E. exists (s ++ bstr "/" ++ l), b.
      by rewrite <- !app_assoc. }
  rewrite E. split; [by destruct l|]. intros r. unfold has_trailing_directory_separator.
  rewrite app_assoc, last_snoc. unfold is_any_directory_separator.
  by rewrite (proj2 (Z.eqb_neq b _)) by done; rewrite (proj2 (Z.eqb_neq b _)) by done.
Qed.

(** The absolute path of a path below a root. *)
Lemma absolute_rooted r path f :
  below r path f ->
  exists segments, Forall normal_segment segments
    /\ get_normalized_absolute_path path [] = Some (r ++ join (bstr "/") segments).
Proof.
  intros Hb. destruct (below_root _ _ _ Hb) as [_ Hroot]. pose proof Hb as (Hr & Hp & _ & Hf).
  pose proof (disk_root_facts r Hr) as (Hne & _ & Ht).
  destruct (reduce_rooted r (split 47 f) [] Hne (slash_segments f Hf) ltac:(constructor)) as (segments & E & Hs).
  exists segments. split; [done|]. unfold get_normalized_absolute_path.
  rewrite Hroot. assert (length r <> 0%nat) as Hl by (by destruct r).
  rewrite (proj2 (Nat.eqb_neq _ _) Hl). cbn [andb].
  rewrite normalize_slashes_no_backslash by by eapply below_slashes.
  rewrite normalized_components_reduce, Hroot. subst path. unfold path_components.
  rewrite take_app_length, drop_app_length. unfold reduce_path_components. rewrite fold_last_empty, E.
  cbn [mbind option_bind get_path_from_path_components]. rewrite (bool_decide_eq_false_2 _ Hne).
  assert (ensure_trailing_directory_separator r = r) as He by (unfold ensure_trailing_directory_separator; by rewrite Ht).
  rewrite He. destruct (decide (segments = [])) as [-> |Hn].
  - cbn [join]. by rewrite !app_nil_r, Nat.ltb_irrefl, Nat.eqb_refl, (proj2 (Nat.eqb_neq _ _) Hl), He.
  - destruct (join_last_normal segments Hs Hn) as [Hj Hj']. rewrite (proj2 (Nat.ltb_lt _ _)).
    + unfold remove_trailing_directory_separator. by rewrite Hj'.
    + rewrite length_app. destruct (join _ segments); [done|cbn; lia].
Qed.

(** Normalizing a path below the root of a disk gives a path without relative segments, that
    normalizing again leaves as it is. *)
Theorem normalize_path_idempotent (r path f : bytes) :
  below r path f ->
  exists q, normalize_path path = Some q /\ has_relative_path_segment q = false /\ normalize_path q = Some q.
Proof.
  intros Hb. pose proof (below_slashes _ _ _ Hb) as Hs. pose proof Hb as (Hr & _).
  assert (exists q, normalize_path path = Some q /\ 92 ∉ q /\ has_relative_path_segment q = false) as (q & H1 & H2 & H3);
    [|exists q; by auto using normalize_unchanged].
  unfold normalize_path. rewrite normalize_slashes_no_backslash by done.
  destruct (simple_normalize_path path) as [q|] eqn:Eq.
  { exists q. split; [done|]. by apply simple_normalize_result in Eq. }
  destruct (absolute_rooted r path f Hb) as (segments & Hf & ->). cbn [mbind option_bind].
  set (trailing := _ && _). set (result := r ++ join (bstr "/") segments).
  exists (r ++ join (bstr "/") segments ++ (if trailing && negb (bool_decide (segments = [])) then bstr "/" else [])).
  split; [|split; [|by apply rooted_no_relative_segment]].
  - rewrite app_assoc. f_equal. fold result. destruct trailing eqn:Et; [|by rewrite app_nil_r]. cbn [andb].
    subst trailing. apply andb_true_iff in Et as [_ Et]. case_bool_decide as Hn; [|done].
    subst result segments. cbn [join] in Et. rewrite app_nil_r in Et.
    by rewrite (proj2 (proj2 (disk_root_facts r Hr))) in Et.
  - rewrite !not_elem_of_app. split_and!.
    + intros Hin. apply (below_slashes r (r ++ []) []); [split_and!; try done; apply not_elem_of_nil|].
      by rewrite app_nil_r.
    + apply join_not_elem; [by intros ?%list_elem_of_singleton|].
      eapply Forall_impl; [exact Hf|]. by intros s (_ & _ & _ & _ & ?).
    + destruct (trailing && _); [by intros ?%list_elem_of_singleton|apply not_elem_of_nil].
Qed.

Lemma normalize_path_idempotent_witness :
  exists q, normalize_path (bstr "c:/a/.././b/") = Some q /\ has_relative_path_segment q = false
    /\ normalize_path q = Some q.
Proof.
  apply (normalize_path_idempotent (bstr "c:/") (bstr "c:/a/.././b/") (bstr "a/.././b/")).
  split_and!; [right; by exists 99|done|done|].
  by rewrite !not_elem_of_cons; split_and!; try apply not_elem_of_nil.
Defined.

(** ** Relative paths *)
Section relative.
Context `{CaseMapping}.

(** Names of one file: the same, or the same in lower case where case does not matter. *)
Definition same_name (options : ComparePathsOptions) (a b : bytes) : Prop :=
  if use_case_sensitive_file_names options then a = b else to_file_name_lower_case a = to_file_name_lower_case b.

Lemma same_name_refl options a : same_name options a a.
Proof. unfold same_name. by destruct (use_case_sensitive_file_names options). Qed.

Lemma equal_strings_same options a b : equal_strings options a b = true <-> same_name options a b.
Proof.
  unfold equal_strings, compare_strings, same_name. destruct (use_case_sensitive_file_names options).
  all: rewrite <- str_compare_eq; by destruct (str_compare _ _).
Qed.

(** The common components are prefixes of the same names. *)
Lemma common_components_prefix options a b :
  exists c c' a' b', a = c ++ a' /\ b = c' ++ b' /\ Forall2 (same_name options) c c'
    /\ common_components options false a b = length c.
Proof.
  revert b. induction a as [|x a IH]; intros b; [exists [], [], [], b; by split_and!|].
  destruct b as [|y b]; [exists [], [], (x :: a), []; by split_and!|]. cbn [common_components].
  destruct (equal_strings options x y) eqn:Hxy.
  - destruct (IH b) as (c & c' & a' & b' & -> & -> & Hc & ->). exists (x :: c), (y :: c'), a', b'. split_and!; try done.
    constructor; [by apply equal_strings_same|done].
  - exists [], [], (x :: a), (y :: b). by split_and!.
Qed.

(** C19. A relative path leads to its target: for two paths without backslashes below the same root of a disk, the path that
    [get_relative_path_from_directory] gives, when it does not itself look like a rooted path, taken from the directory, has
    the names of the target as its normalized components: exactly its names when case matters, and when it does not, names
    that differ from them in case at most. *)
Theorem relative_path_resolves (options : ComparePathsOptions) (r from to f t : bytes) :
  below r from f -> below r to t ->
  exists rel, get_relative_path_from_directory from to options = Some rel
    /\ (get_root_length rel = 0%nat ->
        exists names target, get_normalized_path_components rel from = Some names
          /\ get_normalized_path_components to [] = Some target /\ Forall2 (same_name options) names target).
Proof.
  intros Hf Ht. destruct (below_root _ _ _ Hf) as [_ Rf], (below_root _ _ _ Ht) as [_ Rt].
  pose proof (disk_root_facts r (proj1 Hf)) as (Hr & Hrs & _).
  unfold get_relative_path_from_directory. rewrite Rf, Rt, Bool.eqb_reflx. eexists. split; [reflexivity|].
  unfold get_normalized_path_components. rewrite !normalized_components_reduce.
  change (path_components (combine_paths ?c [?p]) _) with (get_path_components p c). unfold get_path_components_relative_to. 
  rewrite (below_components (current_directory options) r from f Hf), (below_components (current_directory options) r to t Ht),
    (below_components [] r to t Ht).
  destruct (reduce_rooted r (split 47 f) [] Hr (slash_segments f ltac:(apply Hf)) ltac:(constructor)) as (a & Ea & Ha).
  destruct (reduce_rooted r (split 47 t) [] Hr (slash_segments t ltac:(apply Ht)) ltac:(constructor)) as (b & Eb & Hb).
  rewrite Ea, Eb. cbn [common_components].
  unfold eq_ignore_ascii_case. rewrite bool_decide_eq_true_2 by done.
  destruct (common_components_prefix options a b) as (c & c' & a' & b' & -> & -> & Hsame & ->).
  cbn [Nat.eqb length drop]. rewrite length_app, (Forall2_length _ _ _ Hsame), drop_app_length.
  rewrite <- (Forall2_length _ _ _ Hsame).
  replace (S (length c + length a') - S (length c))%nat with (length a') by lia.
  apply Forall_app in Ha as [_ Ha']. apply Forall_app in Hb as [Hc Hb'].
  cbn [get_path_from_path_components]. rewrite (bool_decide_eq_true_2 ([] = [])) by done. cbn [app].
  set (rest := repeat (bstr "..") (length a') ++ b'). intros Hroot. do 2 eexists.
  assert (Forall (fun s => 47 ∉ s /\ 92 ∉ s) rest) as Hrest.
  { apply Forall_app. split; [|by eapply Forall_impl; [exact Hb'|]; intros s (_ & _ & _ & ?)].
    apply parent_segments. }
  apply Forall_and in Hrest as [H47 H92].
  rewrite (relative_components r from f); [|done|apply join_not_elem; [by intros ?%list_elem_of_singleton|done]|done].
  assert (forall cs, fold_left reduce_step (split 47 (join (bstr "/") rest)) cs = fold_left reduce_step rest cs) as Hj.
  { intros cs. destruct (decide (rest = [])) as [-> |Hne]; [done|].
    change (bstr "/") with [47]. by rewrite split_join. }
  assert (Forall (fun s => s <> bstr "..") a') as Hup.
  { eapply Forall_impl; [exact Ha'|]. intros s (_ & _ & Hs & _). exact Hs. }
  rewrite Hj, Ea. subst rest. rewrite fold_left_app, reduce_ups, reduce_normals by done.
  do 2 (split; [reflexivity|]). constructor; [apply same_name_refl|]. apply Forall2_app; [done|]. apply Forall2_same_length_lookup_2; [done|].
  intros i x y Hx Hy. rewrite Hx in Hy. injection Hy as ->. apply same_name_refl.
Qed.
End relative.

(** An instance of the case mapping for the examples: ASCII only. *)
#[local] Instance ascii_case : CaseMapping := { to_lowercase := fun ch => [ch] }.

Lemma relative_path_resolves_witness :
  below (bstr "/") (bstr "/a/b") (bstr "a/b") /\
  exists rel, get_relative_path_from_directory (bstr "/a/b") (bstr "/A/c/d") (mkOptions false []) = Some rel
    /\ rel = bstr "../c/d"
    /\ exists names target, get_normalized_path_components rel (bstr "/a/b") = Some names
        /\ get_normalized_path_components (bstr "/A/c/d") [] = Some target /\ Forall2 (same_name (mkOptions false [])) names target.
Proof.
  assert (below (bstr "/") (bstr "/a/b") (bstr "a/b")) as H1.
  { split_and!; [by left|done|done|]. by rewrite !not_elem_of_cons; split_and!; try apply not_elem_of_nil. }
  split; [exact H1|].
  destruct (relative_path_resolves (mkOptions false []) (bstr "/") (bstr "/a/b") (bstr "/A/c/d") (bstr "a/b") (bstr "A/c/d"))
    as (rel & Hrel & Hres); [exact H1| |].
  - split_and!; [by left|done|done|]. by rewrite !not_elem_of_cons; split_and!; try apply not_elem_of_nil.
  - exists rel. split; [exact Hrel|]. assert (rel = bstr "../c/d") as Erel.
    { vm_compute in Hrel. injection Hrel as <-. reflexivity. }
    split; [exact Erel|]. apply Hres. rewrite Erel. reflexivity.
Defined.
