(* ===== verification/PrinterUtils.v ===== *)
(** * PrinterUtils: names, comments and positions for the printer (ts-printer/src/utilities.rs)

    Texts are bytes with positions in them; [None] is the panic of a slice that is not at a character. *)
From S2P Require Import Prelude Text Chars SyntaxKind Keywords Monad Trivia LineMap Path.

(** ** Names *)
Definition mixing_binary_operators_requires_parentheses (a b : Kind) : bool :=
  if Kind_eqb a Kind.QuestionQuestionToken then
    Kind_eqb b Kind.AmpersandAmpersandToken || Kind_eqb b Kind.BarBarToken
  else if Kind_eqb b Kind.QuestionQuestionToken then
    Kind_eqb a Kind.AmpersandAmpersandToken || Kind_eqb a Kind.BarBarToken
  else false.

Definition has_leading_hash (text : bytes) : bool := bool_decide (head text = Some (chr "#")).
Definition remove_leading_hash (text : bytes) : bytes := if has_leading_hash text then tail text else text.
Definition ensure_leading_hash (text : bytes) : bytes := if has_leading_hash text then text else chr "#" :: text.

Definition format_generated_name (private_name : bool) (prefix base suffix : bytes) : bytes :=
  let name := remove_leading_hash prefix ++ remove_leading_hash base ++ remove_leading_hash suffix in
  if private_name then ensure_leading_hash name else name.

Definition is_ascii_word_character (ch : char) : bool := is_ascii_alphabetic ch || is_ascii_digit ch || (ch =? chr "_").

(** The loop over the bytes of the name: [rest] is what is left of it at [pos]. *)
Fixpoint module_name_loop (name rest : bytes) (builder : bytes) (start pos : nat) : option (bytes * nat * nat) :=
  match rest with
  | [] => Some (builder, start, pos)
  | ch :: rest =>
      if (pos =? 0)%nat && is_ascii_digit ch then module_name_loop name rest (builder ++ [chr "_"]) start (S pos)
      else if negb (is_ascii_word_character ch) then
        part ← (if (start <? pos)%nat then slice name start pos else Some []);
        module_name_loop name rest (builder ++ part ++ [chr "_"]) (S pos) (S pos)
      else module_name_loop name rest builder start (S pos)
  end.

Definition make_identifier_from_module_name (module_name : bytes) : option bytes :=
  let module_name := get_base_file_name module_name in
  '(builder, start, pos) ← module_name_loop module_name module_name [] 0 0;
  part ← (if (start <? pos)%nat then slice module_name start pos else Some []);
  Some (builder ++ part).

(** ** Comments *)

(** The matchers advance a position, or leave it: [Some None] is a failure to match. *)
Fixpoint skip_white_space_loop (fuel : nat) (text : bytes) (pos : nat) : option nat :=
  match fuel with
  | O => None
  | S fuel =>
      if (pos <? length text)%nat then
        rest ← slice_from text pos;
        '(ch, size) ← next_char rest;
        if is_white_space_single_line ch then skip_white_space_loop fuel text (pos + size) else Some pos
      else Some pos
  end.
Definition skip_white_space_single_line (text : bytes) (pos : nat) : option nat :=
  skip_white_space_loop (S (length text)) text pos.

Definition match_white_space_single_line (text : bytes) (pos : nat) : option (option nat) :=
  pos' ← skip_white_space_single_line text pos;
  Some (if (pos' =? pos)%nat then None else Some pos').

Definition match_rune (text : bytes) (pos : nat) (expected : char) : option (option nat) :=
  rest ← slice_from text pos;
  match next_char rest with
  | None => Some None
  | Some (ch, size) => Some (if ch =? expected then Some (pos + size)%nat else None)
  end.

(** [expected] is given by its characters. *)
Fixpoint match_string (text : bytes) (pos : nat) (expected : list char) : option (option nat) :=
  match expected with
  | [] => Some (Some pos)
  | expected_rune :: expected =>
      if (length text <=? pos)%nat then Some None
      else
        r ← match_rune text pos expected_rune;
        match r with
        | None => Some None
        | Some pos => match_string text pos expected
        end
  end.

Fixpoint quoted_loop (fuel : nat) (text : bytes) (quote_char : char) (pos : nat) : option (option nat) :=
  match fuel with
  | O => None
  | S fuel =>
      if (pos <? length text)%nat then
        rest ← slice_from text pos;
        '(ch, size) ← next_char rest;
        if ch =? quote_char then Some (Some (pos + size)%nat) else quoted_loop fuel text quote_char (pos + size)
      else Some None
  end.

Definition match_quoted_string (text : bytes) (pos : nat) : option (option nat) :=
  r ← match_rune text pos 39;
  match r with
  | Some pos => quoted_loop (S (length text)) text 39 pos
  | None =>
      r ← match_rune text pos 34;
      match r with
      | Some pos => quoted_loop (S (length text)) text 34 pos
      | None => Some None
      end
  end.

(** A matcher that has to succeed, for [if !match_x(..) { return false; }]. *)
Definition expect (m : option (option nat)) (k : nat -> option bool) : option bool :=
  r ← m; match r with None => Some false | Some pos => k pos end.

(** The first of the names that matches. *)
Fixpoint match_any (text : bytes) (pos : nat) (names : list (list char)) : option (option nat) :=
  match names with
  | [] => Some None
  | name :: names =>
      r ← match_string text pos name;
      match r with Some pos => Some (Some pos) | None => match_any text pos names end
  end.

(** [ = "..."] and the end of the tag. *)
Definition match_attribute (text : bytes) (pos : nat) (k : nat -> option bool) : option bool :=
  pos ← skip_white_space_single_line text pos;
  expect (match_rune text pos (chr "=")) (fun pos =>
    pos ← skip_white_space_single_line text pos;
    expect (match_quoted_string text pos) k).

Definition contains_tag_end (text : bytes) (pos : nat) : option bool :=
  rest ← slice_from text pos;
  Some (match find_sub (bstr "/>") rest with Some _ => true | None => false end).

Definition recognize_tag (text : bytes) (pos : nat) : option bool :=
  reference ← match_string text pos (bstr "reference");
  match reference with
  | Some pos =>
      expect (match_white_space_single_line text pos) (fun pos =>
        expect (match_any text pos [bstr "path"; bstr "types"; bstr "lib"; bstr "no-default-lib"]) (fun pos =>
          match_attribute text pos (contains_tag_end text)))
  | None =>
      amd_dependency ← match_string text pos (bstr "amd-dependency");
      match amd_dependency with
      | Some pos =>
          expect (match_white_space_single_line text pos) (fun pos =>
            expect (match_string text pos (bstr "path")) (fun pos => match_attribute text pos (contains_tag_end text)))
      | None =>
          expect (match_string text pos (bstr "amd-module")) (fun pos =>
            pos ← skip_white_space_single_line text pos; contains_tag_end text pos)
      end
  end.

(** [text.as_bytes()\[comment.pos() + n\]] *)
Definition comment_byte (text : bytes) (c : CommentRange) (n : nat) : option byte := text !! (Z.to_nat (range_pos c) + n)%nat.
Definition comment_len (c : CommentRange) : Z := range_end c - range_pos c.

Definition is_recognized_triple_slash_comment (text : bytes) (c : CommentRange) : option bool :=
  if Kind_eqb (comment_kind c) Kind.SingleLineCommentTrivia && (2 <? comment_len c) then
    b1 ← comment_byte text c 1;
    if negb (b1 =? chr "/") then Some false
    else
      b2 ← comment_byte text c 2;
      if negb (b2 =? chr "/") then Some false
      else
        text ← slice text (Z.to_nat (range_pos c + 3)) (Z.to_nat (range_end c));
        pos ← skip_white_space_single_line text 0;
        expect (match_rune text pos (chr "<")) (recognize_tag text)
  else Some false.

Definition is_pinned_comment (text : bytes) (c : CommentRange) : option bool :=
  if Kind_eqb (comment_kind c) Kind.MultiLineCommentTrivia && (5 <? comment_len c) then
    b ← comment_byte text c 2; Some (b =? chr "!")
  else Some false.

Definition is_jsdoc_like_text (text : bytes) (c : CommentRange) : option bool :=
  if Kind_eqb (comment_kind c) Kind.MultiLineCommentTrivia && (5 <? comment_len c) then
    b2 ← comment_byte text c 2;
    if b2 =? chr "*" then b3 ← comment_byte text c 3; Some (negb (b3 =? chr "/")) else Some false
  else Some false.

(** ** Indentation *)
Fixpoint calculate_indent_loop (fuel : nat) (text : bytes) (pos end_ : nat) (current_line_indent : Z) : option Z :=
  match fuel with
  | O => None
  | S fuel =>
      if (pos <? end_)%nat then
        rest ← slice_from text pos;
        '(ch, size) ← next_char rest;
        if negb (is_white_space_single_line ch) then Some current_line_indent
        else
          let indent_size := 4 in
          let indent :=
            if ch =? 9 then current_line_indent + (indent_size - current_line_indent mod indent_size)
            else current_line_indent + 1 in
          calculate_indent_loop fuel text (pos + size) end_ indent
      else Some current_line_indent
  end.
Definition calculate_indent (text : bytes) (pos end_ : nat) : option Z :=
  calculate_indent_loop (S (length text)) text pos end_ 0.

(** ** LineCharacterCache *)
Record LineCharacterCache := mkCache {
  cache_line_map : list Z;
  cache_text : bytes;
  cached_line : nat;
  cached_pos : nat;
  cached_char : Z;
  has_cached : bool;
}.

Definition new_line_character_cache (line_map : list Z) (text : bytes) : LineCharacterCache :=
  mkCache line_map text 0 0 0 false.

(** [core::utf16_len(&self.text\[i..j\])] *)
Definition utf16_len_of (text : bytes) (i j : nat) : option Z := s ← slice text i j; utf16len s.

Definition get_line_and_character (pos : nat) : M LineCharacterCache (nat * Z) :=
  c ← get;
  let line := compute_line_of_position (cache_line_map c) pos in
  character ← unwrap
    (if has_cached c && (line =? cached_line c)%nat && (cached_pos c <=? pos)%nat then
       n ← utf16_len_of (cache_text c) (cached_pos c) pos; Some (as_i32 (cached_char c + n))
     else
       start ← cache_line_map c !! line;
       utf16_len_of (cache_text c) (Z.to_nat start) pos);
  modify (fun c => mkCache (cache_line_map c) (cache_text c) line pos character true) ;;
  mret (line, character).

(** * The line and character cache agrees with the uncached lookup *)

(** A series of lookups through one cache. *)
Fixpoint lookups (ps : list nat) : M LineCharacterCache (list (nat * Z)) :=
  match ps with
  | [] => mret []
  | p :: ps => r ← get_line_and_character p; rs ← lookups ps; mret (r :: rs)
  end.

Section cache.
Context (cs : list char) (Hcs : Forall (fun ch => is_scalar ch = true) cs).
Context (Hlen : Z.of_nat (length (utf8 cs)) < 2 ^ 31).

Lemma prefix_position_inj a b c d : a ++ b = c ++ d -> pos_nat a = pos_nat c -> a = c.
Proof.
  intros H Hp. destruct (prefix_of_position cs a b c d H ltac:(lia)) as [m ->].
  rewrite pos_nat_app in Hp. rewrite (pos_nat_zero cs m) by lia. by rewrite app_nil_r.
Qed.

(** [c] ends in line [line], which starts after [a], [m] being what is between. *)
Definition on_line (c : list char) (line : nat) (a m : list char) : Prop :=
  c = a ++ m /\ line_map cs !! line = Some (Z.of_nat (pos_nat a)).

(** The cached position is right. *)
Definition cache_ok (s : LineCharacterCache) : Prop :=
  cache_line_map s = line_map cs /\ cache_text s = utf8 cs
  /\ (has_cached s = true -> exists a m d, cs = a ++ m ++ d /\ on_line (a ++ m) (cached_line s) a m
      /\ cached_pos s = pos_nat (a ++ m) /\ cached_char s = sum_utf16 m).

Lemma sum_utf16_len m : sum_utf16 m <= Z.of_nat (length (utf8 m)).
Proof.
  induction m as [|ch m IH]; [done|]. cbn [sum_utf16]. rewrite length_utf8_cons. unfold len_utf16, len_utf8.
  repeat case_if; bool_to_prop; lia.
Qed.

Lemma utf16_len_of_middle a m d :
  cs = a ++ m ++ d -> utf16_len_of (utf8 cs) (pos_nat a) (pos_nat (a ++ m)) = Some (sum_utf16 m).
Proof.
  intros H. unfold utf16_len_of. rewrite (slice_middle cs Hcs Hlen a m d H). cbn [mbind option_bind].
  assert (Forall (fun ch => is_scalar ch = true) m) as Hm.
  { rewrite H in Hcs. apply Forall_app in Hcs as [_ H']. by apply Forall_app in H' as [? _]. }
  apply utf16len_spec; [done|]. rewrite H, !utf8_app, !length_app in Hlen. lia.
Qed.

(** What the uncached lookup gives. *)
Lemma uncached c d a m :
  cs = c ++ d -> on_line c (compute_line_of_position (line_map cs) (pos_nat c)) a m ->
  get_ecma_line_and_utf16_character_of_position (utf8 cs) (line_map cs) (pos_nat c)
  = Some (compute_line_of_position (line_map cs) (pos_nat c), sum_utf16 m).
Proof.
  intros Hc [-> Hline]. rewrite <- app_assoc in Hc.
  assert (pos_nat (a ++ m) <= length (utf8 cs))%nat as Hle.
  { rewrite Hc, app_assoc, utf8_app, length_app. unfold pos_nat. lia. }
  unfold get_ecma_line_and_utf16_character_of_position, line_start_at. rewrite Hline. cbn [from_option id].
  rewrite (Z.max_r 0 _), Nat2Z.id, (Nat.min_l _ _ Hle), (slice_middle cs Hcs Hlen a m d Hc) by lia.
  cbn [mbind option_bind]. rewrite chars_utf8; [done|].
  rewrite Hc in Hcs. apply Forall_app in Hcs as [_ H']. by apply Forall_app in H' as [? _].
Qed.

Lemma wp_get_line_and_character c d s :
  cs = c ++ d -> cache_ok s ->
  wp (get_line_and_character (pos_nat c))
     (fun r s' => cache_ok s'
        /\ get_ecma_line_and_utf16_character_of_position (utf8 cs) (line_map cs) (pos_nat c) = Some r) s.
Proof.
  intros Hc (Hmap & Htext & Hcached). destruct (line_of_position cs Hcs Hlen c d Hc) as (a & m & Ham & Hline & _).
  pose proof (uncached c d a m Hc (conj Ham Hline)) as Hun. subst c. rewrite <- app_assoc in Hc.
  unfold get_line_and_character. apply wp_bind, wp_get. rewrite Hmap, Htext.
  set (line := compute_line_of_position _ _) in *. apply wp_bind, wp_unwrap. exists (sum_utf16 m). split.
  - destruct (has_cached s && _ && _) eqn:E; [|by rewrite Hline; cbn [mbind option_bind]; rewrite Nat2Z.id; apply (utf16_len_of_middle a m d)].
    rewrite !andb_true_iff, Nat.eqb_eq, Nat.leb_le in E. destruct E as [[E1 E2] E3].
    destruct (Hcached E1) as (a' & m' & d' & Hc' & [_ Hline'] & Hp & Hch). rewrite E2 in Hline.
    assert (a' = a) as ->.
    { apply (prefix_position_inj a' (m' ++ d') a (m ++ d)); [congruence|]. rewrite Hline' in Hline. injection Hline. lia. }
    rewrite Hp in *. destruct (prefix_of_position cs (a ++ m') d' (a ++ m) d) as [x Hx]; [by rewrite <- !app_assoc, <- Hc'|done|].
    rewrite <- app_assoc in Hx. apply app_inv_head in Hx as ->.
    rewrite (app_assoc a m' x), (utf16_len_of_middle (a ++ m') x d) by (rewrite Hc, <- !app_assoc; done).
    cbn [mbind option_bind]. rewrite Hch, <- sum_utf16_app, as_i32_id; [done|].
    pose proof (sum_utf16_nonneg (m' ++ x)). pose proof (sum_utf16_len (m' ++ x)).
    rewrite Hc, !utf8_app, !length_app in Hlen. rewrite utf8_app, length_app in *. lia.
  - apply wp_bind, wp_modify, wp_ret. split; [|done]. split; [done|]. split; [done|]. intros _. by exists a, m, d.
Qed.

Lemma wp_lookups (ps : list (list char)) s :
  Forall (fun c => exists d, cs = c ++ d) ps -> cache_ok s ->
  wp (lookups (pos_nat <$> ps))
     (fun rs _ => (fun c => get_ecma_line_and_utf16_character_of_position (utf8 cs) (line_map cs) (pos_nat c)) <$> ps
                  = Some <$> rs) s.
Proof.
  intros Hps. revert s. induction Hps as [|c ps [d Hc] Hps IH]; intros s Hs; [by apply wp_ret|].
  cbn [lookups fmap list_fmap]. apply wp_bind. eapply wp_mono; [exact (wp_get_line_and_character c d s Hc Hs)|].
  intros r s' [Hs' Hr]. apply wp_bind. eapply wp_mono; [by apply IH|]. intros rs s1 Hrs. apply wp_ret.
  cbn [fmap list_fmap] in *. by rewrite Hr, Hrs.
Qed.

(** C36. The printer's position cache is transparent: whatever the order of the lookups (forwards in a line,
    where only the text since the last position is counted, backwards, or on another line), a series of
    lookups at character boundaries of a text under 2 GiB never panics and gives for each position the line
    and the UTF-16 character that the scanner computes for it without a cache. *)
Theorem cached_positions (ps : list (list char)) :
  Forall (fun c => exists d, cs = c ++ d) ps ->
  exists rs s,
    lookups (pos_nat <$> ps) (new_line_character_cache (line_map cs) (utf8 cs)) = Ok (rs, s)
    /\ (fun c => get_ecma_line_and_utf16_character_of_position (utf8 cs) (line_map cs) (pos_nat c)) <$> ps
       = Some <$> rs.
Proof.
  intros Hps. apply wp_run, wp_lookups; done.
Qed.
End cache.

Lemma cached_positions_witness :
  let cs := [chr "a"; 128512; chr "b"; 10; chr "c"] in
  let ps := [[chr "a"]; [chr "a"; 128512; chr "b"]; []; cs] in
  exists rs s,
    lookups (pos_nat <$> ps) (new_line_character_cache (line_map cs) (utf8 cs)) = Ok (rs, s)
    /\ (fun c => get_ecma_line_and_utf16_character_of_position (utf8 cs) (line_map cs) (pos_nat c)) <$> ps
       = Some <$> rs.
Proof.
  intros cs ps. apply (cached_positions cs); [by repeat constructor|done|].
  repeat constructor; by eexists.
Defined.

Example cached_lookups :
  let cs := [chr "a"; 128512; chr "b"; 10; chr "c"] in
  match lookups [1; 6; 0; 8]%nat (new_line_character_cache (line_map cs) (utf8 cs)) with
  | Ok (rs, _) => rs = [(0%nat, 1); (0%nat, 4); (0%nat, 0); (1%nat, 1)]
  | _ => False
  end.
Proof. reflexivity. Qed.
