(* ===== verification/SourceMap.v ===== *)
(** * SourceMap: encoding and decoding source maps (ts-sourcemap/src/decoder.rs, generator.rs)

    [MappingsDecoder] reads the mappings of a source map, [Generator] writes them. All numbers are [i32];
    an operation that overflows panics in a build with overflow checks and wraps around in one
    without, as the parameter [overflow_checks] says. The positions the generator keeps in
    [last_generated_line] to [last_name_index] and in [pending_generated_line] to
    [pending_name_index] are records [Mapping]. *)
From stdpp Require Import gmap.
From S2P Require Import Prelude Text Chars Monad Numerals Strs Path.

(** ** [i32] arithmetic *)
Definition in_i32 (x : Z) : bool := (- 2 ^ 31 <=? x) && (x <? 2 ^ 31).

Section arithmetic.
Context (overflow_checks : bool) {S : Type}.

Definition checked_i32 (x : Z) : M S Z :=
  if overflow_checks && negb (in_i32 x) then panic else mret (as_i32 x).
Definition add_i32 (x y : Z) : M S Z := checked_i32 (x + y).
Definition sub_i32 (x y : Z) : M S Z := checked_i32 (x - y).
Definition neg_i32 (x : Z) : M S Z := checked_i32 (- x).
(** [x << n]: the amount is checked, the bits shifted out are lost. *)
Definition shl_i32 (x n : Z) : M S Z :=
  if overflow_checks && negb ((0 <=? n) && (n <? 32)) then panic
  else mret (as_i32 (Z.shiftl x (n mod 32))).
End arithmetic.

(** ** Mappings *)
Record Mapping := mkMapping {
  generated_line : Z;
  generated_character : Z;
  source_index : Z;
  source_line : Z;
  source_character : Z;
  name_index : Z;
}.

#[global] Instance Mapping_eq_dec : EqDecision Mapping.
Proof. solve_decision. Defined.

Definition MISSING_SOURCE : Z := -1.
Definition MISSING_NAME : Z := -1.
Definition MISSING_LINE_OR_COLUMN : Z := -1.
Definition MISSING_UTF16_COLUMN : Z := -1.

Definition equals (m other : Mapping) : bool := bool_decide (m = other).

Definition is_source_mapping (m : Mapping) : bool :=
  negb (source_index m =? MISSING_SOURCE) && negb (source_line m =? MISSING_LINE_OR_COLUMN)
  && negb (source_character m =? MISSING_UTF16_COLUMN).

(** The record updates of the fields that are assigned. *)
Definition set_line (x : Z) (m : Mapping) : Mapping :=
  mkMapping x (generated_character m) (source_index m) (source_line m) (source_character m) (name_index m).
Definition set_character (x : Z) (m : Mapping) : Mapping :=
  mkMapping (generated_line m) x (source_index m) (source_line m) (source_character m) (name_index m).
Definition set_source_index (x : Z) (m : Mapping) : Mapping :=
  mkMapping (generated_line m) (generated_character m) x (source_line m) (source_character m) (name_index m).
Definition set_source_line (x : Z) (m : Mapping) : Mapping :=
  mkMapping (generated_line m) (generated_character m) (source_index m) x (source_character m) (name_index m).
Definition set_source_character (x : Z) (m : Mapping) : Mapping :=
  mkMapping (generated_line m) (generated_character m) (source_index m) (source_line m) x (name_index m).
Definition set_name_index (x : Z) (m : Mapping) : Mapping :=
  mkMapping (generated_line m) (generated_character m) (source_index m) (source_line m) (source_character m) x.

(** ** The decoder *)

(** The errors of the decoder, by their messages. *)
Inductive DecodeMappingsError : Type :=
  | Past_the_mapping_string
  | Invalid_character_in_VLQ
  | Invalid_generatedCharacter_found
  | Invalid_sourceIndex_found
  | No_entries_after_sourceIndex
  | Invalid_sourceLine_found
  | No_entries_after_sourceLine
  | Invalid_sourceCharacter_found
  | Invalid_nameIndex_found
  | Entries_after_nameIndex.

(** [at_] holds the fields [generated_line] to [name_index]. *)
Record MappingsDecoder := mkDecoder {
  mappings : bytes;
  done_ : bool;
  decoder_pos : nat;
  at_ : Mapping;
  error : option DecodeMappingsError;
}.

Definition decode_mappings (mappings : bytes) : MappingsDecoder :=
  mkDecoder mappings false 0 (mkMapping 0 0 0 0 0 0) None.

Definition base64_format_decode (ch : byte) : Z :=
  if (65 <=? ch) && (ch <=? 90) then ch - 65
  else if (97 <=? ch) && (ch <=? 122) then ch - 97 + 26
  else if (48 <=? ch) && (ch <=? 57) then ch - 48 + 52
  else if ch =? chr "+" then 62
  else if ch =? chr "/" then 63
  else -1.

Section decoder.
Context (overflow_checks : bool).

Definition advance_decoder : M MappingsDecoder unit :=
  modify (fun d => mkDecoder (mappings d) (done_ d) (decoder_pos d + 1) (at_ d) (error d)).
Definition set_at (f : Mapping -> Mapping) : M MappingsDecoder unit :=
  modify (fun d => mkDecoder (mappings d) (done_ d) (decoder_pos d) (f (at_ d)) (error d)).
Definition set_error (e : DecodeMappingsError) : M MappingsDecoder unit :=
  modify (fun d => mkDecoder (mappings d) (done_ d) (decoder_pos d) (at_ d) (Some e)).
Definition stop_iterating : M MappingsDecoder (option Mapping) :=
  modify (fun d => mkDecoder (mappings d) true (decoder_pos d) (at_ d) (error d)) ;; mret None.
Definition set_error_and_stop_iterating (e : DecodeMappingsError) : M MappingsDecoder (option Mapping) :=
  set_error e ;; stop_iterating.
Definition has_reported_error (d : MappingsDecoder) : bool := bool_decide (error d <> None).

Definition is_source_mapping_segment_end (d : MappingsDecoder) : bool :=
  match mappings d !! decoder_pos d with
  | None => true
  | Some ch => (ch =? chr ",") || (ch =? chr ";")
  end.

Definition capture_mapping (d : MappingsDecoder) (has_source has_name : bool) : Mapping :=
  mkMapping (generated_line (at_ d)) (generated_character (at_ d))
    (if has_source then source_index (at_ d) else MISSING_SOURCE)
    (if has_source then source_line (at_ d) else MISSING_LINE_OR_COLUMN)
    (if has_source then source_character (at_ d) else MISSING_UTF16_COLUMN)
    (if has_name then name_index (at_ d) else MISSING_NAME).

(** The loop of [base64_vlq_format_decode] over [shift_count] and [value]. *)
Definition vlq_step (l : Z * Z) : M MappingsDecoder (Z * Z + Z) :=
  let '(shift_count, value) := l in
  d ← get;
  match mappings d !! decoder_pos d with
  | None => set_error Past_the_mapping_string ;; mret (inr (-1))
  | Some ch =>
      let current_byte := base64_format_decode ch in
      advance_decoder ;;
      if current_byte =? -1 then set_error Invalid_character_in_VLQ ;; mret (inr (-1))
      else
        bits ← shl_i32 overflow_checks (Z.land current_byte 31) shift_count;
        let value := Z.lor value bits in
        shift_count ← add_i32 overflow_checks shift_count 5;
        if negb (Z.land current_byte 32 =? 0) then mret (inl (shift_count, value))
        else if Z.land value 1 =? 0 then mret (inr (Z.shiftr value 1))
        else inr <$> neg_i32 overflow_checks (Z.shiftr value 1)
  end.
Definition base64_vlq_format_decode : M MappingsDecoder Z :=
  d ← get; iter (S (length (mappings d))) vlq_step (0, 0).

(** One field of a segment: [self.field += self.base64_vlq_format_decode()] and the tests after it. *)
Definition decode_field (field : Mapping -> Z) (set : Z -> Mapping -> Mapping) (e : DecodeMappingsError)
    (k : M MappingsDecoder (option Mapping)) : M MappingsDecoder (option Mapping) :=
  v ← base64_vlq_format_decode;
  cur ← gets (fun d => field (at_ d));
  x ← add_i32 overflow_checks cur v;
  set_at (set x) ;;
  d ← get;
  if has_reported_error d then stop_iterating
  else if x <? 0 then set_error_and_stop_iterating e
  else k.

(** [if self.is_source_mapping_segment_end() { a } else { b }] *)
Definition if_segment_end (a b : M MappingsDecoder (option Mapping)) : M MappingsDecoder (option Mapping) :=
  d ← get; if is_source_mapping_segment_end d then a else b.

Definition captured (has_source has_name : bool) : M MappingsDecoder (option Mapping) :=
  d ← get; mret (Some (capture_mapping d has_source has_name)).

Definition next_segment : M MappingsDecoder (option Mapping) :=
  decode_field generated_character set_character Invalid_generatedCharacter_found
    (if_segment_end (captured false false)
      (decode_field source_index set_source_index Invalid_sourceIndex_found
        (if_segment_end (set_error_and_stop_iterating No_entries_after_sourceIndex)
          (decode_field source_line set_source_line Invalid_sourceLine_found
            (if_segment_end (set_error_and_stop_iterating No_entries_after_sourceLine)
              (decode_field source_character set_source_character Invalid_sourceCharacter_found
                (if_segment_end (captured true false)
                  (decode_field name_index set_name_index Invalid_nameIndex_found
                    (if_segment_end (captured true true)
                      (set_error_and_stop_iterating Entries_after_nameIndex)))))))))).

Definition next_step (_ : unit) : M MappingsDecoder (unit + option Mapping) :=
  d ← get;
  if done_ d then inr <$> stop_iterating
  else match mappings d !! decoder_pos d with
  | None => inr <$> stop_iterating
  | Some ch =>
      if ch =? chr ";" then
        line ← add_i32 overflow_checks (generated_line (at_ d)) 1;
        set_at (fun m => set_character 0 (set_line line m)) ;;
        advance_decoder ;; mret (inl tt)
      else if ch =? chr "," then advance_decoder ;; mret (inl tt)
      else inr <$> next_segment
  end.
Definition next_mapping : M MappingsDecoder (option Mapping) :=
  d ← get; iter (S (length (mappings d))) next_step tt.

(** The iterator run to its end: every mapping up to the first [None]. *)
Definition collect_step (acc : list Mapping) : M MappingsDecoder (list Mapping + list Mapping) :=
  m ← next_mapping;
  mret (match m with Some m => inl (acc ++ [m]) | None => inr acc end).
Definition collect_mappings : M MappingsDecoder (list Mapping) :=
  d ← get; iter (S (length (mappings d))) collect_step [].
End decoder.

(** ** The generator *)
Definition SOURCE_INDEX_NOT_SET : Z := -1.
Definition NAME_INDEX_NOT_SET : Z := -1.
Definition NOT_SET : Z := -1.
Definition NOT_SET_UTF16 : Z := -1.

Record Generator := mkGenerator {
  path_options : ComparePathsOptions;
  file : bytes;
  source_root : bytes;
  sources_directory_path : bytes;
  sources : list bytes;
  source_map_sources : list bytes;
  source_to_source_index_map : gmap bytes Z;
  sources_content : list (option bytes);
  names : list bytes;
  name_to_name_index_map : gmap bytes Z;
  generator_mappings : bytes;
  last_ : Mapping;
  has_last : bool;
  pending : Mapping;
  has_pending : bool;
  has_pending_source : bool;
  has_pending_name : bool;
}.

Record RawSourceMap := mkRaw {
  raw_version : Z;
  raw_file : bytes;
  raw_source_root : bytes;
  raw_sources : list bytes;
  raw_names : list bytes;
  raw_mappings : bytes;
  raw_sources_content : list (option bytes);
}.

Definition new_generator (file source_root sources_directory_path : bytes) (options : ComparePathsOptions)
    : Generator :=
  mkGenerator options file source_root sources_directory_path [] [] ∅ [] [] ∅ []
    (mkMapping 0 0 0 0 0 0) false (mkMapping 0 0 0 0 0 0) false false false.

(** [Result<(), String>] *)
Inductive GeneratorError : Type :=
  | sourceIndex_is_out_of_range
  | nameIndex_is_out_of_range
  | generatedLine_cannot_backtrack
  | generatedCharacter_cannot_be_negative
  | sourceLine_cannot_be_negative
  | sourceCharacter_cannot_be_negative.
Abbreviation Result := (option GeneratorError) (only parsing).

Definition base64_format_encode (value : Z) : option char :=
  if (0 <=? value) && (value <=? 25) then Some (65 + value)
  else if (26 <=? value) && (value <=? 51) then Some (97 + (value - 26))
  else if (52 <=? value) && (value <=? 61) then Some (48 + (value - 52))
  else if value =? 62 then Some (chr "+")
  else if value =? 63 then Some (chr "/")
  else None.

Section generator.
Context (overflow_checks : bool) `{CaseMapping}.

Definition set_generator_mappings (x : bytes) (g : Generator) : Generator :=
  mkGenerator (path_options g) (file g) (source_root g) (sources_directory_path g) (sources g)
    (source_map_sources g) (source_to_source_index_map g) (sources_content g) (names g)
    (name_to_name_index_map g) x (last_ g) (has_last g) (pending g) (has_pending g)
    (has_pending_source g) (has_pending_name g).
Definition set_last (f : Mapping -> Mapping) (g : Generator) : Generator :=
  mkGenerator (path_options g) (file g) (source_root g) (sources_directory_path g) (sources g)
    (source_map_sources g) (source_to_source_index_map g) (sources_content g) (names g)
    (name_to_name_index_map g) (generator_mappings g) (f (last_ g)) (has_last g) (pending g)
    (has_pending g) (has_pending_source g) (has_pending_name g).
Definition set_has_last (g : Generator) : Generator :=
  mkGenerator (path_options g) (file g) (source_root g) (sources_directory_path g) (sources g)
    (source_map_sources g) (source_to_source_index_map g) (sources_content g) (names g)
    (name_to_name_index_map g) (generator_mappings g) (last_ g) true (pending g) (has_pending g)
    (has_pending_source g) (has_pending_name g).
Definition set_pending (f : Mapping -> Mapping) (has has_source has_name : bool) (g : Generator)
    : Generator :=
  mkGenerator (path_options g) (file g) (source_root g) (sources_directory_path g) (sources g)
    (source_map_sources g) (source_to_source_index_map g) (sources_content g) (names g)
    (name_to_name_index_map g) (generator_mappings g) (last_ g) (has_last g) (f (pending g))
    has has_source has_name.

Definition push_source (source file_name : bytes) (index : Z) (g : Generator) : Generator :=
  mkGenerator (path_options g) (file g) (source_root g) (sources_directory_path g)
    (sources g ++ [file_name]) (source_map_sources g ++ [source])
    (<[source := index]> (source_to_source_index_map g)) (sources_content g) (names g)
    (name_to_name_index_map g) (generator_mappings g) (last_ g) (has_last g) (pending g)
    (has_pending g) (has_pending_source g) (has_pending_name g).
Definition add_source (file_name : bytes) : M Generator Z :=
  g ← get;
  let source := get_relative_path_to_directory_or_url (sources_directory_path g) file_name true
                  (path_options g) in
  match source_to_source_index_map g !! source with
  | Some source_index => mret source_index
  | None =>
      let source_index := as_i32 (Z.of_nat (length (source_map_sources g))) in
      modify (push_source source file_name source_index) ;; mret source_index
  end.

(** [while self.sources_content.len() <= index { push(None) }; self.sources_content[index] = content] *)
Definition store_content (content : bytes) (index : nat) (l : list (option bytes)) : list (option bytes) :=
  <[index := Some content]> (l ++ repeat None (S index - length l)).
Definition set_source_content (source_index : Z) (content : bytes) : M Generator Result :=
  g ← get;
  if (source_index <? 0) || (Z.of_nat (length (source_map_sources g)) <=? source_index)
  then mret (Some sourceIndex_is_out_of_range)
  else
    modify (fun g =>
      mkGenerator (path_options g) (file g) (source_root g) (sources_directory_path g) (sources g)
        (source_map_sources g) (source_to_source_index_map g)
        (store_content content (Z.to_nat source_index) (sources_content g)) (names g)
        (name_to_name_index_map g) (generator_mappings g) (last_ g) (has_last g) (pending g)
        (has_pending g) (has_pending_source g) (has_pending_name g)) ;;
    mret None.

Definition push_name (name : bytes) (index : Z) (g : Generator) : Generator :=
  mkGenerator (path_options g) (file g) (source_root g) (sources_directory_path g) (sources g)
    (source_map_sources g) (source_to_source_index_map g) (sources_content g) (names g ++ [name])
    (<[name := index]> (name_to_name_index_map g)) (generator_mappings g) (last_ g) (has_last g)
    (pending g) (has_pending g) (has_pending_source g) (has_pending_name g).
Definition add_name (name : bytes) : M Generator Z :=
  g ← get;
  match name_to_name_index_map g !! name with
  | Some name_index => mret name_index
  | None =>
      let name_index := as_i32 (Z.of_nat (length (names g))) in
      modify (push_name name name_index) ;; mret name_index
  end.

Definition is_new_generated_position (g : Generator) (line character : Z) : bool :=
  negb (has_pending g) || negb (generated_line (pending g) =? line)
  || negb (generated_character (pending g) =? character).

Definition is_backtracking_source_position (g : Generator) (index line character : Z) : bool :=
  negb (index =? SOURCE_INDEX_NOT_SET) && negb (line =? NOT_SET) && negb (character =? NOT_SET_UTF16)
  && (source_index (pending g) =? index)
  && ((line <? source_line (pending g))
      || (source_line (pending g) =? line) && (character <? source_character (pending g))).

Definition should_commit_mapping (g : Generator) : bool :=
  has_pending g && (negb (has_last g) || negb (bool_decide (last_ g = pending g))).

Definition append_mapping_char_code (ch : char) : M Generator unit :=
  modify (fun g => set_generator_mappings (generator_mappings g ++ [ch]) g).

Definition vlq_digit_step (in_value : Z) : M Generator (Z + unit) :=
  let current_digit := Z.land in_value 31 in
  let in_value := Z.shiftr in_value 5 in
  let current_digit := if 0 <? in_value then Z.lor current_digit 32 else current_digit in
  ch ← unwrap (base64_format_encode current_digit);
  append_mapping_char_code ch ;;
  mret (if in_value <=? 0 then inr tt else inl in_value).
(** An [i32] has at most seven digits of five bits. *)
Definition append_base64_vlq (in_value : Z) : M Generator unit :=
  in_value ←
    (if in_value <? 0 then
       n ← neg_i32 overflow_checks in_value;
       n ← shl_i32 overflow_checks n 1;
       add_i32 overflow_checks n 1
     else shl_i32 overflow_checks in_value 1);
  iter 7 vlq_digit_step in_value.

Definition line_step (_ : unit) : M Generator (unit + unit) :=
  g ← get;
  if generated_line (last_ g) <? generated_line (pending g) then
    append_mapping_char_code (chr ";") ;;
    line ← add_i32 overflow_checks (generated_line (last_ g)) 1;
    modify (set_last (set_line line)) ;; mret (inl tt)
  else mret (inr tt).

(** [self.append_base64_vlq(self.pending_field - self.last_field); self.last_field = self.pending_field] *)
Definition append_field (field : Mapping -> Z) (set : Z -> Mapping -> Mapping) : M Generator unit :=
  g ← get;
  v ← sub_i32 overflow_checks (field (pending g)) (field (last_ g));
  append_base64_vlq v ;;
  modify (set_last (set (field (pending g)))).

Definition commit_pending_mapping : M Generator unit :=
  g ← get;
  when (should_commit_mapping g)
    ((if generated_line (last_ g) <? generated_line (pending g) then
        iter (S (Z.to_nat (generated_line (pending g) - generated_line (last_ g)))) line_step tt ;;
        modify (set_last (set_character 0))
      else if negb (generated_line (last_ g) =? generated_line (pending g)) then panic
      else when (has_last g) (append_mapping_char_code (chr ","))) ;;
     append_field generated_character set_character ;;
     when (has_pending_source g)
       (append_field source_index set_source_index ;;
        append_field source_line set_source_line ;;
        append_field source_character set_source_character ;;
        when (has_pending_name g) (append_field name_index set_name_index)) ;;
     modify set_has_last).

Definition add_mapping (m : Mapping) : M Generator unit :=
  g ← get;
  when (is_new_generated_position g (generated_line m) (generated_character m)
        || is_backtracking_source_position g (source_index m) (source_line m) (source_character m))
    (commit_pending_mapping ;;
     modify (set_pending (fun p => set_character (generated_character m) (set_line (generated_line m) p))
               true false false)) ;;
  when (is_source_mapping m)
    (modify (fun g => set_pending (fun p =>
         set_source_character (source_character m)
           (set_source_line (source_line m) (set_source_index (source_index m) p)))
       (has_pending g) true (has_pending_name g) g) ;;
     when (negb (name_index m =? NAME_INDEX_NOT_SET))
       (modify (fun g => set_pending (set_name_index (name_index m)) (has_pending g)
          (has_pending_source g) true g))).

Definition add_generated_mapping (line character : Z) : M Generator Result :=
  g ← get;
  if line <? generated_line (pending g) then mret (Some generatedLine_cannot_backtrack)
  else if character <? 0 then mret (Some generatedCharacter_cannot_be_negative)
  else
    add_mapping (mkMapping line character SOURCE_INDEX_NOT_SET NOT_SET NOT_SET_UTF16 NAME_INDEX_NOT_SET) ;;
    mret None.

Definition validate_source_mapping_args (g : Generator) (line character index s_line s_character : Z)
    : Result :=
  if line <? generated_line (pending g) then Some generatedLine_cannot_backtrack
  else if character <? 0 then Some generatedCharacter_cannot_be_negative
  else if (index <? 0) || (Z.of_nat (length (source_map_sources g)) <=? index)
  then Some sourceIndex_is_out_of_range
  else if s_line <? 0 then Some sourceLine_cannot_be_negative
  else if s_character <? 0 then Some sourceCharacter_cannot_be_negative
  else None.

Definition add_source_mapping (line character index s_line s_character : Z) : M Generator Result :=
  g ← get;
  match validate_source_mapping_args g line character index s_line s_character with
  | Some e => mret (Some e)
  | None =>
      add_mapping (mkMapping line character index s_line s_character NAME_INDEX_NOT_SET) ;; mret None
  end.

Definition add_named_source_mapping (line character index s_line s_character name : Z)
    : M Generator Result :=
  g ← get;
  match validate_source_mapping_args g line character index s_line s_character with
  | Some e => mret (Some e)
  | None =>
      if (name <? 0) || (Z.of_nat (length (names g)) <=? name)
      then mret (Some nameIndex_is_out_of_range)
      else add_mapping (mkMapping line character index s_line s_character name) ;; mret None
  end.

Definition raw_source_map : M Generator RawSourceMap :=
  commit_pending_mapping ;;
  g ← get;
  mret (mkRaw 3 (file g) (source_root g) (source_map_sources g) (names g) (generator_mappings g)
          (sources_content g)).
End generator.
