(* ===== verification/SourceMapThm.v ===== *)
(** * SourceMapThm: decoding a generated source map gives the mappings that were added

    A number is written as base 64 digits and read back; so is a segment, and the text the generator
    writes for a list of mappings. The generator is simulated by an abstract machine that keeps the list
    of mappings itself. *)
From stdpp Require Import gmap.
From S2P Require Import Prelude Text Chars Trivia Monad Numerals Strs Path SourceMap.

(** ** Integers *)
Lemma as_i32_in_i32 x : in_i32 x = true -> as_i32 x = x.
Proof.
  unfold in_i32. intros Hx. bool_to_prop. apply as_i32_id. lia.
Qed.

Section runs.
Context (overflow_checks : bool) {St : Type}.

Lemma checked_i32_run x (s : St) : - 2 ^ 31 <= x < 2 ^ 31 -> checked_i32 overflow_checks x s = Ok (x, s).
Proof.
  intros Hx. assert (in_i32 x = true) as E.
  { unfold in_i32. rewrite andb_true_iff, Z.leb_le, Z.ltb_lt. lia. }
  unfold checked_i32. rewrite E, as_i32_in_i32 by done. by rewrite andb_false_r.
Qed.
Lemma add_i32_run x y (s : St) :
  - 2 ^ 31 <= x + y < 2 ^ 31 -> add_i32 overflow_checks x y s = Ok (x + y, s).
Proof. apply checked_i32_run. Qed.
Lemma sub_i32_run x y (s : St) :
  - 2 ^ 31 <= x - y < 2 ^ 31 -> sub_i32 overflow_checks x y s = Ok (x - y, s).
Proof. apply checked_i32_run. Qed.
Lemma neg_i32_run x (s : St) :
  - 2 ^ 31 <= - x < 2 ^ 31 -> neg_i32 overflow_checks x s = Ok (- x, s).
Proof. apply checked_i32_run. Qed.
Lemma shl_i32_run x n (s : St) :
  0 <= n < 32 -> - 2 ^ 31 <= x * 2 ^ n < 2 ^ 31 -> shl_i32 overflow_checks x n s = Ok (x * 2 ^ n, s).
Proof.
  intros Hn Hx. unfold shl_i32. rewrite (proj2 (Z.leb_le 0 n)), (proj2 (Z.ltb_lt n 32)) by lia.
  rewrite andb_false_r, (Z.mod_small n), Z.shiftl_mul_pow2, as_i32_in_i32; [done| |lia|lia].
  unfold in_i32. rewrite andb_true_iff, Z.leb_le, Z.ltb_lt. lia.
Qed.
End runs.

(** Setting bits above a number adds them. *)
Lemma lor_shift a b s : 0 <= s -> 0 <= a < 2 ^ s -> Z.lor a (b * 2 ^ s) = a + b * 2 ^ s.
Proof.
  intros Hs Ha. assert (Z.land a (b * 2 ^ s) = 0) as E.
  { apply Z.bits_inj'. intros i Hi. rewrite Z.land_spec, Z.bits_0.
    destruct (decide (i < s)).
    - rewrite Z.mul_pow2_bits_low by lia. apply andb_false_r.
    - rewrite <- (Z.mod_small a (2 ^ s)), Z.mod_pow2_bits_high by lia. done. }
  rewrite <- Z.lxor_lor, <- Z.add_nocarry_lxor by done. done.
Qed.

Lemma land_mod x n : 0 <= n -> Z.land x (2 ^ n - 1) = x mod 2 ^ n.
Proof. intros Hn. rewrite <- Z.land_ones by done. by rewrite Z.ones_equiv. Qed.

Lemma land_32 b : 0 <= b < 64 -> Z.land b 32 = if b <? 32 then 0 else 32.
Proof.
  intros Hb. assert (forallb (fun i => Z.land (Z.of_nat i) 32 =? if Z.of_nat i <? 32 then 0 else 32) (seq 0 64) = true)
    as H by done.
  rewrite forallb_forall in H. specialize (H (Z.to_nat b)). rewrite Z2Nat.id in H by lia.
  apply Z.eqb_eq, H, in_seq. lia.
Qed.

(** ** Digits *)
Definition separator (ch : byte) : bool := (ch =? chr ",") || (ch =? chr ";").

Lemma base64_digit v :
  0 <= v < 64 ->
  exists ch, base64_format_encode v = Some ch /\ base64_format_decode ch = v /\ separator ch = false.
Proof.
  intros Hv. unfold base64_format_encode, base64_format_decode, separator.
  repeat case_if; try lia; eexists; (split; [reflexivity|]); subst;
    repeat (case_if; bool_to_prop); try lia; split; try lia; try done;
    apply orb_false_iff; rewrite !Z.eqb_neq; lia.
Qed.

(** The digits of a number that is not negative, lowest first, all but the last with bit 32. *)
Fixpoint digits (fuel : nat) (n : Z) : list Z :=
  match fuel with
  | O => []
  | S fuel => if n <? 32 then [n] else (32 + n mod 32) :: digits fuel (n / 32)
  end.
Definition encode_digit (d : Z) : char := default 0 (base64_format_encode d).
(** The sign is the lowest bit. *)
Definition zigzag (v : Z) : Z := if v <? 0 then - v * 2 + 1 else v * 2.
Definition vlq (v : Z) : bytes := map encode_digit (digits 7 (zigzag v)).

Lemma encode_digit_some d : 0 <= d < 64 -> base64_format_encode d = Some (encode_digit d).
Proof. intros Hd. unfold encode_digit. by destruct (base64_digit d Hd) as (ch & -> & _). Qed.
Lemma decode_encode_digit d : 0 <= d < 64 -> base64_format_decode (encode_digit d) = d.
Proof. intros Hd. unfold encode_digit. by destruct (base64_digit d Hd) as (ch & -> & H & _). Qed.
Lemma encode_digit_separator d : 0 <= d < 64 -> separator (encode_digit d) = false.
Proof. intros Hd. unfold encode_digit. by destruct (base64_digit d Hd) as (ch & -> & _ & H). Qed.

Lemma digits_range fuel n : 0 <= n -> Forall (fun d => 0 <= d < 64) (digits fuel n).
Proof.
  revert n. induction fuel as [|fuel IH]; intros n Hn; cbn [digits]; [constructor|].
  case_if; [by apply Forall_singleton; lia|]. pose proof (Z.mod_pos_bound n 32 ltac:(lia)).
  constructor; [lia|]. apply IH, Z.div_pos; lia.
Qed.

Lemma zigzag_range v : - 2 ^ 30 < v < 2 ^ 30 -> 0 <= zigzag v < 2 ^ 31.
Proof. intros Hv. unfold zigzag. case_if; lia. Qed.

Lemma digits_nonempty fuel n : digits (S fuel) n <> [].
Proof. cbn. by destruct (n <? 32). Qed.

Lemma vlq_head v : - 2 ^ 30 < v < 2 ^ 30 -> exists ch r, vlq v = ch :: r /\ separator ch = false.
Proof.
  intros Hv. pose proof (zigzag_range v Hv). unfold vlq.
  pose proof (digits_range 7 (zigzag v) ltac:(lia)) as Hf. pose proof (digits_nonempty 6 (zigzag v)).
  destruct (digits 7 (zigzag v)) as [|d r]; [done|]. apply Forall_cons in Hf as [Hd _].
  exists (encode_digit d), (map encode_digit r). split; [done|]. by apply encode_digit_separator.
Qed.

(** ** Writing a number *)
Section encode.
Context (overflow_checks : bool).

Lemma set_generator_mappings_twice x y g :
  set_generator_mappings x (set_generator_mappings y g) = set_generator_mappings x g.
Proof. done. Qed.

Lemma vlq_digits_run fuel n g :
  (1 <= fuel)%nat -> 0 <= n -> n < 32 ^ Z.of_nat fuel ->
  iter fuel vlq_digit_step n g
  = Ok (tt, set_generator_mappings (generator_mappings g ++ map encode_digit (digits fuel n)) g).
Proof.
  revert n g. induction fuel as [|fuel IH]; intros n g Hfu Hn Hf; [lia|].
  rewrite Nat2Z.inj_succ, Z.pow_succ_r in Hf by lia. cbn [iter digits].
  pose proof (Z.mod_pos_bound n 32 ltac:(lia)) as Hm. pose proof (Z.div_mod n 32 ltac:(lia)) as Hdm.
  assert (Z.land n 31 = n mod 32) as El by apply (land_mod n 5 ltac:(lia)).
  assert (Z.shiftr n 5 = n / 32) as Er by (rewrite Z.shiftr_div_pow2; [done|lia]).
  destruct (Z.ltb_spec n 32).
  - assert (n / 32 = 0) as E0 by (apply Z.div_small; lia). assert (n mod 32 = n) as E1 by (apply Z.mod_small; lia).
    assert (vlq_digit_step n g
      = Ok (inr tt, set_generator_mappings (generator_mappings g ++ [encode_digit n]) g)) as E.
    { unfold vlq_digit_step. rewrite El, Er, E0, E1. cbn [Z.ltb Z.leb Z.compare].
      by rewrite encode_digit_some by lia. }
    by rewrite (run_bind _ _ _ _ _ E).
  - assert (0 < n / 32) as Hp by (apply Z.div_str_pos; lia).
    assert (Z.lor (n mod 32) 32 = 32 + n mod 32) as Eo.
    { change 32 with (1 * 2 ^ 5) at 2. rewrite lor_shift by (change (2 ^ 5) with 32; lia). lia. }
    assert (vlq_digit_step n g
      = Ok (inl (n / 32), set_generator_mappings (generator_mappings g ++ [encode_digit (32 + n mod 32)]) g)) as E.
    { unfold vlq_digit_step. rewrite El, Er, (proj2 (Z.ltb_lt _ _) Hp), (proj2 (Z.leb_gt _ _) Hp), Eo.
      by rewrite encode_digit_some by lia. }
    rewrite (run_bind _ _ _ _ _ E).
    assert (1 <= fuel)%nat by (destruct fuel; [cbn in Hf|]; lia).
    rewrite IH by lia. rewrite set_generator_mappings_twice. cbn [generator_mappings set_generator_mappings map].
    by rewrite <- app_assoc.
Qed.

Lemma append_base64_vlq_run v g :
  - 2 ^ 30 < v < 2 ^ 30 ->
  append_base64_vlq overflow_checks v g
  = Ok (tt, set_generator_mappings (generator_mappings g ++ vlq v) g).
Proof.
  intros Hv. pose proof (zigzag_range v Hv) as Hz. unfold append_base64_vlq.
  assert ((if v <? 0 then
             n ← neg_i32 overflow_checks v; n ← shl_i32 overflow_checks n 1; add_i32 overflow_checks n 1
           else shl_i32 overflow_checks v 1) g = Ok (zigzag v, g)) as E.
  { unfold zigzag. destruct (Z.ltb_spec v 0).
    - rewrite (run_bind _ _ _ _ _ (neg_i32_run overflow_checks v g ltac:(lia))).
      rewrite (run_bind _ _ _ _ _ (shl_i32_run overflow_checks (- v) 1 g ltac:(lia) ltac:(lia))).
      change (2 ^ 1) with 2. apply add_i32_run. lia.
    - change (v * 2) with (v * 2 ^ 1). apply shl_i32_run; lia. }
  rewrite (run_bind _ _ _ _ _ E). apply vlq_digits_run; [lia|lia|]. change (32 ^ Z.of_nat 7) with (2 ^ 35). lia.
Qed.
End encode.

(** ** Reading a number *)
Definition move_decoder (n : nat) (d : MappingsDecoder) : MappingsDecoder :=
  mkDecoder (mappings d) (done_ d) (decoder_pos d + n) (at_ d) (error d).

Section decode.
Context (overflow_checks : bool).

Lemma drop_lookup {A} (l : list A) i x r : drop i l = x :: r -> l !! i = Some x /\ drop (i + 1) l = r.
Proof.
  intros H. split.
  - rewrite <- (Nat.add_0_r i), <- lookup_drop, H. done.
  - by rewrite <- drop_drop, H.
Qed.

Lemma vlq_loop_run fuel fuel' n k value d rest :
  (1 <= fuel)%nat -> 0 <= k <= 30 -> 0 <= value < 2 ^ k -> 0 <= n -> n * 2 ^ k < 2 ^ 31 -> n < 32 ^ Z.of_nat fuel ->
  (length (digits fuel n) <= fuel')%nat ->
  drop (decoder_pos d) (mappings d) = map encode_digit (digits fuel n) ++ rest ->
  iter fuel' (vlq_step overflow_checks) (k, value) d
  = Ok ((let x := value + n * 2 ^ k in if Z.land x 1 =? 0 then Z.shiftr x 1 else - Z.shiftr x 1),
        move_decoder (length (digits fuel n)) d).
Proof.
  revert fuel' n k value d. induction fuel as [|fuel IH]; intros fuel' n k value d Hfu Hk Hv Hn Hb Hf Hf' Hd;
    [lia|].
  rewrite Nat2Z.inj_succ, Z.pow_succ_r in Hf by lia. cbn [digits] in *.
  pose proof (Z.mod_pos_bound n 32 ltac:(lia)) as Hm. pose proof (Z.div_mod n 32 ltac:(lia)) as Hdm.
  pose proof (Z.div_pos n 32 ltac:(lia) ltac:(lia)) as Hq.
  destruct fuel' as [|fuel']; [destruct (n <? 32); cbn in Hf'; lia|]. cbn [iter].
  set (byte := if n <? 32 then n else 32 + n mod 32).
  assert (exists r, drop (decoder_pos d) (mappings d) = encode_digit byte :: r
    /\ (n <? 32 = false -> r = map encode_digit (digits fuel (n / 32)) ++ rest)) as (r & Hr & Hr').
  { subst byte. destruct (n <? 32); cbn in Hd; eexists; (split; [exact Hd|]); done. }
  apply drop_lookup in Hr as [Hch Hr].
  assert (0 <= byte < 64) as Hbyte by (subst byte; case_if; lia).
  assert (Z.land byte 31 = n mod 32) as Elow.
  { rewrite (land_mod byte 5 ltac:(lia) : Z.land byte 31 = byte mod 32). subst byte. case_if; [done|].
    rewrite <- (Z.mul_1_l 32) at 1. by rewrite Z.add_comm, Z.mod_add, Z.mod_mod by lia. }
  assert (Z.land byte 32 = if n <? 32 then 0 else 32) as Ehigh.
  { rewrite land_32 by done. subst byte. destruct (n <? 32) eqn:En; bool_to_prop;
      [by rewrite (proj2 (Z.ltb_lt _ _))|by rewrite (proj2 (Z.ltb_ge _ _)) by lia]. }
  pose proof (Z.pow_pos_nonneg 2 k ltac:(lia) ltac:(lia)) as Hpk.
  assert (Hbits : 0 <= n mod 32 * 2 ^ k <= n * 2 ^ k) by nia.
  set (value' := value + n mod 32 * 2 ^ k).
  assert (vlq_step overflow_checks (k, value) d
    = Ok (if n <? 32 then inr (if Z.land value' 1 =? 0 then Z.shiftr value' 1 else - Z.shiftr value' 1)
          else inl (k + 5, value'), move_decoder 1 d)) as E.
  { unfold vlq_step. rewrite (run_bind get _ d d d eq_refl), Hch.
    rewrite (run_bind advance_decoder _ d tt (move_decoder 1 d) eq_refl).
    rewrite decode_encode_digit by lia. rewrite (proj2 (Z.eqb_neq byte (-1))) by lia.
    rewrite Elow.
    rewrite (run_bind _ _ _ _ _ (shl_i32_run overflow_checks (n mod 32) k _ ltac:(lia) ltac:(lia))).
    rewrite lor_shift by lia. fold value'.
    rewrite (run_bind _ _ _ _ _ (add_i32_run overflow_checks k 5 _ ltac:(lia))).
    rewrite Ehigh. destruct (n <? 32); cbn [negb Z.eqb]; [|done].
    destruct (Z.land value' 1 =? 0); [done|]. apply run_fmap.
    apply neg_i32_run. rewrite Z.shiftr_div_pow2 by lia. change (2 ^ 1) with 2.
    assert (2 ^ k <= 2 ^ 30) by (apply Z.pow_le_mono_r; lia).
    assert (0 <= value' < 2 ^ 32) by (subst value'; lia). zdiv. }
  rewrite (run_bind _ _ _ _ _ E). destruct (n <? 32) eqn:En; bool_to_prop.
  - assert (n mod 32 = n) as E1 by (apply Z.mod_small; lia). subst value'. by rewrite E1.
  - assert (k < 26) as Hk26.
    { apply (Z.pow_lt_mono_r_iff 2); [lia|lia|]. nia. }
    assert (1 <= fuel)%nat by (destruct fuel; [cbn in Hf|]; lia).
    rewrite (IH fuel' (n / 32) (k + 5) value' (move_decoder 1 d)).
    + f_equal. f_equal.
      * assert (value' + n / 32 * 2 ^ (k + 5) = value + n * 2 ^ k) as ->; [|done].
        rewrite Z.pow_add_r by lia. change (2 ^ 5) with 32. subst value'. nia.
      * unfold move_decoder. cbn. f_equal. lia.
    + done.
    + lia.
    + rewrite Z.pow_add_r by lia. change (2 ^ 5) with 32. nia.
    + done.
    + rewrite Z.pow_add_r by lia. change (2 ^ 5) with 32. nia.
    + lia.
    + cbn in Hf'. lia.
    + rewrite <- Hr' by done. exact Hr.
Qed.

Lemma zigzag_sign v :
  (if Z.land (zigzag v) 1 =? 0 then Z.shiftr (zigzag v) 1 else - Z.shiftr (zigzag v) 1) = v.
Proof.
  rewrite (land_mod (zigzag v) 1 ltac:(lia) : Z.land (zigzag v) 1 = zigzag v mod 2).
  rewrite Z.shiftr_div_pow2 by lia. change (2 ^ 1) with 2. unfold zigzag.
  destruct (Z.ltb_spec v 0).
  - rewrite Z.add_comm, Z.mod_add by lia. change (1 mod 2 =? 0) with false. cbn [negb]. zdiv.
  - rewrite Z.mod_mul, Z.div_mul by lia. done.
Qed.

Lemma vlq_decode_run v d rest :
  - 2 ^ 30 < v < 2 ^ 30 -> drop (decoder_pos d) (mappings d) = vlq v ++ rest ->
  base64_vlq_format_decode overflow_checks d = Ok (v, move_decoder (length (vlq v)) d).
Proof.
  intros Hv Hd. pose proof (zigzag_range v Hv). unfold base64_vlq_format_decode.
  rewrite (run_bind get _ d d d eq_refl).
  assert (length (vlq v) <= length (mappings d))%nat as Hl.
  { apply (f_equal length) in Hd. rewrite length_drop, length_app in Hd. lia. }
  unfold vlq in *. rewrite length_map in *.
  rewrite (vlq_loop_run 7 _ (zigzag v) 0 0 d rest).
  - rewrite Z.mul_1_r, Z.add_0_l. by rewrite zigzag_sign.
  - lia.
  - lia.
  - lia.
  - lia.
  - lia.
  - change (32 ^ Z.of_nat 7) with (2 ^ 35). lia.
  - lia.
  - done.
Qed.

(** ** Segments *)

(** Where the decoder is after a mapping: its fields keep what the mapping leaves out. *)
Definition advance (last m : Mapping) : Mapping :=
  mkMapping (generated_line m) (generated_character m)
    (if is_source_mapping m then source_index m else source_index last)
    (if is_source_mapping m then source_line m else source_line last)
    (if is_source_mapping m then source_character m else source_character last)
    (if name_index m =? MISSING_NAME then name_index last else name_index m).

(** The bounds of the numbers of a mapping, and of where a decoder can be. *)
Definition small (x : Z) : Prop := 0 <= x < 2 ^ 30.
Record mapping_ok (m : Mapping) : Prop := {
  ok_line : small (generated_line m);
  ok_character : small (generated_character m);
  ok_source : small (source_index m) /\ small (source_line m) /\ small (source_character m)
              \/ source_index m = -1 /\ source_line m = -1 /\ source_character m = -1 /\ name_index m = -1;
  ok_name : name_index m = -1 \/ small (name_index m);
}.
Record position_ok (p : Mapping) : Prop := {
  pos_line : small (generated_line p);
  pos_character : small (generated_character p);
  pos_source_index : small (source_index p);
  pos_source_line : small (source_line p);
  pos_source_character : small (source_character p);
  pos_name : small (name_index p);
}.

Definition start_of_line (last m : Mapping) : Mapping :=
  if generated_line last <? generated_line m then set_character 0 (set_line (generated_line m) last) else last.

Definition separators (has_last : bool) (last m : Mapping) : bytes :=
  if generated_line last <? generated_line m
  then repeat 59 (Z.to_nat (generated_line m - generated_line last))
  else if has_last then bstr "," else [].
(** The numbers of a segment, relative to [last]. *)
Definition segment (last m : Mapping) : bytes :=
  vlq (generated_character m - generated_character last)
  ++ (if is_source_mapping m then
        vlq (source_index m - source_index last) ++ vlq (source_line m - source_line last)
        ++ vlq (source_character m - source_character last)
        ++ (if name_index m =? MISSING_NAME then [] else vlq (name_index m - name_index last))
      else []).

(** The text of a list of mappings. *)
Fixpoint encode (has_last : bool) (last : Mapping) (ms : list Mapping) : bytes :=
  match ms with
  | [] => []
  | m :: ms => separators has_last last m ++ segment (start_of_line last m) m
               ++ encode true (advance last m) ms
  end.

(** A decoder that has read everything before [rest] and is at [p]. *)
Record reading (d : MappingsDecoder) (p : Mapping) (rest : bytes) : Prop := {
  reading_rest : drop (decoder_pos d) (mappings d) = rest;
  reading_at : at_ d = p;
  reading_done : done_ d = false;
  reading_error : error d = None;
}.

(** The end of a segment. *)
Definition ends (rest : bytes) : Prop := match rest with [] => True | ch :: _ => separator ch = true end.

Lemma segment_end_eq d p rest :
  reading d p rest ->
  is_source_mapping_segment_end d = match rest with [] => true | ch :: _ => separator ch end.
Proof.
  intros [Hr _ _ _]. unfold is_source_mapping_segment_end. destruct rest as [|ch rest].
  - rewrite lookup_ge_None_2; [done|]. apply (f_equal length) in Hr. rewrite length_drop in Hr. cbn in Hr. lia.
  - apply drop_lookup in Hr as [-> _]. done.
Qed.

Lemma if_segment_end_ends d p rest a b :
  reading d p rest -> ends rest -> if_segment_end a b d = a d.
Proof.
  intros Hd Hr. unfold if_segment_end. rewrite (run_bind get _ d d d eq_refl), (segment_end_eq d p rest Hd).
  by destruct rest; [|rewrite Hr].
Qed.

Lemma if_segment_end_more d p v rest a b :
  reading d p (vlq v ++ rest) -> - 2 ^ 30 < v < 2 ^ 30 -> if_segment_end a b d = b d.
Proof.
  intros Hd Hv. unfold if_segment_end. rewrite (run_bind get _ d d d eq_refl), (segment_end_eq _ _ _ Hd).
  destruct (vlq_head v Hv) as (ch & r & -> & Hs). cbn [app]. by rewrite Hs.
Qed.

(** One field: the number is added to the field and the rest of the segment follows. *)
Lemma decode_field_run field set e k d p x rest :
  reading d p (vlq (x - field p) ++ rest) -> small x -> small (field p) ->
  exists d', reading d' (set x p) rest /\ mappings d' = mappings d
    /\ (decoder_pos d < decoder_pos d')%nat
    /\ decode_field overflow_checks field set e k d = k d'.
Proof.
  intros Hd Hx Hp. unfold small in *. set (v := x - field p) in *.
  assert (- 2 ^ 30 < v < 2 ^ 30) as Hv by lia. destruct Hd as [Hr Hat Hdone Herr].
  set (d1 := move_decoder (length (vlq v)) d).
  exists (mkDecoder (mappings d1) (done_ d1) (decoder_pos d1) (set x (at_ d1)) (error d1)).
  split_and!.
  - split; cbn; [|by rewrite Hat|done|done]. rewrite <- drop_drop, Hr. apply drop_app_length.
  - done.
  - destruct (vlq_head v Hv) as (ch & r & Ev & _). subst d1. cbn [decoder_pos move_decoder]. rewrite Ev. cbn [length]. lia.
  - unfold decode_field. rewrite (run_bind _ _ _ _ _ (vlq_decode_run v d rest Hv Hr)). fold d1.
    rewrite (run_bind (gets (fun d => field (at_ d))) _ d1 (field p) d1) by (unfold gets, d1; cbn [at_ move_decoder]; by rewrite Hat).
    rewrite (run_bind _ _ _ _ _ (add_i32_run overflow_checks (field p) v d1 ltac:(lia))).
    replace (field p + v) with x by lia.
    rewrite (run_bind (set_at (set x)) _ d1 tt _ eq_refl). rewrite (run_bind get _ _ _ _ eq_refl).
    unfold has_reported_error. subst d1. cbn [error move_decoder]. rewrite Herr. rewrite bool_decide_eq_false_2 by by intros [].
    by rewrite (proj2 (Z.ltb_ge x 0)) by lia.
Qed.

Lemma position_start p m : position_ok p -> mapping_ok m -> position_ok (start_of_line p m).
Proof.
  intros [] []. unfold start_of_line, small in *. by case_if; split; cbn; unfold small; try lia.
Qed.

Lemma position_advance p m : position_ok p -> mapping_ok m -> position_ok (advance p m).
Proof.
  intros Hp Hm. destruct Hp, Hm as [Hl Hc Hs Hn]. split; cbn; try done; unfold is_source_mapping.
  1-3: destruct Hs as [(? & ? & ?)|(-> & -> & -> & _)]; [|done]; by case_if.
  destruct Hn as [-> |Hn]; [done|]. by case_if.
Qed.

Lemma sourced_iff m : mapping_ok m ->
  (is_source_mapping m = true /\ small (source_index m) /\ small (source_line m) /\ small (source_character m))
  \/ is_source_mapping m = false
     /\ m = mkMapping (generated_line m) (generated_character m) (-1) (-1) (-1) (-1).
Proof.
  intros [_ _ Hs _]. unfold is_source_mapping, MISSING_SOURCE, MISSING_LINE_OR_COLUMN, MISSING_UTF16_COLUMN, small in *.
  destruct Hs as [(H1 & H2 & H3)|(E1 & E2 & E3 & E4)].
  - left. split; [|done]. rewrite !(proj2 (Z.eqb_neq _ (-1))) by lia. done.
  - right. destruct m; cbn in *; subst. done.
Qed.

Lemma captured_run d p rest has_source has_name :
  reading d p rest ->
  captured has_source has_name d
  = Ok (Some (mkMapping (generated_line p) (generated_character p)
      (if has_source then source_index p else -1) (if has_source then source_line p else -1)
      (if has_source then source_character p else -1) (if has_name then name_index p else -1)), d).
Proof. intros [_ <- _ _]. done. Qed.

Lemma segment_run d p m rest :
  reading d p (segment p m ++ rest) -> ends rest -> position_ok p -> mapping_ok m ->
  generated_line p = generated_line m ->
  exists d', next_segment overflow_checks d = Ok (Some m, d') /\ reading d' (advance p m) rest
    /\ mappings d' = mappings d /\ (decoder_pos d < decoder_pos d')%nat.
Proof.
  intros Hd Hends Hp Hm Hline. unfold segment in Hd. rewrite <- !app_assoc in Hd.
  pose proof (ok_character m Hm) as Hc. pose proof Hp as [_ Pc Pi Pl Ps Pn].
  destruct (decode_field_run generated_character set_character Invalid_generatedCharacter_found
    (if_segment_end (captured false false)
      (decode_field overflow_checks source_index set_source_index Invalid_sourceIndex_found
        (if_segment_end (set_error_and_stop_iterating No_entries_after_sourceIndex)
          (decode_field overflow_checks source_line set_source_line Invalid_sourceLine_found
            (if_segment_end (set_error_and_stop_iterating No_entries_after_sourceLine)
              (decode_field overflow_checks source_character set_source_character Invalid_sourceCharacter_found
                (if_segment_end (captured true false)
                  (decode_field overflow_checks name_index set_name_index Invalid_nameIndex_found
                    (if_segment_end (captured true true)
                      (set_error_and_stop_iterating Entries_after_nameIndex)))))))))) d p _ _ Hd Hc Pc)
    as (d1 & Hd1 & M1 & L1 & E1).
  unfold next_segment. rewrite E1. clear E1 Hd.
  destruct (sourced_iff m Hm) as [(Es & Hi & Hl & Hs)|(Es & Em)]; rewrite Es in Hd1.
  - rewrite <- !app_assoc in Hd1.
    rewrite (if_segment_end_more _ _ _ _ _ _ Hd1) by (unfold small in *; cbn; lia).
    edestruct (decode_field_run source_index set_source_index) as (d2 & Hd2 & M2 & L2 & E2); [exact Hd1|exact Hi|exact Pi|].
    rewrite E2. clear E2 Hd1.
    rewrite (if_segment_end_more _ _ _ _ _ _ Hd2) by (unfold small in *; cbn; lia).
    edestruct (decode_field_run source_line set_source_line) as (d3 & Hd3 & M3 & L3 & E3); [exact Hd2|exact Hl|exact Pl|].
    rewrite E3. clear E3 Hd2.
    rewrite (if_segment_end_more _ _ _ _ _ _ Hd3) by (unfold small in *; cbn; lia).
    edestruct (decode_field_run source_character set_source_character) as (d4 & Hd4 & M4 & L4 & E4); [exact Hd3|exact Hs|exact Ps|].
    rewrite E4. clear E4 Hd3.
    assert (advance p m = (if name_index m =? MISSING_NAME then fun q => q else set_name_index (name_index m))
      (set_source_character (source_character m) (set_source_line (source_line m)
        (set_source_index (source_index m) (set_character (generated_character m) p))))) as Ea.
    { unfold advance. rewrite Es, <- Hline. by destruct (_ =? _). }
    rewrite Ea. destruct (Z.eqb_spec (name_index m) MISSING_NAME) as [En|En].
    + rewrite (if_segment_end_ends _ _ _ _ _ Hd4 Hends), (captured_run _ _ _ _ _ Hd4).
      exists d4. split_and!; [|done|congruence|lia]. f_equal. f_equal. f_equal. cbn.
      change MISSING_NAME with (-1) in En. destruct m; cbn in *; congruence.
    + assert (small (name_index m)) as Hn by (destruct (ok_name m Hm); [done|done]).
      rewrite (if_segment_end_more _ _ _ _ _ _ Hd4) by (unfold small in *; cbn; lia).
      edestruct (decode_field_run name_index set_name_index) as (d5 & Hd5 & M5 & L5 & E5); [exact Hd4|exact Hn|exact Pn|].
      rewrite E5, (if_segment_end_ends _ _ _ _ _ Hd5 Hends), (captured_run _ _ _ _ _ Hd5).
      exists d5. split_and!; [|done|congruence|lia]. f_equal. f_equal. f_equal. cbn.
      destruct m; cbn in *; congruence.
  - cbn [app] in Hd1. rewrite (if_segment_end_ends _ _ _ _ _ Hd1 Hends).
    rewrite (captured_run _ _ _ _ _ Hd1). exists d1. split_and!; [|replace (advance p m) with (set_character (generated_character m) p); [done|]|done|done].
    + f_equal. f_equal. f_equal. etrans; [|symmetry; exact Em]. cbn. by rewrite Hline.
    + assert (name_index m = -1) as En by (by rewrite Em). unfold advance. rewrite Es, En, <- Hline. done.
Qed.

(** ** The whole text *)
Lemma reading_cons d p ch rest :
  reading d p (ch :: rest) ->
  mappings d !! decoder_pos d = Some ch /\ done_ d = false /\ reading (move_decoder 1 d) p rest.
Proof. intros [Hr Hat Hdone Herr]. apply drop_lookup in Hr as [Hch Hr]. by split_and!. Qed.

Lemma semicolons_run k fuel d p rest :
  reading d p (repeat 59 k ++ rest) -> 0 <= generated_line p -> generated_line p + Z.of_nat k < 2 ^ 31 ->
  exists d', iter (k + fuel) (next_step overflow_checks) tt d = iter fuel (next_step overflow_checks) tt d'
    /\ reading d' (match k with
                   | O => p
                   | _ => set_character 0 (set_line (generated_line p + Z.of_nat k) p)
                   end) rest
    /\ mappings d' = mappings d /\ decoder_pos d' = (decoder_pos d + k)%nat.
Proof.
  revert d p. induction k as [|k IH]; intros d p Hd H0 Hk.
  - exists d. split_and!; [done|done|done|lia].
  - pose proof (reading_cons _ _ _ _ Hd) as (Hch & Hdone & Hd1).
    set (p' := set_character 0 (set_line (generated_line p + 1) p)).
    set (d1 := mkDecoder (mappings d) (done_ d) (decoder_pos d + 1) p' (error d)).
    assert (next_step overflow_checks tt d = Ok (inl tt, d1)) as E.
    { unfold next_step. rewrite (run_bind get _ d d d eq_refl), Hdone, Hch. cbn [Z.eqb Pos.eqb].
      pose proof (reading_at _ _ _ Hd) as Hat.
      rewrite (run_bind _ _ _ _ _ (add_i32_run overflow_checks (generated_line (at_ d)) 1 d ltac:(rewrite Hat; lia))).
      subst d1 p'. by rewrite <- Hat. }
    destruct (IH d1 p') as (d' & E' & Hd' & HM & HL).
    { destruct Hd1 as [Hr1 _ _ He]. by split. }
    { cbn. lia. }
    { cbn. lia. }
    exists d'. split_and!; [|destruct k|done|cbn in HL; lia].
    + cbn [Nat.add iter]. by rewrite (run_bind _ _ _ _ _ E).
    + by replace (Z.of_nat 1) with 1 by lia.
    + subst p'. cbn in Hd' |- *. by replace (generated_line p + Z.of_nat (S (S k))) with (generated_line p + 1 + Z.of_nat (S k)) by lia.
Qed.

Lemma segment_head p m :
  position_ok p -> mapping_ok m -> exists ch r, segment p m = ch :: r /\ separator ch = false.
Proof.
  intros Hp Hm. pose proof (pos_character p Hp). pose proof (ok_character m Hm). unfold small in *.
  destruct (vlq_head (generated_character m - generated_character p)) as (ch & r & E & Hs); [lia|].
  unfold segment. rewrite E. by eexists _, _.
Qed.

Lemma advance_start p m : advance (start_of_line p m) m = advance p m.
Proof. unfold start_of_line. by case_if. Qed.

Lemma next_mapping_run hl d p m rest :
  reading d p (separators hl p m ++ segment (start_of_line p m) m ++ rest) -> ends rest ->
  position_ok p -> mapping_ok m -> generated_line p <= generated_line m ->
  exists d', next_mapping overflow_checks d = Ok (Some m, d') /\ reading d' (advance p m) rest
    /\ mappings d' = mappings d /\ (decoder_pos d < decoder_pos d')%nat.
Proof.
  intros Hd Hends Hp Hm Hle. pose proof (ok_line m Hm) as Hlm. pose proof (pos_line p Hp) as Hlp. unfold small in *.
  unfold next_mapping. rewrite (run_bind get _ d d d eq_refl).
  assert (length (separators hl p m) <= length (mappings d))%nat as Hlen.
  { pose proof (f_equal length (reading_rest _ _ _ Hd)) as Hl. rewrite length_drop, length_app in Hl. lia. }
  assert (exists d1 fuel, iter (S (length (mappings d))) (next_step overflow_checks) tt d
      = iter (S fuel) (next_step overflow_checks) tt d1
    /\ reading d1 (start_of_line p m) (segment (start_of_line p m) m ++ rest)
    /\ mappings d1 = mappings d /\ (decoder_pos d <= decoder_pos d1)%nat) as (d1 & fuel & E1 & Hd1 & HM1 & HL1).
  { unfold separators in Hd, Hlen. unfold start_of_line in *. destruct (Z.ltb_spec (generated_line p) (generated_line m)).
    - set (k := Z.to_nat (generated_line m - generated_line p)) in *. rewrite repeat_length in Hlen.
      destruct (semicolons_run k (S (length (mappings d) - k)) d p _ Hd) as (d1 & E1 & Hd1 & HM1 & HL1); [lia|lia|].
      exists d1, (length (mappings d) - k)%nat. split_and!; [|destruct k eqn:Ek; [lia|]|done|lia].
      + by replace (S (length (mappings d))) with (k + S (length (mappings d) - k))%nat by lia.
      + by replace (generated_line p + Z.of_nat (S n)) with (generated_line m) in Hd1 by lia.
    - destruct hl; [|by exists d, (length (mappings d))].
      pose proof (reading_cons _ _ _ _ Hd) as (Hch & Hdone & Hd1). cbn in Hlen.
      exists (move_decoder 1 d), (length (mappings d) - 1)%nat. split_and!; [|done|done|cbn; lia].
      replace (length (mappings d)) with (S (length (mappings d) - 1)) at 1 by lia. cbn [iter].
      by rewrite (run_bind _ _ d (inl tt) (move_decoder 1 d)); [|unfold next_step; rewrite (run_bind get _ d d d eq_refl), Hdone, Hch]. }
  rewrite E1. destruct (segment_run d1 (start_of_line p m) m rest Hd1 Hends) as (d2 & E2 & Hd2 & HM2 & HL2).
  { by apply position_start. }
  { done. }
  { unfold start_of_line. destruct (Z.ltb_spec (generated_line p) (generated_line m)); [done|lia]. }
  rewrite advance_start in Hd2. exists d2. split_and!; [|done|congruence|lia].
  assert (next_step overflow_checks tt d1 = Ok (inr (Some m), d2)) as E; [|cbn [iter]; by rewrite (run_bind _ _ _ _ _ E)].
  unfold next_step. rewrite (run_bind get _ d1 d1 d1 eq_refl).
  rewrite (reading_done _ _ _ Hd1).
  destruct (segment_head (start_of_line p m) m) as (ch & r & Es & Hch); [by apply position_start|done|].
  rewrite Es in Hd1. destruct (reading_cons _ _ _ _ Hd1) as (-> & _).
  unfold separator in Hch. apply orb_false_iff in Hch as [-> ->]. by apply run_fmap.
Qed.

(** A list of mappings that can be written after [p]: the lines never go back. *)
Fixpoint chain (p : Mapping) (ms : list Mapping) : Prop :=
  match ms with
  | [] => True
  | m :: ms => mapping_ok m /\ generated_line p <= generated_line m /\ chain (advance p m) ms
  end.

Lemma encode_ends p ms : ends (encode true p ms).
Proof.
  destruct ms as [|m ms]; [done|]. cbn [encode]. unfold separators.
  destruct (Z.ltb_spec (generated_line p) (generated_line m)); [|done].
  destruct (Z.to_nat (generated_line m - generated_line p)) eqn:E; [lia|done].
Qed.

Lemma collect_run ms fuel hl p d acc :
  reading d p (encode hl p ms) -> position_ok p -> chain p ms ->
  (length (mappings d) - decoder_pos d < fuel)%nat ->
  exists d', iter fuel (collect_step overflow_checks) acc d = Ok (acc ++ ms, d') /\ error d' = None.
Proof.
  revert fuel hl p d acc. induction ms as [|m ms IH]; intros fuel hl p d acc Hd Hp Hc Hf;
    (destruct fuel as [|fuel]; [lia|]); cbn [iter].
  - destruct Hd as [Hr Hat Hdone Herr]. cbn [encode] in Hr.
    assert (mappings d !! decoder_pos d = None) as Hn.
    { apply lookup_ge_None. apply (f_equal length) in Hr. rewrite length_drop in Hr. cbn in Hr. lia. }
    set (d' := mkDecoder (mappings d) true (decoder_pos d) (at_ d) (error d)).
    assert (next_mapping overflow_checks d = Ok (None, d')) as E.
    { unfold next_mapping. rewrite (run_bind get _ d d d eq_refl). cbn [iter].
      assert (next_step overflow_checks tt d = Ok (inr None, d')) as E'; [|by rewrite (run_bind _ _ _ _ _ E')].
      unfold next_step. by rewrite (run_bind get _ d d d eq_refl), Hdone, Hn. }
    exists d'. split; [|done].
    assert (collect_step overflow_checks acc d = Ok (inr acc, d')) as E'; [|by rewrite (run_bind _ _ _ _ _ E'), app_nil_r].
    unfold collect_step. by rewrite (run_bind _ _ _ _ _ E).
  - destruct Hc as (Hm & Hle & Hc). cbn [encode] in Hd.
    destruct (next_mapping_run hl d p m _ Hd) as (d' & E & Hd' & HM & HL); [apply encode_ends|done..|].
    assert (collect_step overflow_checks acc d = Ok (inl (acc ++ [m]), d')) as E'.
    { unfold collect_step. by rewrite (run_bind _ _ _ _ _ E). }
    rewrite (run_bind _ _ _ _ _ E').
    destruct (IH fuel true (advance p m) d' (acc ++ [m])) as (d2 & E2 & He); [done|by apply position_advance|done| |].
    + destruct (segment_head (start_of_line p m) m) as (ch & r & Es & _); [by apply position_start|done|].
      pose proof (f_equal length (reading_rest _ _ _ Hd)) as Hl. rewrite Es, length_drop, !length_app in Hl.
      cbn in Hl. rewrite HM. lia.
    + exists d2. by rewrite E2, <- app_assoc.
Qed.

(** Decoding the text of a list of mappings gives the list. *)
Lemma collect_encode ms :
  chain (mkMapping 0 0 0 0 0 0) ms ->
  exists d', collect_mappings overflow_checks (decode_mappings (encode false (mkMapping 0 0 0 0 0 0) ms)) = Ok (ms, d')
    /\ error d' = None.
Proof.
  intros Hc. unfold collect_mappings. set (d := decode_mappings _). rewrite (run_bind get _ d d d eq_refl).
  apply (collect_run ms _ false (mkMapping 0 0 0 0 0 0) d []); [done|by split|done|lia].
Qed.
End decode.
