(* ===== verification/SourceMapGen.v ===== *)
(** * SourceMapGen: the generator implements the list of its mappings

    The abstract machine of a source map keeps the list of the mappings that are written and the one that
    may still be completed. The generator simulates it: after any requests, decoding the mappings of
    [raw_source_map] gives the list of the machine. *)
From stdpp Require Import gmap.
From S2P Require Import Prelude Text Chars Trivia Monad Numerals Strs Path SourceMap SourceMapThm.

(** ** The abstract machine *)
Definition origin : Mapping := mkMapping 0 0 0 0 0 0.
(** Where a decoder is after a list of mappings. *)
Definition position (ms : list Mapping) : Mapping := fold_left advance ms origin.

(** A mapping is written unless it leaves the decoder where it is. *)
Definition commit (ms : list Mapping) (m : Mapping) : list Mapping :=
  if bool_decide (ms <> []) && bool_decide (position ms = advance (position ms) m) then ms else ms ++ [m].

Definition same_generated (m m' : Mapping) : bool :=
  (generated_line m =? generated_line m') && (generated_character m =? generated_character m').
(** The source of [m] is before the latest one, in the same file. *)
Definition backtracks (latest m : Mapping) : bool :=
  is_source_mapping m && (source_index latest =? source_index m)
  && ((source_line m <? source_line latest)
      || (source_line latest =? source_line m) && (source_character m <? source_character latest)).
(** A second mapping of the same generated position completes the first one. *)
Definition complete (m m' : Mapping) : Mapping :=
  if is_source_mapping m' then
    mkMapping (generated_line m) (generated_character m) (source_index m') (source_line m')
      (source_character m') (if name_index m' =? MISSING_NAME then name_index m else name_index m')
  else m.

Definition add (st : list Mapping * option Mapping) (m : Mapping) : list Mapping * option Mapping :=
  let '(ms, current) := st in
  match current with
  | None => (ms, Some m)
  | Some p =>
      if same_generated p m && negb (backtracks (advance (position ms) p) m)
      then (ms, Some (complete p m)) else (commit ms p, Some m)
  end.
Definition finish (st : list Mapping * option Mapping) : list Mapping :=
  match snd st with Some p => commit (fst st) p | None => fst st end.
(** The mappings of a source map to which [ms] were added. *)
Definition merged (ms : list Mapping) : list Mapping := finish (fold_left add ms ([], None)).

(** ** Writing a mapping *)
Definition upd (last : Mapping) (text : bytes) (g : Generator) : Generator :=
  set_last (fun _ => last) (set_generator_mappings (generator_mappings g ++ text) g).

Lemma upd_upd l1 t1 l2 t2 g : upd l2 t2 (upd l1 t1 g) = upd l2 (t1 ++ t2) g.
Proof. unfold upd. cbn. by rewrite <- app_assoc. Qed.
Lemma upd_nothing g : upd (last_ g) [] g = g.
Proof. unfold upd. cbn. rewrite app_nil_r. by destruct g. Qed.

Lemma pending_upd l t g : pending (upd l t g) = pending g.
Proof. done. Qed.
Lemma last_upd l t g : last_ (upd l t g) = l.
Proof. done. Qed.

Section generator.
Context (overflow_checks : bool) `{CaseMapping}.

Lemma append_field_run field set g :
  small (field (pending g)) -> small (field (last_ g)) ->
  append_field overflow_checks field set g
  = Ok (tt, upd (set (field (pending g)) (last_ g)) (vlq (field (pending g) - field (last_ g))) g).
Proof.
  intros Hp Hl. unfold small in *. unfold append_field. rewrite (run_bind get _ g g g eq_refl).
  rewrite (run_bind _ _ _ _ _ (sub_i32_run overflow_checks (field (pending g)) (field (last_ g)) g ltac:(lia))).
  rewrite (run_bind _ _ _ _ _ (append_base64_vlq_run overflow_checks (field (pending g) - field (last_ g)) g ltac:(lia))). done.
Qed.

Lemma line_loop_run k g fuel :
  Z.of_nat k = generated_line (pending g) - generated_line (last_ g) -> (k < fuel)%nat ->
  small (generated_line (last_ g)) -> small (generated_line (pending g)) ->
  iter fuel (line_step overflow_checks) tt g
  = Ok (tt, upd (set_line (generated_line (pending g)) (last_ g)) (repeat 59 k) g).
Proof.
  unfold small. revert g fuel. induction k as [|k IH]; intros g fuel Hk Hf Hl Hp; (destruct fuel as [|fuel]; [lia|]); cbn [iter].
  - assert (line_step overflow_checks tt g = Ok (inr tt, g)) as E.
    { unfold line_step. rewrite (run_bind get _ g g g eq_refl). by rewrite (proj2 (Z.ltb_ge _ _)) by lia. }
    rewrite (run_bind _ _ _ _ _ E). cbn. replace (generated_line (pending g)) with (generated_line (last_ g)) by lia.
    unfold upd. cbn. rewrite app_nil_r. by destruct g as [? ? ? ? ? ? ? ? ? ? ? []].
  - set (g1 := upd (set_line (generated_line (last_ g) + 1) (last_ g)) [59] g).
    assert (line_step overflow_checks tt g = Ok (inl tt, g1)) as E.
    { unfold line_step. rewrite (run_bind get _ g g g eq_refl). rewrite (proj2 (Z.ltb_lt _ _)) by lia.
      rewrite (run_bind (append_mapping_char_code 59) _ g tt _ eq_refl).
      by rewrite (run_bind _ _ _ _ _ (add_i32_run overflow_checks (generated_line (last_ g)) 1 _ ltac:(lia))). }
    rewrite (run_bind _ _ _ _ _ E). rewrite IH; [|cbn; lia..]. subst g1. by rewrite upd_upd.
Qed.

(** What is pending. *)
Definition captured_pending (g : Generator) : Mapping :=
  mkMapping (generated_line (pending g)) (generated_character (pending g))
    (if has_pending_source g then source_index (pending g) else -1)
    (if has_pending_source g then source_line (pending g) else -1)
    (if has_pending_source g then source_character (pending g) else -1)
    (if has_pending_source g && has_pending_name g then name_index (pending g) else -1).

Definition written (m : Mapping) (g : Generator) : Generator :=
  set_has_last (upd (advance (last_ g) m)
    (separators (has_last g) (last_ g) m ++ segment (start_of_line (last_ g) m) m) g).

Lemma commit_run m g :
  should_commit_mapping g = true -> position_ok (last_ g) -> mapping_ok m ->
  generated_line (last_ g) <= generated_line m ->
  pending g = advance (last_ g) m -> has_pending_source g = is_source_mapping m ->
  (is_source_mapping m = true -> has_pending_name g = negb (name_index m =? MISSING_NAME)) ->
  commit_pending_mapping overflow_checks g = Ok (tt, written m g).
Proof.
  intros Hsc Hp Hm Hle Epend Esrc Ename. unfold commit_pending_mapping.
  rewrite (run_bind get _ g g g eq_refl), Hsc. cbn [when].
  pose proof (position_start _ _ Hp Hm) as Hst. pose proof (position_advance _ _ Hp Hm) as Hadv.
  set (l1 := start_of_line (last_ g) m) in *. set (t1 := separators (has_last g) (last_ g) m).
  set (g1 := upd l1 t1 g).
  assert ((if generated_line (last_ g) <? generated_line (pending g)
     then iter (S (Z.to_nat (generated_line (pending g) - generated_line (last_ g)))) (line_step overflow_checks) tt ;;
          modify (set_last (set_character 0))
     else if negb (generated_line (last_ g) =? generated_line (pending g)) then panic
     else when (has_last g) (append_mapping_char_code (chr ","))) g = Ok (tt, g1)) as E1.
  { subst g1 l1 t1. unfold start_of_line, separators. rewrite Epend. cbn [generated_line advance].
    destruct (Z.ltb_spec (generated_line (last_ g)) (generated_line m)).
    - erewrite run_bind; [|apply (line_loop_run (Z.to_nat (generated_line m - generated_line (last_ g))))].
      + rewrite Epend. done.
      + rewrite Epend. cbn. lia.
      + lia.
      + apply Hp.
      + rewrite Epend. apply Hm.
    - rewrite (proj2 (Z.eqb_eq _ _)) by lia. cbn [negb]. destruct (has_last g); cbn [when].
      + unfold append_mapping_char_code, upd. cbn. by destruct g.
      + by rewrite upd_nothing. }
  rewrite (run_bind _ _ _ _ _ E1).
  pose proof Hadv as [_ A1 A2 A3 A4 A5]. pose proof Hst as [_ S1 S2 S3 S4 S5].
  rewrite <- Epend in A1, A2, A3, A4, A5.
  rewrite (run_bind _ _ _ _ _ (append_field_run generated_character set_character g1 A1 S1)).
  set (g2 := upd _ _ g1).
  assert ((when (has_pending_source g)
       (append_field overflow_checks source_index set_source_index ;;
        append_field overflow_checks source_line set_source_line ;;
        append_field overflow_checks source_character set_source_character ;;
        when (has_pending_name g) (append_field overflow_checks name_index set_name_index))) g2
    = Ok (tt, upd (advance (last_ g) m) (t1 ++ segment l1 m) g)) as E2; [|by rewrite (run_bind _ _ _ _ _ E2)].
  assert (advance (last_ g) m = (if is_source_mapping m then fun q =>
      (if name_index m =? MISSING_NAME then fun q => q else set_name_index (name_index m))
        (set_source_character (source_character m) (set_source_line (source_line m)
          (set_source_index (source_index m) q))) else fun q => q) (set_character (generated_character m) l1)) as Hfin.
  { assert (is_source_mapping m = false -> name_index m =? MISSING_NAME = true) as Hn.
    { intros Es. destruct (sourced_iff m Hm) as [(? & _)|(_ & Em)]; [congruence|by rewrite Em]. }
    subst l1. unfold advance, start_of_line, set_source_character, set_source_line, set_source_index, set_name_index,
      set_character, set_line. destruct (is_source_mapping m); [|rewrite Hn by done];
      destruct (name_index m =? MISSING_NAME), (Z.ltb_spec (generated_line (last_ g)) (generated_line m)); cbn; f_equal; lia. }
  assert (generated_character (pending g) = generated_character m
    /\ source_index (pending g) = (if is_source_mapping m then source_index m else source_index (last_ g))
    /\ source_line (pending g) = (if is_source_mapping m then source_line m else source_line (last_ g))
    /\ source_character (pending g) = (if is_source_mapping m then source_character m else source_character (last_ g))
    /\ name_index (pending g) = (if name_index m =? MISSING_NAME then name_index (last_ g) else name_index m))
    as (F1 & F2 & F3 & F4 & F5) by by rewrite Epend.
  rewrite Esrc. unfold segment. destruct (sourced_iff m Hm) as [(Es & _)|(Es & Em)].
  - rewrite Es in *. cbn [when].
    rewrite (run_bind _ _ _ _ _ (append_field_run source_index set_source_index g2 A2 S2)). set (g3 := upd _ _ g2).
    rewrite (run_bind _ _ _ _ _ (append_field_run source_line set_source_line g3 A3 S3)). set (g4 := upd _ _ g3).
    rewrite (run_bind _ _ _ _ _ (append_field_run source_character set_source_character g4 A4 S4)). set (g5 := upd _ _ g4).
    rewrite Ename by done. destruct (Z.eqb_spec (name_index m) MISSING_NAME) as [En|En]; cbn [negb when].
    + subst g5 g4 g3 g2 g1. rewrite !upd_upd, Hfin, !pending_upd, !last_upd, F1, F2, F3, F4.
      by rewrite app_nil_r.
    + rewrite (append_field_run name_index set_name_index g5 A5 S5).
      subst g5 g4 g3 g2 g1. rewrite !upd_upd, Hfin, !pending_upd, !last_upd, F1, F2, F3, F4, F5.
      done.
  - rewrite Es. cbn [when]. subst g2 g1. by rewrite upd_upd, Hfin, !pending_upd, !last_upd, Es, F1, app_nil_r.
Qed.

(** ** The simulation *)
Lemma encode_snoc hl p ms m :
  encode hl p (ms ++ [m])
  = encode hl p ms ++ separators (hl || bool_decide (ms <> [])) (fold_left advance ms p) m
    ++ segment (start_of_line (fold_left advance ms p) m) m.
Proof.
  revert hl p. induction ms as [|m' ms IH]; intros hl p; cbn [app encode fold_left].
  - by rewrite orb_false_r, app_nil_r.
  - rewrite IH, <- !app_assoc. rewrite (bool_decide_eq_true_2 (m' :: ms <> [])) by done.
    by rewrite orb_true_r.
Qed.

Lemma chain_snoc p ms m :
  chain p (ms ++ [m]) <-> chain p ms /\ mapping_ok m /\ generated_line (fold_left advance ms p) <= generated_line m.
Proof.
  revert p. induction ms as [|m' ms IH]; intros p; cbn [app chain fold_left]; [tauto|]. rewrite IH. tauto.
Qed.

Lemma mapping_position_snoc ms m : position (ms ++ [m]) = advance (position ms) m.
Proof. unfold position. by rewrite fold_left_app. Qed.

Lemma position_commit ms p : position (commit ms p) = advance (position ms) p.
Proof.
  unfold commit. destruct (bool_decide _ && _) eqn:E; [|apply mapping_position_snoc].
  apply andb_true_iff in E as [_ E]. by apply bool_decide_eq_true in E.
Qed.

Lemma position_ok_chain ms p : position_ok p -> chain p ms -> position_ok (fold_left advance ms p).
Proof.
  revert p. induction ms as [|m ms IH]; intros p Hp Hc; [done|]. destruct Hc as (Hm & _ & Hc). cbn.
  apply IH; [|done]. by apply position_advance.
Qed.

(** The part of the simulation about the mappings that are written. *)
Record wrote (g : Generator) (ms : list Mapping) : Prop := {
  wrote_text : generator_mappings g = encode false origin ms;
  wrote_last : last_ g = position ms;
  wrote_has_last : has_last g = bool_decide (ms <> []);
  wrote_chain : chain origin ms;
}.
(** The pending mapping is [p]. *)
Record awaits (g : Generator) (ms : list Mapping) (p : Mapping) : Prop := {
  awaits_has : has_pending g = true;
  awaits_ok : mapping_ok p;
  awaits_line : generated_line (position ms) <= generated_line p;
  awaits_pending : pending g = advance (position ms) p;
  awaits_source : has_pending_source g = is_source_mapping p;
  awaits_name : has_pending_name g = negb (name_index p =? MISSING_NAME);
}.
Definition simulates (g : Generator) (st : list Mapping * option Mapping) : Prop :=
  wrote g (fst st)
  /\ match snd st with
     | None => has_pending g = false /\ pending g = position (fst st)
     | Some p => awaits g (fst st) p
     end.

Lemma wrote_position g ms : wrote g ms -> position_ok (last_ g).
Proof. intros [_ -> _ Hc]. by apply position_ok_chain. Qed.

Lemma commit_simulates g ms p :
  wrote g ms -> awaits g ms p ->
  exists g', commit_pending_mapping overflow_checks g = Ok (tt, g') /\ wrote g' (commit ms p)
    /\ pending g' = position (commit ms p).
Proof.
  intros Hw Ha. pose proof (wrote_position _ _ Hw) as Hpos. destruct Hw as [Ht Hl Hh Hc], Ha as [Ap Am Al Ae As An].
  unfold commit. destruct (bool_decide (ms <> []) && bool_decide (position ms = advance (position ms) p)) eqn:E.
  - exists g. bool_to_prop. apply bool_decide_eq_true in H1. split_and!; [|done|by rewrite Ae].
    unfold commit_pending_mapping. rewrite (run_bind get _ g g g eq_refl).
    assert (should_commit_mapping g = false) as ->; [|done].
    unfold should_commit_mapping. rewrite Ap, Hh, H0, Hl, Ae. by rewrite bool_decide_eq_true_2.
  - exists (written p g). split_and!.
    + apply commit_run; [|done|done|by rewrite Hl|by rewrite Hl|done|done].
      unfold should_commit_mapping. rewrite Ap, Hh, Hl, Ae. apply andb_false_iff in E as [-> | ->]; [done|].
      by rewrite orb_true_r.
    + split; cbn.
      * by rewrite encode_snoc, Ht, Hl, Hh.
      * by rewrite mapping_position_snoc, Hl.
      * rewrite bool_decide_eq_true_2; [done|]. by destruct ms.
      * by apply chain_snoc.
    + cbn. by rewrite mapping_position_snoc, Ae.
Qed.

(** The assignments at the end of [add_mapping]. *)
Definition set_source_fields (m : Mapping) : M Generator unit :=
  when (is_source_mapping m)
    (modify (fun g => set_pending (fun p =>
         set_source_character (source_character m)
           (set_source_line (source_line m) (set_source_index (source_index m) p)))
       (has_pending g) true (has_pending_name g) g) ;;
     when (negb (name_index m =? NAME_INDEX_NOT_SET))
       (modify (fun g => set_pending (set_name_index (name_index m)) (has_pending g)
          (has_pending_source g) true g))).

Lemma complete_ok p m : mapping_ok p -> mapping_ok m -> mapping_ok (complete p m).
Proof.
  intros Hp Hm. unfold complete. destruct (sourced_iff m Hm) as [(-> & Hs)|(-> & _)]; [|done].
  split; cbn; [apply Hp|apply Hp|by left|].
  destruct (_ =? _); [apply Hp|apply Hm].
Qed.

Lemma set_source_fields_run g ms p m :
  wrote g ms -> awaits g ms p -> mapping_ok m ->
  exists g', set_source_fields m g = Ok (tt, g') /\ wrote g' ms /\ awaits g' ms (complete p m).
Proof.
  intros [Ht Hl Hh Hc] Ha Hm. pose proof (complete_ok p m (awaits_ok _ _ _ Ha) Hm) as Hok.
  destruct Ha as [Ap Am Al Ae As An]. unfold set_source_fields, complete in *.
  change NAME_INDEX_NOT_SET with MISSING_NAME.
  destruct (sourced_iff m Hm) as [(Es & Hs)|(Es & _)]; rewrite Es in *; cbn [when]; [|by exists g].
  assert (is_source_mapping (mkMapping (generated_line p) (generated_character p) (source_index m) (source_line m)
    (source_character m) (if name_index m =? MISSING_NAME then name_index p else name_index m)) = true) as Ec by exact Es.
  destruct (Z.eqb_spec (name_index m) MISSING_NAME) as [En|En]; cbn [negb when].
  - eexists. split; [reflexivity|]. split; [by split|]. split; [done|done|done| |by rewrite Ec|done].
    unfold advance. rewrite Ec. cbn. by rewrite Ae.
  - eexists. split; [reflexivity|]. split; [by split|]. split; [done|done|done| |by rewrite Ec|].
    + unfold advance. rewrite Ec. cbn. rewrite Ae. by rewrite (proj2 (Z.eqb_neq _ _) En).
    + cbn. by rewrite (proj2 (Z.eqb_neq _ _) En).
Qed.

Lemma complete_unsourced m :
  mapping_ok m ->
  complete (mkMapping (generated_line m) (generated_character m) (-1) (-1) (-1) (-1)) m = m.
Proof.
  intros Hm. unfold complete. destruct (sourced_iff m Hm) as [(-> & _)|(-> & Em)]; [|by symmetry].
  cbn. destruct (Z.eqb_spec (name_index m) MISSING_NAME) as [En|_]; [|by destruct m].
  destruct m. cbn in *. by rewrite En.
Qed.

Lemma add_simulates g st m :
  simulates g st -> mapping_ok m -> generated_line (pending g) <= generated_line m ->
  exists g', add_mapping overflow_checks m g = Ok (tt, g') /\ simulates g' (add st m).
Proof.
  destruct st as [ms cur]. intros [Hw Hcur] Hm Hle. cbn [fst snd] in *.
  unfold add_mapping. rewrite (run_bind get _ g g g eq_refl). fold (set_source_fields m).
  set (fresh := is_new_generated_position _ _ _ || _).
  (* A fresh mapping starts at the generated position alone. *)
  assert (forall ms' g1, commit_pending_mapping overflow_checks g = Ok (tt, g1) -> wrote g1 ms' ->
    pending g1 = position ms' -> generated_line (position ms') <= generated_line m ->
    fresh = true ->
    exists g', (when fresh (commit_pending_mapping overflow_checks ;;
       modify (set_pending (fun p => set_character (generated_character m) (set_line (generated_line m) p))
               true false false)) ;; set_source_fields m) g = Ok (tt, g')
    /\ simulates g' (ms', Some m)) as Hfresh.
  { intros ms' g1 E Hw1 Hp1 Hl1 ->. cbn [when].
    erewrite run_bind; [|erewrite run_bind; [reflexivity|exact E]].
    set (g2 := set_pending _ true false false g1).
    destruct (set_source_fields_run g2 ms' (mkMapping (generated_line m) (generated_character m) (-1) (-1) (-1) (-1)) m)
      as (g' & E' & Hw' & Ha'); [| |done|].
    - by destruct Hw1.
    - split; try done; [split; [apply Hm|apply Hm|by right|by left]|]. cbn. by rewrite Hp1.
    - exists g'. split; [done|]. split; [done|]. by rewrite complete_unsourced in Ha'. }
  destruct cur as [p|]; cbn [add].
  - pose proof Hcur as [Ap Am Al Ae As An].
    assert (fresh = negb (same_generated p m && negb (backtracks (advance (position ms) p) m))) as Ef.
    { subst fresh. unfold is_new_generated_position. rewrite Ap, Ae. cbn [negb orb generated_line generated_character advance].
      unfold same_generated. rewrite !negb_andb, negb_involutive. f_equal.
      unfold is_backtracking_source_position. by rewrite Ae. }
    destruct (same_generated p m && _).
    + rewrite Ef. cbn [negb when]. rewrite (run_bind (mret tt) _ g tt g eq_refl).
      destruct (set_source_fields_run g ms p m) as (g' & E' & Hw' & Ha'); [done..|]. by exists g'.
    + destruct (commit_simulates g ms p Hw Hcur) as (g1 & E & Hw1 & Hp1).
      apply (Hfresh (commit ms p) g1); [done|done|done| |by rewrite Ef].
      rewrite position_commit, <- Ae. done.
  - destruct Hcur as [Hn Hp]. apply (Hfresh ms g); [|done|done|by rewrite <- Hp|].
    + unfold commit_pending_mapping. rewrite (run_bind get _ g g g eq_refl). unfold should_commit_mapping. by rewrite Hn.
    + subst fresh. unfold is_new_generated_position. by rewrite Hn.
Qed.

Lemma finish_simulates g st :
  simulates g st ->
  exists g', commit_pending_mapping overflow_checks g = Ok (tt, g') /\ wrote g' (finish st).
Proof.
  destruct st as [ms [p|]]; intros [Hw Hcur]; unfold finish; cbn [fst snd] in *.
  - destruct (commit_simulates g ms p Hw Hcur) as (g' & E & Hw' & _). by exists g'.
  - exists g. split; [|done]. destruct Hcur as [Hn _]. unfold commit_pending_mapping.
    rewrite (run_bind get _ g g g eq_refl). unfold should_commit_mapping. by rewrite Hn.
Qed.

(** ** Requests *)
Inductive request : Type :=
  | AddSource (file_name : bytes)
  | AddName (name : bytes)
  | SetSourceContent (index : Z) (content : bytes)
  | AddGeneratedMapping (line character : Z)
  | AddSourceMapping (line character index s_line s_character : Z)
  | AddNamedSourceMapping (line character index s_line s_character name : Z).

(** The mapping that a request adds, when its answer is [Ok]. *)
Definition accepted (m : Mapping) (r : Result) : option Mapping :=
  match r with None => Some m | Some _ => None end.
Definition serve (r : request) : M Generator (option Mapping) :=
  match r with
  | AddSource file_name => add_source file_name ;; mret None
  | AddName name => add_name name ;; mret None
  | SetSourceContent index content => set_source_content index content ;; mret None
  | AddGeneratedMapping line character =>
      accepted (mkMapping line character (-1) (-1) (-1) (-1))
        <$> add_generated_mapping overflow_checks line character
  | AddSourceMapping line character index s_line s_character =>
      accepted (mkMapping line character index s_line s_character (-1))
        <$> add_source_mapping overflow_checks line character index s_line s_character
  | AddNamedSourceMapping line character index s_line s_character name =>
      accepted (mkMapping line character index s_line s_character name)
        <$> add_named_source_mapping overflow_checks line character index s_line s_character name
  end.
Fixpoint serve_all (rs : list request) : M Generator (list Mapping) :=
  match rs with
  | [] => mret []
  | r :: rs => m ← serve r; ms ← serve_all rs; mret (option_list m ++ ms)
  end.

(** Numbers are below 2{^30}; the others are refused by the generator. *)
Definition bounded (r : request) : Prop :=
  match r with
  | AddSource _ | AddName _ | SetSourceContent _ _ => True
  | AddGeneratedMapping l c => l < 2 ^ 30 /\ c < 2 ^ 30
  | AddSourceMapping l c i sl sc => l < 2 ^ 30 /\ c < 2 ^ 30 /\ i < 2 ^ 30 /\ sl < 2 ^ 30 /\ sc < 2 ^ 30
  | AddNamedSourceMapping l c i sl sc n =>
      l < 2 ^ 30 /\ c < 2 ^ 30 /\ i < 2 ^ 30 /\ sl < 2 ^ 30 /\ sc < 2 ^ 30 /\ n < 2 ^ 30
  end.

Lemma simulates_pending_line g st : simulates g st -> 0 <= generated_line (pending g).
Proof.
  destruct st as [ms [p|]]; intros [Hw Hcur]; cbn [fst snd] in *.
  - rewrite (awaits_pending _ _ _ Hcur). cbn. apply (ok_line p (awaits_ok _ _ _ Hcur)).
  - destruct Hcur as [_ ->]. rewrite <- (wrote_last _ _ Hw). apply (pos_line _ (wrote_position _ _ Hw)).
Qed.

Lemma validate_none g l c i sl sc :
  validate_source_mapping_args g l c i sl sc = None ->
  generated_line (pending g) <= l /\ 0 <= c /\ 0 <= i /\ 0 <= sl /\ 0 <= sc.
Proof. unfold validate_source_mapping_args. by repeat case_if. Qed.

(** Sources, names and contents do not matter. *)
Lemma simulates_other g g' st :
  generator_mappings g' = generator_mappings g -> last_ g' = last_ g -> has_last g' = has_last g ->
  pending g' = pending g -> has_pending g' = has_pending g ->
  has_pending_source g' = has_pending_source g -> has_pending_name g' = has_pending_name g ->
  simulates g st -> simulates g' st.
Proof.
  intros E1 E2 E3 E4 E5 E6 E7 [[] Hcur]. split; [split; congruence|].
  destruct (snd st); [destruct Hcur; split; congruence|]. by rewrite E4, E5.
Qed.

Lemma add_source_run f g :
  exists i g', add_source f g = Ok (i, g') /\ forall st, simulates g st -> simulates g' st.
Proof.
  unfold add_source. rewrite (run_bind get _ g g g eq_refl).
  destruct (source_to_source_index_map g !! _); eexists _, _; (split; [reflexivity|]); [done|].
  intros st. by apply simulates_other.
Qed.
Lemma add_name_run n g :
  exists i g', add_name n g = Ok (i, g') /\ forall st, simulates g st -> simulates g' st.
Proof.
  unfold add_name. rewrite (run_bind get _ g g g eq_refl).
  destruct (name_to_name_index_map g !! _); eexists _, _; (split; [reflexivity|]); [done|].
  intros st. by apply simulates_other.
Qed.
Lemma set_source_content_run i content g :
  exists e g', set_source_content i content g = Ok (e, g') /\ forall st, simulates g st -> simulates g' st.
Proof.
  unfold set_source_content. rewrite (run_bind get _ g g g eq_refl).
  destruct (_ || _); eexists _, _; (split; [reflexivity|]); [done|].
  intros st. by apply simulates_other.
Qed.

Lemma serve_simulates g st r :
  simulates g st -> bounded r ->
  exists m g', serve r g = Ok (m, g')
    /\ simulates g' (match m with Some m => add st m | None => st end).
Proof.
  intros Hs Hb. pose proof (simulates_pending_line g st Hs) as Hpl.
  destruct r as [f|n|i content|l c|l c i sl sc|l c i sl sc n]; cbn [serve bounded] in *.
  - destruct (add_source_run f g) as (i & g' & E & Hg). exists None, g'. split; [|by apply Hg].
    by rewrite (run_bind _ _ _ _ _ E).
  - destruct (add_name_run n g) as (i & g' & E & Hg). exists None, g'. split; [|by apply Hg].
    by rewrite (run_bind _ _ _ _ _ E).
  - destruct (set_source_content_run i content g) as (e & g' & E & Hg). exists None, g'. split; [|by apply Hg].
    by rewrite (run_bind _ _ _ _ _ E).
  - assert (forall e g', add_generated_mapping overflow_checks l c g = Ok (e, g') ->
      (accepted (mkMapping l c (-1) (-1) (-1) (-1)) <$> add_generated_mapping overflow_checks l c) g
      = Ok (accepted (mkMapping l c (-1) (-1) (-1) (-1)) e, g')) as Hrun by (intros; by apply run_fmap).
    unfold add_generated_mapping in Hrun at 1. rewrite (run_bind get _ g g g eq_refl) in Hrun.
    destruct (Z.ltb_spec l (generated_line (pending g))); [by exists None, g; rewrite (Hrun _ _ eq_refl)|].
    destruct (Z.ltb_spec c 0); [by exists None, g; rewrite (Hrun _ _ eq_refl)|].
    destruct (add_simulates g st (mkMapping l c (-1) (-1) (-1) (-1)) Hs) as (g' & E & Hs'); [| |eexists (Some _), g'; split; [|exact Hs']].
    + by split; [unfold small; cbn; lia..|right|left].
    + done.
    + apply (Hrun None). by rewrite (run_bind _ _ _ _ _ E).
  - assert (forall e g', add_source_mapping overflow_checks l c i sl sc g = Ok (e, g') ->
      (accepted (mkMapping l c i sl sc (-1)) <$> add_source_mapping overflow_checks l c i sl sc) g
      = Ok (accepted (mkMapping l c i sl sc (-1)) e, g')) as Hrun by (intros; by apply run_fmap).
    unfold add_source_mapping in Hrun at 1. rewrite (run_bind get _ g g g eq_refl) in Hrun.
    destruct (validate_source_mapping_args _ _ _ _ _ _) eqn:Ev; [by exists None, g; rewrite (Hrun _ _ eq_refl)|].
    apply validate_none in Ev.
    destruct (add_simulates g st (mkMapping l c i sl sc (-1)) Hs) as (g' & E & Hs'); [| |eexists (Some _), g'; split; [|exact Hs']].
    + by split; [unfold small; cbn; lia..|left; unfold small; cbn; lia|left].
    + cbn. lia.
    + apply (Hrun None). by rewrite (run_bind _ _ _ _ _ E).
  - assert (forall e g', add_named_source_mapping overflow_checks l c i sl sc n g = Ok (e, g') ->
      (accepted (mkMapping l c i sl sc n) <$> add_named_source_mapping overflow_checks l c i sl sc n) g
      = Ok (accepted (mkMapping l c i sl sc n) e, g')) as Hrun by (intros; by apply run_fmap).
    unfold add_named_source_mapping in Hrun at 1. rewrite (run_bind get _ g g g eq_refl) in Hrun.
    destruct (validate_source_mapping_args _ _ _ _ _ _) eqn:Ev; [by exists None, g; rewrite (Hrun _ _ eq_refl)|].
    apply validate_none in Ev. destruct (_ || _) eqn:En; [by exists None, g; rewrite (Hrun _ _ eq_refl)|]. bool_to_prop.
    destruct (add_simulates g st (mkMapping l c i sl sc n) Hs) as (g' & E & Hs'); [| |eexists (Some _), g'; split; [|exact Hs']].
    + split; [unfold small; cbn; lia..|left; unfold small; cbn; lia|right; unfold small; cbn; lia].
    + cbn. lia.
    + apply (Hrun None). by rewrite (run_bind _ _ _ _ _ E).
Qed.

Lemma serve_all_simulates rs g st :
  simulates g st -> Forall bounded rs ->
  exists ms g', serve_all rs g = Ok (ms, g') /\ simulates g' (fold_left add ms st).
Proof.
  intros Hs Hf. revert g st Hs. induction Hf as [|r rs Hr Hf IH]; intros g st Hs; [by exists [], g|].
  destruct (serve_simulates g st r Hs Hr) as (m & g1 & E & Hs1).
  destruct (IH g1 _ Hs1) as (ms & g2 & E2 & Hs2). exists (option_list m ++ ms), g2. split.
  - cbn [serve_all]. rewrite (run_bind _ _ _ _ _ E). by rewrite (run_bind _ _ _ _ _ E2).
  - by destruct m.
Qed.
End generator.

(** Mappings with different generated positions do not merge. *)
Fixpoint neighbours_differ (ms : list Mapping) : Prop :=
  match ms with
  | m :: (m' :: _) as ms' => same_generated m m' = false /\ neighbours_differ ms'
  | _ => True
  end.

Lemma neighbours_snoc ms y x :
  neighbours_differ (ms ++ [y; x]) -> neighbours_differ (ms ++ [y]) /\ same_generated y x = false.
Proof.
  induction ms as [|a ms IH]; cbn [app]; [by intros [? _]|].
  destruct ms as [|b ms]; cbn [app] in *; [by intros (? & ? & _)|]. intros [H1 H2].
  destruct (IH H2) as [H3 H4]. done.
Qed.

Lemma same_generated_position ms y x :
  same_generated y x = false -> position (ms ++ [y]) <> advance (position (ms ++ [y])) x.
Proof.
  intros Hs E. rewrite mapping_position_snoc in E. unfold same_generated in Hs.
  pose proof (f_equal generated_line E) as E1. pose proof (f_equal generated_character E) as E2. cbn in E1, E2.
  by rewrite E1, E2, !Z.eqb_refl in Hs.
Qed.

Lemma commit_differs ms x : neighbours_differ (ms ++ [x]) -> commit ms x = ms ++ [x].
Proof.
  unfold commit. destruct ms as [|y ms _] using rev_ind; [done|]. rewrite <- app_assoc. intros Hn.
  apply neighbours_snoc in Hn as [_ Hs]. apply (same_generated_position ms) in Hs.
  by rewrite (bool_decide_eq_false_2 _ Hs), andb_false_r.
Qed.

Lemma merged_differs ms : neighbours_differ ms -> merged ms = ms.
Proof.
  intros Hn. unfold merged. destruct ms as [|x ms _] using rev_ind; [done|].
  assert (fold_left add (ms ++ [x]) ([], None) = (ms, Some x)) as ->; [|by apply commit_differs].
  revert x Hn. induction ms as [|y ms IH] using rev_ind; intros x Hn; [done|].
  rewrite <- app_assoc in Hn. apply neighbours_snoc in Hn as [Hn Hs].
  rewrite fold_left_app, (IH y Hn). cbn [fold_left add]. rewrite Hs. cbn [andb]. by rewrite commit_differs.
Qed.

(** C6. Decoding a generated source map gives the mappings that were added: after any requests to a new
    generator, with numbers below 2{^30}, nothing panics, and the iterator of [decode_mappings] on the
    mappings of [raw_source_map] yields, without an error, the accepted mappings with those of the same
    generated position merged; where neighbours have different generated positions it yields exactly
    the accepted mappings. *)
Theorem mappings_roundtrip `{CaseMapping} (checks checks' : bool) (file root directory : bytes)
    (options : ComparePathsOptions) (rs : list request) :
  Forall bounded rs ->
  exists ms g raw g' d,
    serve_all checks rs (new_generator file root directory options) = Ok (ms, g)
    /\ raw_source_map checks g = Ok (raw, g')
    /\ collect_mappings checks' (decode_mappings (raw_mappings raw)) = Ok (merged ms, d)
    /\ error d = None
    /\ (neighbours_differ ms -> merged ms = ms).
Proof.
  intros Hf. set (g0 := new_generator file root directory options).
  assert (simulates g0 ([], None)) as Hs0 by by split.
  destruct (serve_all_simulates checks rs g0 _ Hs0 Hf) as (ms & g & E & Hs).
  destruct (finish_simulates checks g _ Hs) as (g' & E' & Hw).
  destruct (collect_encode checks' (merged ms)) as (d & Ed & He); [by apply (wrote_chain _ _ Hw)|].
  eexists ms, g, _, g', d. split_and!; [done| | |done|apply merged_differs].
  - unfold raw_source_map. rewrite (run_bind _ _ _ _ _ E'). reflexivity.
  - cbn [raw_mappings]. rewrite (wrote_text _ _ Hw). exact Ed.
Qed.

#[local] Instance ascii_case : CaseMapping := { to_lowercase := fun ch => [ch] }.

Lemma mappings_roundtrip_witness :
  exists ms g raw g' d,
    serve_all true [AddSource (bstr "/a.ts"); AddSourceMapping 0 0 0 0 4; AddGeneratedMapping 2 7]
      (new_generator (bstr "a.js") [] (bstr "/") (mkOptions true (bstr "/"))) = Ok (ms, g)
    /\ raw_source_map true g = Ok (raw, g')
    /\ collect_mappings true (decode_mappings (raw_mappings raw)) = Ok (merged ms, d)
    /\ error d = None
    /\ (neighbours_differ ms -> merged ms = ms).
Proof.
  apply (mappings_roundtrip true true). constructor; [done|]. constructor; [cbn; lia|].
  constructor; [cbn; lia|constructor].
Defined.

Example mappings_example :
  raw_mappings <$> match (serve_all true [AddSource (bstr "/a.ts"); AddSourceMapping 0 0 0 0 4;
      AddGeneratedMapping 2 7] ;; raw_source_map true)
      (new_generator (bstr "a.js") [] (bstr "/") (mkOptions true (bstr "/"))) with
    | Ok (raw, _) => Some raw | _ => None end = Some (bstr "AAAI;;O").
Proof. vm_compute. reflexivity. Qed.
