(* ===== verification/SourceMapSafe.v ===== *)
(** * SourceMapSafe: decoding any text

    In a build without overflow checks the decoder reads every text to its end; in one with checks a number
    with more than seven digits makes it panic. *)
From S2P Require Import Prelude Text Chars Trivia Monad Numerals Strs Path SourceMap SourceMapThm.

(** ** Termination *)
Definition grows (d d' : MappingsDecoder) : Prop :=
  mappings d' = mappings d /\ (decoder_pos d <= decoder_pos d')%nat.
(** A decoder before a character moved past it. *)
Definition moves (d d' : MappingsDecoder) : Prop :=
  grows d d' /\ (mappings d !! decoder_pos d <> None -> (decoder_pos d < decoder_pos d')%nat).

Lemma grows_refl d : grows d d.
Proof. done. Qed.
Lemma grows_trans d1 d2 d3 : grows d1 d2 -> grows d2 d3 -> grows d1 d3.
Proof. unfold grows. intros [-> ?] [-> ?]. split; [done|lia]. Qed.
Lemma moves_grows d1 d2 d3 : moves d1 d2 -> grows d2 d3 -> moves d1 d3.
Proof.
  intros [H1 H2] H3. split; [by eapply grows_trans|]. intros Hn. specialize (H2 Hn). destruct H3. lia.
Qed.
#[local] Hint Resolve grows_refl grows_trans moves_grows : ts.

Lemma wp_checked {S} x (Q : Z -> S -> Prop) (s : S) : Q (as_i32 x) s -> wp (checked_i32 false x) Q s.
Proof. done. Qed.
Lemma wp_shl {S} x n (Q : Z -> S -> Prop) (s : S) :
  Q (as_i32 (Z.shiftl x (n mod 32))) s -> wp (shl_i32 false x n) Q s.
Proof. done. Qed.

Lemma lookup_remaining (d : MappingsDecoder) (ch : Z) :
  mappings d !! decoder_pos d = Some ch -> (decoder_pos d < length (mappings d))%nat.
Proof. apply lookup_lt_Some. Qed.

Lemma vlq_step_wp l d :
  wp (vlq_step false l) (fun r d' => grows d d'
    /\ (mappings d !! decoder_pos d <> None -> (decoder_pos d < decoder_pos d')%nat)
    /\ match r with inl _ => (decoder_pos d < decoder_pos d' <= length (mappings d))%nat | inr _ => True end) d.
Proof.
  destruct l as [shift value]. unfold vlq_step. apply wp_bind, wp_get.
  destruct (mappings d !! decoder_pos d) as [ch|] eqn:E; [|by apply wp_bind, wp_modify].
  apply lookup_remaining in E. apply wp_bind, wp_modify. cbn [decoder_pos mappings].
  case_if; [by apply wp_bind, wp_modify, wp_ret; repeat split; cbn; lia|].
  apply wp_bind, wp_shl, wp_bind, wp_checked.
  case_if; [|case_if]; [apply wp_ret|apply wp_ret|apply wp_fmap, wp_checked]; repeat split; cbn; lia.
Qed.

Lemma vlq_wp d : wp (base64_vlq_format_decode false) (fun _ d' => moves d d') d.
Proof.
  unfold base64_vlq_format_decode. apply wp_bind, wp_get.
  apply (wp_iter _ (fun _ d1 => grows d d1 /\ (decoder_pos d1 <= length (mappings d1) \/ d1 = d)%nat
      /\ (d1 = d \/ (decoder_pos d < decoder_pos d1)%nat))
    (fun _ d1 => (length (mappings d1) - decoder_pos d1)%nat)); [|split; auto with ts|lia].
  intros l d1 (Hg & Hl & Hor). eapply wp_mono; [apply vlq_step_wp|]. intros [l'|v] d2; cbn.
  - intros (Hg2 & _ & Hlt). pose proof Hg2 as [Hm _]. rewrite Hm.
    split; [|lia]. split; [by eapply grows_trans|]. split; [left; lia|]. right. destruct Hor as [->|]; [lia|lia].
  - intros (Hg2 & Hn & _). split; [by eapply grows_trans|]. intros Hs. destruct Hor as [->|]; [by apply Hn|].
    destruct Hg2. lia.
Qed.

Lemma decode_field_wp field set e k d :
  (forall d1, moves d d1 -> wp k (fun _ d' => grows d1 d') d1) ->
  wp (decode_field false field set e k) (fun _ d' => moves d d') d.
Proof.
  intros Hk. unfold decode_field. apply wp_bind. eapply wp_mono; [apply vlq_wp|]. intros v d1 Hd1.
  apply wp_bind, wp_gets, wp_bind, wp_checked, wp_bind, wp_modify, wp_bind, wp_get.
  set (d2 := mkDecoder _ _ _ _ _). assert (moves d d2) as Hd2 by done.
  case_if; [|case_if].
  - by apply wp_bind, wp_modify, wp_ret.
  - by apply wp_bind, wp_modify, wp_bind, wp_modify, wp_ret.
  - eapply wp_mono; [by apply Hk|]. intros r d3 Hd3. by eapply moves_grows.
Qed.

Lemma decode_field_grows field set e k d :
  (forall d1, moves d d1 -> wp k (fun _ d' => grows d1 d') d1) ->
  wp (decode_field false field set e k) (fun _ d' => grows d d') d.
Proof. intros Hk. eapply wp_mono; [by apply decode_field_wp|]. by intros r d' [Hg _]. Qed.

Lemma if_segment_end_wp a b Q d : wp a Q d -> wp b Q d -> wp (if_segment_end a b) Q d.
Proof. intros Ha Hb. unfold if_segment_end. apply wp_bind, wp_get. by case_if. Qed.

Lemma stop_error_wp e d : wp (set_error_and_stop_iterating e) (fun _ d' => grows d d') d.
Proof. done. Qed.
Lemma captured_wp a b d : wp (captured a b) (fun _ d' => grows d d') d.
Proof. done. Qed.
#[local] Hint Resolve stop_error_wp captured_wp : ts.

Lemma next_segment_wp d : wp (next_segment false) (fun _ d' => moves d d') d.
Proof.
  unfold next_segment. apply decode_field_wp. intros d1 _.
  repeat (apply if_segment_end_wp; [auto with ts|]; first [apply decode_field_grows; intros ? _|auto with ts]).
Qed.

(** ** The loops *)
Lemma next_step_wp d :
  wp (next_step false tt) (fun r d' => grows d d'
    /\ match r with
       | inr None => True
       | _ => mappings d !! decoder_pos d <> None /\ (decoder_pos d < decoder_pos d')%nat
       end) d.
Proof.
  unfold next_step. apply wp_bind, wp_get. case_if; [by apply wp_fmap, wp_bind, wp_modify, wp_ret|].
  destruct (mappings d !! decoder_pos d) as [ch|] eqn:E; [|by apply wp_fmap, wp_bind, wp_modify, wp_ret].
  apply lookup_remaining in E as Hl. case_if; [|case_if].
  - apply wp_bind, wp_checked, wp_bind, wp_modify, wp_bind, wp_modify, wp_ret. repeat split; cbn; (done || lia).
  - apply wp_bind, wp_modify, wp_ret. repeat split; cbn; (done || lia).
  - apply wp_fmap. eapply wp_mono; [apply next_segment_wp|]. intros r d' [Hg Hm].
    split; [done|]. rewrite E in Hm. destruct r; [|done]. split; [done|by apply Hm].
Qed.

Lemma next_mapping_wp d :
  wp (next_mapping false) (fun m d' => grows d d'
    /\ match m with
       | Some _ => mappings d !! decoder_pos d <> None /\ (decoder_pos d < decoder_pos d')%nat
       | None => True end) d.
Proof.
  unfold next_mapping. apply wp_bind, wp_get.
  apply (wp_iter _ (fun _ d1 => grows d d1
      /\ (d1 = d \/ mappings d !! decoder_pos d <> None /\ (decoder_pos d < decoder_pos d1)%nat))
    (fun _ d1 => (length (mappings d1) - decoder_pos d1)%nat)); [|by split; [auto with ts|left]|lia].
  intros [] d1 [Hg Hor]. eapply wp_mono; [apply next_step_wp|]. intros r d2 [Hg2 Hr].
  destruct Hg as [Hg1 Hg1'], Hg2 as [Hg2 Hg2'].
  assert ((decoder_pos d1 < decoder_pos d2)%nat -> mappings d1 !! decoder_pos d1 <> None ->
    mappings d !! decoder_pos d <> None /\ (decoder_pos d < decoder_pos d2)%nat) as Hstart.
  { intros Hlt Hn. destruct Hor as [->|[? ?]]; (split; [done|lia]). }
  destruct r as [[]|[m|]].
  - destruct Hr as [Hn Hlt]. assert (decoder_pos d1 < length (mappings d1))%nat as Hl.
    { destruct (mappings d1 !! decoder_pos d1) eqn:E; [by eapply lookup_remaining|done]. }
    rewrite Hg2. split; [|lia]. split; [split; [congruence|lia]|]. right. by apply Hstart.
  - destruct Hr as [Hn Hlt]. split; [split; [congruence|lia]|]. by apply Hstart.
  - split; [split; [congruence|lia]|done].
Qed.

Lemma collect_total s : exists ms d, collect_mappings false (decode_mappings s) = Ok (ms, d).
Proof.
  assert (wp (collect_mappings false) (fun _ _ => True) (decode_mappings s)) as Hw.
  { unfold collect_mappings. apply wp_bind, wp_get.
    apply (wp_iter _ (fun _ _ => True) (fun _ d1 => (length (mappings d1) - decoder_pos d1)%nat)); [|done|cbn; lia].
    intros acc d1 _. unfold collect_step. apply wp_bind. eapply wp_mono; [apply next_mapping_wp|].
    intros [m|] d2 [[Hm _] Hr]; apply wp_ret; [|done]. split; [done|]. destruct Hr as [Hn Hlt].
    destruct (mappings d1 !! decoder_pos d1) eqn:E; [|done]. apply lookup_remaining in E. rewrite Hm. lia. }
  apply wp_run in Hw as (ms & d & E & _). by exists ms, d.
Qed.

(** ** Overflow *)

(** Seven digits that announce another one, and an eighth one. *)
Definition long_number (ds : bytes) (ch : byte) : Prop :=
  length ds = 7%nat /\ Forall (fun d => 32 <= base64_format_decode d) ds /\ 0 <= base64_format_decode ch.

Lemma base64_format_decode_range ch : -1 <= base64_format_decode ch < 64.
Proof. unfold base64_format_decode. repeat case_if; lia. Qed.

Lemma long_number_panics ds ch rest fuel shift value d :
  drop (decoder_pos d) (mappings d) = ds ++ ch :: rest -> Forall (fun d => 32 <= base64_format_decode d) ds ->
  0 <= base64_format_decode ch -> 0 <= shift -> shift + 5 * Z.of_nat (length ds) = 35 ->
  (length ds < fuel)%nat -> iter fuel (vlq_step true) (shift, value) d = Panic.
Proof.
  revert fuel shift value d. induction ds as [|b ds IH]; intros fuel shift value d Hd Hf Hch Hs He Hfu;
    (destruct fuel as [|fuel]; [cbn in Hfu; lia|]); cbn [iter].
  - apply drop_lookup in Hd as [Hc _]. cbn in He.
    assert (vlq_step true (shift, value) d = Panic) as E; [|by apply panic_bind].
    unfold vlq_step. rewrite (run_bind get _ d d d eq_refl), Hc, (run_bind advance_decoder _ d tt _ eq_refl).
    rewrite (proj2 (Z.eqb_neq _ (-1))) by lia. replace shift with 35 by lia. done.
  - apply Forall_cons in Hf as [Hb Hf]. pose proof (base64_format_decode_range b) as Hr.
    apply drop_lookup in Hd as [Hc Hd]. cbn in He, Hfu.
    set (value' := Z.lor value (as_i32 (Z.shiftl (Z.land (base64_format_decode b) 31) (shift mod 32)))).
    assert (vlq_step true (shift, value) d = Ok (inl (shift + 5, value'), move_decoder 1 d)) as E.
    { unfold vlq_step. rewrite (run_bind get _ d d d eq_refl), Hc, (run_bind advance_decoder _ d tt _ eq_refl).
      rewrite (proj2 (Z.eqb_neq _ (-1))) by lia. unfold shl_i32.
      rewrite (proj2 (Z.leb_le 0 shift)), (proj2 (Z.ltb_lt shift 32)) by lia. cbn [andb negb].
      rewrite (run_bind (mret _) _ _ _ _ eq_refl).
      rewrite (run_bind _ _ _ _ _ (add_i32_run true shift 5 (move_decoder 1 d) ltac:(lia))).
      rewrite land_32 by lia. by rewrite (proj2 (Z.ltb_ge _ 32)) by lia. }
    rewrite (run_bind _ _ _ _ _ E). apply IH; [exact Hd|done|done|lia|lia|lia].
Qed.

(** C29. The decoder is total only without overflow checks: in a build without them it reads every text to
    its end, and in one with them it panics on every text that begins with a number of more than seven
    digits, where the shift count exceeds the width of an [i32]. *)
Theorem decoder_shift_overflow (s ds : bytes) (ch : byte) (rest : bytes) :
  long_number ds ch ->
  (exists ms d, collect_mappings false (decode_mappings s) = Ok (ms, d))
  /\ next_mapping true (decode_mappings (ds ++ ch :: rest)) = Panic.
Proof.
  intros (Hl & Hf & Hch). split; [apply collect_total|].
  set (d := decode_mappings (ds ++ ch :: rest)). unfold next_mapping. rewrite (run_bind get _ d d d eq_refl).
  cbn [iter]. assert (next_step true tt d = Panic) as E; [|by apply panic_bind].
  destruct ds as [|b ds]; [done|]. pose proof Hf as [Hb _]%Forall_cons.
  unfold next_step. rewrite (run_bind get _ d d d eq_refl). cbn [done_ d decode_mappings].
  change (mappings d !! decoder_pos d) with (Some b). cbv beta iota.
  destruct (Z.eqb_spec b 59) as [->|]; [done|]. destruct (Z.eqb_spec b 44) as [->|]; [done|].
  assert (base64_vlq_format_decode true d = Panic) as E.
  { unfold base64_vlq_format_decode. rewrite (run_bind get _ d d d eq_refl).
    apply (long_number_panics (b :: ds) ch rest); [done|done|done|lia|rewrite Hl; lia|].
    subst d. cbn [mappings decode_mappings]. rewrite length_app. lia. }
  apply panic_bind. unfold next_segment, decode_field. by apply panic_bind.
Qed.

Lemma decoder_shift_overflow_witness :
  (exists ms d, collect_mappings false (decode_mappings (bstr "gggggggA")) = Ok (ms, d))
  /\ next_mapping true (decode_mappings (bstr "ggggggg" ++ chr "A" :: [])) = Panic.
Proof.
  apply decoder_shift_overflow. split; [done|]. split; [|by vm_compute].
  repeat (apply Forall_cons; split; [by vm_compute|]). apply Forall_nil. done.
Defined.
