(* ===== verification/Glob.v ===== *)
(** * Glob: glob patterns (ts-glob/src/lib.rs)

    [parse] reads a pattern into elements, [match_input] matches an input against them by backtracking. A
    [str] is the list of its characters: every position the code slices at is a character boundary. *)
From S2P Require Import Prelude Text Chars Trivia Numerals Strs.

(** ** Elements *)

(** [element]; a [Glob] is the list of its elements. *)
Inductive Element : Type :=
  | Slash
  | Literal (l : str)
  | Star
  | AnyChar
  | StarStar
  | Group (gs : list (list Element))
  | CharRange (negate : bool) (low high : char).
Abbreviation Glob := (list Element) (only parsing).

Definition is_slash (e : Element) : bool := match e with Slash => true | _ => false end.

Inductive GlobError : Type :=
  | BadRange
  | StarStar_may_only_be_adjacent_to_slash
  | Unmatched_brace.

(** ** Parsing *)

(** [Result<Glob, GlobError>] with the rest of the pattern; [None] is running out of fuel, which never
    happens. *)
Abbreviation parsed A := (option (GlobError + A)) (only parsing).

Definition special (nested : bool) (ch : char) : bool :=
  (ch =? chr "*") || (ch =? chr "?") || (ch =? chr "{") || (ch =? chr "[") || (ch =? chr "/")
  || nested && ((ch =? chr "}") || (ch =? chr ",")).

(** [parse_literal]: the literal and the rest. *)
Fixpoint parse_literal (nested : bool) (pattern : str) : str * str :=
  match pattern with
  | [] => ([], [])
  | ch :: rest =>
      if special nested ch then ([], pattern)
      else let '(l, rest) := parse_literal nested rest in (ch :: l, rest)
  end.

(** [read_range_rune] *)
Definition read_range_rune (input : str) : GlobError + char * str :=
  match input with [] => inl BadRange | r :: rest => inr (r, rest) end.

Definition expect (ch : char) (pattern : str) : GlobError + str :=
  match pattern with c :: rest => if c =? ch then inr rest else inl BadRange | [] => inl BadRange end.

(** The range after [\[]. *)
Definition parse_range (pattern : str) : GlobError + Element * str :=
  match pattern with
  | [] => inl BadRange
  | ch :: rest =>
      let '(negate, pattern) := if ch =? chr "!" then (true, rest) else (false, pattern) in
      match read_range_rune pattern with
      | inl e => inl e
      | inr (low, pattern) =>
          match expect (chr "-") pattern with
          | inl e => inl e
          | inr pattern =>
              match read_range_rune pattern with
              | inl e => inl e
              | inr (high, pattern) =>
                  match expect (chr "]") pattern with
                  | inl e => inl e
                  | inr pattern => inr (CharRange negate low high, pattern)
                  end
              end
          end
      end
  end.

(** [**] stands at the start or after a slash, and before the end or a slash. *)
Definition star_star_allowed (g : Glob) (rest : str) : bool :=
  match last g with None => true | Some e => is_slash e end
  && match rest with [] => true | c :: _ => c =? chr "/" end.

(** [parse_worker] with the elements so far, and its loop over the members of a group. *)
Fixpoint parse_worker (fuel : nat) (g : Glob) (pattern : str) (nested : bool) : parsed (Glob * str) :=
  match fuel with
  | O => None
  | S fuel =>
      let literal := fun _ : unit =>
        let '(l, rest) := parse_literal nested pattern in parse_worker fuel (g ++ [Literal l]) rest nested in
      match pattern with
      | [] => Some (inr (g, []))
      | ch :: rest =>
          if ch =? chr "/" then parse_worker fuel (g ++ [Slash]) rest nested
          else if ch =? chr "*" then
            match rest with
            | 42 :: rest' =>
                if star_star_allowed g rest' then parse_worker fuel (g ++ [StarStar]) rest' nested
                else Some (inl StarStar_may_only_be_adjacent_to_slash)
            | _ => parse_worker fuel (g ++ [Star]) rest nested
            end
          else if ch =? chr "?" then parse_worker fuel (g ++ [AnyChar]) rest nested
          else if ch =? chr "{" then
            match parse_group fuel [] pattern with
            | None => None
            | Some (inl e) => Some (inl e)
            | Some (inr (gs, rest)) =>
                match rest with
                | [] => Some (inl Unmatched_brace)
                | _ :: rest => parse_worker fuel (g ++ [Group gs]) rest nested
                end
            end
          else if (ch =? chr "}") || (ch =? chr ",") then
            if nested then Some (inr (g, pattern)) else literal tt
          else if ch =? chr "[" then
            match parse_range rest with
            | inl e => Some (inl e)
            | inr (e, rest) => parse_worker fuel (g ++ [e]) rest nested
            end
          else literal tt
      end
  end
with parse_group (fuel : nat) (gs : list Glob) (pattern : str) : parsed (list Glob * str) :=
  match fuel with
  | O => None
  | S fuel =>
      match pattern with
      | [] => Some (inr (gs, []))
      | ch :: rest =>
          if ch =? chr "}" then Some (inr (gs, pattern))
          else
            match parse_worker fuel [] rest true with
            | None => None
            | Some (inl e) => Some (inl e)
            | Some (inr (_, [])) => Some (inl Unmatched_brace)
            | Some (inr (group_g, pat)) => parse_group fuel (gs ++ [group_g]) pat
            end
      end
  end.

Definition parse (pattern : str) : parsed Glob :=
  match parse_worker (2 * length pattern + 2) [] pattern false with
  | None => None
  | Some (inl e) => Some (inl e)
  | Some (inr (g, _)) => Some (inr g)
  end.

(** ** Printing *)
Fixpoint print_element (e : Element) : str :=
  match e with
  | Slash => bstr "/"
  | Literal l => l
  | Star => bstr "*"
  | AnyChar => bstr "?"
  | StarStar => bstr "**"
  | Group gs => bstr "{" ++ join (bstr ",") (map (flat_map print_element) gs) ++ bstr "}"
  | CharRange _ low high => bstr "[" ++ [low] ++ bstr "-" ++ [high] ++ bstr "]"
  end.
Definition print (g : Glob) : str := flat_map print_element g.

(** ** Matching *)

(** The rest of the input after the slashes it starts with. *)
Definition skip_slashes (input : str) : str := trim_start_while (Z.eqb (chr "/")) input.

(** [split]: before and after the first slashes. *)
Fixpoint split_segment (input : str) : str * str :=
  match input with
  | [] => ([], [])
  | ch :: rest =>
      if ch =? chr "/" then ([], skip_slashes input)
      else let '(first, after) := split_segment rest in (ch :: first, after)
  end.

(** The elements before the first slash, and the others. *)
Fixpoint segment_elements (elems : Glob) : Glob * Glob :=
  match elems with
  | [] => ([], [])
  | e :: rest =>
      if is_slash e then ([], elems)
      else let '(seg, after) := segment_elements rest in (e :: seg, after)
  end.

(** The inputs the loop of [**] tries, one segment less each time. *)
Fixpoint star_star_inputs (fuel : nat) (input : str) : list str :=
  match fuel, input with
  | S fuel, _ :: _ => input :: star_star_inputs fuel (snd (split_segment input))
  | _, _ => []
  end.

(** The suffixes that start at a character. *)
Fixpoint suffixes (input : str) : list str :=
  match input with [] => [] | _ :: rest => input :: suffixes rest end.

(** Whether a candidate answers [true], in order; [None] is running out of fuel. *)
Fixpoint any_match {A} (f : A -> option bool) (candidates : list A) : option bool :=
  match candidates with
  | [] => Some false
  | x :: candidates =>
      match f x with Some false => any_match f candidates | answer => answer end
  end.

Fixpoint matches (fuel : nat) (elems : Glob) (input : str) : option bool :=
  match fuel with
  | O => None
  | S fuel =>
      match elems with
      | [] => Some (bool_decide (input = []))
      | Slash :: elems =>
          match input with
          | 47 :: _ => matches fuel elems (skip_slashes input)
          | _ => Some false
          end
      | StarStar :: elems =>
          match tail elems with
          | [] => Some true
          | elems => any_match (matches fuel elems) (star_star_inputs (length input) input)
          end
      | Literal literal :: elems =>
          match strip_prefix literal input with
          | Some input => matches fuel elems input
          | None => Some false
          end
      | Star :: elems =>
          let '(seg_input, input) := split_segment input in
          let '(seg_elems, elems) := segment_elements elems in
          match seg_elems with
          | [] => matches fuel elems input
          | _ =>
              match any_match (matches fuel seg_elems) (suffixes seg_input) with
              | Some true => matches fuel elems input
              | answer => answer
              end
          end
      | AnyChar :: elems =>
          match input with
          | [] => Some false
          | c :: input => if c =? chr "/" then Some false else matches fuel elems input
          end
      | Group group :: elems => any_match (fun m => matches fuel (m ++ elems) input) group
      | CharRange _ low high :: elems =>
          match input with
          | [] => Some false
          | c :: input =>
              if c =? chr "/" then Some false
              else if (c <? low) || (high <? c) then Some false
              else matches fuel elems input
          end
      end
  end.

(** The number of steps a pattern can take: a group is replaced by one of its members. *)
Fixpoint element_size (e : Element) : nat :=
  match e with
  | Group gs => S (sum_list_with (sum_list_with element_size) gs)
  | _ => 1
  end.
Definition size (elems : Glob) : nat := sum_list_with element_size elems.

Definition match_input (g : Glob) (input : str) : option bool := matches (S (size g)) g input.
