(* ===== verification/GlobThm.v ===== *)
(** * GlobThm: parsing and matching globs

    Parsing is total and printing inverts it, but for negations; matching is total and, for patterns without
    [*] or negation in which nothing optional follows [**/], is what the documentation says; a star never matches before
    a slash and negations are ignored. *)
From S2P Require Import Prelude Text Chars Trivia Numerals Strs Glob.

(** ** Parsing and printing *)

(** A pattern without negated ranges. *)
Fixpoint plain_element (e : Element) : bool :=
  match e with
  | Group gs => forallb (forallb plain_element) gs
  | CharRange negate _ _ => negb negate
  | _ => true
  end.
Definition plain (g : Glob) : bool := forallb plain_element g.

Lemma plain_app g h : plain (g ++ h) = plain g && plain h.
Proof. apply forallb_app. Qed.
Lemma print_app g h : print (g ++ h) = print g ++ print h.
Proof. apply flat_map_app. Qed.

(** The text between [pattern] and [rest] is what [h] prints. *)
Definition prints (h : Glob) (pattern rest : str) : Prop := plain h = true -> pattern = print h ++ rest.

Lemma parse_literal_spec nested pattern l rest :
  parse_literal nested pattern = (l, rest) -> pattern = l ++ rest.
Proof.
  revert l. induction pattern as [|ch pattern IH]; intros l; cbn [parse_literal]; [by intros [= <- <-]|].
  destruct (special nested ch); [by intros [= <- <-]|]. destruct (parse_literal nested pattern) as [l' r'].
  intros [= <- <-]. cbn. by rewrite <- (IH l').
Qed.

Lemma expect_some ch pattern rest : expect ch pattern = inr rest -> pattern = ch :: rest.
Proof. unfold expect. destruct pattern as [|c p]; [done|]. case_if; [|done]. intros [= <-]. by subst. Qed.

Lemma parse_range_spec pattern e rest :
  parse_range pattern = inr (e, rest) ->
  (length rest < length pattern)%nat
  /\ exists negate low high, e = CharRange negate low high
     /\ (negate = false -> 91 :: pattern = print_element e ++ rest).
Proof.
  unfold parse_range. destruct pattern as [|ch pattern]; [done|].
  assert (exists negate p0, (if ch =? chr "!" then (true, pattern) else (false, ch :: pattern)) = (negate, p0)
    /\ (length p0 <= S (length pattern))%nat /\ (negate = false -> p0 = ch :: pattern)) as (negate & p0 & -> & Hl & Hp).
  { case_if; eexists _, _; (split; [reflexivity|]); cbn; (split; [lia|done]). }
  unfold read_range_rune. destruct p0 as [|low p1]; [done|].
  destruct (expect 45 p1) as [|p2] eqn:E1; [done|]. apply expect_some in E1 as ->.
  destruct p2 as [|high p3]; [done|]. destruct (expect 93 p3) as [|p4] eqn:E2; [done|]. apply expect_some in E2 as ->.
  intros [= <- <-]. cbn in *. split; [lia|]. exists negate, low, high. split; [done|]. intros Hn. by rewrite <- (Hp Hn).
Qed.

Definition group_end (rest : str) : Prop := match rest with [] => True | c :: _ => c = 125 end.
Definition nested_end (rest : str) : Prop := match rest with [] => True | c :: _ => c = 125 \/ c = 44 end.

Definition worker_ok (g : Glob) (pattern : str) (nested : bool) (r : GlobError + Glob * str) : Prop :=
  match r with
  | inl _ => True
  | inr (g', rest) =>
      exists h, g' = g ++ h /\ prints h pattern rest /\ (length rest <= length pattern)%nat
        /\ (if nested then nested_end rest else rest = [])
  end.
Definition group_ok (gs : list Glob) (c : char) (pattern : str) (r : GlobError + list Glob * str) : Prop :=
  match r with
  | inl _ => True
  | inr (gs', rest) =>
      exists hs, gs' = gs ++ hs /\ hs <> []
        /\ (forallb plain hs = true -> pattern = join (bstr ",") (map print hs) ++ rest)
        /\ (length rest <= length pattern)%nat /\ group_end rest
  end.

(** One element is parsed and the rest follows. *)
Lemma worker_ok_cons g e pattern rest nested r :
  worker_ok (g ++ [e]) rest nested r -> (length rest < length pattern)%nat ->
  (plain_element e = true -> pattern = print_element e ++ rest) -> worker_ok g pattern nested r.
Proof.
  intros Hr Hl He. destruct r as [|[g' rest']]; [done|]. destruct Hr as (h & -> & Hp & Hle & Hend).
  exists (e :: h). split; [by rewrite <- app_assoc|]. split_and!; [|lia|done].
  intros Hpl. cbn in Hpl. apply andb_true_iff in Hpl as [H1 H2]. rewrite (He H1), (Hp H2).
  cbn [print flat_map]. by rewrite <- app_assoc.
Qed.

Lemma parse_total fuel :
  (forall g pattern nested, (2 * length pattern + 2 <= fuel)%nat ->
    exists r, parse_worker fuel g pattern nested = Some r /\ worker_ok g pattern nested r)
  /\ (forall gs c pattern, (2 * length pattern + 3 <= fuel)%nat -> c <> 125 ->
    exists r, parse_group fuel gs (c :: pattern) = Some r /\ group_ok gs c pattern r).
Proof.
  induction fuel as [|fuel [IHw IHg]]; [split; intros; lia|]. split.
  - intros g pattern nested Hf. cbn [parse_worker].
    assert (forall e rest, (length rest < length pattern)%nat ->
      (plain_element e = true -> pattern = print_element e ++ rest) ->
      exists r, parse_worker fuel (g ++ [e]) rest nested = Some r /\ worker_ok g pattern nested r) as Hnext.
    { intros e rest Hl He. destruct (IHw (g ++ [e]) rest nested) as (r & E & Hr); [lia|].
      exists r. split; [done|]. by eapply worker_ok_cons. }
    destruct pattern as [|ch rest].
    { eexists. split; [done|]. exists []. split; [by rewrite app_nil_r|]. by destruct nested. }
    cbn [length] in *.
    assert (special nested ch = false -> exists r,
      (let '(l, rest) := parse_literal nested (ch :: rest) in parse_worker fuel (g ++ [Literal l]) rest nested) = Some r
      /\ worker_ok g (ch :: rest) nested r) as Hlit.
    { intros Hs. destruct (parse_literal nested (ch :: rest)) as [l rest'] eqn:E.
      pose proof (parse_literal_spec _ _ _ _ E) as El. cbn [parse_literal] in E. rewrite Hs in E.
      destruct (parse_literal nested rest) as [l0 r0]. injection E as <- <-.
      apply Hnext; [|by intros _]. injection El as El. rewrite El, length_app. lia. }
    destruct (Z.eqb_spec ch 47) as [->|H47]; [apply Hnext; [cbn; lia|done]|].
    destruct (Z.eqb_spec ch 42) as [->|H42].
    { destruct rest as [|c rest']; [apply Hnext; [cbn; lia|done]|]. destruct (decide (c = 42)) as [->|Hc].
      - destruct (star_star_allowed g rest'); [|by eexists]. apply Hnext; [cbn; lia|done].
      - assert (exists r, parse_worker fuel (g ++ [Star]) (c :: rest') nested = Some r
          /\ worker_ok g (42 :: c :: rest') nested r) as (r & E & Hr) by (apply Hnext; [cbn; lia|done]).
        exists r. split; [|done]. rewrite <- E. repeat case_match; congruence. }
    destruct (Z.eqb_spec ch 63) as [->|H63]; [apply Hnext; [cbn; lia|done]|].
    destruct (Z.eqb_spec ch 123) as [->|H123].
    { destruct (IHg [] 123 rest) as (r & E & Hr); [lia|done|]. rewrite E.
      destruct r as [e|[gs rest1]]; [by eexists|]. destruct Hr as (hs & Egs & _ & Hp & Hl & Hend).
      cbn [app] in Egs. subst gs. destruct rest1 as [|c rest1]; [by eexists|]. cbn in Hend, Hl. subst c.
      apply Hnext; [lia|]. cbn [plain_element]. intros Hpl. rewrite (Hp Hpl). cbn [print_element].
      rewrite <- !app_assoc. done. }
    destruct ((ch =? 125) || (ch =? 44)) eqn:E44.
    { destruct nested.
      - eexists. split; [done|]. exists []. rewrite app_nil_r. split_and!; [done|done|done|].
        cbn. apply orb_true_iff in E44 as [?|?]; bool_to_prop; auto.
      - apply Hlit. unfold special. rewrite !(proj2 (Z.eqb_neq _ _)) by (try done; intros ->; done). done. }
    destruct (Z.eqb_spec ch 91) as [->|H91].
    { destruct (parse_range rest) as [e|[e rest1]] eqn:E; [by eexists|].
      apply parse_range_spec in E as (Hl & negate & low & high & -> & Hp). apply Hnext; [lia|].
      cbn [plain_element]. intros Hn%negb_true_iff. by apply Hp. }
    apply Hlit. unfold special. rewrite !(proj2 (Z.eqb_neq ch _)) by done. cbn [orb].
    rewrite E44. apply andb_false_r.
  - intros gs c pattern Hf Hc. cbn [parse_group]. rewrite (proj2 (Z.eqb_neq c 125)) by done.
    destruct (IHw [] pattern true) as (r & E & Hr); [lia|]. rewrite E.
    destruct r as [e|[g rest]]; [by eexists|]. destruct Hr as (h & Eg & Hp & Hl & Hend). cbn [app] in Eg. subst g.
    destruct rest as [|c' rest]; [by eexists|].
    destruct Hend as [->| ->].
    + destruct fuel as [|fuel]; [lia|]. cbn [parse_group Z.eqb Pos.eqb]. eexists. split; [done|].
      exists [h]. split_and!; [done|done| |done|done]. cbn. rewrite andb_true_r. exact Hp.
    + destruct (IHg (gs ++ [h]) 44 rest) as (r & E2 & Hr); [cbn in *; lia|done|]. rewrite E2. exists r. split; [done|].
      destruct r as [e|[gs' rest']]; [done|]. destruct Hr as (hs & -> & Hne & Hps & Hl2 & Hend2).
      exists (h :: hs). split_and!; [by rewrite <- app_assoc|done| |cbn in *; lia|done].
      cbn [forallb map]. intros [H1 H2]%andb_true_iff. rewrite (Hp H1), (Hps H2).
      destruct hs as [|h' hs]; [done|]. cbn [map join]. rewrite <- !app_assoc. done.
Qed.

(** C30. Parsing a glob is total, and printing inverts it: [parse] returns a glob or an error for every
    pattern, and a glob without a negated range prints as the pattern it was parsed from. *)
Theorem glob_print_parse (pattern : str) :
  exists r, parse pattern = Some r
    /\ match r with inl _ => True | inr g => plain g = true -> print g = pattern end.
Proof.
  destruct (parse_total (2 * length pattern + 2)) as [Hw _].
  destruct (Hw [] pattern false) as (r & E & Hr); [done|]. unfold parse. rewrite E.
  destruct r as [e|[g rest]]; eexists; (split; [done|]); [done|]. destruct Hr as (h & -> & Hp & _ & ->).
  cbn [app]. intros Hpl. by rewrite (Hp Hpl), app_nil_r.
Qed.

(** ** Matching is total *)
Lemma matches_slash fuel elems input :
  matches (S fuel) (Slash :: elems) input
  = if decide (head input = Some 47) then matches fuel elems (skip_slashes input) else Some false.
Proof.
  cbn [matches]. destruct input as [|c input]; [done|].
  destruct (decide (head (c :: input) = Some 47)) as [H|H]; [by injection H as ->|].
  repeat case_match; try done; subst; by destruct H.
Qed.

Lemma size_app g h : size (g ++ h) = (size g + size h)%nat.
Proof. apply sum_list_with_app. Qed.

Lemma element_size_pos e : (1 <= element_size e)%nat.
Proof. destruct e; cbn; lia. Qed.

Lemma any_match_some {A} (f : A -> option bool) l :
  (forall x, x ∈ l -> f x <> None) -> any_match f l <> None.
Proof.
  induction l as [|x l IH]; intros Hf; [done|]. cbn [any_match].
  destruct (f x) as [[]|] eqn:E; [done| |by destruct (Hf x); [left|]].
  apply IH. intros y Hy. apply Hf. by right.
Qed.

Lemma any_match_true {A} (f : A -> option bool) l :
  any_match f l = Some true -> exists x, x ∈ l /\ f x = Some true.
Proof.
  induction l as [|x l IH]; cbn [any_match]; [done|]. destruct (f x) as [[]|] eqn:E; [| |done].
  - intros _. exists x. by split; [left|].
  - intros Ha. destruct (IH Ha) as (y & Hy & Ey). exists y. by split; [right|].
Qed.

Lemma any_match_intro {A} (f : A -> option bool) l x :
  (forall y, y ∈ l -> f y <> None) -> x ∈ l -> f x = Some true -> any_match f l = Some true.
Proof.
  induction l as [|y l IH]; intros Hf Hx Ex; [by apply elem_of_nil in Hx|]. cbn [any_match].
  destruct (f y) as [[]|] eqn:E; [done| |by destruct (Hf y); [left|]].
  apply elem_of_cons in Hx as [->|Hx]; [congruence|]. apply IH; [|done|done]. intros z Hz. apply Hf. by right.
Qed.

Lemma segment_elements_app elems seg after :
  segment_elements elems = (seg, after) -> elems = seg ++ after.
Proof.
  revert seg. induction elems as [|e elems IH]; intros seg; cbn; [by intros [= <- <-]|].
  destruct (is_slash e); [by intros [= <- <-]|]. destruct (segment_elements elems) as [s a].
  intros [= <- <-]. cbn. f_equal. by apply IH.
Qed.

Lemma group_member_size m gs : m ∈ gs -> (size m <= sum_list_with (sum_list_with element_size) gs)%nat.
Proof.
  induction gs as [|g gs IH]; [by intros ?%elem_of_nil|]. intros [->|Hm]%elem_of_cons; cbn.
  - unfold size. lia.
  - specialize (IH Hm). lia.
Qed.

Lemma matches_total fuel elems input : (size elems < fuel)%nat -> matches fuel elems input <> None.
Proof.
  revert elems input. induction fuel as [|fuel IH]; intros elems input Hf; [lia|].
  destruct elems as [|e elems]; [done|].
  assert (size (e :: elems) = element_size e + size elems)%nat as Hs by done.
  pose proof (element_size_pos e) as He. assert (size elems < fuel)%nat as Hle by lia.
  destruct e as [| l | | | |gs|n lo hi]; [rewrite matches_slash|cbn [matches]..].
  - case_decide; [by apply IH|done].
  - destruct (strip_prefix l input); [by apply IH|done].
  - destruct (split_segment input) as [si ri], (segment_elements elems) as [se ae] eqn:E.
    apply segment_elements_app in E. subst elems. rewrite size_app in Hle.
    assert (forall i, matches fuel ae i <> None) as Ha by (intros; apply IH; lia).
    destruct se as [|e se]; [by apply Ha|].
    assert (any_match (matches fuel (e :: se)) (suffixes si) <> None) as Hany.
    { apply any_match_some. intros i _. apply IH. lia. }
    destruct (any_match _ _) as [[]|]; [by apply Ha|done|done].
  - destruct input as [|c input]; [done|]. case_if; [done|by apply IH].
  - destruct (tail elems) as [|e' tl] eqn:E; [done|]. apply any_match_some. intros i _. rewrite <- E. apply IH.
    destruct elems; cbn in *; lia.
  - apply any_match_some. intros m Hm. apply IH. rewrite size_app. apply group_member_size in Hm.
    cbn [element_size] in Hs. lia.
  - destruct input as [|c input]; [done|]. case_if; [done|]. case_if; [done|by apply IH].
Qed.

(** ** A star before a slash *)
Lemma skip_slashes_head input : head (skip_slashes input) <> Some 47.
Proof.
  unfold skip_slashes. induction input as [|c input IH]; [done|]. cbn [trim_start_while].
  destruct (Z.eqb_spec 47 c); [done|]. cbn. congruence.
Qed.

Lemma split_segment_rest input first after :
  split_segment input = (first, after) -> head after <> Some 47.
Proof.
  revert first. induction input as [|c input IH]; intros first; cbn [split_segment]; [by intros [= <- <-]|].
  case_if.
  - intros [= <- <-]. apply skip_slashes_head.
  - destruct (split_segment input) as [f a]. intros [= <- <-]. by eapply IH.
Qed.

Lemma segment_elements_eq seg after :
  forallb (fun e => negb (is_slash e)) seg = true ->
  match after with [] => True | e :: _ => is_slash e = true end ->
  segment_elements (seg ++ after) = (seg, after).
Proof.
  intros Hs Ha. induction seg as [|e seg IH]; cbn [app segment_elements].
  - destruct after as [|e after]; [done|]. cbn. by rewrite Ha.
  - cbn in Hs. apply andb_true_iff in Hs as [He%negb_true_iff Hs]. by rewrite He, IH.
Qed.

Lemma slash_needs_slash fuel elems input :
  head input <> Some 47 -> matches fuel (Slash :: elems) input <> Some true.
Proof.
  destruct fuel as [|fuel]; [done|]. rewrite matches_slash. by case_decide.
Qed.

Lemma star_slash fuel seg elems input :
  forallb (fun e => negb (is_slash e)) seg = true ->
  matches fuel (Star :: seg ++ Slash :: elems) input <> Some true.
Proof.
  intros Hs. destruct fuel as [|fuel]; [done|]. cbn [matches].
  rewrite segment_elements_eq by done. destruct (split_segment input) as [first after] eqn:E.
  apply split_segment_rest in E. pose proof (slash_needs_slash fuel elems after E).
  destruct seg as [|e seg]; [done|]. by destruct (any_match _ _) as [[]|].
Qed.

(** Elements that can stand before the star: no group, and no [**] at the end. *)
Definition no_group (e : Element) : bool := match e with Group _ => false | _ => true end.
Definition open_prefix (p : Glob) : Prop := forallb no_group p = true /\ last p <> Some StarStar.

Lemma open_prefix_cons e p : open_prefix (e :: p) -> open_prefix p.
Proof.
  intros [Hg Hl]. cbn in Hg. apply andb_true_iff in Hg as [_ Hg]. split; [done|]. by destruct p.
Qed.

Lemma find_slash p :
  forallb (fun e => negb (is_slash e)) p = true
  \/ exists s p', p = s ++ Slash :: p' /\ forallb (fun e => negb (is_slash e)) s = true.
Proof.
  induction p as [|e p [IH|(s & p' & -> & Hs)]]; [by left| |].
  - destruct e; [right; by exists [], p|left; done..].
  - destruct e; [right; by exists [], (s ++ Slash :: p')|..]; right; eexists (_ :: s), p'; done.
Qed.

Lemma open_prefix_app s p : open_prefix (s ++ p) -> open_prefix p.
Proof. induction s as [|e s IH]; [done|]. intros H%open_prefix_cons. by apply IH. Qed.

Lemma prefix_star_slash fuel p seg elems input :
  open_prefix p -> forallb (fun e => negb (is_slash e)) seg = true ->
  matches fuel (p ++ Star :: seg ++ Slash :: elems) input <> Some true.
Proof.
  intros Hp Hs. revert p input Hp. induction fuel as [|fuel IH]; intros p input Hp; [done|].
  destruct p as [|e p]; [by apply star_slash|]. pose proof (open_prefix_cons _ _ Hp) as Hp'.
  destruct e as [| l | | | |gs|n lo hi]; cbn [app]; [rewrite matches_slash|try (cbn [matches])..].
  - case_decide; [by apply IH|done].
  - destruct (strip_prefix l input); [by apply IH|done].
  - fold (matches (S fuel) (Star :: p ++ Star :: seg ++ Slash :: elems) input).
    destruct (find_slash p) as [Hn|(s & p' & -> & Hn)].
    + replace (p ++ Star :: seg ++ Slash :: elems) with ((p ++ Star :: seg) ++ Slash :: elems) by by rewrite <- app_assoc.
      apply (star_slash (S fuel)). rewrite forallb_app. cbn. by rewrite Hn.
    + cbn [matches]. rewrite <- app_assoc. cbn [app]. rewrite segment_elements_eq by done.
      destruct (split_segment input) as [f a].
      assert (matches fuel ((Slash :: p') ++ Star :: seg ++ Slash :: elems) a <> Some true) as Ha.
      { apply IH. by eapply open_prefix_app. }
      destruct s as [|e s]; [done|]. by destruct (any_match _ _) as [[]|].
  - destruct input as [|c input]; [done|]. case_if; [done|by apply IH].
  - destruct p as [|e p]; [by destruct Hp|]. cbn [app tail].
    destruct (p ++ Star :: seg ++ Slash :: elems) as [|e' tl] eqn:E; [by destruct p|].
    intros (i & _ & Hi)%any_match_true. rewrite <- E in Hi. revert Hi. apply IH. by eapply open_prefix_cons.
  - destruct Hp as [Hg _]. done.
  - destruct input as [|c input]; [done|]. case_if; [done|]. case_if; [done|by apply IH].
Qed.

(** A star before a slash never matches: [*] takes its segment together with the slashes after it, so that
    the slash element after it finds none; a pattern such as [src/*/index.ts] matches no input at all. *)
Theorem star_before_slash_never_matches (p seg elems : Glob) (input : str) :
  open_prefix p -> forallb (fun e => negb (is_slash e)) seg = true ->
  match_input (p ++ Star :: seg ++ Slash :: elems) input = Some false.
Proof.
  intros Hp Hs. unfold match_input.
  pose proof (matches_total (S (size (p ++ Star :: seg ++ Slash :: elems))) _ input (Nat.lt_succ_diag_r _)) as Ht.
  pose proof (prefix_star_slash (S (size (p ++ Star :: seg ++ Slash :: elems))) p seg elems input Hp Hs) as Hf.
  by destruct (matches _ _ input) as [[]|].
Qed.

Lemma star_before_slash_never_matches_witness :
  parse (bstr "src/*/b") = Some (inr ([Literal (bstr "src"); Slash] ++ Star :: [] ++ Slash :: [Literal (bstr "b")]))
  /\ match_input ([Literal (bstr "src"); Slash] ++ Star :: [] ++ Slash :: [Literal (bstr "b")]) (bstr "src/a/b")
     = Some false.
Proof. split; [reflexivity|]. by apply star_before_slash_never_matches. Defined.

(** ** Negated ranges *)
Fixpoint forget_negation (e : Element) : Element :=
  match e with
  | Group gs => Group (map (map forget_negation) gs)
  | CharRange _ low high => CharRange false low high
  | _ => e
  end.

Lemma is_slash_forget e : is_slash (forget_negation e) = is_slash e.
Proof. by destruct e. Qed.

Lemma segment_elements_forget elems :
  segment_elements (map forget_negation elems)
  = (map forget_negation (fst (segment_elements elems)), map forget_negation (snd (segment_elements elems))).
Proof.
  induction elems as [|e elems IH]; [done|]. cbn [map segment_elements]. rewrite is_slash_forget, IH.
  destruct (is_slash e); [done|]. by destruct (segment_elements elems).
Qed.

Lemma any_match_ext {A} (f g : A -> option bool) l : (forall x, f x = g x) -> any_match f l = any_match g l.
Proof. intros Hf. induction l as [|x l IH]; [done|]. cbn. by rewrite Hf, IH. Qed.
Lemma any_match_map {A B} (f : B -> option bool) (g : A -> B) l : any_match f (map g l) = any_match (f ∘ g) l.
Proof. induction l as [|x l IH]; [done|]. cbn. by rewrite IH. Qed.

Lemma matches_forget fuel elems input :
  matches fuel (map forget_negation elems) input = matches fuel elems input.
Proof.
  revert elems input. induction fuel as [|fuel IH]; intros elems input; [done|].
  destruct elems as [|e elems]; [done|].
  destruct e as [| l | | | |gs|n lo hi]; cbn [map forget_negation]; [rewrite !matches_slash|cbn [matches]..].
  - case_decide; [apply IH|done].
  - destruct (strip_prefix l input); [apply IH|done].
  - rewrite segment_elements_forget. destruct (split_segment input) as [f a], (segment_elements elems) as [se ae].
    cbn [fst snd]. rewrite IH. destruct se as [|e se]; [done|]. cbn [map].
    by rewrite (any_match_ext _ (matches fuel (e :: se))) by (intros; apply (IH (e :: se))).
  - destruct input as [|c input]; [done|]. case_if; [done|apply IH].
  - destruct elems as [|e elems]; [done|]. cbn [map tail]. destruct elems as [|e' elems]; [done|]. cbn [map].
    apply any_match_ext. intros x. apply (IH (e' :: elems)).
  - rewrite any_match_map. apply any_match_ext. intros m. cbn. by rewrite <- map_app, IH.
  - destruct input as [|c input]; [done|]. case_if; [done|]. case_if; [done|apply IH].
Qed.

(** Induction through the members of groups. *)
Section element_ind.
Context (P : Element -> Prop).
Hypothesis Hslash : P Slash.
Hypothesis Hliteral : forall l, P (Literal l).
Hypothesis Hstar : P Star.
Hypothesis Hany : P AnyChar.
Hypothesis Hstarstar : P StarStar.
Hypothesis Hgroup : forall gs, Forall (Forall P) gs -> P (Group gs).
Hypothesis Hrange : forall n lo hi, P (CharRange n lo hi).

Fixpoint element_nested_ind (e : Element) : P e :=
  match e with
  | Slash => Hslash
  | Literal l => Hliteral l
  | Star => Hstar
  | AnyChar => Hany
  | StarStar => Hstarstar
  | Group gs => Hgroup gs
      ((fix members (gs : list Glob) : Forall (Forall P) gs :=
          match gs with
          | [] => List.Forall_nil _
          | g :: gs => List.Forall_cons _ g gs
              ((fix elements (g : Glob) : Forall P g :=
                  match g with
                  | [] => List.Forall_nil _
                  | e :: g => List.Forall_cons _ e g (element_nested_ind e) (elements g)
                  end) g) (members gs)
          end) gs)
  | CharRange n lo hi => Hrange n lo hi
  end.
End element_ind.

Lemma element_size_forget e : element_size (forget_negation e) = element_size e.
Proof.
  induction e as [| | | | |gs IH|] using element_nested_ind; try done. cbn. f_equal.
  induction IH as [|g gs Hg _ IHgs]; [done|]. cbn [map sum_list_with]. rewrite IHgs. f_equal.
  induction Hg as [|e g He _ IHg]; [done|]. cbn [map sum_list_with]. by rewrite He, IHg.
Qed.

Lemma size_forget g : size (map forget_negation g) = size g.
Proof. induction g as [|e g IH]; [done|]. unfold size in *. cbn. by rewrite element_size_forget, IH. Qed.

(** Negations are ignored: a glob matches exactly the inputs that the glob with every [\[!a-z\]] replaced by
    [\[a-z\]] matches. *)
Theorem negation_ignored (g : Glob) (input : str) :
  match_input (map forget_negation g) input = match_input g input.
Proof. unfold match_input. by rewrite size_forget, matches_forget. Qed.

Example negation_ignored_example :
  match parse (bstr "[!0-9]") with Some (inr g) => match_input g (bstr "5") | _ => None end = Some true.
Proof. reflexivity. Qed.

(** ** What patterns mean *)

(** The rest of the input from the start of one of its segments. *)
Definition from_segment (rest input : str) : Prop :=
  rest = input \/ exists before, input = before ++ 47 :: rest /\ head rest <> Some 47.

(** What is left after any number of segments, from none to all of them. *)
Definition after_segments (rest input : str) : Prop := rest = [] \/ from_segment rest input.

(** The inputs that a pattern denotes: a slash is one or more slashes, [?] a character of a segment, a range a
    character in it, or not in it, [*] a part of a segment, [**] any number of whole segments, with the slash after it, and
    a group any of its members. *)
Inductive denotes : Glob -> str -> Prop :=
  | denotes_end : denotes [] []
  | denotes_slash n elems input :
      denotes elems input -> denotes (Slash :: elems) (repeat 47 (S n) ++ input)
  | denotes_literal l elems input : denotes elems input -> denotes (Literal l :: elems) (l ++ input)
  | denotes_star part elems input :
      47 ∉ part -> denotes elems input -> denotes (Star :: elems) (part ++ input)
  | denotes_any c elems input : c <> 47 -> denotes elems input -> denotes (AnyChar :: elems) (c :: input)
  | denotes_star_star_end input : denotes [StarStar] input
  | denotes_star_star elems rest input :
      after_segments rest input -> denotes elems rest -> denotes (StarStar :: Slash :: elems) input
  | denotes_group m gs elems input :
      m ∈ gs -> denotes (m ++ elems) input -> denotes (Group gs :: elems) input
  | denotes_range negate low high c elems input :
      c <> 47 -> (low <= c <= high <-> negate = false) ->
      denotes elems input -> denotes (CharRange negate low high :: elems) (c :: input).

Fixpoint no_star (e : Element) : bool :=
  match e with
  | Star => false
  | Group gs => forallb (forallb no_star) gs
  | CharRange negate _ _ => negb negate
  | _ => true
  end.

(** What cannot begin with a slash, [**] apart. *)
Definition not_slash_first (elems : Glob) : Prop :=
  head elems = Some StarStar \/ forall input, ~ denotes elems (47 :: input).

(** [**] ends the pattern or is followed by a slash, and what follows the slash, if anything, is not optional: it does not
    denote the empty text; what follows a slash does not begin with another. *)
Inductive solid : Glob -> Prop :=
  | solid_end : solid []
  | solid_slash elems : not_slash_first elems -> solid elems -> solid (Slash :: elems)
  | solid_element e elems :
      match e with Slash | StarStar | Group _ => False | _ => True end -> solid elems -> solid (e :: elems)
  | solid_star_star_end : solid [StarStar]
  | solid_star_star elems :
      elems = [] \/ ~ denotes elems [] -> not_slash_first elems -> solid elems -> solid (StarStar :: Slash :: elems)
  | solid_group gs elems : (forall m, m ∈ gs -> solid (m ++ elems)) -> solid (Group gs :: elems).

Lemma skip_slashes_spec input : exists n, input = repeat 47 n ++ skip_slashes input.
Proof.
  unfold skip_slashes. induction input as [|c input [n IH]]; [by exists 0%nat|]. cbn [trim_start_while].
  destruct (Z.eqb_spec 47 c) as [<-|]; [|by exists 0%nat]. exists (S n). cbn. by rewrite <- IH.
Qed.

Lemma split_segment_spec input :
  exists first, 47 ∉ first /\
    (input = first /\ snd (split_segment input) = []
     \/ exists n, input = first ++ repeat 47 (S n) ++ snd (split_segment input)
        /\ head (snd (split_segment input)) <> Some 47).
Proof.
  induction input as [|c input (first & Hf & Hs)]; [exists []; split; [apply not_elem_of_nil|by left]|].
  cbn [split_segment]. destruct (Z.eqb_spec c 47) as [->|Hc].
  - exists []. split; [apply not_elem_of_nil|]. right. destruct (skip_slashes_spec input) as [n Hn]. exists n.
    cbn [snd app repeat]. change (skip_slashes (47 :: input)) with (skip_slashes input).
    split; [by rewrite <- Hn|apply skip_slashes_head].
  - exists (c :: first). split; [by apply not_elem_of_cons; split|].
    destruct (split_segment input) as [f a]. cbn [snd] in *. destruct Hs as [[-> ->]|(n & -> & Hh)]; [by left|].
    right. by exists n.
Qed.

Lemma repeat_47 n c : c ∈ repeat 47 n -> c = 47.
Proof. intros H%list_elem_of_In%repeat_spec. done. Qed.

Lemma from_segment_skip first n rest after :
  47 ∉ first -> head rest <> Some 47 -> head after <> Some 47 -> rest <> [] ->
  (rest = first ++ repeat 47 (S n) ++ after \/ exists before, first ++ repeat 47 (S n) ++ after = before ++ 47 :: rest) ->
  rest = first ++ repeat 47 (S n) ++ after \/ from_segment rest after.
Proof.
  intros Hf Hr Ha Hne [->|[before E]]; [by left|right]. rewrite app_assoc in E.
  apply app_eq_inv in E as [(k & E & E2)|(k & -> & ->)]; [|right; by exists k].
  destruct k as [|c k]; [cbn in E2; by rewrite <- E2 in Ha|]. injection E2 as <- ->.
  destruct k as [|c k]; [by left|]. destruct Hr. cbn. f_equal. clear Hne.
  apply app_eq_inv in E as [(k' & -> & E)|(k' & -> & E)].
  - destruct k' as [|c' k']; [|injection E as <- E; by destruct Hf; apply elem_of_app; right; left].
    cbn in E. injection E as E. apply (repeat_47 n). rewrite <- E. by left.
  - apply (repeat_47 (S n)). rewrite E. apply elem_of_app. right. right. by left.
Qed.

Lemma star_star_inputs_spec fuel input rest :
  (length input <= fuel)%nat -> rest ∈ star_star_inputs fuel input <-> from_segment rest input /\ rest <> [].
Proof.
  revert input. induction fuel as [|fuel IH]; intros input Hl.
  { destruct input; [|cbn in Hl; lia]. cbn. split; [by intros ?%elem_of_nil|].
    intros [[->|(before & E & _)] Hne]; [done|by destruct before]. }
  destruct input as [|c input]; cbn [star_star_inputs].
  { split; [by intros ?%elem_of_nil|]. intros [[->|(before & E & _)] Hne]; [done|by destruct before]. }
  destruct (split_segment_spec (c :: input)) as (first & Hf & Hs). rewrite elem_of_cons.
  set (after := snd (split_segment (c :: input))) in *. destruct Hs as [[E1 E2]|(n & E & Hh)].
  - rewrite E2. rewrite IH by (cbn; lia). split; [|].
    + intros [->|[[->|(before & E & _)] Hne]]; [split; [by left|done]|done|by destruct before].
    + intros [[->|(before & E & _)] Hne]; [by left|]. destruct Hf. rewrite <- E1, E. apply elem_of_app. right. by left.
  - assert (length after <= fuel)%nat as Hla.
    { apply (f_equal length) in E. rewrite !length_app, repeat_length in E. cbn in E, Hl. lia. }
    rewrite (IH _ Hla). split.
    + intros [->|[[->|(before & E2 & Hb)] Hne]]; (split; [|done]); [by left| |]; right.
      * exists (first ++ repeat 47 n). split; [|done]. rewrite E, <- app_assoc. f_equal.
        change (repeat 47 (S n)) with (47 :: repeat 47 n). by rewrite (repeat_cons n 47), <- app_assoc.
      * exists (first ++ repeat 47 (S n) ++ before). split; [|done]. by rewrite E, E2, <- !app_assoc.
    + intros [[->|(before & E2 & Hb)] Hne]; [by left|].
      destruct (from_segment_skip first n rest after) as [H|H]; [done..| | |].
      * right. exists before. by rewrite <- E.
      * left. by rewrite E.
      * by right.
Qed.

(** ** Matching is what patterns mean *)
Lemma strip_prefix_some l input rest : strip_prefix l input = Some rest -> input = l ++ rest.
Proof.
  unfold strip_prefix, starts_with. case_if; [|done]. intros [= <-]. apply bool_decide_eq_true in Heqb.
  rewrite <- Heqb at 1. by rewrite take_drop.
Qed.
Lemma strip_prefix_app l rest : strip_prefix l (l ++ rest) = Some rest.
Proof.
  unfold strip_prefix, starts_with. rewrite bool_decide_eq_true_2 by apply take_app_length. by rewrite drop_app_length.
Qed.

Lemma matches_sound fuel elems input :
  forallb no_star elems = true -> solid elems -> matches fuel elems input = Some true -> denotes elems input.
Proof.
  revert elems input. induction fuel as [|fuel IH]; intros elems input Hn Hsol; [done|].
  destruct elems as [|e elems].
  { cbn [matches]. intros [= E%bool_decide_eq_true]. subst. constructor. }
  cbn [forallb] in Hn. apply andb_true_iff in Hn as [He Hn].
  destruct e as [| l | | | |gs|n lo hi]; [rewrite matches_slash|cbn [matches]..]; [| |done| | | |]; inversion Hsol; subst; try done.
  - case_decide as Hh; [|done]. intros H'%IH; [|done..]. destruct input as [|c input]; [done|]. injection Hh as ->.
    destruct (skip_slashes_spec input) as [n E].
    change (skip_slashes (47 :: input)) with (skip_slashes input) in H'. rewrite E.
    by apply (denotes_slash n).
  - destruct (strip_prefix l input) as [rest|] eqn:E; [|done]. intros H'%IH; [|done..].
    apply strip_prefix_some in E as ->. by apply denotes_literal.
  - destruct input as [|c input]; [done|]. destruct (Z.eqb_spec c 47); [done|]. intros H'%IH; [|done..]. by constructor.
  - intros _. constructor.
  - cbn [tail]. match goal with |- context [Slash :: ?r] => rename r into elems end. cbn [forallb no_star andb] in Hn.
    destruct elems as [|e' tl] eqn:E; [intros _; apply (denotes_star_star _ []); [by left|constructor]|]. rewrite <- E in *.
    intros (rest & Hr & Hm)%any_match_true. apply star_star_inputs_spec in Hr as [Hr Hne]; [|done].
    apply (denotes_star_star _ rest); [by right|]. by apply IH in Hm.
  - intros (m & Hm & H')%any_match_true. apply (denotes_group m); [done|]. apply IH; [|auto|done].
    rewrite forallb_app, Hn, andb_true_r. cbn in He. rewrite forallb_forall in He. by apply He, list_elem_of_In.
  - destruct input as [|c input]; [done|]. destruct (Z.eqb_spec c 47); [done|].
    destruct ((c <? lo) || (hi <? c)) eqn:E; [done|]. bool_to_prop. intros H'%IH; [|done..].
    constructor; [done| |done]. apply negb_true_iff in He. split; [done|]. intros _. lia.
Qed.

(** [**] does not need the slashes before it. *)
Lemma star_star_slash elems input :
  solid elems -> head elems = Some StarStar -> denotes elems (47 :: input) -> denotes elems input.
Proof.
  intros Hs. revert input. induction Hs as [|elems _ _ _|e elems He _ _| |elems _ Hn _ IH|gs elems _ _];
    intros input Hh Hd; simplify_eq/=; [done|constructor|].
  inversion Hd as [| | | | | |? rest ? Ha Hr| |]; subst. destruct Ha as [-> |[-> |(before & E & Hb)]].
  - apply (denotes_star_star _ []); [by left|done].
  - destruct Hn as [Hn|Hn]; [|by destruct (Hn input)]. apply (denotes_star_star _ input); [by right; left|by apply IH].
  - apply (denotes_star_star _ rest); [|done]. destruct before as [|c before]; injection E as E.
    + right. by left.
    + right. right. by exists before.
Qed.

Lemma slash_skipped elems input :
  solid elems -> not_slash_first elems -> denotes elems input -> denotes elems (skip_slashes input).
Proof.
  intros Hs Hn Hd. induction input as [|c input IH]; [done|]. unfold skip_slashes. cbn [trim_start_while].
  destruct (Z.eqb_spec 47 c) as [<-|]; [|done]. apply IH. destruct Hn as [Hn|Hn]; [by apply star_star_slash|].
  by destruct (Hn input).
Qed.

Lemma matches_complete fuel elems input :
  forallb no_star elems = true -> solid elems -> (size elems < fuel)%nat -> denotes elems input ->
  matches fuel elems input = Some true.
Proof.
  revert elems input. induction fuel as [|fuel IH]; intros elems input Hn Hsol Hf Hd; [lia|].
  inversion Hd as [|n elems' input' Hd'|l elems' input' Hd'|part elems' input' Hp Hd'|c elems' input' Hc Hd'|input'
    |elems' rest input' Ha Hd'|m gs elems' input' Hm Hd'|negate low high c elems' input' Hc Hr Hd']; subst; [done|..];
    inversion Hsol; subst; try done; cbn [forallb no_star andb] in Hn; try (apply andb_true_iff in Hn as [He Hn]);
    unfold size in Hf; cbn [sum_list_with element_size] in Hf; try done.
  - rewrite matches_slash, decide_True by done. apply IH; [done..|unfold size; lia|].
    assert (skip_slashes (repeat 47 (S n) ++ input') = skip_slashes input') as ->; [|by apply slash_skipped].
    unfold skip_slashes. clear. induction (S n) as [|k IHk]; [done|]. exact IHk.
  - cbn [matches]. rewrite strip_prefix_app. apply IH; [done..|unfold size; lia|done].
  - cbn [matches]. rewrite (proj2 (Z.eqb_neq c 47)) by done. apply IH; [done..|unfold size; lia|done].
  - cbn [matches tail]. destruct elems' as [|e tl] eqn:E; [done|]. rewrite <- E in *.
    assert (rest <> []) as Hne by (intros ->; subst; naive_solver).
    apply (any_match_intro _ _ rest); [intros; apply matches_total; unfold size; lia| |apply IH; [done..|unfold size; lia|done]].
    apply star_star_inputs_spec; [done|]. by destruct Ha.
  - cbn [matches]. pose proof (group_member_size) as Hg.
    apply (any_match_intro _ _ m); [|done|].
    + intros m' Hm'. apply matches_total. rewrite size_app. specialize (Hg _ _ Hm'). unfold size in *. lia.
    + apply IH; [|auto|rewrite size_app; specialize (Hg _ _ Hm); unfold size in *; lia|done].
      rewrite forallb_app, Hn, andb_true_r. rewrite forallb_forall in He. by apply He, list_elem_of_In.
  - cbn [matches]. rewrite (proj2 (Z.eqb_neq c 47)) by done. apply negb_true_iff in He. destruct (proj2 Hr He) as [H1' H2'].
    rewrite (proj2 (Z.ltb_ge c low)), (proj2 (Z.ltb_ge high c)) by lia. apply IH; [done..|unfold size; lia|done].
Qed.

(** C13. Without [*] and negations, where what follows [**/] is not optional and no slash follows another, matching decides the
    documented meaning of a pattern: it always answers, and [true] exactly for the inputs that the pattern denotes. *)
Theorem match_input_denotes (g : Glob) (input : str) :
  forallb no_star g = true -> solid g ->
  match_input g input <> None /\ (match_input g input = Some true <-> denotes g input).
Proof.
  intros Hn Hs. unfold match_input. split; [apply matches_total; lia|]. split.
  - by apply matches_sound.
  - intros Hd. apply matches_complete; [done..|lia|done].
Qed.

(** [**/a] or [**/] matches everything, but the loop of [**] does not try to leave nothing for what follows it: [b] and the
    empty text are not matched. *)
Example optional_after_star_star (input : str) :
  let g := [StarStar; Slash; Group [[Literal (bstr "a")]; []]] in
  parse (bstr "**/{a,}") = Some (inr g) /\ denotes g input
  /\ match_input g (bstr "b") = Some false /\ match_input g [] = Some false.
Proof.
  split; [reflexivity|]. split; [|by split]. apply (denotes_star_star _ []); [by left|].
  apply (denotes_group []); [by right; left|constructor].
Qed.

(** A slash matches one or more slashes, but takes all of them: nothing is left for a second one. *)
Example two_slashes :
  denotes [Slash; Slash] (bstr "//") /\ match_input [Slash; Slash] (bstr "//") = Some false.
Proof. split; [|done]. apply (denotes_slash 0 [Slash] [47]), (denotes_slash 0 [] []). constructor. Qed.

Lemma match_input_denotes_witness :
  parse (bstr "**/[a-c]{.ts,?}") = Some (inr [StarStar; Slash; CharRange false 97 99; Group [[Literal (bstr ".ts")]; [AnyChar]]])
  /\ match_input [StarStar; Slash; CharRange false 97 99; Group [[Literal (bstr ".ts")]; [AnyChar]]] (bstr "src/b.ts")
     <> None
  /\ denotes [StarStar; Slash; CharRange false 97 99; Group [[Literal (bstr ".ts")]; [AnyChar]]] (bstr "src/b.ts").
Proof.
  destruct (match_input_denotes [StarStar; Slash; CharRange false 97 99; Group [[Literal (bstr ".ts")]; [AnyChar]]]
    (bstr "src/b.ts") eq_refl) as [Ht Hd].
  - apply solid_star_star; [right; intros H; inversion H|right; intros input H; inversion H; lia|]. apply solid_element; [exact I|]. apply solid_group.
    intros m [->|[->|[]%elem_of_nil]%elem_of_cons]%elem_of_cons; (apply solid_element; [exact I|constructor]).
  - split; [reflexivity|]. split; [exact Ht|]. apply Hd. reflexivity.
Defined.
