(* ===== verification/Collections.v ===== *)
(** * Collections: ordered maps, ordered sets and multimaps (ts-collections/src/ordered_map.rs, ordered_set.rs,
    multimap.rs)

    A hash map of the standard library is a [gmap]; an operation that indexes one returns [None] where it
    panics. [OrderedDict] is what an insertion-ordered map promises to its clients: it behaves as the list of
    its entries. *)
From stdpp Require Export gmap.
From S2P Require Import Prelude.

(** ** Association lists: what an insertion-ordered map means *)
Section assoc.
Context {K V : Type} `{EqDecision K}.
Implicit Types (l : list (K * V)) (key : K) (value : V).

Fixpoint assoc_get key l : option V :=
  match l with
  | [] => None
  | (k, v) :: l => if decide (k = key) then Some v else assoc_get key l
  end.

(** In its place when the key is there, at the end otherwise. *)
Fixpoint assoc_set key value l : list (K * V) :=
  match l with
  | [] => [(key, value)]
  | (k, v) :: l => if decide (k = key) then (k, value) :: l else (k, v) :: assoc_set key value l
  end.

Fixpoint assoc_delete key l : list (K * V) :=
  match l with
  | [] => []
  | (k, v) :: l => if decide (k = key) then l else (k, v) :: assoc_delete key l
  end.
End assoc.

(** ** The interface *)
Class OrderedDict (K V M : Type) : Type := {
  od_new : M;
  od_set : K -> V -> M -> M;
  od_get : K -> M -> option V;
  od_has : K -> M -> bool;
  od_delete : K -> M -> M;
  od_values : M -> option (list V);
  od_entries : M -> option (list (K * V));
  od_size : M -> nat;
}.

Class OrderedDictLaws (K V M : Type) `{EqDecision K} `{OrderedDict K V M} : Type := {
  (** [m] holds the entries [l], in order. *)
  od_holds : M -> list (K * V) -> Prop;
  od_holds_new : od_holds od_new [];
  od_holds_set m l k v : od_holds m l -> od_holds (od_set k v m) (assoc_set k v l);
  od_holds_get m l k : od_holds m l -> od_get k m = assoc_get k l;
  od_holds_has m l k : od_holds m l -> od_has k m = bool_decide (k ∈ l.*1);
  od_holds_delete m l k : od_holds m l -> od_holds (od_delete k m) (assoc_delete k l);
  od_holds_values m l : od_holds m l -> od_values m = Some l.*2;
  od_holds_entries m l : od_holds m l -> od_entries m = Some l;
  od_holds_size m l : od_holds m l -> od_size m = length l;
}.

(** ** OrderedMap *)
Module OrderedMap.

Record OrderedMap (K V : Type) `{Countable K} : Type := mkOrderedMap {
  keys : list K;
  mp : gmap K V;
}.
Arguments mkOrderedMap {_ _ _ _} _ _.
Arguments keys {_ _ _ _} _.
Arguments mp {_ _ _ _} _.

Section ordered_map.
Context {K V : Type} `{Countable K}.
Implicit Types (m : OrderedMap K V) (key : K) (value : V).

Definition new : OrderedMap K V := mkOrderedMap [] ∅.

Definition is_empty m : bool := match keys m with [] => true | _ => false end.

Definition has m key : bool := bool_decide (is_Some (mp m !! key)).

Definition set m key value : OrderedMap K V :=
  mkOrderedMap (if has m key then keys m else keys m ++ [key]) (<[key := value]> (mp m)).

Definition from_list (items : list (K * V)) : OrderedMap K V :=
  fold_left (fun mp item => set mp (fst item) (snd item)) items new.

Definition get m key : option V := mp m !! key.

(** [zero] is [V::default()]. *)
Definition get_or_zero (zero : V) m key : V := default zero (mp m !! key).

(** The key at an index that is not negative and below the length with the value the hash map has for it:
    the outer [None] is the panic of an index into the hash map. *)
Definition entry_at m (index : Z) : option (option (K * V)) :=
  if (index <? 0) || (Z.of_nat (length (keys m)) <=? index) then Some None
  else
    key ← keys m !! Z.to_nat index;
    value ← mp m !! key;
    Some (Some (key, value)).

(** [Vec::remove] at an index of the vector. *)
Definition vec_remove {A} (i : nat) (l : list A) : list A := take i l ++ drop (S i) l.

Definition position key (l : list K) : option nat := fst <$> list_find (eq key) l.

Definition delete m key : option V * OrderedMap K V :=
  match mp m !! key with
  | None => (None, m)
  | Some v =>
      let mp := base.delete key (mp m) in
      match position key (keys m) with
      | None => (Some v, mkOrderedMap (keys m) mp)
      | Some i =>
          let keys :=
            if decide (i = 0%nat) then vec_remove 0 (keys m)
            else if decide (i = length (keys m) - 1)%nat then take (length (keys m) - 1) (keys m)
            else vec_remove i (keys m) in
          (Some v, mkOrderedMap keys mp)
      end
  end.

Definition values m : option (list V) := mapM (fun key => mp m !! key) (keys m).

Definition entries m : option (list (K * V)) := mapM (fun key => pair key <$> mp m !! key) (keys m).

Definition clear m : OrderedMap K V := mkOrderedMap [] ∅.

Definition size m : nat := length (keys m).

Definition clone_map m : OrderedMap K V := mkOrderedMap (keys m) (mp m).

(** [PartialEq] *)
Definition eq_map `{EqDecision V} m1 m2 : bool := bool_decide (keys m1 = keys m2) && bool_decide (mp m1 = mp m2).

(** The calls of the callbacks in order, on the state [S] they share; [None] is the panic of [entries]. *)
Definition diff_ordered_maps_func {S : Type} m1 m2 (equal_values : V -> V -> S -> bool * S)
    (on_added on_removed : K -> V -> S -> S) (on_modified : K -> V -> V -> S -> S) (s : S) : option S :=
  entries2 ← entries m2;
  let s := fold_left (fun s '(k, v2) =>
    match get m1 k with None => on_added k v2 s | Some _ => s end) entries2 s in
  entries1 ← entries m1;
  Some (fold_left (fun s '(k, v1) =>
    match get m2 k with
    | Some v2 => let '(eq, s) := equal_values v1 v2 s in if eq then s else on_modified k v1 v2 s
    | None => on_removed k v1 s
    end) entries1 s).

Definition diff_ordered_maps `{EqDecision V} {S : Type} m1 m2 (on_added on_removed : K -> V -> S -> S)
    (on_modified : K -> V -> V -> S -> S) (s : S) : option S :=
  diff_ordered_maps_func m1 m2 (fun v1 v2 s => (bool_decide (v1 = v2), s)) on_added on_removed on_modified s.
End ordered_map.

#[global] Instance ordered_map_dict `{Countable K} {V} : OrderedDict K V (OrderedMap K V) := {
  od_new := new;
  od_set key value m := set m key value;
  od_get key m := get m key;
  od_has key m := has m key;
  od_delete key m := snd (delete m key);
  od_values := values;
  od_entries := entries;
  od_size := size;
}.
End OrderedMap.

(** ** OrderedSet *)
Module OrderedSet.

Record OrderedSet (T : Type) `{Countable T} : Type := mkOrderedSet {
  values : list T;
  set : gset T;
}.
Arguments mkOrderedSet {_ _ _} _ _.
Arguments values {_ _ _} _.
Arguments set {_ _ _} _.

Section ordered_set.
Context {T : Type} `{Countable T}.
Implicit Types (s : OrderedSet T) (value : T).

Definition new : OrderedSet T := mkOrderedSet [] ∅.

Definition has s value : bool := bool_decide (value ∈ set s).

Definition add s value : OrderedSet T :=
  mkOrderedSet (if has s value then values s else values s ++ [value]) ({[value]} ∪ set s).

(** [Vec::retain] *)
Definition delete s value : bool * OrderedSet T :=
  if has s value
  then (true, mkOrderedSet (filter (fun existing => existing <> value) (values s)) (set s ∖ {[value]}))
  else (false, s).

Definition clear s : OrderedSet T := mkOrderedSet [] ∅.

Definition size s : nat := length (values s).

Definition clone_set s : OrderedSet T := mkOrderedSet (values s) (set s).
End ordered_set.
End OrderedSet.

(** ** MultiMap *)
Module MultiMap.

Abbreviation MultiMap K V := (gmap K (list V)) (only parsing).

Section multi_map.
Context {K V : Type} `{Countable K}.
Implicit Types (m : MultiMap K V) (key : K) (value : V).

Definition has m key : bool := bool_decide (is_Some (m !! key)).
Definition get m key : option (list V) := m !! key.

(** [entry(key).or_default().push(value)] *)
Definition add m key value : MultiMap K V := <[key := default [] (m !! key) ++ [value]]> m.

Definition group_by (items : list V) (group_id : V -> K) : MultiMap K V :=
  fold_left (fun m item => add m (group_id item) item) items ∅.

Definition remove `{EqDecision V} m key value : MultiMap K V :=
  match m !! key with
  | None => m
  | Some values =>
      match list_find (eq value) values with
      | None => m
      | Some (i, _) =>
          if decide (length values = 1%nat) then base.delete key m
          else <[key := OrderedMap.vec_remove i values]> m
      end
  end.

Definition remove_all m key : MultiMap K V := base.delete key m.
Definition len m : nat := size m.
Definition is_empty m : bool := bool_decide (m = ∅).
Definition clear m : MultiMap K V := ∅.
End multi_map.
End MultiMap.
