(* ===== verification/CollectionsThm.v ===== *)
(** * CollectionsThm: the collections keep their promises

    The ordered map refines the list of its entries, the ordered set the list of its values; the reported
    differences of two maps turn the first into the second; a multimap keeps the values of a key in order. *)
From S2P Require Import Collections Prelude.

(** ** Association lists *)
Section assoc.
Context {K V : Type} `{Countable K}.
Implicit Types (l : list (K * V)) (k : K) (v : V).

Lemma assoc_get_map l k : assoc_get k l = (list_to_map l : gmap K V) !! k.
Proof.
  induction l as [|[k' v'] l IH]; cbn; [by rewrite lookup_empty|]. case_decide as E.
  - subst. by rewrite lookup_insert_eq.
  - by rewrite lookup_insert_ne.
Qed.

Lemma assoc_get_none l k : assoc_get k l = None <-> k ∉ l.*1.
Proof. rewrite assoc_get_map. symmetry. apply not_elem_of_list_to_map. Qed.

Lemma assoc_set_map l k v : (list_to_map (assoc_set k v l) : gmap K V) = <[k := v]> (list_to_map l).
Proof.
  induction l as [|[k' v'] l IH]; [done|]. cbn. case_decide as E; cbn.
  - subst. by rewrite insert_insert_eq.
  - by rewrite IH, insert_insert_ne.
Qed.

Lemma assoc_set_keys l k v : (assoc_set k v l).*1 = if decide (k ∈ l.*1) then l.*1 else l.*1 ++ [k].
Proof.
  induction l as [|[k' v'] l IH]; cbn.
  - rewrite decide_False; [done|apply not_elem_of_nil].
  - destruct (decide (k' = k)) as [->|E]; cbn.
    + rewrite decide_True; [done|by left].
    + rewrite IH. repeat case_decide; try done; set_solver.
Qed.

Lemma assoc_delete_keys l k : NoDup l.*1 -> (assoc_delete k l).*1 = filter (fun x => x <> k) l.*1.
Proof.
  induction l as [|[k' v'] l IH]; [done|]. rewrite fmap_cons. cbn [fst assoc_delete]. intros [Hn Hl]%NoDup_cons.
  case_decide as E.
  - subst. rewrite filter_cons_False by auto. symmetry. apply filter_all.
    apply Forall_forall. by intros x Hx ->.
  - rewrite filter_cons_True by done. rewrite fmap_cons. by rewrite IH.
Qed.

Lemma assoc_delete_map l k :
  NoDup l.*1 -> (list_to_map (assoc_delete k l) : gmap K V) = base.delete k (list_to_map l).
Proof.
  induction l as [|[k' v'] l IH]; cbn; [by rewrite delete_empty|]. intros [Hn Hl]%NoDup_cons. case_decide as E.
  - subst. rewrite delete_insert_eq, delete_id; [done|]. by apply not_elem_of_list_to_map.
  - cbn. by rewrite IH, delete_insert_ne.
Qed.

Lemma assoc_entries l : NoDup l.*1 -> mapM (fun k => pair k <$> (list_to_map l : gmap K V) !! k) l.*1 = Some l.
Proof.
  intros Hl. apply mapM_Some. apply Forall2_fmap_l, Forall2_same_length_lookup_2; [done|].
  intros i [k v] [k' v'] Hi Hi'. rewrite Hi in Hi'. injection Hi' as <- <-. cbn.
  erewrite elem_of_list_to_map_1; [done|done|by eapply list_elem_of_lookup_2].
Qed.

Lemma assoc_values l : NoDup l.*1 -> mapM (fun k => (list_to_map l : gmap K V) !! k) l.*1 = Some l.*2.
Proof.
  intros Hl. apply mapM_Some. apply Forall2_fmap_l, Forall2_fmap_r, Forall2_same_length_lookup_2; [done|].
  intros i [k v] [k' v'] Hi Hi'. rewrite Hi in Hi'. injection Hi' as <- <-. cbn.
  apply elem_of_list_to_map_1; [done|by eapply list_elem_of_lookup_2].
Qed.
End assoc.

(** ** Removing from a vector *)
Section vec.
Context {A : Type} `{EqDecision A}.

Lemma vec_remove_filter (l : list A) (i : nat) (x : A) :
  NoDup l -> l !! i = Some x -> OrderedMap.vec_remove i l = filter (fun y => y <> x) l.
Proof.
  intros Hl Hi. unfold OrderedMap.vec_remove. pose proof (take_drop_middle l i x Hi) as E.
  rewrite <- E in Hl. rewrite <- E at 3. apply NoDup_app in Hl as (_ & Hd & [Hn _]%NoDup_cons).
  rewrite filter_app, filter_cons_False by auto. rewrite !filter_all; [done|..].
  - apply Forall_forall. by intros y Hy ->.
  - apply Forall_forall. intros y Hy ->. apply (Hd x); [done|by left].
Qed.

Lemma vec_remove_last (l : list A) i : (i = length l - 1)%nat -> OrderedMap.vec_remove i l = take (length l - 1) l.
Proof. intros ->. unfold OrderedMap.vec_remove. rewrite (drop_ge l) by lia. apply app_nil_r. Qed.
End vec.

(** ** The ordered map *)
Section ordered_map.
Import OrderedMap.
Context {K V : Type} `{Countable K}.
Implicit Types (m : OrderedMap K V) (l : list (K * V)) (k : K) (v : V).

(** [m] holds the entries [l]: the invariant that ties the vector of keys to the hash map. *)
Definition holds m l : Prop := keys m = l.*1 /\ NoDup l.*1 /\ mp m = list_to_map l.

Lemma holds_new : holds new [].
Proof. split_and!; [done|constructor|done]. Qed.

Lemma holds_get m l k : holds m l -> mp m !! k = assoc_get k l.
Proof. intros (_ & _ & ->). by rewrite assoc_get_map. Qed.

Lemma holds_has m l k : holds m l -> has m k = bool_decide (k ∈ l.*1).
Proof.
  intros Hm. unfold has. rewrite (holds_get m l) by done. apply bool_decide_ext.
  rewrite <- not_eq_None_Some, assoc_get_none. destruct (decide (k ∈ l.*1)); tauto.
Qed.

Lemma holds_set m l k v : holds m l -> holds (set m k v) (assoc_set k v l).
Proof.
  intros Hm. pose proof (holds_has m l k Hm) as Hh. destruct Hm as (Hk & Hn & Hmp). unfold holds, set. cbn.
  rewrite Hh, assoc_set_keys, assoc_set_map, Hk, Hmp. split_and!; [| |done].
  - case_bool_decide; [by rewrite decide_True|by rewrite decide_False].
  - case_decide; [done|]. apply NoDup_app. split_and!; [done|set_solver|apply NoDup_singleton].
Qed.

Lemma delete_spec m l k :
  holds m l -> fst (delete m k) = assoc_get k l /\ holds (snd (delete m k)) (assoc_delete k l).
Proof.
  intros Hm. pose proof (holds_get m l k Hm) as Hg. destruct Hm as (Hk & Hn & Hmp). unfold delete. rewrite Hg.
  assert (holds (mkOrderedMap (filter (fun x => x <> k) (keys m)) (base.delete k (mp m))) (assoc_delete k l)) as Hd.
  { unfold holds. cbn. rewrite assoc_delete_keys, assoc_delete_map, Hk, Hmp by done.
    split_and!; [done|by apply NoDup_filter|done]. }
  destruct (assoc_get k l) as [v|] eqn:E.
  - unfold position. destruct (list_find (eq k) (keys m)) as [[i x]|] eqn:F; cbn [fmap option_fmap option_map fst snd].
    + apply list_find_Some in F as (Hi & <- & _). split; [done|].
      rewrite <- (vec_remove_filter (keys m) i k) in Hd; [|by rewrite Hk|done].
      destruct (decide (i = 0%nat)) as [->|]; [done|]. destruct (decide _) as [E1|]; [|done]. by rewrite <- (vec_remove_last (keys m) i).
    + exfalso. assert (~ (k ∉ l.*1)) as Hin by (rewrite <- assoc_get_none; congruence).
      apply Hin. intros Hx. rewrite <- Hk in Hx. apply list_find_None in F. rewrite Forall_forall in F. by apply (F k).
  - cbn. split; [done|]. rewrite assoc_get_none, <- Hk in E. revert Hd. rewrite filter_all.
    + rewrite delete_id by done. by destruct m.
    + apply Forall_forall. by intros x Hx ->.
Qed.

Lemma holds_entries m l : holds m l -> entries m = Some l.
Proof. intros (Hk & Hn & Hmp). unfold entries. rewrite Hk, Hmp. by apply assoc_entries. Qed.
Lemma holds_values m l : holds m l -> values m = Some l.*2.
Proof. intros (Hk & Hn & Hmp). unfold values. rewrite Hk, Hmp. by apply assoc_values. Qed.
Lemma holds_size m l : holds m l -> size m = length l.
Proof. intros (Hk & _ & _). unfold size. rewrite Hk. apply length_fmap. Qed.

Lemma holds_entry_at m l index :
  holds m l -> entry_at m index = Some (if index <? 0 then None else l !! Z.to_nat index).
Proof.
  intros Hm. unfold entry_at. pose proof (holds_size m l Hm) as Hs. unfold size in Hs. rewrite Hs.
  destruct (Z.ltb_spec index 0); [done|]. destruct (Z.leb_spec (Z.of_nat (length l)) index); cbn [orb].
  - by rewrite lookup_ge_None_2 by lia.
  - destruct (lookup_lt_is_Some_2 l (Z.to_nat index)) as [[k v] E]; [lia|]. pose proof Hm as (Hk & Hn & Hmp).
    rewrite Hk, list_lookup_fmap, E. cbn. rewrite Hmp.
    erewrite elem_of_list_to_map_1; [done|done|by eapply list_elem_of_lookup_2].
Qed.
End ordered_map.

#[global] Instance ordered_map_laws `{Countable K} {V} : OrderedDictLaws K V (OrderedMap.OrderedMap K V) := {
  od_holds := holds;
  od_holds_new := holds_new;
  od_holds_set := fun m l k v => holds_set m l k v;
  od_holds_get := fun m l k => holds_get m l k;
  od_holds_has := fun m l k => holds_has m l k;
  od_holds_delete := fun m l k Hm => proj2 (delete_spec m l k Hm);
  od_holds_values := holds_values;
  od_holds_entries := holds_entries;
  od_holds_size := holds_size;
}.

(** ** The ordered map refines the list of its entries *)
Inductive MapOp (K V : Type) : Type :=
  | OpSet (key : K) (value : V)
  | OpGet (key : K)
  | OpGetOrZero (zero : V) (key : K)
  | OpEntryAt (index : Z)
  | OpHas (key : K)
  | OpDelete (key : K)
  | OpKeys
  | OpValues
  | OpEntries
  | OpClear
  | OpSize
  | OpIsEmpty
  | OpClone.
Arguments OpSet {_ _}. Arguments OpGet {_ _}. Arguments OpGetOrZero {_ _}. Arguments OpEntryAt {_ _}.
Arguments OpHas {_ _}. Arguments OpDelete {_ _}. Arguments OpKeys {_ _}. Arguments OpValues {_ _}.
Arguments OpEntries {_ _}. Arguments OpClear {_ _}. Arguments OpSize {_ _}. Arguments OpIsEmpty {_ _}.
Arguments OpClone {_ _}.

Inductive MapAnswer (K V : Type) : Type :=
  | AUnit
  | AValue (v : option V)
  | AZero (v : V)
  | AEntry (e : option (K * V))
  | ABool (b : bool)
  | ANat (n : nat)
  | AKeys (ks : list K)
  | AValues (vs : list V)
  | AEntries (es : list (K * V)).
Arguments AUnit {_ _}. Arguments AValue {_ _}. Arguments AZero {_ _}. Arguments AEntry {_ _}. Arguments ABool {_ _}.
Arguments ANat {_ _}. Arguments AKeys {_ _}. Arguments AValues {_ _}. Arguments AEntries {_ _}.

Section refinement.
Import OrderedMap.
Context {K V : Type} `{Countable K}.
Abbreviation answer := (MapAnswer K V).

(** An operation of the code: what it returns and the map after it, [None] when it panics. *)
Definition map_op (m : OrderedMap K V) (op : MapOp K V) : option (answer * OrderedMap K V) :=
  match op with
  | OpSet key value => Some (AUnit, set m key value)
  | OpGet key => Some (AValue (get m key), m)
  | OpGetOrZero zero key => Some (AZero (get_or_zero zero m key), m)
  | OpEntryAt index => e ← entry_at m index; Some (AEntry e, m)
  | OpHas key => Some (ABool (has m key), m)
  | OpDelete key => let '(v, m) := delete m key in Some (AValue v, m)
  | OpKeys => Some (AKeys (keys m), m)
  | OpValues => vs ← values m; Some (AValues vs, m)
  | OpEntries => es ← entries m; Some (AEntries es, m)
  | OpClear => Some (AUnit, clear m)
  | OpSize => Some (ANat (size m), m)
  | OpIsEmpty => Some (ABool (is_empty m), m)
  | OpClone => Some (AUnit, clone_map m)
  end.

(** The same on the list of the entries in the order of insertion. *)
Definition list_op (l : list (K * V)) (op : MapOp K V) : answer * list (K * V) :=
  match op with
  | OpSet key value => (AUnit, assoc_set key value l)
  | OpGet key => (AValue (assoc_get key l), l)
  | OpGetOrZero zero key => (AZero (default zero (assoc_get key l)), l)
  | OpEntryAt index => (AEntry (if index <? 0 then None else l !! Z.to_nat index), l)
  | OpHas key => (ABool (bool_decide (key ∈ l.*1)), l)
  | OpDelete key => (AValue (assoc_get key l), assoc_delete key l)
  | OpKeys => (AKeys l.*1, l)
  | OpValues => (AValues l.*2, l)
  | OpEntries => (AEntries l, l)
  | OpClear => (AUnit, [])
  | OpSize => (ANat (length l), l)
  | OpIsEmpty => (ABool (bool_decide (l = [])), l)
  | OpClone => (AUnit, l)
  end.

Fixpoint map_ops (m : OrderedMap K V) (ops : list (MapOp K V)) : option (list answer) :=
  match ops with
  | [] => Some []
  | op :: ops => '(a, m) ← map_op m op; answers ← map_ops m ops; Some (a :: answers)
  end.
Fixpoint list_ops (l : list (K * V)) (ops : list (MapOp K V)) : list answer :=
  match ops with
  | [] => []
  | op :: ops => let '(a, l) := list_op l op in a :: list_ops l ops
  end.

Lemma map_op_refines m l op :
  holds m l -> exists m', map_op m op = Some (fst (list_op l op), m') /\ holds m' (snd (list_op l op)).
Proof.
  intros Hm. destruct op as [k v|k|z k|i|k|k| | | | | | |]; cbn [map_op list_op fst snd].
  - eexists. split; [done|by apply holds_set].
  - exists m. unfold get. by rewrite (holds_get m l).
  - exists m. unfold get_or_zero. by rewrite (holds_get m l).
  - exists m. rewrite (holds_entry_at m l) by done. done.
  - exists m. by rewrite (holds_has m l).
  - destruct (delete_spec m l k Hm) as [E Hd]. destruct (delete m k) as [v m']. exists m'. cbn in *. by subst.
  - exists m. destruct Hm as (Hk & Hr). rewrite Hk. done.
  - exists m. by rewrite (holds_values m l).
  - exists m. by rewrite (holds_entries m l).
  - eexists. split; [done|apply holds_new].
  - exists m. by rewrite (holds_size m l).
  - exists m. unfold is_empty. split; [|done]. destruct Hm as (-> & _). by destruct l.
  - exists m. by destruct m.
Qed.

Lemma map_ops_refines ops m l : holds m l -> map_ops m ops = Some (list_ops l ops).
Proof.
  revert m l. induction ops as [|op ops IH]; intros m l Hm; [done|]. cbn [map_ops list_ops].
  destruct (map_op_refines m l op Hm) as (m' & -> & Hm'). destruct (list_op l op) as [a l']. cbn [fst snd] in *.
  cbn. by rewrite (IH m' l').
Qed.

(** C9. An ordered map refines the list of its entries in the order of insertion: for every sequence of operations
    on a new map, no operation panics and all of them return what the same operations on the list return
    - setting a key keeps its place, deleting one keeps the order of the others. *)
Theorem ordered_map_refines (ops : list (MapOp K V)) : map_ops new ops = Some (list_ops [] ops).
Proof. apply map_ops_refines, holds_new. Qed.

(** Building a map from a list is setting its items. *)
Lemma from_list_holds (items : list (K * V)) :
  holds (from_list items) (fold_left (fun l item => assoc_set (fst item) (snd item) l) items []).
Proof.
  unfold from_list. generalize (holds_new (K:=K) (V:=V)). generalize (new : OrderedMap K V), ([] : list (K * V)).
  induction items as [|[k v] items IH]; intros m l Hm; [done|]. cbn. by apply IH, holds_set.
Qed.
End refinement.

Example ordered_map_example :
  map_ops OrderedMap.new [OpSet 1 10; OpSet 2 20; OpSet 3 30; OpSet 1 11; OpDelete 2; OpEntryAt 1; OpEntries]
  = Some [AUnit; AUnit; AUnit; AUnit; AValue (Some 20); AEntry (Some (3, 30)); AEntries [(1, 11); (3, 30)]].
Proof. reflexivity. Qed.

(** ** Differences *)
Section diff.
Import OrderedMap.
Context {K V : Type} `{Countable K} `{EqDecision V}.
Implicit Types (m : OrderedMap K V) (l : list (K * V)).

Lemma fold_left_id {A B} (f : A -> B -> A) (l : list B) (a : A) :
  (forall x, x ∈ l -> f a x = a) -> fold_left f l a = a.
Proof.
  intros Hf. induction l as [|x l IH]; [done|]. cbn. rewrite Hf by by left. apply IH. intros y Hy. apply Hf. by right.
Qed.

Lemma mp_set m k v : mp (set m k v) = <[k := v]> (mp m).
Proof. done. Qed.
Lemma mp_delete m k : mp (snd (delete m k)) = base.delete k (mp m).
Proof.
  unfold delete. destruct (mp m !! k) eqn:E; [by destruct (position k (keys m))|]. cbn. by rewrite delete_id.
Qed.

(** Entries of a map are its associations. *)
Lemma entry_lookup l k v : NoDup l.*1 -> (k, v) ∈ l <-> (list_to_map l : gmap K V) !! k = Some v.
Proof. intros Hl. split; [by apply elem_of_list_to_map_1|by apply elem_of_list_to_map_2]. Qed.

Definition patch_added (k : K) (v : V) m := set m k v.
Definition patch_removed (k : K) (v : V) m := snd (delete m k).
Definition patch_modified (k : K) (v1 v2 : V) m := set m k v2.

(** The first pass adds what only the second map has. *)
Lemma patch_added_lookup m1 m l k :
  NoDup l.*1 ->
  mp (fold_left (fun s '(k, v2) => match get m1 k with None => patch_added k v2 s | Some _ => s end) l m) !! k
  = match assoc_get k l, mp m1 !! k with Some v, None => Some v | _, _ => mp m !! k end.
Proof.
  revert m. induction l as [|[k' v'] l IH]; intros m; [done|]. rewrite fmap_cons. cbn [fst fold_left assoc_get].
  intros [Hn Hl]%NoDup_cons. rewrite IH by done. unfold get, patch_added. destruct (decide (k' = k)) as [->|Hk].
  - apply assoc_get_none in Hn. rewrite Hn. destruct (mp m1 !! k); [done|]. cbn. by rewrite lookup_insert_eq.
  - destruct (mp m1 !! k') eqn:E; [done|]. destruct (assoc_get k l), (mp m1 !! k); try done;
      cbn; by rewrite lookup_insert_ne.
Qed.

(** The second pass overwrites or deletes what the first map has. *)
Lemma patch_rest_lookup m2 m l k :
  NoDup l.*1 ->
  mp (fold_left (fun s '(k, v1) => match get m2 k with
       | Some v2 => let '(eq, s) := (bool_decide (v1 = v2), s) in if eq then s else patch_modified k v1 v2 s
       | None => patch_removed k v1 s end) l m) !! k
  = match assoc_get k l with
    | Some v1 => match mp m2 !! k with Some v2 => if decide (v1 = v2) then mp m !! k else Some v2 | None => None end
    | None => mp m !! k
    end.
Proof.
  revert m. induction l as [|[k' v'] l IH]; intros m; [done|]. rewrite fmap_cons. cbn [fst fold_left assoc_get].
  intros [Hn Hl]%NoDup_cons. rewrite IH by done. unfold get, patch_modified, patch_removed.
  destruct (decide (k' = k)) as [->|Hk].
  - apply assoc_get_none in Hn. rewrite Hn. destruct (mp m2 !! k) as [v2|].
    + case_bool_decide; [by rewrite decide_True|]. rewrite decide_False by done. cbn. by rewrite lookup_insert_eq.
    + rewrite mp_delete. by rewrite lookup_delete_eq.
  - destruct (mp m2 !! k') as [v2|].
    + case_bool_decide; [done|]. cbn. by rewrite lookup_insert_ne.
    + rewrite mp_delete. by rewrite lookup_delete_ne.
Qed.

Lemma diff_patch m1 l1 m2 l2 :
  holds m1 l1 -> holds m2 l2 ->
  exists m, diff_ordered_maps m1 m2 patch_added patch_removed patch_modified m1 = Some m /\ mp m = mp m2.
Proof.
  intros H1 H2. unfold diff_ordered_maps, diff_ordered_maps_func.
  rewrite (holds_entries m1 l1 H1), (holds_entries m2 l2 H2). cbn [mbind option_bind].
  eexists. split; [done|]. apply map_eq. intros k.
  rewrite patch_rest_lookup, patch_added_lookup by (first [apply H1|apply H2]).
  rewrite <- (holds_get m1 l1), <- (holds_get m2 l2) by done.
  destruct (mp m1 !! k) as [v1|], (mp m2 !! k) as [v2|] eqn:E; try done. case_decide; by subst.
Qed.

Lemma diff_self {S : Type} m1 l1 m2 l2 (on_added on_removed : K -> V -> S -> S) (on_modified : K -> V -> V -> S -> S) s :
  holds m1 l1 -> holds m2 l2 -> mp m1 = mp m2 ->
  diff_ordered_maps m1 m2 on_added on_removed on_modified s = Some s.
Proof.
  intros H1 H2 Hm. unfold diff_ordered_maps, diff_ordered_maps_func.
  rewrite (holds_entries m1 l1 H1), (holds_entries m2 l2 H2). cbn [mbind option_bind]. f_equal.
  unfold get. rewrite <- Hm. destruct H1 as (_ & Hn1 & E1), H2 as (_ & Hn2 & E2). rewrite fold_left_id.
  - apply fold_left_id. intros [k v] Hk. rewrite Hm, E2. apply (entry_lookup l2) in Hk; [|done]. by rewrite Hk.
  - intros [k v] Hk. apply (entry_lookup l1) in Hk; [|done]. rewrite E1, Hk. by rewrite bool_decide_eq_true_2.
Qed.

(** The differences of two ordered maps turn the first into the second: setting what [diff_ordered_maps] reports
    as added or modified and deleting what it reports as removed, in the order of the reports, makes the
    contents of the first map those of the second, and between maps of the same contents nothing is
    reported. *)
Theorem diff_ordered_maps_patch (items1 items2 : list (K * V)) :
  let m1 := from_list items1 in
  let m2 := from_list items2 in
  (exists m, diff_ordered_maps m1 m2 patch_added patch_removed patch_modified m1 = Some m /\ mp m = mp m2)
  /\ (mp m1 = mp m2 -> forall (S : Type) on_added on_removed on_modified (s : S),
        diff_ordered_maps m1 m2 on_added on_removed on_modified s = Some s).
Proof.
  cbn zeta. split; [by eapply diff_patch; apply from_list_holds|].
  intros Hm S f g h s. eapply diff_self; [apply from_list_holds..|done].
Qed.
End diff.

Lemma diff_ordered_maps_patch_witness :
  OrderedMap.diff_ordered_maps (OrderedMap.from_list [(1, 2); (3, 4)]) (OrderedMap.from_list [(3, 4); (1, 2)])
    (fun _ _ n => S n) (fun _ _ n => S n) (fun _ _ _ n => S n) 0%nat = Some 0%nat.
Proof. apply (diff_ordered_maps_patch [(1, 2); (3, 4)] [(3, 4); (1, 2)]). vm_compute. reflexivity. Defined.

(** ** The ordered set *)
Section ordered_set.
Import OrderedSet.
Context {T : Type} `{Countable T}.
Implicit Types (s : OrderedSet T) (x : T).

(** The vector holds each element of the set once. *)
Definition set_wf s : Prop := NoDup (values s) /\ forall x, x ∈ values s <-> x ∈ set s.

Lemma set_wf_new : set_wf new.
Proof. split; [constructor|set_solver]. Qed.

Lemma set_wf_add s x :
  set_wf s -> set_wf (add s x) /\ values (add s x) = if decide (x ∈ values s) then values s else values s ++ [x].
Proof.
  intros [Hn Hs]. unfold add, has, set_wf. cbn. case_bool_decide as Hx; rewrite <- Hs in Hx.
  - rewrite decide_True by done. set_solver.
  - rewrite decide_False by done. split; [split|done]; [|set_solver].
    apply NoDup_app. split_and!; [done|set_solver|apply NoDup_singleton].
Qed.

Lemma set_wf_delete s x :
  set_wf s ->
  set_wf (snd (delete s x)) /\ fst (delete s x) = bool_decide (x ∈ values s)
  /\ values (snd (delete s x)) = filter (fun y => y <> x) (values s).
Proof.
  intros [Hn Hs]. unfold delete, has. case_bool_decide as Hx; rewrite <- Hs in Hx; cbn [fst snd values].
  - split_and!; [split; cbn [values set]|by rewrite bool_decide_eq_true_2|done].
    + by apply NoDup_filter.
    + intros y. rewrite list_elem_of_filter, elem_of_difference, Hs. set_solver.
  - split_and!; [done|by rewrite bool_decide_eq_false_2|]. rewrite filter_all; [done|].
    apply Forall_forall. by intros y Hy ->.
Qed.
End ordered_set.

(** ** The multimap *)
Section multi_map.
Import MultiMap.
Context {K V : Type} `{Countable K}.

Lemma group_by_fold (items : list V) (group_id : V -> K) (m : gmap K (list V)) (k : K) :
  default [] (fold_left (fun m item => add m (group_id item) item) items m !! k)
  = default [] (m !! k) ++ filter (fun v => group_id v = k) items.
Proof.
  revert m. induction items as [|v items IH]; intros m; [by rewrite app_nil_r|]. cbn [fold_left]. rewrite IH. unfold add.
  destruct (decide (group_id v = k)) as [<-|Hk].
  - rewrite lookup_insert_eq, filter_cons_True by done. cbn. by rewrite <- app_assoc.
  - by rewrite lookup_insert_ne, filter_cons_False.
Qed.

(** The group of a key is its items, in order. *)
Lemma group_by_spec (items : list V) (group_id : V -> K) (k : K) :
  default [] (get (group_by items group_id) k) = filter (fun v => group_id v = k) items.
Proof. unfold get, group_by. by rewrite group_by_fold, lookup_empty. Qed.
End multi_map.
