(* ===== verification/CowMap.v ===== *)
(** * CowMap: copy-on-write maps with scopes (ts-collections/src/cow.rs)

    An [Rc] is a pointer into a heap of counted cells, so that the sharing between a map and the scopes that
    were saved from it is the code's. A method is a function of [M (Heap K V)]; a dangling pointer, which safe
    Rust does not have, would be a [Panic]. *)
From stdpp Require Import gmap.
From S2P Require Import Prelude Monad.

(** ** Reference counted cells *)

(** The strong count of each cell and the map it holds. *)
Abbreviation Heap K V := (gmap nat (nat * gmap K V)) (only parsing).

Section cow.
Context {K V : Type} `{Countable K}.

Abbreviation Rc := nat (only parsing).
Abbreviation HashMap := (gmap K V) (only parsing).

Definition rc_new (contents : HashMap) : M (Heap K V) Rc :=
  h ← Monad.get;
  let p := fresh (dom h) in
  modify <[p := (1%nat, contents)]> ≫= fun _ => mret p.

Definition rc_read (p : Rc) : M (Heap K V) (nat * HashMap) := h ← Monad.get; unwrap (h !! p).

(** [Rc::clone] *)
Definition rc_clone (p : Rc) : M (Heap K V) Rc :=
  '(count, contents) ← rc_read p;
  modify <[p := (S count, contents)]> ≫= fun _ => mret p.

(** The end of the life of an [Rc]. *)
Definition rc_drop (p : Rc) : M (Heap K V) unit :=
  '(count, contents) ← rc_read p;
  modify (if decide (count = 1%nat) then base.delete p else <[p := ((count - 1)%nat, contents)]>).

(** [Rc::make_mut]: the only pointer to a cell keeps it, any other gets a copy of its own. *)
Definition rc_make_mut (p : Rc) : M (Heap K V) Rc :=
  '(count, contents) ← rc_read p;
  if decide (count = 1%nat) then mret p
  else p' ← rc_new contents; rc_drop p ≫= fun _ => mret p'.

Definition rc_write (p : Rc) (f : HashMap -> HashMap) : M (Heap K V) unit :=
  '(count, contents) ← rc_read p;
  modify <[p := (count, f contents)]>.

(** ** The map *)
Record CopyOnWriteMap : Type := mkCopyOnWriteMap {
  m : Rc;
  owned : bool;
}.

(** [CopyOnWriteMapScope] *)
Record CopyOnWriteMapScope : Type := mkScope { saved : CopyOnWriteMap }.

Definition default_map : M (Heap K V) CopyOnWriteMap := p ← rc_new ∅; mret (mkCopyOnWriteMap p false).

Definition get (self : CopyOnWriteMap) (k : K) : M (Heap K V) (option V * bool) :=
  '(_, contents) ← rc_read (m self);
  mret (match contents !! k with Some v => (Some v, true) | None => (None, false) end).

Definition has (self : CopyOnWriteMap) (k : K) : M (Heap K V) bool :=
  '(_, contents) ← rc_read (m self);
  mret (bool_decide (is_Some (contents !! k))).

Definition ensure_owned (self : CopyOnWriteMap) : M (Heap K V) CopyOnWriteMap :=
  if owned self then mret self
  else p ← rc_make_mut (m self); mret (mkCopyOnWriteMap p true).

Definition set (self : CopyOnWriteMap) (k : K) (v : V) : M (Heap K V) CopyOnWriteMap :=
  self ← ensure_owned self;
  p ← rc_make_mut (m self);
  rc_write p <[k := v]> ≫= fun _ => mret (mkCopyOnWriteMap p (owned self)).

Definition enter_scope (self : CopyOnWriteMap) : M (Heap K V) (CopyOnWriteMapScope * CopyOnWriteMap) :=
  p ← rc_clone (m self);
  mret (mkScope (mkCopyOnWriteMap p (owned self)), mkCopyOnWriteMap (m self) false).

(** [CopyOnWriteMapScope::restore]: the assignment ends the life of the map's value. *)
Definition restore (self : CopyOnWriteMapScope) (map : CopyOnWriteMap) : M (Heap K V) CopyOnWriteMap :=
  rc_drop (m map) ≫= fun _ => mret (saved self).
End cow.

(** ** The set: a map to units *)
Section cow_set.
Context {K : Type} `{Countable K}.

Definition set_has (self : CopyOnWriteMap) (k : K) : M (Heap K unit) bool := snd <$> get self k.
Definition set_add (self : CopyOnWriteMap) (k : K) : M (Heap K unit) CopyOnWriteMap := set self k tt.
Definition set_enter_scope (self : CopyOnWriteMap) : M (Heap K unit) (CopyOnWriteMapScope * CopyOnWriteMap) :=
  enter_scope (K := K) self.
Definition set_restore (self : CopyOnWriteMapScope) (map : CopyOnWriteMap) : M (Heap K unit) CopyOnWriteMap :=
  restore (K := K) self map.
End cow_set.

(** ** What a client can do

    A client owns a map and the scopes it has entered; it may restore them in any order, or let them go. *)
Section client.
Context {K V : Type} `{Countable K}.
Abbreviation HashMap := (gmap K V) (only parsing).

Inductive ScopeOp : Type :=
  | OpGet (k : K)
  | OpHas (k : K)
  | OpSet (k : K) (v : V)
  | OpEnter
  | OpRestore (i : nat)
  | OpForget (i : nat).

Inductive ScopeAnswer : Type :=
  | AUnit
  | AGet (v : option V) (ok : bool)
  | AHas (b : bool).

Definition forget (i : nat) {A} (l : list A) : list A := take i l ++ drop (S i) l.

Definition scope_op (op : ScopeOp) (map : CopyOnWriteMap) (scopes : list CopyOnWriteMapScope)
    : M (Heap K V) (ScopeAnswer * CopyOnWriteMap * list CopyOnWriteMapScope) :=
  match op with
  | OpGet k => '(v, ok) ← get map k; mret (AGet v ok, map, scopes)
  | OpHas k => b ← has map k; mret (AHas b, map, scopes)
  | OpSet k v => map ← set map k v; mret (AUnit, map, scopes)
  | OpEnter => '(scope, map) ← enter_scope map; mret (AUnit, map, scope :: scopes)
  | OpRestore i =>
      match scopes !! i with
      | Some scope => map ← restore scope map; mret (AUnit, map, forget i scopes)
      | None => mret (AUnit, map, scopes)
      end
  | OpForget i =>
      match scopes !! i with
      | Some scope => rc_drop (m (saved scope)) ≫= fun _ => mret (AUnit, map, forget i scopes)
      | None => mret (AUnit, map, scopes)
      end
  end.

Fixpoint scope_ops (ops : list ScopeOp) (map : CopyOnWriteMap) (scopes : list CopyOnWriteMapScope)
    : M (Heap K V) (list ScopeAnswer) :=
  match ops with
  | [] => mret []
  | op :: ops =>
      '(a, map, scopes) ← scope_op op map scopes;
      answers ← scope_ops ops map scopes;
      mret (a :: answers)
  end.

Definition scope_session (ops : list ScopeOp) : M (Heap K V) (list ScopeAnswer) :=
  map ← default_map; scope_ops ops map [].

(** The same on values: entering a scope saves the contents, restoring it puts them back. *)
Definition value_op (op : ScopeOp) (c : HashMap) (saved : list HashMap) : ScopeAnswer * HashMap * list HashMap :=
  match op with
  | OpGet k => (AGet (c !! k) (bool_decide (is_Some (c !! k))), c, saved)
  | OpHas k => (AHas (bool_decide (is_Some (c !! k))), c, saved)
  | OpSet k v => (AUnit, <[k := v]> c, saved)
  | OpEnter => (AUnit, c, c :: saved)
  | OpRestore i =>
      match saved !! i with Some c' => (AUnit, c', forget i saved) | None => (AUnit, c, saved) end
  | OpForget i => (AUnit, c, forget i saved)
  end.

Fixpoint value_ops (ops : list ScopeOp) (c : HashMap) (saved : list HashMap) : list ScopeAnswer :=
  match ops with
  | [] => []
  | op :: ops => let '(a, c, saved) := value_op op c saved in a :: value_ops ops c saved
  end.
End client.

(** ** Sharing is invisible *)
Section counting.
Context {K V : Type} `{Countable K}.
Implicit Types (h : Heap K V) (refs : list nat) (p : nat).

Definition count p refs : nat := length (filter (fun q => q = p) refs).

Lemma count_cons p q refs : count p (q :: refs) = ((if decide (q = p) then 1 else 0) + count p refs)%nat.
Proof. unfold count. rewrite filter_cons. by case_decide. Qed.

Lemma count_self p refs : count p (p :: refs) = S (count p refs).
Proof. rewrite count_cons. by rewrite decide_True. Qed.
Lemma count_ne p q refs : q <> p -> count p (q :: refs) = count p refs.
Proof. intros Hq. rewrite count_cons. by rewrite decide_False. Qed.

Lemma count_in p refs : (0 < count p refs)%nat <-> p ∈ refs.
Proof.
  induction refs as [|q refs IH]; [split; [cbn; lia|by intros ?%elem_of_nil]|].
  rewrite count_cons, elem_of_cons. case_decide; [subst; split; [auto|lia]|]. rewrite <- IH.
  split; [intros; right; lia|intros [->|]; [done|lia]].
Qed.

#[global] Instance count_proper p : Proper ((≡ₚ) ==> eq) (count p).
Proof. intros l1 l2 Hl. unfold count. by rewrite Hl. Qed.

(** The pointers that exist are [refs]: the counts are right and no cell is left over. *)
Definition heap_ok h refs : Prop :=
  forall p, match h !! p with
            | Some (n, _) => n = count p refs /\ (0 < n)%nat
            | None => count p refs = 0%nat
            end.

#[global] Instance heap_ok_proper h : Proper ((≡ₚ) ==> iff) (heap_ok h).
Proof.
  intros l1 l2 Hl. unfold heap_ok. by split; intros Hp p; specialize (Hp p); rewrite (count_proper p _ _ Hl) in *.
Qed.

Definition contents h p : option (gmap K V) := snd <$> h !! p.

(** Nothing is observed of a change through the pointers [refs]. *)
Definition same_contents h h' refs : Prop := forall q, q ∈ refs -> contents h' q = contents h q.

Lemma heap_ok_lookup h refs p :
  heap_ok h refs -> p ∈ refs -> exists c, h !! p = Some (count p refs, c).
Proof.
  intros Hh Hp%count_in. specialize (Hh p). destruct (h !! p) as [[n c]|]; [|lia]. destruct Hh as [-> _]. by exists c.
Qed.

Lemma heap_ok_contents h refs p c :
  heap_ok h refs -> p ∈ refs -> contents h p = Some c -> h !! p = Some (count p refs, c).
Proof.
  intros Hh Hp Hc. destruct (heap_ok_lookup h refs p Hh Hp) as [c' E]. unfold contents in Hc. rewrite E in Hc.
  cbn in Hc. by injection Hc as ->.
Qed.

Lemma wp_rc_read h p n c (Q : nat * gmap K V -> Heap K V -> Prop) :
  h !! p = Some (n, c) -> Q (n, c) h -> wp (rc_read p) Q h.
Proof. intros E HQ. unfold rc_read. apply wp_bind, wp_get. apply wp_unwrap. by exists (n, c). Qed.

Lemma wp_rc_new h refs c :
  heap_ok h refs ->
  wp (rc_new c) (fun p h' => heap_ok h' (p :: refs) /\ same_contents h h' refs /\ contents h' p = Some c
                             /\ h' !! p = Some (1%nat, c)) h.
Proof.
  intros Hh. unfold rc_new. apply wp_bind, wp_get. apply wp_bind, wp_modify, wp_ret.
  set (p := fresh (dom h)). assert (h !! p = None) as Hp.
  { apply (not_elem_of_dom (D := gset nat) h p). apply is_fresh. }
  assert (count p refs = 0%nat) as Hc by (specialize (Hh p); by rewrite Hp in Hh).
  split_and!.
  - intros q. destruct (decide (q = p)) as [->|Hq].
    + rewrite lookup_insert_eq, count_self. lia.
    + rewrite lookup_insert_ne by done. specialize (Hh q). rewrite count_cons, decide_False by done. done.
  - intros q Hq. unfold contents. rewrite lookup_insert_ne; [done|]. intros <-. apply count_in in Hq. lia.
  - unfold contents. by rewrite lookup_insert_eq.
  - by rewrite lookup_insert_eq.
Qed.

Lemma wp_rc_clone h refs p :
  heap_ok h refs -> p ∈ refs ->
  wp (rc_clone p) (fun q h' => q = p /\ heap_ok h' (p :: refs) /\ same_contents h h' refs) h.
Proof.
  intros Hh Hp. destruct (heap_ok_lookup h refs p Hh Hp) as [c E]. unfold rc_clone.
  apply wp_bind. eapply wp_rc_read; [done|]. apply wp_bind, wp_modify, wp_ret. split_and!; [done| |].
  - intros q. destruct (decide (q = p)) as [->|Hq].
    + rewrite lookup_insert_eq, count_self. lia.
    + rewrite lookup_insert_ne by done. specialize (Hh q). rewrite count_cons, decide_False by done. done.
  - intros q Hq. unfold contents. destruct (decide (q = p)) as [->|]; [by rewrite lookup_insert_eq, E|].
    by rewrite lookup_insert_ne.
Qed.

Lemma wp_rc_drop h refs p :
  heap_ok h (p :: refs) -> wp (rc_drop p) (fun _ h' => heap_ok h' refs /\ same_contents h h' refs) h.
Proof.
  intros Hh. destruct (heap_ok_lookup h (p :: refs) p Hh) as [c E]; [by left|]. unfold rc_drop.
  apply wp_bind. eapply wp_rc_read; [done|]. apply wp_modify. rewrite count_self in *.
  assert (forall q, q <> p -> count q (p :: refs) = count q refs) as Hc.
  { intros q Hq. by rewrite count_cons, decide_False. }
  case_decide as H1; split.
  - intros q. destruct (decide (q = p)) as [->|Hq]; [rewrite lookup_delete_eq; lia|].
    rewrite lookup_delete_ne by done. specialize (Hh q). by rewrite Hc in Hh.
  - intros q Hq. unfold contents. rewrite lookup_delete_ne; [done|]. intros <-. apply count_in in Hq. lia.
  - intros q. destruct (decide (q = p)) as [->|Hq]; [rewrite lookup_insert_eq; lia|].
    rewrite lookup_insert_ne by done. specialize (Hh q). by rewrite Hc in Hh.
  - intros q Hq. unfold contents. destruct (decide (q = p)) as [->|]; [by rewrite lookup_insert_eq, E|].
    by rewrite lookup_insert_ne.
Qed.

(** After [make_mut] the pointer is the only one to its cell. *)
Lemma wp_rc_make_mut h refs p c :
  heap_ok h (p :: refs) -> contents h p = Some c ->
  wp (rc_make_mut p) (fun q h' => heap_ok h' (q :: refs) /\ same_contents h h' refs /\ h' !! q = Some (1%nat, c)) h.
Proof.
  intros Hh Hc. assert (h !! p = Some (count p (p :: refs), c)) as E by (apply heap_ok_contents; [done|by left|done]).
  unfold rc_make_mut. apply wp_bind. eapply wp_rc_read; [done|]. case_decide as H1.
  - apply wp_ret. by rewrite <- H1.
  - apply wp_bind. eapply wp_mono; [by apply wp_rc_new|]. intros q h1 (Hh1 & Hs1 & Hq & Hq1).
    apply wp_bind. eapply wp_mono; [apply (wp_rc_drop h1 (q :: refs) p)|].
    { rewrite perm_swap. done. }
    intros _ h2 [Hh2 Hs2]. apply wp_ret. split_and!; [done| |].
    + intros r Hr. rewrite Hs2, Hs1; [done|by right|by right].
    + assert (contents h2 q = Some c) as Hc2 by (rewrite Hs2; [done|by left]).
      rewrite (heap_ok_contents h2 (q :: refs) q c) by (done || by left). rewrite count_cons, decide_True by done.
      specialize (Hh1 q). rewrite Hq1 in Hh1. rewrite !count_cons in Hh1. rewrite decide_True in Hh1 by done.
      repeat f_equal. lia.
Qed.
End counting.

(** ** The refinement *)
Section refinement.
Context {K V : Type} `{Countable K}.
Implicit Types (h : Heap K V) (map : CopyOnWriteMap) (scopes : list CopyOnWriteMapScope).

Definition pointer (scope : CopyOnWriteMapScope) : nat := m (saved scope).

(** The map has the contents [c] and the scopes saved the contents [cs]. *)
Definition state_ok h map scopes (c : gmap K V) (cs : list (gmap K V)) : Prop :=
  heap_ok h (m map :: (pointer <$> scopes)) /\ contents h (m map) = Some c
  /\ Forall2 (fun scope c => contents h (pointer scope) = Some c) scopes cs.

Lemma saved_same h h' scopes (cs : list (gmap K V)) :
  same_contents h h' (pointer <$> scopes) ->
  Forall2 (fun scope c => contents h (pointer scope) = Some c) scopes cs ->
  Forall2 (fun scope c => contents h' (pointer scope) = Some c) scopes cs.
Proof.
  intros Hs HF. induction HF as [|s c scopes cs Hc HF IH]; [constructor|].
  constructor; [by rewrite Hs; [|by left]|]. apply IH. intros q Hq. apply Hs. by right.
Qed.

Lemma wp_read_map h map scopes c cs (Q : nat * gmap K V -> Heap K V -> Prop) :
  state_ok h map scopes c cs -> (forall n, Q (n, c) h) -> wp (rc_read (m map)) Q h.
Proof.
  intros (Hh & Hc & _) HQ. eapply wp_rc_read; [|by apply HQ]. apply heap_ok_contents; [done|by left|done].
Qed.

Lemma wp_make_mut h map scopes c cs b :
  state_ok h map scopes c cs ->
  wp (rc_make_mut (m map)) (fun q h' => state_ok h' (mkCopyOnWriteMap q b) scopes c cs /\ h' !! q = Some (1%nat, c)) h.
Proof.
  intros (Hh & Hc & HF). eapply wp_mono; [by apply wp_rc_make_mut|]. intros q h' (Hh' & Hs & Hq). cbn.
  split; [|done]. split_and!; [done|unfold contents; cbn; by rewrite Hq|by eapply saved_same].
Qed.

Lemma wp_ensure_owned h map scopes c cs :
  state_ok h map scopes c cs -> wp (ensure_owned map) (fun map' h' => state_ok h' map' scopes c cs) h.
Proof.
  intros Hs. unfold ensure_owned. apply wp_if; intros _; [by apply wp_ret|]. apply wp_bind.
  eapply wp_mono; [by apply wp_make_mut|]. intros q h' [Hs' _]. by apply wp_ret.
Qed.

Lemma wp_set h map scopes c cs k v :
  state_ok h map scopes c cs -> wp (set map k v) (fun map' h' => state_ok h' map' scopes (<[k := v]> c) cs) h.
Proof.
  intros Hs. unfold set. apply wp_bind. eapply wp_mono; [by apply wp_ensure_owned|]. intros map1 h1 Hs1.
  apply wp_bind. eapply wp_mono; [by apply (wp_make_mut h1 map1 scopes c cs (owned map1))|]. intros q h2 [Hs2 Hq].
  apply wp_bind. unfold rc_write. apply wp_bind. eapply wp_rc_read; [done|]. apply wp_modify, wp_ret.
  destruct Hs2 as (Hh & _ & HF). cbn [m] in *. assert (count q (pointer <$> scopes) = 0%nat) as H0.
  { specialize (Hh q). rewrite Hq, count_self in Hh. lia. }
  split_and!.
  - intros p. destruct (decide (p = q)) as [->|Hp]; [rewrite lookup_insert_eq, count_self; cbn [m]; lia|].
    rewrite lookup_insert_ne by done. apply Hh.
  - unfold contents. by rewrite lookup_insert_eq.
  - eapply saved_same; [|done]. intros p Hp%count_in. unfold contents. rewrite lookup_insert_ne; [done|]. intros <-. lia.
Qed.

Lemma forget_middle {A} (l : list A) i x : l !! i = Some x -> l ≡ₚ x :: forget i l.
Proof. intros Hi. rewrite <- (take_drop_middle l i x Hi) at 1. symmetry. apply Permutation_middle. Qed.

Lemma forget_out {A} (l : list A) i : l !! i = None -> forget i l = l.
Proof.
  intros Hi%lookup_ge_None. unfold forget. rewrite take_ge, drop_ge by lia. apply app_nil_r.
Qed.

Lemma saved_lookup_none {A B} (P : A -> B -> Prop) l1 l2 i : Forall2 P l1 l2 -> l1 !! i = None -> l2 !! i = None.
Proof. intros HF. rewrite !lookup_ge_None. by rewrite (Forall2_length _ _ _ HF). Qed.

Lemma forget_saved h scopes (cs : list (gmap K V)) i :
  Forall2 (fun scope c => contents h (pointer scope) = Some c) scopes cs ->
  Forall2 (fun scope c => contents h (pointer scope) = Some c) (forget i scopes) (forget i cs).
Proof. intros HF. apply Forall2_app; [by apply Forall2_take|by apply Forall2_drop]. Qed.

Lemma pointers_forget scopes i scope :
  scopes !! i = Some scope -> pointer <$> scopes ≡ₚ pointer scope :: (pointer <$> forget i scopes).
Proof. intros Hi. by rewrite (forget_middle scopes i scope Hi) at 1. Qed.

Lemma wp_restore h map scopes c cs i scope :
  state_ok h map scopes c cs -> scopes !! i = Some scope ->
  exists c', cs !! i = Some c'
    /\ wp (restore scope map) (fun map' h' => state_ok h' map' (forget i scopes) c' (forget i cs)) h.
Proof.
  intros (Hh & Hc & HF) Hi. destruct (Forall2_lookup_l _ _ _ _ _ HF Hi) as (c' & Hi' & Hc'). exists c'.
  split; [done|]. unfold restore. apply wp_bind. eapply wp_mono; [by apply wp_rc_drop|]. intros _ h' [Hh' Hs].
  apply wp_ret. split_and!.
  - by rewrite <- (pointers_forget scopes i scope).
  - rewrite Hs; [done|]. apply list_elem_of_fmap. exists scope. split; [done|]. by eapply list_elem_of_lookup_2.
  - by apply forget_saved, (saved_same h).
Qed.

Lemma wp_forget h map scopes c cs i scope :
  state_ok h map scopes c cs -> scopes !! i = Some scope ->
  wp (rc_drop (pointer scope)) (fun _ h' => state_ok h' map (forget i scopes) c (forget i cs)) h.
Proof.
  intros (Hh & Hc & HF) Hi. pose proof (pointers_forget scopes i scope Hi) as Hp. rewrite Hp, perm_swap in Hh.
  eapply wp_mono; [by apply wp_rc_drop|]. intros _ h' [Hh' Hs]. split_and!; [done|rewrite Hs; [done|by left]|].
  apply (saved_same h); [|by apply forget_saved]. intros q Hq. apply Hs. by right.
Qed.

Lemma wp_scope_op op h map scopes c cs :
  state_ok h map scopes c cs ->
  wp (scope_op op map scopes) (fun r h' =>
    let '(a, map', scopes') := r in let '(a', c', cs') := value_op op c cs in
    a = a' /\ state_ok h' map' scopes' c' cs') h.
Proof.
  intros Hs. destruct op as [k|k|k v| |i|i]; cbn [scope_op value_op].
  - apply wp_bind. unfold get. apply wp_bind. eapply wp_read_map; [done|]. intros n. apply wp_ret.
    destruct (c !! k) eqn:E; apply wp_ret; (split; [|done]); f_equal; symmetry; by apply bool_decide_eq_true_2 || by apply bool_decide_eq_false_2; intros [].
  - apply wp_bind. unfold has. apply wp_bind. eapply wp_read_map; [done|]. intros n. by apply wp_ret, wp_ret.
  - apply wp_bind. eapply wp_mono; [by apply wp_set|]. intros map' h' Hs'. by apply wp_ret.
  - destruct Hs as (Hh & Hc & HF). apply wp_bind. unfold enter_scope. apply wp_bind.
    eapply wp_mono; [apply (wp_rc_clone h _ (m map) Hh); by left|]. intros p h' (-> & Hh' & Hsame).
    apply wp_ret, wp_ret. split; [done|].
    assert (contents h' (m map) = Some c) as Hc' by (rewrite Hsame; [done|by left]). split_and!; [done|done|].
    constructor; [done|]. eapply saved_same; [|done]. intros q Hq. apply Hsame. by right.
  - destruct (scopes !! i) as [scope|] eqn:Hi.
    + destruct (wp_restore h map scopes c cs i scope Hs Hi) as (c' & -> & Hw). apply wp_bind.
      eapply wp_mono; [exact Hw|]. intros map' h' Hs'. by apply wp_ret.
    + destruct Hs as (Hh & Hc & HF). rewrite (saved_lookup_none _ _ _ _ HF Hi). by apply wp_ret.
  - destruct (scopes !! i) as [scope|] eqn:Hi.
    + apply wp_bind. eapply wp_mono; [by apply (wp_forget h map scopes c cs i scope)|]. intros [] h' Hs'. by apply wp_ret.
    + apply wp_ret. split; [done|]. destruct Hs as (Hh & Hc & HF). by rewrite (forget_out cs) by (by eapply saved_lookup_none).
Qed.

Lemma wp_scope_ops ops h map scopes c cs :
  state_ok h map scopes c cs -> wp (scope_ops ops map scopes) (fun answers _ => answers = value_ops ops c cs) h.
Proof.
  revert h map scopes c cs. induction ops as [|op ops IH]; intros h map scopes c cs Hs; [by apply wp_ret|].
  cbn [scope_ops value_ops]. apply wp_bind. eapply wp_mono; [by apply wp_scope_op|]. intros [[a map'] scopes'] h'.
  destruct (value_op op c cs) as [[a' c'] cs']. intros [-> Hs']. apply wp_bind. eapply wp_mono; [by apply IH|].
  intros answers h'' ->. by apply wp_ret.
Qed.

(** C15. Sharing the storage is invisible: whatever a client of a copy-on-write map does - reading, writing,
    entering scopes and restoring or forgetting them in any order - it sees what it would see if entering
    a scope copied the map and restoring it put the copy back; no step panics. *)
Theorem scopes_isolated (ops : list (ScopeOp (K := K) (V := V))) :
  exists h, scope_session ops ∅ = Ok (value_ops ops ∅ [], h).
Proof.
  assert (wp (scope_session ops) (fun answers _ => answers = value_ops ops ∅ []) (∅ : Heap K V)) as Hw.
  { unfold scope_session. apply wp_bind. unfold default_map. apply wp_bind.
    eapply wp_mono; [by apply (wp_rc_new ∅ [])|]. intros p h (Hh & _ & Hc & _). apply wp_ret.
    apply wp_scope_ops. by split_and!. }
  apply wp_run in Hw as (answers & h & E & ->). by exists h.
Qed.
End refinement.

Example scopes_example :
  match scope_session [OpSet 1 10; OpEnter; OpSet 1 20; OpGet 1; OpRestore 0; OpGet 1] (∅ : Heap Z Z) with
  | Ok (answers, h) => answers = [AUnit; AUnit; AUnit; AGet (Some 20) true; AUnit; AGet (Some 10) true]
      /\ size h = 1%nat
  | _ => False
  end.
Proof. vm_compute. done. Qed.
