(* ===== verification/CoreTypes.v ===== *)
(** * CoreTypes: small types of ts-core ([Tristate] of tristate.rs, [TextRange] of text.rs) *)
From S2P Require Import Prelude.

Module Tristate.
Inductive t := TSUnknown | TSFalse | TSTrue.
#[global] Instance t_eq_dec : EqDecision t.
Proof. solve_decision. Defined.
Definition is_true (v : t) : bool := bool_decide (v = TSTrue).
Definition is_false (v : t) : bool := bool_decide (v = TSFalse).
Definition is_true_or_unknown (v : t) : bool := bool_decide (v = TSTrue) || bool_decide (v = TSUnknown).
Definition is_false_or_unknown (v : t) : bool := bool_decide (v = TSFalse) || bool_decide (v = TSUnknown).
Definition is_unknown (v : t) : bool := bool_decide (v = TSUnknown).
End Tristate.
Abbreviation Tristate := Tristate.t.
Export Tristate(TSUnknown, TSFalse, TSTrue).

Module TextRange.
Record t := new { pos : Z; end_ : Z }.
#[global] Instance t_eq_dec : EqDecision t.
Proof. solve_decision. Defined.
End TextRange.
Abbreviation TextRange := TextRange.t.
Definition undefined_text_range : TextRange := TextRange.new (-1) (-1).

