(* ===== verification/FormatRules.v ===== *)
(** * FormatRules: the formatter's rules in their order (ts-format/src/rules.rs)

    The tables are those of the source; the long ones are in parts. *)
From S2P Require Import Prelude SyntaxKind.

(** * The rules of the formatter (ts-format/src/rule.rs, the helpers of rules.rs)

    A rule relates the tokens left and right of a gap with what is done to the space between them. *)

(** ** Kinds as tokens (ts-ast/src/kind_generated.rs) *)
Definition FirstKeyword : Kind := Kind.BreakKeyword.
Definition LastKeyword : Kind := Kind.DeferKeyword.
Definition FirstToken : Kind := Kind.Unknown.
Definition LastToken : Kind := LastKeyword.
Definition FirstBinaryOperator : Kind := Kind.LessThanToken.
Definition LastBinaryOperator : Kind := Kind.CaretEqualsToken.

(** [while token <= end { push(token); token = token.next() }] from [start]: [next] is the successor in the order of the
    discriminants. *)
Definition kinds_from_to (start end_ : Kind) : list Kind :=
  List.filter (fun k => (kind_index start <=? kind_index k) && (kind_index k <=? kind_index end_)) all_kinds.

(** ** Actions and flags *)
Module RuleAction.
Definition NONE : Z := 0.
Definition STOP_PROCESSING_SPACE_ACTIONS : Z := 1.
Definition STOP_PROCESSING_TOKEN_ACTIONS : Z := 2.
Definition INSERT_SPACE : Z := 4.
Definition INSERT_NEW_LINE : Z := 8.
Definition DELETE_SPACE : Z := 16.
Definition DELETE_TOKEN : Z := 32.
Definition INSERT_TRAILING_SEMICOLON : Z := 64.
Definition STOP_ACTION : Z := Z.lor STOP_PROCESSING_SPACE_ACTIONS STOP_PROCESSING_TOKEN_ACTIONS.
Definition MODIFY_SPACE_ACTION : Z := Z.lor (Z.lor INSERT_SPACE INSERT_NEW_LINE) DELETE_SPACE.
Definition MODIFY_TOKEN_ACTION : Z := Z.lor DELETE_TOKEN INSERT_TRAILING_SEMICOLON.
End RuleAction.

Module RuleFlags.
Inductive t := None | CanDeleteNewLines.
Definition NONE : t := None.
Definition CAN_DELETE_NEW_LINES : t := CanDeleteNewLines.
End RuleFlags.

(** ** Rules *)
Record TokenRange := mkRange { tokens : list Kind; is_specific : bool }.

(** [context: Vec<ContextPredicate>] is empty in every rule the program builds: the predicates are given by name. *)
Record RuleImpl := mkRule {
  debug_name : string;
  context_names : list string;
  action : Z;
  flags : RuleFlags.t;
}.

Record RuleSpec := mkSpec {
  left_token_range : TokenRange;
  right_token_range : TokenRange;
  rule : RuleImpl;
}.

Definition token_range_from (tokens : list Kind) : TokenRange := mkRange tokens true.
Definition token_range_from_ex (prefix tokens : list Kind) : TokenRange := mkRange (prefix ++ tokens) true.
Definition token_range_from_range (start end_ : Kind) : TokenRange := token_range_from (kinds_from_to start end_).
Definition kind (token : Kind) : TokenRange := token_range_from [token].
Definition range (tokens : list Kind) : TokenRange := token_range_from tokens.

Import Kind.
#[local] Open Scope string_scope.
#[local] Open Scope list_scope.

(** ** The predicates of each rule, by name *)
Definition RULE_CONTEXTS_1 : list (string * list string) := [
  ("IgnoreBeforeComment", []);
  ("IgnoreAfterLineComment", []);
  ("NotSpaceBeforeColon", ["isNonJsxSameLineTokenContext"; "isNotBinaryOpContext"; "isNotTypeAnnotationContext"]);
  ("SpaceAfterColon", ["isNonJsxSameLineTokenContext"; "isNotBinaryOpContext";
    "isNextTokenParentNotJsxNamespacedName"]);
  ("NoSpaceBeforeQuestionMark", ["isNonJsxSameLineTokenContext"; "isNotBinaryOpContext";
    "isNotTypeAnnotationContext"]);
  ("SpaceAfterQuestionMarkInConditionalOperator", ["isNonJsxSameLineTokenContext"; "isConditionalOperatorContext"]);
  ("NoSpaceAfterQuestionMark", ["isNonJsxSameLineTokenContext"; "isNonOptionalPropertyContext"]);
  ("NoSpaceBeforeDot", ["isNonJsxSameLineTokenContext"; "isNotPropertyAccessOnIntegerLiteral"]);
  ("NoSpaceAfterDot", ["isNonJsxSameLineTokenContext"]);
  ("NoSpaceBetweenImportParenInImportType", ["isNonJsxSameLineTokenContext"; "isImportTypeContext"]);
  ("NoSpaceAfterUnaryPrefixOperator", ["isNonJsxSameLineTokenContext"; "isNotBinaryOpContext"]);
  ("NoSpaceAfterUnaryPreincrementOperator", ["isNonJsxSameLineTokenContext"]);
  ("NoSpaceAfterUnaryPredecrementOperator", ["isNonJsxSameLineTokenContext"]);
  ("NoSpaceBeforeUnaryPostincrementOperator", ["isNonJsxSameLineTokenContext"; "isNotStatementConditionContext"]);
  ("NoSpaceBeforeUnaryPostdecrementOperator", ["isNonJsxSameLineTokenContext"; "isNotStatementConditionContext"]);
  ("SpaceAfterPostincrementWhenFollowedByAdd", ["isNonJsxSameLineTokenContext"; "isBinaryOpContext"]);
  ("SpaceAfterAddWhenFollowedByUnaryPlus", ["isNonJsxSameLineTokenContext"; "isBinaryOpContext"]);
  ("SpaceAfterAddWhenFollowedByPreincrement", ["isNonJsxSameLineTokenContext"; "isBinaryOpContext"]);
  ("SpaceAfterPostdecrementWhenFollowedBySubtract", ["isNonJsxSameLineTokenContext"; "isBinaryOpContext"]);
  ("SpaceAfterSubtractWhenFollowedByUnaryMinus", ["isNonJsxSameLineTokenContext"; "isBinaryOpContext"]);
  ("SpaceAfterSubtractWhenFollowedByPredecrement", ["isNonJsxSameLineTokenContext"; "isBinaryOpContext"]);
  ("NoSpaceAfterCloseBrace", ["isNonJsxSameLineTokenContext"]);
  ("NewLineBeforeCloseBraceInBlockContext", ["isMultilineBlockContext"]);
  ("SpaceAfterCloseBrace", ["isNonJsxSameLineTokenContext"; "isAfterCodeBlockContext"]);
  ("SpaceBetweenCloseBraceAndElse", ["isNonJsxSameLineTokenContext"]);
  ("SpaceBetweenCloseBraceAndWhile", ["isNonJsxSameLineTokenContext"]);
  ("NoSpaceBetweenEmptyBraceBrackets", ["isNonJsxSameLineTokenContext"; "isObjectContext"]);
  ("SpaceAfterConditionalClosingParen", ["isControlDeclContext"]);
  ("NoSpaceBetweenFunctionKeywordAndStar", ["isFunctionDeclarationOrFunctionExpressionContext"]);
  ("SpaceAfterStarInGeneratorDeclaration", ["isFunctionDeclarationOrFunctionExpressionContext"]);
  ("SpaceAfterFunctionInFuncDecl", ["isFunctionDeclContext"]);
  ("NewLineAfterOpenBraceInBlockContext", ["isMultilineBlockContext"]);
  ("SpaceAfterGetSetInMember", ["isFunctionDeclContext"]);
  ("NoSpaceBetweenYieldKeywordAndStar", ["isNonJsxSameLineTokenContext"; "isYieldOrYieldStarWithOperand"])
].
Definition RULE_CONTEXTS_2 : list (string * list string) := [
  ("SpaceBetweenYieldOrYieldStarAndOperand", ["isNonJsxSameLineTokenContext"; "isYieldOrYieldStarWithOperand"]);
  ("NoSpaceBetweenReturnAndSemicolon", ["isNonJsxSameLineTokenContext"]);
  ("SpaceAfterCertainKeywords", ["isNonJsxSameLineTokenContext"]);
  ("SpaceAfterLetConstInVariableDeclaration", ["isNonJsxSameLineTokenContext"; "isStartOfVariableDeclarationList"]);
  ("NoSpaceBeforeOpenParenInFuncCall", ["isNonJsxSameLineTokenContext"; "isFunctionCallOrNewContext";
    "isPreviousTokenNotComma"]);
  ("SpaceBeforeBinaryKeywordOperator", ["isNonJsxSameLineTokenContext"; "isBinaryOpContext"]);
  ("SpaceAfterBinaryKeywordOperator", ["isNonJsxSameLineTokenContext"; "isBinaryOpContext"]);
  ("SpaceAfterVoidOperator", ["isNonJsxSameLineTokenContext"; "isVoidOpContext"]);
  ("SpaceBetweenAsyncAndOpenParen", ["isArrowFunctionContext"; "isNonJsxSameLineTokenContext"]);
  ("SpaceBetweenAsyncAndFunctionKeyword", ["isNonJsxSameLineTokenContext"]);
  ("NoSpaceBetweenTagAndTemplateString", ["isNonJsxSameLineTokenContext"]);
  ("SpaceBeforeJsxAttribute", ["isNextTokenParentJsxAttribute"; "isNonJsxSameLineTokenContext"]);
  ("SpaceBeforeSlashInJsxOpeningElement", ["isJsxSelfClosingElementContext"; "isNonJsxSameLineTokenContext"]);
  ("NoSpaceBeforeGreaterThanTokenInJsxOpeningElement", ["isJsxSelfClosingElementContext";
    "isNonJsxSameLineTokenContext"]);
  ("NoSpaceBeforeEqualInJsxAttribute", ["isJsxAttributeContext"; "isNonJsxSameLineTokenContext"]);
  ("NoSpaceAfterEqualInJsxAttribute", ["isJsxAttributeContext"; "isNonJsxSameLineTokenContext"]);
  ("NoSpaceBeforeJsxNamespaceColon", ["isNextTokenParentJsxNamespacedName"]);
  ("NoSpaceAfterJsxNamespaceColon", ["isNextTokenParentJsxNamespacedName"]);
  ("NoSpaceAfterModuleImport", ["isNonJsxSameLineTokenContext"]);
  ("SpaceAfterCertainTypeScriptKeywords", ["isNonJsxSameLineTokenContext"]);
  ("SpaceBeforeCertainTypeScriptKeywords", ["isNonJsxSameLineTokenContext"]);
  ("SpaceAfterModuleName", ["isModuleDeclContext"]);
  ("SpaceBeforeArrow", ["isNonJsxSameLineTokenContext"]);
  ("SpaceAfterArrow", ["isNonJsxSameLineTokenContext"]);
  ("NoSpaceAfterEllipsis", ["isNonJsxSameLineTokenContext"]);
  ("NoSpaceAfterOptionalParameters", ["isNonJsxSameLineTokenContext"; "isNotBinaryOpContext"]);
  ("NoSpaceBetweenEmptyInterfaceBraceBrackets", ["isNonJsxSameLineTokenContext"; "isObjectTypeContext"]);
  ("NoSpaceBeforeOpenAngularBracket", ["isNonJsxSameLineTokenContext"; "isTypeArgumentOrParameterOrAssertionContext"]);
  ("NoSpaceBetweenCloseParenAndAngularBracket", ["isNonJsxSameLineTokenContext";
    "isTypeArgumentOrParameterOrAssertionContext"]);
  ("NoSpaceAfterOpenAngularBracket", ["isNonJsxSameLineTokenContext"; "isTypeArgumentOrParameterOrAssertionContext"]);
  ("NoSpaceBeforeCloseAngularBracket", ["isNonJsxSameLineTokenContext";
    "isTypeArgumentOrParameterOrAssertionContext"])
].
Definition RULE_CONTEXTS_3 : list (string * list string) := [
  ("NoSpaceAfterCloseAngularBracket", ["isNonJsxSameLineTokenContext"; "isTypeArgumentOrParameterOrAssertionContext";
    "isNotFunctionDeclContext"; "isNonTypeAssertionContext"]);
  ("SpaceBeforeAt", ["isNonJsxSameLineTokenContext"]);
  ("NoSpaceAfterAt", ["isNonJsxSameLineTokenContext"]);
  ("SpaceAfterDecorator", ["isEndOfDecoratorContextOnSameLine"]);
  ("NoSpaceBeforeNonNullAssertionOperator", ["isNonJsxSameLineTokenContext"; "isNonNullAssertionContext"]);
  ("NoSpaceAfterNewKeywordOnConstructorSignature", ["isNonJsxSameLineTokenContext"; "isConstructorSignatureContext"]);
  ("SpaceLessThanAndNonJSXTypeAnnotation", ["isNonJsxSameLineTokenContext"]);
  ("SpaceAfterConstructor", ["isOptionEnabled(insertSpaceAfterConstructorOption)"; "isNonJsxSameLineTokenContext"]);
  ("NoSpaceAfterConstructor", ["isOptionDisabledOrUndefined(insertSpaceAfterConstructorOption)";
    "isNonJsxSameLineTokenContext"]);
  ("SpaceAfterComma", ["isOptionEnabled(insertSpaceAfterCommaDelimiterOption)"; "isNonJsxSameLineTokenContext";
    "isNonJsxElementOrFragmentContext"; "isNextTokenNotCloseBracket"; "isNextTokenNotCloseParen"]);
  ("NoSpaceAfterComma", ["isOptionDisabledOrUndefined(insertSpaceAfterCommaDelimiterOption)";
    "isNonJsxSameLineTokenContext"; "isNonJsxElementOrFragmentContext"]);
  ("SpaceAfterAnonymousFunctionKeyword",
    ["isOptionEnabled(insertSpaceAfterFunctionKeywordForAnonymousFunctionsOption)"; "isFunctionDeclContext"]);
  ("NoSpaceAfterAnonymousFunctionKeyword",
    ["isOptionDisabledOrUndefined(insertSpaceAfterFunctionKeywordForAnonymousFunctionsOption)";
    "isFunctionDeclContext"]);
  ("SpaceAfterKeywordInControl", ["isOptionEnabled(insertSpaceAfterKeywordsInControlFlowStatementsOption)";
    "isControlDeclContext"]);
  ("NoSpaceAfterKeywordInControl",
    ["isOptionDisabledOrUndefined(insertSpaceAfterKeywordsInControlFlowStatementsOption)"; "isControlDeclContext"]);
  ("SpaceAfterOpenParen", ["isOptionEnabled(insertSpaceAfterOpeningAndBeforeClosingNonemptyParenthesisOption)";
    "isNonJsxSameLineTokenContext"]);
  ("SpaceBeforeCloseParen", ["isOptionEnabled(insertSpaceAfterOpeningAndBeforeClosingNonemptyParenthesisOption)";
    "isNonJsxSameLineTokenContext"]);
  ("SpaceBetweenOpenParens", ["isOptionEnabled(insertSpaceAfterOpeningAndBeforeClosingNonemptyParenthesisOption)";
    "isNonJsxSameLineTokenContext"]);
  ("NoSpaceBetweenParens", ["isNonJsxSameLineTokenContext"]);
  ("NoSpaceAfterOpenParen",
    ["isOptionDisabledOrUndefined(insertSpaceAfterOpeningAndBeforeClosingNonemptyParenthesisOption)";
    "isNonJsxSameLineTokenContext"]);
  ("NoSpaceBeforeCloseParen",
    ["isOptionDisabledOrUndefined(insertSpaceAfterOpeningAndBeforeClosingNonemptyParenthesisOption)";
    "isNonJsxSameLineTokenContext"]);
  ("SpaceAfterOpenBracket", ["isOptionEnabled(insertSpaceAfterOpeningAndBeforeClosingNonemptyBracketsOption)";
    "isNonJsxSameLineTokenContext"]);
  ("SpaceBeforeCloseBracket", ["isOptionEnabled(insertSpaceAfterOpeningAndBeforeClosingNonemptyBracketsOption)";
    "isNonJsxSameLineTokenContext"]);
  ("NoSpaceBetweenBrackets", ["isNonJsxSameLineTokenContext"]);
  ("NoSpaceAfterOpenBracket",
    ["isOptionDisabledOrUndefined(insertSpaceAfterOpeningAndBeforeClosingNonemptyBracketsOption)";
    "isNonJsxSameLineTokenContext"])
].
Definition RULE_CONTEXTS_4 : list (string * list string) := [
  ("NoSpaceBeforeCloseBracket",
    ["isOptionDisabledOrUndefined(insertSpaceAfterOpeningAndBeforeClosingNonemptyBracketsOption)";
    "isNonJsxSameLineTokenContext"]);
  ("SpaceAfterOpenBrace", ["isOptionEnabledOrUndefined(insertSpaceAfterOpeningAndBeforeClosingNonemptyBracesOption)";
    "isBraceWrappedContext"]);
  ("SpaceBeforeCloseBrace",
    ["isOptionEnabledOrUndefined(insertSpaceAfterOpeningAndBeforeClosingNonemptyBracesOption)";
    "isBraceWrappedContext"]);
  ("NoSpaceBetweenEmptyBraceBrackets", ["isNonJsxSameLineTokenContext"; "isObjectContext"]);
  ("NoSpaceAfterOpenBrace", ["isOptionDisabled(insertSpaceAfterOpeningAndBeforeClosingNonemptyBracesOption)";
    "isNonJsxSameLineTokenContext"]);
  ("NoSpaceBeforeCloseBrace", ["isOptionDisabled(insertSpaceAfterOpeningAndBeforeClosingNonemptyBracesOption)";
    "isNonJsxSameLineTokenContext"]);
  ("SpaceBetweenEmptyBraceBrackets", ["isOptionEnabled(insertSpaceAfterOpeningAndBeforeClosingEmptyBracesOption)"]);
  ("NoSpaceBetweenEmptyBraceBrackets", ["isOptionDisabled(insertSpaceAfterOpeningAndBeforeClosingEmptyBracesOption)";
    "isNonJsxSameLineTokenContext"]);
  ("SpaceAfterTemplateHeadAndMiddle",
    ["isOptionEnabled(insertSpaceAfterOpeningAndBeforeClosingTemplateStringBracesOption)"; "isNonJsxTextContext"]);
  ("SpaceBeforeTemplateMiddleAndTail",
    ["isOptionEnabled(insertSpaceAfterOpeningAndBeforeClosingTemplateStringBracesOption)";
    "isNonJsxSameLineTokenContext"]);
  ("NoSpaceAfterTemplateHeadAndMiddle",
    ["isOptionDisabledOrUndefined(insertSpaceAfterOpeningAndBeforeClosingTemplateStringBracesOption)";
    "isNonJsxTextContext"]);
  ("NoSpaceBeforeTemplateMiddleAndTail",
    ["isOptionDisabledOrUndefined(insertSpaceAfterOpeningAndBeforeClosingTemplateStringBracesOption)";
    "isNonJsxSameLineTokenContext"]);
  ("SpaceAfterOpenBraceInJsxExpression",
    ["isOptionEnabled(insertSpaceAfterOpeningAndBeforeClosingJsxExpressionBracesOption)";
    "isNonJsxSameLineTokenContext"; "isJsxExpressionContext"]);
  ("SpaceBeforeCloseBraceInJsxExpression",
    ["isOptionEnabled(insertSpaceAfterOpeningAndBeforeClosingJsxExpressionBracesOption)";
    "isNonJsxSameLineTokenContext"; "isJsxExpressionContext"]);
  ("NoSpaceAfterOpenBraceInJsxExpression",
    ["isOptionDisabledOrUndefined(insertSpaceAfterOpeningAndBeforeClosingJsxExpressionBracesOption)";
    "isNonJsxSameLineTokenContext"; "isJsxExpressionContext"]);
  ("NoSpaceBeforeCloseBraceInJsxExpression",
    ["isOptionDisabledOrUndefined(insertSpaceAfterOpeningAndBeforeClosingJsxExpressionBracesOption)";
    "isNonJsxSameLineTokenContext"; "isJsxExpressionContext"]);
  ("SpaceAfterSemicolonInFor", ["isOptionEnabled(insertSpaceAfterSemicolonInForStatementsOption)";
    "isNonJsxSameLineTokenContext"; "isForContext"]);
  ("NoSpaceAfterSemicolonInFor", ["isOptionDisabledOrUndefined(insertSpaceAfterSemicolonInForStatementsOption)";
    "isNonJsxSameLineTokenContext"; "isForContext"]);
  ("SpaceBeforeBinaryOperator", ["isOptionEnabled(insertSpaceBeforeAndAfterBinaryOperatorsOption)";
    "isNonJsxSameLineTokenContext"; "isBinaryOpContext"]);
  ("SpaceAfterBinaryOperator", ["isOptionEnabled(insertSpaceBeforeAndAfterBinaryOperatorsOption)";
    "isNonJsxSameLineTokenContext"; "isBinaryOpContext"])
].
Definition RULE_CONTEXTS_5 : list (string * list string) := [
  ("NoSpaceBeforeBinaryOperator", ["isOptionDisabledOrUndefined(insertSpaceBeforeAndAfterBinaryOperatorsOption)";
    "isNonJsxSameLineTokenContext"; "isBinaryOpContext"]);
  ("NoSpaceAfterBinaryOperator", ["isOptionDisabledOrUndefined(insertSpaceBeforeAndAfterBinaryOperatorsOption)";
    "isNonJsxSameLineTokenContext"; "isBinaryOpContext"]);
  ("SpaceBeforeOpenParenInFuncDecl", ["isOptionEnabled(insertSpaceBeforeFunctionParenthesisOption)";
    "isNonJsxSameLineTokenContext"; "isFunctionDeclContext"]);
  ("NoSpaceBeforeOpenParenInFuncDecl", ["isOptionDisabledOrUndefined(insertSpaceBeforeFunctionParenthesisOption)";
    "isNonJsxSameLineTokenContext"; "isFunctionDeclContext"]);
  ("NewLineBeforeOpenBraceInControl", ["isOptionEnabled(placeOpenBraceOnNewLineForControlBlocksOption)";
    "isControlDeclContext"; "isBeforeMultilineBlockContext"]);
  ("NewLineBeforeOpenBraceInFunction", ["isOptionEnabled(placeOpenBraceOnNewLineForFunctionsOption)";
    "isFunctionDeclContext"; "isBeforeMultilineBlockContext"]);
  ("NewLineBeforeOpenBraceInTypeScriptDeclWithBlock", ["isOptionEnabled(placeOpenBraceOnNewLineForFunctionsOption)";
    "isTypeScriptDeclWithBlockContext"; "isBeforeMultilineBlockContext"]);
  ("SpaceAfterTypeAssertion", ["isOptionEnabled(insertSpaceAfterTypeAssertionOption)";
    "isNonJsxSameLineTokenContext"; "isTypeAssertionContext"]);
  ("NoSpaceAfterTypeAssertion", ["isOptionDisabledOrUndefined(insertSpaceAfterTypeAssertionOption)";
    "isNonJsxSameLineTokenContext"; "isTypeAssertionContext"]);
  ("SpaceBeforeTypeAnnotation", ["isOptionEnabled(insertSpaceBeforeTypeAnnotationOption)";
    "isNonJsxSameLineTokenContext"; "isTypeAnnotationContext"]);
  ("NoSpaceBeforeTypeAnnotation", ["isOptionDisabledOrUndefined(insertSpaceBeforeTypeAnnotationOption)";
    "isNonJsxSameLineTokenContext"; "isTypeAnnotationContext"]);
  ("NoOptionalSemicolon", ["optionEquals(semicolonOption, lsutil.SemicolonPreferenceRemove)";
    "isSemicolonDeletionContext"]);
  ("OptionalSemicolon", ["optionEquals(semicolonOption, lsutil.SemicolonPreferenceInsert)";
    "isSemicolonInsertionContext"]);
  ("NoSpaceBeforeSemicolon", ["isNonJsxSameLineTokenContext"]);
  ("SpaceBeforeOpenBraceInControl",
    ["isOptionDisabledOrUndefinedOrTokensOnSameLine(placeOpenBraceOnNewLineForControlBlocksOption)";
    "isControlDeclContext"; "isNotFormatOnEnter"; "isSameLineTokenOrBeforeBlockContext"]);
  ("SpaceBeforeOpenBraceInFunction",
    ["isOptionDisabledOrUndefinedOrTokensOnSameLine(placeOpenBraceOnNewLineForFunctionsOption)";
    "isFunctionDeclContext"; "isBeforeBlockContext"; "isNotFormatOnEnter"; "isSameLineTokenOrBeforeBlockContext"]);
  ("SpaceBeforeOpenBraceInTypeScriptDeclWithBlock",
    ["isOptionDisabledOrUndefinedOrTokensOnSameLine(placeOpenBraceOnNewLineForFunctionsOption)";
    "isTypeScriptDeclWithBlockContext"; "isNotFormatOnEnter"; "isSameLineTokenOrBeforeBlockContext"]);
  ("NoSpaceBeforeComma", ["isNonJsxSameLineTokenContext"]);
  ("NoSpaceBeforeOpenBracket", ["isNonJsxSameLineTokenContext"]);
  ("NoSpaceAfterCloseBracket", ["isNonJsxSameLineTokenContext"; "isNotBeforeBlockInFunctionDeclarationContext"]);
  ("SpaceAfterSemicolon", ["isNonJsxSameLineTokenContext"]);
  ("SpaceBetweenForAndAwaitKeyword", ["isNonJsxSameLineTokenContext"])
].
Definition RULE_CONTEXTS_6 : list (string * list string) := [
  ("SpaceBetweenDotDotDotAndTypeName", ["isNonJsxSameLineTokenContext"]);
  ("SpaceBetweenStatements", ["isNonJsxSameLineTokenContext"; "isNonJsxElementOrFragmentContext"; "isNotForContext"]);
  ("SpaceAfterTryCatchFinally", ["isNonJsxSameLineTokenContext"])
].
Definition RULE_CONTEXTS : list (string * list string) :=
  RULE_CONTEXTS_1 ++ RULE_CONTEXTS_2 ++ RULE_CONTEXTS_3 ++ RULE_CONTEXTS_4 ++ RULE_CONTEXTS_5 ++ RULE_CONTEXTS_6.

(** The first entry of the name; a name that has none has no predicates. *)
Fixpoint find_contexts (rows : list (string * list string)) (name : string) : list string :=
  match rows with
  | [] => []
  | (n, contexts) :: rows => if String.eqb n name then contexts else find_contexts rows name
  end.
Definition rule_contexts_for (debug_name : string) : list string := find_contexts RULE_CONTEXTS debug_name.

Definition entry_contexts_flags (debug_name : string) (left right : TokenRange) (action : Z) (flags : RuleFlags.t)
    (context_names : list string) : RuleSpec :=
  mkSpec left right (mkRule debug_name context_names action flags).
Definition entry_contexts (debug_name : string) (left right : TokenRange) (action : Z) (context_names : list string)
    : RuleSpec :=
  entry_contexts_flags debug_name left right action RuleFlags.NONE context_names.
Definition entry_flags (debug_name : string) (left right : TokenRange) (action : Z) (flags : RuleFlags.t) : RuleSpec :=
  entry_contexts_flags debug_name left right action flags (rule_contexts_for debug_name).
Definition entry (debug_name : string) (left right : TokenRange) (action : Z) : RuleSpec :=
  entry_flags debug_name left right action RuleFlags.NONE.

(** ** The token ranges of [get_all_rules] *)
Definition all_tokens : list Kind := List.filter (fun k => negb (Kind_eqb k EndOfFile)) (kinds_from_to FirstToken LastToken).
Definition any_token_except (tokens : list Kind) : TokenRange :=
  mkRange (List.filter (fun k => negb (existsb (Kind_eqb k) tokens)) all_tokens) false.
Definition any_token : TokenRange := mkRange all_tokens false.
Definition any_token_including_multiline_comments : TokenRange := token_range_from_ex all_tokens [MultiLineCommentTrivia].
Definition any_token_including_eof : TokenRange := token_range_from_ex all_tokens [EndOfFile].
Definition keywords : TokenRange := token_range_from_range FirstKeyword LastKeyword.
Definition binary_operators : TokenRange := token_range_from_range FirstBinaryOperator LastBinaryOperator.
Definition binary_keyword_operators : list Kind := [InKeyword; InstanceOfKeyword; OfKeyword; AsKeyword; IsKeyword;
   SatisfiesKeyword].
Definition unary_prefix_operators : list Kind := [PlusPlusToken; MinusToken; TildeToken; ExclamationToken].
Definition unary_prefix_expressions : list Kind := [NumericLiteral; BigIntLiteral; Identifier; OpenParenToken;
   OpenBracketToken; OpenBraceToken; ThisKeyword; NewKeyword].
Definition unary_preincrement_expressions : list Kind := [Identifier; OpenParenToken; ThisKeyword; NewKeyword].
Definition unary_postincrement_expressions : list Kind := [Identifier; CloseParenToken; CloseBracketToken;
   NewKeyword].
Definition unary_predecrement_expressions : list Kind := [Identifier; OpenParenToken; ThisKeyword; NewKeyword].
Definition unary_postdecrement_expressions : list Kind := [Identifier; CloseParenToken; CloseBracketToken;
   NewKeyword].
Definition comments : list Kind := [SingleLineCommentTrivia; MultiLineCommentTrivia].
Definition type_keywords : list Kind := [AnyKeyword; AssertsKeyword; BigIntKeyword; BooleanKeyword; FalseKeyword;
   InferKeyword; KeyOfKeyword; NeverKeyword; NullKeyword; NumberKeyword; ObjectKeyword; ReadonlyKeyword;
   StringKeyword; SymbolKeyword; TypeOfKeyword; TrueKeyword; VoidKeyword; UndefinedKeyword; UniqueKeyword;
   UnknownKeyword].
Definition type_names : list Kind := Identifier :: type_keywords.
Definition function_open_brace_left_token_range : TokenRange := any_token_including_multiline_comments.
Definition type_script_open_brace_left_token_range : TokenRange := token_range_from [Identifier; GreaterThanToken;
   MultiLineCommentTrivia; ClassKeyword; ExportKeyword; ImportKeyword].
Definition control_open_brace_left_token_range : TokenRange := token_range_from [CloseParenToken;
   MultiLineCommentTrivia; DoKeyword; TryKeyword; FinallyKeyword; ElseKeyword; CatchKeyword].

(** ** The rules *)
Definition high_priority_common_rules_1 : list RuleSpec := [
  entry "IgnoreBeforeComment" any_token (range comments) RuleAction.STOP_PROCESSING_SPACE_ACTIONS;
  entry "IgnoreAfterLineComment" (kind SingleLineCommentTrivia) any_token RuleAction.STOP_PROCESSING_SPACE_ACTIONS;
  entry "NotSpaceBeforeColon" any_token (kind ColonToken) RuleAction.DELETE_SPACE;
  entry "SpaceAfterColon" (kind ColonToken) any_token RuleAction.INSERT_SPACE;
  entry "NoSpaceBeforeQuestionMark" any_token (kind QuestionToken) RuleAction.DELETE_SPACE;
  entry "SpaceAfterQuestionMarkInConditionalOperator" (kind QuestionToken) any_token RuleAction.INSERT_SPACE;
  entry "NoSpaceAfterQuestionMark" (kind QuestionToken) any_token RuleAction.DELETE_SPACE;
  entry "NoSpaceBeforeDot" any_token (range [DotToken; QuestionDotToken]) RuleAction.DELETE_SPACE;
  entry "NoSpaceAfterDot" (range [DotToken; QuestionDotToken]) any_token RuleAction.DELETE_SPACE;
  entry "NoSpaceBetweenImportParenInImportType" (kind ImportKeyword) (kind OpenParenToken) RuleAction.DELETE_SPACE;
  entry "NoSpaceAfterUnaryPrefixOperator" (range unary_prefix_operators) (range unary_prefix_expressions)
    RuleAction.DELETE_SPACE;
  entry "NoSpaceAfterUnaryPreincrementOperator" (kind PlusPlusToken) (range unary_preincrement_expressions)
    RuleAction.DELETE_SPACE;
  entry "NoSpaceAfterUnaryPredecrementOperator" (kind MinusMinusToken) (range unary_predecrement_expressions)
    RuleAction.DELETE_SPACE;
  entry "NoSpaceBeforeUnaryPostincrementOperator" (range unary_postincrement_expressions) (kind PlusPlusToken)
    RuleAction.DELETE_SPACE;
  entry "NoSpaceBeforeUnaryPostdecrementOperator" (range unary_postdecrement_expressions) (kind MinusMinusToken)
    RuleAction.DELETE_SPACE;
  entry "SpaceAfterPostincrementWhenFollowedByAdd" (kind PlusPlusToken) (kind PlusToken) RuleAction.INSERT_SPACE;
  entry "SpaceAfterAddWhenFollowedByUnaryPlus" (kind PlusToken) (kind PlusToken) RuleAction.INSERT_SPACE;
  entry "SpaceAfterAddWhenFollowedByPreincrement" (kind PlusToken) (kind PlusPlusToken) RuleAction.INSERT_SPACE;
  entry "SpaceAfterPostdecrementWhenFollowedBySubtract" (kind MinusMinusToken) (kind MinusToken)
    RuleAction.INSERT_SPACE;
  entry "SpaceAfterSubtractWhenFollowedByUnaryMinus" (kind MinusToken) (kind MinusToken) RuleAction.INSERT_SPACE;
  entry "SpaceAfterSubtractWhenFollowedByPredecrement" (kind MinusToken) (kind MinusMinusToken)
    RuleAction.INSERT_SPACE;
  entry "NoSpaceAfterCloseBrace" (kind CloseBraceToken) (range [CommaToken; SemicolonToken]) RuleAction.DELETE_SPACE
].
Definition high_priority_common_rules_2 : list RuleSpec := [
  entry "NewLineBeforeCloseBraceInBlockContext" any_token_including_multiline_comments (kind CloseBraceToken)
    RuleAction.INSERT_NEW_LINE;
  entry "SpaceAfterCloseBrace" (kind CloseBraceToken) (any_token_except [CloseParenToken]) RuleAction.INSERT_SPACE;
  entry "SpaceBetweenCloseBraceAndElse" (kind CloseBraceToken) (kind ElseKeyword) RuleAction.INSERT_SPACE;
  entry "SpaceBetweenCloseBraceAndWhile" (kind CloseBraceToken) (kind WhileKeyword) RuleAction.INSERT_SPACE;
  entry "NoSpaceBetweenEmptyBraceBrackets" (kind OpenBraceToken) (kind CloseBraceToken) RuleAction.DELETE_SPACE;
  entry "SpaceAfterConditionalClosingParen" (kind CloseParenToken) (kind OpenBracketToken) RuleAction.INSERT_SPACE;
  entry "NoSpaceBetweenFunctionKeywordAndStar" (kind FunctionKeyword) (kind AsteriskToken) RuleAction.DELETE_SPACE;
  entry "SpaceAfterStarInGeneratorDeclaration" (kind AsteriskToken) (kind Identifier) RuleAction.INSERT_SPACE;
  entry "SpaceAfterFunctionInFuncDecl" (kind FunctionKeyword) any_token RuleAction.INSERT_SPACE;
  entry "NewLineAfterOpenBraceInBlockContext" (kind OpenBraceToken) any_token RuleAction.INSERT_NEW_LINE;
  entry "SpaceAfterGetSetInMember" (range [GetKeyword; SetKeyword]) (kind Identifier) RuleAction.INSERT_SPACE;
  entry "NoSpaceBetweenYieldKeywordAndStar" (kind YieldKeyword) (kind AsteriskToken) RuleAction.DELETE_SPACE;
  entry "SpaceBetweenYieldOrYieldStarAndOperand" (range [YieldKeyword; AsteriskToken]) any_token
    RuleAction.INSERT_SPACE;
  entry "NoSpaceBetweenReturnAndSemicolon" (kind ReturnKeyword) (kind SemicolonToken) RuleAction.DELETE_SPACE;
  entry "SpaceAfterCertainKeywords" (range [VarKeyword; ThrowKeyword; NewKeyword; DeleteKeyword; ReturnKeyword;
    TypeOfKeyword; AwaitKeyword]) any_token RuleAction.INSERT_SPACE;
  entry "SpaceAfterLetConstInVariableDeclaration" (range [LetKeyword; ConstKeyword]) any_token RuleAction.INSERT_SPACE;
  entry "NoSpaceBeforeOpenParenInFuncCall" any_token (kind OpenParenToken) RuleAction.DELETE_SPACE;
  entry "SpaceBeforeBinaryKeywordOperator" any_token (range binary_keyword_operators) RuleAction.INSERT_SPACE;
  entry "SpaceAfterBinaryKeywordOperator" (range binary_keyword_operators) any_token RuleAction.INSERT_SPACE;
  entry "SpaceAfterVoidOperator" (kind VoidKeyword) any_token RuleAction.INSERT_SPACE;
  entry "SpaceBetweenAsyncAndOpenParen" (kind AsyncKeyword) (kind OpenParenToken) RuleAction.INSERT_SPACE
].
Definition high_priority_common_rules_3 : list RuleSpec := [
  entry "SpaceBetweenAsyncAndFunctionKeyword" (kind AsyncKeyword) (range [FunctionKeyword; Identifier])
    RuleAction.INSERT_SPACE;
  entry "NoSpaceBetweenTagAndTemplateString" (range [Identifier; CloseParenToken]) (range
    [NoSubstitutionTemplateLiteral; TemplateHead]) RuleAction.DELETE_SPACE;
  entry "SpaceBeforeJsxAttribute" any_token (kind Identifier) RuleAction.INSERT_SPACE;
  entry "SpaceBeforeSlashInJsxOpeningElement" any_token (kind SlashToken) RuleAction.INSERT_SPACE;
  entry "NoSpaceBeforeGreaterThanTokenInJsxOpeningElement" (kind SlashToken) (kind GreaterThanToken)
    RuleAction.DELETE_SPACE;
  entry "NoSpaceBeforeEqualInJsxAttribute" any_token (kind EqualsToken) RuleAction.DELETE_SPACE;
  entry "NoSpaceAfterEqualInJsxAttribute" (kind EqualsToken) any_token RuleAction.DELETE_SPACE;
  entry "NoSpaceBeforeJsxNamespaceColon" (kind Identifier) (kind ColonToken) RuleAction.DELETE_SPACE;
  entry "NoSpaceAfterJsxNamespaceColon" (kind ColonToken) (kind Identifier) RuleAction.DELETE_SPACE;
  entry "NoSpaceAfterModuleImport" (range [ModuleKeyword; RequireKeyword]) (kind OpenParenToken)
    RuleAction.DELETE_SPACE;
  entry "SpaceAfterCertainTypeScriptKeywords" (range [AbstractKeyword; AccessorKeyword; ClassKeyword; DeclareKeyword;
    DefaultKeyword; EnumKeyword; ExportKeyword; ExtendsKeyword; GetKeyword; ImplementsKeyword; ImportKeyword;
    InterfaceKeyword; ModuleKeyword; NamespaceKeyword; OverrideKeyword; PrivateKeyword; PublicKeyword;
    ProtectedKeyword; ReadonlyKeyword; SetKeyword; StaticKeyword; TypeKeyword; FromKeyword; KeyOfKeyword;
    InferKeyword]) any_token RuleAction.INSERT_SPACE;
  entry "SpaceBeforeCertainTypeScriptKeywords" any_token (range [ExtendsKeyword; ImplementsKeyword; FromKeyword])
    RuleAction.INSERT_SPACE;
  entry "SpaceAfterModuleName" (kind StringLiteral) (kind OpenBraceToken) RuleAction.INSERT_SPACE;
  entry "SpaceBeforeArrow" any_token (kind EqualsGreaterThanToken) RuleAction.INSERT_SPACE;
  entry "SpaceAfterArrow" (kind EqualsGreaterThanToken) any_token RuleAction.INSERT_SPACE;
  entry "NoSpaceAfterEllipsis" (kind DotDotDotToken) (kind Identifier) RuleAction.DELETE_SPACE;
  entry "NoSpaceAfterOptionalParameters" (kind QuestionToken) (range [CloseParenToken; CommaToken])
    RuleAction.DELETE_SPACE
].
Definition high_priority_common_rules_4 : list RuleSpec := [
  entry "NoSpaceBetweenEmptyInterfaceBraceBrackets" (kind OpenBraceToken) (kind CloseBraceToken)
    RuleAction.DELETE_SPACE;
  entry "NoSpaceBeforeOpenAngularBracket" (range type_names) (kind LessThanToken) RuleAction.DELETE_SPACE;
  entry "NoSpaceBetweenCloseParenAndAngularBracket" (kind CloseParenToken) (kind LessThanToken)
    RuleAction.DELETE_SPACE;
  entry "NoSpaceAfterOpenAngularBracket" (kind LessThanToken) any_token RuleAction.DELETE_SPACE;
  entry "NoSpaceBeforeCloseAngularBracket" any_token (kind GreaterThanToken) RuleAction.DELETE_SPACE;
  entry "NoSpaceAfterCloseAngularBracket" (kind GreaterThanToken) (range [OpenParenToken; OpenBracketToken;
    GreaterThanToken; CommaToken]) RuleAction.DELETE_SPACE;
  entry "SpaceBeforeAt" (range [CloseParenToken; Identifier]) (kind AtToken) RuleAction.INSERT_SPACE;
  entry "NoSpaceAfterAt" (kind AtToken) any_token RuleAction.DELETE_SPACE;
  entry "SpaceAfterDecorator" any_token (range [AbstractKeyword; Identifier; ExportKeyword; DefaultKeyword;
    ClassKeyword; StaticKeyword; PublicKeyword; PrivateKeyword; ProtectedKeyword; GetKeyword; SetKeyword;
    OpenBracketToken; AsteriskToken]) RuleAction.INSERT_SPACE;
  entry "NoSpaceBeforeNonNullAssertionOperator" any_token (kind ExclamationToken) RuleAction.DELETE_SPACE;
  entry "NoSpaceAfterNewKeywordOnConstructorSignature" (kind NewKeyword) (kind OpenParenToken) RuleAction.DELETE_SPACE;
  entry "SpaceLessThanAndNonJSXTypeAnnotation" (kind LessThanToken) (kind LessThanToken) RuleAction.INSERT_SPACE
].
Definition high_priority_common_rules : list RuleSpec := high_priority_common_rules_1 ++ high_priority_common_rules_2 ++ high_priority_common_rules_3 ++ high_priority_common_rules_4.
Definition user_configurable_rules_1 : list RuleSpec := [
  entry "SpaceAfterConstructor" (kind ConstructorKeyword) (kind OpenParenToken) RuleAction.INSERT_SPACE;
  entry "NoSpaceAfterConstructor" (kind ConstructorKeyword) (kind OpenParenToken) RuleAction.DELETE_SPACE;
  entry "SpaceAfterComma" (kind CommaToken) any_token RuleAction.INSERT_SPACE;
  entry "NoSpaceAfterComma" (kind CommaToken) any_token RuleAction.DELETE_SPACE;
  entry "SpaceAfterAnonymousFunctionKeyword" (range [FunctionKeyword; AsteriskToken]) (kind OpenParenToken)
    RuleAction.INSERT_SPACE;
  entry "NoSpaceAfterAnonymousFunctionKeyword" (range [FunctionKeyword; AsteriskToken]) (kind OpenParenToken)
    RuleAction.DELETE_SPACE;
  entry "SpaceAfterKeywordInControl" keywords (kind OpenParenToken) RuleAction.INSERT_SPACE;
  entry "NoSpaceAfterKeywordInControl" keywords (kind OpenParenToken) RuleAction.DELETE_SPACE;
  entry "SpaceAfterOpenParen" (kind OpenParenToken) any_token RuleAction.INSERT_SPACE;
  entry "SpaceBeforeCloseParen" any_token (kind CloseParenToken) RuleAction.INSERT_SPACE;
  entry "SpaceBetweenOpenParens" (kind OpenParenToken) (kind OpenParenToken) RuleAction.INSERT_SPACE;
  entry "NoSpaceBetweenParens" (kind OpenParenToken) (kind CloseParenToken) RuleAction.DELETE_SPACE;
  entry "NoSpaceAfterOpenParen" (kind OpenParenToken) any_token RuleAction.DELETE_SPACE;
  entry "NoSpaceBeforeCloseParen" any_token (kind CloseParenToken) RuleAction.DELETE_SPACE;
  entry "SpaceAfterOpenBracket" (kind OpenBracketToken) any_token RuleAction.INSERT_SPACE;
  entry "SpaceBeforeCloseBracket" any_token (kind CloseBracketToken) RuleAction.INSERT_SPACE;
  entry "NoSpaceBetweenBrackets" (kind OpenBracketToken) (kind CloseBracketToken) RuleAction.DELETE_SPACE;
  entry "NoSpaceAfterOpenBracket" (kind OpenBracketToken) any_token RuleAction.DELETE_SPACE;
  entry "NoSpaceBeforeCloseBracket" any_token (kind CloseBracketToken) RuleAction.DELETE_SPACE;
  entry "SpaceAfterOpenBrace" (kind OpenBraceToken) any_token RuleAction.INSERT_SPACE;
  entry "SpaceBeforeCloseBrace" any_token (kind CloseBraceToken) RuleAction.INSERT_SPACE;
  entry "NoSpaceBetweenEmptyBraceBrackets" (kind OpenBraceToken) (kind CloseBraceToken) RuleAction.DELETE_SPACE;
  entry "NoSpaceAfterOpenBrace" (kind OpenBraceToken) any_token RuleAction.DELETE_SPACE
].
Definition user_configurable_rules_2 : list RuleSpec := [
  entry "NoSpaceBeforeCloseBrace" any_token (kind CloseBraceToken) RuleAction.DELETE_SPACE;
  entry "SpaceBetweenEmptyBraceBrackets" (kind OpenBraceToken) (kind CloseBraceToken) RuleAction.INSERT_SPACE;
  entry_contexts "NoSpaceBetweenEmptyBraceBrackets" (kind OpenBraceToken) (kind CloseBraceToken)
    RuleAction.DELETE_SPACE ["isOptionDisabled(insertSpaceAfterOpeningAndBeforeClosingEmptyBracesOption)";
    "isNonJsxSameLineTokenContext"];
  entry_flags "SpaceAfterTemplateHeadAndMiddle" (range [TemplateHead; TemplateMiddle]) any_token
    RuleAction.INSERT_SPACE RuleFlags.CAN_DELETE_NEW_LINES;
  entry "SpaceBeforeTemplateMiddleAndTail" any_token (range [TemplateMiddle; TemplateTail]) RuleAction.INSERT_SPACE;
  entry_flags "NoSpaceAfterTemplateHeadAndMiddle" (range [TemplateHead; TemplateMiddle]) any_token
    RuleAction.DELETE_SPACE RuleFlags.CAN_DELETE_NEW_LINES;
  entry "NoSpaceBeforeTemplateMiddleAndTail" any_token (range [TemplateMiddle; TemplateTail]) RuleAction.DELETE_SPACE;
  entry "SpaceAfterOpenBraceInJsxExpression" (kind OpenBraceToken) any_token RuleAction.INSERT_SPACE;
  entry "SpaceBeforeCloseBraceInJsxExpression" any_token (kind CloseBraceToken) RuleAction.INSERT_SPACE;
  entry "NoSpaceAfterOpenBraceInJsxExpression" (kind OpenBraceToken) any_token RuleAction.DELETE_SPACE;
  entry "NoSpaceBeforeCloseBraceInJsxExpression" any_token (kind CloseBraceToken) RuleAction.DELETE_SPACE;
  entry "SpaceAfterSemicolonInFor" (kind SemicolonToken) any_token RuleAction.INSERT_SPACE;
  entry "NoSpaceAfterSemicolonInFor" (kind SemicolonToken) any_token RuleAction.DELETE_SPACE;
  entry "SpaceBeforeBinaryOperator" any_token binary_operators RuleAction.INSERT_SPACE;
  entry "SpaceAfterBinaryOperator" binary_operators any_token RuleAction.INSERT_SPACE;
  entry "NoSpaceBeforeBinaryOperator" any_token binary_operators RuleAction.DELETE_SPACE;
  entry "NoSpaceAfterBinaryOperator" binary_operators any_token RuleAction.DELETE_SPACE;
  entry "SpaceBeforeOpenParenInFuncDecl" any_token (kind OpenParenToken) RuleAction.INSERT_SPACE;
  entry "NoSpaceBeforeOpenParenInFuncDecl" any_token (kind OpenParenToken) RuleAction.DELETE_SPACE;
  entry_flags "NewLineBeforeOpenBraceInControl" control_open_brace_left_token_range (kind OpenBraceToken)
    RuleAction.INSERT_NEW_LINE RuleFlags.CAN_DELETE_NEW_LINES;
  entry_flags "NewLineBeforeOpenBraceInFunction" function_open_brace_left_token_range (kind OpenBraceToken)
    RuleAction.INSERT_NEW_LINE RuleFlags.CAN_DELETE_NEW_LINES
].
Definition user_configurable_rules_3 : list RuleSpec := [
  entry_flags "NewLineBeforeOpenBraceInTypeScriptDeclWithBlock" type_script_open_brace_left_token_range (kind
    OpenBraceToken) RuleAction.INSERT_NEW_LINE RuleFlags.CAN_DELETE_NEW_LINES;
  entry "SpaceAfterTypeAssertion" (kind GreaterThanToken) any_token RuleAction.INSERT_SPACE;
  entry "NoSpaceAfterTypeAssertion" (kind GreaterThanToken) any_token RuleAction.DELETE_SPACE;
  entry "SpaceBeforeTypeAnnotation" any_token (range [QuestionToken; ColonToken]) RuleAction.INSERT_SPACE;
  entry "NoSpaceBeforeTypeAnnotation" any_token (range [QuestionToken; ColonToken]) RuleAction.DELETE_SPACE;
  entry "NoOptionalSemicolon" (kind SemicolonToken) any_token_including_eof RuleAction.DELETE_TOKEN;
  entry "OptionalSemicolon" any_token any_token_including_eof RuleAction.INSERT_TRAILING_SEMICOLON
].
Definition user_configurable_rules : list RuleSpec := user_configurable_rules_1 ++ user_configurable_rules_2 ++ user_configurable_rules_3.
Definition low_priority_common_rules : list RuleSpec := [
  entry "NoSpaceBeforeSemicolon" any_token (kind SemicolonToken) RuleAction.DELETE_SPACE;
  entry_flags "SpaceBeforeOpenBraceInControl" control_open_brace_left_token_range (kind OpenBraceToken)
    RuleAction.INSERT_SPACE RuleFlags.CAN_DELETE_NEW_LINES;
  entry_flags "SpaceBeforeOpenBraceInFunction" function_open_brace_left_token_range (kind OpenBraceToken)
    RuleAction.INSERT_SPACE RuleFlags.CAN_DELETE_NEW_LINES;
  entry_flags "SpaceBeforeOpenBraceInTypeScriptDeclWithBlock" type_script_open_brace_left_token_range (kind
    OpenBraceToken) RuleAction.INSERT_SPACE RuleFlags.CAN_DELETE_NEW_LINES;
  entry "NoSpaceBeforeComma" any_token (kind CommaToken) RuleAction.DELETE_SPACE;
  entry "NoSpaceBeforeOpenBracket" (any_token_except [AsyncKeyword; CaseKeyword]) (kind OpenBracketToken)
    RuleAction.DELETE_SPACE;
  entry "NoSpaceAfterCloseBracket" (kind CloseBracketToken) any_token RuleAction.DELETE_SPACE;
  entry "SpaceAfterSemicolon" (kind SemicolonToken) any_token RuleAction.INSERT_SPACE;
  entry "SpaceBetweenForAndAwaitKeyword" (kind ForKeyword) (kind AwaitKeyword) RuleAction.INSERT_SPACE;
  entry "SpaceBetweenDotDotDotAndTypeName" (kind DotDotDotToken) (range type_names) RuleAction.DELETE_SPACE;
  entry "SpaceBetweenStatements" (range [CloseParenToken; DoKeyword; ElseKeyword; CaseKeyword]) any_token
    RuleAction.INSERT_SPACE;
  entry "SpaceAfterTryCatchFinally" (range [TryKeyword; CatchKeyword; FinallyKeyword]) (kind OpenBraceToken)
    RuleAction.INSERT_SPACE
].
Definition get_all_rules : list RuleSpec :=
  high_priority_common_rules ++ user_configurable_rules ++ low_priority_common_rules.
