(* ===== verification/FormatContext.v ===== *)
(** * FormatContext: what the rules ask about a gap between tokens

    Models ts-format/src/context.rs and ts-format/src/rulecontext.rs, and the settings of lsutil.rs they read. The syntax tree is behind the interface [FormatAst]: the store of nodes of ts-ast with the
    file it belongs to, and the searches for tokens of ts-astnav and lsutil.rs. *)
From S2P Require Import Prelude Text SyntaxKind Monad LineMap.
From S2P Require Export CoreTypes.

Inductive SemicolonPreference := Ignore | Insert | Remove.
#[global] Instance SemicolonPreference_eq_dec : EqDecision SemicolonPreference.
Proof. solve_decision. Defined.

(** The settings the rules read. *)
Record FormatCodeSettings := mkSettings {
  insert_space_after_comma_delimiter : Tristate;
  insert_space_after_semicolon_in_for_statements : Tristate;
  insert_space_before_and_after_binary_operators : Tristate;
  insert_space_after_constructor : Tristate;
  insert_space_after_keywords_in_control_flow_statements : Tristate;
  insert_space_after_function_keyword_for_anonymous_functions : Tristate;
  insert_space_after_opening_and_before_closing_nonempty_parenthesis : Tristate;
  insert_space_after_opening_and_before_closing_nonempty_brackets : Tristate;
  insert_space_after_opening_and_before_closing_nonempty_braces : Tristate;
  insert_space_after_opening_and_before_closing_empty_braces : Tristate;
  insert_space_after_opening_and_before_closing_template_string_braces : Tristate;
  insert_space_after_opening_and_before_closing_jsx_expression_braces : Tristate;
  insert_space_after_type_assertion : Tristate;
  insert_space_before_function_parenthesis : Tristate;
  place_open_brace_on_new_line_for_functions : Tristate;
  place_open_brace_on_new_line_for_control_blocks : Tristate;
  insert_space_before_type_annotation : Tristate;
  semicolons : SemicolonPreference;
}.

Definition get_default_format_code_settings : FormatCodeSettings := {|
  insert_space_after_constructor := TSFalse;
  insert_space_after_comma_delimiter := TSTrue;
  insert_space_after_semicolon_in_for_statements := TSTrue;
  insert_space_before_and_after_binary_operators := TSTrue;
  insert_space_after_keywords_in_control_flow_statements := TSTrue;
  insert_space_after_function_keyword_for_anonymous_functions := TSFalse;
  insert_space_after_opening_and_before_closing_nonempty_parenthesis := TSFalse;
  insert_space_after_opening_and_before_closing_nonempty_brackets := TSFalse;
  insert_space_after_opening_and_before_closing_nonempty_braces := TSTrue;
  insert_space_after_opening_and_before_closing_empty_braces := TSUnknown;
  insert_space_after_opening_and_before_closing_template_string_braces := TSFalse;
  insert_space_after_opening_and_before_closing_jsx_expression_braces := TSFalse;
  insert_space_after_type_assertion := TSUnknown;
  insert_space_before_function_parenthesis := TSFalse;
  place_open_brace_on_new_line_for_functions := TSFalse;
  place_open_brace_on_new_line_for_control_blocks := TSFalse;
  insert_space_before_type_annotation := TSUnknown;
  semicolons := Ignore;
|}.

Inductive FormatRequestKind :=
  FormatDocument | FormatSelection | FormatOnEnter | FormatOnSemicolon | FormatOnOpeningCurlyBrace | FormatOnClosingCurlyBrace.
#[global] Instance FormatRequestKind_eq_dec : EqDecision FormatRequestKind.
Proof. solve_decision. Defined.

(** ** The interface of the syntax tree *)

(** A file and its nodes. [parent_depth] bounds the way to the root, since the store is a tree. *)
Class FormatAst := {
  Node : Type;
  #[global] Node_eq_dec :: EqDecision Node;
  file_line_starts : list Z;
  source_file_node : Node;
  node_kind : Node -> Kind;
  node_end : Node -> Z;
  node_parent : Node -> option Node;
  operator_token : Node -> option Node;
  question_token : Node -> option Node;
  node_expression : Node -> option Node;
  node_type : Node -> option Node;
  node_initializer : Node -> option Node;
  node_text : Node -> bytes;
  has_decorators : Node -> bool;
  get_token_pos_of_node : Node -> Z;
  (* [astnav::find_child_of_kind_info], as the start and the end of the token *)
  find_child_of_kind : Node -> Kind -> option (Z * Z);
  (* [astnav::find_next_token(n, n, file)] *)
  find_next_token_in : Node -> option Node;
  (* [lsutil::get_first_token] *)
  get_first_token : Node -> option Node;
  (* [lsutil::position_is_asi_candidate] *)
  position_is_asi_candidate : Z -> Node -> bool;
  parent_depth : Node -> nat;
  parent_depth_decreases : forall n p, node_parent n = Some p -> (parent_depth p < parent_depth n)%nat;
}.

(** *** Tests of kinds (ts-ast) *)
Definition is_trivia (k : Kind) : bool :=
  (kind_index Kind.SingleLineCommentTrivia <=? kind_index k) && (kind_index k <=? kind_index Kind.ConflictMarkerTrivia).

Definition kind_in (k : Kind) (ks : list Kind) : bool := existsb (Kind_eqb k) ks.

Definition is_function_like_kind (k : Kind) : bool :=
  kind_in k [Kind.MethodSignature; Kind.CallSignature; Kind.ConstructSignature; Kind.IndexSignature; Kind.FunctionType;
    Kind.ConstructorType; Kind.FunctionDeclaration; Kind.MethodDeclaration; Kind.Constructor; Kind.GetAccessor;
    Kind.SetAccessor; Kind.FunctionExpression; Kind.ArrowFunction].

Definition is_expression_kind (k : Kind) : bool :=
  kind_in k [Kind.Identifier; Kind.PrivateIdentifier; Kind.NumericLiteral; Kind.BigIntLiteral; Kind.StringLiteral;
    Kind.RegularExpressionLiteral; Kind.NoSubstitutionTemplateLiteral; Kind.ThisKeyword; Kind.SuperKeyword;
    Kind.NullKeyword; Kind.TrueKeyword; Kind.FalseKeyword; Kind.ArrayLiteralExpression; Kind.ObjectLiteralExpression;
    Kind.PropertyAccessExpression; Kind.ElementAccessExpression; Kind.CallExpression; Kind.NewExpression;
    Kind.TaggedTemplateExpression; Kind.TypeAssertionExpression; Kind.ParenthesizedExpression; Kind.FunctionExpression;
    Kind.ArrowFunction; Kind.DeleteExpression; Kind.TypeOfExpression; Kind.VoidExpression; Kind.AwaitExpression;
    Kind.PrefixUnaryExpression; Kind.PostfixUnaryExpression; Kind.BinaryExpression; Kind.ConditionalExpression;
    Kind.TemplateExpression; Kind.YieldExpression; Kind.SpreadElement; Kind.ClassExpression; Kind.OmittedExpression;
    Kind.ExpressionWithTypeArguments; Kind.AsExpression; Kind.NonNullExpression; Kind.MetaProperty;
    Kind.SyntheticExpression; Kind.SatisfiesExpression].

Record TextRangeWithKind := mkTextRange { range_start : Z; range_stop : Z; range_kind : Kind }.

Section context.
Context `{FormatAst}.

Definition get_ecma_line_of_position (pos : Z) : nat := compute_line_of_position file_line_starts (Z.to_nat (Z.max 0 pos)).

Definition range_is_on_one_line (pos end_ : Z) : bool :=
  (get_ecma_line_of_position pos =? get_ecma_line_of_position end_)%nat.

Definition is_kind (n : option Node) (k : Kind) : bool :=
  match n with Some n => Kind_eqb (node_kind n) k | None => false end.
Definition is_kind_in (n : option Node) (ks : list Kind) : bool :=
  match n with Some n => kind_in (node_kind n) ks | None => false end.

(** ** FormattingContext *)
Record FormattingContext := mkContext {
  current_token_span : TextRangeWithKind;
  next_token_span : TextRangeWithKind;
  context_node : option Node;
  current_token_parent : option Node;
  next_token_parent : option Node;
  context_node_all_on_same_line_ : Tristate;
  next_node_all_on_same_line_ : Tristate;
  tokens_are_on_same_line_ : Tristate;
  context_node_block_is_on_one_line_ : Tristate;
  next_node_block_is_on_one_line_ : Tristate;
  formatting_request_kind : FormatRequestKind;
  options : FormatCodeSettings;
}.

Definition no_span : TextRangeWithKind := mkTextRange 0 0 Kind.Unknown.

Definition new_formatting_context (kind : FormatRequestKind) (options : FormatCodeSettings) : FormattingContext :=
  mkContext no_span no_span None None None TSUnknown TSUnknown TSUnknown TSUnknown
    TSUnknown kind options.

(** The cached results as lenses, for the methods that fill them. *)
Definition put_context_node_all (v : Tristate) (c : FormattingContext) : FormattingContext :=
  mkContext (current_token_span c) (next_token_span c) (context_node c) (current_token_parent c) (next_token_parent c)
    v (next_node_all_on_same_line_ c) (tokens_are_on_same_line_ c) (context_node_block_is_on_one_line_ c)
    (next_node_block_is_on_one_line_ c) (formatting_request_kind c) (options c).
Definition put_next_node_all (v : Tristate) (c : FormattingContext) : FormattingContext :=
  mkContext (current_token_span c) (next_token_span c) (context_node c) (current_token_parent c) (next_token_parent c)
    (context_node_all_on_same_line_ c) v (tokens_are_on_same_line_ c) (context_node_block_is_on_one_line_ c)
    (next_node_block_is_on_one_line_ c) (formatting_request_kind c) (options c).
Definition put_tokens_same_line (v : Tristate) (c : FormattingContext) : FormattingContext :=
  mkContext (current_token_span c) (next_token_span c) (context_node c) (current_token_parent c) (next_token_parent c)
    (context_node_all_on_same_line_ c) (next_node_all_on_same_line_ c) v (context_node_block_is_on_one_line_ c)
    (next_node_block_is_on_one_line_ c) (formatting_request_kind c) (options c).
Definition put_context_block (v : Tristate) (c : FormattingContext) : FormattingContext :=
  mkContext (current_token_span c) (next_token_span c) (context_node c) (current_token_parent c) (next_token_parent c)
    (context_node_all_on_same_line_ c) (next_node_all_on_same_line_ c) (tokens_are_on_same_line_ c) v
    (next_node_block_is_on_one_line_ c) (formatting_request_kind c) (options c).
Definition put_next_block (v : Tristate) (c : FormattingContext) : FormattingContext :=
  mkContext (current_token_span c) (next_token_span c) (context_node c) (current_token_parent c) (next_token_parent c)
    (context_node_all_on_same_line_ c) (next_node_all_on_same_line_ c) (tokens_are_on_same_line_ c)
    (context_node_block_is_on_one_line_ c) v (formatting_request_kind c) (options c).

Abbreviation Pred := (M FormattingContext bool).

Definition update_context (cur : TextRangeWithKind) (cur_parent : option Node) (next : TextRangeWithKind)
    (next_parent common_parent : option Node) : M FormattingContext unit :=
  match cur_parent, next_parent, common_parent with
  | Some _, Some _, Some _ =>
      modify (fun c => mkContext cur next common_parent cur_parent next_parent TSUnknown TSUnknown
        TSUnknown TSUnknown TSUnknown (formatting_request_kind c) (options c))
  | _, _, _ => panic
  end.

Definition bool_to_tristate (b : bool) : Tristate := if b then TSTrue else TSFalse.

Definition node_is_on_one_line (node : Node) : Tristate :=
  bool_to_tristate (range_is_on_one_line (get_token_pos_of_node node) (node_end node)).

Definition block_is_on_one_line (node : Node) : Tristate :=
  match find_child_of_kind node Kind.OpenBraceToken, find_child_of_kind node Kind.CloseBraceToken with
  | Some (_, open_end), Some (close_start, _) => bool_to_tristate (range_is_on_one_line open_end close_start)
  | _, _ => TSFalse
  end.

(** [if self.field == TS_UNKNOWN { self.field = compute }; self.field == TS_TRUE] *)
Definition cached (read : FormattingContext -> Tristate) (write : Tristate -> FormattingContext -> FormattingContext)
    (compute : FormattingContext -> option Tristate) : Pred :=
  c ← get;
  (if Tristate.is_unknown (read c) then v ← unwrap (compute c); modify (write v) else mret tt) ;;
  gets (fun c => Tristate.is_true (read c)).

Definition context_node_all_on_same_line : Pred :=
  cached context_node_all_on_same_line_ put_context_node_all (fun c => node_is_on_one_line <$> context_node c).
Definition next_node_all_on_same_line : Pred :=
  cached next_node_all_on_same_line_ put_next_node_all (fun c => node_is_on_one_line <$> next_token_parent c).
Definition tokens_are_on_same_line : Pred :=
  cached tokens_are_on_same_line_ put_tokens_same_line (fun c =>
    Some (bool_to_tristate (range_is_on_one_line (range_start (current_token_span c)) (range_stop (next_token_span c))))).
Definition context_node_block_is_on_one_line : Pred :=
  cached context_node_block_is_on_one_line_ put_context_block (fun c => block_is_on_one_line <$> context_node c).
Definition next_node_block_is_on_one_line : Pred :=
  cached next_node_block_is_on_one_line_ put_next_block (fun c => block_is_on_one_line <$> next_token_parent c).

(** ** Predicates *)

(** [&&], [||] and [!] of predicates that can write the caches. *)
Definition both (p q : Pred) : Pred := p ≫= fun b : bool => if b then q else mret false.
Definition either (p q : Pred) : Pred := p ≫= fun b : bool => if b then mret true else q.
Definition negated (p : Pred) : Pred := b ← p; mret (negb b).

Definition context_is (k : Kind) : Pred := gets (fun c => is_kind (context_node c) k).
Definition context_is_in (ks : list Kind) : Pred := gets (fun c => is_kind_in (context_node c) ks).
Definition current_kind (c : FormattingContext) : Kind := range_kind (current_token_span c).
Definition next_kind (c : FormattingContext) : Kind := range_kind (next_token_span c).

Definition is_for_context : Pred := context_is Kind.ForStatement.
Definition is_not_for_context : Pred := negated is_for_context.

Definition either_token (c : FormattingContext) (k : Kind) : bool :=
  Kind_eqb (current_kind c) k || Kind_eqb (next_kind c) k.

Definition binary_op_context (c : FormattingContext) : bool :=
  match context_node c with
  | None => false
  | Some n =>
      let k := node_kind n in
      if Kind_eqb k Kind.BinaryExpression then
        match operator_token n with
        | Some operator => negb (Kind_eqb (node_kind operator) Kind.CommaToken)
        | None => true
        end
      else if kind_in k [Kind.ConditionalExpression; Kind.ConditionalType; Kind.AsExpression; Kind.ExportSpecifier;
                         Kind.ImportSpecifier; Kind.TypePredicate; Kind.UnionType; Kind.IntersectionType;
                         Kind.SatisfiesExpression] then true
      else if kind_in k [Kind.BindingElement; Kind.TypeAliasDeclaration; Kind.ImportEqualsDeclaration;
                         Kind.ExportAssignment; Kind.VariableDeclaration; Kind.ParameterKind; Kind.EnumMember;
                         Kind.PropertyDeclaration; Kind.PropertySignature] then either_token c Kind.EqualsToken
      else if kind_in k [Kind.ForInStatement; Kind.TypeParameter] then
        either_token c Kind.InKeyword || either_token c Kind.EqualsToken
      else if Kind_eqb k Kind.ForOfStatement then either_token c Kind.OfKeyword
      else false
  end.
Definition is_binary_op_context : Pred := gets binary_op_context.
Definition is_not_binary_op_context : Pred := negated is_binary_op_context.

Definition type_annotation_context (c : FormattingContext) : bool :=
  match context_node c with
  | None => false
  | Some n =>
      kind_in (node_kind n) [Kind.PropertyDeclaration; Kind.PropertySignature; Kind.ParameterKind; Kind.VariableDeclaration]
      || is_function_like_kind (node_kind n)
  end.
Definition is_type_annotation_context : Pred := gets type_annotation_context.
Definition is_not_type_annotation_context : Pred := negated is_type_annotation_context.

Definition optional_property_context (c : FormattingContext) : bool :=
  match context_node c with
  | Some n => Kind_eqb (node_kind n) Kind.PropertyDeclaration && is_kind (question_token n) Kind.QuestionToken
  | None => false
  end.
Definition is_optional_property_context : Pred := gets optional_property_context.
Definition is_non_optional_property_context : Pred := negated is_optional_property_context.

Definition is_conditional_operator_context : Pred := context_is_in [Kind.ConditionalExpression; Kind.ConditionalType].

Definition node_is_type_script_decl_with_block_context (n : Node) : bool :=
  kind_in (node_kind n) [Kind.ClassDeclaration; Kind.ClassExpression; Kind.InterfaceDeclaration; Kind.EnumDeclaration;
    Kind.TypeLiteral; Kind.ModuleDeclaration; Kind.ExportDeclaration; Kind.NamedExports; Kind.ImportDeclaration;
    Kind.NamedImports].

Definition node_is_block_context (n : Node) : bool :=
  node_is_type_script_decl_with_block_context n
  || kind_in (node_kind n) [Kind.Block; Kind.CaseBlock; Kind.ObjectLiteralExpression; Kind.ModuleBlock].

Definition node_sat (p : Node -> bool) (n : option Node) : bool := match n with Some n => p n | None => false end.

Definition is_block_context : Pred := gets (fun c => node_sat node_is_block_context (context_node c)).
Definition is_before_block_context : Pred := gets (fun c => node_sat node_is_block_context (next_token_parent c)).
Definition is_type_script_decl_with_block_context : Pred :=
  gets (fun c => node_sat node_is_type_script_decl_with_block_context (context_node c)).

Definition is_same_line_token_or_before_block_context : Pred := either tokens_are_on_same_line is_before_block_context.

Definition is_before_multiline_block_context : Pred :=
  both is_before_block_context (negated (either next_node_all_on_same_line next_node_block_is_on_one_line)).
Definition is_multiline_block_context : Pred :=
  both is_block_context (negated (either context_node_all_on_same_line context_node_block_is_on_one_line)).
Definition is_single_line_block_context : Pred :=
  both is_block_context (either context_node_all_on_same_line context_node_block_is_on_one_line).

Definition is_brace_wrapped_context : Pred :=
  either (context_is Kind.ObjectBindingPattern) (either (context_is Kind.MappedType) is_single_line_block_context).

Definition function_decl_kinds : list Kind :=
  [Kind.FunctionDeclaration; Kind.MethodDeclaration; Kind.MethodSignature; Kind.GetAccessor; Kind.SetAccessor;
   Kind.CallSignature; Kind.FunctionExpression; Kind.Constructor; Kind.ArrowFunction; Kind.InterfaceDeclaration].
Definition is_function_decl_context : Pred := context_is_in function_decl_kinds.
Definition is_not_function_decl_context : Pred := negated is_function_decl_context.
Definition is_function_declaration_or_function_expression_context : Pred :=
  context_is_in [Kind.FunctionDeclaration; Kind.FunctionExpression].

Definition after_code_block_context (c : FormattingContext) : bool :=
  match current_token_parent c with
  | None => false
  | Some n =>
      if kind_in (node_kind n) [Kind.ClassDeclaration; Kind.ModuleDeclaration; Kind.EnumDeclaration; Kind.CatchClause;
                                Kind.ModuleBlock; Kind.SwitchStatement] then true
      else if Kind_eqb (node_kind n) Kind.Block then
        match node_parent n with
        | None => true
        | Some p => negb (Kind_eqb (node_kind p) Kind.ArrowFunction) && negb (Kind_eqb (node_kind p) Kind.FunctionExpression)
        end
      else false
  end.
Definition is_after_code_block_context : Pred := gets after_code_block_context.

Definition is_control_decl_context : Pred :=
  context_is_in [Kind.IfStatement; Kind.SwitchStatement; Kind.ForStatement; Kind.ForInStatement; Kind.ForOfStatement;
    Kind.WhileStatement; Kind.TryStatement; Kind.DoStatement; Kind.WithStatement; Kind.CatchClause].
Definition is_object_context : Pred := context_is Kind.ObjectLiteralExpression.
Definition is_function_call_context : Pred := context_is Kind.CallExpression.
Definition is_new_context : Pred := context_is Kind.NewExpression.
Definition is_function_call_or_new_context : Pred := either is_function_call_context is_new_context.
Definition is_previous_token_not_comma : Pred := gets (fun c => negb (Kind_eqb (current_kind c) Kind.CommaToken)).
Definition is_next_token_not_close_bracket : Pred := gets (fun c => negb (Kind_eqb (next_kind c) Kind.CloseBracketToken)).
Definition is_next_token_not_close_paren : Pred := gets (fun c => negb (Kind_eqb (next_kind c) Kind.CloseParenToken)).
Definition is_arrow_function_context : Pred := context_is Kind.ArrowFunction.
Definition is_import_type_context : Pred := context_is Kind.ImportType.
Definition is_non_jsx_text_context : Pred := negated (context_is Kind.JsxText).
Definition is_non_jsx_same_line_token_context : Pred := both tokens_are_on_same_line is_non_jsx_text_context.
Definition is_non_jsx_element_or_fragment_context : Pred := negated (context_is_in [Kind.JsxElement; Kind.JsxFragment]).
Definition is_jsx_expression_context : Pred := context_is_in [Kind.JsxExpression; Kind.JsxSpreadAttribute].

Definition next_token_parent_jsx_attribute (c : FormattingContext) : bool :=
  match next_token_parent c with
  | None => false
  | Some n =>
      Kind_eqb (node_kind n) Kind.JsxAttribute
      || (Kind_eqb (node_kind n) Kind.JsxNamespacedName && is_kind (node_parent n) Kind.JsxAttribute)
  end.
Definition is_next_token_parent_jsx_attribute : Pred := gets next_token_parent_jsx_attribute.
Definition is_jsx_attribute_context : Pred := context_is Kind.JsxAttribute.
Definition is_next_token_parent_jsx_namespaced_name : Pred :=
  gets (fun c => is_kind (next_token_parent c) Kind.JsxNamespacedName).
Definition is_next_token_parent_not_jsx_namespaced_name : Pred := negated is_next_token_parent_jsx_namespaced_name.
Definition is_jsx_self_closing_element_context : Pred := context_is Kind.JsxSelfClosingElement.
Definition is_not_before_block_in_function_declaration_context : Pred :=
  both (negated is_function_decl_context) (negated is_before_block_context).

(** The way up while the nodes are expressions, with the depth of the node as fuel. *)
Fixpoint decorator_loop (fuel : nat) (current : option Node) : option bool :=
  match fuel with
  | O => None
  | S fuel =>
      match current with
      | None => Some false
      | Some n =>
          if is_expression_kind (node_kind n) then decorator_loop fuel (node_parent n)
          else Some (Kind_eqb (node_kind n) Kind.Decorator)
      end
  end.
Definition node_is_in_decorator_context (n : Node) : outcome bool :=
  match decorator_loop (S (S (parent_depth n))) (Some n) with Some b => Ok b | None => OutOfFuel end.

Definition lift_outcome {A} (o : outcome A) : M FormattingContext A := fun c =>
  match o with Ok a => Ok (a, c) | Panic => Panic | OutOfFuel => OutOfFuel end.

Definition decorator_sat (n : option Node) : Pred :=
  match n with Some n => lift_outcome (node_is_in_decorator_context n) | None => mret false end.

Definition is_end_of_decorator_context_on_same_line : Pred :=
  both tokens_are_on_same_line
    (both (gets (fun c => node_sat has_decorators (context_node c)))
      (both (c ← get; decorator_sat (current_token_parent c)) (negated (c ← get; decorator_sat (next_token_parent c))))).

Definition is_start_of_variable_declaration_list : Pred :=
  gets (fun c => match current_token_parent c with
    | None => false
    | Some n => Kind_eqb (node_kind n) Kind.VariableDeclarationList
                && (get_token_pos_of_node n =? range_start (current_token_span c))
    end).
Definition is_not_format_on_enter : Pred := gets (fun c => negb (bool_decide (formatting_request_kind c = FormatOnEnter))).
Definition is_module_decl_context : Pred := context_is Kind.ModuleDeclaration.
Definition is_object_type_context : Pred := context_is Kind.TypeLiteral.
Definition is_constructor_signature_context : Pred := context_is Kind.ConstructSignature.

Definition is_type_argument_or_parameter_or_assertion (token : TextRangeWithKind) (parent : option Node) : bool :=
  if negb (kind_in (range_kind token) [Kind.LessThanToken; Kind.GreaterThanToken]) then false
  else is_kind_in parent [Kind.TypeReference; Kind.TypeAssertionExpression; Kind.TypeAliasDeclaration;
    Kind.ClassDeclaration; Kind.ClassExpression; Kind.InterfaceDeclaration; Kind.FunctionDeclaration;
    Kind.FunctionExpression; Kind.ArrowFunction; Kind.MethodDeclaration; Kind.MethodSignature; Kind.CallSignature;
    Kind.ConstructSignature; Kind.CallExpression; Kind.NewExpression; Kind.ExpressionWithTypeArguments].
Definition is_type_argument_or_parameter_or_assertion_context : Pred :=
  gets (fun c => is_type_argument_or_parameter_or_assertion (current_token_span c) (current_token_parent c)
                 || is_type_argument_or_parameter_or_assertion (next_token_span c) (next_token_parent c)).
Definition is_type_assertion_context : Pred := context_is Kind.TypeAssertionExpression.
Definition is_non_type_assertion_context : Pred := negated is_type_assertion_context.
Definition is_void_op_context : Pred :=
  gets (fun c => Kind_eqb (current_kind c) Kind.VoidKeyword && is_kind (current_token_parent c) Kind.VoidExpression).
Definition is_yield_or_yield_star_with_operand : Pred :=
  gets (fun c => match context_node c with
    | Some n => Kind_eqb (node_kind n) Kind.YieldExpression && bool_decide (is_Some (node_expression n))
    | None => false
    end).
Definition is_non_null_assertion_context : Pred := context_is Kind.NonNullExpression.
Definition is_statement_condition_context : Pred :=
  context_is_in [Kind.IfStatement; Kind.ForStatement; Kind.ForInStatement; Kind.ForOfStatement; Kind.DoStatement;
    Kind.WhileStatement].
Definition is_not_statement_condition_context : Pred := negated is_statement_condition_context.

(** The kinds a statement that begins with them would be joined by to the statement before. *)
Definition continuation_kinds : list Kind :=
  [Kind.OpenBracketToken; Kind.OpenParenToken; Kind.PlusToken; Kind.MinusToken; Kind.SlashToken;
   Kind.RegularExpressionLiteral; Kind.CommaToken; Kind.TemplateExpression; Kind.TemplateHead;
   Kind.NoSubstitutionTemplateLiteral; Kind.DotToken].

(** From the next real token on, with its kind and start. *)
Definition semicolon_deletion_before (c : FormattingContext) (next_token_kind : Kind) (next_token_start : Z) : bool :=
  let start_line := get_ecma_line_of_position (range_start (current_token_span c)) in
  let end_line := get_ecma_line_of_position next_token_start in
  if (start_line =? end_line)%nat then kind_in next_token_kind [Kind.CloseBraceToken; Kind.EndOfFile]
  else if Kind_eqb next_token_kind Kind.SemicolonToken && Kind_eqb (current_kind c) Kind.SemicolonToken then true
  else if kind_in next_token_kind [Kind.SemicolonClassElement; Kind.SemicolonToken] then false
  else if is_kind_in (context_node c) [Kind.InterfaceDeclaration; Kind.TypeAliasDeclaration] then
    negb (is_kind (current_token_parent c) Kind.PropertySignature)
    || match current_token_parent c with None => true | Some n => bool_decide (is_Some (node_type n)) end
    || negb (Kind_eqb next_token_kind Kind.OpenParenToken)
  else if is_kind (current_token_parent c) Kind.PropertyDeclaration then
    match current_token_parent c with None => true | Some n => bool_decide (node_initializer n = None) end
  else
    negb (is_kind_in (current_token_parent c) [Kind.ForStatement; Kind.EmptyStatement; Kind.SemicolonClassElement])
    && negb (kind_in next_token_kind continuation_kinds).

Definition semicolon_deletion_context (c : FormattingContext) : bool :=
  if is_trivia (next_kind c) then
    let next_real_token :=
      if decide (next_token_parent c = current_token_parent c) then next_token_parent c ≫= find_next_token_in
      else next_token_parent c ≫= get_first_token in
    match next_real_token with
    | None => true
    | Some t => semicolon_deletion_before c (node_kind t) (get_token_pos_of_node t)
    end
  else semicolon_deletion_before c (next_kind c) (range_start (next_token_span c)).
Definition is_semicolon_deletion_context : Pred := gets semicolon_deletion_context.

Definition is_semicolon_insertion_context : Pred :=
  gets (fun c => position_is_asi_candidate (range_stop (current_token_span c))
                   (default source_file_node (current_token_parent c))).

Definition is_not_property_access_on_integer_literal : Pred :=
  gets (fun c =>
    negb (is_kind (context_node c) Kind.PropertyAccessExpression)
    || negb (is_kind (context_node c ≫= node_expression) Kind.NumericLiteral)
    || match context_node c ≫= node_expression with
       | Some e => existsb (Z.eqb (chr ".")) (node_text e)
       | None => false
       end).

(** *** Options *)
Definition is_option_enabled (option_name : FormatCodeSettings -> Tristate) : Pred :=
  gets (fun c => Tristate.is_true (option_name (options c))).
Definition is_option_disabled (option_name : FormatCodeSettings -> Tristate) : Pred :=
  gets (fun c => Tristate.is_false (option_name (options c))).
Definition is_option_disabled_or_undefined (option_name : FormatCodeSettings -> Tristate) : Pred :=
  gets (fun c => Tristate.is_false_or_unknown (option_name (options c))).
Definition is_option_disabled_or_undefined_or_tokens_on_same_line (option_name : FormatCodeSettings -> Tristate) : Pred :=
  either (is_option_disabled_or_undefined option_name) tokens_are_on_same_line.
Definition is_option_enabled_or_undefined (option_name : FormatCodeSettings -> Tristate) : Pred :=
  gets (fun c => Tristate.is_true_or_unknown (option_name (options c))).
Definition semicolon_option_equals (v : SemicolonPreference) : Pred :=
  gets (fun c => bool_decide (semicolons (options c) = v)).
End context.
