(* ===== verification/FormatMap.v ===== *)
(** * FormatMap: the rules of a pair of tokens (ts-format/src/rulesmap.rs)

    Indices and bitmaps are [usize], as Z: the largest value is below 2^30. [None] is a panic (an index out of bounds, a
    debug assertion that fails). *)
From S2P Require Import Prelude SyntaxKind Monad FormatRules FormatContext.
#[local] Open Scope string_scope.
#[local] Open Scope list_scope.
#[local] Open Scope Z_scope.

(** ** Building the map *)
Definition MASK_BIT_SIZE : Z := 5.
Definition MASK : Z := 31.
Definition MAP_ROW_LENGTH : Z := kind_index LastToken + 1.

Definition get_rule_bucket_index (row column : Kind) : option Z :=
  if (kind_index row <=? kind_index LastKeyword) && (kind_index column <=? kind_index LastKeyword)
  then Some (kind_index row * MAP_ROW_LENGTH + kind_index column) else None.

Definition get_rule_action_exclusion (rule_action : Z) : Z :=
  let mask := RuleAction.NONE in
  let mask := if negb (Z.land rule_action RuleAction.STOP_PROCESSING_SPACE_ACTIONS =? 0)
              then Z.lor mask RuleAction.MODIFY_SPACE_ACTION else mask in
  let mask := if negb (Z.land rule_action RuleAction.STOP_PROCESSING_TOKEN_ACTIONS =? 0)
              then Z.lor mask RuleAction.MODIFY_TOKEN_ACTION else mask in
  let mask := if negb (Z.land rule_action RuleAction.MODIFY_SPACE_ACTION =? 0)
              then Z.lor mask RuleAction.MODIFY_SPACE_ACTION else mask in
  if negb (Z.land rule_action RuleAction.MODIFY_TOKEN_ACTION =? 0)
  then Z.lor mask RuleAction.MODIFY_TOKEN_ACTION else mask.

Definition RULES_POSITION_STOP_RULES_SPECIFIC : Z := 0.
Definition RULES_POSITION_STOP_RULES_ANY : Z := MASK_BIT_SIZE.
Definition RULES_POSITION_CONTEXT_RULES_SPECIFIC : Z := MASK_BIT_SIZE * 2.
Definition RULES_POSITION_CONTEXT_RULES_ANY : Z := MASK_BIT_SIZE * 3.
Definition RULES_POSITION_NO_CONTEXT_RULES_SPECIFIC : Z := MASK_BIT_SIZE * 4.
Definition RULES_POSITION_NO_CONTEXT_RULES_ANY : Z := MASK_BIT_SIZE * 5.

(** The [while pos <= mask_position] loop; six rounds are the most. *)
Fixpoint insertion_index_loop (fuel : nat) (index_bitmap mask_position index pos : Z) : option Z :=
  match fuel with
  | O => None
  | S fuel =>
      if pos <=? mask_position then
        insertion_index_loop fuel (Z.shiftr index_bitmap MASK_BIT_SIZE) mask_position (index + Z.land index_bitmap MASK)
          (pos + MASK_BIT_SIZE)
      else Some index
  end.
Definition get_rule_insertion_index (index_bitmap mask_position : Z) : option Z :=
  insertion_index_loop 8 index_bitmap mask_position 0 0.

Definition increase_insertion_index (index_bitmap mask_position : Z) : option Z :=
  let value := Z.land (Z.shiftr index_bitmap mask_position) MASK + 1 in
  if Z.land value MASK =? value
  then Some (Z.lor (Z.ldiff index_bitmap (Z.shiftl MASK mask_position)) (Z.shiftl value mask_position)) else None.

(** [Vec::insert], which panics past the end. *)
Definition vec_insert {A} (l : list A) (i : Z) (x : A) : option (list A) :=
  if (0 <=? i) && (i <=? Z.of_nat (length l)) then Some (take (Z.to_nat i) l ++ x :: drop (Z.to_nat i) l) else None.

(** [rule.context()] is empty for every rule, so that only the names count. *)
Definition rule_position (rule : RuleImpl) (specific_tokens : bool) : Z :=
  if negb (Z.land (action rule) RuleAction.STOP_ACTION =? 0) then
    if specific_tokens then RULES_POSITION_STOP_RULES_SPECIFIC else RULES_POSITION_STOP_RULES_ANY
  else if negb (bool_decide (context_names rule = [])) then
    if specific_tokens then RULES_POSITION_CONTEXT_RULES_SPECIFIC else RULES_POSITION_CONTEXT_RULES_ANY
  else if specific_tokens then RULES_POSITION_NO_CONTEXT_RULES_SPECIFIC
  else RULES_POSITION_NO_CONTEXT_RULES_ANY.

(** A bucket and the entry of [construction_state] at its index. *)
Definition add_rule (rules : list RuleImpl) (rule : RuleImpl) (specific_tokens : bool) (state : Z)
    : option (list RuleImpl * Z) :=
  let position := rule_position rule specific_tokens in
  i ← get_rule_insertion_index state position;
  rules ← vec_insert rules i rule;
  state ← increase_insertion_index state position;
  Some (rules, state).

(** The map with the construction states, [m] and [rules_bucket_construction_state_list]. *)
Abbreviation RulesMap := (list (list RuleImpl * Z)).

Definition add_at (m : RulesMap) (rule : RuleImpl) (specific_rule : bool) (left right : Kind) : option RulesMap :=
  index ← get_rule_bucket_index left right;
  '(rules, state) ← m !! Z.to_nat index;
  entry ← add_rule rules rule specific_rule state;
  Some (<[Z.to_nat index := entry]> m).

Fixpoint add_rights (m : RulesMap) (rule : RuleImpl) (specific_rule : bool) (left : Kind) (rights : list Kind)
    : option RulesMap :=
  match rights with
  | [] => Some m
  | r :: rights => m ← add_at m rule specific_rule left r; add_rights m rule specific_rule left rights
  end.

Fixpoint add_lefts (m : RulesMap) (rule : RuleImpl) (specific_rule : bool) (lefts rights : list Kind) : option RulesMap :=
  match lefts with
  | [] => Some m
  | l :: lefts => m ← add_rights m rule specific_rule l rights; add_lefts m rule specific_rule lefts rights
  end.

Definition specific (s : RuleSpec) : bool := is_specific (left_token_range s) && is_specific (right_token_range s).

Fixpoint add_specs (m : RulesMap) (rules : list RuleSpec) : option RulesMap :=
  match rules with
  | [] => Some m
  | s :: rules =>
      m ← add_lefts m (rule s) (specific s) (tokens (left_token_range s)) (tokens (right_token_range s));
      add_specs m rules
  end.

Definition empty_map : RulesMap := replicate (Z.to_nat (MAP_ROW_LENGTH * MAP_ROW_LENGTH)) ([], 0).

Definition build_rules_map : option (list (list RuleImpl)) :=
  m ← add_specs empty_map get_all_rules; Some (map fst m).

(** ** Rules for a context *)
Section get_rules.
Context `{FormatAst}.
Abbreviation Pred := (M FormattingContext bool).

Definition rule_predicates : list (string * Pred) := [
  ("isAfterCodeBlockContext", is_after_code_block_context);
  ("isArrowFunctionContext", is_arrow_function_context);
  ("isBeforeBlockContext", is_before_block_context);
  ("isBeforeMultilineBlockContext", is_before_multiline_block_context);
  ("isBinaryOpContext", is_binary_op_context);
  ("isBraceWrappedContext", is_brace_wrapped_context);
  ("isConditionalOperatorContext", is_conditional_operator_context);
  ("isConstructorSignatureContext", is_constructor_signature_context);
  ("isControlDeclContext", is_control_decl_context);
  ("isEndOfDecoratorContextOnSameLine", is_end_of_decorator_context_on_same_line);
  ("isForContext", is_for_context);
  ("isFunctionCallOrNewContext", is_function_call_or_new_context);
  ("isFunctionDeclarationOrFunctionExpressionContext", is_function_declaration_or_function_expression_context);
  ("isFunctionDeclContext", is_function_decl_context);
  ("isImportTypeContext", is_import_type_context);
  ("isJsxAttributeContext", is_jsx_attribute_context);
  ("isJsxExpressionContext", is_jsx_expression_context);
  ("isJsxSelfClosingElementContext", is_jsx_self_closing_element_context);
  ("isModuleDeclContext", is_module_decl_context);
  ("isMultilineBlockContext", is_multiline_block_context);
  ("isNextTokenNotCloseBracket", is_next_token_not_close_bracket);
  ("isNextTokenNotCloseParen", is_next_token_not_close_paren);
  ("isNextTokenParentJsxAttribute", is_next_token_parent_jsx_attribute);
  ("isNextTokenParentJsxNamespacedName", is_next_token_parent_jsx_namespaced_name);
  ("isNextTokenParentNotJsxNamespacedName", is_next_token_parent_not_jsx_namespaced_name);
  ("isNonJsxElementOrFragmentContext", is_non_jsx_element_or_fragment_context);
  ("isNonJsxSameLineTokenContext", is_non_jsx_same_line_token_context);
  ("isNonJsxTextContext", is_non_jsx_text_context);
  ("isNonNullAssertionContext", is_non_null_assertion_context);
  ("isNonOptionalPropertyContext", is_non_optional_property_context);
  ("isNonTypeAssertionContext", is_non_type_assertion_context);
  ("isNotBeforeBlockInFunctionDeclarationContext", is_not_before_block_in_function_declaration_context);
  ("isNotBinaryOpContext", is_not_binary_op_context);
  ("isNotForContext", is_not_for_context);
  ("isNotFormatOnEnter", is_not_format_on_enter);
  ("isNotFunctionDeclContext", is_not_function_decl_context);
  ("isNotPropertyAccessOnIntegerLiteral", is_not_property_access_on_integer_literal);
  ("isNotStatementConditionContext", is_not_statement_condition_context);
  ("isNotTypeAnnotationContext", is_not_type_annotation_context);
  ("isObjectContext", is_object_context);
  ("isObjectTypeContext", is_object_type_context);
  ("isPreviousTokenNotComma", is_previous_token_not_comma);
  ("isSameLineTokenOrBeforeBlockContext", is_same_line_token_or_before_block_context);
  ("isSemicolonDeletionContext", is_semicolon_deletion_context);
  ("isSemicolonInsertionContext", is_semicolon_insertion_context);
  ("isStartOfVariableDeclarationList", is_start_of_variable_declaration_list);
  ("isTypeAnnotationContext", is_type_annotation_context);
  ("isTypeArgumentOrParameterOrAssertionContext", is_type_argument_or_parameter_or_assertion_context);
  ("isTypeAssertionContext", is_type_assertion_context);
  ("isTypeScriptDeclWithBlockContext", is_type_script_decl_with_block_context);
  ("isVoidOpContext", is_void_op_context);
  ("isYieldOrYieldStarWithOperand", is_yield_or_yield_star_with_operand);
  ("isOptionDisabled(insertSpaceAfterOpeningAndBeforeClosingEmptyBracesOption)",
   is_option_disabled insert_space_after_opening_and_before_closing_empty_braces);
  ("isOptionDisabled(insertSpaceAfterOpeningAndBeforeClosingNonemptyBracesOption)",
   is_option_disabled insert_space_after_opening_and_before_closing_nonempty_braces);
  ("isOptionDisabledOrUndefined(insertSpaceAfterCommaDelimiterOption)",
   is_option_disabled_or_undefined insert_space_after_comma_delimiter);
  ("isOptionDisabledOrUndefined(insertSpaceAfterConstructorOption)",
   is_option_disabled_or_undefined insert_space_after_constructor);
  ("isOptionDisabledOrUndefined(insertSpaceAfterFunctionKeywordForAnonymousFunctionsOption)",
   is_option_disabled_or_undefined insert_space_after_function_keyword_for_anonymous_functions);
  ("isOptionDisabledOrUndefined(insertSpaceAfterKeywordsInControlFlowStatementsOption)",
   is_option_disabled_or_undefined insert_space_after_keywords_in_control_flow_statements);
  ("isOptionDisabledOrUndefined(insertSpaceAfterOpeningAndBeforeClosingJsxExpressionBracesOption)",
   is_option_disabled_or_undefined insert_space_after_opening_and_before_closing_jsx_expression_braces);
  ("isOptionDisabledOrUndefined(insertSpaceAfterOpeningAndBeforeClosingNonemptyBracketsOption)",
   is_option_disabled_or_undefined insert_space_after_opening_and_before_closing_nonempty_brackets);
  ("isOptionDisabledOrUndefined(insertSpaceAfterOpeningAndBeforeClosingNonemptyParenthesisOption)",
   is_option_disabled_or_undefined insert_space_after_opening_and_before_closing_nonempty_parenthesis);
  ("isOptionDisabledOrUndefined(insertSpaceAfterOpeningAndBeforeClosingTemplateStringBracesOption)",
   is_option_disabled_or_undefined insert_space_after_opening_and_before_closing_template_string_braces);
  ("isOptionDisabledOrUndefined(insertSpaceAfterSemicolonInForStatementsOption)",
   is_option_disabled_or_undefined insert_space_after_semicolon_in_for_statements);
  ("isOptionDisabledOrUndefined(insertSpaceAfterTypeAssertionOption)",
   is_option_disabled_or_undefined insert_space_after_type_assertion);
  ("isOptionDisabledOrUndefined(insertSpaceBeforeAndAfterBinaryOperatorsOption)",
   is_option_disabled_or_undefined insert_space_before_and_after_binary_operators);
  ("isOptionDisabledOrUndefined(insertSpaceBeforeFunctionParenthesisOption)",
   is_option_disabled_or_undefined insert_space_before_function_parenthesis);
  ("isOptionDisabledOrUndefined(insertSpaceBeforeTypeAnnotationOption)",
   is_option_disabled_or_undefined insert_space_before_type_annotation);
  ("isOptionDisabledOrUndefinedOrTokensOnSameLine(placeOpenBraceOnNewLineForControlBlocksOption)",
   is_option_disabled_or_undefined_or_tokens_on_same_line place_open_brace_on_new_line_for_control_blocks);
  ("isOptionDisabledOrUndefinedOrTokensOnSameLine(placeOpenBraceOnNewLineForFunctionsOption)",
   is_option_disabled_or_undefined_or_tokens_on_same_line place_open_brace_on_new_line_for_functions);
  ("isOptionEnabled(insertSpaceAfterCommaDelimiterOption)", is_option_enabled insert_space_after_comma_delimiter);
  ("isOptionEnabled(insertSpaceAfterConstructorOption)", is_option_enabled insert_space_after_constructor);
  ("isOptionEnabled(insertSpaceAfterFunctionKeywordForAnonymousFunctionsOption)",
   is_option_enabled insert_space_after_function_keyword_for_anonymous_functions);
  ("isOptionEnabled(insertSpaceAfterKeywordsInControlFlowStatementsOption)",
   is_option_enabled insert_space_after_keywords_in_control_flow_statements);
  ("isOptionEnabled(insertSpaceAfterOpeningAndBeforeClosingEmptyBracesOption)",
   is_option_enabled insert_space_after_opening_and_before_closing_empty_braces);
  ("isOptionEnabled(insertSpaceAfterOpeningAndBeforeClosingJsxExpressionBracesOption)",
   is_option_enabled insert_space_after_opening_and_before_closing_jsx_expression_braces);
  ("isOptionEnabled(insertSpaceAfterOpeningAndBeforeClosingNonemptyBracketsOption)",
   is_option_enabled insert_space_after_opening_and_before_closing_nonempty_brackets);
  ("isOptionEnabled(insertSpaceAfterOpeningAndBeforeClosingNonemptyParenthesisOption)",
   is_option_enabled insert_space_after_opening_and_before_closing_nonempty_parenthesis);
  ("isOptionEnabled(insertSpaceAfterOpeningAndBeforeClosingTemplateStringBracesOption)",
   is_option_enabled insert_space_after_opening_and_before_closing_template_string_braces);
  ("isOptionEnabled(insertSpaceAfterSemicolonInForStatementsOption)",
   is_option_enabled insert_space_after_semicolon_in_for_statements);
  ("isOptionEnabled(insertSpaceAfterTypeAssertionOption)", is_option_enabled insert_space_after_type_assertion);
  ("isOptionEnabled(insertSpaceBeforeAndAfterBinaryOperatorsOption)",
   is_option_enabled insert_space_before_and_after_binary_operators);
  ("isOptionEnabled(insertSpaceBeforeFunctionParenthesisOption)",
   is_option_enabled insert_space_before_function_parenthesis);
  ("isOptionEnabled(insertSpaceBeforeTypeAnnotationOption)", is_option_enabled insert_space_before_type_annotation);
  ("isOptionEnabled(placeOpenBraceOnNewLineForControlBlocksOption)",
   is_option_enabled place_open_brace_on_new_line_for_control_blocks);
  ("isOptionEnabled(placeOpenBraceOnNewLineForFunctionsOption)",
   is_option_enabled place_open_brace_on_new_line_for_functions);
  ("isOptionEnabledOrUndefined(insertSpaceAfterOpeningAndBeforeClosingNonemptyBracesOption)",
   is_option_enabled_or_undefined insert_space_after_opening_and_before_closing_nonempty_braces);
  ("optionEquals(semicolonOption, lsutil.SemicolonPreferenceInsert)", semicolon_option_equals Insert);
  ("optionEquals(semicolonOption, lsutil.SemicolonPreferenceRemove)", semicolon_option_equals Remove)
].

(** [match name { .. }], with its last arm that panics. *)
Fixpoint find_predicate (rows : list (string * Pred)) (name : string) : Pred :=
  match rows with
  | [] => panic
  | (n, p) :: rows => if String.eqb n name then p else find_predicate rows name
  end.
Definition rule_context_name_matches (name : string) : Pred := find_predicate rule_predicates name.

(** The loop over the predicates of a rule. *)
Fixpoint names_match (names : list string) : Pred :=
  match names with
  | [] => mret true
  | name :: names => both (rule_context_name_matches name) (names_match names)
  end.

(** The loop over the bucket. *)
Fixpoint select_rules (bucket : list RuleImpl) (rules : list RuleImpl) (rule_action_mask : Z)
    : M FormattingContext (list RuleImpl) :=
  match bucket with
  | [] => mret rules
  | rule :: bucket =>
      let accept_rule_actions := Z.lnot (get_rule_action_exclusion rule_action_mask) in
      if negb (Z.land (action rule) accept_rule_actions =? 0) then
        names_match (context_names rule) ≫= fun matches : bool =>
          if matches then select_rules bucket (rules ++ [rule]) (Z.lor rule_action_mask (action rule))
          else select_rules bucket rules rule_action_mask
      else select_rules bucket rules rule_action_mask
  end.

(** [rules_map] is what [get_rules_map] holds once it is built. *)
Definition get_rules (rules_map : list (list RuleImpl)) (rules : list RuleImpl) : M FormattingContext (list RuleImpl) :=
  c ← get;
  index ← unwrap (get_rule_bucket_index (current_kind c) (next_kind c));
  bucket ← unwrap (rules_map !! Z.to_nat index);
  select_rules bucket rules RuleAction.NONE.
End get_rules.
