(* ===== verification/FormatMapThm.v ===== *)
(** * FormatMapThm: the map of rules is complete and in order of priority

    The buckets are built by insertion at an index that a bitmap of six counters of five bits gives. The
    theorem is that no counter overflows and that each bucket holds the rules of its pair of tokens, grouped by the six
    priorities and in the order of the table within a group. *)
From S2P Require Import Prelude Text SyntaxKind Monad FormatRules FormatMap.
From Stdlib Require Import Btauto.

(** ** The bitmap *)

(** Counters, the first in the lowest five bits. *)
Fixpoint pack (cs : list nat) : Z := match cs with [] => 0 | c :: cs => Z.of_nat c + 32 * pack cs end.
Definition sum (cs : list nat) : nat := foldr Nat.add 0%nat cs.

Lemma pack_low c r : (c <= 31)%nat -> Z.land (Z.of_nat c + 32 * r) 31 = Z.of_nat c.
Proof. intros Hc. change 31 with (Z.ones 5). rewrite Z.land_ones by lia. change (2 ^ 5) with 32. zdiv. Qed.

Lemma pack_high c r : (c <= 31)%nat -> Z.shiftr (Z.of_nat c + 32 * r) 5 = r.
Proof. intros Hc. rewrite Z.shiftr_div_pow2 by lia. change (2 ^ 5) with 32. zdiv. Qed.

Lemma pack_nonneg cs : 0 <= pack cs.
Proof. induction cs; cbn [pack]; lia. Qed.

(** Five low bits and the rest are disjoint. *)
Lemma low_bits c x n : (c <= 31)%nat -> 0 <= n -> Z.testbit (Z.of_nat c) n && Z.testbit (Z.shiftl x 5) n = false.
Proof.
  intros Hc Hn. destruct (decide (n < 5)).
  - by rewrite Z.shiftl_spec_low, andb_false_r by lia.
  - rewrite (proj1 (Z.bounded_iff_bits_nonneg 5 (Z.of_nat c) ltac:(lia) ltac:(lia))); [done|lia|lia].
Qed.

Lemma low_lor c r : (c <= 31)%nat -> Z.of_nat c + 32 * r = Z.lor (Z.of_nat c) (Z.shiftl r 5).
Proof.
  intros Hc. rewrite <- Z.add_nocarry_lor; [rewrite Z.shiftl_mul_pow2 by lia; lia|].
  apply Z.bits_inj'. intros n Hn. rewrite Z.land_spec, Z.bits_0. by apply low_bits.
Qed.

Lemma low_ldiff c x : (c <= 31)%nat -> Z.ldiff (Z.of_nat c) (Z.shiftl x 5) = Z.of_nat c.
Proof.
  intros Hc. apply Z.bits_inj'. intros n Hn. rewrite Z.ldiff_spec. pose proof (low_bits c x n Hc Hn) as Hb.
  destruct (Z.testbit (Z.of_nat c) n); [|done]. cbn [andb] in *. by rewrite Hb.
Qed.

Lemma ldiff_lor_l a b x : Z.ldiff (Z.lor a b) x = Z.lor (Z.ldiff a x) (Z.ldiff b x).
Proof. apply Z.bits_inj'. intros n Hn. rewrite !Z.lor_spec, !Z.ldiff_spec, Z.lor_spec. by destruct (Z.testbit x n); btauto. Qed.

(** The counter at an index, and its successor. *)
Lemma pack_counter cs i c :
  Forall (fun c => (c <= 31)%nat) cs -> cs !! i = Some c -> Z.land (Z.shiftr (pack cs) (5 * Z.of_nat i)) 31 = Z.of_nat c.
Proof.
  intros Hcs. revert i. induction Hcs as [|d cs Hd Hcs IH]; intros i Hi; [done|]. destruct i as [|i]; cbn [pack].
  - injection Hi as ->. rewrite Z.shiftr_0_r. by apply pack_low.
  - replace (5 * Z.of_nat (S i)) with (5 + 5 * Z.of_nat i) by lia.
    rewrite <- Z.shiftr_shiftr, pack_high by (done || lia). by apply IH.
Qed.

Lemma pack_increase cs i c v :
  Forall (fun c => (c <= 31)%nat) cs -> cs !! i = Some c -> (v <= 31)%nat ->
  Z.lor (Z.ldiff (pack cs) (Z.shiftl 31 (5 * Z.of_nat i))) (Z.shiftl (Z.of_nat v) (5 * Z.of_nat i)) = pack (<[i := v]> cs).
Proof.
  intros Hcs. revert i. induction Hcs as [|d cs Hd Hcs IH]; intros i Hi Hv; [done|]. destruct i as [|i].
  - cbn [pack insert list_insert]. rewrite !Z.shiftl_0_r. change 31 with (Z.ones 5) at 1.
    rewrite Z.ldiff_ones_r, pack_high by (done || lia). rewrite low_lor by done. apply Z.lor_comm.
  - cbn [pack]. change (<[S i:=v]> (d :: cs)) with (d :: <[i:=v]> cs). cbn [pack].
    replace (5 * Z.of_nat (S i)) with (5 * Z.of_nat i + 5) by lia.
    rewrite <- !Z.shiftl_shiftl, (low_lor d (pack cs)), (low_lor d (pack (<[i:=v]> cs))), <- (IH i Hi Hv) by lia.
    rewrite ldiff_lor_l, low_ldiff, <- Z.shiftl_ldiff, <- Z.lor_assoc, <- Z.shiftl_lor by done. done.
Qed.

Lemma increase_pack cs i c :
  Forall (fun c => (c <= 31)%nat) cs -> cs !! i = Some c -> (c < 31)%nat ->
  increase_insertion_index (pack cs) (5 * Z.of_nat i) = Some (pack (<[i := S c]> cs)).
Proof.
  intros Hcs Hi Hc. unfold increase_insertion_index, MASK. rewrite (pack_counter cs i c Hcs Hi).
  replace (Z.of_nat c + 1) with (Z.of_nat (S c) + 32 * 0) by lia. rewrite pack_low by lia.
  replace (Z.of_nat (S c) + 32 * 0) with (Z.of_nat (S c)) by lia. rewrite Z.eqb_refl.
  by rewrite (pack_increase cs i c (S c)) by (done || lia).
Qed.

Lemma insertion_index_pack fuel cs i k index :
  Forall (fun c => (c <= 31)%nat) cs -> (i < fuel)%nat -> (i < length cs)%nat ->
  insertion_index_loop (S fuel) (pack cs) (5 * (k + Z.of_nat i)) index (5 * k)
  = Some (index + Z.of_nat (sum (take (S i) cs))).
Proof.
  intros Hcs. revert fuel i k index. induction Hcs as [|c cs Hc Hcs IH]; intros fuel i k index Hf Hi; [cbn in Hi; lia|].
  cbn [insertion_index_loop pack]. rewrite (proj2 (Z.leb_le _ _)) by lia. unfold MASK, MASK_BIT_SIZE.
  rewrite pack_low, pack_high by done. replace (5 * k + 5) with (5 * (k + 1)) by lia. destruct i as [|i].
  - destruct fuel as [|fuel]; [lia|]. cbn [insertion_index_loop]. rewrite (proj2 (Z.leb_gt _ _)) by lia.
    unfold sum. cbn. rewrite take_0. cbn. f_equal. lia.
  - destruct fuel as [|fuel]; [lia|]. replace (k + Z.of_nat (S i)) with (k + 1 + Z.of_nat i) by lia.
    rewrite IH by (cbn in *; lia). f_equal. cbn [take sum foldr]. fold (sum (take (S i) cs)). unfold sum. lia.
Qed.

(** ** A bucket *)

(** What [add_rule] is called with for one bucket. *)
Definition Addition : Type := RuleImpl * bool.

Definition priorities : list Z :=
  [RULES_POSITION_STOP_RULES_SPECIFIC; RULES_POSITION_STOP_RULES_ANY; RULES_POSITION_CONTEXT_RULES_SPECIFIC;
   RULES_POSITION_CONTEXT_RULES_ANY; RULES_POSITION_NO_CONTEXT_RULES_SPECIFIC; RULES_POSITION_NO_CONTEXT_RULES_ANY].

(** The rules of one priority in the order of their additions. *)
Definition group (adds : list Addition) (p : Z) : list RuleImpl :=
  fst <$> List.filter (fun a => rule_position (fst a) (snd a) =? p) adds.
Definition groups (adds : list Addition) : list (list RuleImpl) := group adds <$> priorities.
Definition by_position (adds : list Addition) : list RuleImpl := concat (groups adds).
Definition counters (adds : list Addition) : list nat := length <$> groups adds.

Lemma priority_index r sp : exists i, rule_position r sp = 5 * Z.of_nat i /\ priorities !! i = Some (rule_position r sp).
Proof.
  unfold rule_position.
  destruct (negb (_ =? 0)), sp; [by exists 0%nat|by exists 1%nat| |]; (destruct (negb (bool_decide _)); [|]);
    first [by exists 2%nat|by exists 3%nat|by exists 4%nat|by exists 5%nat].
Qed.

Lemma priorities_inj i j p : priorities !! i = Some p -> priorities !! j = Some p -> i = j.
Proof. intros Hi Hj. apply (NoDup_lookup priorities i j p); [|done|done]. apply (bool_decide_eq_true_1 (NoDup priorities)). reflexivity. Qed.

Lemma group_snoc adds a p :
  group (adds ++ [a]) p = if rule_position (fst a) (snd a) =? p then group adds p ++ [fst a] else group adds p.
Proof.
  unfold group. rewrite List.filter_app. cbn [List.filter]. destruct (_ =? p); [by rewrite fmap_app|by rewrite app_nil_r].
Qed.

Lemma groups_snoc adds a i :
  priorities !! i = Some (rule_position (fst a) (snd a)) ->
  groups (adds ++ [a]) = <[i := group adds (rule_position (fst a) (snd a)) ++ [fst a]]> (groups adds).
Proof.
  intros Hi. apply list_eq. intros j. unfold groups. destruct (decide (i = j)) as [<-|Hne].
  - rewrite list_lookup_insert_eq, list_lookup_fmap, Hi; [cbn; by rewrite group_snoc, Z.eqb_refl|].
    rewrite length_fmap. by eapply lookup_lt_Some.
  - rewrite list_lookup_insert_ne, !list_lookup_fmap by done. destruct (priorities !! j) as [p|] eqn:Hj; [|done].
    cbn. rewrite group_snoc. destruct (_ =? p) eqn:E; [|done]. apply Z.eqb_eq in E. subst p.
    by destruct (Hne (priorities_inj _ _ _ Hi Hj)).
Qed.

(** Insertion at the end of a group. *)
Lemma insert_group {A} (gs : list (list A)) i g x :
  gs !! i = Some g ->
  vec_insert (concat gs) (Z.of_nat (sum (take (S i) (length <$> gs)))) x = Some (concat (<[i := g ++ [x]]> gs)).
Proof.
  intros Hi. unfold vec_insert.
  assert (exists a b, concat gs = a ++ b /\ length a = sum (take (S i) (length <$> gs))
      /\ concat (<[i := g ++ [x]]> gs) = a ++ x :: b) as (a & b & H1 & <- & ->).
  { revert i Hi. induction gs as [|g0 gs IH]; intros i Hi; [done|]. destruct i as [|i].
    - injection Hi as ->. exists g, (concat gs). cbn. rewrite take_0. split; [done|]. split; [cbn; lia|].
      by rewrite <- app_assoc.
    - destruct (IH i Hi) as (a & b & H1 & H2 & H3). exists (g0 ++ a), b. change (<[S i:=g ++ [x]]> (g0 :: gs)) with (g0 :: <[i:=g ++ [x]]> gs). cbn [concat]. rewrite H1, H3, length_app, H2.
      by rewrite <- !app_assoc. }
  rewrite H1, length_app, (proj2 (Z.leb_le _ _)), (proj2 (Z.leb_le _ _)) by lia. cbn [andb].
  by rewrite Nat2Z.id, take_app_length, drop_app_length.
Qed.

(** One addition to a bucket that has room. *)
Lemma add_rule_ok adds r sp :
  Forall (fun c => (c <= 31)%nat) (counters (adds ++ [(r, sp)])) ->
  add_rule (by_position adds) r sp (pack (counters adds))
  = Some (by_position (adds ++ [(r, sp)]), pack (counters (adds ++ [(r, sp)]))).
Proof.
  intros Hc. destruct (priority_index r sp) as (i & Hp & Hi). unfold add_rule, counters, by_position in *.
  rewrite (groups_snoc adds (r, sp) i Hi) in *. cbn [fst snd] in *. set (g := group adds (rule_position r sp)) in *.
  assert (groups adds !! i = Some g) as Hg by (unfold groups; by rewrite list_lookup_fmap, Hi).
  rewrite list_fmap_insert, length_app in Hc. cbn [length] in Hc.
  assert (Forall (fun c => (c <= 31)%nat) (length <$> groups adds)) as Hcs.
  { apply Forall_lookup. intros j c Hj. rewrite Forall_lookup in Hc. destruct (decide (i = j)) as [<-|Hne].
    - rewrite list_lookup_fmap, Hg in Hj. injection Hj as <-. specialize (Hc i (length g + 1)%nat).
      rewrite list_lookup_insert_eq in Hc; [specialize (Hc eq_refl); lia|]. rewrite length_fmap. by eapply lookup_lt_Some.
    - apply (Hc j). by rewrite list_lookup_insert_ne. }
  assert (length g < 31)%nat as Hg31.
  { rewrite Forall_lookup in Hc. specialize (Hc i (length g + 1)%nat).
    rewrite list_lookup_insert_eq in Hc; [specialize (Hc eq_refl); lia|]. rewrite length_fmap. by eapply lookup_lt_Some. }
  assert (length (groups adds) = 6%nat) as Hlen by done.
  pose proof (lookup_lt_Some _ _ _ Hg) as Hi6. rewrite Hlen in Hi6.
  rewrite Hp. unfold get_rule_insertion_index.
  pose proof (insertion_index_pack 7 (length <$> groups adds) i 0 0 Hcs ltac:(lia)) as Hidx.
  rewrite length_fmap, Hlen, Z.add_0_l, Z.mul_0_r in Hidx. rewrite Hidx by lia. cbn [mbind option_bind].
  rewrite Z.add_0_l, (insert_group _ i g r Hg). cbn [mbind option_bind].
  rewrite (increase_pack _ i (length g)); [|done|by rewrite list_lookup_fmap, Hg|done]. cbn [mbind option_bind].
  rewrite list_fmap_insert, length_app. cbn [length]. by rewrite Nat.add_1_r.
Qed.

(** ** The documented order

    A rule is an ignore rule when it stops the processing of space or token actions, the two lowest bits of its action; any
    other has a context or none. Each kind of rule comes first with specific token combinations, then with any. *)
Inductive RuleKind := IgnoreRule | ContextRule | NonContextRule.
#[global] Instance RuleKind_eq_dec : EqDecision RuleKind.
Proof. solve_decision. Defined.

Definition rule_kind (r : RuleImpl) : RuleKind :=
  if Z.testbit (action r) 0 || Z.testbit (action r) 1 then IgnoreRule
  else match context_names r with [] => NonContextRule | _ => ContextRule end.

Definition documented_order : list (RuleKind * bool) :=
  [(IgnoreRule, true); (IgnoreRule, false); (ContextRule, true); (ContextRule, false); (NonContextRule, true);
   (NonContextRule, false)].

Definition in_group (g : RuleKind * bool) (a : Addition) : bool :=
  bool_decide (rule_kind (fst a) = fst g) && Bool.eqb (snd a) (snd g).

(** The rules of the groups one after the other, those of a group in the order of their additions. *)
Definition by_priority (adds : list Addition) : list RuleImpl :=
  concat ((fun g => fst <$> List.filter (in_group g) adds) <$> documented_order).

Lemma stop_action_bits x : (Z.land x RuleAction.STOP_ACTION =? 0) = negb (Z.testbit x 0 || Z.testbit x 1).
Proof.
  apply eq_true_iff_eq. rewrite Z.eqb_eq, negb_true_iff, orb_false_iff. change RuleAction.STOP_ACTION with 3. split.
  - intros H. split.
    + rewrite <- (andb_true_r (Z.testbit x 0)). change true with (Z.testbit 3 0). by rewrite <- Z.land_spec, H.
    + rewrite <- (andb_true_r (Z.testbit x 1)). change true with (Z.testbit 3 1). by rewrite <- Z.land_spec, H.
  - intros [H0 H1]. apply Z.bits_inj'. intros n Hn. rewrite Z.land_spec, Z.bits_0.
    destruct (decide (n = 0)) as [->|]; [by rewrite H0|]. destruct (decide (n = 1)) as [->|]; [by rewrite H1|].
    rewrite (proj1 (Z.bounded_iff_bits_nonneg 2 3 ltac:(lia) ltac:(lia))) by lia. apply andb_false_r.
Qed.

Lemma position_group g p a :
  (g, p) ∈ zip documented_order priorities -> (rule_position (fst a) (snd a) =? p) = in_group g a.
Proof.
  destruct a as [r sp]. unfold rule_position, in_group, rule_kind. cbn [fst snd]. rewrite stop_action_bits, negb_involutive.
  intros Hg. cbn [zip zip_with documented_order priorities] in Hg. rewrite !elem_of_cons, elem_of_nil in Hg.
  destruct (Z.testbit _ 0 || Z.testbit _ 1); [|destruct (context_names r)]; destruct sp; naive_solver.
Qed.

(** The positions of the source are the places in that order. *)
Lemma by_priority_position adds : by_priority adds = by_position adds.
Proof.
  unfold by_priority, by_position, groups, group. f_equal.
  assert (forall gs ps, length gs = length ps -> (forall g p, (g, p) ∈ zip gs ps -> (g, p) ∈ zip documented_order priorities) ->
    (fun g => fst <$> List.filter (in_group g) adds) <$> gs
    = (fun p => fst <$> List.filter (fun a => rule_position (fst a) (snd a) =? p) adds) <$> ps) as Hg; [|by apply Hg].
  induction gs as [|g gs IH]; intros [|p ps] Hl Hz; try done. cbn. f_equal.
  - f_equal. apply List.filter_ext. intros a. symmetry. apply position_group, Hz. by left.
  - apply IH; [by injection Hl|]. intros g' p' Hin. apply Hz. by right.
Qed.

(** ** The map *)

(** A call of [add_rule]: the rule, whether its tokens are specific, and the pair of tokens. *)
Record Call := mkCall { call_add : Addition; call_left : Kind; call_right : Kind }.

Definition spec_calls (s : RuleSpec) : list Call :=
  flat_map (fun l => map (fun r => mkCall (rule s, specific s) l r) (tokens (right_token_range s))) (tokens (left_token_range s)).
Definition calls (specs : list RuleSpec) : list Call := flat_map spec_calls specs.

Fixpoint add_calls (m : RulesMap) (cs : list Call) : option RulesMap :=
  match cs with
  | [] => Some m
  | c :: cs => m ← add_at m (fst (call_add c)) (snd (call_add c)) (call_left c) (call_right c); add_calls m cs
  end.

Lemma add_calls_app m a b : add_calls m (a ++ b) = m ← add_calls m a; add_calls m b.
Proof.
  revert m. induction a as [|c a IH]; intros m; [done|]. cbn [app add_calls]. destruct (add_at _ _ _ _ _) as [m'|]; [|done].
  cbn [mbind option_bind]. apply IH.
Qed.

Lemma add_rights_calls m a l rs : add_rights m (fst a) (snd a) l rs = add_calls m (map (mkCall a l) rs).
Proof.
  revert m. induction rs as [|r rs IH]; intros m; [done|]. cbn [map add_calls add_rights call_add call_left call_right].
  destruct (add_at _ _ _ _ _); [apply IH|done].
Qed.

Lemma add_lefts_calls m a ls rs :
  add_lefts m (fst a) (snd a) ls rs = add_calls m (flat_map (fun l => map (mkCall a l) rs) ls).
Proof.
  revert m. induction ls as [|l ls IH]; intros m; [done|]. cbn [flat_map add_lefts].
  rewrite add_calls_app, add_rights_calls. destruct (add_calls m _); [apply IH|done].
Qed.

Lemma add_specs_calls m specs : add_specs m specs = add_calls m (calls specs).
Proof.
  revert m. induction specs as [|s specs IH]; intros m; [done|]. cbn [add_specs calls flat_map].
  rewrite add_calls_app. unfold spec_calls. rewrite <- (add_lefts_calls m (rule s, specific s)).
  cbn [fst snd]. destruct (add_lefts _ _ _ _ _); [apply IH|done].
Qed.

Definition is_token (k : Kind) : Prop := kind_index k <= kind_index LastKeyword.

(** The additions to the bucket of a pair. *)
Definition pair_calls (l r : Kind) (cs : list Call) : list Addition :=
  call_add <$> List.filter (fun c => Kind_eqb l (call_left c) && Kind_eqb r (call_right c)) cs.

Definition map_size : nat := Z.to_nat (MAP_ROW_LENGTH * MAP_ROW_LENGTH).
Definition bucket_index (l r : Kind) : nat := Z.to_nat (kind_index l * MAP_ROW_LENGTH + kind_index r).
Definition bucket_of (adds : list Addition) : list RuleImpl * Z := (by_position adds, pack (counters adds)).
Definition room (adds : list Addition) : Prop := Forall (fun c => (c <= 31)%nat) (counters adds).

Lemma kind_index_nonneg k : 0 <= kind_index k.
Proof. by destruct k. Qed.

Lemma bucket_index_lt l r : is_token l -> is_token r -> (bucket_index l r < map_size)%nat.
Proof.
  unfold is_token, bucket_index, map_size, MAP_ROW_LENGTH, LastToken. intros Hl Hr.
  pose proof (kind_index_nonneg l). pose proof (kind_index_nonneg r). nia.
Qed.

Lemma bucket_index_inj l r l' r' :
  is_token l -> is_token r -> is_token l' -> is_token r' -> bucket_index l r = bucket_index l' r' -> l = l' /\ r = r'.
Proof.
  unfold is_token, bucket_index, MAP_ROW_LENGTH, LastToken. intros Hl Hr Hl' Hr' H.
  pose proof (kind_index_nonneg l). pose proof (kind_index_nonneg r). pose proof (kind_index_nonneg l').
  pose proof (kind_index_nonneg r'). assert (kind_index l = kind_index l') as E by nia.
  split; apply kind_index_inj; [done|nia].
Qed.

Lemma get_rule_bucket_index_token l r :
  is_token l -> is_token r -> get_rule_bucket_index l r = Some (kind_index l * MAP_ROW_LENGTH + kind_index r).
Proof. unfold is_token. intros Hl Hr. unfold get_rule_bucket_index. by rewrite !(proj2 (Z.leb_le _ _)). Qed.

Definition map_ok (done : list Call) (m : RulesMap) : Prop :=
  length m = map_size /\ forall l r, is_token l -> is_token r -> m !! bucket_index l r = Some (bucket_of (pair_calls l r done)).

Lemma pair_calls_app l r a b : pair_calls l r (a ++ b) = pair_calls l r a ++ pair_calls l r b.
Proof. unfold pair_calls. by rewrite List.filter_app, fmap_app. Qed.

Lemma group_app a b p : group (a ++ b) p = group a p ++ group b p.
Proof. unfold group. by rewrite List.filter_app, fmap_app. Qed.

Lemma room_app a b : room (a ++ b) -> room a.
Proof.
  unfold room, counters, groups. rewrite !Forall_fmap, !Forall_forall. intros H p Hp. specialize (H p Hp). cbn in *.
  rewrite group_app, length_app in H. lia.
Qed.

Lemma add_calls_ok rest : forall done m,
  map_ok done m -> (forall c, c ∈ rest -> is_token (call_left c) /\ is_token (call_right c)) ->
  (forall l r, is_token l -> is_token r -> room (pair_calls l r (done ++ rest))) ->
  exists m', add_calls m rest = Some m' /\ map_ok (done ++ rest) m'.
Proof.
  induction rest as [|[[rl sp] l0 r0] rest IH]; intros done m [Hlen Hm] Ht Hroom.
  { exists m. by rewrite app_nil_r. }
  destruct (Ht (mkCall (rl, sp) l0 r0)) as [Hl0 Hr0]; [left|]. cbn [call_left call_right] in *.
  cbn [add_calls call_add fst snd call_left call_right]. unfold add_at.
  rewrite get_rule_bucket_index_token by done. cbn [mbind option_bind]. fold (bucket_index l0 r0).
  rewrite (Hm l0 r0 Hl0 Hr0). unfold bucket_of at 1. cbn [mbind option_bind].
  assert (pair_calls l0 r0 (done ++ [mkCall (rl, sp) l0 r0]) = pair_calls l0 r0 done ++ [(rl, sp)]) as Hpc.
  { rewrite pair_calls_app. unfold pair_calls at 2. cbn [List.filter call_left call_right].
    rewrite !(proj2 (Kind_eqb_eq _ _)) by done. done. }
  rewrite add_rule_ok.
  2: { specialize (Hroom l0 r0 Hl0 Hr0). change (mkCall (rl, sp) l0 r0 :: rest) with ([mkCall (rl, sp) l0 r0] ++ rest) in Hroom.
       rewrite app_assoc, pair_calls_app, Hpc in Hroom.
       by apply room_app in Hroom. }
  cbn [mbind option_bind].
  destruct (IH (done ++ [mkCall (rl, sp) l0 r0]) (<[bucket_index l0 r0 := bucket_of (pair_calls l0 r0 done ++ [(rl, sp)])]> m))
    as (m' & H1 & H2).
  - split; [etransitivity; [apply length_insert|exact Hlen]|]. intros l r Hl Hr. destruct (decide (bucket_index l r = bucket_index l0 r0)) as [E|E].
    + apply bucket_index_inj in E as [-> ->]; [|done..]. rewrite list_lookup_insert_eq; [by rewrite Hpc|].
      rewrite Hlen. by apply bucket_index_lt.
    + rewrite list_lookup_insert_ne, (Hm l r Hl Hr) by done. do 2 f_equal. rewrite pair_calls_app.
      unfold pair_calls at 3. cbn [List.filter call_left call_right].
      destruct (Kind_eqb l l0 && Kind_eqb r r0) eqn:E2; [|by rewrite app_nil_r].
      apply andb_true_iff in E2 as [E3%Kind_eqb_eq E4%Kind_eqb_eq]. by subst.
  - intros c Hc. apply Ht. by right.
  - intros l r Hl Hr. rewrite <- app_assoc. by apply Hroom.
  - exists m'. split; [exact H1|]. by rewrite <- app_assoc in H2.
Qed.

Lemma empty_map_ok : map_ok [] empty_map.
Proof.
  unfold empty_map. split; [apply length_replicate|]. intros l r Hl Hr. apply lookup_replicate.
  split; [done|]. by apply bucket_index_lt.
Qed.

(** ** The rules of the program *)

(** How often a token is in a range. *)
Fixpoint occurrences (k : Kind) (ks : list Kind) : nat :=
  match ks with [] => 0 | x :: ks => (if Kind_eqb k x then 1 else 0) + occurrences k ks end.

(** The rules whose ranges have the pair, in their order; a rule is added as often as the pair is in the ranges (a few
    ranges have a token twice). *)
Definition covering (l r : Kind) (specs : list RuleSpec) : list Addition :=
  flat_map (fun s => replicate (occurrences l (tokens (left_token_range s)) * occurrences r (tokens (right_token_range s)))
                       (rule s, is_specific (left_token_range s) && is_specific (right_token_range s))) specs.

Lemma pair_calls_row l r a l0 rs :
  pair_calls l r (map (mkCall a l0) rs) = replicate ((if Kind_eqb l l0 then 1 else 0) * occurrences r rs) a.
Proof.
  unfold pair_calls. induction rs as [|r0 rs IH]; [by rewrite Nat.mul_0_r|].
  cbn [map List.filter call_left call_right occurrences].
  destruct (Kind_eqb l l0), (Kind_eqb r r0); cbn [andb fmap list_fmap call_add]; rewrite IH; [done|done|done|done].
Qed.

Lemma pair_calls_spec l r s :
  pair_calls l r (spec_calls s)
  = replicate (occurrences l (tokens (left_token_range s)) * occurrences r (tokens (right_token_range s))) (rule s, specific s).
Proof.
  unfold spec_calls. induction (tokens (left_token_range s)) as [|l0 ls IH]; [done|]. cbn [flat_map occurrences].
  rewrite pair_calls_app, IH, pair_calls_row, <- replicate_add. f_equal. lia.
Qed.

Lemma pair_calls_covering l r specs : pair_calls l r (calls specs) = covering l r specs.
Proof.
  induction specs as [|s specs IH]; [done|]. change (calls (s :: specs)) with (spec_calls s ++ calls specs).
  by rewrite pair_calls_app, pair_calls_spec, IH.
Qed.

(** *** The bound, by computation on vectors of occurrences *)
Definition token_kinds : list Kind := kinds_from_to FirstToken LastToken.

Lemma token_kinds_lookup k : is_token k -> token_kinds !! Z.to_nat (kind_index k) = Some k.
Proof.
  unfold is_token. intros Hk. assert (token_kinds = take (Z.to_nat MAP_ROW_LENGTH) all_kinds) as -> by (vm_compute; reflexivity).
  rewrite lookup_take_lt; [apply all_kinds_index|]. pose proof (kind_index_nonneg k). unfold MAP_ROW_LENGTH, LastToken. lia.
Qed.

#[local] Opaque token_kinds.

Definition vector (t : TokenRange) : list nat := (fun k => occurrences k (tokens t)) <$> token_kinds.
Definition row (s : RuleSpec) : Z * list nat * list nat :=
  (rule_position (rule s) (specific s), vector (left_token_range s), vector (right_token_range s)).

(** The sizes of one priority in the buckets of the left token [i]. *)
Fixpoint sizes (rows : list (Z * list nat * list nat)) (p : Z) (i : nat) : list nat :=
  match rows with
  | [] => replicate (length token_kinds) 0%nat
  | (q, l, r) :: rows =>
      let rest := sizes rows p i in
      if q =? p then
        match nth i l 0%nat with
        | O => rest
        | n => zip_with (fun x y => (n * x + y)%nat) r rest
        end
      else rest
  end.
Definition bounded (rows : list (Z * list nat * list nat)) : bool :=
  forallb (fun p => forallb (fun i => forallb (fun n => (n <=? 31)%nat) (sizes rows p i)) (seq 0 (length token_kinds)))
    priorities.

Lemma vector_lookup t k : is_token k -> vector t !! Z.to_nat (kind_index k) = Some (occurrences k (tokens t)).
Proof.
  intros Hk. unfold vector. rewrite list_lookup_fmap, (token_kinds_lookup k Hk).
  reflexivity.
Qed.

Lemma group_replicate n (a : Addition) p :
  length (group (replicate n a) p) = if rule_position (fst a) (snd a) =? p then n else 0%nat.
Proof.
  unfold group. rewrite length_fmap. induction n as [|n IH]; [by destruct (_ =? p)|]. cbn [replicate List.filter].
  destruct (_ =? p); cbn [length]; [by rewrite IH|done].
Qed.

Lemma sizes_lookup l r p specs :
  is_token l -> is_token r ->
  sizes (map row specs) p (Z.to_nat (kind_index l)) !! Z.to_nat (kind_index r) = Some (length (group (covering l r specs) p)).
Proof.
  intros Hl Hr. induction specs as [|s specs IH].
  - cbn [map sizes]. apply lookup_replicate. split; [done|]. apply token_kinds_lookup in Hr. by eapply lookup_lt_Some.
  - unfold covering. cbn [map flat_map]. rewrite group_app, length_app, group_replicate. cbn [fst snd].
    cbn [sizes row]. fold (covering l r specs). destruct (_ =? p); [|done].
    rewrite (nth_lookup_Some _ _ _ _ (vector_lookup (left_token_range s) l Hl)).
    destruct (occurrences l _) as [|n]; [done|].
    rewrite lookup_zip_with, vector_lookup by done. cbn [mbind option_bind]. rewrite IH. cbn [fmap option_fmap option_map].
    done.
Qed.

#[local] Transparent token_kinds.
Lemma all_bounded : bounded (map row get_all_rules) = true.
Proof. vm_compute. reflexivity. Qed.
#[local] Opaque token_kinds get_all_rules.

Lemma covering_room l r : is_token l -> is_token r -> room (covering l r get_all_rules).
Proof.
  intros Hl Hr. unfold room, counters, groups. rewrite !Forall_fmap, Forall_forall. intros p Hp. cbn.
  pose proof all_bounded as Hb. unfold bounded in Hb. rewrite forallb_forall in Hb. apply list_elem_of_In in Hp.
  specialize (Hb p Hp). rewrite forallb_forall in Hb. specialize (Hb (Z.to_nat (kind_index l))).
  pose proof (token_kinds_lookup l Hl) as Ht. apply lookup_lt_Some in Ht.
  rewrite in_seq in Hb. specialize (Hb ltac:(lia)). rewrite forallb_forall in Hb.
  pose proof (sizes_lookup l r p get_all_rules Hl Hr) as Hs. apply list_elem_of_lookup_2, list_elem_of_In in Hs.
  specialize (Hb _ Hs). by apply Nat.leb_le in Hb.
Qed.

(** Every range of the rules has tokens only. *)
Definition tokens_only (t : TokenRange) : bool := forallb (fun k => kind_index k <=? kind_index LastKeyword) (tokens t).

#[local] Transparent token_kinds get_all_rules.
Lemma all_tokens_only :
  forallb (fun s => tokens_only (left_token_range s) && tokens_only (right_token_range s)) get_all_rules = true.
Proof. vm_compute. reflexivity. Qed.

#[local] Opaque token_kinds get_all_rules.

Lemma calls_tokens c : c ∈ calls get_all_rules -> is_token (call_left c) /\ is_token (call_right c).
Proof.
  unfold calls. rewrite list_elem_of_In, in_flat_map. intros (s & Hs & Hc). pose proof all_tokens_only as Ha.
  rewrite forallb_forall in Ha. specialize (Ha s Hs). apply andb_true_iff in Ha as [Hl Hr].
  unfold tokens_only in *. rewrite forallb_forall in Hl, Hr. unfold spec_calls in Hc.
  apply in_flat_map in Hc as (l & Hll & Hc). apply in_map_iff in Hc as (r & <- & Hrr). cbn.
  split; [apply Hl in Hll|apply Hr in Hrr]; by apply Z.leb_le.
Qed.

Lemma build_ok : exists m, add_specs empty_map get_all_rules = Some m /\ map_ok (calls get_all_rules) m.
Proof.
  rewrite add_specs_calls. apply (add_calls_ok (calls get_all_rules) [] empty_map).
  - apply empty_map_ok.
  - intros c. apply calls_tokens.
  - intros l r Hl Hr. cbn [app]. rewrite pair_calls_covering. by apply covering_room.
Qed.

Lemma bucket_lookup m l r :
  map_ok (calls get_all_rules) m -> is_token l -> is_token r -> exists i,
    get_rule_bucket_index l r = Some i /\ map fst m !! Z.to_nat i = Some (by_priority (covering l r get_all_rules)).
Proof.
  intros [_ Hb] Hl Hr. exists (kind_index l * MAP_ROW_LENGTH + kind_index r).
  split; [by apply get_rule_bucket_index_token|]. fold (bucket_index l r). change (map fst m) with (fst <$> m).
  rewrite list_lookup_fmap, (Hb l r Hl Hr), <- pair_calls_covering, by_priority_position. reflexivity.
Qed.

(** C37. The map of rules is complete and in order of priority: building it never panics (no index is out of bounds, and no
    five-bit counter of a bucket overflows, which a debug assertion would catch), and for every pair of tokens its bucket
    holds exactly the rules whose ranges have the pair, in the six groups the source documents (rules that stop the
    processing, rules with a context, rules without; each first those with specific tokens), which are defined apart from
    its positions, and in the order of the table within a group. *)
Theorem rules_map_by_priority :
  exists m, build_rules_map = Some m /\
    forall l r, is_token l -> is_token r -> exists i,
      get_rule_bucket_index l r = Some i /\ m !! Z.to_nat i = Some (by_priority (covering l r get_all_rules)).
Proof.
  destruct build_ok as (m & Hm & Hok). exists (map fst m). unfold build_rules_map. rewrite Hm. split; [done|].
  intros l r Hl Hr. by apply bucket_lookup.
Qed.
