(* ===== verification/FormatSelect.v ===== *)
(** * FormatSelect: which rules apply in a context

    The predicates fill caches of the context as they are asked. Here they are shown to be pure but for that: [meaning p c]
    is what [p] answers, whatever is cached. Then [get_rules] selects the first rule of the bucket for the space and the
    first for the token, if no rule stops them. *)
From S2P Require Import Prelude Text SyntaxKind Monad FormatRules FormatContext FormatMap FormatMapThm.

Section select.
Context `{FormatAst}.
Abbreviation Pred := (M FormattingContext bool).

(** ** Caches *)

(** The context with nothing cached. *)
Definition fresh (c : FormattingContext) : FormattingContext :=
  mkContext (current_token_span c) (next_token_span c) (context_node c) (current_token_parent c) (next_token_parent c)
    TSUnknown TSUnknown TSUnknown TSUnknown TSUnknown (formatting_request_kind c) (options c).

(** A cache is empty or holds what would be computed. *)
Definition cache_right (v : Tristate) (computed : option Tristate) : Prop := v = TSUnknown \/ computed = Some v.

Definition computed_tokens (c : FormattingContext) : Tristate :=
  bool_to_tristate (range_is_on_one_line (range_start (current_token_span c)) (range_stop (next_token_span c))).

(** What [update_context] establishes and every predicate keeps. *)
Record ready (c : FormattingContext) : Prop := mkReady {
  ready_node : is_Some (context_node c);
  ready_current : is_Some (current_token_parent c);
  ready_next : is_Some (next_token_parent c);
  ready_all : cache_right (context_node_all_on_same_line_ c) (node_is_on_one_line <$> context_node c);
  ready_next_all : cache_right (next_node_all_on_same_line_ c) (node_is_on_one_line <$> next_token_parent c);
  ready_tokens : cache_right (tokens_are_on_same_line_ c) (Some (computed_tokens c));
  ready_block : cache_right (context_node_block_is_on_one_line_ c) (block_is_on_one_line <$> context_node c);
  ready_next_block : cache_right (next_node_block_is_on_one_line_ c) (block_is_on_one_line <$> next_token_parent c);
}.

Lemma fresh_ready c : ready c -> ready (fresh c).
Proof. intros []. constructor; try done; by left. Qed.

Lemma fresh_fresh c : fresh (fresh c) = fresh c.
Proof. done. Qed.

Lemma update_context_ready c cur cp next np common c' :
  update_context cur cp next np common c = Ok (tt, c') -> ready c' /\ current_kind c' = range_kind cur /\ next_kind c' = range_kind next.
Proof.
  unfold update_context. destruct cp as [cp|], np as [np|], common as [common|]; try done. intros [= <-].
  split; [|done]. constructor; cbn; try (by eexists); by left.
Qed.

(** ** Pure predicates *)
Definition meaning (p : Pred) (c : FormattingContext) : bool := match p (fresh c) with Ok (b, _) => b | _ => false end.

Definition keeps (c : FormattingContext) (b : bool) : bool -> FormattingContext -> Prop :=
  fun r c' => r = b /\ fresh c' = fresh c /\ ready c'.

Definition pure (p : Pred) : Prop := forall c, ready c -> wp p (keeps c (meaning p c)) c.

(** It is enough that the answer is some function of the uncached context. *)
Lemma pure_intro p f : (forall c, ready c -> wp p (keeps c (f (fresh c))) c) -> pure p.
Proof.
  intros Hp c Hc. eapply wp_mono; [by apply Hp|]. intros b c' (-> & Hf & Hr). split; [|done].
  specialize (Hp (fresh c) (fresh_ready c Hc)). unfold meaning. apply wp_run in Hp as (b & c1 & -> & Hb & _).
  by rewrite Hb.
Qed.

Lemma meaning_pure p c : ready c -> pure p -> wp p (keeps c (meaning p c)) c.
Proof. auto. Qed.

Lemma meaning_fresh p c c' : fresh c = fresh c' -> meaning p c = meaning p c'.
Proof. unfold meaning. by intros ->. Qed.

Lemma pure_gets f : (forall c, f c = f (fresh c)) -> pure (gets f).
Proof. intros Hf. apply (pure_intro _ f). intros c Hc. apply wp_gets. by split. Qed.

Lemma wp_both p q c : pure p -> pure q -> ready c -> wp (both p q) (keeps c (meaning p c && meaning q c)) c.
Proof.
  intros Hp Hq Hc. unfold both. apply wp_bind. eapply wp_mono; [by apply Hp|]. intros b c1 (-> & Hf & Hr).
  destruct (meaning p c); [|by apply wp_ret]. eapply wp_mono; [by apply Hq|]. intros b c2 (-> & Hf2 & Hr2).
  split; [by apply meaning_fresh|]. split; [congruence|done].
Qed.

Lemma wp_either p q c : pure p -> pure q -> ready c -> wp (either p q) (keeps c (meaning p c || meaning q c)) c.
Proof.
  intros Hp Hq Hc. unfold either. apply wp_bind. eapply wp_mono; [by apply Hp|]. intros b c1 (-> & Hf & Hr).
  destruct (meaning p c); [by apply wp_ret|]. eapply wp_mono; [by apply Hq|]. intros b c2 (-> & Hf2 & Hr2).
  split; [by apply meaning_fresh|]. split; [congruence|done].
Qed.

Lemma wp_pure_value p c v : pure p -> ready c -> wp p (keeps c v) c -> meaning p c = v.
Proof.
  intros Hp Hc Hv. apply wp_run in Hv as (b & c1 & Hb & -> & _). specialize (Hp c Hc).
  apply wp_run in Hp as (b' & c2 & Hb' & -> & _). congruence.
Qed.

Lemma pure_both p q : pure p -> pure q -> pure (both p q).
Proof.
  intros Hp Hq. apply (pure_intro _ (fun c => meaning p c && meaning q c)). intros c Hc.
  exact (wp_both p q c Hp Hq Hc).
Qed.
Lemma pure_either p q : pure p -> pure q -> pure (either p q).
Proof.
  intros Hp Hq. apply (pure_intro _ (fun c => meaning p c || meaning q c)). intros c Hc.
  exact (wp_either p q c Hp Hq Hc).
Qed.
Lemma pure_negated p : pure p -> pure (negated p).
Proof.
  intros Hp. apply (pure_intro _ (fun c => negb (meaning p c))). intros c Hc. unfold negated. apply wp_bind.
  eapply wp_mono; [by apply Hp|]. intros b c1 (-> & Hf & Hr). by apply wp_ret.
Qed.

(** A guard allows the second predicate to be asked only where it holds. *)
Lemma pure_cached read write compute :
  (forall c, ready c -> exists v, compute c = Some v /\ v <> TSUnknown /\ cache_right (read c) (compute c)
     /\ fresh (write v c) = fresh c /\ ready (write v c) /\ read (write v c) = v) ->
  (forall c, compute c = compute (fresh c)) -> pure (cached read write compute).
Proof.
  intros Hcache Hcompute. apply (pure_intro _ (fun c => match compute c with Some v => Tristate.is_true v | None => false end)).
  intros c Hc. rewrite <- Hcompute. destruct (Hcache c Hc) as (v & Hv & Hu & Hr & H1 & H2 & H3). rewrite Hv in *.
  unfold cached. apply wp_bind, wp_get, wp_bind. apply wp_if; unfold Tristate.is_unknown.
  - intros _. apply wp_bind, wp_unwrap. exists v. split; [done|]. apply wp_modify, wp_gets. by rewrite H3.
  - rewrite bool_decide_eq_false. intros Hne. apply wp_ret, wp_gets. destruct Hr as [|Hr]; [done|].
    injection Hr as ->. done.
Qed.

(** *** The five cached results *)
Lemma cached_ready c n : ready c -> bool_to_tristate n <> TSUnknown.
Proof. by destruct n. Qed.

Lemma block_known n : block_is_on_one_line n <> TSUnknown.
Proof.
  unfold block_is_on_one_line, bool_to_tristate. destruct (find_child_of_kind n _) as [[]|]; [|done].
  destruct (find_child_of_kind n _) as [[]|]; [|done]. by case_match.
Qed.

Ltac solve_cached :=
  apply pure_cached; [|by intros];
  intros c [[n Hn] [pc Hpc] [pn Hpn] H1 H2 H3 H4 H5];
  rewrite ?Hn, ?Hpn in *; cbn [fmap option_fmap option_map] in *;
  eexists; (split; [reflexivity|]); (split; [first [by apply block_known|unfold node_is_on_one_line, bool_to_tristate; by case_match]|]);
  (split; [done|]); (split; [done|]); (split; [|done]);
  constructor; cbn; rewrite ?Hn, ?Hpc, ?Hpn; try (by eexists); try done; by right.

Lemma pure_context_node_all : pure context_node_all_on_same_line.
Proof. solve_cached. Qed.
Lemma pure_next_node_all : pure next_node_all_on_same_line.
Proof. solve_cached. Qed.
Lemma pure_tokens_same_line : pure tokens_are_on_same_line.
Proof. solve_cached. Qed.
Lemma pure_context_block : pure context_node_block_is_on_one_line.
Proof. solve_cached. Qed.
Lemma pure_next_block : pure next_node_block_is_on_one_line.
Proof. solve_cached. Qed.

(** *** The way up from an expression ends *)
Lemma decorator_loop_some fuel n : (parent_depth n + 1 < fuel)%nat -> is_Some (decorator_loop fuel (Some n)).
Proof.
  revert n. induction fuel as [|fuel IH]; intros n Hf; [lia|]. cbn [decorator_loop].
  destruct (is_expression_kind _); [|by eexists]. destruct (node_parent n) as [p|] eqn:E.
  - apply IH. pose proof (parent_depth_decreases n p E). lia.
  - destruct fuel; [lia|by eexists].
Qed.

Lemma pure_decorator f : (forall c, f c = f (fresh c)) -> pure (c ← get; decorator_sat (f c)).
Proof.
  intros Hf. apply (pure_intro _ (fun c => match f c with
    | Some n => match node_is_in_decorator_context n with Ok b => b | _ => false end | None => false end)).
  intros c Hc. rewrite <- Hf. apply wp_bind, wp_get. destruct (f c) as [n|]; [|by apply wp_ret].
  cbn [decorator_sat]. unfold node_is_in_decorator_context.
  destruct (decorator_loop_some (S (S (parent_depth n))) n) as [b ->]; [lia|]. unfold wp, lift_outcome. by split.
Qed.

(** *** All predicates *)
Ltac pure_tac :=
  repeat match goal with
  | |- pure (both _ _) => apply pure_both
  | |- pure (either _ _) => apply pure_either
  | |- pure (negated _) => apply pure_negated
  | |- pure (gets _) => apply pure_gets; by intros
  | |- pure (get ≫= _) => apply pure_decorator; by intros
  | |- pure tokens_are_on_same_line => apply pure_tokens_same_line
  | |- pure context_node_all_on_same_line => apply pure_context_node_all
  | |- pure next_node_all_on_same_line => apply pure_next_node_all
  | |- pure context_node_block_is_on_one_line => apply pure_context_block
  | |- pure next_node_block_is_on_one_line => apply pure_next_block
  | |- pure ?p => let h := head p in unfold h
  end
with head p := lazymatch p with ?f _ => head f | ?f => f end.

Lemma rule_predicates_pure : Forall (fun row => pure (snd row)) rule_predicates.
Proof. unfold rule_predicates. repeat (apply Forall_cons_2; [cbn [snd]; pure_tac|]). apply Forall_nil_2. Qed.

(** *** The predicates of a rule *)
Lemma find_predicate_pure rows name :
  Forall (fun row => pure (snd row)) rows -> In name (map fst rows) -> pure (find_predicate rows name).
Proof.
  induction 1 as [|[n p] rows Hp Hrows IH]; [done|]. cbn [map fst In find_predicate].
  destruct (String.eqb n name) eqn:E; [done|]. intros [->|Hin]; [by rewrite String.eqb_refl in E|by apply IH].
Qed.

(** Every predicate named in the table is known: [rule_context_name_matches] does not panic on a rule. *)
Definition names_known : bool :=
  forallb (fun s => forallb (fun n => existsb (String.eqb n) (map fst rule_predicates)) (context_names (rule s))) get_all_rules.

Lemma all_names_known : names_known = true.
Proof. vm_compute. reflexivity. Qed.

Definition known (r : RuleImpl) : Prop := Forall (fun n => pure (rule_context_name_matches n)) (context_names r).

Lemma rule_known s : In s get_all_rules -> known (rule s).
Proof.
  intros Hs. pose proof all_names_known as Hk. unfold names_known in Hk. rewrite forallb_forall in Hk.
  specialize (Hk s Hs). rewrite forallb_forall in Hk. apply Forall_forall. intros n Hn. apply list_elem_of_In in Hn.
  specialize (Hk n Hn). apply existsb_exists in Hk as (m & Hm & E%String.eqb_eq). subst m.
  apply find_predicate_pure; [apply rule_predicates_pure|done].
Qed.

(** A rule applies in a context: all its predicates hold. *)
Definition applies (c : FormattingContext) (r : RuleImpl) : bool :=
  forallb (fun n => meaning (rule_context_name_matches n) c) (context_names r).

Lemma applies_fresh r c c' : fresh c = fresh c' -> applies c r = applies c' r.
Proof. unfold applies, meaning. by intros ->. Qed.

Lemma wp_names_match r c : known r -> ready c -> wp (names_match (context_names r)) (keeps c (applies c r)) c.
Proof.
  unfold known, applies. intros Hk. revert c. induction Hk as [|n ns Hn Hns IH]; intros c Hc; [by apply wp_ret|].
  cbn [names_match forallb]. unfold both. apply wp_bind. eapply wp_mono; [by apply Hn|].
  intros b c1 (-> & Hf & Hr). destruct (meaning _ c); [|by apply wp_ret].
  eapply wp_mono; [by apply IH|]. intros b c2 (-> & Hf2 & Hr2). split; [|split; [congruence|done]].
  cbn [andb]. unfold meaning. by rewrite Hf.
Qed.

(** ** The selection, without the state *)
Fixpoint selected (ok : RuleImpl -> bool) (bucket : list RuleImpl) (mask : Z) : list RuleImpl :=
  match bucket with
  | [] => []
  | r :: bucket =>
      if negb (Z.land (action r) (Z.lnot (get_rule_action_exclusion mask)) =? 0) && ok r
      then r :: selected ok bucket (Z.lor mask (action r)) else selected ok bucket mask
  end.

Lemma wp_select_rules bucket c rules mask :
  Forall known bucket -> ready c ->
  wp (select_rules bucket rules mask)
     (fun res c' => res = rules ++ selected (applies c) bucket mask /\ fresh c' = fresh c /\ ready c') c.
Proof.
  intros Hk. revert c rules mask. induction Hk as [|r bucket Hr Hk IH]; intros c rules mask Hc.
  { apply wp_ret. by rewrite app_nil_r. }
  assert (forall c', fresh c' = fresh c -> forall m, selected (applies c') bucket m = selected (applies c) bucket m) as Hsame.
  { intros c' Hf. clear -Hf. induction bucket as [|x b IH]; intros m; [done|]. cbn [selected].
    rewrite (applies_fresh x c' c Hf). by rewrite !IH. }
  cbn [select_rules selected]. destruct (negb (_ =? 0)); [|by apply IH]. apply wp_bind.
  eapply wp_mono; [by apply wp_names_match|]. intros b c1 (-> & Hf & Hc1). cbn [andb].
  destruct (applies c r); (eapply wp_mono; [by apply IH|]); intros res c2 (-> & Hf2 & Hc2);
    (rewrite (Hsame c1 Hf), <- ?app_assoc; split; [done|]); (split; [congruence|done]).
Qed.

(** *** Classes of actions *)
Definition stops_space (r : RuleImpl) : bool := action r =? RuleAction.STOP_PROCESSING_SPACE_ACTIONS.
Definition changes_space (r : RuleImpl) : bool :=
  (action r =? RuleAction.INSERT_SPACE) || (action r =? RuleAction.INSERT_NEW_LINE) || (action r =? RuleAction.DELETE_SPACE).
Definition changes_token (r : RuleImpl) : bool :=
  (action r =? RuleAction.DELETE_TOKEN) || (action r =? RuleAction.INSERT_TRAILING_SEMICOLON).
Definition classified (r : RuleImpl) : Prop := stops_space r || changes_space r || changes_token r = true.

(** A mask by what it has: a stop, a change of the space, a change of the token. *)
Definition mask_is (mask : Z) (st sp tk : bool) : Prop :=
  (Z.land mask 1 =? 0) = negb st /\ (Z.land mask 2 =? 0) = true /\ (Z.land mask 28 =? 0) = negb sp
  /\ (Z.land mask 96 =? 0) = negb tk.

Lemma land_lor_zero m a k : (Z.land (Z.lor m a) k =? 0) = (Z.land m k =? 0) && (Z.land a k =? 0).
Proof.
  rewrite Z.land_lor_distr_l. apply eq_true_iff_eq. rewrite andb_true_iff, !Z.eqb_eq. apply Z.lor_eq_0_iff.
Qed.

Lemma mask_exclusion mask st sp tk :
  mask_is mask st sp tk ->
  get_rule_action_exclusion mask
  = Z.lor (if st || sp then RuleAction.MODIFY_SPACE_ACTION else 0) (if tk then RuleAction.MODIFY_TOKEN_ACTION else 0).
Proof.
  intros (H1 & H2 & H3 & H4). unfold get_rule_action_exclusion, RuleAction.STOP_PROCESSING_SPACE_ACTIONS,
    RuleAction.STOP_PROCESSING_TOKEN_ACTIONS. change RuleAction.MODIFY_SPACE_ACTION with 28.
  change RuleAction.MODIFY_TOKEN_ACTION with 96. rewrite H1, H2, H3, H4. by destruct st, sp, tk.
Qed.

(** A rule of the bucket is taken if it applies and its class is still open. *)
Definition open_for (st sp tk : bool) (r : RuleImpl) : bool :=
  stops_space r || (changes_space r && negb (st || sp)) || (changes_token r && negb tk).

Lemma accepted mask st sp tk r :
  mask_is mask st sp tk -> classified r ->
  negb (Z.land (action r) (Z.lnot (get_rule_action_exclusion mask)) =? 0) = open_for st sp tk r
  /\ mask_is (Z.lor mask (action r)) (st || stops_space r) (sp || changes_space r) (tk || changes_token r).
Proof.
  intros Hm Hr. rewrite (mask_exclusion _ _ _ _ Hm). destruct Hm as (H1 & H2 & H3 & H4). revert Hr.
  unfold open_for, classified, mask_is, stops_space, changes_space, changes_token. rewrite !land_lor_zero, H1, H2, H3, H4.
  rewrite !orb_true_iff, !Z.eqb_eq. intros [[|[[|]|]]|[|]]; repeat match goal with E : action r = _ |- _ => rewrite E end;
    by destruct st, sp, tk.
Qed.

Fixpoint chosen (ok : RuleImpl -> bool) (bucket : list RuleImpl) (st sp tk : bool) : list RuleImpl :=
  match bucket with
  | [] => []
  | r :: bucket =>
      if open_for st sp tk r && ok r
      then r :: chosen ok bucket (st || stops_space r) (sp || changes_space r) (tk || changes_token r)
      else chosen ok bucket st sp tk
  end.

Lemma selected_chosen ok bucket mask st sp tk :
  Forall classified bucket -> mask_is mask st sp tk -> selected ok bucket mask = chosen ok bucket st sp tk.
Proof.
  intros Hb. revert mask st sp tk. induction Hb as [|r bucket Hr Hb IH]; intros mask st sp tk Hm; [done|].
  cbn [selected chosen]. destruct (accepted mask st sp tk r Hm Hr) as [-> Hm2].
  destruct (_ && _); [f_equal|]; by apply IH.
Qed.

(** *** The first of each class *)
Definition firsts (ok : RuleImpl -> bool) (class : RuleImpl -> bool) (bucket : list RuleImpl) : list RuleImpl :=
  List.filter (fun r => class r && ok r) bucket.

Lemma classes_disjoint r :
  classified r -> (stops_space r = true /\ changes_space r = false /\ changes_token r = false)
    \/ (stops_space r = false /\ changes_space r = true /\ changes_token r = false)
    \/ (stops_space r = false /\ changes_space r = false /\ changes_token r = true).
Proof.
  unfold classified, stops_space, changes_space, changes_token. rewrite !orb_true_iff, !Z.eqb_eq.
  intros [[|[[|]|]]|[|]]; repeat match goal with E : action r = _ |- _ => rewrite E end; naive_solver.
Qed.

Lemma chosen_stops ok bucket st sp tk :
  Forall classified bucket -> List.filter stops_space (chosen ok bucket st sp tk) = firsts ok stops_space bucket.
Proof.
  intros Hb. revert st sp tk. unfold firsts. induction Hb as [|r bucket Hr Hb IH]; intros st sp tk; [done|].
  cbn [chosen List.filter]. unfold open_for. destruct (classes_disjoint r Hr) as [(H1 & H2 & H3)|[(H1 & H2 & H3)|(H1 & H2 & H3)]];
    rewrite H1, H2, H3; cbn [andb orb]; destruct (ok r), st, sp, tk; cbn [negb andb orb List.filter]; rewrite ?H1; by rewrite IH.
Qed.

Lemma chosen_token ok bucket st sp tk :
  Forall classified bucket ->
  List.filter changes_token (chosen ok bucket st sp tk) = if tk then [] else take 1 (firsts ok changes_token bucket).
Proof.
  intros Hb. revert st sp tk. unfold firsts. induction Hb as [|r bucket Hr Hb IH]; intros st sp tk; [by destruct tk|].
  cbn [chosen List.filter]. unfold open_for. destruct (classes_disjoint r Hr) as [(H1 & H2 & H3)|[(H1 & H2 & H3)|(H1 & H2 & H3)]];
    rewrite H1, H2, H3; cbn [andb orb]; destruct (ok r), st, sp, tk; cbn [negb andb orb List.filter]; rewrite ?H3; by rewrite IH.
Qed.

(** Where the rules that stop come first. *)
Lemma chosen_space ok others st sp tk :
  Forall classified others -> Forall (fun r => stops_space r = false) others ->
  List.filter changes_space (chosen ok others st sp tk) = if st || sp then [] else take 1 (firsts ok changes_space others).
Proof.
  intros Hb. revert st sp tk. unfold firsts. induction Hb as [|r bucket Hr Hb IH]; intros st sp tk Hs; [by destruct st, sp|].
  apply Forall_cons in Hs as [H1 Hs]. cbn [chosen List.filter]. unfold open_for.
  destruct (classes_disjoint r Hr) as [(H1' & H2 & H3)|[(H1' & H2 & H3)|(H1' & H2 & H3)]]; [congruence|..];
    rewrite H1, H2, H3; cbn [andb orb]; destruct (ok r), st, sp, tk; cbn [negb andb orb List.filter]; rewrite ?H2; by rewrite IH.
Qed.

Lemma chosen_stops_first ok stops others tk :
  Forall (fun r => stops_space r = true) stops -> Forall classified (stops ++ others) ->
  Forall (fun r => stops_space r = false) others ->
  List.filter changes_space (chosen ok (stops ++ others) false false tk)
  = if existsb ok stops then [] else take 1 (firsts ok changes_space others).
Proof.
  intros Hs Hc Ho. assert (forall st, List.filter changes_space (chosen ok (stops ++ others) st false tk)
    = if st || existsb ok stops then [] else take 1 (firsts ok changes_space others)) as Hst; [|apply (Hst false)].
  induction Hs as [|r stops Hr Hs IH]; intros st; cbn [app] in *.
  - rewrite chosen_space by done. by rewrite !orb_false_r.
  - apply Forall_cons in Hc as [Hcr Hc]. cbn [chosen existsb]. unfold open_for.
    destruct (classes_disjoint r Hcr) as [(H1 & H2 & H3)|[(H1 & H2 & H3)|(H1 & H2 & H3)]]; [|congruence..].
    rewrite H1, H2, H3. cbn [andb orb]. rewrite !orb_false_r, !orb_true_r.
    destruct (ok r); cbn [List.filter]; rewrite ?H2, IH by done; [by destruct st|done].
Qed.

(** ** The bucket of a pair *)
Lemma group_in adds p r : In r (group adds p) -> exists sp, In (r, sp) adds /\ rule_position r sp = p.
Proof.
  unfold group. rewrite <- list_elem_of_In, list_elem_of_fmap. intros ([r' sp] & -> & Hin).
  apply list_elem_of_In, filter_In in Hin as [Hin E]. apply Z.eqb_eq in E. by exists sp.
Qed.

Lemma by_priority_in adds r : In r (by_priority adds) -> exists sp, In (r, sp) adds.
Proof.
  rewrite by_priority_position. unfold by_position, groups. rewrite in_concat. intros (g & Hg & Hr). apply list_elem_of_In, list_elem_of_fmap in Hg as (p & -> & _).
  apply group_in in Hr as (sp & Hr & _). by exists sp.
Qed.

Lemma covering_in l r specs x sp : In (x, sp) (covering l r specs) -> exists s, In s specs /\ rule s = x.
Proof.
  unfold covering. rewrite in_flat_map. intros (s & Hs & Hx). apply repeat_spec in Hx || apply list_elem_of_In, elem_of_replicate in Hx as [Hx _].
  exists s. split; [done|]. congruence.
Qed.

Lemma all_classified :
  forallb (fun s => stops_space (rule s) || changes_space (rule s) || changes_token (rule s)) get_all_rules = true.
Proof. vm_compute. reflexivity. Qed.

#[local] Opaque get_all_rules covering.

Lemma bucket_forall (P : RuleImpl -> Prop) l r :
  (forall s, In s get_all_rules -> P (rule s)) -> Forall P (by_priority (covering l r get_all_rules)).
Proof.
  intros HP. apply Forall_forall. intros x Hx. apply list_elem_of_In, by_priority_in in Hx as (sp & Hx).
  apply covering_in in Hx as (s & Hs & <-). by apply HP.
Qed.

Lemma rule_classified s : In s get_all_rules -> classified (rule s).
Proof. intros Hs. pose proof all_classified as Ha. rewrite forallb_forall in Ha. by apply Ha. Qed.

(** The rules that stop are the first two groups. *)
Lemma position_stops r sp :
  classified r -> stops_space r = true <-> rule_position r sp = RULES_POSITION_STOP_RULES_SPECIFIC
                                          \/ rule_position r sp = RULES_POSITION_STOP_RULES_ANY.
Proof.
  intros Hr. assert (negb (Z.land (action r) RuleAction.STOP_ACTION =? 0) = stops_space r) as Hs.
  { revert Hr. unfold classified, stops_space, changes_space, changes_token. rewrite !orb_true_iff, !Z.eqb_eq.
    by intros [[|[[|]|]]|[|]]; repeat match goal with E : action r = _ |- _ => rewrite E end. }
  unfold rule_position. rewrite Hs. destruct (stops_space r); [destruct sp; naive_solver|]. split; [done|].
  destruct (negb (bool_decide (context_names r = []))), sp; intros [E|E]; vm_compute in E; discriminate E.
Qed.

Lemma bucket_split adds :
  (forall x sp, In (x, sp) adds -> classified x) ->
  exists stops others, by_priority adds = stops ++ others
    /\ Forall (fun x => stops_space x = true) stops /\ Forall (fun x => stops_space x = false) others.
Proof.
  intros Hadds. assert (forall p x, In x (group adds p) -> classified x /\ exists sp, rule_position x sp = p) as Hg.
  { intros p x Hx. apply group_in in Hx as (sp & Hx & Hp). split; [by eapply Hadds|by exists sp]. }
  exists (group adds RULES_POSITION_STOP_RULES_SPECIFIC ++ group adds RULES_POSITION_STOP_RULES_ANY),
    (concat (group adds <$> drop 2 priorities)).
  split; [|split].
  - rewrite by_priority_position. unfold by_position, groups, priorities. cbn [fmap list_fmap concat drop]. by rewrite <- app_assoc.
  - apply Forall_forall. intros x Hx. apply list_elem_of_In, in_app_iff in Hx as [Hx|Hx];
      apply Hg in Hx as (Hc & sp & Hp); apply (position_stops x sp Hc); auto.
  - apply Forall_forall. intros x Hx. apply list_elem_of_In, in_concat in Hx as (g & Hg' & Hx).
    apply list_elem_of_In, list_elem_of_fmap in Hg' as (p & -> & Hp). apply Hg in Hx as (Hc & sp & Hpos).
    apply not_true_is_false. intros Hst. apply (position_stops x sp Hc) in Hst. rewrite Hpos in Hst.
    apply list_elem_of_In in Hp. destruct Hst as [-> | ->]; vm_compute in Hp; naive_solver.
Qed.

Lemma filter_all_true {A} (f : A -> bool) l : Forall (fun x => f x = true) l -> List.filter f l = l.
Proof. induction 1 as [|x l Hx Hl IH]; [done|]. cbn [List.filter]. by rewrite Hx, IH. Qed.
Lemma filter_all_false {A} (f : A -> bool) l : Forall (fun x => f x = false) l -> List.filter f l = [].
Proof. induction 1 as [|x l Hx Hl IH]; [done|]. cbn [List.filter]. by rewrite Hx. Qed.

(** What a selection is made of. *)
Definition selection_of (ok : RuleImpl -> bool) (bucket taken : list RuleImpl) : Prop :=
  List.filter stops_space taken = firsts ok stops_space bucket
  /\ List.filter changes_space taken
     = (if existsb ok (List.filter stops_space bucket) then [] else take 1 (firsts ok changes_space bucket))
  /\ List.filter changes_token taken = take 1 (firsts ok changes_token bucket).

Lemma selected_selection ok stops others :
  Forall classified (stops ++ others) -> Forall (fun x => stops_space x = true) stops ->
  Forall (fun x => stops_space x = false) others ->
  selection_of ok (stops ++ others) (selected ok (stops ++ others) RuleAction.NONE).
Proof.
  intros Hcl Hst Hot. unfold selection_of. rewrite (selected_chosen _ _ _ false false false Hcl) by done.
  split; [by apply chosen_stops|]. split; [|by apply (chosen_token _ _ _ _ false)].
  rewrite chosen_stops_first, List.filter_app by done.
  rewrite (filter_all_true _ stops Hst), (filter_all_false _ others Hot), app_nil_r.
  destruct (existsb _ _); [done|]. unfold firsts. rewrite List.filter_app. rewrite (filter_all_false _ stops); [done|].
  apply Forall_app in Hcl as [Hcl _]. rewrite Forall_forall in Hst, Hcl |- *. intros x Hx. specialize (Hst x Hx).
  destruct (classes_disjoint x (Hcl x Hx)) as [(_ & -> & _)|[(E & _)|(E & _)]]; [done|congruence..].
Qed.

Lemma wp_get_rules m l r bucket rules c :
  map_ok (calls get_all_rules) m -> ready c -> current_kind c = l -> next_kind c = r -> is_token l -> is_token r ->
  bucket = by_priority (covering l r get_all_rules) ->
  wp (get_rules (map fst m) rules) (fun res c' => (exists taken, res = rules ++ taken /\ selection_of (applies c) bucket taken)
      /\ fresh c' = fresh c /\ ready c') c.
Proof.
  intros Hm Hc Hl Hr Htl Htr Hb. destruct (bucket_lookup m l r Hm Htl Htr) as (i & Hi & Hlookup). rewrite <- Hb in Hlookup.
  unfold get_rules. apply wp_bind, wp_get, wp_bind, wp_unwrap. rewrite Hl, Hr. exists i. split; [exact Hi|].
  apply wp_bind, wp_unwrap. exists bucket. split; [exact Hlookup|]. rewrite Hb.
  eapply wp_mono; [apply wp_select_rules; [apply bucket_forall, rule_known|exact Hc]|].
  intros res c' (-> & Hf & Hc'). split; [|split; [exact Hf|exact Hc']]. eexists. split; [reflexivity|].
  destruct (bucket_split (covering l r get_all_rules)) as (stops & others & Hsplit & Hst & Hot).
  { intros x sp Hx. apply covering_in in Hx as (s & Hs & <-). by apply rule_classified. }
  pose proof (bucket_forall classified l r rule_classified) as Hcl. rewrite Hsplit in Hcl |- *.
  by apply selected_selection.
Qed.

(** C38. The formatter takes the first rule of each class: in a context whose nodes are set and whose caches are right,
    as [update_context] leaves it, looking up the rules of a pair of tokens never panics (every predicate named in the
    table is known, the way up from a decorator ends) and changes nothing but caches. Of the bucket it takes every rule
    that stops changes of the space and applies; the first rule that changes the space and applies, unless one of those
    stops it; and the first that applies of those that change the token. *)
Theorem get_rules_first_match (c : FormattingContext) (rules : list RuleImpl) :
  ready c -> is_token (current_kind c) -> is_token (next_kind c) ->
  let bucket := by_priority (covering (current_kind c) (next_kind c) get_all_rules) in
  exists m taken c',
    build_rules_map = Some m /\ get_rules m rules c = Ok (rules ++ taken, c') /\ fresh c' = fresh c /\ ready c'
    /\ List.filter stops_space taken = firsts (applies c) stops_space bucket
    /\ List.filter changes_space taken
       = (if existsb (applies c) (List.filter stops_space bucket) then []
          else take 1 (firsts (applies c) changes_space bucket))
    /\ List.filter changes_token taken = take 1 (firsts (applies c) changes_token bucket).
Proof.
  intros Hc Hl Hr bucket. destruct build_ok as (m & Hm & Hok).
  pose proof (wp_get_rules m _ _ bucket rules c Hok Hc eq_refl eq_refl Hl Hr eq_refl) as Hw.
  apply wp_run in Hw as (res & c' & Hrun & (taken & -> & Ht) & Hf & Hc'). exists (map fst m), taken, c'.
  unfold build_rules_map. rewrite Hm. exact (conj eq_refl (conj Hrun (conj Hf (conj Hc' Ht)))).
Qed.
End select.

(** ** A call [f(a,b)] *)
Definition sample_ast : FormatAst := {|
  Node := nat;
  Node_eq_dec := Nat.eq_dec;
  file_line_starts := [0];
  source_file_node := 0%nat;
  node_kind := fun n => match n with O => Kind.SourceFile | 1%nat => Kind.CallExpression | _ => Kind.Identifier end;
  node_end := fun n => match n with O | 1%nat => 6 | 2%nat => 1 | 3%nat => 3 | _ => 5 end;
  node_parent := fun n => match n with O => None | 1%nat => Some 0%nat | _ => Some 1%nat end;
  operator_token := fun _ => None;
  question_token := fun _ => None;
  node_expression := fun n => match n with 1%nat => Some 2%nat | _ => None end;
  node_type := fun _ => None;
  node_initializer := fun _ => None;
  node_text := fun _ => [];
  has_decorators := fun _ => false;
  get_token_pos_of_node := fun n => match n with O | 1%nat | 2%nat => 0 | 3%nat => 2 | _ => 4 end;
  find_child_of_kind := fun _ _ => None;
  find_next_token_in := fun _ => None;
  get_first_token := fun _ => None;
  position_is_asi_candidate := fun _ _ => false;
  parent_depth := fun n => match n with O => 0%nat | 1%nat => 1%nat | _ => 2%nat end;
  parent_depth_decreases := ltac:(intros [|[|n]] p; intros [= <-]; lia);
|}.

Definition sample_context (settings : FormatCodeSettings) : @FormattingContext sample_ast :=
  @mkContext sample_ast (mkTextRange 3 4 Kind.CommaToken) (mkTextRange 4 5 Kind.Identifier) (Some 1%nat) (Some 1%nat)
    (Some 1%nat) TSUnknown TSUnknown TSUnknown TSUnknown TSUnknown FormatDocument settings.

Lemma get_rules_first_match_witness :
  let c := sample_context get_default_format_code_settings in
  let bucket := by_priority (covering Kind.CommaToken Kind.Identifier get_all_rules) in
  exists m taken c',
    build_rules_map = Some m /\ @get_rules sample_ast m [] c = Ok (taken, c')
    /\ List.filter changes_space taken
       = (if existsb (@applies sample_ast c) (List.filter stops_space bucket) then []
          else take 1 (firsts (@applies sample_ast c) changes_space bucket)).
Proof.
  intros c bucket.
  destruct (@get_rules_first_match sample_ast c []) as (m & taken & c' & H1 & H2 & _ & _ & _ & H3 & _).
  - constructor; try (by eexists); by left.
  - discriminate.
  - discriminate.
  - exists m, taken, c'. exact (conj H1 (conj H2 H3)).
Defined.

(** The default settings put a space after the comma, and a setting removes it. *)
Definition space_rule_name (c : @FormattingContext sample_ast) : list string :=
  map debug_name (take 1 (firsts (@applies sample_ast c) changes_space
                            (by_priority (covering (current_kind c) (next_kind c) get_all_rules)))).

Example comma_default : space_rule_name (sample_context get_default_format_code_settings) = ["SpaceAfterComma"]%string.
Proof. vm_compute. reflexivity. Qed.
