(* ===== verification/RescanTotal.v ===== *)
(** * RescanTotal: scanning the current token again

    The rescans of [<<], [>], templates and [/] return, stay within the text and keep the full start of the token, in any
    state of the scanner between two tokens. *)
From S2P Require Import Prelude Text Chars SyntaxKind Monad JsNum Keywords Trivia.
From S2P Require Import ScannerState ScannerOps Scanner ScannerInv ScannerWp ScannerSpec ScannerLit ScannerTotal.
From S2P Require Import RegExp RegExpWp RegExpSpec RegExpThm.

(** ** Scanning [>] again *)

(** What [rescan_greater_than_token] makes of a [>]: the bytes after it decide. *)
Definition greater_munch (s : Scanner) : Scanner :=
  let s1 := set_pos (token_start s + 1) s in
  let at_ n b := bool_decide (text s !! (token_start s + 1 + n)%nat = Some b) in
  let take n k := put_token k (set_pos (pos s1 + n) s1) in
  if at_ 0%nat (chr ">") then
    if at_ 1%nat (chr ">") then
      if at_ 2%nat (chr "=") then take 3%nat Kind.GreaterThanGreaterThanGreaterThanEqualsToken
      else take 2%nat Kind.GreaterThanGreaterThanGreaterThanToken
    else if at_ 1%nat (chr "=") then take 2%nat Kind.GreaterThanGreaterThanEqualsToken
    else take 1%nat Kind.GreaterThanGreaterThanToken
  else if at_ 0%nat (chr "=") then take 1%nat Kind.GreaterThanEqualsToken
  else s1.

Lemma rescan_greater_eq s :
  token s = Kind.GreaterThanToken ->
  rescan_greater_than_token s = Ok (token (greater_munch s), greater_munch s).
Proof.
  intros Ht. unfold rescan_greater_than_token. rewrite (run_bind get _ s s s) by done. rewrite Ht.
  change (Kind_eqb Kind.GreaterThanToken Kind.GreaterThanToken) with true. cbn [when].
  unfold mbind at 1, M_bind. unfold mbind at 1, M_bind. unfold modify at 1. unfold greater_munch.
  set (s1 := set_pos (token_start s + 1) s).
  assert (forall n b, byte_at_is n b s1
    = Ok (bool_decide (text s !! (token_start s + 1 + n)%nat = Some b), s1)) as Hb by done.
  rewrite (run_bind _ _ s1 _ s1 (Hb 0%nat 62)), (run_bind _ _ s1 _ s1 (Hb 1%nat 62)).
  rewrite (run_bind _ _ s1 _ s1 (Hb 0%nat 61)), (run_bind _ _ s1 _ s1 (Hb 1%nat 61)).
  rewrite (run_bind _ _ s1 _ s1 (Hb 2%nat 61)). by repeat case_bool_decide.
Qed.

Lemma rescan_greater_other s :
  token s <> Kind.GreaterThanToken ->
  rescan_greater_than_token s = Ok (token s, s).
Proof.
  intros Ht. unfold rescan_greater_than_token, mbind, M_bind, get, when, gets.
  by rewrite (proj2 (Kind_eqb_neq _ _) Ht).
Qed.

Lemma greater_munch_again s :
  token s = Kind.GreaterThanToken ->
  token (greater_munch s) <> Kind.GreaterThanToken \/ greater_munch (greater_munch s) = greater_munch s.
Proof. intros Ht. unfold greater_munch. repeat case_bool_decide; first [by left|right]. repeat case_bool_decide; done. Qed.

Lemma rescan_greater_runs s : exists t s',
  rescan_greater_than_token s = Ok (t, s') /\ rescan_greater_than_token s' = Ok (t, s')
  /\ (token s <> Kind.GreaterThanToken -> s' = s)
  /\ (token s = Kind.GreaterThanToken -> t <> Kind.AsteriskAsteriskToken)
  /\ full_start_pos s' = full_start_pos s /\ token_flags s' = token_flags s.
Proof.
  destruct (Kind_eqb (token s) Kind.GreaterThanToken) eqn:Ht.
  - apply Kind_eqb_eq in Ht. eexists _, _. split; [by apply rescan_greater_eq|]. split.
    + destruct (Kind_eqb (token (greater_munch s)) Kind.GreaterThanToken) eqn:E.
      * apply Kind_eqb_eq in E. rewrite rescan_greater_eq by done.
        by destruct (greater_munch_again s Ht) as [?| ->].
      * apply Kind_eqb_neq in E. by rewrite rescan_greater_other.
    + split; [done|]. unfold greater_munch. repeat case_bool_decide; cbn; rewrite ?Ht; done.
  - apply Kind_eqb_neq in Ht. exists (token s), s. by rewrite rescan_greater_other.
Qed.

(** ** States of the scanner between tokens *)
Section scanner.
Context `{JsNumber} (t : bytes) (Hascii : is_ascii t = true).

Lemma ascii_boundary p : (p <= length t)%nat -> at_boundary t p.
Proof.
  intros Hp. split; [|done]. unfold is_char_boundary. destruct p as [|p]; [done|].
  destruct (t !! S p) as [b|] eqn:E.
  - pose proof (is_ascii_lookup _ _ _ Hascii E). unfold is_boundary_byte. bool_to_prop. lia.
  - apply lookup_ge_None in E. apply Nat.eqb_eq. lia.
Qed.

Record placed (s : Scanner) : Prop := mkPlaced {
  placed_inv : ScannerInv.Inv t (length t) s;
  placed_full : (full_start_pos s <= token_start s)%nat;
  placed_pos : (token_start s <= pos s)%nat;
  placed_token : token s <> Kind.EndOfFile -> (token_start s < pos s)%nat;
}.

Lemma placed_bound s : placed s -> (pos s <= length t)%nat.
Proof. intros Hp. apply (inv_pos _ _ _ (placed_inv s Hp)). Qed.

Lemma scan_placed s :
  placed s -> wp scan (fun k s' => placed s' /\ token s' = k /\ full_start_pos s' = pos s) s.
Proof.
  intros Hp. eapply wp_mono.
  - apply (scan_wp t (length t) (is_ascii_valid _ Hascii) (at_boundary_len t) (is_ascii_escapes _ Hascii)), Hp.
  - intros k s' [Hi Ht Hf Hs _ _ _ _ _ Hpr]. split; [|done].
    split; [done|lia|case_decide; lia|]. intros Hne. rewrite Ht in Hne. case_decide; [done|lia].
Qed.

(** Reading the token again from its start. *)
Definition replaced (s : Scanner) (k : Kind) (s' : Scanner) : Prop :=
  placed s' /\ token s' = k /\ full_start_pos s' = full_start_pos s
  /\ k <> Kind.EndOfFile.

Definition live (s : Scanner) : Prop := token s <> Kind.EndOfFile.

(** A new token of [n] bytes. *)
Lemma retoken_placed s k n :
  placed s -> (token_start s + n <= length t)%nat -> (0 < n)%nat -> k <> Kind.EndOfFile ->
  replaced s k (put_token k (set_pos (token_start s + n) s)).
Proof.
  intros [[H1 H2 H3 H4 H5 H6] H7 H8 H9] Hn H0 Hk. split; [|done].
  split; cbn; [split; try done; cbn; by apply ascii_boundary|lia|lia|lia].
Qed.

Lemma same_placed s : placed s -> live s -> replaced s (token s) s.
Proof. by intros Hp Hl. Qed.

Lemma live_bound s : placed s -> live s -> (token_start s + 1 <= length t)%nat.
Proof. intros Hp Hl. pose proof (placed_bound s Hp). pose proof (placed_token s Hp Hl). lia. Qed.

Lemma rescan_less_placed s : placed s -> live s -> wp rescan_less_than_token (replaced s) s.
Proof.
  intros Hp Hl. unfold rescan_less_than_token. apply wp_bind, wp_get, wp_bind, wp_when; intros E.
  - apply wp_bind, wp_modify, wp_modify, wp_gets. apply retoken_placed; [done|by apply live_bound|lia|done].
  - by apply wp_gets, same_placed.
Qed.

Lemma rescan_question_placed s :
  placed s -> token s = Kind.QuestionQuestionToken -> wp rescan_question_token (replaced s) s.
Proof.
  intros Hp Ht. assert (live s) as Hl by (unfold live; congruence). unfold rescan_question_token.
  apply wp_bind, wp_get. rewrite Ht. cbn [Kind_eqb negb]. apply wp_if; intros E; [done|].
  apply wp_bind, wp_modify, wp_bind, wp_modify, wp_gets. apply retoken_placed; [done|by apply live_bound|lia|done].
Qed.

Lemma lookup_some_bound (i : nat) (b : byte) : t !! i = Some b -> (i < length t)%nat.
Proof. apply lookup_lt_Some. Qed.

Lemma rescan_greater_placed s :
  placed s -> wp rescan_greater_than_token (fun k s' => placed s' /\ token s' = k
    /\ full_start_pos s' = full_start_pos s) s.
Proof.
  intros Hp. destruct (Kind_eqb (token s) Kind.GreaterThanToken) eqn:Ht.
  - apply Kind_eqb_eq in Ht. unfold wp. rewrite rescan_greater_eq by done.
    assert (live s) as Hl by (intros Hl; congruence). pose proof (live_bound s Hp Hl).
    pose proof (inv_text _ _ _ (placed_inv s Hp)) as Htext. unfold greater_munch. rewrite Htext.
    set (s1 := set_pos (token_start s + 1) s).
    assert (forall n k, (token_start s + 1 + n <= length t)%nat -> k <> Kind.EndOfFile ->
      let s' := put_token k (set_pos (pos s1 + n) s1) in
      placed s' /\ token s' = token s' /\ full_start_pos s' = full_start_pos s) as Hput.
    { intros n k Hn Hk. subst s1. cbn [pos set_pos]. rewrite <- Nat.add_assoc.
      destruct (retoken_placed s k (1 + n) Hp ltac:(lia) ltac:(lia) Hk) as (? & _ & ? & _). done. }
    repeat case_bool_decide;
      try (apply Hput; [repeat match goal with E : t !! _ = Some _ |- _ => apply lookup_some_bound in E end; lia|done]).
    all: destruct (retoken_placed s (token s) 1 Hp ltac:(lia) ltac:(lia) Hl) as ([[] ? ? ?] & _).
    all: split; [|done]; split; [split|..]; done.
  - apply Kind_eqb_neq in Ht. unfold wp. by rewrite rescan_greater_other.
Qed.

Context (Hnul : forall i, t !! i <> Some 0).

Lemma rescan_template_placed s b : placed s -> live s -> wp (rescan_template_token b) (replaced s) s.
Proof.
  intros Hp Hl. pose proof (live_bound s Hp Hl) as Hlen. pose proof (placed_inv s Hp) as Hi.
  unfold rescan_template_token. apply wp_bind, wp_modify, wp_bind.
  destruct (lookup_lt_is_Some_2 t (token_start s)) as [c Hc]; [lia|].
  eapply wp_mono.
  - apply (scan_template_ok t (length t) (is_ascii_valid _ Hascii) (at_boundary_len t) (is_ascii_escapes _ Hascii) _ _ c).
    + split; cbn; apply Hi.
    + left. cbn [pos set_pos]. rewrite Nat.add_0_r. split; [lia|done].
    + intros ->. by apply (Hnul (token_start s)).
    + apply (is_ascii_lookup _ _ _ Hascii) in Hc. lia.
  - intros k s' (Ha & Hlt & Hk). apply wp_bind, wp_modify, wp_gets. cbn in Hlt.
    destruct Ha as [Hi' _ _ _ _ Hf Hs _ _ _]. cbn in Hf, Hs. pose proof (placed_full s Hp).
    split; [|done]. split; cbn; [split; cbn; apply Hi'|lia|lia|lia].
Qed.

(** The end of a token that a slash starts. *)
Lemma rescan_slash_end s f p s1 :
  placed s -> kept t (put_token_flags f s) s1 -> at_boundary t p -> (token_start s + 1 <= p)%nat ->
  wp (modify (set_pos p) ;; set_token_value_from_range (token_start s) p ;;
      set_token Kind.RegularExpressionLiteral)
    (fun _ s' => replaced s Kind.RegularExpressionLiteral s') s1.
Proof.
  intros Hp [Hi [_ _ _ Hf _ _] Hs] Hb Hle. apply wp_bind, wp_modify, wp_bind, wp_modify, wp_modify.
  pose proof (placed_full s Hp). pose proof (inv_token_start _ _ _ (placed_inv s Hp)). cbn in Hf, Hs.
  split; [|done].
  split; cbn; [split; cbn; try apply Hi; [done|split_and!; [lia|done..]]|lia|lia|lia].
Qed.

Lemma rescan_slash_placed `{SpellingSuggestions} s :
  placed s -> live s -> wp (rescan_slash_token false) (replaced s) s.
Proof.
  intros Hp Hl. pose proof (live_bound s Hp Hl) as Hlen. pose proof (placed_inv s Hp) as Hi.
  pose proof (is_ascii_valid _ Hascii) as Hv. pose proof (ascii_boundary _ Hlen) as Hstart.
  unfold rescan_slash_token. apply wp_bind, wp_get, wp_bind, wp_when; [|intros _; by apply wp_gets, same_placed].
  intros _. cbv zeta. rewrite (inv_text _ _ _ Hi). destruct (reg_exp_body _ _ _ _ _) as [[body_end named] u] eqn:Ebody.
  destruct (body_end_boundary _ _ _ _ _ Hv Hstart Ebody) as [Hend Hle].
  assert (exists f, (u = true -> Z.land f TokenFlags.UNTERMINATED <> 0) /\
    when u (add_flags TokenFlags.UNTERMINATED) s = Ok (tt, put_token_flags f s)) as (f & Hf & Hwhen).
  { destruct u; [eexists; split; [intros _; apply unterminated_flag|done]|exists (token_flags s); split; [done|by destruct s]]. }
  apply wp_bind. unfold wp at 1. rewrite Hwhen. apply wp_bind, wp_gets.
  assert (ScannerInv.Inv t (length t) (put_token_flags f s)) as Hi' by (split; cbn; apply Hi).
  apply wp_bind, wp_if; intros E; rewrite ?negb_true_iff, ?negb_false_iff, ?Z.eqb_eq, ?Z.eqb_neq in E.
  - eapply wp_mono; [by apply (reg_exp_unterminated_ok t Hv _ body_end Hstart Hend Hle)|].
    intros p s1 (H1 & _ & H3 & H4 & _). eapply wp_mono; [by eapply rescan_slash_end|].
    intros [] s' Hr. apply wp_gets. by rewrite (proj1 (proj2 Hr)).
  - assert (u = false) as -> by (destruct u; [by destruct Hf|done]).
    assert (t !! body_end = Some 47) as Hslash.
    { apply reg_exp_body_sound in Ebody as (bs & tail & Ht & _ & ->). rewrite <- lookup_drop, Ht. by apply list_lookup_middle. }
    eapply wp_mono; [by apply (reg_exp_terminated_ok t Hv _ body_end Hstart Hend Hle (is_ascii_escapes _ Hascii) (is_ascii_names _ Hascii))|].
    intros p s1 (H1 & _ & H3 & H4 & _). eapply wp_mono; [eapply rescan_slash_end; [done..|lia]|].
    intros [] s' Hr. apply wp_gets. by rewrite (proj1 (proj2 Hr)).
Qed.
End scanner.
