(* ===== verification/Ast.v ===== *)
(** * Ast: syntax trees of expressions and types

    Models the nodes of ts-ast that the parser of expressions and types builds (ast.rs, ast_generated.rs) and [NodeFlags].
    In Rust a node is an index into a store of headers and payloads; the parser makes a node after its children and, but
    for the optional-chain flag and the range of a type next to [!] or [?], which it changes before the node has a parent,
    never changes one it has finished, so that here a node is a tree: the header (range and flags) and the payload with the
    children. Parent links are left out. *)
From S2P Require Import Prelude SyntaxKind CoreTypes.

Module NodeFlags.
Definition NONE : Z := 0.
Definition REPARSED : Z := Z.shiftl 1 3.
Definition OPTIONAL_CHAIN : Z := Z.shiftl 1 5.
Definition DISALLOW_IN_CONTEXT : Z := Z.shiftl 1 10.
Definition YIELD_CONTEXT : Z := Z.shiftl 1 11.
Definition DECORATOR_CONTEXT : Z := Z.shiftl 1 12.
Definition AWAIT_CONTEXT : Z := Z.shiftl 1 13.
Definition DISALLOW_CONDITIONAL_TYPES_CONTEXT : Z := Z.shiftl 1 14.
Definition THIS_NODE_HAS_ERROR : Z := Z.shiftl 1 15.
Definition JAVASCRIPT_FILE : Z := Z.shiftl 1 16.
Definition POSSIBLY_CONTAINS_DYNAMIC_IMPORT : Z := Z.shiftl 1 19.
Definition POSSIBLY_CONTAINS_IMPORT_META : Z := Z.shiftl 1 20.

Definition TYPE_EXCLUDES_FLAGS : Z := Z.lor YIELD_CONTEXT AWAIT_CONTEXT.

Definition contains (self other : Z) : bool := Z.land self other =? other.
(** [self & other != NodeFlags::NONE] *)
Definition has (self other : Z) : bool := negb (Z.land self other =? NONE).
(** [self &= !other] and [self |= other] *)
Definition remove (self other : Z) : Z := Z.ldiff self other.
Definition add (self other : Z) : Z := Z.lor self other.
End NodeFlags.

(** [Literal k] is a string, numeric, bigint, regular expression or template literal without substitutions;
    [TemplatePart k] a template head, middle or tail; [Other k] a node of a kind the expression parser does not look
    into, with its children. *)
Inductive Node : Type :=
  | mkNode (loc : TextRange) (flags : Z) (data : NodeData)
with NodeData : Type :=
  | Token (kind : Kind)
  | KeywordExpression (kind : Kind)
  | Identifier (text : bytes)
  | PrivateIdentifier (text : bytes)
  | Literal (kind : Kind) (text : bytes) (token_flags : Z)
  | TemplatePart (kind : Kind) (text raw_text : bytes) (template_flags : Z)
  | BinaryExpression (left operator_token right : Node)
  | PrefixUnaryExpression (operator : Kind) (operand : Node)
  | PostfixUnaryExpression (operand : Node) (operator : Kind)
  | ConditionalExpression (condition question_token when_true colon_token when_false : Node)
  | DeleteExpression (expression : Node)
  | TypeOfExpression (expression : Node)
  | VoidExpression (expression : Node)
  | AwaitExpression (expression : Node)
  | YieldExpression (asterisk_token expression : option Node)
  | AsExpression (expression type_node : Node)
  | SatisfiesExpression (expression type_node : Node)
  | TypeAssertion (type_node expression : Node)
  | NonNullExpression (expression : Node)
  | ParenthesizedExpression (expression : Node)
  | PartiallyEmittedExpression (expression : Node)
  | PropertyAccessExpression (expression : Node) (question_dot_token : option Node) (name : Node)
  | ElementAccessExpression (expression : Node) (question_dot_token : option Node) (argument_expression : Node)
  | CallExpression (expression : Node) (question_dot_token : option Node) (type_arguments : option NodeList)
      (arguments : NodeList)
  | NewExpression (expression : Node) (type_arguments arguments : option NodeList)
  | TaggedTemplateExpression (tag : Node) (question_dot_token : option Node) (type_arguments : option NodeList)
      (template : Node)
  | ExpressionWithTypeArguments (expression : Node) (type_arguments : option NodeList)
  | TemplateExpression (head : Node) (spans : NodeList)
  | TemplateSpan (expression literal : Node)
  | ArrayLiteralExpression (elements : NodeList) (multi_line : bool)
  | SpreadElement (expression : Node)
  | OmittedExpression
  | MetaProperty (keyword_token : Kind) (name : Node)
  (* names, patterns and parameters *)
  | QualifiedName (left right : Node)
  | ComputedPropertyName (expression : Node)
  | Decorator (expression : Node)
  | BindingPattern (kind : Kind) (elements : NodeList)
  | BindingElement (dot_dot_dot_token property_name name initializer : option Node)
  | ParameterDeclaration (modifiers : option NodeList) (dot_dot_dot_token : option Node) (name : Node)
      (question_token type_node initializer : option Node)
  | TypeParameterDeclaration (modifiers : option NodeList) (name : Node)
      (constraint expression default_type : option Node)
  (* types *)
  | KeywordType (kind : Kind)
  | ThisType
  | ConditionalType (check_type extends_type true_type false_type : Node)
  | UnionType (types : NodeList)
  | IntersectionType (types : NodeList)
  | TypeOperator (operator : Kind) (type_node : Node)
  | InferType (type_parameter : Node)
  | ArrayType (element_type : Node)
  | IndexedAccessType (object_type index_type : Node)
  | TypePredicate (asserts_modifier : option Node) (parameter_name : Node) (type_node : option Node)
  | TypeReference (type_name : Node) (type_arguments : option NodeList)
  | TypeQuery (expr_name : Node) (type_arguments : option NodeList)
  | MappedType (readonly_token : option Node) (type_parameter : Node) (name_type question_token type_node : option Node)
      (members : NodeList)
  | TypeLiteral (members : NodeList)
  | TupleType (elements : NodeList)
  | NamedTupleMember (dot_dot_dot_token : option Node) (name : Node) (question_token : option Node) (type_node : Node)
  | RestType (type_node : Node)
  | OptionalType (type_node : Node)
  | ParenthesizedType (type_node : Node)
  | LiteralType (literal : Node)
  | TemplateLiteralType (head : Node) (spans : NodeList)
  | TemplateLiteralTypeSpan (type_node literal : Node)
  | ImportAttribute (name : option Node) (value : Node)
  | ImportAttributes (token : Kind) (attributes : NodeList) (multi_line : bool)
  | ImportType (is_type_of : bool) (argument : Node) (attributes qualifier : option Node)
      (type_arguments : option NodeList)
  | FunctionType (type_parameters : option NodeList) (parameters : NodeList) (return_type : option Node)
  | ConstructorType (modifiers type_parameters : option NodeList) (parameters : NodeList) (return_type : option Node)
  (* members of types *)
  | CallSignature (type_parameters : option NodeList) (parameters : NodeList) (return_type : option Node)
  | ConstructSignature (type_parameters : option NodeList) (parameters : NodeList) (return_type : option Node)
  | MethodSignature (modifiers : option NodeList) (name : Node) (question_token : option Node)
      (type_parameters : option NodeList) (parameters : NodeList) (return_type : option Node)
  | PropertySignature (modifiers : option NodeList) (name : Node) (question_token type_node initializer : option Node)
  | IndexSignature (modifiers : option NodeList) (parameters : NodeList) (type_node : option Node)
  | GetAccessor (modifiers : option NodeList) (name : Node) (type_parameters : option NodeList) (parameters : NodeList)
      (return_type body : option Node)
  | SetAccessor (modifiers : option NodeList) (name : Node) (type_parameters : option NodeList) (parameters : NodeList)
      (return_type body : option Node)
  (* functions and object literals *)
  | ObjectLiteralExpression (properties : NodeList) (multi_line : bool)
  | PropertyAssignment (modifiers : option NodeList) (name : Node) (postfix_token : option Node) (initializer : Node)
  | ShorthandPropertyAssignment (modifiers : option NodeList) (name : Node)
      (postfix_token equals_token initializer : option Node)
  | SpreadAssignment (expression : Node)
  | MethodDeclaration (modifiers : option NodeList) (asterisk_token : option Node) (name : Node)
      (question_token : option Node) (type_parameters : option NodeList) (parameters : NodeList)
      (return_type body : option Node)
  | FunctionExpression (modifiers : option NodeList) (asterisk_token name : option Node)
      (type_parameters : option NodeList) (parameters : NodeList) (return_type : option Node) (body : Node)
  | ArrowFunction (modifiers type_parameters : option NodeList) (parameters : NodeList) (return_type : option Node)
      (equals_greater_than_token body : Node)
  | MissingDeclaration (modifiers : option NodeList)
  | Other (kind : Kind) (children : NodeList)
with NodeList : Type :=
  | mkNodeList (list_loc : TextRange) (nodes : list Node) (has_trailing_comma missing : bool).

(** ** Headers *)
Definition loc (n : Node) : TextRange := match n with mkNode l _ _ => l end.
Definition flags (n : Node) : Z := match n with mkNode _ f _ => f end.
Definition data (n : Node) : NodeData := match n with mkNode _ _ d => d end.

Definition kind (n : Node) : Kind :=
  match data n with
  | Token k | KeywordExpression k | Literal k _ _ | TemplatePart k _ _ _ | Other k _ => k
  | Identifier _ => Kind.Identifier
  | PrivateIdentifier _ => Kind.PrivateIdentifier
  | BinaryExpression _ _ _ => Kind.BinaryExpression
  | PrefixUnaryExpression _ _ => Kind.PrefixUnaryExpression
  | PostfixUnaryExpression _ _ => Kind.PostfixUnaryExpression
  | ConditionalExpression _ _ _ _ _ => Kind.ConditionalExpression
  | DeleteExpression _ => Kind.DeleteExpression
  | TypeOfExpression _ => Kind.TypeOfExpression
  | VoidExpression _ => Kind.VoidExpression
  | AwaitExpression _ => Kind.AwaitExpression
  | YieldExpression _ _ => Kind.YieldExpression
  | AsExpression _ _ => Kind.AsExpression
  | SatisfiesExpression _ _ => Kind.SatisfiesExpression
  | TypeAssertion _ _ => Kind.TypeAssertionExpression
  | NonNullExpression _ => Kind.NonNullExpression
  | ParenthesizedExpression _ => Kind.ParenthesizedExpression
  | PartiallyEmittedExpression _ => Kind.PartiallyEmittedExpression
  | PropertyAccessExpression _ _ _ => Kind.PropertyAccessExpression
  | ElementAccessExpression _ _ _ => Kind.ElementAccessExpression
  | CallExpression _ _ _ _ => Kind.CallExpression
  | NewExpression _ _ _ => Kind.NewExpression
  | TaggedTemplateExpression _ _ _ _ => Kind.TaggedTemplateExpression
  | ExpressionWithTypeArguments _ _ => Kind.ExpressionWithTypeArguments
  | TemplateExpression _ _ => Kind.TemplateExpression
  | TemplateSpan _ _ => Kind.TemplateSpan
  | ArrayLiteralExpression _ _ => Kind.ArrayLiteralExpression
  | SpreadElement _ => Kind.SpreadElement
  | OmittedExpression => Kind.OmittedExpression
  | MetaProperty _ _ => Kind.MetaProperty
  | QualifiedName _ _ => Kind.QualifiedName
  | ComputedPropertyName _ => Kind.ComputedPropertyName
  | Decorator _ => Kind.Decorator
  | BindingPattern k _ => k
  | BindingElement _ _ _ _ => Kind.BindingElement
  | ParameterDeclaration _ _ _ _ _ _ => Kind.ParameterKind
  | TypeParameterDeclaration _ _ _ _ _ => Kind.TypeParameter
  | KeywordType k => k
  | ThisType => Kind.ThisType
  | ConditionalType _ _ _ _ => Kind.ConditionalType
  | UnionType _ => Kind.UnionType
  | IntersectionType _ => Kind.IntersectionType
  | TypeOperator _ _ => Kind.TypeOperator
  | InferType _ => Kind.InferType
  | ArrayType _ => Kind.ArrayType
  | IndexedAccessType _ _ => Kind.IndexedAccessType
  | TypePredicate _ _ _ => Kind.TypePredicate
  | TypeReference _ _ => Kind.TypeReference
  | TypeQuery _ _ => Kind.TypeQuery
  | MappedType _ _ _ _ _ _ => Kind.MappedType
  | TypeLiteral _ => Kind.TypeLiteral
  | TupleType _ => Kind.TupleType
  | NamedTupleMember _ _ _ _ => Kind.NamedTupleMember
  | RestType _ => Kind.RestType
  | OptionalType _ => Kind.OptionalType
  | ParenthesizedType _ => Kind.ParenthesizedType
  | LiteralType _ => Kind.LiteralType
  | TemplateLiteralType _ _ => Kind.TemplateLiteralType
  | TemplateLiteralTypeSpan _ _ => Kind.TemplateLiteralTypeSpan
  | ImportAttribute _ _ => Kind.ImportAttribute
  | ImportAttributes _ _ _ => Kind.ImportAttributes
  | ImportType _ _ _ _ _ => Kind.ImportType
  | FunctionType _ _ _ => Kind.FunctionType
  | ConstructorType _ _ _ _ => Kind.ConstructorType
  | CallSignature _ _ _ => Kind.CallSignature
  | ConstructSignature _ _ _ => Kind.ConstructSignature
  | MethodSignature _ _ _ _ _ _ => Kind.MethodSignature
  | PropertySignature _ _ _ _ _ => Kind.PropertySignature
  | IndexSignature _ _ _ => Kind.IndexSignature
  | GetAccessor _ _ _ _ _ _ => Kind.GetAccessor
  | SetAccessor _ _ _ _ _ _ => Kind.SetAccessor
  | ObjectLiteralExpression _ _ => Kind.ObjectLiteralExpression
  | PropertyAssignment _ _ _ _ => Kind.PropertyAssignment
  | ShorthandPropertyAssignment _ _ _ _ _ => Kind.ShorthandPropertyAssignment
  | SpreadAssignment _ => Kind.SpreadAssignment
  | MethodDeclaration _ _ _ _ _ _ _ _ => Kind.MethodDeclaration
  | FunctionExpression _ _ _ _ _ _ _ => Kind.FunctionExpression
  | ArrowFunction _ _ _ _ _ _ => Kind.ArrowFunction
  | MissingDeclaration _ => Kind.MissingDeclaration
  end.

(** A node as the factory makes it, before it is finished, with the flags a constructor is given. *)
Definition new_node (f : Z) (d : NodeData) : Node := mkNode undefined_text_range f d.

(** [finish_parsed_node_header] *)
Definition finish_parsed_node_header (n : Node) (l : TextRange) (context_flags : Z) (has_parse_error : bool) : Node :=
  let f := NodeFlags.add (flags n) context_flags in
  mkNode l (if has_parse_error then NodeFlags.add f NodeFlags.THIS_NODE_HAS_ERROR else f) (data n).

Definition add_flags (n : Node) (f : Z) : Node := mkNode (loc n) (NodeFlags.add (flags n) f) (data n).

(** ** Questions about a node *)

(** [store.expression(node)], for the kinds the parser asks about. *)
Definition expression (n : Node) : option Node :=
  match data n with
  | DeleteExpression e | TypeOfExpression e | VoidExpression e | AwaitExpression e | AsExpression e _
  | SatisfiesExpression e _ | TypeAssertion _ e | NonNullExpression e | ParenthesizedExpression e
  | PartiallyEmittedExpression e | PropertyAccessExpression e _ _ | ElementAccessExpression e _ _
  | CallExpression e _ _ _ | NewExpression e _ _ | ExpressionWithTypeArguments e _ | TemplateSpan e _
  | SpreadElement e => Some e
  | YieldExpression _ e => e
  | _ => None
  end.

Definition node_is_missing (n : Node) : bool :=
  (TextRange.pos (loc n) =? TextRange.end_ (loc n)) && (0 <=? TextRange.pos (loc n)) && negb (Kind_eqb (kind n) Kind.EndOfFile).
Definition node_is_present (n : Node) : bool := negb (node_is_missing n).

Definition is_assignment_operator (k : Kind) : bool :=
  match k with
  | Kind.EqualsToken | Kind.PlusEqualsToken | Kind.MinusEqualsToken | Kind.AsteriskAsteriskEqualsToken
  | Kind.AsteriskEqualsToken | Kind.SlashEqualsToken | Kind.PercentEqualsToken | Kind.AmpersandEqualsToken
  | Kind.BarEqualsToken | Kind.CaretEqualsToken | Kind.LessThanLessThanEqualsToken
  | Kind.GreaterThanGreaterThanGreaterThanEqualsToken | Kind.GreaterThanGreaterThanEqualsToken
  | Kind.BarBarEqualsToken | Kind.AmpersandAmpersandEqualsToken | Kind.QuestionQuestionEqualsToken => true
  | _ => false
  end.

(** [skip_outer_expressions] for [PARTIALLY_EMITTED_EXPRESSIONS]. *)
Fixpoint skip_partially_emitted_expressions (n : Node) : Node :=
  match n with
  | mkNode _ _ (PartiallyEmittedExpression e) => skip_partially_emitted_expressions e
  | _ => n
  end.

Definition is_left_hand_side_expression_kind (k : Kind) : bool :=
  match k with
  | Kind.PropertyAccessExpression | Kind.ElementAccessExpression | Kind.NewExpression | Kind.CallExpression
  | Kind.JsxElement | Kind.JsxSelfClosingElement | Kind.JsxFragment | Kind.TaggedTemplateExpression
  | Kind.ArrayLiteralExpression | Kind.ParenthesizedExpression | Kind.ObjectLiteralExpression
  | Kind.ClassExpression | Kind.FunctionExpression | Kind.Identifier | Kind.PrivateIdentifier
  | Kind.RegularExpressionLiteral | Kind.NumericLiteral | Kind.BigIntLiteral | Kind.StringLiteral
  | Kind.NoSubstitutionTemplateLiteral | Kind.TemplateExpression | Kind.FalseKeyword | Kind.NullKeyword
  | Kind.ThisKeyword | Kind.TrueKeyword | Kind.SuperKeyword | Kind.NonNullExpression
  | Kind.ExpressionWithTypeArguments | Kind.MetaProperty | Kind.ImportKeyword | Kind.MissingDeclaration => true
  | _ => false
  end.

Definition is_left_hand_side_expression (n : Node) : bool :=
  is_left_hand_side_expression_kind (kind (skip_partially_emitted_expressions n)).
