(* ===== verification/Precedence.v ===== *)
(** * Precedence: the precedences of operators and types (ts-ast/src/precedence.rs) *)
From S2P Require Import Prelude SyntaxKind Ast.

(** ** Operators *)
Definition OPERATOR_PRECEDENCE_COMMA : Z := 0.
Definition OPERATOR_PRECEDENCE_SPREAD : Z := 1.
Definition OPERATOR_PRECEDENCE_YIELD : Z := 2.
Definition OPERATOR_PRECEDENCE_ASSIGNMENT : Z := 3.
Definition OPERATOR_PRECEDENCE_CONDITIONAL : Z := 4.
Definition OPERATOR_PRECEDENCE_LOGICAL_OR : Z := 5.
Definition OPERATOR_PRECEDENCE_LOGICAL_AND : Z := 6.
Definition OPERATOR_PRECEDENCE_BITWISE_OR : Z := 7.
Definition OPERATOR_PRECEDENCE_BITWISE_XOR : Z := 8.
Definition OPERATOR_PRECEDENCE_BITWISE_AND : Z := 9.
Definition OPERATOR_PRECEDENCE_EQUALITY : Z := 10.
Definition OPERATOR_PRECEDENCE_RELATIONAL : Z := 11.
Definition OPERATOR_PRECEDENCE_SHIFT : Z := 12.
Definition OPERATOR_PRECEDENCE_ADDITIVE : Z := 13.
Definition OPERATOR_PRECEDENCE_MULTIPLICATIVE : Z := 14.
Definition OPERATOR_PRECEDENCE_EXPONENTIATION : Z := 15.
Definition OPERATOR_PRECEDENCE_UNARY : Z := 16.
Definition OPERATOR_PRECEDENCE_UPDATE : Z := 17.
Definition OPERATOR_PRECEDENCE_LEFT_HAND_SIDE : Z := 18.
Definition OPERATOR_PRECEDENCE_OPTIONAL_CHAIN : Z := 19.
Definition OPERATOR_PRECEDENCE_MEMBER : Z := 20.
Definition OPERATOR_PRECEDENCE_PRIMARY : Z := 21.
Definition OPERATOR_PRECEDENCE_PARENTHESES : Z := 22.
Definition OPERATOR_PRECEDENCE_LOWEST : Z := OPERATOR_PRECEDENCE_COMMA.
Definition OPERATOR_PRECEDENCE_HIGHEST : Z := OPERATOR_PRECEDENCE_PARENTHESES.
Definition OPERATOR_PRECEDENCE_DISALLOW_COMMA : Z := OPERATOR_PRECEDENCE_YIELD.
Definition OPERATOR_PRECEDENCE_COALESCE : Z := OPERATOR_PRECEDENCE_LOGICAL_OR.
Definition OPERATOR_PRECEDENCE_INVALID : Z := -1.

Definition OPERATOR_PRECEDENCE_FLAGS_NONE : Z := 0.
Definition OPERATOR_PRECEDENCE_FLAGS_NEW_WITHOUT_ARGUMENTS : Z := Z.shiftl 1 0.
Definition OPERATOR_PRECEDENCE_FLAGS_OPTIONAL_CHAIN : Z := Z.shiftl 1 1.

Definition get_binary_operator_precedence (operator_kind : Kind) : Z :=
  match operator_kind with
  | Kind.QuestionQuestionToken => OPERATOR_PRECEDENCE_COALESCE
  | Kind.BarBarToken => OPERATOR_PRECEDENCE_LOGICAL_OR
  | Kind.AmpersandAmpersandToken => OPERATOR_PRECEDENCE_LOGICAL_AND
  | Kind.BarToken => OPERATOR_PRECEDENCE_BITWISE_OR
  | Kind.CaretToken => OPERATOR_PRECEDENCE_BITWISE_XOR
  | Kind.AmpersandToken => OPERATOR_PRECEDENCE_BITWISE_AND
  | Kind.EqualsEqualsToken | Kind.ExclamationEqualsToken | Kind.EqualsEqualsEqualsToken
  | Kind.ExclamationEqualsEqualsToken => OPERATOR_PRECEDENCE_EQUALITY
  | Kind.LessThanToken | Kind.GreaterThanToken | Kind.LessThanEqualsToken | Kind.GreaterThanEqualsToken
  | Kind.InstanceOfKeyword | Kind.InKeyword | Kind.AsKeyword | Kind.SatisfiesKeyword => OPERATOR_PRECEDENCE_RELATIONAL
  | Kind.LessThanLessThanToken | Kind.GreaterThanGreaterThanToken
  | Kind.GreaterThanGreaterThanGreaterThanToken => OPERATOR_PRECEDENCE_SHIFT
  | Kind.PlusToken | Kind.MinusToken => OPERATOR_PRECEDENCE_ADDITIVE
  | Kind.AsteriskToken | Kind.SlashToken | Kind.PercentToken => OPERATOR_PRECEDENCE_MULTIPLICATIVE
  | Kind.AsteriskAsteriskToken => OPERATOR_PRECEDENCE_EXPONENTIATION
  | _ => OPERATOR_PRECEDENCE_INVALID
  end.

(** [OPERATOR_PRECEDENCE_OPTIONAL_CHAIN] where the flag says so. *)
Definition member_precedence (flags : Z) : Z :=
  if negb (Z.land flags OPERATOR_PRECEDENCE_FLAGS_OPTIONAL_CHAIN =? 0) then OPERATOR_PRECEDENCE_OPTIONAL_CHAIN
  else OPERATOR_PRECEDENCE_MEMBER.

Definition get_operator_precedence (node_kind operator_kind : Kind) (flags : Z) : Z :=
  match node_kind with
  | Kind.SpreadElement => OPERATOR_PRECEDENCE_SPREAD
  | Kind.YieldExpression => OPERATOR_PRECEDENCE_YIELD
  | Kind.ArrowFunction => OPERATOR_PRECEDENCE_ASSIGNMENT
  | Kind.ConditionalExpression => OPERATOR_PRECEDENCE_CONDITIONAL
  | Kind.BinaryExpression =>
      match operator_kind with
      | Kind.CommaToken => OPERATOR_PRECEDENCE_COMMA
      | Kind.EqualsToken | Kind.PlusEqualsToken | Kind.MinusEqualsToken | Kind.AsteriskAsteriskEqualsToken
      | Kind.AsteriskEqualsToken | Kind.SlashEqualsToken | Kind.PercentEqualsToken
      | Kind.LessThanLessThanEqualsToken | Kind.GreaterThanGreaterThanEqualsToken
      | Kind.GreaterThanGreaterThanGreaterThanEqualsToken | Kind.AmpersandEqualsToken | Kind.CaretEqualsToken
      | Kind.BarEqualsToken | Kind.BarBarEqualsToken | Kind.AmpersandAmpersandEqualsToken
      | Kind.QuestionQuestionEqualsToken => OPERATOR_PRECEDENCE_ASSIGNMENT
      | _ => get_binary_operator_precedence operator_kind
      end
  | Kind.TypeAssertionExpression | Kind.NonNullExpression | Kind.PrefixUnaryExpression | Kind.TypeOfExpression
  | Kind.VoidExpression | Kind.DeleteExpression | Kind.AwaitExpression => OPERATOR_PRECEDENCE_UNARY
  | Kind.PostfixUnaryExpression => OPERATOR_PRECEDENCE_UPDATE
  | Kind.PropertyAccessExpression | Kind.ElementAccessExpression => member_precedence flags
  | Kind.CallExpression => member_precedence flags
  | Kind.NewExpression =>
      if negb (Z.land flags OPERATOR_PRECEDENCE_FLAGS_NEW_WITHOUT_ARGUMENTS =? 0)
      then OPERATOR_PRECEDENCE_LEFT_HAND_SIDE else OPERATOR_PRECEDENCE_MEMBER
  | Kind.TaggedTemplateExpression | Kind.MetaProperty | Kind.ExpressionWithTypeArguments => OPERATOR_PRECEDENCE_MEMBER
  | Kind.AsExpression | Kind.SatisfiesExpression => OPERATOR_PRECEDENCE_RELATIONAL
  | Kind.ThisKeyword | Kind.SuperKeyword | Kind.ImportKeyword | Kind.Identifier | Kind.PrivateIdentifier
  | Kind.NullKeyword | Kind.TrueKeyword | Kind.FalseKeyword | Kind.NumericLiteral | Kind.BigIntLiteral
  | Kind.StringLiteral | Kind.ArrayLiteralExpression | Kind.ObjectLiteralExpression | Kind.FunctionExpression
  | Kind.ClassExpression | Kind.RegularExpressionLiteral | Kind.NoSubstitutionTemplateLiteral
  | Kind.TemplateExpression | Kind.OmittedExpression | Kind.JsxElement | Kind.JsxSelfClosingElement
  | Kind.JsxFragment | Kind.MissingDeclaration => OPERATOR_PRECEDENCE_PRIMARY
  | Kind.ParenthesizedExpression => OPERATOR_PRECEDENCE_PARENTHESES
  | _ => OPERATOR_PRECEDENCE_INVALID
  end.

Definition get_operator (expression : Node) : Kind :=
  match data expression with
  | BinaryExpression _ operator _ => kind operator
  | PrefixUnaryExpression operator _ => operator
  | PostfixUnaryExpression _ operator => operator
  | _ => kind expression
  end.

Definition get_expression_precedence (expression : Node) : Z :=
  let operator := get_operator expression in
  let flags :=
    match data expression with
    | NewExpression _ _ None => OPERATOR_PRECEDENCE_FLAGS_NEW_WITHOUT_ARGUMENTS
    | _ => if NodeFlags.contains (flags expression) NodeFlags.OPTIONAL_CHAIN
           then OPERATOR_PRECEDENCE_FLAGS_OPTIONAL_CHAIN else OPERATOR_PRECEDENCE_FLAGS_NONE
    end in
  get_operator_precedence (kind expression) operator flags.

Fixpoint get_leftmost_expression (node : Node) (stop_at_call_expressions : bool) : Node :=
  match node with
  | mkNode _ _ (PostfixUnaryExpression next _) | mkNode _ _ (BinaryExpression next _ _)
  | mkNode _ _ (ConditionalExpression next _ _ _ _) | mkNode _ _ (TaggedTemplateExpression next _ _ _) =>
      get_leftmost_expression next stop_at_call_expressions
  | mkNode _ _ (CallExpression next _ _ _) =>
      if stop_at_call_expressions then node else get_leftmost_expression next stop_at_call_expressions
  | mkNode _ _ (AsExpression next _) | mkNode _ _ (ElementAccessExpression next _ _)
  | mkNode _ _ (PropertyAccessExpression next _ _) | mkNode _ _ (NonNullExpression next)
  | mkNode _ _ (PartiallyEmittedExpression next) | mkNode _ _ (SatisfiesExpression next _) =>
      get_leftmost_expression next stop_at_call_expressions
  | _ => node
  end.

(** ** Types *)
Definition TYPE_PRECEDENCE_CONDITIONAL : Z := 0.
Definition TYPE_PRECEDENCE_FUNCTION : Z := 2.
Definition TYPE_PRECEDENCE_UNION : Z := 3.
Definition TYPE_PRECEDENCE_INTERSECTION : Z := 4.
Definition TYPE_PRECEDENCE_TYPE_OPERATOR : Z := 5.
Definition TYPE_PRECEDENCE_POSTFIX : Z := 6.
Definition TYPE_PRECEDENCE_NON_ARRAY : Z := 7.
Definition TYPE_PRECEDENCE_LOWEST : Z := TYPE_PRECEDENCE_CONDITIONAL.
Definition TYPE_PRECEDENCE_HIGHEST : Z := TYPE_PRECEDENCE_NON_ARRAY.

(** [None] is the panic for a node that is not a type. *)
Definition get_type_node_precedence (n : Node) : option Z :=
  match kind n with
  | Kind.ConditionalType => Some TYPE_PRECEDENCE_CONDITIONAL
  | Kind.FunctionType | Kind.ConstructorType => Some TYPE_PRECEDENCE_FUNCTION
  | Kind.UnionType => Some TYPE_PRECEDENCE_UNION
  | Kind.IntersectionType => Some TYPE_PRECEDENCE_INTERSECTION
  | Kind.TypeOperator => Some TYPE_PRECEDENCE_TYPE_OPERATOR
  | Kind.InferType =>
      match data n with
      | InferType (mkNode _ _ (TypeParameterDeclaration _ _ constraint _ _)) =>
          Some (match constraint with Some _ => TYPE_PRECEDENCE_FUNCTION | None => TYPE_PRECEDENCE_TYPE_OPERATOR end)
      | _ => None
      end
  | Kind.IndexedAccessType | Kind.ArrayType | Kind.OptionalType => Some TYPE_PRECEDENCE_POSTFIX
  | Kind.TypeQuery => Some TYPE_PRECEDENCE_TYPE_OPERATOR
  | Kind.AnyKeyword | Kind.UnknownKeyword | Kind.StringKeyword | Kind.NumberKeyword | Kind.BigIntKeyword
  | Kind.SymbolKeyword | Kind.BooleanKeyword | Kind.UndefinedKeyword | Kind.NeverKeyword | Kind.ObjectKeyword
  | Kind.IntrinsicKeyword | Kind.VoidKeyword | Kind.LiteralType | Kind.TypePredicate | Kind.TypeReference
  | Kind.TypeLiteral | Kind.TupleType | Kind.RestType | Kind.ParenthesizedType | Kind.ThisType | Kind.MappedType
  | Kind.NamedTupleMember | Kind.TemplateLiteralType | Kind.ImportType | Kind.PropertyAccessExpression
  | Kind.ExpressionWithTypeArguments => Some TYPE_PRECEDENCE_NON_ARRAY
  | _ => None
  end.
