(* ===== verification/ParserState.v ===== *)
(** * ParserState: the state of the parser and its steps over tokens

    Models the struct [Parser] of ts-parser/src/parser.rs and the methods that move from token to token, report errors,
    finish nodes and look ahead. The scanner is the one of ScannerState.v; [scanner], an option in Rust, is present
    while a text is parsed. Left out are the arena of nodes (a node is a tree here), the interning of identifiers
    (it returns an equal string), and the fields that expressions do not touch: JSDoc, reparsing, the contexts of
    lists and the module indicators. *)
From S2P Require Import Prelude Text Chars SyntaxKind Monad Numerals JsNum Keywords Trivia.
From S2P Require Import ScannerState ScannerOps Scanner RegExp CoreTypes Ast Precedence.

(** The messages the parser itself reports, besides those of the scanner. *)
Inductive DiagnosticMessage : Type :=
  | ScannerMessage (m : Message)
  | KEYWORDS_CANNOT_CONTAIN_ESCAPE_CHARACTERS
  | X_0_EXPECTED
  | IDENTIFIER_EXPECTED
  | EXPRESSION_EXPECTED
  | IDENTIFIER_EXPECTED_0_IS_A_RESERVED_WORD_THAT_CANNOT_BE_USED_HERE
  | PRIVATE_IDENTIFIERS_ARE_NOT_ALLOWED_OUTSIDE_CLASS_BODIES
  | UNICODE_ESCAPE_SEQUENCE_CANNOT_APPEAR_HERE
  | A_TYPE_ASSERTION_EXPRESSION_IS_NOT_ALLOWED_IN_THE_LEFT_HAND_SIDE_OF_AN_EXPONENTIATION_EXPRESSION
  | AN_UNARY_EXPRESSION_WITH_THE_0_OPERATOR_IS_NOT_ALLOWED_IN_THE_LEFT_HAND_SIDE_OF_AN_EXPONENTIATION_EXPRESSION
  | AN_OPTIONAL_CHAIN_CANNOT_CONTAIN_PRIVATE_IDENTIFIERS
  | AN_INSTANTIATION_EXPRESSION_CANNOT_BE_FOLLOWED_BY_A_PROPERTY_ACCESS
  | AN_ELEMENT_ACCESS_EXPRESSION_SHOULD_TAKE_AN_ARGUMENT
  | INVALID_OPTIONAL_CHAIN_FROM_NEW_EXPRESSION_DID_YOU_MEAN_TO_CALL_0
  | X_SUPER_MAY_NOT_USE_TYPE_ARGUMENTS
  | X_SUPER_MUST_BE_FOLLOWED_BY_AN_ARGUMENT_LIST_OR_MEMBER_ACCESS
  | DECLARATION_OR_STATEMENT_EXPECTED
  | X_CASE_OR_DEFAULT_EXPECTED
  | STATEMENT_EXPECTED
  | PROPERTY_OR_SIGNATURE_EXPECTED
  | UNEXPECTED_TOKEN_A_CONSTRUCTOR_METHOD_ACCESSOR_OR_PROPERTY_WAS_EXPECTED
  | ENUM_MEMBER_EXPECTED
  | X_0_IS_NOT_ALLOWED_AS_A_VARIABLE_DECLARATION_NAME
  | VARIABLE_DECLARATION_EXPECTED
  | PROPERTY_DESTRUCTURING_PATTERN_EXPECTED
  | ARRAY_ELEMENT_DESTRUCTURING_PATTERN_EXPECTED
  | ARGUMENT_EXPRESSION_EXPECTED
  | PROPERTY_ASSIGNMENT_EXPECTED
  | EXPRESSION_OR_COMMA_EXPECTED
  | X_0_IS_NOT_ALLOWED_AS_A_PARAMETER_NAME
  | PARAMETER_DECLARATION_EXPECTED
  | TYPE_PARAMETER_DECLARATION_EXPECTED
  | TYPE_ARGUMENT_EXPECTED
  | TYPE_EXPECTED
  | UNEXPECTED_TOKEN_EXPECTED
  | IDENTIFIER_OR_STRING_LITERAL_EXPECTED
  | AN_ENUM_MEMBER_NAME_MUST_BE_FOLLOWED_BY_A_OR
  | PRIVATE_IDENTIFIERS_CANNOT_BE_USED_AS_PARAMETERS
  | NEITHER_DECORATORS_NOR_MODIFIERS_MAY_BE_APPLIED_TO_THIS_PARAMETERS
  | FUNCTION_TYPE_NOTATION_MUST_BE_PARENTHESIZED_WHEN_USED_IN_A_UNION_TYPE
  | FUNCTION_TYPE_NOTATION_MUST_BE_PARENTHESIZED_WHEN_USED_IN_AN_INTERSECTION_TYPE
  | CONSTRUCTOR_TYPE_NOTATION_MUST_BE_PARENTHESIZED_WHEN_USED_IN_A_UNION_TYPE
  | CONSTRUCTOR_TYPE_NOTATION_MUST_BE_PARENTHESIZED_WHEN_USED_IN_AN_INTERSECTION_TYPE
  | IMPORT_ASSERTIONS_HAVE_BEEN_REPLACED_BY_IMPORT_ATTRIBUTES_USE_WITH_INSTEAD_OF_ASSERT
  | OtherMessage (code : Z).

Record Diagnostic := mkParseDiagnostic {
  diagnostic_loc : TextRange;
  diagnostic_message : DiagnosticMessage;
  diagnostic_args : list bytes;
}.

Record Parser := mkParser {
  scanner : Scanner;
  source_text : bytes;
  language_variant : Z;
  diagnostics : list Diagnostic;
  js_diagnostics : list Diagnostic;
  token : Kind;
  source_flags : Z;
  context_flags : Z;
  parsing_contexts : Z;
  statement_has_await_identifier : bool;
  has_parse_error : bool;
  identifier_count : Z;
  not_parenthesized_arrow : list Z;
  reparsed_clones : list Node;
}.

(** ** Field updates *)
Definition set_scanner (v : Scanner) (p : Parser) : Parser :=
  mkParser v (source_text p) (language_variant p) (diagnostics p) (js_diagnostics p) (token p) (source_flags p)
    (context_flags p) (parsing_contexts p) (statement_has_await_identifier p) (has_parse_error p) (identifier_count p) (not_parenthesized_arrow p) (reparsed_clones p).
Definition set_diagnostics (v : list Diagnostic) (p : Parser) : Parser :=
  mkParser (scanner p) (source_text p) (language_variant p) v (js_diagnostics p) (token p) (source_flags p)
    (context_flags p) (parsing_contexts p) (statement_has_await_identifier p) (has_parse_error p) (identifier_count p) (not_parenthesized_arrow p) (reparsed_clones p).
Definition set_js_diagnostics (v : list Diagnostic) (p : Parser) : Parser :=
  mkParser (scanner p) (source_text p) (language_variant p) (diagnostics p) v (token p) (source_flags p)
    (context_flags p) (parsing_contexts p) (statement_has_await_identifier p) (has_parse_error p) (identifier_count p) (not_parenthesized_arrow p) (reparsed_clones p).
Definition set_token (v : Kind) (p : Parser) : Parser :=
  mkParser (scanner p) (source_text p) (language_variant p) (diagnostics p) (js_diagnostics p) v (source_flags p)
    (context_flags p) (parsing_contexts p) (statement_has_await_identifier p) (has_parse_error p) (identifier_count p) (not_parenthesized_arrow p) (reparsed_clones p).
Definition set_source_flags (v : Z) (p : Parser) : Parser :=
  mkParser (scanner p) (source_text p) (language_variant p) (diagnostics p) (js_diagnostics p) (token p) v
    (context_flags p) (parsing_contexts p) (statement_has_await_identifier p) (has_parse_error p) (identifier_count p) (not_parenthesized_arrow p) (reparsed_clones p).
Definition set_context_flags (v : Z) (p : Parser) : Parser :=
  mkParser (scanner p) (source_text p) (language_variant p) (diagnostics p) (js_diagnostics p) (token p) (source_flags p)
    v (parsing_contexts p) (statement_has_await_identifier p) (has_parse_error p) (identifier_count p) (not_parenthesized_arrow p) (reparsed_clones p).
Definition set_parsing_contexts (v : Z) (p : Parser) : Parser :=
  mkParser (scanner p) (source_text p) (language_variant p) (diagnostics p) (js_diagnostics p) (token p) (source_flags p)
    (context_flags p) v (statement_has_await_identifier p) (has_parse_error p) (identifier_count p) (not_parenthesized_arrow p) (reparsed_clones p).
Definition set_statement_has_await_identifier (v : bool) (p : Parser) : Parser :=
  mkParser (scanner p) (source_text p) (language_variant p) (diagnostics p) (js_diagnostics p) (token p) (source_flags p)
    (context_flags p) (parsing_contexts p) v (has_parse_error p) (identifier_count p) (not_parenthesized_arrow p) (reparsed_clones p).
Definition set_has_parse_error (v : bool) (p : Parser) : Parser :=
  mkParser (scanner p) (source_text p) (language_variant p) (diagnostics p) (js_diagnostics p) (token p) (source_flags p)
    (context_flags p) (parsing_contexts p) (statement_has_await_identifier p) v (identifier_count p) (not_parenthesized_arrow p) (reparsed_clones p).
Definition set_identifier_count (v : Z) (p : Parser) : Parser :=
  mkParser (scanner p) (source_text p) (language_variant p) (diagnostics p) (js_diagnostics p) (token p) (source_flags p)
    (context_flags p) (parsing_contexts p) (statement_has_await_identifier p) (has_parse_error p) v (not_parenthesized_arrow p) (reparsed_clones p).
Definition set_not_parenthesized_arrow (v : list Z) (p : Parser) : Parser :=
  mkParser (scanner p) (source_text p) (language_variant p) (diagnostics p) (js_diagnostics p) (token p) (source_flags p)
    (context_flags p) (parsing_contexts p) (statement_has_await_identifier p) (has_parse_error p) (identifier_count p) v (reparsed_clones p).
Definition set_reparsed_clones (v : list Node) (p : Parser) : Parser :=
  mkParser (scanner p) (source_text p) (language_variant p) (diagnostics p) (js_diagnostics p) (token p) (source_flags p)
    (context_flags p) (parsing_contexts p) (statement_has_await_identifier p) (has_parse_error p) (identifier_count p) (not_parenthesized_arrow p) v.

Abbreviation MP := (M Parser).

(** A method of the scanner that the parser owns. *)
Definition on_scanner {A} (m : MS A) : MP A := fun p =>
  match m (scanner p) with
  | Ok (a, s) => Ok (a, set_scanner s p)
  | Panic => Panic
  | OutOfFuel => OutOfFuel
  end.

(** [self.scanner.f()] for a method that only reads. *)
Definition ask {A} (f : Scanner -> A) : MP A := gets (fun p => f (scanner p)).

Definition token_is (k : Kind) : MP bool := t ← gets token; mret (Kind_eqb t k).

(** ** Positions and errors *)
Definition token_full_start (s : Scanner) : Z := as_i32 (Z.of_nat (full_start_pos s)).
Definition token_start (s : Scanner) : Z := as_i32 (Z.of_nat (ScannerState.token_start s)).
Definition token_end (s : Scanner) : Z := as_i32 (Z.of_nat (pos s)).
Definition token_range (s : Scanner) : TextRange := TextRange.new (token_start s) (token_end s).
Definition has_unicode_escape (s : Scanner) : bool :=
  TokenFlags.contains (token_flags s) TokenFlags.UNICODE_ESCAPE.
Definition has_extended_unicode_escape (s : Scanner) : bool :=
  TokenFlags.contains (token_flags s) TokenFlags.EXTENDED_UNICODE_ESCAPE.
Definition has_preceding_line_break : MP bool :=
  ask (fun s => TokenFlags.contains (token_flags s) TokenFlags.PRECEDING_LINE_BREAK).

Definition node_pos : MP Z := ask token_full_start.

Definition parse_error_at_range (loc : TextRange) (message : DiagnosticMessage) (args : list bytes) : MP unit :=
  p ← get;
  let fresh :=
    match last (diagnostics p) with
    | Some d => negb (TextRange.pos (diagnostic_loc d) =? TextRange.pos loc)
    | None => true
    end in
  when fresh (modify (set_diagnostics (diagnostics p ++ [mkParseDiagnostic loc message args]))) ;;
  modify (set_has_parse_error true).

Definition parse_error_at (pos end_ : Z) (message : DiagnosticMessage) (args : list bytes) : MP unit :=
  parse_error_at_range (TextRange.new pos end_) message args.

Definition parse_error_at_current_token (message : DiagnosticMessage) (args : list bytes) : MP unit :=
  range ← ask token_range;
  parse_error_at_range range message args.

(** ** Tokens *)
Fixpoint report_all (ds : list ScannerDiagnostic) : MP unit :=
  match ds with
  | [] => mret tt
  | d :: ds =>
      parse_error_at_range
        (TextRange.new (as_i32 (Z.of_nat (start d))) (as_i32 (Z.of_nat (start d + length_ d))))
        (ScannerMessage (message d)) (args d) ;;
      report_all ds
  end.

Definition drain_scanner_diagnostics : MP unit :=
  ds ← ask ScannerState.diagnostics;
  modify (fun p => set_scanner (put_diagnostics [] (scanner p)) p) ;;
  report_all ds.

Section tokens.
Context `{JsNumber}.

Definition next_token_without_check : MP Kind :=
  token ← on_scanner scan;
  drain_scanner_diagnostics ;;
  modify (set_token token) ;;
  mret token.

Definition is_keyword (k : Kind) : bool := Kind_geb k Kind.BreakKeyword && Kind_geb Kind.DeferKeyword k.

Definition next_token : MP Kind :=
  t ← gets token;
  escaped ← ask (fun s => has_unicode_escape s || has_extended_unicode_escape s);
  when (is_keyword t && escaped)
    (parse_error_at_current_token KEYWORDS_CANNOT_CONTAIN_ESCAPE_CHARACTERS []) ;;
  next_token_without_check.

(** The parser's copies of the scanner's token after it is scanned again. *)
Definition rescan (m : MS Kind) : MP Kind :=
  k ← on_scanner m;
  modify (set_token k) ;;
  mret k.

Definition rescan_less_than_token : MP Kind := rescan Scanner.rescan_less_than_token.
Definition rescan_greater_than_token : MP Kind := rescan Scanner.rescan_greater_than_token.
Definition rescan_slash_token `{SpellingSuggestions} : MP Kind := rescan (RegExp.rescan_slash_token false).
Definition rescan_template_token (is_tagged_template : bool) : MP Kind :=
  rescan (Scanner.rescan_template_token is_tagged_template).

(** ** Nodes *)
Definition finish_node_with_end (node : Node) (pos end_ : Z) : MP Node :=
  p ← get;
  modify (set_has_parse_error false) ;;
  mret (finish_parsed_node_header node (TextRange.new pos end_) (context_flags p) (has_parse_error p)).

Definition finish_node (node : Node) (pos : Z) : MP Node :=
  end_ ← node_pos;
  finish_node_with_end node pos end_.

(** [finish_node!] of a node without flags of its own. *)
Definition finish (d : NodeData) (pos : Z) : MP Node := finish_node (new_node NodeFlags.NONE d) pos.

Definition parse_token_node : MP Node :=
  pos ← node_pos;
  kind ← gets token;
  next_token ;;
  finish (Token kind) pos.

Definition parse_optional (token : Kind) : MP bool :=
  b ← token_is token;
  if b : bool then next_token ;; mret true else mret false.

Definition parse_optional_token (kind : Kind) : MP (option Node) :=
  b ← token_is kind;
  if b : bool then Some <$> parse_token_node else mret None.

Definition parse_expected_with_diagnostic (kind : Kind) (message : option DiagnosticMessage) (should_advance : bool)
    : MP bool :=
  b ← token_is kind;
  if b : bool then when should_advance (next_token ;; mret tt) ;; mret true
  else
    match message with
    | Some message => parse_error_at_current_token message []
    | None => parse_error_at_current_token X_0_EXPECTED [token_to_string kind]
    end ;;
    mret false.

Definition parse_expected (kind : Kind) : MP bool := parse_expected_with_diagnostic kind None true.
Definition parse_expected_without_advancing (kind : Kind) : MP bool := parse_expected_with_diagnostic kind None false.

Definition parse_expected_token (kind : Kind) : MP Node :=
  token ← parse_optional_token kind;
  match token with
  | Some token => mret token
  | None =>
      parse_error_at_current_token X_0_EXPECTED [token_to_string kind] ;;
      pos ← node_pos;
      finish (Token kind) pos
  end.

Definition new_identifier (text : bytes) : MP Node :=
  modify (fun p => set_identifier_count (identifier_count p + 1) p) ;;
  when (bool_decide (text = bstr "await")) (modify (set_statement_has_await_identifier true)) ;;
  mret (new_node NodeFlags.NONE (Identifier text)).

Definition create_missing_identifier : MP Node :=
  id ← new_identifier [];
  pos ← node_pos;
  finish_node id pos.
End tokens.

(** ** Contexts *)
Definition set_context_flags_to (flags : Z) (value : bool) : MP unit :=
  modify (fun p => set_context_flags
    (if value then NodeFlags.add (context_flags p) flags else NodeFlags.remove (context_flags p) flags) p).

Definition in_context (flag : Z) : MP bool := gets (fun p => NodeFlags.has (context_flags p) flag).
Definition in_yield_context : MP bool := in_context NodeFlags.YIELD_CONTEXT.
Definition in_disallow_in_context : MP bool := in_context NodeFlags.DISALLOW_IN_CONTEXT.
Definition in_decorator_context : MP bool := in_context NodeFlags.DECORATOR_CONTEXT.
Definition in_await_context : MP bool := in_context NodeFlags.AWAIT_CONTEXT.

Definition do_in_context {A} (flags : Z) (value : bool) (f : MP A) : MP A :=
  save ← gets context_flags;
  set_context_flags_to flags value ;;
  result ← f;
  modify (set_context_flags save) ;;
  mret result.

(** ** Speculation *)
Record ParserState := mkParserState {
  scanner_state : ScannerState;
  ps_context_flags : Z;
  diagnostics_len : nat;
  js_diagnostics_len : nat;
  reparsed_clones_len : nat;
  ps_statement_has_await_identifier : bool;
  ps_has_parse_error : bool;
}.

Definition mark (p : Parser) : ParserState :=
  {| scanner_state := ScannerState.mark (scanner p);
     ps_context_flags := context_flags p;
     diagnostics_len := length (diagnostics p);
     js_diagnostics_len := length (js_diagnostics p);
     reparsed_clones_len := length (reparsed_clones p);
     ps_statement_has_await_identifier := statement_has_await_identifier p;
     ps_has_parse_error := has_parse_error p |}.

Definition rewind (state : ParserState) (p : Parser) : Parser :=
  let s := ScannerState.rewind (scanner_state state) (scanner p) in
  {| scanner := s;
     source_text := source_text p;
     language_variant := language_variant p;
     diagnostics := take (diagnostics_len state) (diagnostics p);
     js_diagnostics := take (js_diagnostics_len state) (js_diagnostics p);
     token := ScannerState.token s;
     source_flags := source_flags p;
     context_flags := ps_context_flags state;
     parsing_contexts := parsing_contexts p;
     statement_has_await_identifier := ps_statement_has_await_identifier state;
     has_parse_error := ps_has_parse_error state;
     identifier_count := identifier_count p;
     not_parenthesized_arrow := not_parenthesized_arrow p;
     reparsed_clones := take (reparsed_clones_len state) (reparsed_clones p) |}.

Definition look_ahead {A} (callback : MP A) : MP A :=
  state ← gets mark;
  result ← callback;
  modify (rewind state) ;;
  mret result.
