(* ===== verification/ExprParser.v ===== *)
(** * ExprParser: unary, binary, conditional and assignment expressions (ts-parser/src/parser.rs)

    The operands (left-hand side expressions), types, JSX and arrow functions are behind the interface
    [ExpressionParts]; MemberParser.v implements the first. The functions of the source that call each other take [fuel];
    every call with less of it comes after a token was consumed. *)
From S2P Require Import Prelude Text Chars SyntaxKind Monad JsNum Keywords.
From S2P Require Import ScannerState RegExp CoreTypes Ast Precedence ParserState.

(** What the parser of operators asks of the rest of the parser. *)
Class ExpressionParts := {
  parse_left_hand_side_expression_or_higher : MP Node;
  parse_type : MP Node;
  parse_jsx_element_or_self_closing_element_or_fragment :
    forall (in_expression_context : bool) (top_invalid_node_position : Z) (opening_tag : option Node)
      (must_be_unary : bool), MP Node;
  check_js_syntax : Node -> MP Node;
  try_parse_parenthesized_arrow_function_expression : bool -> MP (option Node);
  try_parse_async_simple_arrow_function_expression : bool -> MP (option Node);
  (** without an [async] modifier *)
  parse_simple_arrow_function_expression : forall (pos : Z) (identifier : Node) (allow_return_type : bool), MP Node;
}.

Definition out_of_fuel {A} : MP A := fun _ => OutOfFuel.

(** ** Looking ahead *)
Section lookahead.
Context `{JsNumber}.

Definition next_token_is_identifier_or_keyword_or_literal_on_same_line : MP bool :=
  t ← next_token;
  line_break ← has_preceding_line_break;
  mret ((token_is_identifier_or_keyword t || Kind_eqb t Kind.NumericLiteral || Kind_eqb t Kind.BigIntLiteral
         || Kind_eqb t Kind.StringLiteral) && negb line_break).

Definition next_token_is_identifier_or_keyword_or_greater_than : MP bool :=
  t ← next_token;
  mret (token_is_identifier_or_keyword t || Kind_eqb t Kind.GreaterThanToken).

Definition next_token_is_open_paren_or_less_than_or_dot : MP bool :=
  t ← next_token;
  mret (Kind_eqb t Kind.OpenParenToken || Kind_eqb t Kind.LessThanToken || Kind_eqb t Kind.DotToken).

(** [token > LastReservedWord] *)
Definition after_reserved_words (k : Kind) : bool := kind_index Kind.WithKeyword <? kind_index k.

Definition is_identifier : MP bool :=
  t ← gets token;
  if Kind_eqb t Kind.Identifier then mret true
  else
    in_yield ← in_yield_context;
    in_await ← in_await_context;
    if Kind_eqb t Kind.YieldKeyword && in_yield || Kind_eqb t Kind.AwaitKeyword && in_await then mret false
    else mret (after_reserved_words t).

Definition is_binary_operator : MP bool :=
  t ← gets token;
  disallow_in ← in_disallow_in_context;
  mret (if disallow_in && Kind_eqb t Kind.InKeyword then false
        else negb (get_binary_operator_precedence t =? OPERATOR_PRECEDENCE_INVALID)).

Definition is_start_of_left_hand_side_expression : MP bool :=
  t ← gets token;
  match t with
  | Kind.ThisKeyword | Kind.SuperKeyword | Kind.NullKeyword | Kind.TrueKeyword | Kind.FalseKeyword
  | Kind.NumericLiteral | Kind.BigIntLiteral | Kind.StringLiteral | Kind.NoSubstitutionTemplateLiteral
  | Kind.TemplateHead | Kind.OpenParenToken | Kind.OpenBracketToken | Kind.OpenBraceToken | Kind.FunctionKeyword
  | Kind.ClassKeyword | Kind.NewKeyword | Kind.SlashToken | Kind.SlashEqualsToken | Kind.Identifier => mret true
  | Kind.ImportKeyword => look_ahead next_token_is_open_paren_or_less_than_or_dot
  | _ => is_identifier
  end.

Definition is_start_of_expression : MP bool :=
  b ← is_start_of_left_hand_side_expression;
  if b : bool then mret true
  else
    t ← gets token;
    match t with
    | Kind.PlusToken | Kind.MinusToken | Kind.TildeToken | Kind.ExclamationToken | Kind.DeleteKeyword
    | Kind.TypeOfKeyword | Kind.VoidKeyword | Kind.PlusPlusToken | Kind.MinusMinusToken | Kind.LessThanToken
    | Kind.AwaitKeyword | Kind.YieldKeyword | Kind.PrivateIdentifier | Kind.AtToken => mret true
    | _ =>
        operator ← is_binary_operator;
        if operator : bool then mret true else is_identifier
    end.

Definition is_yield_expression : MP bool :=
  t ← gets token;
  if Kind_eqb t Kind.YieldKeyword then
    in_yield ← in_yield_context;
    if in_yield : bool then mret true
    else look_ahead next_token_is_identifier_or_keyword_or_literal_on_same_line
  else mret false.

Definition is_await_expression : MP bool :=
  t ← gets token;
  if Kind_eqb t Kind.AwaitKeyword then
    in_await ← in_await_context;
    if in_await : bool then mret true
    else look_ahead next_token_is_identifier_or_keyword_or_literal_on_same_line
  else mret false.
End lookahead.

Section expressions.
Context `{JsNumber} `{ExpressionParts}.

(** ** Unary expressions *)
Definition is_jsx : MP bool := gets (fun p => language_variant p =? LANGUAGE_VARIANT_JSX).

Definition is_update_expression : MP bool :=
  t ← gets token;
  match t with
  | Kind.PlusToken | Kind.MinusToken | Kind.TildeToken | Kind.ExclamationToken | Kind.DeleteKeyword
  | Kind.TypeOfKeyword | Kind.VoidKeyword | Kind.AwaitKeyword => mret false
  | Kind.LessThanToken => is_jsx
  | _ => mret true
  end.

Definition is_increment (t : Kind) : bool := Kind_eqb t Kind.PlusPlusToken || Kind_eqb t Kind.MinusMinusToken.

Definition parse_update_expression : MP Node :=
  pos ← node_pos;
  operator ← gets token;
  if is_increment operator then
    next_token ;;
    operand ← parse_left_hand_side_expression_or_higher;
    finish (PrefixUnaryExpression operator operand) pos
  else
    jsx ← is_jsx;
    jsx_element ← (if jsx && Kind_eqb operator Kind.LessThanToken
                   then look_ahead next_token_is_identifier_or_keyword_or_greater_than else mret false);
    if jsx_element : bool then parse_jsx_element_or_self_closing_element_or_fragment true (-1) None false
    else
      expression ← parse_left_hand_side_expression_or_higher;
      line_break ← has_preceding_line_break;
      operator ← gets token;
      if negb line_break && is_increment operator then
        next_token ;;
        finish (PostfixUnaryExpression expression operator) pos
      else mret expression.

(** [delete], [void], [await], [typeof] and the prefix operators: a token and an operand. *)
Definition parse_prefixed (operand : MP Node) (d : Kind -> Node -> NodeData) : MP Node :=
  pos ← node_pos;
  operator ← gets token;
  next_token ;;
  expression ← operand;
  finish (d operator expression) pos.

Definition parse_prefix_unary_expression (operand : MP Node) : MP Node := parse_prefixed operand PrefixUnaryExpression.
Definition parse_delete_expression (operand : MP Node) : MP Node := parse_prefixed operand (fun _ => DeleteExpression).
Definition parse_type_of_expression (operand : MP Node) : MP Node := parse_prefixed operand (fun _ => TypeOfExpression).
Definition parse_void_expression (operand : MP Node) : MP Node := parse_prefixed operand (fun _ => VoidExpression).
Definition parse_await_expression (operand : MP Node) : MP Node := parse_prefixed operand (fun _ => AwaitExpression).

Definition parse_type_assertion (operand : MP Node) : MP Node :=
  jsx ← is_jsx;
  if jsx : bool then panic
  else
    pos ← node_pos;
    parse_expected Kind.LessThanToken ;;
    type_node ← parse_type;
    parse_expected Kind.GreaterThanToken ;;
    expression ← operand;
    finish (TypeAssertion type_node expression) pos.

Fixpoint parse_simple_unary_expression (fuel : nat) : MP Node :=
  match fuel with
  | O => out_of_fuel
  | S fuel =>
      let operand := parse_simple_unary_expression fuel in
      t ← gets token;
      match t with
      | Kind.PlusToken | Kind.MinusToken | Kind.TildeToken | Kind.ExclamationToken => parse_prefix_unary_expression operand
      | Kind.DeleteKeyword => parse_delete_expression operand
      | Kind.TypeOfKeyword => parse_type_of_expression operand
      | Kind.VoidKeyword => parse_void_expression operand
      | Kind.LessThanToken =>
          jsx ← is_jsx;
          if jsx : bool then parse_jsx_element_or_self_closing_element_or_fragment true (-1) None true
          else parse_type_assertion operand
      | Kind.AwaitKeyword =>
          await ← is_await_expression;
          if await : bool then parse_await_expression operand else parse_update_expression
      | _ => parse_update_expression
      end
  end.

(** The error of a unary expression to the left of [**]. *)
Definition report_unary_base (unary_operator : Kind) (e : Node) : MP unit :=
  source_text ← gets source_text;
  pos ← unwrap (Trivia.skip_trivia source_text (Z.to_nat (TextRange.pos (loc e))));
  let pos := as_i32 (Z.of_nat pos) in
  let end_ := TextRange.end_ (loc e) in
  if Kind_eqb (kind e) Kind.TypeAssertionExpression then
    parse_error_at pos end_
      A_TYPE_ASSERTION_EXPRESSION_IS_NOT_ALLOWED_IN_THE_LEFT_HAND_SIDE_OF_AN_EXPONENTIATION_EXPRESSION []
  else
    parse_error_at pos end_
      AN_UNARY_EXPRESSION_WITH_THE_0_OPERATOR_IS_NOT_ALLOWED_IN_THE_LEFT_HAND_SIDE_OF_AN_EXPONENTIATION_EXPRESSION
      [token_to_string unary_operator].

(** [parse_unary_expression_or_higher], given [parse_binary_expression_rest] for the operators [**]. *)
Definition unary_expression_or_higher (rest : Z -> Node -> Z -> MP Node) (fuel : nat) : MP Node :=
  update ← is_update_expression;
  if update : bool then
    pos ← node_pos;
    update_expression ← parse_update_expression;
    t ← gets token;
    if Kind_eqb t Kind.AsteriskAsteriskToken then rest (get_binary_operator_precedence t) update_expression pos
    else mret update_expression
  else
    unary_operator ← gets token;
    simple_unary_expression ← parse_simple_unary_expression fuel;
    t ← gets token;
    when (Kind_eqb t Kind.AsteriskAsteriskToken) (report_unary_base unary_operator simple_unary_expression) ;;
    mret simple_unary_expression.

(** ** Binary expressions *)
Definition make_satisfies_expression (expression type_node : Node) : MP Node :=
  e ← finish (SatisfiesExpression expression type_node) (TextRange.pos (loc expression));
  check_js_syntax e.

Definition make_as_expression (left right : Node) : MP Node :=
  e ← finish (AsExpression left right) (TextRange.pos (loc left));
  check_js_syntax e.

Definition make_binary_expression (left operator_token right : Node) (pos : Z) : MP Node :=
  finish (BinaryExpression left operator_token right) pos.

(** [parse_binary_expression_or_higher], given the loop. *)
Definition binary_expression_or_higher (rest : Z -> Node -> Z -> MP Node) (fuel : nat) (precedence : Z) : MP Node :=
  pos ← node_pos;
  left_operand ← unary_expression_or_higher rest fuel;
  rest precedence left_operand pos.

Definition consumes (t : Kind) (precedence : Z) : bool :=
  if Kind_eqb t Kind.AsteriskAsteriskToken then precedence <=? get_binary_operator_precedence t
  else precedence <? get_binary_operator_precedence t.

Fixpoint parse_binary_expression_rest (fuel : nat) (precedence : Z) (left_operand : Node) (pos : Z) : MP Node :=
  match fuel with
  | O => out_of_fuel
  | S fuel =>
      let rest := parse_binary_expression_rest fuel in
      t ← rescan_greater_than_token;
      let new_precedence := get_binary_operator_precedence t in
      disallow_in ← in_disallow_in_context;
      if negb (consumes t precedence) then mret left_operand
      else if Kind_eqb t Kind.InKeyword && disallow_in then mret left_operand
      else if Kind_eqb t Kind.AsKeyword || Kind_eqb t Kind.SatisfiesKeyword then
        line_break ← has_preceding_line_break;
        if line_break : bool then mret left_operand
        else
          next_token ;;
          type_node ← parse_type;
          left_operand ← (if Kind_eqb t Kind.SatisfiesKeyword then make_satisfies_expression left_operand type_node
                          else make_as_expression left_operand type_node);
          rest precedence left_operand pos
      else
        operator_token ← parse_token_node;
        right ← binary_expression_or_higher rest fuel new_precedence;
        left_operand ← make_binary_expression left_operand operator_token right pos;
        rest precedence left_operand pos
  end.

Definition parse_unary_expression_or_higher (fuel : nat) : MP Node :=
  unary_expression_or_higher (parse_binary_expression_rest fuel) fuel.

Definition parse_binary_expression_or_higher (fuel : nat) (precedence : Z) : MP Node :=
  binary_expression_or_higher (parse_binary_expression_rest fuel) fuel precedence.

(** ** Conditional and assignment expressions *)

(** [parse_conditional_expression_rest], given [parse_assignment_expression_or_higher_worker]. *)
Definition parse_conditional_expression_rest (assignment : bool -> MP Node) (left_operand : Node) (pos : Z)
    (allow_return_type_in_arrow_function : bool) : MP Node :=
  question_token ← parse_optional_token Kind.QuestionToken;
  match question_token with
  | None => mret left_operand
  | Some question_token =>
      save_context_flags ← gets context_flags;
      set_context_flags_to NodeFlags.DISALLOW_IN_CONTEXT false ;;
      true_expression ← assignment false;
      modify (set_context_flags save_context_flags) ;;
      colon_token ← parse_expected_token Kind.ColonToken;
      false_expression ← (if node_is_present colon_token then assignment allow_return_type_in_arrow_function
                          else create_missing_identifier);
      finish (ConditionalExpression left_operand question_token true_expression colon_token false_expression) pos
  end.

Definition parse_yield_expression (assignment : bool -> MP Node) : MP Node :=
  pos ← node_pos;
  next_token ;;
  line_break ← has_preceding_line_break;
  asterisk ← token_is Kind.AsteriskToken;
  operand ← (if line_break : bool then mret false
             else if asterisk : bool then mret true
             else is_start_of_expression);
  if operand : bool then
    asterisk_token ← parse_optional_token Kind.AsteriskToken;
    expression ← assignment true;
    finish (YieldExpression asterisk_token (Some expression)) pos
  else finish (YieldExpression None None) pos.

Fixpoint parse_assignment_expression_or_higher_worker (fuel : nat) (allow_return_type_in_arrow_function : bool)
    : MP Node :=
  match fuel with
  | O => out_of_fuel
  | S fuel =>
      let assignment := parse_assignment_expression_or_higher_worker fuel in
      pos ← node_pos;
      yield ← is_yield_expression;
      if yield : bool then parse_yield_expression assignment
      else
        arrow ← try_parse_parenthesized_arrow_function_expression allow_return_type_in_arrow_function;
        match arrow with
        | Some arrow_expression => mret arrow_expression
        | None =>
            arrow ← try_parse_async_simple_arrow_function_expression allow_return_type_in_arrow_function;
            match arrow with
            | Some arrow_expression => mret arrow_expression
            | None =>
                expr ← parse_binary_expression_or_higher fuel OPERATOR_PRECEDENCE_LOWEST;
                t ← gets token;
                if Kind_eqb (kind expr) Kind.Identifier && Kind_eqb t Kind.EqualsGreaterThanToken
                then parse_simple_arrow_function_expression pos expr allow_return_type_in_arrow_function
                else
                  operator ← (if is_left_hand_side_expression expr
                              then Some <$> rescan_greater_than_token else mret None);
                  if match operator with Some t => is_assignment_operator t | None => false end then
                    operator_token ← parse_token_node;
                    right ← assignment allow_return_type_in_arrow_function;
                    make_binary_expression expr operator_token right pos
                  else parse_conditional_expression_rest assignment expr pos allow_return_type_in_arrow_function
            end
        end
  end.

Definition parse_assignment_expression_or_higher (fuel : nat) : MP Node :=
  parse_assignment_expression_or_higher_worker fuel true.

Definition parse_conditional_expression_or_higher (fuel : nat) : MP Node :=
  pos ← node_pos;
  left_operand ← parse_binary_expression_or_higher fuel OPERATOR_PRECEDENCE_LOWEST;
  parse_conditional_expression_rest (parse_assignment_expression_or_higher_worker fuel) left_operand pos true.

(** ** Comma expressions *)
Definition comma_iteration (assignment : MP Node) (pos : Z) (expr : Node) : MP (Node + Node) :=
  operator_token ← parse_optional_token Kind.CommaToken;
  match operator_token with
  | None => mret (inr expr)
  | Some operator_token =>
      right ← assignment;
      inl <$> make_binary_expression expr operator_token right pos
  end.

Definition parse_expression (fuel : nat) : MP Node :=
  save_context_flags ← gets context_flags;
  modify (fun p => set_context_flags (NodeFlags.remove (context_flags p) NodeFlags.DECORATOR_CONTEXT) p) ;;
  pos ← node_pos;
  expr ← parse_assignment_expression_or_higher fuel;
  expr ← iter fuel (comma_iteration (parse_assignment_expression_or_higher fuel) pos) expr;
  modify (set_context_flags save_context_flags) ;;
  mret expr.

Definition parse_expression_allow_in (fuel : nat) : MP Node :=
  do_in_context NodeFlags.DISALLOW_IN_CONTEXT false (parse_expression fuel).
End expressions.
