(* ===== verification/ListParser.v ===== *)
(** * ListParser: lists of elements and recovery from errors in them (ts-parser/src/parser.rs)

    A list is parsed element by element; where no element starts, the contexts that enclose the list decide
    whether it ends or the token is skipped. What starts a statement, a member or a type is behind the interface
    [ListStarts], which NameParser.v implements. *)
From S2P Require Import Prelude Text Chars SyntaxKind Monad JsNum Keywords.
From S2P Require Import ScannerState RegExp CoreTypes Ast Precedence ParserState ExprParser.

Inductive ParsingContext : Type :=
  | PCSourceElements | PCBlockStatements | PCSwitchClauses | PCSwitchClauseStatements | PCTypeMembers
  | PCClassMembers | PCEnumMembers | PCHeritageClauseElement | PCVariableDeclarations | PCObjectBindingElements
  | PCArrayBindingElements | PCArgumentExpressions | PCObjectLiteralMembers | PCJsxAttributes | PCJsxChildren
  | PCArrayLiteralMembers | PCParameters | PCRestProperties | PCTypeParameters | PCTypeArguments
  | PCTupleElementTypes | PCHeritageClauses | PCImportOrExportSpecifiers | PCImportAttributes.

#[global] Instance ParsingContext_eq_dec : EqDecision ParsingContext.
Proof. solve_decision. Defined.

(** In the order of the discriminants, without [PCCount]. *)
Definition all_contexts : list ParsingContext :=
  [PCSourceElements; PCBlockStatements; PCSwitchClauses; PCSwitchClauseStatements; PCTypeMembers;
   PCClassMembers; PCEnumMembers; PCHeritageClauseElement; PCVariableDeclarations; PCObjectBindingElements;
   PCArrayBindingElements; PCArgumentExpressions; PCObjectLiteralMembers; PCJsxAttributes; PCJsxChildren;
   PCArrayLiteralMembers; PCParameters; PCRestProperties; PCTypeParameters; PCTypeArguments;
   PCTupleElementTypes; PCHeritageClauses; PCImportOrExportSpecifiers; PCImportAttributes].

(** [kind as i32] *)
Definition context_index (c : ParsingContext) : Z :=
  match c with
  | PCSourceElements => 0 | PCBlockStatements => 1 | PCSwitchClauses => 2 | PCSwitchClauseStatements => 3
  | PCTypeMembers => 4 | PCClassMembers => 5 | PCEnumMembers => 6 | PCHeritageClauseElement => 7
  | PCVariableDeclarations => 8 | PCObjectBindingElements => 9 | PCArrayBindingElements => 10
  | PCArgumentExpressions => 11 | PCObjectLiteralMembers => 12 | PCJsxAttributes => 13 | PCJsxChildren => 14
  | PCArrayLiteralMembers => 15 | PCParameters => 16 | PCRestProperties => 17 | PCTypeParameters => 18
  | PCTypeArguments => 19 | PCTupleElementTypes => 20 | PCHeritageClauses => 21
  | PCImportOrExportSpecifiers => 22 | PCImportAttributes => 23
  end.

Class ListStarts := {
  is_start_of_statement : MP bool;
  scan_type_member_start : MP bool;
  scan_class_member_start : MP bool;
  is_start_of_type : forall in_start_of_parameter : bool, MP bool;
}.

Section lists.
Context `{JsNumber} `{ListStarts}.

(** ** What may start an element *)
Definition token_in (ks : list Kind) : MP bool :=
  t ← gets token; mret (existsb (Kind_eqb t) ks).

(** [a || b] where both may move the parser. *)
Definition or_else (a b : MP bool) : MP bool := x ← a; if x : bool then mret true else b.
Definition and_then (a b : MP bool) : MP bool := x ← a; if x : bool then b else mret false.
Definition not_ (a : MP bool) : MP bool := negb <$> a.

Definition is_modifier_kind (k : Kind) : bool :=
  match k with
  | Kind.AbstractKeyword | Kind.AccessorKeyword | Kind.AsyncKeyword | Kind.ConstKeyword | Kind.DeclareKeyword
  | Kind.DefaultKeyword | Kind.ExportKeyword | Kind.InKeyword | Kind.PrivateKeyword | Kind.ProtectedKeyword
  | Kind.PublicKeyword | Kind.ReadonlyKeyword | Kind.OutKeyword | Kind.OverrideKeyword | Kind.StaticKeyword => true
  | _ => false
  end.

Definition next_token_is (k : Kind) : MP bool := t ← next_token; mret (Kind_eqb t k).
Definition next_token_is_slash : MP bool := next_token_is Kind.SlashToken.
Definition next_token_is_token_string_literal : MP bool := next_token_is Kind.StringLiteral.

Definition is_binding_identifier : MP bool :=
  t ← gets token; mret (Kind_eqb t Kind.Identifier || after_reserved_words t).

Definition is_binding_identifier_or_private_identifier_or_pattern : MP bool :=
  or_else (token_in [Kind.OpenBraceToken; Kind.OpenBracketToken; Kind.PrivateIdentifier]) is_binding_identifier.

Definition is_import_attribute_name : MP bool :=
  t ← gets token; mret (token_is_identifier_or_keyword t || Kind_eqb t Kind.StringLiteral).

Definition is_literal_property_name : MP bool :=
  t ← gets token;
  mret (token_is_identifier_or_keyword t || Kind_eqb t Kind.StringLiteral || Kind_eqb t Kind.NumericLiteral
        || Kind_eqb t Kind.BigIntLiteral).

(** [is_start_of_parameter], given [is_start_of_type]. *)
Definition start_of_parameter (start_of_type : bool -> MP bool) : MP bool :=
  or_else (token_is Kind.DotDotDotToken)
    (or_else is_binding_identifier_or_private_identifier_or_pattern
      (t ← gets token;
       if is_modifier_kind t || Kind_eqb t Kind.AtToken then mret true else start_of_type true)).
Definition is_start_of_parameter : MP bool := start_of_parameter is_start_of_type.

Definition next_is_valid_heritage_clause_object_literal : MP bool :=
  t ← next_token;
  if Kind_eqb t Kind.CloseBraceToken then
    next ← next_token;
    mret (Kind_eqb next Kind.CommaToken || Kind_eqb next Kind.OpenBraceToken || Kind_eqb next Kind.ExtendsKeyword
          || Kind_eqb next Kind.ImplementsKeyword)
  else mret true.

Definition is_valid_heritage_clause_object_literal : MP bool := look_ahead next_is_valid_heritage_clause_object_literal.
Definition is_heritage_clause : MP bool := token_in [Kind.ExtendsKeyword; Kind.ImplementsKeyword].
Definition next_is_start_of_expression : MP bool := next_token ;; is_start_of_expression.
Definition is_heritage_clause_extends_or_implements_keyword : MP bool :=
  and_then is_heritage_clause (look_ahead next_is_start_of_expression).

Definition can_parse_semicolon : MP bool :=
  or_else (token_in [Kind.SemicolonToken; Kind.CloseBraceToken; Kind.EndOfFile]) has_preceding_line_break.

Definition try_parse_semicolon : MP bool :=
  can ← can_parse_semicolon;
  if can : bool then
    semicolon ← token_is Kind.SemicolonToken;
    when semicolon (next_token ;; mret tt) ;;
    mret true
  else mret false.

Definition parse_semicolon : MP bool := or_else try_parse_semicolon (parse_expected Kind.SemicolonToken).

Definition is_list_element (parsing_context : ParsingContext) (in_error_recovery : bool) : MP bool :=
  match parsing_context with
  | PCSourceElements | PCBlockStatements | PCSwitchClauseStatements =>
      semicolon ← token_is Kind.SemicolonToken;
      if semicolon && in_error_recovery then mret false else is_start_of_statement
  | PCSwitchClauses => token_in [Kind.CaseKeyword; Kind.DefaultKeyword]
  | PCTypeMembers => look_ahead scan_type_member_start
  | PCClassMembers =>
      or_else (look_ahead scan_class_member_start)
        (semicolon ← token_is Kind.SemicolonToken; mret (semicolon && negb in_error_recovery))
  | PCEnumMembers => or_else (token_is Kind.OpenBracketToken) is_literal_property_name
  | PCObjectLiteralMembers =>
      or_else (token_in [Kind.OpenBracketToken; Kind.AsteriskToken; Kind.DotDotDotToken; Kind.DotToken])
        is_literal_property_name
  | PCRestProperties => is_literal_property_name
  | PCObjectBindingElements =>
      or_else (token_in [Kind.OpenBracketToken; Kind.DotDotDotToken]) is_literal_property_name
  | PCImportAttributes => is_import_attribute_name
  | PCHeritageClauseElement =>
      brace ← token_is Kind.OpenBraceToken;
      if brace : bool then is_valid_heritage_clause_object_literal
      else if negb in_error_recovery then
        and_then is_start_of_left_hand_side_expression (not_ is_heritage_clause_extends_or_implements_keyword)
      else and_then is_identifier (not_ is_heritage_clause_extends_or_implements_keyword)
  | PCVariableDeclarations => is_binding_identifier_or_private_identifier_or_pattern
  | PCArrayBindingElements =>
      or_else (token_in [Kind.CommaToken; Kind.DotDotDotToken]) is_binding_identifier_or_private_identifier_or_pattern
  | PCTypeParameters => or_else (token_in [Kind.InKeyword; Kind.ConstKeyword]) is_identifier
  | PCArrayLiteralMembers =>
      or_else (token_in [Kind.CommaToken; Kind.DotToken]) (or_else (token_is Kind.DotDotDotToken) is_start_of_expression)
  | PCArgumentExpressions => or_else (token_is Kind.DotDotDotToken) is_start_of_expression
  | PCParameters => is_start_of_parameter
  | PCTypeArguments | PCTupleElementTypes => or_else (token_is Kind.CommaToken) (is_start_of_type false)
  | PCHeritageClauses => is_heritage_clause
  | PCImportOrExportSpecifiers =>
      from ← and_then (token_is Kind.FromKeyword) (look_ahead next_token_is_token_string_literal);
      if from : bool then mret false
      else or_else (token_is Kind.StringLiteral) (t ← gets token; mret (token_is_identifier_or_keyword t))
  | PCJsxAttributes =>
      t ← gets token; mret (token_is_identifier_or_keyword t || Kind_eqb t Kind.OpenBraceToken)
  | PCJsxChildren => mret true
  end.

(** ** What ends a list *)
Definition is_list_terminator (kind : ParsingContext) : MP bool :=
  eof ← token_is Kind.EndOfFile;
  if eof : bool then mret true
  else
    match kind with
    | PCBlockStatements | PCSwitchClauses | PCTypeMembers | PCClassMembers | PCEnumMembers | PCObjectLiteralMembers
    | PCObjectBindingElements | PCImportOrExportSpecifiers | PCImportAttributes => token_is Kind.CloseBraceToken
    | PCSwitchClauseStatements => token_in [Kind.CloseBraceToken; Kind.CaseKeyword; Kind.DefaultKeyword]
    | PCHeritageClauseElement => token_in [Kind.OpenBraceToken; Kind.ExtendsKeyword; Kind.ImplementsKeyword]
    | PCVariableDeclarations =>
        or_else can_parse_semicolon (token_in [Kind.InKeyword; Kind.OfKeyword; Kind.EqualsGreaterThanToken])
    | PCTypeParameters =>
        token_in [Kind.GreaterThanToken; Kind.OpenParenToken; Kind.OpenBraceToken; Kind.ExtendsKeyword;
                  Kind.ImplementsKeyword]
    | PCArgumentExpressions => token_in [Kind.CloseParenToken; Kind.SemicolonToken]
    | PCArrayLiteralMembers | PCTupleElementTypes | PCArrayBindingElements => token_is Kind.CloseBracketToken
    | PCParameters | PCRestProperties => token_in [Kind.CloseParenToken; Kind.CloseBracketToken]
    | PCTypeArguments => not_ (token_is Kind.CommaToken)
    | PCHeritageClauses => token_in [Kind.OpenBraceToken; Kind.CloseBraceToken]
    | PCJsxAttributes => token_in [Kind.GreaterThanToken; Kind.SlashToken]
    | PCJsxChildren => and_then (token_is Kind.LessThanToken) (look_ahead next_token_is_slash)
    | PCSourceElements => mret false
    end.

Fixpoint some_context (parsing_contexts : Z) (cs : list ParsingContext) : MP bool :=
  match cs with
  | [] => mret false
  | c :: cs =>
      here ← (if NodeFlags.has parsing_contexts (Z.shiftl 1 (context_index c))
              then or_else (is_list_element c true) (is_list_terminator c) else mret false);
      if here : bool then mret true else some_context parsing_contexts cs
  end.

Definition is_in_some_parsing_context : MP bool :=
  contexts ← gets parsing_contexts;
  if contexts =? 0 then panic else some_context contexts all_contexts.

(** ** Errors *)
Definition error_here (message : DiagnosticMessage) : MP unit := parse_error_at_current_token message [].

Definition parsing_context_errors (context : ParsingContext) : MP unit :=
  t ← gets token;
  match context with
  | PCSourceElements =>
      if Kind_eqb t Kind.DefaultKeyword then parse_error_at_current_token X_0_EXPECTED [bstr "export"]
      else error_here DECLARATION_OR_STATEMENT_EXPECTED
  | PCBlockStatements => error_here DECLARATION_OR_STATEMENT_EXPECTED
  | PCSwitchClauses => error_here X_CASE_OR_DEFAULT_EXPECTED
  | PCSwitchClauseStatements => error_here STATEMENT_EXPECTED
  | PCRestProperties | PCTypeMembers => error_here PROPERTY_OR_SIGNATURE_EXPECTED
  | PCClassMembers => error_here UNEXPECTED_TOKEN_A_CONSTRUCTOR_METHOD_ACCESSOR_OR_PROPERTY_WAS_EXPECTED
  | PCEnumMembers => error_here ENUM_MEMBER_EXPECTED
  | PCHeritageClauseElement => error_here EXPRESSION_EXPECTED
  | PCVariableDeclarations =>
      if is_keyword t
      then parse_error_at_current_token X_0_IS_NOT_ALLOWED_AS_A_VARIABLE_DECLARATION_NAME [token_to_string t]
      else error_here VARIABLE_DECLARATION_EXPECTED
  | PCObjectBindingElements => error_here PROPERTY_DESTRUCTURING_PATTERN_EXPECTED
  | PCArrayBindingElements => error_here ARRAY_ELEMENT_DESTRUCTURING_PATTERN_EXPECTED
  | PCArgumentExpressions => error_here ARGUMENT_EXPRESSION_EXPECTED
  | PCObjectLiteralMembers => error_here PROPERTY_ASSIGNMENT_EXPECTED
  | PCArrayLiteralMembers => error_here EXPRESSION_OR_COMMA_EXPECTED
  | PCParameters =>
      if is_keyword t then parse_error_at_current_token X_0_IS_NOT_ALLOWED_AS_A_PARAMETER_NAME [token_to_string t]
      else error_here PARAMETER_DECLARATION_EXPECTED
  | PCTypeParameters => error_here TYPE_PARAMETER_DECLARATION_EXPECTED
  | PCTypeArguments => error_here TYPE_ARGUMENT_EXPECTED
  | PCTupleElementTypes => error_here TYPE_EXPECTED
  | PCHeritageClauses => error_here UNEXPECTED_TOKEN_EXPECTED
  | PCImportOrExportSpecifiers =>
      if Kind_eqb t Kind.FromKeyword then parse_error_at_current_token X_0_EXPECTED [bstr "}"]
      else error_here IDENTIFIER_EXPECTED
  | PCJsxAttributes | PCJsxChildren => error_here IDENTIFIER_EXPECTED
  | PCImportAttributes => error_here IDENTIFIER_OR_STRING_LITERAL_EXPECTED
  end.

Definition abort_parsing_list_or_move_to_next_token (kind : ParsingContext) : MP bool :=
  parsing_context_errors kind ;;
  some ← is_in_some_parsing_context;
  if some : bool then mret true else next_token ;; mret false.

(** ** Lists without separators *)

(** One iteration over the elements read so far. The reparsed elements of JavaScript files are left out. *)
Definition list_iteration (kind : ParsingContext) (parse_element : Z -> MP Node) (nodes : list Node)
    : MP (list Node + list Node) :=
  terminator ← is_list_terminator kind;
  if terminator : bool then mret (inr nodes)
  else
    element ← is_list_element kind false;
    if element : bool then
      elt ← parse_element (as_i32 (Z.of_nat (length nodes)));
      mret (inl (nodes ++ [elt]))
    else
      abort ← abort_parsing_list_or_move_to_next_token kind;
      mret (if abort : bool then inr nodes else inl nodes).

Definition parse_list_index (fuel : nat) (kind : ParsingContext) (parse_element : Z -> MP Node) : MP (list Node) :=
  save_parsing_contexts ← gets parsing_contexts;
  modify (set_parsing_contexts (Z.lor save_parsing_contexts (Z.shiftl 1 (context_index kind)))) ;;
  nodes ← iter fuel (list_iteration kind parse_element) [];
  modify (set_parsing_contexts save_parsing_contexts) ;;
  mret nodes.

Definition parse_list (fuel : nat) (kind : ParsingContext) (parse_element : MP Node) : MP NodeList :=
  pos ← node_pos;
  nodes ← parse_list_index fuel kind (fun _ => parse_element);
  end_ ← node_pos;
  mret (mkNodeList (TextRange.new pos end_) nodes false false).

(** ** Delimited lists *)
Record ListLocals := mkListLocals { elements : list Node; comma_start : Z }.

(** One iteration over the elements read so far and [comma_start]: [None] is an element that could not be parsed. *)
Definition delimited_list_iteration (kind : ParsingContext) (parse_element : MP (option Node)) (l : ListLocals)
    : MP (ListLocals + option ListLocals) :=
  element ← is_list_element kind false;
  if element : bool then
    start_pos ← node_pos;
    e ← parse_element;
    match e with
    | None => mret (inr None)
    | Some e =>
        let read := elements l ++ [e] in
        comma ← ask token_start;
        found ← parse_optional Kind.CommaToken;
        if found : bool then mret (inl (mkListLocals read comma))
        else
          terminator ← is_list_terminator kind;
          if terminator : bool then mret (inr (Some (mkListLocals read (-1))))
          else
            t ← gets token;
            (if negb (Kind_eqb t Kind.CommaToken) && bool_decide (kind = PCEnumMembers)
             then error_here AN_ENUM_MEMBER_NAME_MUST_BE_FOLLOWED_BY_A_OR
             else parse_expected Kind.CommaToken ;; mret tt) ;;
            t ← gets token;
            line_break ← has_preceding_line_break;
            comma ←
              (if (bool_decide (kind = PCObjectLiteralMembers) || bool_decide (kind = PCImportAttributes))
                  && Kind_eqb t Kind.SemicolonToken && negb line_break
               then start ← ask token_start; next_token ;; mret start else mret (-1));
            now ← node_pos;
            when (start_pos =? now) (next_token ;; mret tt) ;;
            mret (inl (mkListLocals read comma))
    end
  else
    terminator ← is_list_terminator kind;
    if terminator : bool then mret (inr (Some l))
    else
      abort ← abort_parsing_list_or_move_to_next_token kind;
      mret (if abort : bool then inr (Some l) else inl l).

Definition parse_delimited_list_opt (fuel : nat) (kind : ParsingContext) (parse_element : MP (option Node))
    : MP (option NodeList) :=
  pos ← node_pos;
  save_parsing_contexts ← gets parsing_contexts;
  modify (set_parsing_contexts (Z.lor save_parsing_contexts (Z.shiftl 1 (context_index kind)))) ;;
  l ← iter fuel (delimited_list_iteration kind parse_element) (mkListLocals [] (-1));
  modify (set_parsing_contexts save_parsing_contexts) ;;
  match l with
  | None => mret None
  | Some l =>
      end_ ← node_pos;
      let has_trailing_comma :=
        (0 <=? comma_start l)
        || match last (elements l) with Some e => TextRange.end_ (loc e) <? end_ | None => false end in
      mret (Some (mkNodeList (TextRange.new pos end_) (elements l) has_trailing_comma false))
  end.

Definition parse_delimited_list (fuel : nat) (kind : ParsingContext) (parse_element : MP Node) : MP NodeList :=
  l ← parse_delimited_list_opt fuel kind (Some <$> parse_element);
  unwrap l.

Definition create_missing_list : MP NodeList :=
  pos ← node_pos;
  mret (mkNodeList (TextRange.new pos pos) [] false true).

Definition parse_bracketed_list (fuel : nat) (kind : ParsingContext) (parse_element : MP Node) (opening closing : Kind)
    : MP NodeList :=
  opened ← parse_expected opening;
  if opened : bool then
    result ← parse_delimited_list fuel kind parse_element;
    parse_expected closing ;;
    mret result
  else create_missing_list.

Definition parse_empty_node_list : MP NodeList :=
  pos ← node_pos;
  mret (mkNodeList (TextRange.new pos pos) [] false false).

(** The related information that points to the opening bracket is left out. *)
Definition parse_expected_matching_brackets (close_kind : Kind) : MP unit :=
  closed ← token_is close_kind;
  if closed : bool then next_token ;; mret tt
  else parse_error_at_current_token X_0_EXPECTED [token_to_string close_kind].
End lists.
