(* ===== verification/MemberParser.v ===== *)
(** * MemberParser: primary, member, call and template expressions (ts-parser/src/parser.rs)

    The operands of ExprParser.v. Types, JSX, functions, classes and object literals are behind the interface
    [PrimaryParts], which FunctionParser.v implements; the expressions nested in operands are the variables of the section,
    and [expression_parts] at the end ties the knot, one level of nesting for each unit of fuel. Interned texts are equal
    texts, parent links are left out. *)
From S2P Require Import Prelude Text Chars SyntaxKind Monad JsNum Keywords.
From S2P Require Import ScannerState ScannerOps RegExp CoreTypes Ast Precedence ParserState ExprParser ListParser.

(** The rest of the parser. *)
Class PrimaryParts := {
  type_ : MP Node;
  jsx_element : bool -> Z -> option Node -> bool -> MP Node;
  js_syntax : Node -> MP Node;
  parse_object_literal_expression : MP Node;
  parse_function_expression : MP Node;
  parse_class_expression : MP Node;
  parse_decorated_expression : MP Node;
  parse_parenthesized_arrow_function_expression : forall allow_ambiguity allow_return_type : bool, MP Node;
  (** with the optional modifiers last *)
  simple_arrow_function : Z -> Node -> bool -> option NodeList -> MP Node;
}.

Section members.
Context `{JsNumber} `{SpellingSuggestions} `{ListStarts} `{PrimaryParts}.

(** ** Identifiers and literals *)
Definition is_reserved_word (t : Kind) : bool := Kind_geb t Kind.BreakKeyword && Kind_geb Kind.WithKeyword t.

(** An error at the start of the end of the file, or at the current token. *)
Definition error_at_token_or_end (message : DiagnosticMessage) (args : list bytes) : MP unit :=
  eof ← token_is Kind.EndOfFile;
  if eof : bool then pos ← node_pos; parse_error_at pos pos message args
  else parse_error_at_current_token message args.

Definition accept_identifier : MP Node :=
  pos ← node_pos;
  text ← on_scanner token_value;
  next_token_without_check ;;
  id ← new_identifier text;
  finish_node id pos.

Definition create_identifier_with_diagnostic (is_identifier : bool)
    (diagnostic_message private_identifier_diagnostic_message : option DiagnosticMessage) : MP Node :=
  if is_identifier then accept_identifier
  else
    t ← gets token;
    if Kind_eqb t Kind.PrivateIdentifier then
      parse_error_at_current_token
        (default PRIVATE_IDENTIFIERS_ARE_NOT_ALLOWED_OUTSIDE_CLASS_BODIES private_identifier_diagnostic_message) [] ;;
      accept_identifier
    else
      match diagnostic_message with
      | Some message => error_at_token_or_end message []
      | None =>
          if is_reserved_word t then
            text ← on_scanner token_text;
            error_at_token_or_end IDENTIFIER_EXPECTED_0_IS_A_RESERVED_WORD_THAT_CANNOT_BE_USED_HERE [text]
          else error_at_token_or_end IDENTIFIER_EXPECTED []
      end ;;
      create_missing_identifier.

Definition create_identifier (is_identifier : bool) : MP Node := create_identifier_with_diagnostic is_identifier None None.

Definition parse_identifier_with_diagnostic (diagnostic private_diagnostic : option DiagnosticMessage) : MP Node :=
  b ← is_identifier;
  create_identifier_with_diagnostic b diagnostic private_diagnostic.
Definition parse_identifier : MP Node := parse_identifier_with_diagnostic None None.

Definition parse_identifier_name_with_diagnostic (diagnostic_message : option DiagnosticMessage) : MP Node :=
  t ← gets token;
  create_identifier_with_diagnostic (token_is_identifier_or_keyword t) diagnostic_message None.
Definition parse_identifier_name : MP Node := parse_identifier_name_with_diagnostic None.

Definition parse_identifier_name_error_on_unicode_escape_sequence : MP Node :=
  escaped ← ask (fun s => has_unicode_escape s || has_extended_unicode_escape s);
  when escaped (parse_error_at_current_token UNICODE_ESCAPE_SEQUENCE_CANNOT_APPEAR_HERE []) ;;
  t ← gets token;
  create_identifier (token_is_identifier_or_keyword t).

Definition parse_private_identifier : MP Node :=
  pos ← node_pos;
  text ← on_scanner token_value;
  next_token ;;
  finish (PrivateIdentifier text) pos.

Definition is_literal_kind (t : Kind) : bool :=
  match t with
  | Kind.StringLiteral | Kind.NumericLiteral | Kind.BigIntLiteral | Kind.RegularExpressionLiteral
  | Kind.NoSubstitutionTemplateLiteral => true
  | _ => false
  end.

Definition parse_literal_expression : MP Node :=
  pos ← node_pos;
  text ← on_scanner token_value;
  token_flags ← ask token_flags;
  t ← gets token;
  if is_literal_kind t then
    next_token ;;
    finish (Literal t text token_flags) pos
  else panic.

Definition parse_keyword_expression : MP Node :=
  pos ← node_pos;
  t ← gets token;
  next_token ;;
  finish (KeywordExpression t) pos.

Definition next_token_is_identifier_or_keyword_on_same_line : MP bool :=
  t ← next_token;
  line_break ← has_preceding_line_break;
  mret (token_is_identifier_or_keyword t && negb line_break).

Definition missing_name : MP Node :=
  pos ← node_pos;
  parse_error_at pos pos IDENTIFIER_EXPECTED [] ;;
  create_missing_identifier.

Definition parse_right_side_of_dot (allow_identifier_names allow_private_identifiers
    allow_unicode_escape_sequence_in_identifier_name : bool) : MP Node :=
  line_break ← has_preceding_line_break;
  t ← gets token;
  other_line ← (if line_break && token_is_identifier_or_keyword t
                then look_ahead next_token_is_identifier_or_keyword_on_same_line else mret false);
  if other_line : bool then missing_name
  else if Kind_eqb t Kind.PrivateIdentifier then
    node ← parse_private_identifier;
    if allow_private_identifiers then mret node else missing_name
  else if allow_identifier_names then
    if allow_unicode_escape_sequence_in_identifier_name then parse_identifier_name
    else parse_identifier_name_error_on_unicode_escape_sequence
  else
    save ← gets statement_has_await_identifier;
    id ← parse_identifier;
    modify (set_statement_has_await_identifier save) ;;
    mret id.

(** ** Templates *)
Context (parse_expression : MP Node) (assignment : bool -> MP Node) (binary : MP Node) (fuel : nat).

Definition allow_in (m : MP Node) : MP Node := do_in_context NodeFlags.DISALLOW_IN_CONTEXT false m.

(** [token_text[1..token_text.len().saturating_sub(end_length)]] *)
Definition get_template_literal_raw_text (end_length : nat) : MP bytes :=
  token_text ← on_scanner token_text;
  unterminated ← ask (fun s => TokenFlags.intersects (token_flags s) TokenFlags.UNTERMINATED);
  let end_length := if unterminated : bool then 0%nat else end_length in
  unwrap (slice token_text 1 (length token_text - end_length)).

(** [ast::TokenFlags::IS_INVALID] *)
Definition IS_INVALID : Z :=
  fold_right Z.lor 0 [TokenFlags.OCTAL; TokenFlags.CONTAINS_LEADING_ZERO; TokenFlags.CONTAINS_INVALID_SEPARATOR;
    TokenFlags.CONTAINS_INVALID_ESCAPE].

Definition token_is_invalid : MP bool := ask (fun s => TokenFlags.intersects (token_flags s) IS_INVALID).

Definition template_part (kind : Kind) (end_length : nat) : MP Node :=
  pos ← node_pos;
  text ← on_scanner token_value;
  raw_text ← get_template_literal_raw_text end_length;
  token_flags ← ask token_flags;
  next_token ;;
  finish (TemplatePart kind text raw_text token_flags) pos.

Definition parse_template_head (is_tagged_template : bool) : MP Node :=
  invalid ← token_is_invalid;
  when (negb is_tagged_template && invalid) (rescan_template_token false ;; mret tt) ;;
  template_part Kind.TemplateHead 2.

Definition parse_template_middle_or_tail : MP Node :=
  middle ← token_is Kind.TemplateMiddle;
  if middle : bool then template_part Kind.TemplateMiddle 2 else template_part Kind.TemplateTail 1.

Definition parse_literal_of_template_span (is_tagged_template : bool) : MP Node :=
  brace ← token_is Kind.CloseBraceToken;
  if brace : bool then rescan_template_token is_tagged_template ;; parse_template_middle_or_tail
  else
    parse_error_at_current_token X_0_EXPECTED [token_to_string Kind.CloseBraceToken] ;;
    pos ← node_pos;
    finish (TemplatePart Kind.TemplateTail [] [] TokenFlags.NONE) pos.

Definition parse_template_span (is_tagged_template : bool) : MP Node :=
  pos ← node_pos;
  expression ← allow_in parse_expression;
  literal ← parse_literal_of_template_span is_tagged_template;
  finish (TemplateSpan expression literal) pos.

Definition span_is_middle (span : Node) : bool :=
  match data span with TemplateSpan _ literal => Kind_eqb (kind literal) Kind.TemplateMiddle | _ => false end.

Definition template_spans_iteration (is_tagged_template : bool) (l : list Node) : MP (list Node + list Node) :=
  span ← parse_template_span is_tagged_template;
  mret (if span_is_middle span then inl (l ++ [span]) else inr (l ++ [span])).

Definition parse_template_spans (is_tagged_template : bool) : MP NodeList :=
  pos ← node_pos;
  l ← iter fuel (template_spans_iteration is_tagged_template) [];
  end_ ← node_pos;
  mret (mkNodeList (TextRange.new pos end_) l false false).

Definition parse_template_expression (is_tagged_template : bool) : MP Node :=
  pos ← node_pos;
  head ← parse_template_head is_tagged_template;
  spans ← parse_template_spans is_tagged_template;
  finish (TemplateExpression head spans) pos.

Definition optional_chain_flag (is_optional_chain : bool) : Z :=
  if is_optional_chain then NodeFlags.OPTIONAL_CHAIN else NodeFlags.NONE.

Definition finish_chain (is_optional_chain : bool) (d : NodeData) (pos : Z) : MP Node :=
  finish_node (new_node (optional_chain_flag is_optional_chain) d) pos.

Definition in_optional_chain (n : Node) : bool := NodeFlags.has (flags n) NodeFlags.OPTIONAL_CHAIN.

Definition parse_tagged_template_rest (pos : Z) (tag : Node) (question_dot_token : option Node)
    (type_arguments : option NodeList) : MP Node :=
  simple ← token_is Kind.NoSubstitutionTemplateLiteral;
  template ← (if simple : bool then rescan_template_token true ;; parse_literal_expression
              else parse_template_expression true);
  let is_optional_chain := bool_decide (is_Some question_dot_token) || in_optional_chain tag in
  tagged ← finish_chain is_optional_chain
             (TaggedTemplateExpression tag question_dot_token type_arguments template) pos;
  js_syntax tagged.

Definition is_template_start_of_tagged_template : MP bool :=
  token_in [Kind.NoSubstitutionTemplateLiteral; Kind.TemplateHead].

(** ** Lists of expressions *)
Definition parse_spread_element : MP Node :=
  pos ← node_pos;
  parse_expected Kind.DotDotDotToken ;;
  expression ← assignment true;
  finish (SpreadElement expression) pos.

Definition parse_argument_or_array_literal_element : MP Node :=
  t ← gets token;
  match t with
  | Kind.DotDotDotToken => parse_spread_element
  | Kind.CommaToken => pos ← node_pos; finish OmittedExpression pos
  | _ => assignment true
  end.

Definition parse_array_literal_expression : MP Node :=
  pos ← node_pos;
  parse_expected Kind.OpenBracketToken ;;
  multi_line ← has_preceding_line_break;
  elements ← parse_delimited_list fuel PCArrayLiteralMembers parse_argument_or_array_literal_element;
  parse_expected_matching_brackets Kind.CloseBracketToken ;;
  finish (ArrayLiteralExpression elements multi_line) pos.

Definition parse_argument_expression : MP Node :=
  do_in_context (Z.lor NodeFlags.DISALLOW_IN_CONTEXT NodeFlags.DECORATOR_CONTEXT) false
    parse_argument_or_array_literal_element.

Definition parse_argument_list : MP NodeList :=
  parse_bracketed_list fuel PCArgumentExpressions parse_argument_expression Kind.OpenParenToken Kind.CloseParenToken.

(** ** Type arguments in expressions *)
Definition can_follow_type_arguments_in_expression : MP bool :=
  t ← gets token;
  match t with
  | Kind.OpenParenToken | Kind.NoSubstitutionTemplateLiteral | Kind.TemplateHead => mret true
  | Kind.LessThanToken | Kind.GreaterThanToken | Kind.PlusToken | Kind.MinusToken => mret false
  | _ => or_else has_preceding_line_break (or_else is_binary_operator (not_ is_start_of_expression))
  end.

(** [None] after which the parser is rewound. *)
Definition type_arguments_attempt : MP (option NodeList) :=
  javascript ← in_context NodeFlags.JAVASCRIPT_FILE;
  if javascript : bool then mret None
  else
    t ← rescan_less_than_token;
    if Kind_eqb t Kind.LessThanToken then
      next_token ;;
      type_arguments ← parse_delimited_list fuel PCTypeArguments type_;
      t ← rescan_greater_than_token;
      if Kind_eqb t Kind.GreaterThanToken then
        next_token ;;
        follows ← can_follow_type_arguments_in_expression;
        mret (if follows : bool then Some type_arguments else None)
      else mret None
    else mret None.

Definition try_parse_type_arguments_in_expression : MP (option NodeList) :=
  state ← gets mark;
  type_arguments ← type_arguments_attempt;
  match type_arguments with
  | Some type_arguments => mret (Some type_arguments)
  | None => modify (rewind state) ;; mret None
  end.

(** ** Optional chains *)

(** The loop over non-null expressions: is the expression under them in an optional chain? *)
Fixpoint non_null_chain (n : Node) : bool :=
  match n with
  | mkNode _ f (NonNullExpression e) => NodeFlags.has f NodeFlags.OPTIONAL_CHAIN || non_null_chain e
  | mkNode _ f _ => NodeFlags.has f NodeFlags.OPTIONAL_CHAIN
  end.

Fixpoint mark_non_null_optional_chain (n : Node) : Node :=
  match n with
  | mkNode l f (NonNullExpression e) =>
      mkNode l (NodeFlags.add f NodeFlags.OPTIONAL_CHAIN) (NonNullExpression (mark_non_null_optional_chain e))
  | _ => n
  end.

(** The result with the expression, whose flags are set in place. *)
Definition try_reparse_optional_chain (node : Node) : bool * Node :=
  if in_optional_chain node then (true, node)
  else
    match data node with
    | NonNullExpression e => if non_null_chain e then (true, mark_non_null_optional_chain node) else (false, node)
    | _ => (false, node)
    end.

(** [question_dot_token.is_some() || self.try_reparse_optional_chain(&mut expression)] *)
Definition optional_chain (question_dot_token : option Node) (expression : Node) : bool * Node :=
  match question_dot_token with
  | Some _ => (true, expression)
  | None => try_reparse_optional_chain expression
  end.

(** ** Member and call expressions *)
Definition skip_range_trivia (text_range : TextRange) : MP TextRange :=
  source_text ← gets source_text;
  pos ← unwrap (Trivia.skip_trivia source_text (Z.to_nat (TextRange.pos text_range)));
  mret (TextRange.new (as_i32 (Z.of_nat pos)) (TextRange.end_ text_range)).

Definition parse_property_access_expression_rest (pos : Z) (expression : Node) (question_dot_token : option Node)
    : MP Node :=
  name ← parse_right_side_of_dot true true true;
  let '(is_optional_chain, expression) := optional_chain question_dot_token expression in
  when (is_optional_chain && Kind_eqb (kind name) Kind.PrivateIdentifier)
    (range ← skip_range_trivia (loc name);
     parse_error_at_range range AN_OPTIONAL_CHAIN_CANNOT_CONTAIN_PRIVATE_IDENTIFIERS []) ;;
  match data expression with
  | ExpressionWithTypeArguments _ (Some (mkNodeList l _ _ _)) =>
      source_text ← gets source_text;
      end_ ← unwrap (Trivia.skip_trivia source_text (Z.to_nat (TextRange.end_ l)));
      parse_error_at_range (TextRange.new (TextRange.pos l - 1) (as_i32 (Z.of_nat end_) + 1))
        AN_INSTANTIATION_EXPRESSION_CANNOT_BE_FOLLOWED_BY_A_PROPERTY_ACCESS []
  | _ => mret tt
  end ;;
  finish_chain is_optional_chain (PropertyAccessExpression expression question_dot_token name) pos.

Definition parse_element_access_expression_rest (pos : Z) (expression : Node) (question_dot_token : option Node)
    : MP Node :=
  empty ← token_is Kind.CloseBracketToken;
  argument_expression ←
    (if empty : bool then
       p ← node_pos;
       parse_error_at p p AN_ELEMENT_ACCESS_EXPRESSION_SHOULD_TAKE_AN_ARGUMENT [] ;;
       create_missing_identifier
     else allow_in parse_expression);
  parse_expected Kind.CloseBracketToken ;;
  let '(is_optional_chain, expression) := optional_chain question_dot_token expression in
  finish_chain is_optional_chain (ElementAccessExpression expression question_dot_token argument_expression) pos.

Definition next_token_is_identifier_or_keyword_or_open_bracket_or_template : MP bool :=
  t ← next_token;
  template ← is_template_start_of_tagged_template;
  mret (token_is_identifier_or_keyword t || Kind_eqb t Kind.OpenBracketToken || template).

Definition is_start_of_optional_property_or_element_access_chain : MP bool :=
  and_then (token_is Kind.QuestionDotToken)
    (look_ahead next_token_is_identifier_or_keyword_or_open_bracket_or_template).

(** One iteration of [parse_member_expression_rest]: [inl] goes on with an expression. *)
Definition member_iteration (pos : Z) (allow_optional_chain : bool) (expression : Node) : MP (Node + Node) :=
  chain ← (if allow_optional_chain then is_start_of_optional_property_or_element_access_chain else mret false);
  question_dot_token ←
    (if chain : bool then Some <$> parse_expected_token Kind.QuestionDotToken else mret None);
  t ← gets token;
  is_property_access ←
    (if chain : bool then mret (token_is_identifier_or_keyword t) else parse_optional Kind.DotToken);
  if is_property_access : bool then inl <$> parse_property_access_expression_rest pos expression question_dot_token
  else
    decorator ← in_decorator_context;
    is_element_access ←
      (if bool_decide (is_Some question_dot_token) || negb decorator then parse_optional Kind.OpenBracketToken
       else mret false);
    if is_element_access : bool then inl <$> parse_element_access_expression_rest pos expression question_dot_token
    else
      template ← is_template_start_of_tagged_template;
      if template : bool then
        inl <$>
          match question_dot_token, data expression with
          | None, ExpressionWithTypeArguments e type_arguments =>
              parse_tagged_template_rest pos e question_dot_token type_arguments
          | _, _ => parse_tagged_template_rest pos expression question_dot_token None
          end
      else
        match question_dot_token with
        | Some _ => mret (inr expression)
        | None =>
            t ← gets token;
            line_break ← has_preceding_line_break;
            if Kind_eqb t Kind.ExclamationToken && negb line_break then
              next_token ;;
              non_null ← finish (NonNullExpression expression) pos;
              inl <$> js_syntax non_null
            else
              type_arguments ← try_parse_type_arguments_in_expression;
              match type_arguments with
              | Some type_arguments => inl <$> finish (ExpressionWithTypeArguments expression (Some type_arguments)) pos
              | None => mret (inr expression)
              end
        end.

Definition parse_member_expression_rest (pos : Z) (expression : Node) (allow_optional_chain : bool) : MP Node :=
  iter fuel (member_iteration pos allow_optional_chain) expression.

(** A call: the arguments of [expression], whose own type arguments become those of the call. *)
Definition parse_call_rest (pos : Z) (expression : Node) (question_dot_token : option Node)
    (type_arguments : option NodeList) : MP Node :=
  let '(expression, type_arguments) :=
    match question_dot_token, data expression with
    | None, ExpressionWithTypeArguments e type_arguments => (e, type_arguments)
    | _, _ => (expression, type_arguments)
    end in
  argument_list ← parse_argument_list;
  let '(is_optional_chain, expression) := optional_chain question_dot_token expression in
  call ← finish_chain is_optional_chain
           (CallExpression expression question_dot_token type_arguments argument_list) pos;
  js_syntax call.

Definition call_iteration (pos : Z) (expression : Node) : MP (Node + Node) :=
  expression ← parse_member_expression_rest pos expression true;
  question_dot_token ← parse_optional_token Kind.QuestionDotToken;
  type_arguments ←
    (if bool_decide (is_Some question_dot_token) then try_parse_type_arguments_in_expression else mret None);
  template ← is_template_start_of_tagged_template;
  if bool_decide (is_Some question_dot_token) && template then
    inl <$> parse_tagged_template_rest pos expression question_dot_token type_arguments
  else
    paren ← token_is Kind.OpenParenToken;
    if bool_decide (is_Some type_arguments) || paren then
      inl <$> parse_call_rest pos expression question_dot_token type_arguments
    else
      match question_dot_token with
      | Some question_dot_token =>
          parse_error_at_current_token IDENTIFIER_EXPECTED [] ;;
          name ← create_missing_identifier;
          inr <$> finish_chain true (PropertyAccessExpression expression (Some question_dot_token) name) pos
      | None => mret (inr expression)
      end.

Definition parse_call_expression_rest (pos : Z) (expression : Node) : MP Node :=
  iter fuel (call_iteration pos) expression.

(** ** Primary expressions *)
Definition get_text_of_node_from_source_text (source_text : bytes) (text_range : TextRange) (include_trivia : bool)
    : option bytes :=
  if TextRange.pos text_range =? TextRange.end_ text_range then Some []
  else
    let pos := Z.to_nat (TextRange.pos text_range) in
    pos ← (if include_trivia then Some pos else Trivia.skip_trivia source_text pos);
    slice source_text pos (Z.to_nat (TextRange.end_ text_range)).

Definition parse_parenthesized_expression : MP Node :=
  pos ← node_pos;
  parse_expected Kind.OpenParenToken ;;
  expression ← parse_expression;
  parse_expected Kind.CloseParenToken ;;
  finish (ParenthesizedExpression expression) pos.

Definition next_token_is_function_keyword_on_same_line : MP bool :=
  t ← next_token;
  line_break ← has_preceding_line_break;
  mret (Kind_eqb t Kind.FunctionKeyword && negb line_break).

(** [parse_primary_expression], given [parse_new_expression_or_new_dot_target]. *)
Definition primary_expression (new_expression : MP Node) : MP Node :=
  t ← gets token;
  match t with
  | Kind.NoSubstitutionTemplateLiteral =>
      invalid ← token_is_invalid;
      when invalid (rescan_template_token false ;; mret tt) ;;
      parse_literal_expression
  | Kind.OpenParenToken => parse_parenthesized_expression
  | Kind.OpenBracketToken => parse_array_literal_expression
  | Kind.OpenBraceToken => parse_object_literal_expression
  | Kind.AsyncKeyword =>
      is_function ← look_ahead next_token_is_function_keyword_on_same_line;
      if is_function : bool then parse_function_expression
      else parse_identifier_with_diagnostic (Some EXPRESSION_EXPECTED) None
  | Kind.AtToken => parse_decorated_expression
  | Kind.FunctionKeyword => parse_function_expression
  | Kind.ClassKeyword => parse_class_expression
  | Kind.NewKeyword => new_expression
  | Kind.SlashToken | Kind.SlashEqualsToken =>
      t ← rescan_slash_token;
      if Kind_eqb t Kind.RegularExpressionLiteral then parse_literal_expression
      else parse_identifier_with_diagnostic (Some EXPRESSION_EXPECTED) None
  | Kind.TemplateHead => parse_template_expression false
  | Kind.PrivateIdentifier => parse_private_identifier
  | Kind.ThisKeyword | Kind.SuperKeyword | Kind.TrueKeyword | Kind.FalseKeyword | Kind.NullKeyword =>
      parse_keyword_expression
  | Kind.StringLiteral | Kind.NumericLiteral | Kind.BigIntLiteral | Kind.RegularExpressionLiteral =>
      parse_literal_expression
  | _ => parse_identifier_with_diagnostic (Some EXPRESSION_EXPECTED) None
  end.

(** [new] nests without a limit: [new new new C]. *)
Fixpoint parse_new_expression_or_new_dot_target (depth : nat) : MP Node :=
  match depth with
  | O => out_of_fuel
  | S depth =>
      pos ← node_pos;
      parse_expected Kind.NewKeyword ;;
      dot ← parse_optional Kind.DotToken;
      if dot : bool then
        name ← parse_identifier_name;
        finish (MetaProperty Kind.NewKeyword name) pos
      else
        expression_pos ← node_pos;
        primary ← primary_expression (parse_new_expression_or_new_dot_target depth);
        expression ← parse_member_expression_rest expression_pos primary false;
        let '(expression, type_arguments) :=
          match data expression with
          | ExpressionWithTypeArguments e type_arguments => (e, type_arguments)
          | _ => (expression, None)
          end in
        chain ← token_is Kind.QuestionDotToken;
        when chain
          (source_text ← gets source_text;
           text ← unwrap (get_text_of_node_from_source_text source_text (loc expression) false);
           parse_error_at_current_token INVALID_OPTIONAL_CHAIN_FROM_NEW_EXPRESSION_DID_YOU_MEAN_TO_CALL_0 [text]) ;;
        paren ← token_is Kind.OpenParenToken;
        argument_list ← (if paren : bool then Some <$> parse_argument_list else mret None);
        new_expression ← finish (NewExpression expression type_arguments argument_list) pos;
        js_syntax new_expression
  end.

Definition parse_primary_expression : MP Node := primary_expression (parse_new_expression_or_new_dot_target fuel).

Definition parse_member_expression_or_higher : MP Node :=
  pos ← node_pos;
  primary ← parse_primary_expression;
  parse_member_expression_rest pos primary true.

Definition parse_super_expression : MP Node :=
  pos ← node_pos;
  expression ← parse_keyword_expression;
  less ← token_is Kind.LessThanToken;
  expression ←
    (if less : bool then
       start_pos ← node_pos;
       type_arguments ← try_parse_type_arguments_in_expression;
       match type_arguments with
       | None => mret expression
       | Some type_arguments =>
           end_ ← node_pos;
           parse_error_at start_pos end_ X_SUPER_MAY_NOT_USE_TYPE_ARGUMENTS [] ;;
           template ← is_template_start_of_tagged_template;
           if template : bool then mret expression
           else finish (ExpressionWithTypeArguments expression (Some type_arguments)) pos
       end
     else mret expression);
  member ← token_in [Kind.OpenParenToken; Kind.DotToken; Kind.OpenBracketToken];
  if member : bool then mret expression
  else
    parse_error_at_current_token X_SUPER_MUST_BE_FOLLOWED_BY_AN_ARGUMENT_LIST_OR_MEMBER_ACCESS [] ;;
    name ← parse_right_side_of_dot true true true;
    finish (PropertyAccessExpression expression None name) pos.

Definition add_source_flags (f : Z) : MP unit :=
  modify (fun p => set_source_flags (NodeFlags.add (source_flags p) f) p).

Definition next_token_is_open_paren_or_less_than : MP bool :=
  t ← next_token; mret (Kind_eqb t Kind.OpenParenToken || Kind_eqb t Kind.LessThanToken).
Definition next_token_is_dot : MP bool := next_token_is Kind.DotToken.

(** [store.text_eq(node, text)] of a meta property: the text of its name. *)
Definition name_text (name : Node) : bytes :=
  match data name with Identifier text | PrivateIdentifier text => text | _ => [] end.

Definition parse_import_expression (pos : Z) : MP Node :=
  call ← look_ahead next_token_is_open_paren_or_less_than;
  if call : bool then
    add_source_flags NodeFlags.POSSIBLY_CONTAINS_DYNAMIC_IMPORT ;;
    parse_keyword_expression
  else
    dot ← look_ahead next_token_is_dot;
    if dot : bool then
      next_token ;;
      next_token ;;
      name ← parse_identifier_name;
      expression ← finish (MetaProperty Kind.ImportKeyword name) pos;
      (if bool_decide (name_text name = bstr "defer") then
         paren ← token_in [Kind.OpenParenToken; Kind.LessThanToken];
         when paren (add_source_flags NodeFlags.POSSIBLY_CONTAINS_DYNAMIC_IMPORT)
       else add_source_flags NodeFlags.POSSIBLY_CONTAINS_IMPORT_META) ;;
      mret expression
    else parse_member_expression_or_higher.

Definition left_hand_side_expression_or_higher : MP Node :=
  pos ← node_pos;
  t ← gets token;
  expression ←
    match t with
    | Kind.ImportKeyword => parse_import_expression pos
    | Kind.SuperKeyword => parse_super_expression
    | Kind.NewKeyword => parse_new_expression_or_new_dot_target fuel
    | _ => parse_member_expression_or_higher
    end;
  parse_call_expression_rest pos expression.

(** ** Arrow functions *)
Definition next_token_is_identifier : MP bool := next_token ;; is_identifier.

Definition kind_in (ks : list Kind) (k : Kind) : bool := existsb (Kind_eqb k) ks.

(** The second token after the opening parenthesis and an identifier. *)
Definition next_is_parenthesized_after_identifier : MP Tristate :=
  t ← next_token;
  if Kind_eqb t Kind.ColonToken then mret TSTrue
  else if Kind_eqb t Kind.QuestionToken then
    t ← next_token;
    mret (if kind_in [Kind.ColonToken; Kind.CommaToken; Kind.EqualsToken; Kind.CloseParenToken] t then TSTrue
          else TSFalse)
  else
    mret (if kind_in [Kind.CommaToken; Kind.EqualsToken; Kind.CloseParenToken] t then TSUnknown else TSFalse).

Definition next_is_parenthesized_after_open_paren (second : Kind) : MP Tristate :=
  if Kind_eqb second Kind.CloseParenToken then
    third ← next_token;
    mret (if kind_in [Kind.EqualsGreaterThanToken; Kind.ColonToken; Kind.OpenBraceToken] third then TSTrue
          else TSFalse)
  else if Kind_eqb second Kind.OpenBracketToken || Kind_eqb second Kind.OpenBraceToken then mret TSUnknown
  else if Kind_eqb second Kind.DotDotDotToken then mret TSTrue
  else
    modifier ← (if is_modifier_kind second && negb (Kind_eqb second Kind.AsyncKeyword)
                then look_ahead next_token_is_identifier else mret false);
    if modifier : bool then
      t ← next_token;
      mret (if Kind_eqb t Kind.AsKeyword then TSFalse else TSTrue)
    else
      identifier ← is_identifier;
      if negb identifier && negb (Kind_eqb second Kind.ThisKeyword) then mret TSFalse
      else next_is_parenthesized_after_identifier.

Definition is_arrow_function_in_jsx : MP bool :=
  parse_optional Kind.ConstKeyword ;;
  third ← next_token;
  if Kind_eqb third Kind.ExtendsKeyword then
    fourth ← next_token;
    mret (negb (Kind_eqb fourth Kind.EqualsToken || Kind_eqb fourth Kind.GreaterThanToken
                || Kind_eqb fourth Kind.SlashToken))
  else mret (Kind_eqb third Kind.CommaToken || Kind_eqb third Kind.EqualsToken).

Definition next_is_parenthesized_arrow_function_expression : MP Tristate :=
  async ← token_is Kind.AsyncKeyword;
  not_arrow ←
    (if async : bool then
       t ← next_token;
       line_break ← has_preceding_line_break;
       mret (line_break || negb (Kind_eqb t Kind.OpenParenToken) && negb (Kind_eqb t Kind.LessThanToken))
     else mret false);
  if not_arrow : bool then mret TSFalse
  else
    first ← gets token;
    second ← next_token;
    if Kind_eqb first Kind.OpenParenToken then next_is_parenthesized_after_open_paren second
    else
      identifier ← is_identifier;
      const ← token_is Kind.ConstKeyword;
      if negb identifier && negb const then mret TSFalse
      else
        jsx ← gets (fun p => language_variant p =? LANGUAGE_VARIANT_JSX);
        if jsx : bool then
          arrow ← look_ahead is_arrow_function_in_jsx;
          mret (if arrow : bool then TSTrue else TSFalse)
        else mret TSUnknown.

Definition is_parenthesized_arrow_function_expression : MP Tristate :=
  start ← token_in [Kind.OpenParenToken; Kind.LessThanToken; Kind.AsyncKeyword];
  if start : bool then look_ahead next_is_parenthesized_arrow_function_expression
  else
    arrow ← token_is Kind.EqualsGreaterThanToken;
    mret (if arrow : bool then TSTrue else TSFalse).

Definition parse_possible_parenthesized_arrow_function_expression (allow_return_type_in_arrow_function : bool)
    : MP (option Node) :=
  token_pos ← ask token_start;
  known ← gets (fun p => bool_decide (token_pos ∈ not_parenthesized_arrow p));
  if known : bool then mret None
  else
    result ← parse_parenthesized_arrow_function_expression false allow_return_type_in_arrow_function;
    if node_is_missing result then
      modify (fun p => set_not_parenthesized_arrow (token_pos :: not_parenthesized_arrow p) p) ;;
      mret None
    else mret (Some result).

Definition try_parenthesized_arrow_function (allow_return_type_in_arrow_function : bool) : MP (option Node) :=
  tristate ← is_parenthesized_arrow_function_expression;
  match tristate with
  | TSFalse => mret None
  | TSTrue => Some <$> parse_parenthesized_arrow_function_expression true true
  | TSUnknown =>
      state ← gets mark;
      result ← parse_possible_parenthesized_arrow_function_expression allow_return_type_in_arrow_function;
      match result with
      | Some result => mret (Some result)
      | None => modify (rewind state) ;; mret None
      end
  end.

Definition parse_modifiers_for_arrow_function : MP (option NodeList) :=
  async ← token_is Kind.AsyncKeyword;
  if async : bool then
    pos ← node_pos;
    next_token ;;
    modifier ← finish (Token Kind.AsyncKeyword) pos;
    mret (Some (mkNodeList (loc modifier) [modifier] false false))
  else mret None.

Definition next_is_unparenthesized_async_arrow_function : MP bool :=
  async ← token_is Kind.AsyncKeyword;
  if async : bool then
    t ← next_token;
    line_break ← has_preceding_line_break;
    if line_break || Kind_eqb t Kind.EqualsGreaterThanToken then mret false
    else
      expr ← binary;
      line_break ← has_preceding_line_break;
      arrow ← token_is Kind.EqualsGreaterThanToken;
      mret (negb line_break && Kind_eqb (kind expr) Kind.Identifier && arrow)
  else mret false.

Definition try_async_simple_arrow_function (allow_return_type_in_arrow_function : bool) : MP (option Node) :=
  arrow ← and_then (token_is Kind.AsyncKeyword) (look_ahead next_is_unparenthesized_async_arrow_function);
  if arrow : bool then
    pos ← node_pos;
    async_modifier ← parse_modifiers_for_arrow_function;
    expr ← binary;
    Some <$> simple_arrow_function pos expr allow_return_type_in_arrow_function async_modifier
  else mret None.
End members.

(** ** The knot *)
Section parser.
Context `{JsNumber} `{SpellingSuggestions} `{ListStarts} `{PrimaryParts}.

(** The operands one level up, given those of the expressions nested in them. *)
Definition parts_above (parts : ExpressionParts) (fuel : nat) : ExpressionParts :=
  let binary := @parse_binary_expression_or_higher _ parts fuel OPERATOR_PRECEDENCE_LOWEST in
  {| parse_left_hand_side_expression_or_higher :=
       left_hand_side_expression_or_higher (@ExprParser.parse_expression _ parts fuel)
         (@parse_assignment_expression_or_higher_worker _ parts fuel) fuel;
     parse_type := type_;
     parse_jsx_element_or_self_closing_element_or_fragment := jsx_element;
     check_js_syntax := js_syntax;
     try_parse_parenthesized_arrow_function_expression := try_parenthesized_arrow_function;
     try_parse_async_simple_arrow_function_expression := try_async_simple_arrow_function binary;
     parse_simple_arrow_function_expression := fun pos identifier allow =>
       simple_arrow_function pos identifier allow None |}.

Definition no_parts : ExpressionParts :=
  {| parse_left_hand_side_expression_or_higher := out_of_fuel;
     parse_type := type_;
     parse_jsx_element_or_self_closing_element_or_fragment := jsx_element;
     check_js_syntax := js_syntax;
     try_parse_parenthesized_arrow_function_expression := fun _ => out_of_fuel;
     try_parse_async_simple_arrow_function_expression := fun _ => out_of_fuel;
     parse_simple_arrow_function_expression := fun _ _ _ => out_of_fuel |}.

(** The operands at a depth of nesting below [fuel]. *)
Fixpoint expression_parts (fuel : nat) : ExpressionParts :=
  match fuel with
  | O => no_parts
  | S fuel => parts_above (expression_parts fuel) fuel
  end.

(** [parse_expression] of a text. *)
Definition expression (fuel : nat) : MP Node := @ExprParser.parse_expression _ (expression_parts fuel) fuel.
End parser.
