(* ===== verification/NameParser.v ===== *)
(** * NameParser: what starts a statement, a member or a type; names, patterns, modifiers and parameters
      (ts-parser/src/parser.rs)

    The first section implements the interface [ListStarts] of ListParser.v ([list_starts]). The second one parses the parts
    that types, functions and members share. What is nested in them at a lower level (types, expressions, the operand of a
    decorator) is the class [NestedParts], the blocks of functions and the check of JavaScript files are [RestParts]: the
    part of the parser that is not modelled. *)
From S2P Require Import Prelude Text Chars SyntaxKind Monad JsNum Keywords.
From S2P Require Import ScannerState RegExp CoreTypes Ast Precedence ParserState ExprParser ListParser MemberParser.

(** * What starts an element *)
Section starts.
Context `{JsNumber}.

Definition next_token_is_numeric_or_big_int_literal : MP bool :=
  next_token ;; token_in [Kind.NumericLiteral; Kind.BigIntLiteral].
Definition next_token_is_open_brace : MP bool := next_token_is Kind.OpenBraceToken.
Definition next_token_is_new_keyword : MP bool := next_token_is Kind.NewKeyword.
Definition next_token_is_identifier_on_same_line : MP bool :=
  next_token ;; and_then is_identifier (not_ has_preceding_line_break).
Definition next_token_is_identifier_or_string_literal_on_same_line : MP bool :=
  next_token ;; and_then (or_else is_identifier (token_is Kind.StringLiteral)) (not_ has_preceding_line_break).
Definition next_token_is_class_keyword_on_same_line : MP bool :=
  t ← next_token; line_break ← has_preceding_line_break; mret (Kind_eqb t Kind.ClassKeyword && negb line_break).

(** ** Types *)

(** The arms of [is_start_of_type] that are [true]. *)
Definition type_start_kind (k : Kind) : bool :=
  match k with
  | Kind.AnyKeyword | Kind.UnknownKeyword | Kind.StringKeyword | Kind.NumberKeyword | Kind.BigIntKeyword
  | Kind.BooleanKeyword | Kind.ReadonlyKeyword | Kind.SymbolKeyword | Kind.UniqueKeyword | Kind.VoidKeyword
  | Kind.UndefinedKeyword | Kind.NullKeyword | Kind.ThisKeyword | Kind.TypeOfKeyword | Kind.NeverKeyword
  | Kind.OpenBraceToken | Kind.OpenBracketToken | Kind.LessThanToken | Kind.BarToken | Kind.AmpersandToken
  | Kind.NewKeyword | Kind.StringLiteral | Kind.NumericLiteral | Kind.BigIntLiteral | Kind.TrueKeyword
  | Kind.FalseKeyword | Kind.ObjectKeyword | Kind.AsteriskToken | Kind.QuestionToken | Kind.ExclamationToken
  | Kind.DotDotDotToken | Kind.InferKeyword | Kind.ImportKeyword | Kind.AssertsKeyword
  | Kind.NoSubstitutionTemplateLiteral | Kind.TemplateHead => true
  | _ => false
  end.

(** [is_start_of_type]; parentheses nest without a limit. *)
Fixpoint start_of_type (fuel : nat) (in_start_of_parameter : bool) : MP bool :=
  match fuel with
  | O => out_of_fuel
  | S fuel =>
      t ← gets token;
      if type_start_kind t then mret true
      else
        match t with
        | Kind.FunctionKeyword => mret (negb in_start_of_parameter)
        | Kind.MinusToken =>
            if in_start_of_parameter then mret false else look_ahead next_token_is_numeric_or_big_int_literal
        | Kind.OpenParenToken =>
            if in_start_of_parameter then mret false
            else
              (* next_is_parenthesized_or_function_type *)
              look_ahead
                (next_token ;;
                 or_else (token_is Kind.CloseParenToken)
                   (or_else (start_of_parameter (start_of_type fuel)) (start_of_type fuel false)))
        | _ => is_identifier
        end
  end.

(** ** Declarations and statements *)
Definition next_token_is_equals_or_semicolon_or_colon_token : MP bool :=
  next_token ;; token_in [Kind.EqualsToken; Kind.SemicolonToken; Kind.ColonToken].

Definition next_token_is_binding_identifier_or_start_of_destructuring_on_same_line (disallow_of : bool) : MP bool :=
  next_token ;;
  of_token ← token_is Kind.OfKeyword;
  if disallow_of && of_token then look_ahead next_token_is_equals_or_semicolon_or_colon_token
  else or_else is_binding_identifier (and_then (token_is Kind.OpenBraceToken) (not_ has_preceding_line_break)).

Definition is_using_declaration : MP bool :=
  look_ahead (next_token_is_binding_identifier_or_start_of_destructuring_on_same_line false).

Definition next_is_using_keyword_then_binding_identifier_or_start_of_object_destructuring_on_same_line : MP bool :=
  and_then (next_token_is Kind.UsingKeyword)
    (next_token_is_binding_identifier_or_start_of_destructuring_on_same_line false).
Definition is_await_using_declaration : MP bool :=
  look_ahead next_is_using_keyword_then_binding_identifier_or_start_of_object_destructuring_on_same_line.

(** One round of the loop: [None] goes on. *)
Definition scan_start_of_declaration_iteration (_ : unit) : MP (unit + bool) :=
  let continue_ := mret (inl tt) in
  let return_ (m : MP bool) := inr <$> m in
  t ← gets token;
  match t with
  | Kind.VarKeyword | Kind.LetKeyword | Kind.ConstKeyword | Kind.FunctionKeyword | Kind.ClassKeyword
  | Kind.EnumKeyword => return_ (mret true)
  | Kind.UsingKeyword => return_ is_using_declaration
  | Kind.AwaitKeyword => return_ is_await_using_declaration
  | Kind.InterfaceKeyword | Kind.TypeKeyword | Kind.DeferKeyword => return_ next_token_is_identifier_on_same_line
  | Kind.ModuleKeyword | Kind.NamespaceKeyword => return_ next_token_is_identifier_or_string_literal_on_same_line
  | Kind.AbstractKeyword | Kind.AccessorKeyword | Kind.AsyncKeyword | Kind.DeclareKeyword | Kind.PrivateKeyword
  | Kind.ProtectedKeyword | Kind.PublicKeyword | Kind.ReadonlyKeyword =>
      next_token ;;
      line_break ← has_preceding_line_break;
      if line_break : bool then mret (inr false)
      else
        type_ ← token_is Kind.TypeKeyword;
        if Kind_eqb t Kind.DeclareKeyword && type_ then mret (inr true) else continue_
  | Kind.GlobalKeyword =>
      next_token ;; return_ (token_in [Kind.OpenBraceToken; Kind.Identifier; Kind.ExportKeyword])
  | Kind.ImportKeyword =>
      t ← next_token;
      mret (inr (kind_in [Kind.DeferKeyword; Kind.StringLiteral; Kind.AsteriskToken; Kind.OpenBraceToken] t
                 || token_is_identifier_or_keyword t))
  | Kind.ExportKeyword =>
      t ← next_token;
      if kind_in [Kind.EqualsToken; Kind.AsteriskToken; Kind.OpenBraceToken; Kind.DefaultKeyword; Kind.AsKeyword;
                  Kind.AtToken] t
      then mret (inr true)
      else if Kind_eqb t Kind.TypeKeyword then
        next_token ;;
        return_ (or_else (token_in [Kind.AsteriskToken; Kind.OpenBraceToken])
                   (and_then is_identifier (not_ has_preceding_line_break)))
      else continue_
  | Kind.StaticKeyword => next_token ;; continue_
  | _ => return_ (mret false)
  end.

Definition scan_start_of_declaration (fuel : nat) : MP bool := iter fuel scan_start_of_declaration_iteration tt.
Definition is_start_of_declaration (fuel : nat) : MP bool := look_ahead (scan_start_of_declaration fuel).

Definition statement_start (fuel : nat) : MP bool :=
  t ← gets token;
  match t with
  | Kind.AtToken | Kind.SemicolonToken | Kind.OpenBraceToken | Kind.VarKeyword | Kind.LetKeyword | Kind.UsingKeyword
  | Kind.FunctionKeyword | Kind.ClassKeyword | Kind.EnumKeyword | Kind.IfKeyword | Kind.DoKeyword | Kind.WhileKeyword
  | Kind.ForKeyword | Kind.ContinueKeyword | Kind.BreakKeyword | Kind.ReturnKeyword | Kind.WithKeyword
  | Kind.SwitchKeyword | Kind.ThrowKeyword | Kind.TryKeyword | Kind.DebuggerKeyword | Kind.CatchKeyword
  | Kind.FinallyKeyword => mret true
  | Kind.ImportKeyword =>
      or_else (is_start_of_declaration fuel) (look_ahead next_token_is_open_paren_or_less_than_or_dot)
  | Kind.ConstKeyword | Kind.ExportKeyword => is_start_of_declaration fuel
  | Kind.AsyncKeyword | Kind.DeclareKeyword | Kind.InterfaceKeyword | Kind.ModuleKeyword | Kind.NamespaceKeyword
  | Kind.TypeKeyword | Kind.GlobalKeyword | Kind.DeferKeyword => mret true
  | Kind.AccessorKeyword | Kind.PublicKeyword | Kind.PrivateKeyword | Kind.ProtectedKeyword | Kind.StaticKeyword
  | Kind.ReadonlyKeyword =>
      or_else (is_start_of_declaration fuel)
        (not_ (look_ahead next_token_is_identifier_or_keyword_on_same_line))
  | _ => is_start_of_expression
  end.

(** ** Members *)
Definition modifiers_iteration (id_token : bool) : MP (bool + bool) :=
  t ← gets token;
  if is_modifier_kind t then next_token ;; mret (inl true) else mret (inr id_token).

Definition type_member_start (fuel : nat) : MP bool :=
  start ← token_in [Kind.OpenParenToken; Kind.LessThanToken; Kind.GetKeyword; Kind.SetKeyword];
  if start : bool then mret true
  else
    id_token ← iter fuel modifiers_iteration false;
    bracket ← token_is Kind.OpenBracketToken;
    if bracket : bool then mret true
    else
      name ← is_literal_property_name;
      when name (next_token ;; mret tt) ;;
      if id_token || name then
        or_else
          (token_in [Kind.OpenParenToken; Kind.LessThanToken; Kind.QuestionToken; Kind.ColonToken; Kind.CommaToken])
          can_parse_semicolon
      else mret false.

Definition is_class_member_modifier (k : Kind) : bool :=
  match k with
  | Kind.PublicKeyword | Kind.PrivateKeyword | Kind.ProtectedKeyword | Kind.ReadonlyKeyword | Kind.OverrideKeyword
  | Kind.StaticKeyword | Kind.AccessorKeyword | Kind.DeclareKeyword | Kind.AbstractKeyword | Kind.AsyncKeyword => true
  | _ => false
  end.

(** The loop over modifiers: [None] when one belongs to classes alone. *)
Definition class_modifiers_iteration (id_token : Kind) : MP (Kind + option Kind) :=
  t ← gets token;
  if is_modifier_kind t then
    if is_class_member_modifier t then mret (inr None) else next_token ;; mret (inl t)
  else mret (inr (Some id_token)).

Definition class_member_start (fuel : nat) : MP bool :=
  at_ ← token_is Kind.AtToken;
  if at_ : bool then mret true
  else
    id_token ← iter fuel class_modifiers_iteration Kind.Unknown;
    match id_token with
    | None => mret true
    | Some id_token =>
        asterisk ← token_is Kind.AsteriskToken;
        if asterisk : bool then mret true
        else
          name ← is_literal_property_name;
          id_token ← (if name : bool then t ← gets token; next_token ;; mret t else mret id_token);
          bracket ← token_is Kind.OpenBracketToken;
          if bracket : bool then mret true
          else if Kind_eqb id_token Kind.Unknown then mret false
          else if negb (is_keyword id_token) || Kind_eqb id_token Kind.SetKeyword || Kind_eqb id_token Kind.GetKeyword
          then mret true
          else
            or_else
              (token_in [Kind.OpenParenToken; Kind.LessThanToken; Kind.ExclamationToken; Kind.ColonToken;
                         Kind.EqualsToken; Kind.QuestionToken])
              can_parse_semicolon
    end.

(** The interface of ListParser.v. *)
Definition list_starts (fuel : nat) : ListStarts := {|
  is_start_of_statement := statement_start fuel;
  scan_type_member_start := type_member_start fuel;
  scan_class_member_start := class_member_start fuel;
  is_start_of_type := start_of_type fuel;
|}.
End starts.

(** * Names, patterns, modifiers and parameters *)

(** What is nested one level down. *)
Class NestedParts := {
  nested_type : MP Node;
  nested_expression : MP Node;
  nested_assignment_worker : bool -> MP Node;
  nested_unary : MP Node;
  nested_left_hand_side : MP Node;
  (** the members and calls behind an operand at a position *)
  nested_chain : Z -> Node -> MP Node;
}.

(** [parse_assignment_expression_or_higher] *)
Definition nested_assignment `{NestedParts} : MP Node := nested_assignment_worker true.

(** The rest of the parser. *)
Class RestParts := {
  parse_block : forall (ignore_missing_open_brace : bool) (diagnostic_message : option DiagnosticMessage), MP Node;
  rest_js_syntax : Node -> MP Node;
  rest_jsx_element : bool -> Z -> option Node -> bool -> MP Node;
  parse_class_declaration_or_expression : Z -> option NodeList -> Kind -> MP Node;
}.

Module ParseFlags.
Definition NONE : Z := 0.
Definition YIELD : Z := Z.shiftl 1 0.
Definition AWAIT : Z := Z.shiftl 1 1.
Definition TYPE : Z := Z.shiftl 1 2.
Definition IGNORE_MISSING_OPEN_BRACE : Z := Z.shiftl 1 4.
Definition ARROW_FUNCTION : Z := 0.
(** [flags & f != ParseFlags::NONE] *)
Definition has (flags f : Z) : bool := negb (Z.land flags f =? NONE).
End ParseFlags.

(** Parse, and go back to the mark when that fails. *)
Definition attempt {A} (m : MP (option A)) : MP (option A) :=
  state ← gets mark;
  r ← m;
  match r with
  | Some a => mret (Some a)
  | None => modify (rewind state) ;; mret None
  end.

Section names.
Context `{JsNumber} `{ListStarts} `{NestedParts} `{RestParts} (fuel : nat).

(** ** Modifiers and decorators *)
Definition can_follow_modifier : MP bool :=
  or_else (token_in [Kind.OpenBracketToken; Kind.OpenBraceToken; Kind.AsteriskToken; Kind.DotDotDotToken])
    is_literal_property_name.

Definition can_follow_export_modifier : MP bool :=
  or_else (token_is Kind.AtToken)
    (and_then (not_ (token_in [Kind.AsteriskToken; Kind.AsKeyword; Kind.OpenBraceToken])) can_follow_modifier).

Definition can_follow_get_or_set_keyword : MP bool := or_else (token_is Kind.OpenBracketToken) is_literal_property_name.

Definition next_token_can_follow_export_modifier : MP bool := next_token ;; can_follow_export_modifier.
Definition next_token_is_on_same_line_and_can_follow_modifier : MP bool :=
  next_token ;; and_then (not_ has_preceding_line_break) can_follow_modifier.

Definition next_token_can_follow_default_keyword : MP bool :=
  t ← next_token;
  match t with
  | Kind.ClassKeyword | Kind.FunctionKeyword | Kind.InterfaceKeyword | Kind.AtToken => mret true
  | Kind.AbstractKeyword => look_ahead next_token_is_class_keyword_on_same_line
  | Kind.AsyncKeyword => look_ahead next_token_is_function_keyword_on_same_line
  | _ => mret false
  end.

Definition next_token_can_follow_modifier : MP bool :=
  t ← gets token;
  match t with
  | Kind.ConstKeyword => next_token_is Kind.EnumKeyword
  | Kind.ExportKeyword =>
      t ← next_token;
      match t with
      | Kind.DefaultKeyword => look_ahead next_token_can_follow_default_keyword
      | Kind.TypeKeyword => look_ahead next_token_can_follow_export_modifier
      | _ => can_follow_export_modifier
      end
  | Kind.DefaultKeyword => next_token_can_follow_default_keyword
  | Kind.StaticKeyword => next_token ;; can_follow_modifier
  | Kind.GetKeyword | Kind.SetKeyword => next_token ;; can_follow_get_or_set_keyword
  | _ => next_token_is_on_same_line_and_can_follow_modifier
  end.

(** Read the current token if it is of [kinds] and what follows it says that it is a modifier. *)
Definition contextual_modifier (kinds : Kind -> bool) : MP bool :=
  r ← attempt
        (t ← gets token;
         follows ← (if kinds t then next_token_can_follow_modifier else mret false);
         mret (if follows : bool then Some tt else None));
  mret (bool_decide (is_Some r)).

Definition parse_contextual_modifier (kind : Kind) : MP bool := contextual_modifier (Kind_eqb kind).
Definition parse_any_contextual_modifier : MP bool := contextual_modifier is_modifier_kind.

Definition try_parse_modifier (has_seen_static_modifier permit_const_as_modifier stop_on_start_of_class_static_block : bool)
    : MP (option Node) :=
  pos ← node_pos;
  kind ← gets token;
  let static := Kind_eqb kind Kind.StaticKeyword in
  found ←
    (if Kind_eqb kind Kind.ConstKeyword && permit_const_as_modifier then
       follows ← look_ahead next_token_is_on_same_line_and_can_follow_modifier;
       if follows : bool then next_token ;; mret true else mret false
     else
       block ← (if stop_on_start_of_class_static_block && static then look_ahead next_token_is_open_brace
                else mret false);
       if block : bool then mret false
       else if has_seen_static_modifier && static then mret false
       else parse_any_contextual_modifier);
  if found : bool then Some <$> finish (Token kind) pos else mret None.

Definition parse_decorator_expression : MP Node :=
  in_await ← in_await_context;
  await ← token_is Kind.AwaitKeyword;
  if in_await && await then
    pos ← node_pos;
    await_expression ← parse_identifier_with_diagnostic (Some EXPRESSION_EXPECTED) None;
    next_token ;;
    nested_chain pos await_expression
  else nested_left_hand_side.

Definition parse_decorator : MP Node :=
  pos ← node_pos;
  parse_expected Kind.AtToken ;;
  expression ← do_in_context NodeFlags.DECORATOR_CONTEXT true parse_decorator_expression;
  finish (Decorator expression) pos.

Record ModifierLocals := mkModifierLocals {
  has_leading_modifier : bool;
  has_trailing_decorator : bool;
  has_trailing_modifier : bool;
  has_static_modifier : bool;
  modifier_list : list Node;
}.

Definition modifier_iteration (allow_decorators permit_const_as_modifier stop_on_start_of_class_static_block : bool)
    (l : ModifierLocals) : MP (ModifierLocals + list Node) :=
  at_ ← token_is Kind.AtToken;
  if allow_decorators && at_ && negb (has_trailing_modifier l) then
    decorator ← parse_decorator;
    mret (inl (mkModifierLocals (has_leading_modifier l) (has_leading_modifier l || has_trailing_decorator l)
                 (has_trailing_modifier l) (has_static_modifier l) (modifier_list l ++ [decorator])))
  else
    modifier ← try_parse_modifier (has_static_modifier l) permit_const_as_modifier stop_on_start_of_class_static_block;
    match modifier with
    | Some modifier =>
        let trailing := has_trailing_decorator l in
        mret (inl (mkModifierLocals (negb trailing || has_leading_modifier l) trailing
                     (trailing || has_trailing_modifier l)
                     (Kind_eqb (kind modifier) Kind.StaticKeyword || has_static_modifier l)
                     (modifier_list l ++ [modifier])))
    | None => mret (inr (modifier_list l))
    end.

(** The flags of a list of modifiers, which are derived from its nodes, are left out. *)
Definition parse_modifiers_ex (allow_decorators permit_const_as_modifier stop_on_start_of_class_static_block : bool)
    : MP (option NodeList) :=
  pos ← node_pos;
  l ← iter fuel
        (modifier_iteration allow_decorators permit_const_as_modifier stop_on_start_of_class_static_block)
        (mkModifierLocals false false false false []);
  match l with
  | [] => mret None
  | _ => end_ ← node_pos; mret (Some (mkNodeList (TextRange.new pos end_) l false false))
  end.

Definition parse_modifiers : MP (option NodeList) := parse_modifiers_ex false false false.

(** ** Names *)
Definition parse_binding_identifier_with_diagnostic (private_identifier_diagnostic_message : option DiagnosticMessage)
    : MP Node :=
  save ← gets statement_has_await_identifier;
  b ← is_binding_identifier;
  id ← create_identifier_with_diagnostic b None private_identifier_diagnostic_message;
  modify (set_statement_has_await_identifier save) ;;
  mret id.

Definition parse_computed_property_name : MP Node :=
  pos ← node_pos;
  parse_expected Kind.OpenBracketToken ;;
  expression ← allow_in nested_expression;
  parse_expected Kind.CloseBracketToken ;;
  finish (ComputedPropertyName expression) pos.

Definition parse_property_name_worker (allow_computed_property_names : bool) : MP Node :=
  literal ← token_in [Kind.StringLiteral; Kind.NumericLiteral; Kind.BigIntLiteral];
  if literal : bool then parse_literal_expression
  else
    bracket ← token_is Kind.OpenBracketToken;
    if allow_computed_property_names && bracket then parse_computed_property_name
    else
      private ← token_is Kind.PrivateIdentifier;
      if private : bool then parse_private_identifier else parse_identifier_name.

Definition parse_property_name : MP Node :=
  save ← gets statement_has_await_identifier;
  prop ← parse_property_name_worker true;
  modify (set_statement_has_await_identifier save) ;;
  mret prop.

Definition parse_initializer : MP (option Node) :=
  found ← parse_optional Kind.EqualsToken;
  if found : bool then Some <$> nested_assignment else mret None.

Definition parse_type_annotation : MP (option Node) :=
  found ← parse_optional Kind.ColonToken;
  if found : bool then Some <$> nested_type else mret None.

(** One dot of [parse_entity_name]. *)
Definition entity_name_iteration (allow_reserved_words : bool) (pos : Z) (entity : Node) : MP (Node + Node) :=
  dot ← parse_optional Kind.DotToken;
  if dot : bool then
    less ← token_is Kind.LessThanToken;
    if less : bool then mret (inr entity)
    else
      right ← parse_right_side_of_dot allow_reserved_words false true;
      inl <$> finish (QualifiedName entity right) pos
  else mret (inr entity).

Definition parse_entity_name (allow_reserved_words : bool) (diagnostic_message : option DiagnosticMessage) : MP Node :=
  pos ← node_pos;
  entity ← (if allow_reserved_words then parse_identifier_name_with_diagnostic diagnostic_message
            else parse_identifier_with_diagnostic diagnostic_message None);
  iter fuel (entity_name_iteration allow_reserved_words pos) entity.

(** ** Binding patterns *)
Section patterns.
Context (identifier_or_pattern : MP Node).

Definition parse_array_binding_element : MP Node :=
  pos ← node_pos;
  comma ← token_is Kind.CommaToken;
  if comma : bool then finish (BindingElement None None None None) pos
  else
    dot_dot_dot_token ← parse_optional_token Kind.DotDotDotToken;
    name ← identifier_or_pattern;
    initializer ← parse_initializer;
    finish (BindingElement dot_dot_dot_token None (Some name) initializer) pos.

Definition parse_object_binding_element : MP Node :=
  pos ← node_pos;
  dot_dot_dot_token ← parse_optional_token Kind.DotDotDotToken;
  token_is_identifier ← is_binding_identifier;
  property_name ← parse_property_name;
  colon ← token_is Kind.ColonToken;
  names ←
    (if token_is_identifier && negb colon then mret (None, property_name)
     else parse_expected Kind.ColonToken ;; name ← identifier_or_pattern; mret (Some property_name, name));
  initializer ← parse_initializer;
  finish (BindingElement dot_dot_dot_token names.1 (Some names.2) initializer) pos.

(** [parse_array_binding_pattern] and [parse_object_binding_pattern]. *)
Definition parse_binding_pattern (opening closing : Kind) (context : ParsingContext) (element : MP Node) (kind : Kind)
    : MP Node :=
  pos ← node_pos;
  parse_expected opening ;;
  elements ← do_in_context NodeFlags.DISALLOW_IN_CONTEXT false (parse_delimited_list fuel context element);
  parse_expected closing ;;
  finish (BindingPattern kind elements) pos.

Definition parse_array_binding_pattern : MP Node :=
  parse_binding_pattern Kind.OpenBracketToken Kind.CloseBracketToken PCArrayBindingElements
    parse_array_binding_element Kind.ArrayBindingPattern.
Definition parse_object_binding_pattern : MP Node :=
  parse_binding_pattern Kind.OpenBraceToken Kind.CloseBraceToken PCObjectBindingElements
    parse_object_binding_element Kind.ObjectBindingPattern.
End patterns.

Fixpoint identifier_or_pattern (depth : nat) (private_identifier_diagnostic_message : option DiagnosticMessage) : MP Node :=
  match depth with
  | O => out_of_fuel
  | S depth =>
      t ← gets token;
      if Kind_eqb t Kind.OpenBracketToken then parse_array_binding_pattern (identifier_or_pattern depth None)
      else if Kind_eqb t Kind.OpenBraceToken then parse_object_binding_pattern (identifier_or_pattern depth None)
      else parse_binding_identifier_with_diagnostic private_identifier_diagnostic_message
  end.

Definition parse_identifier_or_pattern_with_diagnostic : option DiagnosticMessage -> MP Node := identifier_or_pattern fuel.
Definition parse_identifier_or_pattern : MP Node := parse_identifier_or_pattern_with_diagnostic None.

(** ** Type parameters and return types *)
Definition parse_type_parameter : MP Node :=
  pos ← node_pos;
  modifiers ← parse_modifiers_ex false true false;
  name ← parse_identifier;
  extends ← parse_optional Kind.ExtendsKeyword;
  constraint ←
    (if extends : bool then
       is_type ← or_else (is_start_of_type false) (not_ is_start_of_expression);
       if is_type : bool then type_node ← nested_type; mret (Some type_node, None)
       else expression ← nested_unary; mret (None, Some expression)
     else mret (None, None));
  equals ← parse_optional Kind.EqualsToken;
  default_type ← (if equals : bool then Some <$> nested_type else mret None);
  finish (TypeParameterDeclaration modifiers name constraint.1 constraint.2 default_type) pos.

Definition parse_type_parameters : MP (option NodeList) :=
  less ← token_is Kind.LessThanToken;
  if less : bool then
    Some <$> parse_bracketed_list fuel PCTypeParameters parse_type_parameter Kind.LessThanToken Kind.GreaterThanToken
  else mret None.

Definition should_parse_return_type (return_token : Kind) (is_type : bool) : MP bool :=
  if Kind_eqb return_token Kind.EqualsGreaterThanToken then parse_expected return_token ;; mret true
  else
    colon ← parse_optional Kind.ColonToken;
    if colon : bool then mret true
    else
      arrow ← token_is Kind.EqualsGreaterThanToken;
      if is_type && arrow then
        parse_error_at_current_token X_0_EXPECTED [token_to_string Kind.ColonToken] ;;
        next_token ;;
        mret true
      else mret false.

Definition type_predicate_attempt : MP (option Node) :=
  pos ← node_pos;
  id ← parse_identifier;
  is_token ← token_is Kind.IsKeyword;
  line_break ← has_preceding_line_break;
  if is_token && negb line_break then
    next_token ;;
    type_node ← nested_type;
    Some <$> finish (TypePredicate None id (Some type_node)) pos
  else mret None.

Definition parse_type_or_type_predicate : MP Node :=
  identifier ← is_identifier;
  predicate ← (if identifier : bool then attempt type_predicate_attempt else mret None);
  match predicate with
  | Some predicate => mret predicate
  | None => nested_type
  end.

Definition parse_return_type (return_token : Kind) (is_type : bool) : MP (option Node) :=
  should ← should_parse_return_type return_token is_type;
  if should : bool then
    Some <$> do_in_context NodeFlags.DISALLOW_CONDITIONAL_TYPES_CONTEXT false parse_type_or_type_predicate
  else mret None.

(** ** Parameters *)
Definition is_parameter_name_start : MP bool :=
  or_else is_binding_identifier (token_in [Kind.OpenBracketToken; Kind.OpenBraceToken]).

Definition parse_name_of_parameter (modifiers : option NodeList) : MP Node :=
  name ← parse_identifier_or_pattern_with_diagnostic (Some PRIVATE_IDENTIFIERS_CANNOT_BE_USED_AS_PARAMETERS);
  t ← gets token;
  when ((TextRange.end_ (loc name) - TextRange.pos (loc name) =? 0) && bool_decide (modifiers = None)
        && is_modifier_kind t)
    (next_token ;; mret tt) ;;
  mret name.

Definition first_loc (l : NodeList) : option TextRange :=
  match l with mkNodeList _ nodes _ _ => loc <$> head nodes end.

Definition parse_parameter_ex (in_outer_await_context allow_ambiguity : bool) : MP Node :=
  pos ← node_pos;
  modifiers ←
    (save ← gets context_flags;
     set_context_flags_to NodeFlags.AWAIT_CONTEXT in_outer_await_context ;;
     modifiers ← parse_modifiers_ex true false false;
     modify (set_context_flags save) ;;
     mret modifiers);
  this ← token_is Kind.ThisKeyword;
  if this : bool then
    name ← create_identifier true;
    type_node ← parse_type_annotation;
    result ← finish (ParameterDeclaration modifiers None name None type_node None) pos;
    match modifiers with
    | Some modifiers =>
        modifier_loc ← unwrap (first_loc modifiers);
        parse_error_at_range modifier_loc NEITHER_DECORATORS_NOR_MODIFIERS_MAY_BE_APPLIED_TO_THIS_PARAMETERS []
    | None => mret tt
    end ;;
    mret result
  else
    dot_dot_dot_token ← parse_optional_token Kind.DotDotDotToken;
    missing ← (if negb allow_ambiguity then not_ is_parameter_name_start else mret false);
    if missing : bool then create_missing_identifier
    else
      name ← parse_name_of_parameter modifiers;
      question_token ← parse_optional_token Kind.QuestionToken;
      type_node ← parse_type_annotation;
      initializer ← parse_initializer;
      finish (ParameterDeclaration modifiers dot_dot_dot_token name question_token type_node initializer) pos.

Definition parse_parameter : MP Node := parse_parameter_ex false true.

Definition parse_parameter_of (flags : Z) (in_await_context allow_ambiguity : bool) : MP (option Node) :=
  parameter ← parse_parameter_ex in_await_context allow_ambiguity;
  if negb allow_ambiguity && node_is_missing parameter then mret None
  else
    when (negb (ParseFlags.has flags ParseFlags.TYPE)) (rest_js_syntax parameter ;; mret tt) ;;
    mret (Some parameter).

Definition parse_parameters_worker (flags : Z) (allow_ambiguity : bool) : MP (option NodeList) :=
  in_await_context ← in_await_context;
  save ← gets context_flags;
  set_context_flags_to NodeFlags.YIELD_CONTEXT (ParseFlags.has flags ParseFlags.YIELD) ;;
  set_context_flags_to NodeFlags.AWAIT_CONTEXT (ParseFlags.has flags ParseFlags.AWAIT) ;;
  parameters ←
    parse_delimited_list_opt fuel PCParameters (parse_parameter_of flags in_await_context allow_ambiguity);
  modify (set_context_flags save) ;;
  mret parameters.

Definition parse_parameters (flags : Z) : MP NodeList :=
  opened ← parse_expected Kind.OpenParenToken;
  if opened : bool then
    parameters ← parse_parameters_worker flags true;
    parameters ← unwrap parameters;
    parse_expected Kind.CloseParenToken ;;
    mret parameters
  else create_missing_list.

(** ** Bodies *)
Definition parse_type_member_semicolon : MP unit :=
  found ← or_else (parse_optional Kind.CommaToken) (parse_optional Kind.SemicolonToken);
  if found : bool then mret tt else parse_semicolon ;; mret tt.

Definition parse_function_block_with_diagnostic (flags : Z) (diagnostic_message : option DiagnosticMessage) : MP Node :=
  save_context_flags ← gets context_flags;
  save_has_await_identifier ← gets statement_has_await_identifier;
  set_context_flags_to NodeFlags.YIELD_CONTEXT (ParseFlags.has flags ParseFlags.YIELD) ;;
  set_context_flags_to NodeFlags.AWAIT_CONTEXT (ParseFlags.has flags ParseFlags.AWAIT) ;;
  set_context_flags_to NodeFlags.DECORATOR_CONTEXT false ;;
  block ← parse_block (ParseFlags.has flags ParseFlags.IGNORE_MISSING_OPEN_BRACE) diagnostic_message;
  modify (set_context_flags save_context_flags) ;;
  modify (set_statement_has_await_identifier save_has_await_identifier) ;;
  mret block.

Definition parse_function_block (flags : Z) : MP Node := parse_function_block_with_diagnostic flags None.

Definition parse_function_block_or_semicolon (flags : Z) (diagnostic_message : option DiagnosticMessage)
    : MP (option Node) :=
  let block := Some <$> parse_function_block_with_diagnostic flags diagnostic_message in
  brace ← token_is Kind.OpenBraceToken;
  if brace : bool then block
  else if ParseFlags.has flags ParseFlags.TYPE then parse_type_member_semicolon ;; mret None
  else
    semicolon ← can_parse_semicolon;
    if semicolon : bool then parse_semicolon ;; mret None else block.

Definition parse_accessor_declaration (pos : Z) (modifiers : option NodeList) (kind : Kind) (flags : Z) : MP Node :=
  name ← parse_property_name;
  type_parameters ← parse_type_parameters;
  parameters ← parse_parameters ParseFlags.NONE;
  return_type ← parse_return_type Kind.ColonToken false;
  body ← parse_function_block_or_semicolon flags None;
  result ←
    finish (if Kind_eqb kind Kind.GetAccessor
            then GetAccessor modifiers name type_parameters parameters return_type body
            else SetAccessor modifiers name type_parameters parameters return_type body) pos;
  if negb (ParseFlags.has flags ParseFlags.TYPE) then rest_js_syntax result else mret result.

(** ** Index signatures *)
Definition next_is_unambiguously_index_signature : MP bool :=
  t ← next_token;
  if Kind_eqb t Kind.DotDotDotToken || Kind_eqb t Kind.CloseBracketToken then mret true
  else
    let rest :=
      t ← gets token;
      if Kind_eqb t Kind.ColonToken || Kind_eqb t Kind.CommaToken then mret true
      else if Kind_eqb t Kind.QuestionToken then
        next_token ;; token_in [Kind.ColonToken; Kind.CommaToken; Kind.CloseBracketToken]
      else mret false in
    if is_modifier_kind t then
      next_token ;;
      identifier ← is_identifier;
      if identifier : bool then mret true else rest
    else
      identifier ← is_identifier;
      if identifier : bool then next_token ;; rest else mret false.

Definition is_index_signature : MP bool :=
  and_then (token_is Kind.OpenBracketToken) (look_ahead next_is_unambiguously_index_signature).

Definition parse_index_signature_declaration (pos : Z) (modifiers : option NodeList) : MP Node :=
  parse_expected Kind.OpenBracketToken ;;
  parameters ← parse_delimited_list fuel PCParameters parse_parameter;
  parse_expected Kind.CloseBracketToken ;;
  type_node ← parse_type_annotation;
  parse_type_member_semicolon ;;
  finish (IndexSignature modifiers parameters type_node) pos.
End names.
