(* ===== verification/TypeParser.v ===== *)
(** * TypeParser: types and their members (ts-parser/src/parser.rs)

    From conditional types down to operators, postfix types and the types without operators. Types inside brackets and
    members are read through [NestedParts]. Related information of errors and parent links are left out. *)
From S2P Require Import Prelude Text Chars SyntaxKind Monad JsNum Keywords Trivia.
From S2P Require Import ScannerState Scanner RegExp CoreTypes Ast Precedence ParserState ExprParser ListParser MemberParser.
From S2P Require Import NameParser.

Section types.
Context `{JsNumber} `{ListStarts} `{NestedParts} `{RestParts} (fuel : nat).

(** ** Type arguments and references *)
Definition parse_type_arguments : MP (option NodeList) :=
  less ← token_is Kind.LessThanToken;
  if less : bool then
    Some <$> parse_bracketed_list fuel PCTypeArguments nested_type Kind.LessThanToken Kind.GreaterThanToken
  else mret None.

Definition parse_type_arguments_of_type_reference : MP (option NodeList) :=
  line_break ← has_preceding_line_break;
  if line_break : bool then mret None
  else
    t ← rescan_less_than_token;
    if Kind_eqb t Kind.LessThanToken then parse_type_arguments else mret None.

Definition parse_entity_name_of_type_reference : MP Node := parse_entity_name fuel true (Some TYPE_EXPECTED).

Definition parse_type_reference : MP Node :=
  pos ← node_pos;
  type_name ← parse_entity_name_of_type_reference;
  type_arguments ← parse_type_arguments_of_type_reference;
  finish (TypeReference type_name type_arguments) pos.

Definition parse_type_query : MP Node :=
  pos ← node_pos;
  parse_expected Kind.TypeOfKeyword ;;
  expr_name ← parse_entity_name fuel true None;
  line_break ← has_preceding_line_break;
  type_arguments ← (if line_break : bool then mret None else parse_type_arguments);
  finish (TypeQuery expr_name type_arguments) pos.

(** ** Keywords, literals and predicates *)
Definition parse_keyword_type_node : MP Node :=
  pos ← node_pos;
  kind ← gets token;
  next_token ;;
  finish (KeywordType kind) pos.

Definition parse_this_type_node : MP Node :=
  pos ← node_pos;
  next_token ;;
  finish ThisType pos.

Definition parse_this_type_predicate (lhs : Node) : MP Node :=
  next_token ;;
  type_node ← nested_type;
  finish (TypePredicate None lhs (Some type_node)) (TextRange.pos (loc lhs)).

Definition parse_asserts_type_predicate : MP Node :=
  pos ← node_pos;
  asserts_modifier ← parse_expected_token Kind.AssertsKeyword;
  this ← token_is Kind.ThisKeyword;
  parameter_name ← (if this : bool then parse_this_type_node else parse_identifier);
  is_token ← parse_optional Kind.IsKeyword;
  type_node ← (if is_token : bool then Some <$> nested_type else mret None);
  finish (TypePredicate (Some asserts_modifier) parameter_name type_node) pos.

Definition parse_literal_type_node (negative : bool) : MP Node :=
  pos ← node_pos;
  literal ←
    (if negative then
       parse_expected Kind.MinusToken ;;
       expression ← parse_literal_expression;
       finish (PrefixUnaryExpression Kind.MinusToken expression) pos
     else
       keyword ← token_in [Kind.TrueKeyword; Kind.FalseKeyword; Kind.NullKeyword];
       if keyword : bool then parse_token_node else parse_literal_expression);
  finish (LiteralType literal) pos.

(** ** Templates *)
Definition parse_template_type_span : MP Node :=
  pos ← node_pos;
  type_node ← nested_type;
  literal ← parse_literal_of_template_span false;
  finish (TemplateLiteralTypeSpan type_node literal) pos.

Definition type_span_is_middle (span : Node) : bool :=
  match data span with
  | TemplateLiteralTypeSpan _ literal => Kind_eqb (kind literal) Kind.TemplateMiddle
  | _ => false
  end.

Definition template_type_spans_iteration (l : list Node) : MP (list Node + list Node) :=
  span ← parse_template_type_span;
  mret (if type_span_is_middle span then inl (l ++ [span]) else inr (l ++ [span])).

Definition parse_template_type_spans : MP NodeList :=
  pos ← node_pos;
  l ← iter fuel template_type_spans_iteration [];
  end_ ← node_pos;
  mret (mkNodeList (TextRange.new pos end_) l false false).

Definition parse_template_type : MP Node :=
  pos ← node_pos;
  head ← parse_template_head false;
  spans ← parse_template_type_spans;
  finish (TemplateLiteralType head spans) pos.

(** ** Members *)
Definition parse_signature_member (kind : Kind) : MP Node :=
  pos ← node_pos;
  when (Kind_eqb kind Kind.ConstructSignature) (parse_expected Kind.NewKeyword ;; mret tt) ;;
  type_parameters ← parse_type_parameters fuel;
  parameters ← parse_parameters fuel ParseFlags.TYPE;
  type_node ← parse_return_type Kind.ColonToken true;
  parse_type_member_semicolon ;;
  finish (if Kind_eqb kind Kind.CallSignature then CallSignature type_parameters parameters type_node
          else ConstructSignature type_parameters parameters type_node) pos.

Definition parse_property_or_method_signature (pos : Z) (modifiers : option NodeList) : MP Node :=
  name ← parse_property_name;
  question_token ← parse_optional_token Kind.QuestionToken;
  signature ← token_in [Kind.OpenParenToken; Kind.LessThanToken];
  result ←
    (if signature : bool then
       type_parameters ← parse_type_parameters fuel;
       parameters ← parse_parameters fuel ParseFlags.TYPE;
       return_type ← parse_return_type Kind.ColonToken true;
       mret (MethodSignature modifiers name question_token type_parameters parameters return_type)
     else
       type_node ← parse_type_annotation;
       equals ← token_is Kind.EqualsToken;
       initializer ← (if equals : bool then parse_initializer else mret None);
       mret (PropertySignature modifiers name question_token type_node initializer));
  parse_type_member_semicolon ;;
  finish result pos.

Definition parse_type_member : MP Node :=
  signature ← token_in [Kind.OpenParenToken; Kind.LessThanToken];
  if signature : bool then parse_signature_member Kind.CallSignature
  else
    construct ← and_then (token_is Kind.NewKeyword) (look_ahead next_token_is_open_paren_or_less_than);
    if construct : bool then parse_signature_member Kind.ConstructSignature
    else
      pos ← node_pos;
      modifiers ← parse_modifiers fuel;
      get_ ← parse_contextual_modifier Kind.GetKeyword;
      if get_ : bool then parse_accessor_declaration fuel pos modifiers Kind.GetAccessor ParseFlags.TYPE
      else
        set_ ← parse_contextual_modifier Kind.SetKeyword;
        if set_ : bool then parse_accessor_declaration fuel pos modifiers Kind.SetAccessor ParseFlags.TYPE
        else
          index ← is_index_signature;
          if index : bool then parse_index_signature_declaration fuel pos modifiers
          else parse_property_or_method_signature pos modifiers.

Definition parse_object_type_members : MP NodeList :=
  opened ← parse_expected Kind.OpenBraceToken;
  if opened : bool then
    members ← parse_list fuel PCTypeMembers parse_type_member;
    parse_expected Kind.CloseBraceToken ;;
    mret members
  else create_missing_list.

Definition parse_type_literal : MP Node :=
  pos ← node_pos;
  members ← parse_object_type_members;
  finish (TypeLiteral members) pos.

(** ** Mapped types *)
Definition next_is_start_of_mapped_type : MP bool :=
  t ← next_token;
  if Kind_eqb t Kind.PlusToken || Kind_eqb t Kind.MinusToken then next_token_is Kind.ReadonlyKeyword
  else
    when (Kind_eqb t Kind.ReadonlyKeyword) (next_token ;; mret tt) ;;
    and_then (token_is Kind.OpenBracketToken)
      (and_then next_token_is_identifier (next_token_is Kind.InKeyword)).

(** The modifiers [readonly] and [?], alone or after a sign. *)
Definition mapped_type_modifier (keyword : Kind) : MP (option Node) :=
  found ← token_in [keyword; Kind.PlusToken; Kind.MinusToken];
  if found : bool then
    token ← parse_token_node;
    when (negb (Kind_eqb (kind token) keyword)) (parse_expected keyword ;; mret tt) ;;
    mret (Some token)
  else mret None.

Definition parse_mapped_type_parameter : MP Node :=
  pos ← node_pos;
  name ← parse_identifier_name;
  parse_expected Kind.InKeyword ;;
  type_node ← nested_type;
  finish (TypeParameterDeclaration None name (Some type_node) None None) pos.

Definition parse_mapped_type : MP Node :=
  pos ← node_pos;
  parse_expected Kind.OpenBraceToken ;;
  readonly_token ← mapped_type_modifier Kind.ReadonlyKeyword;
  parse_expected Kind.OpenBracketToken ;;
  type_parameter ← parse_mapped_type_parameter;
  as_ ← parse_optional Kind.AsKeyword;
  name_type ← (if as_ : bool then Some <$> nested_type else mret None);
  parse_expected Kind.CloseBracketToken ;;
  question_token ← mapped_type_modifier Kind.QuestionToken;
  type_node ← parse_type_annotation;
  parse_semicolon ;;
  members ← parse_list fuel PCTypeMembers parse_type_member;
  parse_expected Kind.CloseBraceToken ;;
  finish (MappedType readonly_token type_parameter name_type question_token type_node members) pos.

(** ** Tuples *)
Definition next_is_start_of_type : MP bool := next_token ;; is_start_of_type false.

(** [u8::is_ascii_whitespace] *)
Definition is_ascii_whitespace (b : byte) : bool := (b =? 32) || (b =? 9) || (b =? 10) || (b =? 12) || (b =? 13).

(** The loop that leaves white space in front of [end_], down to [pos]. *)
Fixpoint trim_whitespace (text : bytes) (pos end_ : nat) : nat :=
  match end_ with
  | O => O
  | S e =>
      if (pos <? end_)%nat && (match text !! e with Some b => is_ascii_whitespace b | None => false end)
      then trim_whitespace text pos e else end_
  end.

(** Where the question mark is that ends a type, and the white space in front of it. *)
Definition postfix_question_position (text : bytes) (l : TextRange) : option Z :=
  let pos := TextRange.pos l in
  let end_ := TextRange.end_ l in
  if (pos <? 0) || (end_ <=? pos) || (Z.of_nat (length text) <? end_) then None
  else
    let question_pos := (Z.to_nat end_ - 1)%nat in
    if bool_decide (text !! question_pos = Some (chr "?"))
    then Some (as_i32 (Z.of_nat (trim_whitespace text (Z.to_nat pos) question_pos))) else None.

(** Give a finished node another range and the context flags. *)
Definition rewrap (node : Node) (l : TextRange) : MP Node :=
  context_flags ← gets context_flags;
  mret (finish_parsed_node_header node l context_flags false).

Definition parse_tuple_element_type : MP Node :=
  pos ← node_pos;
  rest ← parse_optional Kind.DotDotDotToken;
  if rest : bool then
    type_node ← nested_type;
    finish (RestType type_node) pos
  else
    type_node ← nested_type;
    let type_node_loc := loc type_node in
    source_text ← gets source_text;
    match postfix_question_position source_text type_node_loc with
    | Some question_pos =>
        type_node ← rewrap type_node (TextRange.new (TextRange.pos type_node_loc) question_pos);
        finish_node_with_end (new_node NodeFlags.NONE (OptionalType type_node)) (TextRange.pos type_node_loc)
          (TextRange.end_ type_node_loc)
    | None =>
        line_break ← has_preceding_line_break;
        question ← token_is Kind.QuestionToken;
        optional ← (if negb line_break && question then not_ (look_ahead next_is_start_of_type) else mret false);
        if optional : bool then
          next_token ;;
          finish (OptionalType type_node) pos
        else mret type_node
    end.

Definition next_token_is_colon_or_question_colon : MP bool :=
  or_else (next_token_is Kind.ColonToken)
    (and_then (token_is Kind.QuestionToken) (next_token_is Kind.ColonToken)).

Definition scan_start_of_named_tuple_element : MP bool :=
  dots ← token_is Kind.DotDotDotToken;
  name ← (if dots : bool then next_token else gets token);
  if token_is_identifier_or_keyword name then next_token_is_colon_or_question_colon else mret false.

Definition parse_tuple_element_name_or_tuple_element_type : MP Node :=
  named ← look_ahead scan_start_of_named_tuple_element;
  if named : bool then
    pos ← node_pos;
    dot_dot_dot_token ← parse_optional_token Kind.DotDotDotToken;
    name ← parse_identifier_name;
    question_token ← parse_optional_token Kind.QuestionToken;
    parse_expected Kind.ColonToken ;;
    type_node ← parse_tuple_element_type;
    finish (NamedTupleMember dot_dot_dot_token name question_token type_node) pos
  else parse_tuple_element_type.

Definition parse_tuple_type : MP Node :=
  pos ← node_pos;
  elements ← parse_bracketed_list fuel PCTupleElementTypes parse_tuple_element_name_or_tuple_element_type
               Kind.OpenBracketToken Kind.CloseBracketToken;
  finish (TupleType elements) pos.

Definition parse_parenthesized_type : MP Node :=
  pos ← node_pos;
  parse_expected Kind.OpenParenToken ;;
  type_node ← nested_type;
  parse_expected Kind.CloseParenToken ;;
  finish (ParenthesizedType type_node) pos.

(** ** Import types *)
Definition parse_import_attribute : MP Node :=
  pos ← node_pos;
  t ← gets token;
  name ←
    (if token_is_identifier_or_keyword t then Some <$> parse_identifier_name
     else if Kind_eqb t Kind.StringLiteral then Some <$> parse_literal_expression
     else mret None);
  match name with
  | Some _ => parse_expected Kind.ColonToken ;; mret tt
  | None => parse_error_at_current_token IDENTIFIER_OR_STRING_LITERAL_EXPECTED []
  end ;;
  value ← nested_assignment;
  finish (ImportAttribute name value) pos.

Definition parse_import_attributes (token : Kind) (skip_keyword : bool) : MP Node :=
  pos ← node_pos;
  when (negb skip_keyword) (parse_expected token ;; mret tt) ;;
  opened ← parse_expected Kind.OpenBraceToken;
  elements ←
    (if opened : bool then
       multi_line ← has_preceding_line_break;
       elements ← parse_delimited_list fuel PCImportAttributes parse_import_attribute;
       parse_expected Kind.CloseBraceToken ;;
       mret (elements, multi_line)
     else elements ← parse_empty_node_list; mret (elements, false));
  finish (ImportAttributes token elements.1 elements.2) pos.

Definition next_is_start_of_type_of_import_type : MP bool := next_token_is Kind.ImportKeyword.

Definition import_type_attributes : MP Node :=
  parse_expected Kind.OpenBraceToken ;;
  current_token ← gets token;
  (if Kind_eqb current_token Kind.WithKeyword || Kind_eqb current_token Kind.AssertKeyword then
     when (Kind_eqb current_token Kind.AssertKeyword)
       (parse_error_at_current_token
          IMPORT_ASSERTIONS_HAVE_BEEN_REPLACED_BY_IMPORT_ATTRIBUTES_USE_WITH_INSTEAD_OF_ASSERT []) ;;
     next_token ;;
     mret tt
   else parse_error_at_current_token X_0_EXPECTED [token_to_string Kind.WithKeyword]) ;;
  parse_expected Kind.ColonToken ;;
  attributes ← parse_import_attributes current_token true;
  parse_optional Kind.CommaToken ;;
  parse_expected Kind.CloseBraceToken ;;
  mret attributes.

Definition parse_import_type : MP Node :=
  add_source_flags NodeFlags.POSSIBLY_CONTAINS_DYNAMIC_IMPORT ;;
  pos ← node_pos;
  is_type_of ← parse_optional Kind.TypeOfKeyword;
  parse_expected Kind.ImportKeyword ;;
  parse_expected Kind.OpenParenToken ;;
  type_node ← nested_type;
  comma ← parse_optional Kind.CommaToken;
  attributes ← (if comma : bool then Some <$> import_type_attributes else mret None);
  parse_expected Kind.CloseParenToken ;;
  dot ← parse_optional Kind.DotToken;
  qualifier ← (if dot : bool then Some <$> parse_entity_name_of_type_reference else mret None);
  type_arguments ← parse_type_arguments_of_type_reference;
  finish (ImportType is_type_of type_node attributes qualifier type_arguments) pos.

(** ** Function types *)
Definition skip_parameter_start : MP bool :=
  t ← gets token;
  when (is_modifier_kind t) (parse_modifiers fuel ;; mret tt) ;;
  parse_optional Kind.DotDotDotToken ;;
  name ← or_else is_identifier (token_is Kind.ThisKeyword);
  if name : bool then next_token ;; mret true
  else
    pattern ← token_in [Kind.OpenBracketToken; Kind.OpenBraceToken];
    if pattern : bool then
      previous_error_count ← gets (fun p => length (diagnostics p));
      parse_identifier_or_pattern fuel ;;
      error_count ← gets (fun p => length (diagnostics p));
      mret (previous_error_count =? error_count)%nat
    else mret false.

Definition next_is_unambiguously_start_of_function_type : MP bool :=
  t ← next_token;
  if Kind_eqb t Kind.CloseParenToken || Kind_eqb t Kind.DotDotDotToken then mret true
  else
    skipped ← skip_parameter_start;
    if skipped : bool then
      t ← gets token;
      if kind_in [Kind.ColonToken; Kind.CommaToken; Kind.QuestionToken; Kind.EqualsToken] t then mret true
      else if Kind_eqb t Kind.CloseParenToken then next_token_is Kind.EqualsGreaterThanToken
      else mret false
    else mret false.

Definition is_start_of_function_type_or_constructor_type : MP bool :=
  t ← gets token;
  match t with
  | Kind.LessThanToken | Kind.NewKeyword => mret true
  | Kind.OpenParenToken => look_ahead next_is_unambiguously_start_of_function_type
  | Kind.AbstractKeyword => look_ahead next_token_is_new_keyword
  | _ => mret false
  end.

Definition parse_modifiers_for_constructor_type : MP (option NodeList) :=
  abstract_ ← token_is Kind.AbstractKeyword;
  if abstract_ : bool then
    pos ← node_pos;
    next_token ;;
    modifier ← finish (Token Kind.AbstractKeyword) pos;
    mret (Some (mkNodeList (loc modifier) [modifier] false false))
  else mret None.

Definition parse_function_or_constructor_type : MP Node :=
  pos ← node_pos;
  modifiers ← parse_modifiers_for_constructor_type;
  is_constructor_type ← parse_optional Kind.NewKeyword;
  type_parameters ← parse_type_parameters fuel;
  parameters ← parse_parameters fuel ParseFlags.TYPE;
  return_type ← parse_return_type Kind.EqualsGreaterThanToken false;
  finish (if is_constructor_type : bool then ConstructorType modifiers type_parameters parameters return_type
          else FunctionType type_parameters parameters return_type) pos.

Definition parse_function_or_constructor_type_to_error (is_in_union_type : bool) (parse_constituent_type : MP Node)
    : MP Node :=
  function ← is_start_of_function_type_or_constructor_type;
  if function : bool then
    type_node ← parse_function_or_constructor_type;
    let diagnostic :=
      if Kind_eqb (kind type_node) Kind.FunctionType then
        if is_in_union_type then FUNCTION_TYPE_NOTATION_MUST_BE_PARENTHESIZED_WHEN_USED_IN_A_UNION_TYPE
        else FUNCTION_TYPE_NOTATION_MUST_BE_PARENTHESIZED_WHEN_USED_IN_AN_INTERSECTION_TYPE
      else if is_in_union_type then CONSTRUCTOR_TYPE_NOTATION_MUST_BE_PARENTHESIZED_WHEN_USED_IN_A_UNION_TYPE
      else CONSTRUCTOR_TYPE_NOTATION_MUST_BE_PARENTHESIZED_WHEN_USED_IN_AN_INTERSECTION_TYPE in
    parse_error_at_range (loc type_node) diagnostic [] ;;
    mret type_node
  else parse_constituent_type.

(** ** Types without operators *)
Section non_array.
Context (parse_type_operator_or_higher : MP Node).

Definition parse_jsdoc_nullable_type : MP Node :=
  pos ← node_pos;
  next_token ;;
  type_node ← parse_type_operator_or_higher;
  end_ ← node_pos;
  rewrap type_node (TextRange.new pos end_).

(** A type in front of which a [!] stands. *)
Definition parse_prefix_non_null_type : MP Node :=
  pos ← ask token_start;
  next_token ;;
  type_node ← parse_type_operator_or_higher;
  end_ ← node_pos;
  rewrap type_node (TextRange.new pos end_).

Definition keyword_type_attempt : MP (option Node) :=
  keyword_type_node ← parse_keyword_type_node;
  dot ← token_is Kind.DotToken;
  mret (if dot : bool then None else Some keyword_type_node).

Definition parse_non_array_type : MP Node :=
  t ← gets token;
  match t with
  | Kind.AnyKeyword | Kind.UnknownKeyword | Kind.StringKeyword | Kind.NumberKeyword | Kind.BigIntKeyword
  | Kind.SymbolKeyword | Kind.BooleanKeyword | Kind.UndefinedKeyword | Kind.NeverKeyword | Kind.ObjectKeyword =>
      keyword ← attempt keyword_type_attempt;
      match keyword with
      | Some keyword_type_node => mret keyword_type_node
      | None => parse_type_reference
      end
  | Kind.VoidKeyword => parse_keyword_type_node
  | Kind.ThisKeyword =>
      this_keyword ← parse_this_type_node;
      is_token ← token_is Kind.IsKeyword;
      line_break ← has_preceding_line_break;
      if is_token && negb line_break then parse_this_type_predicate this_keyword else mret this_keyword
  | Kind.OpenBraceToken =>
      mapped ← look_ahead next_is_start_of_mapped_type;
      if mapped : bool then parse_mapped_type else parse_type_literal
  | Kind.OpenBracketToken => parse_tuple_type
  | Kind.OpenParenToken => parse_parenthesized_type
  | Kind.TypeOfKeyword =>
      import ← look_ahead next_is_start_of_type_of_import_type;
      if import : bool then parse_import_type else parse_type_query
  | Kind.ImportKeyword => parse_import_type
  | Kind.AssertsKeyword =>
      predicate ← look_ahead next_token_is_identifier_or_keyword_on_same_line;
      if predicate : bool then parse_asserts_type_predicate else parse_type_reference
  | Kind.TemplateHead => parse_template_type
  | Kind.NoSubstitutionTemplateLiteral | Kind.StringLiteral | Kind.NumericLiteral | Kind.BigIntLiteral
  | Kind.TrueKeyword | Kind.FalseKeyword | Kind.NullKeyword => parse_literal_type_node false
  | Kind.MinusToken =>
      number ← look_ahead next_token_is_numeric_or_big_int_literal;
      if number : bool then parse_literal_type_node true else parse_type_reference
  | Kind.QuestionQuestionToken => on_scanner Scanner.rescan_question_token ;; parse_jsdoc_nullable_type
  | Kind.QuestionToken => parse_jsdoc_nullable_type
  | Kind.ExclamationToken => parse_prefix_non_null_type
  | _ => parse_type_reference
  end.

(** One round of the loop of [parse_postfix_type_or_higher]. *)
Definition postfix_type_iteration (pos : Z) (type_node : Node) : MP (Node + Node) :=
  line_break ← has_preceding_line_break;
  if line_break : bool then mret (inr type_node)
  else
    t ← gets token;
    match t with
    | Kind.ExclamationToken =>
        range ← skip_range_trivia (loc type_node);
        next_token ;;
        end_ ← node_pos;
        inl <$> rewrap type_node (TextRange.new (TextRange.pos range) end_)
    | Kind.QuestionToken =>
        type_follows ← look_ahead next_is_start_of_type;
        if type_follows : bool then mret (inr type_node)
        else
          next_token ;;
          range ← skip_range_trivia (loc type_node);
          end_ ← node_pos;
          inl <$> rewrap type_node (TextRange.new (TextRange.pos range) end_)
    | Kind.OpenBracketToken =>
        parse_expected Kind.OpenBracketToken ;;
        index ← is_start_of_type false;
        if index : bool then
          index_type ← nested_type;
          parse_expected Kind.CloseBracketToken ;;
          inl <$> finish (IndexedAccessType type_node index_type) pos
        else
          parse_expected Kind.CloseBracketToken ;;
          inl <$> finish (ArrayType type_node) pos
    | _ => mret (inr type_node)
    end.

Definition parse_postfix_type_or_higher : MP Node :=
  pos ← node_pos;
  type_node ← parse_non_array_type;
  iter fuel (postfix_type_iteration pos) type_node.
End non_array.

(** ** Operators *)
Definition constraint_of_infer_type_attempt : MP (option Node) :=
  extends ← parse_optional Kind.ExtendsKeyword;
  if extends : bool then
    constraint ← do_in_context NodeFlags.DISALLOW_CONDITIONAL_TYPES_CONTEXT true nested_type;
    disallowed ← in_context NodeFlags.DISALLOW_CONDITIONAL_TYPES_CONTEXT;
    question ← token_is Kind.QuestionToken;
    mret (if disallowed || negb question then Some constraint else None)
  else mret None.

Definition try_parse_constraint_of_infer_type : MP (option Node) := attempt constraint_of_infer_type_attempt.

Definition parse_type_parameter_of_infer_type : MP Node :=
  pos ← node_pos;
  name ← parse_identifier;
  constraint ← try_parse_constraint_of_infer_type;
  finish (TypeParameterDeclaration None name constraint None None) pos.

Definition parse_infer_type : MP Node :=
  pos ← node_pos;
  parse_expected Kind.InferKeyword ;;
  type_parameter ← parse_type_parameter_of_infer_type;
  finish (InferType type_parameter) pos.

(** Operators nest without a limit: [keyof keyof T]. *)
Fixpoint parse_type_operator_or_higher (depth : nat) : MP Node :=
  match depth with
  | O => out_of_fuel
  | S depth =>
      operator ← gets token;
      match operator with
      | Kind.KeyOfKeyword | Kind.UniqueKeyword | Kind.ReadonlyKeyword =>
          (* parse_type_operator *)
          pos ← node_pos;
          parse_expected operator ;;
          type_node ← parse_type_operator_or_higher depth;
          finish (TypeOperator operator type_node) pos
      | Kind.InferKeyword => parse_infer_type
      | _ =>
          do_in_context NodeFlags.DISALLOW_CONDITIONAL_TYPES_CONTEXT false
            (parse_postfix_type_or_higher (parse_type_operator_or_higher depth))
      end
  end.

Definition create_union_or_intersection_type_node (operator : Kind) (types : NodeList) : option NodeData :=
  match operator with
  | Kind.BarToken => Some (UnionType types)
  | Kind.AmpersandToken => Some (IntersectionType types)
  | _ => None
  end.

Definition constituents_iteration (operator : Kind) (parse_constituent_type : MP Node) (types : list Node)
    : MP (list Node + list Node) :=
  more ← parse_optional operator;
  if more : bool then
    type_node ← parse_function_or_constructor_type_to_error (Kind_eqb operator Kind.BarToken) parse_constituent_type;
    mret (inl (types ++ [type_node]))
  else mret (inr types).

Definition parse_union_or_intersection_type (operator : Kind) (parse_constituent_type : MP Node) : MP Node :=
  pos ← node_pos;
  let is_union_type := Kind_eqb operator Kind.BarToken in
  has_leading_operator ← parse_optional operator;
  type_node ←
    (if has_leading_operator : bool
     then parse_function_or_constructor_type_to_error is_union_type parse_constituent_type
     else parse_constituent_type);
  t ← gets token;
  if Kind_eqb t operator || has_leading_operator then
    types ← iter fuel (constituents_iteration operator parse_constituent_type) [type_node];
    end_ ← node_pos;
    node ← unwrap (create_union_or_intersection_type_node operator (mkNodeList (TextRange.new pos end_) types false false));
    finish node pos
  else mret type_node.

Definition parse_intersection_type_or_higher : MP Node :=
  parse_union_or_intersection_type Kind.AmpersandToken (parse_type_operator_or_higher fuel).
Definition parse_union_type_or_higher : MP Node :=
  parse_union_or_intersection_type Kind.BarToken parse_intersection_type_or_higher.

(** ** Conditional types *)
Definition conditional_type_rest (pos : Z) (node : Node) : MP Node :=
  extends_type ← do_in_context NodeFlags.DISALLOW_CONDITIONAL_TYPES_CONTEXT true nested_type;
  parse_expected Kind.QuestionToken ;;
  true_type ← do_in_context NodeFlags.DISALLOW_CONDITIONAL_TYPES_CONTEXT false nested_type;
  parse_expected Kind.ColonToken ;;
  false_type ← do_in_context NodeFlags.DISALLOW_CONDITIONAL_TYPES_CONTEXT false nested_type;
  finish (ConditionalType node extends_type true_type false_type) pos.

Definition conditional_type_or_higher : MP Node :=
  pos ← node_pos;
  node ← parse_union_type_or_higher;
  disallowed ← in_context NodeFlags.DISALLOW_CONDITIONAL_TYPES_CONTEXT;
  line_break ← has_preceding_line_break;
  extends ← (if negb disallowed && negb line_break then parse_optional Kind.ExtendsKeyword else mret false);
  if extends : bool then conditional_type_rest pos node else mret node.

(** [parse_type], one level above the types nested in it. *)
Definition type_at_level : MP Node :=
  save_context_flags ← gets context_flags;
  set_context_flags_to NodeFlags.TYPE_EXCLUDES_FLAGS false ;;
  function ← is_start_of_function_type_or_constructor_type;
  type_node ← (if function : bool then parse_function_or_constructor_type else conditional_type_or_higher);
  modify (set_context_flags save_context_flags) ;;
  mret type_node.
End types.
