(* ===== verification/FunctionParser.v ===== *)
(** * FunctionParser: object literals, functions and arrow functions (ts-parser/src/parser.rs)

    The primary expressions that MemberParser.v leaves to [PrimaryParts], with their bodies. [primary_parts] at the end ties
    the knot between expressions, types and functions: one level of nesting for each unit of fuel, over [RestParts]
    (blocks of statements, classes, JSX and the check of JavaScript files). *)
From S2P Require Import Prelude Text Chars SyntaxKind Monad JsNum Keywords.
From S2P Require Import ScannerState RegExp CoreTypes Ast Precedence ParserState ExprParser ListParser MemberParser.
From S2P Require Import NameParser TypeParser.

Section functions.
Context `{JsNumber} `{ListStarts} `{NestedParts} `{RestParts} (fuel : nat).

Definition modifier_list_has_async (modifiers : option NodeList) : bool :=
  match modifiers with
  | Some (mkNodeList _ nodes _ _) => existsb (fun m => Kind_eqb (kind m) Kind.AsyncKeyword) nodes
  | None => false
  end.

Definition signature_flags (is_generator is_async : bool) : Z :=
  Z.lor (if is_generator then ParseFlags.YIELD else ParseFlags.NONE)
    (if is_async then ParseFlags.AWAIT else ParseFlags.NONE).

(** ** Object literals *)
Definition parse_method_declaration (pos : Z) (modifiers : option NodeList) (asterisk_token : option Node) (name : Node)
    (question_token : option Node) (diagnostic_message : option DiagnosticMessage) : MP Node :=
  let flags := signature_flags (bool_decide (is_Some asterisk_token)) (modifier_list_has_async modifiers) in
  type_parameters ← parse_type_parameters fuel;
  parameters ← parse_parameters fuel flags;
  type_node ← parse_return_type Kind.ColonToken false;
  body ← parse_function_block_or_semicolon flags diagnostic_message;
  result ←
    finish (MethodDeclaration modifiers asterisk_token name question_token type_parameters parameters type_node body) pos;
  rest_js_syntax result.

(** A property without a body, shorthand or with a value. *)
Definition parse_property_assignment (pos : Z) (modifiers : option NodeList) (name : Node) (postfix_token : option Node)
    (token_is_identifier : bool) : MP Node :=
  colon ← token_is Kind.ColonToken;
  node ←
    (if token_is_identifier && negb colon then
       equals_token ← parse_optional_token Kind.EqualsToken;
       initializer ← (if bool_decide (is_Some equals_token) then Some <$> allow_in nested_assignment else mret None);
       mret (ShorthandPropertyAssignment modifiers name postfix_token equals_token initializer)
     else
       parse_expected Kind.ColonToken ;;
       initializer ← allow_in nested_assignment;
       mret (PropertyAssignment modifiers name postfix_token initializer));
  finish node pos.

Definition parse_object_literal_element : MP Node :=
  pos ← node_pos;
  spread ← parse_optional Kind.DotDotDotToken;
  if spread : bool then
    expression ← nested_assignment;
    finish (SpreadAssignment expression) pos
  else
    modifiers ← parse_modifiers_ex fuel true false false;
    get_ ← parse_contextual_modifier Kind.GetKeyword;
    if get_ : bool then parse_accessor_declaration fuel pos modifiers Kind.GetAccessor ParseFlags.NONE
    else
      set_ ← parse_contextual_modifier Kind.SetKeyword;
      if set_ : bool then parse_accessor_declaration fuel pos modifiers Kind.SetAccessor ParseFlags.NONE
      else
        asterisk_token ← parse_optional_token Kind.AsteriskToken;
        token_is_identifier ← is_identifier;
        name ← parse_property_name;
        question_token ← parse_optional_token Kind.QuestionToken;
        postfix_token ← match question_token with
                        | Some _ => mret question_token
                        | None => parse_optional_token Kind.ExclamationToken
                        end;
        signature ← token_in [Kind.OpenParenToken; Kind.LessThanToken];
        if bool_decide (is_Some asterisk_token) || signature
        then parse_method_declaration pos modifiers asterisk_token name postfix_token None
        else parse_property_assignment pos modifiers name postfix_token token_is_identifier.

Definition object_literal_expression : MP Node :=
  pos ← node_pos;
  parse_expected Kind.OpenBraceToken ;;
  multi_line ← has_preceding_line_break;
  properties ← parse_delimited_list fuel PCObjectLiteralMembers parse_object_literal_element;
  parse_expected_matching_brackets Kind.CloseBraceToken ;;
  finish (ObjectLiteralExpression properties multi_line) pos.

(** ** Functions and decorated classes *)
Definition parse_optional_binding_identifier : MP (option Node) :=
  b ← is_binding_identifier;
  if b : bool then Some <$> parse_binding_identifier_with_diagnostic None else mret None.

Definition function_name (is_generator is_async : bool) : MP (option Node) :=
  if is_generator && is_async then
    do_in_context (Z.lor NodeFlags.YIELD_CONTEXT NodeFlags.AWAIT_CONTEXT) true parse_optional_binding_identifier
  else if is_generator then do_in_context NodeFlags.YIELD_CONTEXT true parse_optional_binding_identifier
  else if is_async then do_in_context NodeFlags.AWAIT_CONTEXT true parse_optional_binding_identifier
  else parse_optional_binding_identifier.

Definition function_expression : MP Node :=
  save_context_flags ← gets context_flags;
  set_context_flags_to NodeFlags.DECORATOR_CONTEXT false ;;
  pos ← node_pos;
  modifiers ← parse_modifiers fuel;
  parse_expected Kind.FunctionKeyword ;;
  asterisk_token ← parse_optional_token Kind.AsteriskToken;
  let is_generator := bool_decide (is_Some asterisk_token) in
  let is_async := modifier_list_has_async modifiers in
  let flags := signature_flags is_generator is_async in
  name ← function_name is_generator is_async;
  type_parameters ← parse_type_parameters fuel;
  parameters ← parse_parameters fuel flags;
  return_type ← parse_return_type Kind.ColonToken false;
  body ← parse_function_block flags;
  modify (set_context_flags save_context_flags) ;;
  result ← finish (FunctionExpression modifiers asterisk_token name type_parameters parameters return_type body) pos;
  rest_js_syntax result.

Definition class_expression : MP Node :=
  pos ← node_pos;
  parse_class_declaration_or_expression pos None Kind.ClassExpression.

Definition decorated_expression : MP Node :=
  pos ← node_pos;
  modifiers ← parse_modifiers_ex fuel true false false;
  class ← token_is Kind.ClassKeyword;
  if class : bool then parse_class_declaration_or_expression pos modifiers Kind.ClassExpression
  else
    here ← node_pos;
    parse_error_at here here EXPRESSION_EXPECTED [] ;;
    finish (MissingDeclaration modifiers) pos.

(** ** Arrow functions *)
Definition is_start_of_expression_statement : MP bool :=
  and_then (not_ (token_in [Kind.OpenBraceToken; Kind.FunctionKeyword; Kind.ClassKeyword; Kind.AtToken]))
    is_start_of_expression.

Definition parse_arrow_function_expression_body (is_async allow_return_type_in_arrow_function : bool) : MP Node :=
  let await := if is_async then ParseFlags.AWAIT else ParseFlags.NONE in
  brace ← token_is Kind.OpenBraceToken;
  if brace : bool then parse_function_block await
  else
    block ←
      and_then (not_ (token_in [Kind.SemicolonToken; Kind.FunctionKeyword; Kind.ClassKeyword]))
        (and_then is_start_of_statement (not_ is_start_of_expression_statement));
    if block : bool then parse_function_block (Z.lor ParseFlags.IGNORE_MISSING_OPEN_BRACE await)
    else
      save_context_flags ← gets context_flags;
      set_context_flags_to NodeFlags.AWAIT_CONTEXT is_async ;;
      set_context_flags_to NodeFlags.YIELD_CONTEXT false ;;
      node ← nested_assignment_worker allow_return_type_in_arrow_function;
      modify (set_context_flags save_context_flags) ;;
      mret node.

(** Is this the type of a signature that was no arrow function? *)
Fixpoint type_has_arrow_function_blocking_parse_error (node : Node) : bool :=
  match node with
  | mkNode _ _ (TypeReference type_name _) => node_is_missing type_name
  | mkNode _ _ (FunctionType _ (mkNodeList _ _ _ missing) return_type)
  | mkNode _ _ (ConstructorType _ _ (mkNodeList _ _ _ missing) return_type) =>
      missing
      || match return_type with Some t => type_has_arrow_function_blocking_parse_error t | None => false end
  | mkNode _ _ (ParenthesizedType t) => type_has_arrow_function_blocking_parse_error t
  | _ => false
  end.

(** [None] is a parameter list that was no such list. *)
Definition arrow_function_parameters (flags : Z) (allow_ambiguity : bool) : MP (option NodeList) :=
  opened ← parse_expected Kind.OpenParenToken;
  if negb opened then if negb allow_ambiguity then mret None else Some <$> create_missing_list
  else
    parameters ← parse_parameters_worker fuel flags allow_ambiguity;
    match parameters with
    | None => mret None
    | Some parameters =>
        closed ← parse_expected Kind.CloseParenToken;
        mret (if negb closed && negb allow_ambiguity then None else Some parameters)
    end.

(** From the return type on. *)
Definition arrow_function_rest (pos : Z) (modifiers type_parameters : option NodeList) (parameters : NodeList)
    (is_async allow_ambiguity allow_return_type_in_arrow_function : bool) : MP Node :=
  has_return_colon ← token_is Kind.ColonToken;
  return_type ← parse_return_type Kind.ColonToken false;
  let blocking := match return_type with
                  | Some t => negb allow_ambiguity && type_has_arrow_function_blocking_parse_error t
                  | None => false
                  end in
  if blocking then create_missing_identifier
  else
    last_token ← gets token;
    let body_follows := Kind_eqb last_token Kind.EqualsGreaterThanToken || Kind_eqb last_token Kind.OpenBraceToken in
    if negb allow_ambiguity && negb body_follows then create_missing_identifier
    else
      equals_greater_than_token ← parse_expected_token Kind.EqualsGreaterThanToken;
      body ← (if body_follows then parse_arrow_function_expression_body is_async allow_return_type_in_arrow_function
              else parse_identifier);
      colon ← token_is Kind.ColonToken;
      if negb allow_return_type_in_arrow_function && has_return_colon && negb colon then create_missing_identifier
      else
        result ← finish (ArrowFunction modifiers type_parameters parameters return_type equals_greater_than_token body) pos;
        rest_js_syntax result.

Definition parenthesized_arrow_function_expression (allow_ambiguity allow_return_type_in_arrow_function : bool) : MP Node :=
  pos ← node_pos;
  modifiers ← parse_modifiers_for_arrow_function;
  let is_async := modifier_list_has_async modifiers in
  type_parameters ← parse_type_parameters fuel;
  parameters ← arrow_function_parameters (if is_async then ParseFlags.AWAIT else ParseFlags.NONE) allow_ambiguity;
  match parameters with
  | None => create_missing_identifier
  | Some parameters =>
      arrow_function_rest pos modifiers type_parameters parameters is_async allow_ambiguity
        allow_return_type_in_arrow_function
  end.

Definition simple_arrow_function_expression (pos : Z) (identifier : Node) (allow_return_type_in_arrow_function : bool)
    (async_modifier : option NodeList) : MP Node :=
  parameter ← finish (ParameterDeclaration None None identifier None None None) (TextRange.pos (loc identifier));
  equals_greater_than_token ← parse_expected_token Kind.EqualsGreaterThanToken;
  body ← parse_arrow_function_expression_body (bool_decide (is_Some async_modifier)) allow_return_type_in_arrow_function;
  finish
    (ArrowFunction async_modifier None (mkNodeList (loc parameter) [parameter] false false) None
       equals_greater_than_token body) pos.
End functions.

(** * The knot *)
Section parser.
Context `{JsNumber} `{SpellingSuggestions} `{RestParts}.

(** What is nested in the parts of a level: the expressions, types and functions one level down. *)
Definition nested_parts (starts : ListStarts) (primary : PrimaryParts) (fuel : nat) : NestedParts :=
  let parts := expression_parts fuel in
  let expression := @ExprParser.parse_expression _ parts fuel in
  let assignment := @parse_assignment_expression_or_higher_worker _ parts fuel in
  {| nested_type := type_;
     nested_expression := expression;
     nested_assignment_worker := assignment;
     nested_unary := @parse_unary_expression_or_higher _ parts fuel;
     nested_left_hand_side := @parse_left_hand_side_expression_or_higher parts;
     nested_chain := fun pos operand =>
       member ← parse_member_expression_rest expression fuel pos operand true;
       parse_call_expression_rest expression assignment fuel pos member |}.

Definition parts_of_level (starts : ListStarts) (nested : NestedParts) (fuel : nat) : PrimaryParts := {|
  type_ := type_at_level fuel;
  jsx_element := rest_jsx_element;
  js_syntax := rest_js_syntax;
  parse_object_literal_expression := object_literal_expression fuel;
  parse_function_expression := function_expression fuel;
  parse_class_expression := class_expression;
  parse_decorated_expression := decorated_expression fuel;
  parse_parenthesized_arrow_function_expression := parenthesized_arrow_function_expression fuel;
  simple_arrow_function := simple_arrow_function_expression;
|}.

Definition no_primary : PrimaryParts := {|
  type_ := out_of_fuel;
  jsx_element := rest_jsx_element;
  js_syntax := rest_js_syntax;
  parse_object_literal_expression := out_of_fuel;
  parse_function_expression := out_of_fuel;
  parse_class_expression := class_expression;
  parse_decorated_expression := out_of_fuel;
  parse_parenthesized_arrow_function_expression := fun _ _ => out_of_fuel;
  simple_arrow_function := fun _ _ _ _ => out_of_fuel;
|}.

Fixpoint primary_parts (starts : ListStarts) (fuel : nat) : PrimaryParts :=
  match fuel with
  | O => no_primary
  | S fuel => parts_of_level starts (nested_parts starts (primary_parts starts fuel) fuel) fuel
  end.

(** [parse_type] and [parse_expression] of a text. *)
Definition type_of_text (fuel : nat) : MP Node := @type_ (primary_parts (list_starts fuel) fuel).
Definition expression_of_text (fuel : nat) : MP Node :=
  @MemberParser.expression _ _ (list_starts fuel) (primary_parts (list_starts fuel) fuel) fuel.
End parser.
