(* ===== verification/ParserInv.v ===== *)
(** * ParserInv: what every step of the parser keeps

    [Frame] relates two states of the parser: the parser's copy of the current token stays that of the scanner, the contexts
    are restored, and errors are only added. Every method of ExprParser.v, ListParser.v and MemberParser.v keeps it, as a
    partial correctness property [keeps] that composes along the structure of the code. *)
From S2P Require Import Prelude Text Chars SyntaxKind Monad JsNum Keywords.
From S2P Require Import ScannerState ScannerOps Scanner RegExp CoreTypes Ast Precedence ParserState ExprParser ListParser.
From S2P Require Import MemberParser.

(** Every run of [m] that ends relates its states by [R]. *)
Definition keeps {S A} (R : S -> S -> Prop) (m : M S A) : Prop := forall s a s', m s = Ok (a, s') -> R s s'.

Section keeps.
Context {S : Type} (R : S -> S -> Prop) `{!PreOrder R}.

Lemma run_bind_inv {A B} (m : M S A) (f : A -> M S B) s b s' :
  (m ≫= f) s = Ok (b, s') -> exists a s1, m s = Ok (a, s1) /\ f a s1 = Ok (b, s').
Proof. unfold mbind, M_bind. destruct (m s) as [[a s1]| |]; naive_solver. Qed.

Lemma run_fmap_inv {A B} (f : A -> B) (m : M S A) s b s' :
  (f <$> m) s = Ok (b, s') -> exists a, m s = Ok (a, s') /\ b = f a.
Proof. intros (a & s1 & Hm & Hr)%run_bind_inv. injection Hr as <- <-. by exists a. Qed.

Lemma keeps_ret {A} (a : A) : keeps R (mret a).
Proof. by intros s b s' [= <- <-]. Qed.
Lemma keeps_bind {A B} (m : M S A) (f : A -> M S B) : keeps R m -> (forall a, keeps R (f a)) -> keeps R (m ≫= f).
Proof. intros Hm Hf s b s' (a & s1 & H1 & H2)%run_bind_inv. etrans; [by eapply Hm|by eapply Hf]. Qed.
Lemma keeps_fmap {A B} (f : A -> B) (m : M S A) : keeps R m -> keeps R (f <$> m).
Proof. intros Hm. apply keeps_bind; [done|]. intros a. apply keeps_ret. Qed.
Lemma keeps_get : keeps R get.
Proof. by intros s b s' [= <- <-]. Qed.
Lemma keeps_gets {A} (f : S -> A) : keeps R (gets f).
Proof. by intros s b s' [= <- <-]. Qed.
Lemma keeps_panic {A} : keeps R (@panic S A).
Proof. done. Qed.
Lemma keeps_unwrap {A} (o : option A) : keeps R (unwrap o).
Proof. destruct o; [apply keeps_ret|apply keeps_panic]. Qed.
Lemma keeps_modify f : (forall s, R s (f s)) -> keeps R (modify f).
Proof. intros Hf s a s' [= <- <-]. apply Hf. Qed.
Lemma keeps_when (b : bool) (m : M S unit) : keeps R m -> keeps R (when b m).
Proof. intros Hm. destruct b; [done|apply keeps_ret]. Qed.
Lemma keeps_if {A} (b : bool) (m1 m2 : M S A) : keeps R m1 -> keeps R m2 -> keeps R (if b then m1 else m2).
Proof. by destruct b. Qed.
Lemma keeps_iter {L A} fuel (body : L -> M S (L + A)) l : (forall l, keeps R (body l)) -> keeps R (iter fuel body l).
Proof.
  intros Hb. revert l. induction fuel as [|fuel IH]; intros l; cbn [iter]; [done|].
  apply keeps_bind; [apply Hb|]. intros [l'|a]; [apply IH|apply keeps_ret].
Qed.
Lemma keeps_weaken {A} (R' : S -> S -> Prop) (m : M S A) : keeps R' m -> (forall s s', R' s s' -> R s s') -> keeps R m.
Proof. intros Hm HR s a s' Hr. by eapply HR, Hm. Qed.
End keeps.

Arguments keeps : simpl never.

(** ** What the parser keeps *)
Definition coherent (p : Parser) : Prop := token p = ScannerState.token (scanner p).

(** All but the contexts. *)
Record Loose (p p' : Parser) : Prop := mkLoose {
  loose_text : source_text p' = source_text p;
  loose_variant : language_variant p' = language_variant p;
  loose_coherent : coherent p -> coherent p';
  (** errors are only added *)
  loose_diagnostics : diagnostics p `prefix_of` diagnostics p';
  loose_js_diagnostics : js_diagnostics p `prefix_of` js_diagnostics p';
  loose_clones : reparsed_clones p `prefix_of` reparsed_clones p';
}.

Record Frame (p p' : Parser) : Prop := mkFrame {
  frame_loose : Loose p p';
  frame_flags : context_flags p' = context_flags p;
  frame_contexts : parsing_contexts p' = parsing_contexts p;
}.

#[global] Instance Loose_preorder : PreOrder Loose.
Proof.
  split; [by intros p|]. intros p1 p2 p3 [] []. split; [congruence|congruence|tauto|by etrans..].
Qed.
#[global] Instance Frame_preorder : PreOrder Frame.
Proof. split; [by intros p|]. intros p1 p2 p3 [] []. split; [by etrans|congruence|congruence]. Qed.

(** An update of a field that is neither. *)
Lemma keeps_set f :
  (forall p, source_text (f p) = source_text p /\ language_variant (f p) = language_variant p
     /\ context_flags (f p) = context_flags p /\ parsing_contexts (f p) = parsing_contexts p
     /\ diagnostics (f p) = diagnostics p /\ js_diagnostics (f p) = js_diagnostics p
     /\ reparsed_clones (f p) = reparsed_clones p
     /\ (coherent p -> coherent (f p))) -> keeps Frame (modify f).
Proof.
  intros Hf. apply keeps_modify. intros p. destruct (Hf p) as (? & ? & ? & ? & Hd & Hj & Hc & ?).
  split; [split|..]; rewrite ?Hd, ?Hj, ?Hc; done.
Qed.

Create HintDb keeps.

Ltac keeps_field := apply keeps_set; intros ?; (repeat apply conj); [reflexivity..|intros Hcoherent; exact Hcoherent].

(** Follow the structure of the code. *)
Ltac keeps_step :=
  lazymatch goal with
  | |- keeps _ (_ ≫= _) => apply keeps_bind; [apply _| |intros ?]
  | |- keeps _ (_ <$> _) => apply keeps_fmap; [apply _|]
  | |- keeps _ (when _ _) => apply keeps_when; [apply _|]
  | |- keeps _ (iter _ _ _) => apply keeps_iter; [apply _|intros ?]
  | |- keeps _ (if ?b then _ else _) => first [apply keeps_if | destruct b]
  | |- keeps _ (let '(_, _) := ?x in _) => destruct x
  | |- keeps _ (match ?x with _ => _ end) => destruct x
  end.
Ltac keeps_leaf :=
  lazymatch goal with
  | |- keeps _ (mret _) => apply keeps_ret; apply _
  | |- keeps _ get => apply keeps_get; apply _
  | |- keeps _ (gets _) => apply keeps_gets; apply _
  | |- keeps _ (ask _) => apply keeps_gets; apply _
  | |- keeps _ panic => apply keeps_panic
  | |- keeps _ out_of_fuel => done
  | |- keeps _ (unwrap _) => apply keeps_unwrap; apply _
  | |- keeps _ _ => solve [auto 4 with keeps]
  end.
Ltac keeps_go := repeat first [keeps_leaf | keeps_step].
Ltac keeps_solve := cbv beta zeta; keeps_go.

(** ** The scanner returns the token it stops at *)
Section scan.
Context `{JsNumber}.

Definition ends_with {S A} (P : A -> S -> Prop) (m : M S A) : Prop := forall s a s', m s = Ok (a, s') -> P a s'.

Lemma ends_bind {S A B} (P : B -> S -> Prop) (m : M S A) (f : A -> M S B) :
  (forall a, ends_with P (f a)) -> ends_with P (m ≫= f).
Proof. intros Hf s b s' (a & s1 & _ & H2)%run_bind_inv. by eapply Hf. Qed.

Lemma ends_iter {S L A} (P : A -> S -> Prop) fuel (body : L -> M S (L + A)) l :
  (forall l, ends_with (fun r s => match r with inl _ => True | inr a => P a s end) (body l)) ->
  ends_with P (iter fuel body l).
Proof.
  intros Hb. revert l. induction fuel as [|fuel IH]; intros l s a s'; cbn [iter]; [done|].
  intros ([l'|a'] & s1 & H1 & H2)%run_bind_inv; [by apply IH in H2|]. injection H2 as <- <-. by apply Hb in H1.
Qed.

Definition token_result (k : Kind) (s : Scanner) : Prop := ScannerState.token s = k.
Definition arm_result (r : unit + Kind) (s : Scanner) : Prop :=
  match r with inl _ => True | inr k => token_result k s end.

Lemma continue_result : ends_with arm_result continue_.
Proof. by intros s r s' [= <- <-]. Qed.
Lemma done_result : ends_with arm_result done_.
Proof. by intros s r s' [= <- <-]. Qed.
Lemma token_ends : ends_with token_result (gets ScannerState.token).
Proof. by intros s r s' [= <- <-]. Qed.

Ltac ends_go :=
  repeat first
    [ apply continue_result | apply done_result | apply token_ends
    | lazymatch goal with
      | |- ends_with _ (if ?b then _ else _) => destruct b
      | |- ends_with _ (let '(_, _) := ?x in _) => destruct x
      | |- ends_with _ (match ?x with _ => _ end) => destruct x
      | |- ends_with _ (_ ≫= _) => apply ends_bind; intros ?
      end ].

Lemma scan_match_result ch : ends_with arm_result (scan_match ch).
Proof.
  unfold scan_match, scan_whitespace, scan_newline, scan_slash, scan_single_line_comment, scan_multi_line_comment,
    or_conflict_marker, scan_hash, scan_other. ends_go.
Qed.

Lemma scan_result : ends_with token_result scan.
Proof.
  unfold scan, loop. apply ends_bind; intros []. apply ends_bind; intros []. apply ends_bind; intros s.
  apply ends_iter. intros []. unfold scan_iteration. do 3 (apply ends_bind; intros ?). apply scan_match_result.
Qed.

Lemma rescan_less_result : ends_with token_result Scanner.rescan_less_than_token.
Proof. unfold Scanner.rescan_less_than_token. ends_go. Qed.
Lemma rescan_greater_result : ends_with token_result Scanner.rescan_greater_than_token.
Proof. unfold Scanner.rescan_greater_than_token. ends_go. Qed.
Lemma rescan_template_result b : ends_with token_result (Scanner.rescan_template_token b).
Proof. unfold Scanner.rescan_template_token. ends_go. Qed.
Lemma rescan_slash_result `{SpellingSuggestions} b : ends_with token_result (RegExp.rescan_slash_token b).
Proof. unfold RegExp.rescan_slash_token. ends_go. Qed.
End scan.

(** ** Tokens *)
Section tokens.
Context `{JsNumber}.

Lemma on_scanner_inv {A} (m : MS A) p a p' :
  on_scanner m p = Ok (a, p') -> exists s, m (scanner p) = Ok (a, s) /\ p' = set_scanner s p.
Proof. unfold on_scanner. destruct (m (scanner p)) as [[b s]| |]; [|done..]. intros [= <- <-]. by exists s. Qed.

Lemma keeps_parse_error_at_range loc message args : keeps Frame (parse_error_at_range loc message args).
Proof.
  intros p u p' (? & ? & [= <- <-] & Hr)%run_bind_inv. apply run_bind_inv in Hr as ([] & p1 & Hw & Hr).
  assert (keeps Frame (modify (set_has_parse_error true))) as Hset by keeps_field.
  etrans; [|by eapply Hset]. clear Hr. destruct (match last _ with Some _ => _ | None => _ end); [|by injection Hw as <-].
  injection Hw as <-. split; [split|..]; try done. by eexists.
Qed.
#[local] Hint Resolve keeps_parse_error_at_range : keeps.

Lemma keeps_parse_error_at pos end_ message args : keeps Frame (parse_error_at pos end_ message args).
Proof. apply keeps_parse_error_at_range. Qed.
Lemma keeps_parse_error_at_current_token message args : keeps Frame (parse_error_at_current_token message args).
Proof. unfold parse_error_at_current_token, ask. keeps_go. Qed.
Lemma keeps_drain : keeps Frame drain_scanner_diagnostics.
Proof.
  unfold drain_scanner_diagnostics, ask. keeps_step; [keeps_go|]. keeps_step; [keeps_field|].
  induction a as [|d ds IH]; cbn [report_all]; keeps_go.
Qed.

(** Reporting errors leaves the scanner alone. *)
Definition same_scanner (p p' : Parser) : Prop := scanner p' = scanner p.
#[local] Instance same_scanner_preorder : PreOrder same_scanner.
Proof. split; [done|]. unfold same_scanner. intros p1 p2 p3 ? ?. congruence. Qed.

Lemma keeps_report_all ds : keeps same_scanner (report_all ds).
Proof.
  induction ds as [|d ds IH]; cbn [report_all]; [keeps_go|]. unfold parse_error_at_range. keeps_go.
  all: by apply keeps_modify.
Qed.

(** The step that makes the scanner's token the parser's. *)
Lemma coherent_set k p s : ScannerState.token s = k -> coherent (set_token k (set_scanner s p)).
Proof. by intros <-. Qed.

Lemma keeps_rescan m : ends_with token_result m -> keeps Frame (rescan m).
Proof.
  intros Hm p k p' (k' & p1 & (s & Hr & ->)%on_scanner_inv & H2)%run_bind_inv. injection H2 as <- <-.
  split; [split|..]; try done. intros _. by eapply coherent_set, Hm.
Qed.

Lemma next_unchecked_coherent p k p' : next_token_without_check p = Ok (k, p') -> coherent p'.
Proof.
  intros (k' & p1 & (s & Hr & ->)%on_scanner_inv & H2)%run_bind_inv.
  apply run_bind_inv in H2 as ([] & p2 & H2 & H3). injection H3 as <- <-.
  pose proof (scan_result _ _ _ Hr) as Ht. red in Ht. unfold drain_scanner_diagnostics in H2.
  apply run_bind_inv in H2 as (ds & p3 & H2 & H3). injection H2 as <- <-.
  apply run_bind_inv in H3 as ([] & p3 & H3 & H4). injection H3 as <-. apply keeps_report_all in H4.
  unfold coherent. red in H4. cbn in *. by rewrite H4.
Qed.
Lemma keeps_next_token_without_check : keeps Frame next_token_without_check.
Proof.
  intros p k p' Hr. pose proof (next_unchecked_coherent _ _ _ Hr) as Hc.
  apply run_bind_inv in Hr as (k' & p1 & (s & _ & ->)%on_scanner_inv & H2).
  apply run_bind_inv in H2 as ([] & p2 & [[H4 H5 _] H6 H7]%keeps_drain & H3). injection H3 as <- <-.
  by split; [split|..].
Qed.
#[local] Hint Resolve keeps_next_token_without_check : keeps.

Lemma keeps_next_token : keeps Frame next_token.
Proof. unfold next_token, ask. keeps_go; apply keeps_parse_error_at_current_token. Qed.
#[local] Hint Resolve keeps_next_token keeps_parse_error_at keeps_parse_error_at_current_token : keeps.

Lemma keeps_rescan_less : keeps Frame rescan_less_than_token.
Proof. apply keeps_rescan, rescan_less_result. Qed.
Lemma keeps_rescan_greater : keeps Frame rescan_greater_than_token.
Proof. apply keeps_rescan, rescan_greater_result. Qed.
Lemma keeps_rescan_template b : keeps Frame (rescan_template_token b).
Proof. apply keeps_rescan, rescan_template_result. Qed.
Lemma keeps_rescan_slash `{SpellingSuggestions} : keeps Frame rescan_slash_token.
Proof. apply keeps_rescan, rescan_slash_result. Qed.

(** A method of the scanner that only reads. *)
Lemma keeps_read {A} (m : MS A) : (forall s a s', m s = Ok (a, s') -> s' = s) -> keeps Frame (on_scanner m).
Proof. intros Hm p a p' (s & ->%Hm & ->)%on_scanner_inv. by destruct p. Qed.

Lemma keeps_token_value : keeps Frame (on_scanner token_value).
Proof.
  apply keeps_read. intros s a s' (? & s1 & [= <- <-] & H1)%run_bind_inv. destruct (token_value_ s) as [|i j|v].
  - by injection H1.
  - unfold unwrap in H1. destruct (slice _ _ _); [by injection H1|done].
  - by injection H1.
Qed.
Lemma keeps_token_text : keeps Frame (on_scanner token_text).
Proof.
  apply keeps_read. unfold token_text, text_slice. intros s a s' (? & s1 & [= <- <-] & H1)%run_bind_inv.
  apply run_bind_inv in H1 as (? & s1 & [= <- <-] & H1). unfold unwrap in H1.
  destruct (slice _ _ _); [by injection H1|done].
Qed.

(** ** Nodes *)
Lemma keeps_finish_node node pos : keeps Frame (finish_node node pos).
Proof. unfold finish_node, finish_node_with_end, node_pos. keeps_go. keeps_field. Qed.
#[local] Hint Resolve keeps_finish_node : keeps.
Lemma keeps_finish d pos : keeps Frame (finish d pos).
Proof. apply keeps_finish_node. Qed.
#[local] Hint Resolve keeps_finish : keeps.
Lemma keeps_token_is k : keeps Frame (token_is k).
Proof. unfold token_is. keeps_go. Qed.
#[local] Hint Resolve keeps_token_is : keeps.
Lemma keeps_parse_token_node : keeps Frame parse_token_node.
Proof. unfold parse_token_node, node_pos. keeps_go. Qed.
#[local] Hint Resolve keeps_parse_token_node : keeps.
Lemma keeps_parse_optional k : keeps Frame (parse_optional k).
Proof. unfold parse_optional. keeps_go. Qed.
Lemma keeps_parse_optional_token k : keeps Frame (parse_optional_token k).
Proof. unfold parse_optional_token. keeps_go. Qed.
#[local] Hint Resolve keeps_parse_optional_token : keeps.
Lemma keeps_parse_expected_with_diagnostic k m b : keeps Frame (parse_expected_with_diagnostic k m b).
Proof. unfold parse_expected_with_diagnostic. keeps_go. Qed.
Lemma keeps_parse_expected k : keeps Frame (parse_expected k).
Proof. apply keeps_parse_expected_with_diagnostic. Qed.
Lemma keeps_parse_expected_token k : keeps Frame (parse_expected_token k).
Proof. unfold parse_expected_token, node_pos. keeps_go. Qed.
Lemma keeps_new_identifier text : keeps Frame (new_identifier text).
Proof. unfold new_identifier. keeps_go; keeps_field. Qed.
#[local] Hint Resolve keeps_new_identifier : keeps.
Lemma keeps_create_missing_identifier : keeps Frame create_missing_identifier.
Proof. unfold create_missing_identifier, node_pos. keeps_go. Qed.

(** ** Contexts and speculation *)
Lemma keeps_loose {A} (m : MP A) : keeps Frame m -> keeps Loose m.
Proof. intros Hm. eapply keeps_weaken; [done|]. by intros p p' []. Qed.

Definition Flagless (p p' : Parser) : Prop := Loose p p' /\ parsing_contexts p' = parsing_contexts p.
#[export] Instance Flagless_preorder : PreOrder Flagless.
Proof. split; [by intros p|]. intros p1 p2 p3 [] []. split; [by etrans|congruence]. Qed.

Lemma keeps_flagless {A} (m : MP A) : keeps Frame m -> keeps Flagless m.
Proof. intros Hm. eapply keeps_weaken; [done|]. by intros p p' []. Qed.
Lemma keeps_set_context_flags_to f b : keeps Flagless (set_context_flags_to f b).
Proof. apply keeps_modify. intros p. by split; [split|..]. Qed.

(** Code that saves the context flags and restores them at its end. *)
Lemma keeps_restoring {A} (m : Z -> MP A) :
  (forall save, keeps Flagless (m save)) -> (forall save, ends_with (fun _ p => context_flags p = save) (m save)) ->
  keeps Frame (gets context_flags ≫= m).
Proof.
  intros Hm He p a p' (f & p0 & [= <- <-] & Hr)%run_bind_inv.
  pose proof (Hm _ _ _ _ Hr) as [H1 H2]. split; [done| |done]. by apply He in Hr.
Qed.

Lemma ends_restore {A} save (m : MP A) :
  keeps Frame m -> ends_with (fun _ p => context_flags p = save) (modify (set_context_flags save) ;; m).
Proof. intros Hm p a p' ([] & p0 & [= <-] & Hr)%run_bind_inv. by apply Hm in Hr as [_ H1 _]. Qed.

Lemma keeps_do_in_context {A} f b (m : MP A) : keeps Frame m -> keeps Frame (do_in_context f b m).
Proof.
  intros Hm p a p' (f0 & p0 & [= <- <-] & ([] & p1 & [= <-] & (a1 & p2 & H1 & ([] & p3 & [= <-] & [= <- <-])%run_bind_inv)%run_bind_inv)%run_bind_inv)%run_bind_inv.
  apply Hm in H1 as [[] ? ?]. split; [split|..]; done.
Qed.

(** Looking ahead gives back the token of the scanner, and drops the errors it added. *)
Lemma take_of_prefix {A} (l l' : list A) : l `prefix_of` l' -> take (length l) l' = l.
Proof. intros [k ->]. apply take_app_length. Qed.
Lemma rewind_frame p p' : Loose p p' -> parsing_contexts p' = parsing_contexts p -> Frame p (rewind (mark p) p').
Proof.
  intros [H1 H2 H3 Hd Hj Hc] H4. split; [split|..]; try done; cbn; by rewrite take_of_prefix.
Qed.

Lemma keeps_look_ahead {A} (m : MP A) : keeps Flagless m -> keeps Frame (look_ahead m).
Proof.
  intros Hm p a p' (st & p0 & [= <- <-] & (a1 & p1 & H1 & ([] & p2 & [= <-] & [= <- <-])%run_bind_inv)%run_bind_inv)%run_bind_inv.
  apply Hm in H1 as [H1 H2]. by apply rewind_frame.
Qed.
End tokens.

Ltac flagless_leaf :=
  lazymatch goal with
  | |- keeps Flagless (set_context_flags_to _ _) => apply keeps_set_context_flags_to
  | |- keeps Flagless (modify _) => apply keeps_modify; intros ?; split; [split|]; done
  | |- keeps Flagless _ => apply keeps_flagless; keeps_leaf
  end.
Ltac flagless_go := repeat first [flagless_leaf | keeps_step].
Ltac ends_flags := repeat first [apply ends_restore; solve [keeps_go] | apply ends_bind; intros ?].
(** Code that restores the context flags. *)
Ltac keeps_saved := apply keeps_restoring; intros ?; [flagless_go|ends_flags].

#[export] Hint Resolve keeps_parse_error_at_range keeps_parse_error_at keeps_parse_error_at_current_token
  keeps_next_token_without_check keeps_next_token keeps_rescan_less keeps_rescan_greater keeps_rescan_template
  keeps_rescan_slash keeps_token_value keeps_token_text keeps_finish_node keeps_finish keeps_token_is
  keeps_parse_token_node keeps_parse_optional keeps_parse_optional_token keeps_parse_expected
  keeps_parse_expected_token keeps_new_identifier keeps_create_missing_identifier : keeps.

(** ** Expressions *)
Class FramedParts (parts : ExpressionParts) : Prop := {
  framed_operand : keeps Frame parse_left_hand_side_expression_or_higher;
  framed_type : keeps Frame parse_type;
  framed_jsx b z o u : keeps Frame (parse_jsx_element_or_self_closing_element_or_fragment b z o u);
  framed_js n : keeps Frame (check_js_syntax n);
  framed_arrow b : keeps Frame (try_parse_parenthesized_arrow_function_expression b);
  framed_async_arrow b : keeps Frame (try_parse_async_simple_arrow_function_expression b);
  framed_simple_arrow pos n b : keeps Frame (parse_simple_arrow_function_expression pos n b);
}.
#[export] Hint Resolve framed_operand framed_type framed_jsx framed_js framed_arrow framed_async_arrow
  framed_simple_arrow : keeps.

Section lookahead.
Context `{JsNumber}.

Lemma keeps_same_line : keeps Frame next_token_is_identifier_or_keyword_or_literal_on_same_line.
Proof. unfold next_token_is_identifier_or_keyword_or_literal_on_same_line, has_preceding_line_break. keeps_go. Qed.
Lemma keeps_or_greater_than : keeps Frame next_token_is_identifier_or_keyword_or_greater_than.
Proof. unfold next_token_is_identifier_or_keyword_or_greater_than. keeps_go. Qed.
Lemma keeps_open_paren_or_less_than_or_dot : keeps Frame next_token_is_open_paren_or_less_than_or_dot.
Proof. unfold next_token_is_open_paren_or_less_than_or_dot. keeps_go. Qed.
Lemma keeps_look_ahead_frame {A} (m : MP A) : keeps Frame m -> keeps Frame (look_ahead m).
Proof. intros Hm. by apply keeps_look_ahead, keeps_flagless. Qed.
#[local] Hint Resolve keeps_same_line keeps_or_greater_than keeps_open_paren_or_less_than_or_dot
  keeps_look_ahead_frame : keeps.

Lemma keeps_is_identifier : keeps Frame is_identifier.
Proof. unfold is_identifier, in_yield_context, in_await_context, in_context. keeps_go. Qed.
#[local] Hint Resolve keeps_is_identifier : keeps.
Lemma keeps_is_binary_operator : keeps Frame is_binary_operator.
Proof. unfold is_binary_operator, in_disallow_in_context, in_context. keeps_go. Qed.
#[local] Hint Resolve keeps_is_binary_operator : keeps.
Lemma keeps_is_start_of_left_hand_side : keeps Frame is_start_of_left_hand_side_expression.
Proof. unfold is_start_of_left_hand_side_expression. keeps_go. Qed.
#[local] Hint Resolve keeps_is_start_of_left_hand_side : keeps.
Lemma keeps_is_start_of_expression : keeps Frame is_start_of_expression.
Proof. unfold is_start_of_expression. keeps_go. Qed.
Lemma keeps_is_yield_expression : keeps Frame is_yield_expression.
Proof. unfold is_yield_expression, in_yield_context, in_context. keeps_go. Qed.
Lemma keeps_is_await_expression : keeps Frame is_await_expression.
Proof. unfold is_await_expression, in_await_context, in_context. keeps_go. Qed.
End lookahead.
#[export] Hint Resolve keeps_look_ahead_frame keeps_is_identifier keeps_is_binary_operator
  keeps_is_start_of_left_hand_side keeps_is_start_of_expression keeps_is_yield_expression keeps_is_await_expression
  keeps_or_greater_than : keeps.

Section expressions.
Context `{JsNumber} {parts : ExpressionParts} `{!FramedParts parts}.

Lemma keeps_is_update_expression : keeps Frame is_update_expression.
Proof. unfold is_update_expression, is_jsx. keeps_go. Qed.
Lemma keeps_parse_update_expression : keeps Frame parse_update_expression.
Proof. unfold parse_update_expression, is_jsx, has_preceding_line_break, node_pos. keeps_go. Qed.
#[local] Hint Resolve keeps_is_update_expression keeps_parse_update_expression : keeps.

Lemma keeps_parse_prefixed operand d : keeps Frame operand -> keeps Frame (parse_prefixed operand d).
Proof. intros Ho. unfold parse_prefixed, node_pos. keeps_go. Qed.
Lemma keeps_parse_type_assertion operand : keeps Frame operand -> keeps Frame (parse_type_assertion operand).
Proof. intros Ho. unfold parse_type_assertion, is_jsx, node_pos. keeps_go. Qed.
#[local] Hint Resolve keeps_parse_prefixed keeps_parse_type_assertion : keeps.

Lemma keeps_parse_simple_unary_expression fuel : keeps Frame (parse_simple_unary_expression fuel).
Proof.
  induction fuel as [|fuel IH]; cbn [parse_simple_unary_expression]; [done|]. unfold is_jsx,
    parse_prefix_unary_expression, parse_delete_expression, parse_type_of_expression, parse_void_expression,
    parse_await_expression. keeps_go.
Qed.
#[local] Hint Resolve keeps_parse_simple_unary_expression : keeps.

Lemma keeps_unary_expression_or_higher rest fuel :
  (forall p l pos, keeps Frame (rest p l pos)) -> keeps Frame (unary_expression_or_higher rest fuel).
Proof. intros Hr. unfold unary_expression_or_higher, report_unary_base, node_pos. keeps_go. Qed.
#[local] Hint Resolve keeps_unary_expression_or_higher : keeps.

Lemma keeps_parse_binary_expression_rest fuel p l pos : keeps Frame (parse_binary_expression_rest fuel p l pos).
Proof.
  revert p l pos. induction fuel as [|fuel IH]; intros p l pos; cbn [parse_binary_expression_rest]; [done|].
  unfold in_disallow_in_context, in_context, has_preceding_line_break, make_satisfies_expression, make_as_expression,
    make_binary_expression, binary_expression_or_higher, node_pos. keeps_go.
Qed.
#[local] Hint Resolve keeps_parse_binary_expression_rest : keeps.
Lemma keeps_parse_binary_expression_or_higher fuel p : keeps Frame (parse_binary_expression_or_higher fuel p).
Proof. unfold parse_binary_expression_or_higher, binary_expression_or_higher, node_pos. keeps_go. Qed.
#[local] Hint Resolve keeps_parse_binary_expression_or_higher : keeps.

Lemma keeps_parse_yield_expression assignment :
  (forall b, keeps Frame (assignment b)) -> keeps Frame (parse_yield_expression assignment).
Proof. intros Ha. unfold parse_yield_expression, has_preceding_line_break, node_pos. keeps_go. Qed.

Lemma keeps_parse_conditional_expression_rest assignment left pos allow :
  (forall b, keeps Frame (assignment b)) ->
  keeps Frame (parse_conditional_expression_rest assignment left pos allow).
Proof.
  intros Ha. unfold parse_conditional_expression_rest. keeps_step; [keeps_go|]. destruct a as [q|]; [|keeps_go].
  keeps_saved.
Qed.
#[local] Hint Resolve keeps_parse_yield_expression keeps_parse_conditional_expression_rest : keeps.

Lemma keeps_parse_assignment fuel allow : keeps Frame (parse_assignment_expression_or_higher_worker fuel allow).
Proof.
  revert allow. induction fuel as [|fuel IH]; intros allow; cbn [parse_assignment_expression_or_higher_worker]; [done|].
  unfold make_binary_expression, node_pos. keeps_go.
Qed.
#[local] Hint Resolve keeps_parse_assignment : keeps.

Lemma keeps_parse_expression fuel : keeps Frame (ExprParser.parse_expression fuel).
Proof.
  unfold ExprParser.parse_expression, parse_assignment_expression_or_higher, comma_iteration, make_binary_expression, node_pos.
  keeps_saved.
Qed.
End expressions.
#[export] Hint Resolve keeps_parse_expression keeps_parse_assignment keeps_parse_binary_expression_or_higher : keeps.

(** ** Lists *)
Class FramedStarts (starts : ListStarts) : Prop := {
  framed_statement : keeps Frame is_start_of_statement;
  framed_type_member : keeps Frame scan_type_member_start;
  framed_class_member : keeps Frame scan_class_member_start;
  framed_start_of_type b : keeps Frame (is_start_of_type b);
}.
#[export] Hint Resolve framed_statement framed_type_member framed_class_member framed_start_of_type : keeps.

Section lists.
Context `{JsNumber} {starts : ListStarts} `{!FramedStarts starts}.

Lemma keeps_token_in ks : keeps Frame (token_in ks).
Proof. unfold token_in. keeps_go. Qed.
Lemma keeps_or_else a b : keeps Frame a -> keeps Frame b -> keeps Frame (or_else a b).
Proof. intros Ha Hb. unfold or_else. keeps_go. Qed.
Lemma keeps_and_then a b : keeps Frame a -> keeps Frame b -> keeps Frame (and_then a b).
Proof. intros Ha Hb. unfold and_then. keeps_go. Qed.
Lemma keeps_not a : keeps Frame a -> keeps Frame (not_ a).
Proof. intros Ha. unfold not_. keeps_go. Qed.
Lemma keeps_next_token_is k : keeps Frame (next_token_is k).
Proof. unfold next_token_is. keeps_go. Qed.
#[local] Hint Resolve keeps_token_in keeps_not keeps_next_token_is : keeps.
Lemma keeps_line_break : keeps Frame has_preceding_line_break.
Proof. unfold has_preceding_line_break. keeps_go. Qed.
#[local] Hint Resolve keeps_line_break : keeps.

Lemma keeps_is_heritage_clause : keeps Frame is_heritage_clause.
Proof. apply keeps_token_in. Qed.
Lemma keeps_is_binding_identifier : keeps Frame is_binding_identifier.
Proof. unfold is_binding_identifier. keeps_go. Qed.
#[local] Hint Resolve keeps_is_heritage_clause keeps_is_binding_identifier : keeps.

Ltac lists_go :=
  repeat first
    [ keeps_leaf
    | lazymatch goal with
      | |- keeps _ (or_else _ _) => apply keeps_or_else
      | |- keeps _ (and_then _ _) => apply keeps_and_then
      | |- keeps _ (not_ _) => apply keeps_not
      | |- keeps _ (look_ahead _) => apply keeps_look_ahead_frame
      end
    | keeps_step ].

Lemma keeps_is_list_element kind r : keeps Frame (is_list_element kind r).
Proof.
  destruct kind; cbn [is_list_element]; unfold is_start_of_parameter, start_of_parameter, is_binding_identifier,
    is_binding_identifier_or_private_identifier_or_pattern, is_literal_property_name, is_import_attribute_name,
    is_valid_heritage_clause_object_literal, next_is_valid_heritage_clause_object_literal, is_heritage_clause,
    is_heritage_clause_extends_or_implements_keyword, next_is_start_of_expression, next_token_is_token_string_literal;
    lists_go.
Qed.
Lemma keeps_is_list_terminator kind : keeps Frame (is_list_terminator kind).
Proof. unfold is_list_terminator. destruct kind; unfold can_parse_semicolon, next_token_is_slash; lists_go. Qed.
#[local] Hint Resolve keeps_is_list_element keeps_is_list_terminator : keeps.

Lemma keeps_some_context z cs : keeps Frame (some_context z cs).
Proof. induction cs as [|c cs IH]; cbn [some_context]; lists_go. Qed.
#[local] Hint Resolve keeps_some_context : keeps.
Lemma keeps_parsing_context_errors kind : keeps Frame (parsing_context_errors kind).
Proof. unfold parsing_context_errors, error_here. destruct kind; keeps_go. Qed.
#[local] Hint Resolve keeps_parsing_context_errors : keeps.
Lemma keeps_abort kind : keeps Frame (abort_parsing_list_or_move_to_next_token kind).
Proof. unfold abort_parsing_list_or_move_to_next_token, is_in_some_parsing_context. keeps_go. Qed.
#[local] Hint Resolve keeps_abort : keeps.

Lemma keeps_delimited_list_iteration kind element l :
  keeps Frame element -> keeps Frame (delimited_list_iteration kind element l).
Proof. intros He. unfold delimited_list_iteration, error_here, node_pos. keeps_go. Qed.

Lemma keeps_list_iteration kind element l : (forall i, keeps Frame (element i)) -> keeps Frame (list_iteration kind element l).
Proof. intros He. unfold list_iteration. keeps_go. Qed.

(** The contexts of lists are saved and restored like the flags. *)
Lemma keeps_parse_list fuel kind element : keeps Frame element -> keeps Frame (parse_list fuel kind element).
Proof.
  intros He. unfold parse_list, node_pos. keeps_step; [keeps_go|]. keeps_step; [|keeps_go].
  intros p r p' Hr. unfold parse_list_index in Hr.
  apply run_bind_inv in Hr as (? & p1 & [= <- <-] & Hr). apply run_bind_inv in Hr as ([] & p1 & [= <-] & Hr).
  apply run_bind_inv in Hr as (l & p2 & Hl & Hr).
  assert (keeps Frame (iter fuel (list_iteration kind (fun _ => element)) [])) as Hk.
  { apply keeps_iter; [apply _|]. intros ?. by apply keeps_list_iteration. }
  apply Hk in Hl as [[H1 H2 H3] H4 H5]. apply run_bind_inv in Hr as ([] & p3 & [= <-] & [= <- <-]). by split; [split|..].
Qed.

Lemma keeps_parse_delimited_list_opt fuel kind element :
  keeps Frame element -> keeps Frame (parse_delimited_list_opt fuel kind element).
Proof.
  intros He p r p' Hr. unfold parse_delimited_list_opt, node_pos, ask in Hr.
  apply run_bind_inv in Hr as (? & p1 & [= <- <-] & Hr). apply run_bind_inv in Hr as (? & p1 & [= <- <-] & Hr).
  apply run_bind_inv in Hr as ([] & p1 & [= <-] & Hr). apply run_bind_inv in Hr as (l & p2 & Hl & Hr).
  assert (keeps Frame (iter fuel (delimited_list_iteration kind element) (mkListLocals [] (-1)))) as Hk.
  { apply keeps_iter; [apply _|]. intros ?. by apply keeps_delimited_list_iteration. }
  apply Hk in Hl as [[H1 H2 H3] H4 H5]. apply run_bind_inv in Hr as ([] & p3 & [= <-] & Hr).
  destruct l as [l|]; [|by injection Hr as <- <-; split; [split|..]].
  apply run_bind_inv in Hr as (? & p4 & [= <- <-] & [= <- <-]). by split; [split|..].
Qed.

Lemma keeps_parse_delimited_list fuel kind element :
  keeps Frame element -> keeps Frame (parse_delimited_list fuel kind element).
Proof.
  intros He. unfold parse_delimited_list. keeps_step; [|keeps_go]. apply keeps_parse_delimited_list_opt. keeps_go.
Qed.
#[local] Hint Resolve keeps_parse_delimited_list : keeps.
Lemma keeps_parse_bracketed_list fuel kind element o c :
  keeps Frame element -> keeps Frame (parse_bracketed_list fuel kind element o c).
Proof. intros He. unfold parse_bracketed_list, create_missing_list, node_pos. keeps_go. Qed.
Lemma keeps_parse_expected_matching_brackets k : keeps Frame (parse_expected_matching_brackets k).
Proof. unfold parse_expected_matching_brackets. keeps_go. Qed.
End lists.
#[export] Hint Resolve keeps_token_in keeps_not keeps_next_token_is keeps_line_break keeps_parse_delimited_list
  keeps_parse_bracketed_list keeps_parse_expected_matching_brackets keeps_or_else keeps_and_then keeps_parse_list
  keeps_parse_delimited_list_opt keeps_is_binding_identifier : keeps.

(** ** Operands *)
Class FramedPrimary (parts : PrimaryParts) : Prop := {
  framed_type_ : keeps Frame type_;
  framed_jsx_ b z o u : keeps Frame (jsx_element b z o u);
  framed_js_ n : keeps Frame (js_syntax n);
  framed_object : keeps Frame parse_object_literal_expression;
  framed_function : keeps Frame parse_function_expression;
  framed_class : keeps Frame parse_class_expression;
  framed_decorated : keeps Frame parse_decorated_expression;
  framed_paren_arrow a b : keeps Frame (parse_parenthesized_arrow_function_expression a b);
  framed_simple_arrow_ pos n b m : keeps Frame (simple_arrow_function pos n b m);
}.
#[export] Hint Resolve framed_type_ framed_jsx_ framed_js_ framed_object framed_function framed_class framed_decorated
  framed_paren_arrow framed_simple_arrow_ : keeps.

Section members.
Context `{JsNumber} `{SpellingSuggestions} {starts : ListStarts} {primary : PrimaryParts}.
Context `{!FramedStarts starts} `{!FramedPrimary primary}.

Lemma keeps_error_at_token_or_end m args : keeps Frame (error_at_token_or_end m args).
Proof. unfold error_at_token_or_end, node_pos. keeps_go. Qed.
Lemma keeps_accept_identifier : keeps Frame accept_identifier.
Proof. unfold accept_identifier, node_pos. keeps_go. Qed.
#[local] Hint Resolve keeps_error_at_token_or_end keeps_accept_identifier : keeps.
Lemma keeps_create_identifier_with_diagnostic b d p : keeps Frame (create_identifier_with_diagnostic b d p).
Proof. unfold create_identifier_with_diagnostic. keeps_go. Qed.
#[local] Hint Resolve keeps_create_identifier_with_diagnostic : keeps.
Lemma keeps_parse_identifier_with_diagnostic d p : keeps Frame (parse_identifier_with_diagnostic d p).
Proof. unfold parse_identifier_with_diagnostic. keeps_go. Qed.
Lemma keeps_parse_identifier_name : keeps Frame parse_identifier_name.
Proof. unfold parse_identifier_name, parse_identifier_name_with_diagnostic. keeps_go. Qed.
Lemma keeps_parse_private_identifier : keeps Frame parse_private_identifier.
Proof. unfold parse_private_identifier, node_pos. keeps_go. Qed.
Lemma keeps_parse_literal_expression : keeps Frame parse_literal_expression.
Proof. unfold parse_literal_expression, node_pos. keeps_go. Qed.
Lemma keeps_parse_keyword_expression : keeps Frame parse_keyword_expression.
Proof. unfold parse_keyword_expression, node_pos. keeps_go. Qed.
#[local] Hint Resolve keeps_parse_identifier_with_diagnostic keeps_parse_identifier_name
  keeps_parse_private_identifier keeps_parse_literal_expression keeps_parse_keyword_expression : keeps.
Lemma keeps_parse_right_side_of_dot a b c : keeps Frame (parse_right_side_of_dot a b c).
Proof.
  unfold parse_right_side_of_dot, missing_name, parse_identifier_name_error_on_unicode_escape_sequence,
    create_identifier, parse_identifier, next_token_is_identifier_or_keyword_on_same_line, node_pos.
  keeps_go; apply keeps_look_ahead_frame || keeps_field. keeps_go.
Qed.
#[local] Hint Resolve keeps_parse_right_side_of_dot : keeps.

Context (parse_expression : MP Node) (assignment : bool -> MP Node) (binary : MP Node) (fuel : nat).
Context (Hexpression : keeps Frame parse_expression) (Hassignment : forall b, keeps Frame (assignment b)).
Context (Hbinary : keeps Frame binary).

Lemma keeps_allow_in m : keeps Frame m -> keeps Frame (allow_in m).
Proof. apply keeps_do_in_context. Qed.
#[local] Hint Resolve keeps_allow_in : keeps.

Lemma keeps_template_part k n : keeps Frame (template_part k n).
Proof. unfold template_part, get_template_literal_raw_text, node_pos. keeps_go. Qed.
#[local] Hint Resolve keeps_template_part : keeps.
Lemma keeps_parse_template_head b : keeps Frame (parse_template_head b).
Proof. unfold parse_template_head, token_is_invalid. keeps_go. Qed.
Lemma keeps_parse_literal_of_template_span b : keeps Frame (parse_literal_of_template_span b).
Proof. unfold parse_literal_of_template_span, parse_template_middle_or_tail, node_pos. keeps_go. Qed.
#[local] Hint Resolve keeps_parse_template_head keeps_parse_literal_of_template_span : keeps.
Lemma keeps_parse_template_expression b : keeps Frame (parse_template_expression parse_expression fuel b).
Proof.
  unfold parse_template_expression, parse_template_spans, template_spans_iteration, parse_template_span, node_pos.
  keeps_go.
Qed.
#[local] Hint Resolve keeps_parse_template_expression : keeps.
Lemma keeps_parse_tagged_template_rest pos t q a :
  keeps Frame (parse_tagged_template_rest parse_expression fuel pos t q a).
Proof. unfold parse_tagged_template_rest, finish_chain. keeps_go. Qed.
#[local] Hint Resolve keeps_parse_tagged_template_rest : keeps.

Lemma keeps_parse_argument_or_array_literal_element : keeps Frame (parse_argument_or_array_literal_element assignment).
Proof. unfold parse_argument_or_array_literal_element, parse_spread_element, node_pos. keeps_go. Qed.
#[local] Hint Resolve keeps_parse_argument_or_array_literal_element : keeps.
Lemma keeps_parse_array_literal_expression : keeps Frame (parse_array_literal_expression assignment fuel).
Proof. unfold parse_array_literal_expression, node_pos. keeps_go. Qed.
Lemma keeps_parse_argument_list : keeps Frame (parse_argument_list assignment fuel).
Proof.
  unfold parse_argument_list. apply keeps_parse_bracketed_list, keeps_do_in_context. keeps_go.
Qed.
#[local] Hint Resolve keeps_parse_array_literal_expression keeps_parse_argument_list : keeps.

Lemma keeps_can_follow : keeps Frame can_follow_type_arguments_in_expression.
Proof.
  unfold can_follow_type_arguments_in_expression. keeps_step; [keeps_go|].
  assert (keeps Frame (or_else has_preceding_line_break (or_else is_binary_operator (not_ is_start_of_expression))))
    by (repeat apply keeps_or_else; keeps_go). keeps_go.
Qed.
#[local] Hint Resolve keeps_can_follow : keeps.
Lemma keeps_type_arguments_attempt : keeps Frame (type_arguments_attempt fuel).
Proof. unfold type_arguments_attempt, in_context. keeps_go. Qed.

(** A rewound attempt. *)
Lemma keeps_attempt {A} (m : MP (option A)) :
  keeps Frame m ->
  keeps Frame (state ← gets mark; r ← m;
               match r with Some a => mret (Some a) | None => modify (rewind state) ;; mret None end).
Proof.
  intros Hm p r p' (st & p0 & [= <- <-] & (o & p1 & H1%Hm & H2)%run_bind_inv)%run_bind_inv.
  destruct o as [a|]; [by injection H2 as <- <-|]. apply run_bind_inv in H2 as ([] & p2 & [= <-] & [= <- <-]).
  destruct H1 as [H1 H2 H3]. by apply rewind_frame.
Qed.
Lemma keeps_try_parse_type_arguments : keeps Frame (try_parse_type_arguments_in_expression fuel).
Proof. apply keeps_attempt, keeps_type_arguments_attempt. Qed.
#[local] Hint Resolve keeps_try_parse_type_arguments : keeps.

Lemma keeps_parse_property_access_expression_rest pos e q :
  keeps Frame (parse_property_access_expression_rest pos e q).
Proof. unfold parse_property_access_expression_rest, skip_range_trivia, finish_chain. keeps_go. Qed.
Lemma keeps_parse_element_access_expression_rest pos e q :
  keeps Frame (parse_element_access_expression_rest parse_expression pos e q).
Proof. unfold parse_element_access_expression_rest, finish_chain, node_pos. keeps_go. Qed.
#[local] Hint Resolve keeps_parse_property_access_expression_rest keeps_parse_element_access_expression_rest : keeps.

Lemma keeps_is_template_start : keeps Frame is_template_start_of_tagged_template.
Proof. apply keeps_token_in. Qed.
#[local] Hint Resolve keeps_is_template_start : keeps.
Lemma keeps_is_start_of_optional_chain : keeps Frame is_start_of_optional_property_or_element_access_chain.
Proof.
  unfold is_start_of_optional_property_or_element_access_chain. apply keeps_and_then; [keeps_go|].
  apply keeps_look_ahead_frame. unfold next_token_is_identifier_or_keyword_or_open_bracket_or_template. keeps_go.
Qed.
#[local] Hint Resolve keeps_is_start_of_optional_chain : keeps.
Lemma keeps_member_iteration pos b e : keeps Frame (member_iteration parse_expression fuel pos b e).
Proof. unfold member_iteration, in_decorator_context, in_context. keeps_go. Qed.
#[local] Hint Resolve keeps_member_iteration : keeps.
Lemma keeps_parse_member_expression_rest pos e b :
  keeps Frame (parse_member_expression_rest parse_expression fuel pos e b).
Proof. unfold parse_member_expression_rest. keeps_go. Qed.
#[local] Hint Resolve keeps_parse_member_expression_rest : keeps.
Lemma keeps_parse_call_rest pos e q a : keeps Frame (parse_call_rest assignment fuel pos e q a).
Proof. unfold parse_call_rest, finish_chain. keeps_go. Qed.
#[local] Hint Resolve keeps_parse_call_rest : keeps.
Lemma keeps_parse_call_expression_rest pos e :
  keeps Frame (parse_call_expression_rest parse_expression assignment fuel pos e).
Proof. unfold parse_call_expression_rest, call_iteration, finish_chain. keeps_go. Qed.
#[local] Hint Resolve keeps_parse_call_expression_rest : keeps.

Lemma keeps_parse_parenthesized_expression : keeps Frame (parse_parenthesized_expression parse_expression).
Proof. unfold parse_parenthesized_expression, node_pos. keeps_go. Qed.
#[local] Hint Resolve keeps_parse_parenthesized_expression : keeps.
Lemma keeps_function_keyword : keeps Frame next_token_is_function_keyword_on_same_line.
Proof. unfold next_token_is_function_keyword_on_same_line. keeps_go. Qed.
#[local] Hint Resolve keeps_function_keyword : keeps.
Lemma keeps_primary_expression new :
  keeps Frame new -> keeps Frame (primary_expression parse_expression assignment fuel new).
Proof. intros Hnew. unfold primary_expression, token_is_invalid. keeps_go. Qed.
#[local] Hint Resolve keeps_primary_expression : keeps.
Lemma keeps_parse_new_expression depth :
  keeps Frame (parse_new_expression_or_new_dot_target parse_expression assignment fuel depth).
Proof.
  induction depth as [|depth IH]; cbn [parse_new_expression_or_new_dot_target]; [done|]. unfold node_pos. keeps_go.
Qed.
#[local] Hint Resolve keeps_parse_new_expression : keeps.
Lemma keeps_parse_member_expression_or_higher :
  keeps Frame (parse_member_expression_or_higher parse_expression assignment fuel).
Proof. unfold parse_member_expression_or_higher, parse_primary_expression, node_pos. keeps_go. Qed.
#[local] Hint Resolve keeps_parse_member_expression_or_higher : keeps.
Lemma keeps_parse_super_expression : keeps Frame (parse_super_expression fuel).
Proof. unfold parse_super_expression, node_pos. keeps_go. Qed.
Lemma keeps_add_source_flags f : keeps Frame (add_source_flags f).
Proof. unfold add_source_flags. keeps_field. Qed.
#[local] Hint Resolve keeps_parse_super_expression keeps_add_source_flags : keeps.
Lemma keeps_parse_import_expression pos :
  keeps Frame (parse_import_expression parse_expression assignment fuel pos).
Proof. unfold parse_import_expression, next_token_is_open_paren_or_less_than, next_token_is_dot. keeps_go.
  apply keeps_look_ahead_frame. keeps_go.
Qed.
#[local] Hint Resolve keeps_parse_import_expression : keeps.
Lemma keeps_left_hand_side :
  keeps Frame (left_hand_side_expression_or_higher parse_expression assignment fuel).
Proof. unfold left_hand_side_expression_or_higher, node_pos. keeps_go. Qed.

Lemma keeps_next_is_parenthesized : keeps Frame next_is_parenthesized_arrow_function_expression.
Proof.
  assert (keeps Frame next_token_is_identifier) by (unfold next_token_is_identifier; keeps_go).
  assert (keeps Frame is_arrow_function_in_jsx) by (unfold is_arrow_function_in_jsx; keeps_go).
  assert (forall k, keeps Frame (next_is_parenthesized_after_open_paren k)).
  { intros k. unfold next_is_parenthesized_after_open_paren, next_is_parenthesized_after_identifier. keeps_go. }
  unfold next_is_parenthesized_arrow_function_expression. keeps_go.
Qed.
#[local] Hint Resolve keeps_next_is_parenthesized : keeps.
Lemma keeps_try_parenthesized_arrow_function b : keeps Frame (try_parenthesized_arrow_function b).
Proof.
  unfold try_parenthesized_arrow_function. keeps_step; [unfold is_parenthesized_arrow_function_expression; keeps_go|].
  destruct a; [|keeps_go..]. apply keeps_attempt. unfold parse_possible_parenthesized_arrow_function_expression.
  keeps_go. keeps_field.
Qed.
Lemma keeps_try_async_simple_arrow_function b : keeps Frame (try_async_simple_arrow_function binary b).
Proof.
  unfold try_async_simple_arrow_function, parse_modifiers_for_arrow_function, node_pos. keeps_go.
  apply keeps_and_then; [keeps_go|]. apply keeps_look_ahead_frame. unfold next_is_unparenthesized_async_arrow_function.
  keeps_go.
Qed.
End members.

Section knot.
Context `{JsNumber} `{SpellingSuggestions} {starts : ListStarts} {primary : PrimaryParts}.
Context `{!FramedStarts starts} `{!FramedPrimary primary}.

#[export] Instance framed_expression_parts fuel : FramedParts (expression_parts fuel).
Proof.
  induction fuel as [|fuel IH]; split; try done; cbn; intros.
  all: try solve [apply framed_type_ | apply framed_jsx_ | apply framed_js_ | apply framed_simple_arrow_].
  - apply keeps_left_hand_side; intros; keeps_go.
  - apply keeps_try_parenthesized_arrow_function.
  - apply keeps_try_async_simple_arrow_function; keeps_go.
Qed.
End knot.
