(* ===== verification/ExprGrammar.v ===== *)
(** * ExprGrammar: the grammar of unary and binary expressions

    A derivation [Binary lo hi p e p'] reads the expression [e] between the states [p] and [p'] of the parser. [lo] is the
    lowest precedence of an operator outside the operands of [e], [hi] the highest of an operator that may take [e] as
    its left operand: a unary expression has 16 for both, an operator of precedence [n] makes them [n] (and [lo] the
    minimum), which is left associativity; [**] takes a right operand of its own level. Two productions are not those of
    ECMAScript: after [as] or [satisfies] an operator of any precedence may follow, and a unary expression before [**] is
    reported as an error and then read all the same. In ParserInv.v's terms every end state has its operator munched:
    scanning [>] again changes nothing. *)
From S2P Require Import Prelude Text Chars SyntaxKind Monad JsNum Keywords.
From S2P Require Import ScannerState ScannerOps Scanner RegExp CoreTypes Ast Precedence ParserState ExprParser ParserInv.
From S2P Require Import RescanTotal.

(** ** Precedences *)

(** The level of the operands that [parse_binary_expression_or_higher] reads at a precedence: [**] associates to the
    right. *)
Definition level (precedence : Z) : Z := if precedence =? 15 then 15 else precedence + 1.

(** The binary operators by precedence, those of ECMAScript's grammar with TypeScript's [as] and [satisfies], which are
    relational: the loosest first. *)
Definition operator_levels : list (Z * list Kind) :=
  [(5, [Kind.QuestionQuestionToken; Kind.BarBarToken]);
   (6, [Kind.AmpersandAmpersandToken]);
   (7, [Kind.BarToken]);
   (8, [Kind.CaretToken]);
   (9, [Kind.AmpersandToken]);
   (10, [Kind.EqualsEqualsToken; Kind.ExclamationEqualsToken; Kind.EqualsEqualsEqualsToken;
         Kind.ExclamationEqualsEqualsToken]);
   (11, [Kind.LessThanToken; Kind.GreaterThanToken; Kind.LessThanEqualsToken; Kind.GreaterThanEqualsToken;
         Kind.InstanceOfKeyword; Kind.InKeyword; Kind.AsKeyword; Kind.SatisfiesKeyword]);
   (12, [Kind.LessThanLessThanToken; Kind.GreaterThanGreaterThanToken; Kind.GreaterThanGreaterThanGreaterThanToken]);
   (13, [Kind.PlusToken; Kind.MinusToken]);
   (14, [Kind.AsteriskToken; Kind.SlashToken; Kind.PercentToken]);
   (15, [Kind.AsteriskAsteriskToken])].

(** The precedence of a token, -1 for one that is no binary operator. *)
Definition precedence_of (t : Kind) : Z :=
  match find (fun l => existsb (Kind_eqb t) l.2) operator_levels with Some (n, _) => n | None => -1 end.

(** An operator takes what is left of it from an operator of precedence [q]: it binds tighter, or both are [**]. *)
Definition binds (t : Kind) (q : Z) : bool :=
  (q <? precedence_of t) || (Kind_eqb t Kind.AsteriskAsteriskToken && (q =? precedence_of t)).

(** The parser's precedences are those. *)
Lemma precedence_spec t : get_binary_operator_precedence t = precedence_of t.
Proof. by destruct t. Qed.

Lemma consumes_binds t q : consumes t q = binds t q.
Proof.
  unfold consumes, binds. rewrite precedence_spec. destruct (Kind_eqb t _); [|by rewrite orb_false_r].
  apply eq_true_iff_eq. rewrite orb_true_iff, Z.leb_le, andb_true_l, Z.ltb_lt, Z.eqb_eq. lia.
Qed.

Lemma precedence_range t : -1 <= precedence_of t <= 15.
Proof. destruct t; vm_compute; split; discriminate. Qed.

Lemma precedence_power t : precedence_of t = 15 <-> t = Kind.AsteriskAsteriskToken.
Proof. split; [|by intros ->]. destruct t; vm_compute; done. Qed.

Lemma power : precedence_of Kind.AsteriskAsteriskToken = 15.
Proof. done. Qed.

Lemma binds_spec t q :
  binds t q = true <->
  q < precedence_of t \/ q = precedence_of t /\ t = Kind.AsteriskAsteriskToken.
Proof.
  unfold binds. rewrite orb_true_iff, andb_true_iff, Z.ltb_lt, Z.eqb_eq, Kind_eqb_eq. naive_solver.
Qed.

Lemma not_binds_mono t q q' : binds t q = false -> q <= q' -> binds t q' = false.
Proof.
  intros Hq Hle. apply not_true_iff_false in Hq. apply not_true_iff_false. rewrite binds_spec in *. intros H.
  apply Hq. destruct H as [H|[-> ->]]; [left; lia|]. rewrite power in *. destruct (decide (q = 15)); [by right|left; lia].
Qed.

Lemma binds_level t q : 0 <= q -> binds t q = true -> level q <= precedence_of t.
Proof.
  intros Hq. rewrite binds_spec. unfold level. pose proof (precedence_range t).
  intros [Hlt|[-> ->]]; [|done]. destruct (Z.eqb_spec q 15); lia.
Qed.

Section grammar.
Context `{JsNumber} {parts : ExpressionParts}.

(** ** Scanning [>] again *)
Definition munch (p p' : Parser) : Prop := exists t, rescan_greater_than_token p = Ok (t, p').
Definition munched (p : Parser) : Prop := rescan_greater_than_token p = Ok (token p, p).

(** ** States in which the loop over operators stops *)
Definition no_line_break (p : Parser) : Prop := has_preceding_line_break p = Ok (false, p).
Definition in_disallowed (p : Parser) : Prop :=
  token p = Kind.InKeyword /\ NodeFlags.has (context_flags p) NodeFlags.DISALLOW_IN_CONTEXT = true.
Definition is_as_operator (t : Kind) : bool := Kind_eqb t Kind.AsKeyword || Kind_eqb t Kind.SatisfiesKeyword.
Definition as_on_next_line (p : Parser) : Prop := is_as_operator (token p) = true /\ ~ no_line_break p.

Definition stops (precedence : Z) (p : Parser) : Prop :=
  binds (token p) precedence = false \/ in_disallowed p \/ as_on_next_line p.

(** ** Unary expressions *)

(** The prefix operators with the node each makes. *)
Definition prefix_operator (t : Kind) : option (Kind -> Node -> NodeData) :=
  match t with
  | Kind.PlusToken | Kind.MinusToken | Kind.TildeToken | Kind.ExclamationToken => Some PrefixUnaryExpression
  | Kind.DeleteKeyword => Some (fun _ => DeleteExpression)
  | Kind.TypeOfKeyword => Some (fun _ => TypeOfExpression)
  | Kind.VoidKeyword => Some (fun _ => VoidExpression)
  | _ => None
  end.

Definition pos_of (p : Parser) : Z := token_full_start (scanner p).
Definition jsx (p : Parser) : bool := ParserState.language_variant p =? LANGUAGE_VARIANT_JSX.

Inductive Simple : Parser -> Node -> Parser -> Prop :=
  | simple_prefix d p k p1 x p2 e p' :
      prefix_operator (token p) = Some d -> next_token p = Ok (k, p1) -> Simple p1 x p2 ->
      finish (d (token p) x) (pos_of p) p2 = Ok (e, p') -> Simple p e p'
  | simple_await p p0 k p1 x p2 e p' :
      token p = Kind.AwaitKeyword -> is_await_expression p = Ok (true, p0) -> next_token p0 = Ok (k, p1) ->
      Simple p1 x p2 -> finish (AwaitExpression x) (pos_of p0) p2 = Ok (e, p') -> Simple p e p'
  | simple_assertion p b1 p1 ty p2 b2 p3 x p4 e p' :
      token p = Kind.LessThanToken -> jsx p = false -> parse_expected Kind.LessThanToken p = Ok (b1, p1) ->
      parse_type p1 = Ok (ty, p2) -> parse_expected Kind.GreaterThanToken p2 = Ok (b2, p3) -> Simple p3 x p4 ->
      finish (TypeAssertion ty x) (pos_of p) p4 = Ok (e, p') -> Simple p e p'
  | simple_jsx p e p' :
      token p = Kind.LessThanToken -> jsx p = true ->
      parse_jsx_element_or_self_closing_element_or_fragment true (-1) None true p = Ok (e, p') -> Simple p e p'
  | simple_await_name p p0 e p' :
      token p = Kind.AwaitKeyword -> is_await_expression p = Ok (false, p0) ->
      parse_update_expression p0 = Ok (e, p') -> Simple p e p'
  | simple_update p e p' :
      prefix_operator (token p) = None -> token p <> Kind.AwaitKeyword -> token p <> Kind.LessThanToken ->
      parse_update_expression p = Ok (e, p') -> Simple p e p'.

Inductive Update (p : Parser) (e : Node) (p' : Parser) : Prop :=
  | update : is_update_expression p = Ok (true, p) -> parse_update_expression p = Ok (e, p') -> Update p e p'.

(** Starts with an operator. *)
Inductive Prefixed (p : Parser) (e : Node) (p' : Parser) : Prop :=
  | prefixed : is_update_expression p = Ok (false, p) -> Simple p e p' -> Prefixed p e p'.

Definition Unary (p : Parser) (e : Node) (p' : Parser) : Prop := Update p e p' \/ Prefixed p e p'.

(** ** Binary expressions *)
Definition make_as (t : Kind) (l ty : Node) : MP Node :=
  if Kind_eqb t Kind.SatisfiesKeyword then make_satisfies_expression l ty else make_as_expression l ty.

(** The left operand of [**] up to the operator: an update expression, or after an error one with a prefix. *)
Inductive PowerBase (p : Parser) (l : Node) (p' : Parser) : Prop :=
  | power_update p1 :
      Update p l p1 -> token p1 = Kind.AsteriskAsteriskToken -> munch p1 p' ->
      token p' = Kind.AsteriskAsteriskToken -> PowerBase p l p'
  | power_prefixed p1 p2 :
      Prefixed p l p1 -> token p1 = Kind.AsteriskAsteriskToken -> report_unary_base (token p) l p1 = Ok (tt, p2) ->
      munch p2 p' -> token p' = Kind.AsteriskAsteriskToken -> PowerBase p l p'.

Inductive Binary : Z -> Z -> Parser -> Node -> Parser -> Prop :=
  | binary_unary p e p1 p' :
      Unary p e p1 -> token p1 <> Kind.AsteriskAsteriskToken -> munch p1 p' ->
      token p' <> Kind.AsteriskAsteriskToken -> Binary 16 16 p e p'
  | binary_power lo hi p l p1 op p2 r p3 e p' :
      PowerBase p l p1 -> parse_token_node p1 = Ok (op, p2) -> Binary lo hi p2 r p3 -> 15 <= lo ->
      make_binary_expression l op r (pos_of p) p3 = Ok (e, p') -> Binary 15 15 p e p'
  | binary_operator lo hi lo' hi' p l p1 op p2 r p3 e p' :
      Binary lo hi p l p1 ->
      let n := precedence_of (token p1) in
      0 <= n -> binds (token p1) hi = false -> ~ in_disallowed p1 -> is_as_operator (token p1) = false ->
      parse_token_node p1 = Ok (op, p2) -> Binary lo' hi' p2 r p3 -> level n <= lo' ->
      make_binary_expression l op r (pos_of p) p3 = Ok (e, p') -> Binary (Z.min lo n) n p e p'
  | binary_as lo hi p l p1 k p2 ty p3 e p4 p' :
      Binary lo hi p l p1 -> is_as_operator (token p1) = true -> binds (token p1) hi = false ->
      no_line_break p1 -> next_token p1 = Ok (k, p2) -> parse_type p2 = Ok (ty, p3) ->
      make_as (token p1) l ty p3 = Ok (e, p4) -> munch p4 p' -> Binary (Z.min lo 11) 16 p e p'.
End grammar.

(** * The parser reads exactly the expressions of the grammar *)

(** ** More fuel *)
Definition extends {A} (m m' : MP A) : Prop := forall p r, m p = Ok r -> m' p = Ok r.

Lemma extends_refl {A} (m : MP A) : extends m m.
Proof. by intros p r. Qed.
Lemma extends_fuel {A} (m : MP A) : extends out_of_fuel m.
Proof. by intros p r. Qed.
Lemma extends_bind {A B} (m m' : MP A) (f f' : A -> MP B) :
  extends m m' -> (forall a, extends (f a) (f' a)) -> extends (m ≫= f) (m' ≫= f').
Proof.
  intros Hm Hf p [b p'] (a & p1 & H1 & H2)%run_bind_inv. apply Hm in H1. rewrite (run_bind _ _ _ _ _ H1). by apply Hf.
Qed.
Lemma extends_if {A} (b : bool) (m1 m2 m1' m2' : MP A) :
  extends m1 m1' -> extends m2 m2' -> extends (if b then m1 else m2) (if b then m1' else m2').
Proof. by destruct b. Qed.

Create HintDb extends.
#[export] Hint Resolve extends_fuel : extends.
Ltac extends_step :=
  lazymatch goal with
  | |- extends ?m ?m => apply extends_refl
  | |- extends (_ ≫= _) (_ ≫= _) => apply extends_bind; [|intros ?]
  | |- extends (if ?b then _ else _) _ => first [apply extends_if | destruct b]
  | |- extends (match ?x with _ => _ end) _ => destruct x
  end.
Ltac extends_go := repeat first [solve [auto 3 with extends] | extends_step].

Section fuel.
Context `{JsNumber} {parts : ExpressionParts}.

Lemma extends_prefixed operand operand' d :
  extends operand operand' -> extends (parse_prefixed operand d) (parse_prefixed operand' d).
Proof. intros Ho. unfold parse_prefixed. extends_go. Qed.
Lemma extends_type_assertion operand operand' :
  extends operand operand' -> extends (parse_type_assertion operand) (parse_type_assertion operand').
Proof. intros Ho. unfold parse_type_assertion. extends_go. Qed.
#[local] Hint Resolve extends_prefixed extends_type_assertion : extends.

Lemma extends_simple fuel fuel' :
  (fuel <= fuel')%nat -> extends (parse_simple_unary_expression fuel) (parse_simple_unary_expression fuel').
Proof.
  revert fuel'. induction fuel as [|fuel IH]; intros fuel' Hle; [apply extends_fuel|].
  destruct fuel' as [|fuel']; [lia|]. specialize (IH fuel' ltac:(lia)). cbn [parse_simple_unary_expression].
  unfold parse_prefix_unary_expression, parse_delete_expression, parse_type_of_expression, parse_void_expression,
    parse_await_expression. extends_go.
Qed.

Lemma extends_unary_or_higher rest rest' fuel fuel' :
  (fuel <= fuel')%nat -> (forall q l pos, extends (rest q l pos) (rest' q l pos)) ->
  extends (unary_expression_or_higher rest fuel) (unary_expression_or_higher rest' fuel').
Proof. intros Hle Hr. pose proof (extends_simple _ _ Hle). unfold unary_expression_or_higher. extends_go. Qed.
#[local] Hint Resolve extends_unary_or_higher : extends.

Lemma extends_or_higher rest rest' fuel fuel' q :
  (fuel <= fuel')%nat -> (forall q l pos, extends (rest q l pos) (rest' q l pos)) ->
  extends (binary_expression_or_higher rest fuel q) (binary_expression_or_higher rest' fuel' q).
Proof. intros Hle Hr. unfold binary_expression_or_higher. extends_go. Qed.
#[local] Hint Resolve extends_or_higher : extends.

Lemma extends_rest fuel fuel' q l pos :
  (fuel <= fuel')%nat -> extends (parse_binary_expression_rest fuel q l pos) (parse_binary_expression_rest fuel' q l pos).
Proof.
  revert fuel' q l pos. induction fuel as [|fuel IH]; intros fuel' q l pos Hle; [apply extends_fuel|].
  destruct fuel' as [|fuel']; [lia|]. specialize (IH fuel'). cbn [parse_binary_expression_rest].
  assert (fuel <= fuel')%nat as Hle' by lia. extends_go.
Qed.

Lemma extends_binary fuel fuel' q :
  (fuel <= fuel')%nat -> extends (parse_binary_expression_or_higher fuel q) (parse_binary_expression_or_higher fuel' q).
Proof. intros Hle. apply extends_or_higher; [done|]. intros. by apply extends_rest. Qed.
End fuel.

(** ** Munching *)
Section munching.
Context `{JsNumber} {parts : ExpressionParts}.

Definition line_break (p : Parser) : bool :=
  TokenFlags.contains (token_flags (scanner p)) TokenFlags.PRECEDING_LINE_BREAK.

Record Munch (p p' : Parser) : Prop := mkMunch {
  munch_again : munched p';
  munch_flags : context_flags p' = context_flags p;
  munch_pos : pos_of p' = pos_of p;
  munch_power : coherent p -> token p = Kind.AsteriskAsteriskToken <-> token p' = Kind.AsteriskAsteriskToken;
}.

Lemma munch_spec p p' : munch p p' -> Munch p p'.
Proof.
  intros (t & (t1 & p1 & (s & Hs & ->)%on_scanner_inv & H1)%run_bind_inv). injection H1 as <- <-.
  destruct (rescan_greater_runs (scanner p)) as (t2 & s2 & Hr & Hr2 & H3 & H4 & H5 & _).
  rewrite Hr in Hs. injection Hs as <- <-. split; cbn.
  - unfold munched, rescan_greater_than_token, rescan, on_scanner, mbind, M_bind. cbn. rewrite Hr2. done.
  - done.
  - unfold pos_of, token_full_start. cbn. by rewrite H5.
  - unfold coherent. intros ->. destruct (Kind_eqb (ScannerState.token (scanner p)) Kind.GreaterThanToken) eqn:E.
    + apply Kind_eqb_eq in E. rewrite E. specialize (H4 E). split; [done|]. intros ->. by destruct H4.
    + apply Kind_eqb_neq in E. rewrite rescan_greater_other in Hr by done. by injection Hr as <- <-.
Qed.

Lemma munch_total p : exists p', munch p p'.
Proof.
  destruct (rescan_greater_runs (scanner p)) as (t & s & Hr & _).
  exists (set_token t (set_scanner s p)), t. unfold rescan_greater_than_token, rescan, on_scanner, mbind, M_bind.
  by rewrite Hr.
Qed.

Lemma munch_det p p1 p2 : munch p p1 -> munch p p2 -> p1 = p2.
Proof. intros [t1 H1] [t2 H2]. rewrite H1 in H2. by injection H2. Qed.

Lemma munched_munch p : munched p -> munch p p.
Proof. by exists (token p). Qed.

Lemma rest_munch F q l pos p p' :
  munch p p' -> parse_binary_expression_rest F q l pos p = parse_binary_expression_rest F q l pos p'.
Proof.
  intros Hm. pose proof (munch_again _ _ (munch_spec _ _ Hm)) as Ha. destruct Hm as [t Ht].
  destruct F as [|F]; [done|]. cbn [parse_binary_expression_rest].
  rewrite (run_bind _ _ _ _ _ Ht), (run_bind _ _ _ _ _ Ha). do 2 f_equal.
  unfold rescan_greater_than_token, rescan in Ht. apply run_bind_inv in Ht as (t1 & p1 & _ & Ht).
  by injection Ht as <- <-.
Qed.

(** ** One step of the loop *)
Definition stops_b (precedence : Z) (p : Parser) : bool :=
  negb (binds (token p) precedence)
  || Kind_eqb (token p) Kind.InKeyword && NodeFlags.has (context_flags p) NodeFlags.DISALLOW_IN_CONTEXT
  || is_as_operator (token p) && line_break p.

Lemma no_line_break_spec p : no_line_break p <-> line_break p = false.
Proof. unfold no_line_break, has_preceding_line_break, ask, gets. split; [by intros [= ?]|]. intros E. by rewrite <- E. Qed.

Lemma stops_b_spec q p : stops_b q p = true <-> stops q p.
Proof.
  unfold stops_b, stops, in_disallowed, as_on_next_line. rewrite no_line_break_spec, !orb_true_iff, !andb_true_iff,
    negb_true_iff, Kind_eqb_eq, not_false_iff_true. tauto.
Qed.

Definition operator_step (F : nat) (n : Z) (l : Node) (pos : Z) : MP Node :=
  operator_token ← parse_token_node;
  right ← parse_binary_expression_or_higher F n;
  make_binary_expression l operator_token right pos.

Definition as_step (t : Kind) (l : Node) : MP Node :=
  next_token ;;
  type_node ← parse_type;
  make_as t l type_node.

Lemma bind_assoc {A B C} (m : MP A) (f : A -> MP B) (g : B -> MP C) p :
  ((m ≫= f) ≫= g) p = (m ≫= fun a => f a ≫= g) p.
Proof. unfold mbind, M_bind. by destruct (m p) as [[]| |]. Qed.

Lemma rest_step F q l pos p :
  munched p ->
  parse_binary_expression_rest (S F) q l pos p =
  if stops_b q p then Ok (l, p)
  else if is_as_operator (token p)
  then (as_step (token p) l ≫= fun l => parse_binary_expression_rest F q l pos) p
  else (operator_step F (precedence_of (token p)) l pos
        ≫= fun l => parse_binary_expression_rest F q l pos) p.
Proof.
  intros Hm. cbn [parse_binary_expression_rest]. rewrite (run_bind _ _ _ _ _ Hm).
  rewrite consumes_binds, precedence_spec.
  unfold in_disallow_in_context, in_context. unfold mbind at 1, M_bind, gets. unfold stops_b, is_as_operator.
  destruct (binds (token p) q); [|done]. cbn [negb orb].
  destruct (Kind_eqb (token p) Kind.InKeyword && _); [done|]. cbn [orb].
  destruct (Kind_eqb (token p) Kind.AsKeyword || Kind_eqb (token p) Kind.SatisfiesKeyword).
  - cbn [andb]. unfold has_preceding_line_break, ask, gets. unfold mbind at 1, M_bind. fold (line_break p).
    destruct (line_break p); [done|]. unfold as_step. rewrite !bind_assoc.
    unfold mbind, M_bind. destruct (next_token p) as [[k p1]| |]; [|done..].
    destruct (parse_type p1) as [[ty p2]| |]; done.
  - cbn [andb]. unfold operator_step. rewrite !bind_assoc. unfold mbind, M_bind.
    destruct (parse_token_node p) as [[op p1]| |]; [|done..].
    unfold parse_binary_expression_or_higher.
    destruct (binary_expression_or_higher _ _ _ p1) as [[r p2]| |]; done.
Qed.

(** ** Finishing a node *)
Lemma finish_inv d pos p e p' : finish d pos p = Ok (e, p') -> p' = set_has_parse_error false p.
Proof. unfold finish, finish_node, finish_node_with_end, node_pos, ask, mbind, M_bind, gets, get, modify, mret, M_ret.
  by intros [= _ <-].
Qed.

Lemma finish_runs d pos p : exists e, finish d pos p = Ok (e, set_has_parse_error false p).
Proof. by eexists. Qed.

Lemma munched_finish p : munched p -> munched (set_has_parse_error false p).
Proof.
  unfold munched, rescan_greater_than_token, rescan, on_scanner, mbind, M_bind. cbn.
  destruct (Scanner.rescan_greater_than_token (scanner p)) as [[t s]| |]; [|done..].
  unfold modify, mret, M_ret. intros Heq. injection Heq as Ht Hp. subst t. rewrite <- Hp at 2. cbn.
  f_equal. f_equal. by rewrite <- Hp.
Qed.

Lemma stops_finish q p : stops q (set_has_parse_error false p) <-> stops q p.
Proof. by rewrite <- !stops_b_spec. Qed.

Lemma stops_mono q q' p : stops q p -> q <= q' -> stops q' p.
Proof. intros [Hc|Hs] Hle; [left|by right]. by eapply not_binds_mono. Qed.
End munching.

(** ** Unary expressions *)
Section unary.
Context `{JsNumber} {parts : ExpressionParts}.

Lemma simple_eq F p :
  parse_simple_unary_expression (S F) p =
  let operand := parse_simple_unary_expression F in
  match prefix_operator (token p) with
  | Some d => parse_prefixed operand d p
  | None =>
      if Kind_eqb (token p) Kind.LessThanToken then
        (if jsx p then parse_jsx_element_or_self_closing_element_or_fragment true (-1) None true
         else parse_type_assertion operand) p
      else if Kind_eqb (token p) Kind.AwaitKeyword then
        (await ← is_await_expression;
         if await : bool then parse_await_expression operand else parse_update_expression) p
      else parse_update_expression p
  end.
Proof.
  cbn [parse_simple_unary_expression]. unfold mbind at 1, M_bind, gets at 1, is_jsx, jsx.
  destruct (token p); reflexivity.
Qed.

Lemma prefix_not_special t d :
  prefix_operator t = Some d -> Kind_eqb t Kind.LessThanToken = false /\ Kind_eqb t Kind.AwaitKeyword = false.
Proof. destruct t; done. Qed.

Lemma simple_complete p e p' : Simple p e p' -> exists F, parse_simple_unary_expression F p = Ok (e, p').
Proof.
  induction 1 as [d p k p1 x p2 e p' Hd Hn _ [F IH] Hf|p p0 k p1 x p2 e p' Ht Ha Hn _ [F IH] Hf
    |p b1 p1 ty p2 b2 p3 x p4 e p' Ht Hj Hl Hty Hg _ [F IH] Hf|p e p' Ht Hj Hx|p p0 e p' Ht Ha Hu|p e p' Hp Ha Hl Hu].
  - exists (S F). rewrite simple_eq, Hd. cbn zeta. unfold parse_prefixed, node_pos, ask.
    unfold mbind at 1 2, M_bind, gets. by rewrite (run_bind _ _ _ _ _ Hn), (run_bind _ _ _ _ _ IH).
  - exists (S F). rewrite simple_eq, Ht. cbn [prefix_operator Kind_eqb]. cbn zeta.
    change (Kind_eqb Kind.AwaitKeyword Kind.LessThanToken) with false.
    change (Kind_eqb Kind.AwaitKeyword Kind.AwaitKeyword) with true. cbn iota. rewrite (run_bind _ _ _ _ _ Ha).
    unfold parse_await_expression, parse_prefixed, node_pos, ask. unfold mbind at 1 2, M_bind, gets.
    by rewrite (run_bind _ _ _ _ _ Hn), (run_bind _ _ _ _ _ IH).
  - exists (S F). rewrite simple_eq, Ht. cbn zeta. change (Kind_eqb Kind.LessThanToken Kind.LessThanToken) with true.
    cbn [prefix_operator]. rewrite Hj. unfold parse_type_assertion, is_jsx, node_pos, ask.
    unfold mbind at 1, M_bind, gets. fold (jsx p). rewrite Hj. unfold mbind at 1, M_bind.
    by rewrite (run_bind _ _ _ _ _ Hl), (run_bind _ _ _ _ _ Hty), (run_bind _ _ _ _ _ Hg), (run_bind _ _ _ _ _ IH).
  - exists 1%nat. rewrite simple_eq, Ht. cbn zeta. cbn [prefix_operator].
    change (Kind_eqb Kind.LessThanToken Kind.LessThanToken) with true. by rewrite Hj.
  - exists 1%nat. rewrite simple_eq, Ht. cbn zeta. cbn [prefix_operator].
    change (Kind_eqb Kind.AwaitKeyword Kind.LessThanToken) with false.
    change (Kind_eqb Kind.AwaitKeyword Kind.AwaitKeyword) with true. cbn iota. by rewrite (run_bind _ _ _ _ _ Ha).
  - exists 1%nat. rewrite simple_eq, Hp. cbn zeta.
    by rewrite (proj2 (Kind_eqb_neq _ _) Ha), (proj2 (Kind_eqb_neq _ _) Hl).
Qed.

Lemma simple_sound F p e p' : parse_simple_unary_expression F p = Ok (e, p') -> Simple p e p'.
Proof.
  revert p e p'. induction F as [|F IH]; intros p e p'; [done|]. rewrite simple_eq. cbn zeta.
  destruct (prefix_operator (token p)) as [d|] eqn:Hd.
  - unfold parse_prefixed, node_pos, ask. intros (pos & p0 & [= <- <-] & Hr)%run_bind_inv.
    apply run_bind_inv in Hr as (t & p0 & [= <- <-] & (k & p1 & H1 & (x & p2 & H2 & H3)%run_bind_inv)%run_bind_inv).
    by eapply simple_prefix; [..|apply IH|].
  - destruct (Kind_eqb (token p) Kind.LessThanToken) eqn:El; [apply Kind_eqb_eq in El|apply Kind_eqb_neq in El].
    + destruct (jsx p) eqn:Hj; [by apply simple_jsx|]. unfold parse_type_assertion, is_jsx, node_pos, ask.
      intros (b & p0 & Hg & Hr)%run_bind_inv. unfold gets in Hg. injection Hg as Hb <-. fold (jsx p) in Hb.
      rewrite Hj in Hb. subst b. apply run_bind_inv in Hr as (pos & p0 & [= <- <-] & Hr).
      apply run_bind_inv in Hr as (b1 & p1 & H1 & (ty & p2 & H2 & (b2 & p3 & H3 & (x & p4 & H4 & H5)%run_bind_inv)%run_bind_inv)%run_bind_inv).
      by eapply simple_assertion; [..|apply IH|].
    + destruct (Kind_eqb (token p) Kind.AwaitKeyword) eqn:Ea; [apply Kind_eqb_eq in Ea|apply Kind_eqb_neq in Ea].
      * intros (b & p0 & Hb & Hr)%run_bind_inv. destruct b; [|by eapply simple_await_name].
        unfold parse_await_expression, parse_prefixed, node_pos, ask in Hr.
        apply run_bind_inv in Hr as (pos & p9 & [= <- <-] & Hr).
        apply run_bind_inv in Hr as (t & p9 & [= <- <-] & (k & p1 & H1 & (x & p2 & H2 & H3)%run_bind_inv)%run_bind_inv).
        by eapply simple_await; [..|apply IH|].
      * by apply simple_update.
Qed.

(** [is_update_expression] only reads. *)
Lemma is_update_runs p : exists b, is_update_expression p = Ok (b, p).
Proof. unfold is_update_expression, is_jsx, mbind, M_bind, gets. destruct (token p); by eexists. Qed.

Lemma unary_eq rest F p :
  unary_expression_or_higher rest F p =
  match is_update_expression p with
  | Ok (true, _) =>
      match parse_update_expression p with
      | Ok (e, p1) => if Kind_eqb (token p1) Kind.AsteriskAsteriskToken then rest 15 e (pos_of p) p1 else Ok (e, p1)
      | Panic => Panic | OutOfFuel => OutOfFuel
      end
  | Ok (false, _) =>
      match parse_simple_unary_expression F p with
      | Ok (e, p1) =>
          if Kind_eqb (token p1) Kind.AsteriskAsteriskToken then (report_unary_base (token p) e ;; mret e) p1
          else Ok (e, p1)
      | Panic => Panic | OutOfFuel => OutOfFuel
      end
  | Panic => Panic | OutOfFuel => OutOfFuel
  end.
Proof.
  unfold unary_expression_or_higher. unfold mbind at 1, M_bind. destruct (is_update_runs p) as [b Hb]. rewrite Hb.
  destruct b; unfold node_pos, ask, mbind, M_bind, gets.
  - destruct (parse_update_expression p) as [[e p1]| |]; [|done..].
    destruct (Kind_eqb (token p1) _) eqn:E; [|done]. by apply Kind_eqb_eq in E as ->.
  - destruct (parse_simple_unary_expression F p) as [[e p1]| |]; [|done..].
    by destruct (Kind_eqb (token p1) _).
Qed.
End unary.

(** ** Derivations *)
Section derivations.
Context `{JsNumber} {parts : ExpressionParts}.

Lemma make_binary_inv l op r pos p e p' :
  make_binary_expression l op r pos p = Ok (e, p') -> p' = set_has_parse_error false p.
Proof. apply finish_inv. Qed.

Lemma munched_make l op r pos p e p' :
  munched p -> make_binary_expression l op r pos p = Ok (e, p') -> munched p'.
Proof. intros Hm ->%make_binary_inv. by apply munched_finish. Qed.

Lemma stops_make q l op r pos p e p' :
  make_binary_expression l op r pos p = Ok (e, p') -> stops q p' <-> stops q p.
Proof. intros ->%make_binary_inv. apply stops_finish. Qed.

(** An expression ends at a munched operator. *)
Lemma binary_munched lo hi p e p' : Binary lo hi p e p' -> munched p'.
Proof.
  induction 1; [eapply munch_again, munch_spec; eassumption|by eapply munched_make..|].
  eapply munch_again, munch_spec; eassumption.
Qed.

Lemma binary_bounds lo hi p e p' : Binary lo hi p e p' -> lo <= hi <= 16.
Proof.
  induction 1; try lia. subst n. pose proof (precedence_range (token p1)). lia.
Qed.

Lemma as_precedence t : is_as_operator t = true -> precedence_of t = 11.
Proof. unfold is_as_operator. by intros [->%Kind_eqb_eq| ->%Kind_eqb_eq]%orb_true_iff. Qed.

Lemma binds_at_level t q :
  0 <= q <= 15 -> level q <= precedence_of t -> binds t q = true.
Proof.
  unfold level. intros Hq Hl. apply binds_spec. pose proof (precedence_range t).
  destruct (Z.eqb_spec q 15) as [->|]; [right|left; lia].
  split; [lia|]. apply precedence_power. lia.
Qed.

Lemma binds_above t q : 16 <= q -> binds t q = false.
Proof.
  intros Hq. apply not_true_iff_false. rewrite binds_spec. pose proof (precedence_range t). intros [?|[? _]]; lia.
Qed.

Lemma binds_power q : 0 <= q <= 15 -> binds Kind.AsteriskAsteriskToken q = true.
Proof. intros Hq. apply binds_at_level; [done|]. unfold level. rewrite power. destruct (Z.eqb_spec q 15); lia. Qed.

Lemma level_bound q : 0 <= q <= 15 -> q <= level q <= 15.
Proof. unfold level. destruct (Z.eqb_spec q 15); lia. Qed.

(** The cases of [stops] at another precedence: only the first depends on it. *)
Lemma stops_hi q hi p : stops q p -> (binds (token p) q = false -> binds (token p) hi = false) ->
  stops hi p.
Proof. intros [Hc|Hs] Hi; [left; auto|by right]. Qed.

(** *** The parser finds every derivation *)
Definition reads (q : Z) (p : Parser) (r : Node * Parser) : Prop :=
  exists F, parse_binary_expression_or_higher F q p = Ok r.

Lemma or_higher_eq F q p :
  parse_binary_expression_or_higher F q p
  = (unary_expression_or_higher (parse_binary_expression_rest F) F
     ≫= fun l => parse_binary_expression_rest F q l (pos_of p)) p.
Proof. done. Qed.

Lemma rest_stops F q l pos p : munched p -> stops q p -> parse_binary_expression_rest (S F) q l pos p = Ok (l, p).
Proof. intros Hm Hs%stops_b_spec. by rewrite rest_step, Hs. Qed.

(** A unary expression, then the loop. *)
Lemma reads_unary F q p e p1 r :
  Unary p e p1 -> token p1 <> Kind.AsteriskAsteriskToken ->
  parse_binary_expression_rest F q e (pos_of p) p1 = Ok r -> reads q p r.
Proof.
  intros Hu Ht%Kind_eqb_neq Hr. destruct Hu as [[Hb He]|[Hb [F1 Hs]%simple_complete]].
  - exists F. rewrite or_higher_eq. erewrite run_bind; [done|]. by rewrite unary_eq, Hb, He, Ht.
  - exists (F `max` F1)%nat. rewrite or_higher_eq. erewrite run_bind; [|].
    + eapply extends_rest; [|done]. lia.
    + rewrite unary_eq, Hb. by rewrite (extends_simple F1 (F `max` F1) ltac:(lia) _ _ Hs), Ht.
Qed.

(** One operator with its right operand. *)
Lemma rest_operator F q l pos p op p2 r p3 e p' :
  munched p -> binds (token p) q = true -> ~ in_disallowed p -> is_as_operator (token p) = false ->
  parse_token_node p = Ok (op, p2) ->
  parse_binary_expression_or_higher F (precedence_of (token p)) p2 = Ok (r, p3) ->
  make_binary_expression l op r pos p3 = Ok (e, p') ->
  parse_binary_expression_rest (S F) q l pos p = parse_binary_expression_rest F q e pos p'.
Proof.
  intros Hm Hc Hin Has Hop Hr He. rewrite rest_step, Has by done.
  destruct (stops_b q p) eqn:E.
  - apply stops_b_spec in E as [?|[?|[? _]]]; congruence.
  - unfold operator_step. rewrite bind_assoc, (run_bind _ _ _ _ _ Hop). rewrite bind_assoc, (run_bind _ _ _ _ _ Hr).
    by rewrite (run_bind _ _ _ _ _ He).
Qed.

Lemma power_not_disallowed p : token p = Kind.AsteriskAsteriskToken -> ~ in_disallowed p.
Proof. intros Ht [Hi _]. by rewrite Ht in Hi. Qed.

(** [**] and its right operand, after its base. *)
Lemma rest_power F q l pos p op p2 r p3 e p' :
  munched p -> token p = Kind.AsteriskAsteriskToken -> 0 <= q <= 15 -> parse_token_node p = Ok (op, p2) ->
  parse_binary_expression_or_higher F 15 p2 = Ok (r, p3) -> make_binary_expression l op r pos p3 = Ok (e, p') ->
  parse_binary_expression_rest (S F) q l pos p = parse_binary_expression_rest F q e pos p'.
Proof.
  intros Hm Ht Hq Hop Hr He. eapply rest_operator; try done; rewrite ?Ht; try done; [by apply binds_power|].
  by apply power_not_disallowed.
Qed.

Lemma reads_power F q p l p1 op p2 r p3 e p' res :
  PowerBase p l p1 -> 0 <= q <= 15 -> parse_token_node p1 = Ok (op, p2) ->
  parse_binary_expression_or_higher F 15 p2 = Ok (r, p3) -> make_binary_expression l op r (pos_of p) p3 = Ok (e, p') ->
  munched p' -> stops 15 p' -> parse_binary_expression_rest F q e (pos_of p) p' = Ok res -> reads q p res.
Proof.
  intros Hb Hq Hop Hr He Hm Hs Hrest.
  destruct Hb as [pu [Hup Hue] Htu Hmu Ht|pu pm [Hup [F1 Hsu]%simple_complete] Htu Hrep Hmu Ht];
    pose proof (munch_again _ _ (munch_spec _ _ Hmu)) as Hm1.
  - exists (S (S F)). rewrite or_higher_eq. erewrite run_bind; [eapply (extends_rest F); [lia|done]|].
    rewrite unary_eq, Hup, Hue, Htu. cbn [Kind_eqb]. rewrite Kind_eqb_refl, (rest_munch _ _ _ _ _ _ Hmu).
    erewrite (rest_power (S F)); try done; [by apply rest_stops|]. by eapply (extends_binary F); [lia|].
  - set (F2 := (S F `max` F1)%nat). exists F2. rewrite or_higher_eq. erewrite run_bind.
    + rewrite (rest_munch _ _ _ _ _ _ Hmu). apply (extends_rest (S F)); [lia|]. by erewrite (rest_power F).
    + rewrite unary_eq, Hup, (extends_simple F1 F2 ltac:(lia) _ _ Hsu), Htu. rewrite Kind_eqb_refl.
      by rewrite (run_bind _ _ _ _ _ Hrep).
Qed.

Lemma reads_mono F q p r : parse_binary_expression_or_higher F q p = Ok r -> reads q p r.
Proof. by exists F. Qed.

Lemma as_not_disallowed p : is_as_operator (token p) = true -> ~ in_disallowed p.
Proof. intros Ht [Hi _]. rewrite Hi in Ht. discriminate. Qed.

Lemma rest_as F q l pos p k p2 ty p3 e p4 p' :
  munched p -> is_as_operator (token p) = true -> binds (token p) q = true -> no_line_break p ->
  next_token p = Ok (k, p2) -> parse_type p2 = Ok (ty, p3) -> make_as (token p) l ty p3 = Ok (e, p4) -> munch p4 p' ->
  parse_binary_expression_rest (S F) q l pos p = parse_binary_expression_rest F q e pos p'.
Proof.
  intros Hm Has Hc Hl Hn Hty He Hm'. rewrite rest_step, Has by done. destruct (stops_b q p) eqn:E.
  - apply stops_b_spec in E as [?|[?|[_ ?]]]; [congruence|by edestruct as_not_disallowed|done].
  - unfold as_step. rewrite bind_assoc, (run_bind _ _ _ _ _ Hn). rewrite bind_assoc, (run_bind _ _ _ _ _ Hty).
    rewrite (run_bind _ _ _ _ _ He). by apply rest_munch.
Qed.

(** Continue with the loop after any derivation that reads its operands to the end. *)
Lemma binary_reads lo hi p e p' q F res :
  Binary lo hi p e p' -> 0 <= q <= 15 -> level q <= lo -> stops hi p' ->
  parse_binary_expression_rest F q e (pos_of p) p' = Ok res -> reads q p res.
Proof.
  intros Hb. revert q F res.
  induction Hb as [p e p1 p' Hu Ht Hmu Ht'|lo hi p l p1 op p2 r p3 e p' Hb Hop Hr IH Hlo He
    |lo hi lo' hi' p l p1 op p2 r p3 e p' Hl IHl n Hn Hc Hin Has Hop Hr IHr Hle He
    |lo hi p l p1 k p2 ty p3 e p4 p' Hl IH Has Hc Hbr Hn Hty He Hmu];
    intros q F res Hq Hlev Hs Hrest.
  - eapply reads_unary; [done..|]. by rewrite (rest_munch _ _ _ _ _ _ Hmu).
  - pose proof (binary_munched _ _ _ _ _ Hr) as Hm3. pose proof (binary_bounds _ _ _ _ _ Hr).
    pose proof (proj1 (stops_make _ _ _ _ _ _ _ _ He) Hs) as Hs3.
    destruct (IH 15 1%nat (r, p3)) as [F1 HF]; [done|done| |by apply rest_stops|].
    { eapply stops_mono; [done|lia]. }
    eapply (reads_power (F `max` F1)); [done..| |done|by eapply munched_make|done|].
    + by eapply (extends_binary F1); [lia|].
    + by eapply (extends_rest F); [lia|].
  - pose proof (binary_munched _ _ _ _ _ Hr) as Hm3. pose proof (binary_bounds _ _ _ _ _ Hr).
    pose proof (precedence_range (token p1)) as Hn15. fold n in Hn15.
    pose proof (proj1 (stops_make _ _ _ _ _ _ _ _ He) Hs) as Hs3.
    destruct (IHr n 1%nat (r, p3)) as [F1 HF]; [lia|done| |by apply rest_stops|].
    { eapply stops_mono; [done|]. pose proof (level_bound n). lia. }
    apply (IHl q (S (F `max` F1)) res); [done|lia|by left|].
    erewrite rest_operator; [by eapply (extends_rest F); [lia|]|..]; try done.
    + by eapply binary_munched.
    + apply binds_at_level; [done|]. fold n. lia.
    + by eapply (extends_binary F1); [lia|].
  - apply (IH q (S F) res); [done|lia|by left|]. erewrite rest_as; [done|by eapply binary_munched|done| |done..].
    apply binds_at_level; [done|]. rewrite (as_precedence _ Has). lia.
Qed.

Lemma binary_complete lo hi p e p' q :
  Binary lo hi p e p' -> 0 <= q <= 15 -> level q <= lo -> stops q p' -> reads q p (e, p').
Proof.
  intros Hb Hq Hl Hs. pose proof (binary_bounds _ _ _ _ _ Hb). pose proof (level_bound q Hq).
  eapply (binary_reads _ _ _ _ _ _ 1); [done..| |apply rest_stops; [by eapply binary_munched|done]].
  eapply stops_mono; [done|lia].
Qed.
End derivations.

(** *** What the parser finds is a derivation *)
Section sound.
Context `{JsNumber} {parts : ExpressionParts} `{!FramedParts parts}.

Lemma coherent_keeps {A} (m : MP A) p a p' : keeps Frame m -> coherent p -> m p = Ok (a, p') -> coherent p'.
Proof. intros Hm Hp [[_ _ Hc] _ _]%Hm. by apply Hc. Qed.

Lemma coherent_munch p p' : coherent p -> munch p p' -> coherent p'.
Proof. intros Hp [t Ht]. eapply (coherent_keeps rescan_greater_than_token); [keeps_go|done..]. Qed.

Lemma keeps_make_as t l ty : keeps Frame (make_as t l ty).
Proof. unfold make_as, make_satisfies_expression, make_as_expression. keeps_go. Qed.

Lemma coherent_make l op r pos p e p' : coherent p -> make_binary_expression l op r pos p = Ok (e, p') -> coherent p'.
Proof. intros Hp ->%make_binary_inv. exact Hp. Qed.

Lemma report_token k e p u p' : report_unary_base k e p = Ok (u, p') -> token p' = token p.
Proof.
  revert p u p'. change (keeps (fun p p' => token p' = token p) (report_unary_base k e)).
  assert (PreOrder (fun p p' : Parser => token p' = token p)) by (split; [by intros ?|intros p1 p2 p3 ??; congruence]).
  unfold report_unary_base, parse_error_at, parse_error_at_range. keeps_go; by apply keeps_modify.
Qed.

(** What [parse_binary_expression_or_higher] reads with less fuel. *)
Definition sound_below (F : nat) : Prop :=
  forall F' q p e p', (F' < F)%nat -> 0 <= q <= 15 -> coherent p ->
  parse_binary_expression_or_higher F' q p = Ok (e, p') ->
  coherent p' /\ exists lo hi, Binary lo hi p e p' /\ level q <= lo /\ stops q p'.

(** The loop may go on after [l]: its right end does not take an operator of the loop. *)
Definition left_of (q : Z) (p : Parser) (l : Node) (p1 : Parser) : Prop :=
  exists lo hi, Binary lo hi p l p1 /\ level q <= lo /\ (stops q p1 \/ binds (token p1) hi = false).

Lemma left_of_stops q q' p lo hi l p1 :
  Binary lo hi p l p1 -> level q <= lo -> q' <= hi -> stops q' p1 -> left_of q p l p1.
Proof.
  intros Hb Hl Hle [Hc|Hs]; exists lo, hi; (split; [done|split; [done|]]); [right|by left; right].
  by eapply not_binds_mono.
Qed.

Lemma operator_step_inv F n l pos p e p' :
  operator_step F n l pos p = Ok (e, p') -> exists op p2 r p3,
  parse_token_node p = Ok (op, p2) /\ parse_binary_expression_or_higher F n p2 = Ok (r, p3)
  /\ make_binary_expression l op r pos p3 = Ok (e, p').
Proof. intros (op & p2 & ? & (r & p3 & ? & ?)%run_bind_inv)%run_bind_inv. by exists op, p2, r, p3. Qed.

Lemma as_step_inv t l p e p' :
  as_step t l p = Ok (e, p') -> exists k p2 ty p3,
  next_token p = Ok (k, p2) /\ parse_type p2 = Ok (ty, p3) /\ make_as t l ty p3 = Ok (e, p').
Proof. intros (k & p2 & ? & (ty & p3 & ? & ?)%run_bind_inv)%run_bind_inv. by exists k, p2, ty, p3. Qed.

Lemma not_stops_inv q p :
  stops_b q p = false -> binds (token p) q = true /\ ~ in_disallowed p /\ ~ as_on_next_line p.
Proof.
  intros Hs. assert (~ stops q p) as Hn by by rewrite <- stops_b_spec, Hs. unfold stops in Hn.
  destruct (binds (token p) q); [|by destruct Hn; left]. tauto.
Qed.

Lemma no_break p : is_as_operator (token p) = true -> ~ as_on_next_line p -> no_line_break p.
Proof.
  intros Ha Hn. apply no_line_break_spec. destruct (line_break p) eqn:E; [|done]. destruct Hn. split; [done|].
  by rewrite no_line_break_spec, E.
Qed.

Lemma rest_sound F q p l p1 e p' :
  sound_below F -> 0 <= q <= 15 -> coherent p1 -> left_of q p l p1 ->
  parse_binary_expression_rest F q l (pos_of p) p1 = Ok (e, p') ->
  coherent p' /\ exists lo hi, Binary lo hi p e p' /\ level q <= lo /\ stops q p'.
Proof.
  revert l p1. induction F as [|F IH]; intros l p1 Hso Hq Hc (lo & hi & Hb & Hl & Hs); [done|].
  assert (sound_below F) as Hso' by (intros F' ??????; apply Hso; lia).
  rewrite rest_step by by eapply binary_munched. destruct (stops_b q p1) eqn:E.
  { intros [= <- <-]. split; [done|]. exists lo, hi. by rewrite <- stops_b_spec. }
  destruct Hs as [?%stops_b_spec|Hhi]; [congruence|]. apply not_stops_inv in E as (Hcq & Hin & Has).
  destruct (is_as_operator (token p1)) eqn:Ea.
  - intros (e1 & p4 & (k & p2 & ty & p3 & Hn & Hty & He)%as_step_inv & Hr)%run_bind_inv.
    destruct (munch_total p4) as [p5 Hmu]. rewrite (rest_munch _ _ _ _ _ _ Hmu) in Hr.
    apply IH in Hr; [done..| |].
    + eapply coherent_munch, Hmu. eapply coherent_keeps, He; [apply keeps_make_as|].
      eapply coherent_keeps, Hty; [keeps_go|]. by eapply coherent_keeps, Hn; [keeps_go|].
    + exists (Z.min lo 11), 16. split; [|split; [|by right; apply binds_above]].
      * by eapply binary_as; [..|apply no_break| | | |].
      * pose proof (binds_level _ q ltac:(lia) Hcq) as Hle. rewrite (as_precedence _ Ea) in Hle. lia.
  - intros (e1 & p4 & (op & p2 & r & p3 & Hop & Hr & He)%operator_step_inv & Hrest)%run_bind_inv.
    pose proof (binds_level _ q ltac:(lia) Hcq) as Hle. pose proof (precedence_range (token p1)).
    pose proof (level_bound q Hq).
    apply Hso in Hr as (Hc3 & lo' & hi' & Hb' & Hl' & Hs'); [|lia..|by eapply coherent_keeps, Hop; [keeps_go|]].
    apply IH in Hrest; [done..|by eapply coherent_make|].
    pose proof (level_bound (precedence_of (token p1))).
    eapply (left_of_stops _ (precedence_of (token p1)));
      [eapply (binary_operator lo hi lo' hi'); [done|lia|done..]|lia|done|].
    by rewrite (stops_make _ _ _ _ _ _ _ _ He).
Qed.

(** [**] after its base. *)
Lemma power_sound F q p l p1 e p' :
  sound_below F -> 0 <= q <= 15 -> coherent p1 -> PowerBase p l p1 ->
  parse_binary_expression_rest F q l (pos_of p) p1 = Ok (e, p') ->
  coherent p' /\ exists lo hi, Binary lo hi p e p' /\ level q <= lo /\ stops q p'.
Proof.
  intros Hso Hq Hc Hb. destruct F as [|F]; [done|].
  assert (munched p1 /\ token p1 = Kind.AsteriskAsteriskToken) as [Hm Ht]
    by by destruct Hb; (split; [eapply munch_again, munch_spec; eassumption|]).
  rewrite rest_step by done. destruct (stops_b q p1) eqn:E.
  { apply stops_b_spec in E as [E|[[E _]|[E _]]]; rewrite Ht in E; [|done..]. by rewrite binds_power in E. }
  rewrite Ht. change (is_as_operator _) with false. cbn iota. rewrite power.
  intros (e1 & p4 & (op & p2 & r & p3 & Hop & Hr & He)%operator_step_inv & Hrest)%run_bind_inv.
  apply Hso in Hr as (Hc3 & lo & hi & Hbr & Hl & Hs); [|lia..|by eapply coherent_keeps, Hop; [keeps_go|]].
  pose proof (level_bound q Hq). eapply rest_sound; [|done|by eapply coherent_make| |done].
  - intros F' ??????; apply Hso; lia.
  - eapply (left_of_stops _ 15); [by eapply binary_power|lia|done|]. by rewrite (stops_make _ _ _ _ _ _ _ _ He).
Qed.

Lemma or_higher_sound F : sound_below F.
Proof.
  induction F as [|F IH]; [intros F' ?????; lia|]. intros F' q p e p' HF Hq Hc.
  assert (sound_below F') as Hso by (intros F2 ??????; apply IH; lia). clear IH.
  pose proof (level_bound q Hq) as Hlq.
  rewrite or_higher_eq. intros (l & p1 & Hu & Hrest)%run_bind_inv. rewrite unary_eq in Hu.
  destruct (is_update_runs p) as [b Hb]. rewrite Hb in Hu. destruct b.
  - destruct (parse_update_expression p) as [[e0 p0]| |] eqn:He; [|done..].
    assert (coherent p0) as Hc0 by (eapply coherent_keeps, He; [apply keeps_parse_update_expression|done]).
    destruct (munch_total p0) as [pm Hmu]. pose proof (coherent_munch _ _ Hc0 Hmu) as Hcm.
    pose proof (munch_power _ _ (munch_spec _ _ Hmu) Hc0) as Hpow.
    destruct (Kind_eqb (token p0) _) eqn:Et; [apply Kind_eqb_eq in Et|apply Kind_eqb_neq in Et].
    + rewrite (rest_munch _ _ _ _ _ _ Hmu) in Hu.
      apply power_sound in Hu as (Hc1 & lo & hi & Hbin & Hlo & Hst); [|done|done|done|].
      2: { by eapply power_update; [|..|apply Hpow]. }
      pose proof (binary_bounds _ _ _ _ _ Hbin). change (level 15) with 15 in Hlo.
      refine (rest_sound _ _ _ _ _ _ _ Hso Hq Hc1 _ Hrest). eapply left_of_stops; [done|lia| |done]. lia.
    + injection Hu as <- <-. rewrite (rest_munch _ _ _ _ _ _ Hmu) in Hrest.
      refine (rest_sound _ _ _ _ _ _ _ Hso Hq Hcm _ Hrest). exists 16, 16. split; [|split; [lia|right; by apply binds_above]].
      eapply binary_unary; [by left| | |]; [done..|]. by rewrite <- Hpow.
  - destruct (parse_simple_unary_expression F' p) as [[e0 p0]| |] eqn:He; [|done..].
    assert (coherent p0) as Hc0 by (eapply coherent_keeps, He; [apply keeps_parse_simple_unary_expression|done]).
    assert (Prefixed p e0 p0) as Hp by by split; [|eapply simple_sound].
    destruct (Kind_eqb (token p0) _) eqn:Et; [apply Kind_eqb_eq in Et|apply Kind_eqb_neq in Et].
    + apply run_bind_inv in Hu as ([] & p2 & Hrep & [= <- <-]). destruct (munch_total p2) as [pm Hmu].
      assert (coherent p2) as Hc2.
      { eapply coherent_keeps, Hrep; [unfold report_unary_base; keeps_go|done]. }
      rewrite (rest_munch _ _ _ _ _ _ Hmu) in Hrest. refine (power_sound _ _ _ _ _ _ _ Hso Hq (coherent_munch _ _ Hc2 Hmu) _ Hrest).
      eapply power_prefixed; [done..|]. apply (munch_power _ _ (munch_spec _ _ Hmu) Hc2). by rewrite (report_token _ _ _ _ _ Hrep).
    + injection Hu as <- <-. destruct (munch_total p0) as [pm Hmu]. rewrite (rest_munch _ _ _ _ _ _ Hmu) in Hrest.
      refine (rest_sound _ _ _ _ _ _ _ Hso Hq (coherent_munch _ _ Hc0 Hmu) _ Hrest). exists 16, 16.
      split; [|split; [lia|right; by apply binds_above]].
      eapply binary_unary; [by right|done..|]. by rewrite <- (munch_power _ _ (munch_spec _ _ Hmu) Hc0).
Qed.
End sound.
