(* ===== verification/ParserTotal.v ===== *)
(** * ParserTotal: the parser of expressions always comes to an end

    [fin m Q p]: started in [p], [m] does not run out of fuel, and if it returns its result satisfies [Q]. The states are
    [well_placed]: the positions of the scanner are in order, so every token but the end of the file has a character.
    What the parser reads is measured by the full start of its token, which never goes back and which [next_token] moves
    at every token but the end. *)
From S2P Require Import Prelude Text Chars SyntaxKind Monad JsNum Keywords Trivia.
From S2P Require Import ScannerState ScannerOps Scanner ScannerInv ScannerWp ScannerSpec ScannerLit ScannerTotal.
From S2P Require Import RegExp RescanTotal.
From S2P Require Import CoreTypes Ast Precedence ParserState ExprParser ListParser MemberParser ParserInv.

(** ** Runs that end *)
Section fin.
Context {S : Type}.

Definition fin {A} (m : M S A) (Q : A -> S -> Prop) (s : S) : Prop :=
  match m s with
  | Ok (a, s') => Q a s'
  | Panic => True
  | OutOfFuel => False
  end.

Lemma fin_ret {A} (a : A) Q s : Q a s -> fin (mret a) Q s.
Proof. done. Qed.
Lemma fin_bind {A B} (m : M S A) (f : A -> M S B) Q s : fin m (fun a s' => fin (f a) Q s') s -> fin (m ≫= f) Q s.
Proof. unfold fin, mbind, M_bind. by destruct (m s) as [[a s']| |]. Qed.
Lemma fin_fmap {A B} (g : A -> B) (m : M S A) Q s : fin m (fun a s' => Q (g a) s') s -> fin (g <$> m) Q s.
Proof. intros H. by apply fin_bind. Qed.
Lemma fin_mono {A} (m : M S A) (P Q : A -> S -> Prop) s : fin m P s -> (forall a s', P a s' -> Q a s') -> fin m Q s.
Proof. unfold fin. destruct (m s) as [[a s']| |]; auto. Qed.
Lemma fin_gets {A} (f : S -> A) Q s : Q (f s) s -> fin (gets f) Q s.
Proof. done. Qed.
Lemma fin_get Q s : Q s s -> fin get Q s.
Proof. done. Qed.
Lemma fin_modify f Q s : Q tt (f s) -> fin (modify f) Q s.
Proof. done. Qed.
Lemma fin_panic {A} Q s : fin (@panic S A) Q s.
Proof. done. Qed.
Lemma fin_unwrap {A} (o : option A) Q s : (forall a, o = Some a -> Q a s) -> fin (unwrap o) Q s.
Proof. destruct o; [|done]. intros H. by apply H. Qed.
Lemma fin_if {A} (b : bool) (m1 m2 : M S A) Q s :
  (b = true -> fin m1 Q s) -> (b = false -> fin m2 Q s) -> fin (if b then m1 else m2) Q s.
Proof. destruct b; auto. Qed.
Lemma fin_when (b : bool) m Q s : (b = true -> fin m Q s) -> (b = false -> Q tt s) -> fin (when b m) Q s.
Proof. intros H1 H2. destruct b; [by apply H1|by apply H2]. Qed.
Lemma wp_fin {A} (m : M S A) Q s : wp m Q s -> fin m Q s.
Proof. unfold wp, fin. by destruct (m s) as [[a s']| |]. Qed.

(** A loop that decreases a measure of the state. *)
Lemma fin_iter {L A} (body : L -> M S (L + A)) (I : S -> Prop) (measure : S -> nat) (Q : A -> S -> Prop) fuel l s :
  (forall l s, I s ->
     fin (body l) (fun r s' => match r with inl _ => I s' /\ (measure s' < measure s)%nat | inr a => Q a s' end) s) ->
  I s -> (measure s < fuel)%nat -> fin (iter fuel body l) Q s.
Proof.
  intros Hbody. revert l s. induction fuel as [|fuel IH]; intros l s HI Hf; [lia|].
  cbn [iter]. apply fin_bind. eapply fin_mono; [by apply Hbody|]. intros [l'|a] s'; [|done].
  intros [HI' Hm]. apply IH; [done|lia].
Qed.
End fin.

Arguments fin : simpl never.


(** ** States of the parser *)
Section states.
Context (t : bytes).

Definition well_placed (p : Parser) : Prop := placed t (scanner p) /\ coherent p.
Definition full_start (p : Parser) : nat := full_start_pos (scanner p).
(** The bytes not read yet. *)
Definition remaining (p : Parser) : nat := (length t - full_start p)%nat.

(** [m] ends on less than [n] remaining bytes, and does not go back. *)
Definition down {A} (n : nat) (m : MP A) : Prop := forall p,
  well_placed p -> (remaining p < n)%nat ->
  fin m (fun _ p' => well_placed p' /\ (full_start p <= full_start p')%nat) p.

(** And stays at the token. *)
Definition steady {A} (n : nat) (m : MP A) : Prop := forall p,
  well_placed p -> (remaining p < n)%nat ->
  fin m (fun _ p' => well_placed p' /\ full_start p' = full_start p /\ token p' = token p) p.

Lemma use_down {A} n (m : MP A) Q p :
  down n m -> well_placed p -> (remaining p < n)%nat ->
  (forall a p', well_placed p' -> (full_start p <= full_start p')%nat -> Q a p') -> fin m Q p.
Proof. intros Hm Hp Hn HQ. eapply fin_mono; [by apply Hm|]. intros a p' [? ?]. by apply HQ. Qed.

Lemma use_steady {A} n (m : MP A) Q p :
  steady n m -> well_placed p -> (remaining p < n)%nat ->
  (forall a p', well_placed p' -> full_start p' = full_start p -> token p' = token p -> Q a p') -> fin m Q p.
Proof. intros Hm Hp Hn HQ. eapply fin_mono; [by apply Hm|]. intros a p' (? & ? & ?). by apply HQ. Qed.

Lemma steady_down {A} n (m : MP A) : steady n m -> down n m.
Proof. intros Hm p Hp Hn. eapply fin_mono; [by apply Hm|]. intros a p' (? & ? & ?). split; [done|lia]. Qed.

Lemma live_remaining p : well_placed p -> token p <> Kind.EndOfFile -> (0 < remaining p)%nat.
Proof.
  intros [Hp Hc] Hne. pose proof (placed_bound _ _ Hp). rewrite Hc in Hne. pose proof (placed_token _ _ Hp Hne).
  pose proof (placed_full _ _ Hp). unfold remaining, full_start. lia.
Qed.

Lemma well_placed_bound p : well_placed p -> (full_start p <= length t)%nat.
Proof.
  intros [Hp _]. pose proof (placed_bound _ _ Hp). pose proof (placed_full _ _ Hp). pose proof (placed_pos _ _ Hp).
  unfold full_start. lia.
Qed.

Lemma well_placed_same p p' : well_placed p -> scanner p' = scanner p -> token p' = token p -> well_placed p'.
Proof. unfold well_placed, coherent. by intros ? -> ->. Qed.

(** An update of another field. *)
Lemma fin_set f (Q : unit -> Parser -> Prop) p :
  well_placed p -> scanner (f p) = scanner p -> token (f p) = token p ->
  (forall p', well_placed p' -> full_start p' = full_start p -> token p' = token p -> Q tt p') -> fin (modify f) Q p.
Proof.
  intros Hp Hs Ht HQ. apply fin_modify, HQ; [by eapply well_placed_same| |done]. unfold full_start. by rewrite Hs.
Qed.
End states.

(** *** Symbolic execution *)
Create HintDb down.
Ltac down_intros :=
  intros;
  repeat match goal with
  | H : Kind_eqb _ _ = true |- _ => apply Kind_eqb_eq in H
  | H : Kind_eqb _ _ = false |- _ => apply Kind_eqb_neq in H
  end.
(** The token is not the end of the file. *)
Ltac not_end :=
  let E := fresh in
  intros E; repeat match goal with
  | H : token ?p = _ |- _ => rewrite H in *
  end; solve [congruence | done].
Ltac bound :=
  repeat match goal with H : well_placed _ _ |- _ => apply well_placed_bound in H end; unfold remaining in *; lia.
Ltac down_step :=
  cbv beta zeta;
  lazymatch goal with
  | |- fin (_ ≫= _) _ _ => apply fin_bind
  | |- fin (_ <$> _) _ _ => apply fin_fmap
  | |- fin (mret _) _ _ => apply fin_ret
  | |- fin get _ _ => apply fin_get
  | |- fin (gets _) _ _ => apply fin_gets
  | |- fin (ask _) _ _ => apply fin_gets
  | |- fin panic _ _ => apply fin_panic
  | |- fin (modify _) _ _ => eapply fin_set; [eassumption|reflexivity|reflexivity|down_intros]
  | |- fin (unwrap _) _ _ => apply fin_unwrap; down_intros
  | |- fin (when _ _) _ _ => apply fin_when; down_intros
  | |- fin (if ?b then _ else _) _ _ => apply fin_if; down_intros
  | |- fin (let '(_, _) := ?x in _) _ _ => destruct x
  | |- fin (match ?x with _ => _ end) _ _ => destruct x eqn:?
  | Hp : well_placed ?t ?p |- fin _ _ ?p =>
      first
        [ eapply (use_steady t (S (remaining t p))); [solve [auto 3 with down]|exact Hp|exact (le_n _)|down_intros]
        | eapply (use_down t (S (remaining t p))); [solve [auto 3 with down]|exact Hp|exact (le_n _)|down_intros]
        | eapply (use_steady t); [solve [eauto 3 with down]|exact Hp|bound|down_intros]
        | eapply (use_down t); [solve [eauto 3 with down]|exact Hp|bound|down_intros] ]
  end.
Ltac down_end :=
  lazymatch goal with
  | |- _ /\ _ => split_and!; [first [eassumption|idtac]|try (congruence || bound)..]
  end.
Ltac down_run := repeat down_step; cbv beta zeta; try down_end.
Ltac down_go := intros ? ? ?; down_run.

Section tokens.
Context `{JsNumber} (t : bytes) (Hascii : is_ascii t = true) (Hnul : forall i, t !! i <> Some 0).

Abbreviation down := (down t).
Abbreviation steady := (steady t).
Abbreviation well_placed := (well_placed t).

Lemma steady_error n loc message args : steady n (parse_error_at_range loc message args).
Proof. unfold parse_error_at_range. down_go. Qed.
#[local] Hint Resolve steady_error : down.
Lemma steady_error_at n pos end_ message args : steady n (parse_error_at pos end_ message args).
Proof. apply steady_error. Qed.
Lemma steady_error_current n message args : steady n (parse_error_at_current_token message args).
Proof. unfold parse_error_at_current_token. down_go. Qed.
#[local] Hint Resolve steady_error_at steady_error_current : down.

Lemma report_all_fin ds (Q : unit -> Parser -> Prop) p :
  (forall p', scanner p' = scanner p -> token p' = token p -> Q tt p') -> fin (report_all ds) Q p.
Proof.
  revert p. induction ds as [|d ds IH]; intros p HQ; cbn [report_all]; [by apply HQ|].
  apply fin_bind. unfold parse_error_at_range. apply fin_bind, fin_get, fin_bind, fin_when; intros _.
  all: apply fin_modify; try apply fin_modify; apply IH; intros p' H1 H2; by apply HQ.
Qed.

(** The next token: progress, unless at the end. *)
Lemma next_unchecked_fin (Q : Kind -> Parser -> Prop) p :
  well_placed p ->
  (forall p', well_placed p' -> (full_start p <= full_start p')%nat ->
     (token p <> Kind.EndOfFile -> (full_start p < full_start p')%nat) -> Q (token p') p') ->
  fin next_token_without_check Q p.
Proof.
  intros [Hp Hc] HQ. unfold next_token_without_check. apply fin_bind. unfold fin at 1, on_scanner.
  pose proof (scan_placed t Hascii _ Hp) as Hs. unfold wp in Hs.
  destruct (scan (scanner p)) as [[k s]| |]; [|done..]. destruct Hs as (Hs & Hk & Hf').
  apply fin_bind. unfold drain_scanner_diagnostics. apply fin_bind, fin_gets, fin_bind, fin_modify.
  apply report_all_fin. intros p2 H1 _. apply fin_bind, fin_modify, fin_ret. cbn in H1.
  destruct Hp as [_ Hfull Hpos Htok]. unfold full_start in *.
  change (Q (token (set_token k p2)) (set_token k p2)). apply HQ; cbn; rewrite ?H1; cbn.
  - split; [|by unfold coherent; cbn; rewrite H1]. cbn. rewrite H1. destruct Hs as [[] ? ? ?]. by split; [split|..].
  - lia.
  - intros Hne. rewrite Hc in Hne. specialize (Htok Hne). lia.
Qed.

Lemma next_token_fin (Q : Kind -> Parser -> Prop) p :
  well_placed p ->
  (forall p', well_placed p' -> (full_start p <= full_start p')%nat ->
     (token p <> Kind.EndOfFile -> (full_start p < full_start p')%nat) -> Q (token p') p') ->
  fin next_token Q p.
Proof.
  intros Hp HQ. unfold next_token. apply fin_bind, fin_gets, fin_bind, fin_gets, fin_bind, fin_when; intros _.
  2: by apply next_unchecked_fin.
  eapply (use_steady _ (S (remaining _ p))); [apply steady_error_current|done|exact (le_n _)|].
  intros [] p1 Hp1 Hf1 Ht1. apply next_unchecked_fin; [done|]. rewrite Hf1, Ht1. apply HQ.
Qed.

Lemma down_next_token n : down n next_token.
Proof. intros p Hp _. by apply next_token_fin. Qed.
#[local] Hint Resolve down_next_token : down.

(** A node of the current token. *)
Lemma steady_finish_node n node pos : steady n (finish_node node pos).
Proof. unfold finish_node, finish_node_with_end, node_pos. down_go. Qed.
#[local] Hint Resolve steady_finish_node : down.
Lemma steady_finish n d pos : steady n (finish d pos).
Proof. apply steady_finish_node. Qed.
#[local] Hint Resolve steady_finish : down.
(** With the contents of the node. *)
Lemma finish_fin d pos (Q : Node -> Parser -> Prop) p :
  well_placed p ->
  (forall e p', well_placed p' -> full_start p' = full_start p -> token p' = token p -> data e = d -> Q e p') ->
  fin (finish d pos) Q p.
Proof. intros Hp HQ. unfold finish, finish_node, finish_node_with_end, node_pos. down_run. by apply HQ. Qed.
Lemma steady_new_identifier n text : steady n (new_identifier text).
Proof. unfold new_identifier. down_go. Qed.
#[local] Hint Resolve steady_new_identifier : down.
Lemma steady_create_missing_identifier n : steady n create_missing_identifier.
Proof. unfold create_missing_identifier, node_pos. down_go. Qed.
#[local] Hint Resolve steady_create_missing_identifier : down.

Lemma parse_token_node_fin (Q : Node -> Parser -> Prop) p :
  well_placed p ->
  (forall n p', well_placed p' -> (full_start p <= full_start p')%nat ->
     (token p <> Kind.EndOfFile -> (full_start p < full_start p')%nat) -> Q n p') ->
  fin parse_token_node Q p.
Proof.
  intros Hp HQ. unfold parse_token_node, node_pos. do 4 down_step. apply fin_bind, next_token_fin; [done|].
  intros p1 Hp1 Hle Hlt. down_run. apply HQ; [done|bound|]. intros Hne. specialize (Hlt Hne). bound.
Qed.
Lemma down_parse_token_node n : down n parse_token_node.
Proof. intros p Hp _. by apply parse_token_node_fin. Qed.

Lemma parse_optional_fin k (Q : bool -> Parser -> Prop) p :
  well_placed p -> k <> Kind.EndOfFile ->
  (forall p', well_placed p' -> (full_start p < full_start p')%nat -> Q true p') -> (token p <> k -> Q false p) ->
  fin (parse_optional k) Q p.
Proof.
  intros Hp Hk H1 H2. unfold parse_optional, token_is. do 5 down_step; [|by apply H2].
  apply fin_bind, next_token_fin; [done|]. intros p1 Hp1 _ Hlt. apply fin_ret, H1; [done|]. apply Hlt. congruence.
Qed.

Lemma parse_optional_token_fin k (Q : option Node -> Parser -> Prop) p :
  well_placed p -> k <> Kind.EndOfFile ->
  (forall n p', well_placed p' -> (full_start p < full_start p')%nat -> Q (Some n) p') -> (token p <> k -> Q None p) ->
  fin (parse_optional_token k) Q p.
Proof.
  intros Hp Hk H1 H2. unfold parse_optional_token, token_is. do 5 down_step; [|by apply H2].
  apply fin_fmap, parse_token_node_fin; [done|]. intros n p1 Hp1 _ Hlt. apply H1; [done|]. apply Hlt. congruence.
Qed.

Lemma parse_expected_fin k (Q : bool -> Parser -> Prop) p :
  well_placed p -> k <> Kind.EndOfFile ->
  (forall p', well_placed p' -> (full_start p < full_start p')%nat -> Q true p') ->
  (forall p', well_placed p' -> full_start p' = full_start p -> token p' = token p -> token p <> k -> Q false p') ->
  fin (parse_expected k) Q p.
Proof.
  intros Hp Hk H1 H2. unfold parse_expected, parse_expected_with_diagnostic, token_is. do 5 down_step.
  - apply fin_bind, fin_when; [intros _|done]. apply fin_bind, next_token_fin; [done|]. intros p1 Hp1 _ Hlt.
    do 2 apply fin_ret. apply H1; [done|]. apply Hlt. congruence.
  - do 2 down_step. apply fin_ret. by apply H2.
Qed.

Lemma parse_expected_token_fin k (Q : Node -> Parser -> Prop) p :
  well_placed p -> k <> Kind.EndOfFile ->
  (forall n p', well_placed p' -> (full_start p <= full_start p')%nat ->
     (token p = k -> (full_start p < full_start p')%nat) -> Q n p') ->
  fin (parse_expected_token k) Q p.
Proof.
  intros Hp Hk HQ. unfold parse_expected_token. apply fin_bind, parse_optional_token_fin; [done|done|..].
  - intros n p' Hp' Hlt. apply fin_ret, HQ; [done|lia|done].
  - intros Hne. unfold node_pos. down_run. apply HQ; [done|bound|done].
Qed.

(** The tokens read again. *)
Lemma rescan_fin m (Q : Kind -> Parser -> Prop) p :
  well_placed p -> token p <> Kind.EndOfFile -> (forall s, placed t s -> live s -> wp m (replaced t s) s) ->
  (forall p', well_placed p' -> full_start p' = full_start p -> token p' <> Kind.EndOfFile -> Q (token p') p') ->
  fin (rescan m) Q p.
Proof.
  intros [Hp Hc] Hne Hm HQ. assert (live (scanner p)) as Hl by by unfold live; rewrite <- Hc.
  specialize (Hm _ Hp Hl). unfold rescan, fin, on_scanner, mbind, M_bind, modify. unfold wp in Hm.
  destruct (m (scanner p)) as [[k s]| |]; [|done..]. destruct Hm as (Hs & Hk & Hf & Hlive).
  change (Q (token (set_token k (set_scanner s p))) (set_token k (set_scanner s p))).
  apply HQ; [by split|exact Hf|exact Hlive].
Qed.

Lemma rescan_greater_fin (Q : Kind -> Parser -> Prop) p :
  well_placed p -> (forall p', well_placed p' -> full_start p' = full_start p -> Q (token p') p') ->
  fin rescan_greater_than_token Q p.
Proof.
  intros [Hp Hc] HQ. pose proof (rescan_greater_placed t Hascii _ Hp) as Hm.
  unfold rescan_greater_than_token, rescan, fin, on_scanner, mbind, M_bind, modify. unfold wp in Hm.
  destruct (Scanner.rescan_greater_than_token (scanner p)) as [[k s]| |]; [|done..]. destruct Hm as (Hs & Hk & Hf).
  change (Q (token (set_token k (set_scanner s p))) (set_token k (set_scanner s p))). by apply HQ.
Qed.

Lemma rescan_less_fin (Q : Kind -> Parser -> Prop) p :
  well_placed p -> (forall p', well_placed p' -> full_start p' = full_start p -> Q (token p') p') ->
  fin rescan_less_than_token Q p.
Proof.
  intros Hp HQ. destruct (Kind_eqb (token p) Kind.EndOfFile) eqn:E.
  - apply Kind_eqb_eq in E. unfold rescan_less_than_token, rescan, fin, on_scanner, mbind, M_bind, modify.
    assert (Scanner.rescan_less_than_token (scanner p) = Ok (token p, scanner p)) as ->.
    { unfold Scanner.rescan_less_than_token, mbind, M_bind, get, gets. rewrite (proj2 Hp) in E. rewrite E. cbn.
      by rewrite (proj2 Hp). }
    change (Q (token (set_token (token p) (set_scanner (scanner p) p))) (set_token (token p) (set_scanner (scanner p) p))).
    apply HQ; [|done]. by destruct p.
  - apply Kind_eqb_neq in E. apply rescan_fin; [done..| |by intros; apply HQ].
    intros; by apply rescan_less_placed.
Qed.

(** [??] read as [?]: the parser's copy of the token is the old one until the next token is read. *)
Lemma report_all_token ds k p :
  report_all ds (set_token k p) = match report_all ds p with
                                  | Ok (a, p') => Ok (a, set_token k p') | Panic => Panic | OutOfFuel => OutOfFuel
                                  end.
Proof.
  revert p. induction ds as [|d ds IH]; intros p; [done|]. cbn [report_all].
  unfold parse_error_at_range, mbind, M_bind, get, when, modify. cbn.
  destruct (match last (diagnostics p) with Some _ => _ | None => _ end); cbn.
  all: match goal with |- _ = match report_all _ ?q with _ => _ end => by rewrite <- (IH q) end.
Qed.

Lemma next_token_stale k p :
  is_keyword k = false -> is_keyword (token p) = false -> next_token (set_token k p) = next_token p.
Proof.
  intros Hk Hp. unfold next_token, next_token_without_check, on_scanner, drain_scanner_diagnostics, mbind, M_bind, ask,
    gets, modify, mret, M_ret. cbn [token scanner set_token]. rewrite Hk, Hp. cbn [andb when]. unfold mret, M_ret.
  cbn [scanner set_token]. destruct (scan (scanner p)) as [[k' s]| |]; [|done..].
  match goal with |- _ = match report_all ?ds ?q with _ => _ end =>
    pose proof (report_all_token ds k q) as Hr; change (match report_all ds (set_token k q) with
      | Ok (_, s') => Ok (k', set_token k' s') | Panic => Panic | OutOfFuel => OutOfFuel end = match report_all ds q with
      | Ok (_, s') => Ok (k', set_token k' s') | Panic => Panic | OutOfFuel => OutOfFuel end)
  end.
  rewrite Hr; clear Hr. by destruct (report_all _ _) as [[]| |].
Qed.

(** Reading the scanner. *)
Lemma steady_read {A} n (m : MS A) :
  (forall s a s', m s = Ok (a, s') -> s' = s) -> (forall s, m s <> OutOfFuel) -> steady n (on_scanner m).
Proof.
  intros Hr Hf p Hp _. unfold fin, on_scanner. specialize (Hf (scanner p)).
  destruct (m (scanner p)) as [[a s]| |] eqn:E; [|done..]. apply Hr in E as ->. by destruct p.
Qed.

Lemma steady_token_value n : steady n (on_scanner token_value).
Proof.
  apply steady_read.
  - intros s a s' (? & s1 & [= <- <-] & Hr)%run_bind_inv. destruct (token_value_ s) as [|i j|v]; [by injection Hr| |by injection Hr].
    unfold unwrap in Hr. destruct (slice _ _ _); [by injection Hr|done].
  - intros s. unfold token_value, mbind, M_bind, get. destruct (token_value_ s) as [|i j|v]; [done| |done].
    unfold unwrap. by destruct (slice _ _ _).
Qed.
Lemma steady_token_text n : steady n (on_scanner token_text).
Proof.
  apply steady_read; unfold token_text, text_slice.
  - intros s a s' (? & s1 & [= <- <-] & Hr)%run_bind_inv. apply run_bind_inv in Hr as (? & s1 & [= <- <-] & Hr).
    unfold unwrap in Hr. destruct (slice _ _ _); [by injection Hr|done].
  - intros s. unfold mbind, M_bind, get, unwrap. by destruct (slice _ _ _).
Qed.

(** ** Speculation *)
Lemma rewind_well_placed p p' :
  well_placed p -> well_placed p' ->
  let p'' := rewind (mark p) p' in well_placed p'' /\ full_start p'' = full_start p /\ token p'' = token p.
Proof.
  intros [[Hi H1 H2 H3] Hc] [[Hi' _ _ _] _]. split_and!; [|done|by rewrite Hc]. split; [|done].
  split; cbn; [|done..]. destruct Hi, Hi'. by split.
Qed.

Lemma steady_look_ahead {A} n (m : MP A) : down n m -> steady n (look_ahead m).
Proof.
  intros Hm p Hp Hn. unfold look_ahead. apply fin_bind, fin_gets, fin_bind. eapply fin_mono; [by apply Hm|].
  intros a p1 [Hp1 _]. apply fin_bind, fin_modify, fin_ret. by apply rewind_well_placed.
Qed.

(** Looking ahead may say something about the tokens it saw. *)
Lemma look_ahead_fin {A} (m : MP A) (P : A -> Prop) (Q : A -> Parser -> Prop) p :
  well_placed p -> fin m (fun a p' => well_placed p' /\ P a) p ->
  (forall a p', well_placed p' -> full_start p' = full_start p -> token p' = token p -> P a -> Q a p') ->
  fin (look_ahead m) Q p.
Proof.
  intros Hp Hm HQ. unfold look_ahead. apply fin_bind, fin_gets, fin_bind. eapply fin_mono; [exact Hm|].
  intros a p1 [Hp1 HP]. apply fin_bind, fin_modify, fin_ret.
  destruct (rewind_well_placed _ _ Hp Hp1) as (? & ? & ?). by apply HQ.
Qed.

Lemma down_do_in_context {A} n f b (m : MP A) : down n m -> down n (do_in_context f b m).
Proof. intros Hm. unfold do_in_context, set_context_flags_to. down_go. Qed.

(** An attempt that is undone when it fails. *)
Lemma attempt_fin {A} (m : MP (option A)) (Q : option A -> Parser -> Prop) p :
  well_placed p ->
  fin m (fun r p' => well_placed p' /\
    (is_Some r -> (full_start p < full_start p')%nat)) p ->
  (forall a p', well_placed p' -> (full_start p < full_start p')%nat -> Q (Some a) p') ->
  (forall p', well_placed p' -> full_start p' = full_start p -> token p' = token p -> Q None p') ->
  fin (state ← gets mark; r ← m;
       match r with Some a => mret (Some a) | None => modify (rewind state) ;; mret None end) Q p.
Proof.
  intros Hp Hm H1 H2. apply fin_bind, fin_gets, fin_bind. eapply fin_mono; [exact Hm|].
  intros [a|] p1 [Hp1 Hlt]; [apply fin_ret, H1; [done|by apply Hlt]|].
  apply fin_bind, fin_modify, fin_ret. by apply H2; apply rewind_well_placed.
Qed.
End tokens.

#[export] Hint Resolve steady_error steady_error_at steady_error_current down_next_token steady_finish_node steady_finish
  steady_new_identifier steady_create_missing_identifier down_parse_token_node steady_token_value steady_token_text
  steady_look_ahead down_do_in_context : down.

(** *** Tokens in symbolic execution *)
Ltac live_hyps :=
  repeat match goal with
  | H : token ?p <> Kind.EndOfFile -> _ |- _ => specialize (H ltac:(not_end))
  | H : token ?p = _ -> (_ < _)%nat |- _ => specialize (H ltac:(congruence))
  end.
Ltac token_step :=
  cbv beta zeta;
  lazymatch goal with
  | |- fin next_token _ _ => eapply next_token_fin; [eassumption..|down_intros; live_hyps]
  | |- fin next_token_without_check _ _ => eapply next_unchecked_fin; [eassumption..|down_intros; live_hyps]
  | |- fin parse_token_node _ _ => eapply parse_token_node_fin; [eassumption..|down_intros; live_hyps]
  | |- fin (parse_optional _) _ _ => eapply parse_optional_fin; [eassumption..|done|down_intros|down_intros; try (exfalso; congruence)]
  | |- fin (parse_optional_token _) _ _ => eapply parse_optional_token_fin; [eassumption..|done|down_intros|down_intros; try (exfalso; congruence)]
  | |- fin (parse_expected _) _ _ => eapply parse_expected_fin; [eassumption..|done|down_intros|down_intros; try (exfalso; congruence)]
  | |- fin (parse_expected_token _) _ _ => eapply parse_expected_token_fin; [eassumption..|done|down_intros; live_hyps]
  | |- fin rescan_greater_than_token _ _ => eapply rescan_greater_fin; [eassumption..|down_intros]
  | |- fin rescan_less_than_token _ _ => eapply rescan_less_fin; [eassumption..|down_intros]
  | |- fin (rescan_template_token _) _ _ =>
      eapply rescan_fin; [eassumption|not_end|intros; by apply rescan_template_placed|down_intros]
  | |- fin rescan_slash_token _ _ =>
      eapply rescan_fin; [eassumption|not_end|intros; by apply rescan_slash_placed|down_intros]
  | |- fin (finish _ _) _ _ => eapply finish_fin; [eassumption|down_intros]
  | |- fin (token_is _) _ _ => unfold token_is
  | |- fin node_pos _ _ => unfold node_pos
  | |- fin has_preceding_line_break _ _ => unfold has_preceding_line_break
  | |- fin (in_context _) _ _ => unfold in_context
  | |- fin (set_context_flags_to _ _) _ _ => unfold set_context_flags_to
  | |- _ => down_step
  end.
Ltac run_steps := repeat token_step; cbv beta zeta; try down_end.
Ltac down_body := intros ? ? ?; run_steps.

Lemma down_mono {A} t n n' (m : MP A) : down t n m -> (n' <= n)%nat -> down t n' m.
Proof. intros Hm Hle p Hp Hn. apply Hm; [done|lia]. Qed.

Lemma fin_eq {S A} (m m' : M S A) Q p : m p = m' p -> fin m' Q p -> fin m Q p.
Proof. unfold fin. by intros ->. Qed.
