(* ===== verification/ExprTotal.v ===== *)
(** * ExprTotal: the parser of operators always comes to an end

    With more fuel than bytes to read, and operands that end, no method of ExprParser.v runs out of fuel. *)
From S2P Require Import Prelude Text Chars SyntaxKind Monad JsNum Keywords Trivia.
From S2P Require Import ScannerState ScannerInv RegExp RescanTotal CoreTypes Ast Precedence ParserState ExprParser.
From S2P Require Import ParserInv ExprGrammar ParserTotal.
From S2P Require Import ListParser.

(** What the operators ask of the operands on less than [n] bytes. *)
Class EndingParts (t : bytes) (n : nat) (parts : ExpressionParts) : Prop := {
  ending_operand : down t n parse_left_hand_side_expression_or_higher;
  ending_type : down t n parse_type;
  ending_jsx b z o u : down t n (parse_jsx_element_or_self_closing_element_or_fragment b z o u);
  ending_js e : down t n (check_js_syntax e);
  ending_arrow b : down t n (try_parse_parenthesized_arrow_function_expression b);
  ending_async_arrow b : down t n (try_parse_async_simple_arrow_function_expression b);
  (** at the arrow *)
  ending_simple_arrow pos e b p :
    well_placed t p -> (remaining t p < n)%nat -> token p = Kind.EqualsGreaterThanToken ->
    fin (parse_simple_arrow_function_expression pos e b)
      (fun _ p' => well_placed t p' /\ (full_start p <= full_start p')%nat) p;
}.

Lemma ending_mono t n n' parts : EndingParts t n parts -> (n' <= n)%nat -> EndingParts t n' parts.
Proof.
  intros [] Hle. split; intros; try by eapply down_mono.
  match goal with Hs : forall pos e b p, well_placed _ _ -> _ |- _ => apply Hs; [done|lia|done] end.
Qed.

Section expressions.
Context `{JsNumber} {parts : ExpressionParts} (t : bytes) (Hascii : is_ascii t = true).

(** ** Looking ahead *)
Lemma down_same_line n : down t n next_token_is_identifier_or_keyword_or_literal_on_same_line.
Proof. unfold next_token_is_identifier_or_keyword_or_literal_on_same_line. down_body. Qed.
Lemma down_or_greater_than n : down t n next_token_is_identifier_or_keyword_or_greater_than.
Proof. unfold next_token_is_identifier_or_keyword_or_greater_than. down_body. Qed.
Lemma down_open_paren n : down t n next_token_is_open_paren_or_less_than_or_dot.
Proof. unfold next_token_is_open_paren_or_less_than_or_dot. down_body. Qed.
#[local] Hint Resolve down_same_line down_or_greater_than down_open_paren : down.
Lemma steady_is_identifier n : steady t n is_identifier.
Proof. unfold is_identifier, in_yield_context, in_await_context. down_body. Qed.
Lemma steady_is_binary_operator n : steady t n is_binary_operator.
Proof. unfold is_binary_operator, in_disallow_in_context. down_body. Qed.
#[local] Hint Resolve steady_is_identifier steady_is_binary_operator : down.
Lemma steady_is_start_of_left_hand_side n : steady t n is_start_of_left_hand_side_expression.
Proof. unfold is_start_of_left_hand_side_expression. down_body. Qed.
#[local] Hint Resolve steady_is_start_of_left_hand_side : down.
Lemma steady_is_start_of_expression n : steady t n is_start_of_expression.
Proof. unfold is_start_of_expression. down_body. Qed.
#[local] Hint Resolve steady_is_start_of_expression : down.
Lemma steady_is_yield_expression n : steady t n is_yield_expression.
Proof. unfold is_yield_expression, in_yield_context. down_body. Qed.
Lemma steady_is_await_expression n : steady t n is_await_expression.
Proof. unfold is_await_expression, in_await_context. down_body. Qed.
#[local] Hint Resolve steady_is_yield_expression steady_is_await_expression : down.

(** ** Unary expressions *)
Context (n0 : nat) `{!EndingParts t n0 parts}.

Lemma ending_below n : (n <= n0)%nat -> EndingParts t n parts.
Proof. by apply ending_mono. Qed.

Lemma is_increment_live k : is_increment k = true -> k <> Kind.EndOfFile.
Proof. by intros Hk ->. Qed.

Lemma down_update n : (n <= n0)%nat -> down t n parse_update_expression.
Proof.
  intros [Ho Ht Hx Hj _ _ _]%ending_below. unfold parse_update_expression, is_jsx. down_body.
Qed.

Lemma prefix_operator_live k d : prefix_operator k = Some d -> k <> Kind.EndOfFile.
Proof. by intros Hk ->. Qed.

(** An operator and an operand behind it. *)
Lemma prefixed_fin n operand d p :
  well_placed t p -> (remaining t p < n)%nat -> token p <> Kind.EndOfFile -> down t (n - 1) operand ->
  fin (parse_prefixed operand d) (fun _ p' => well_placed t p' /\ (full_start p <= full_start p')%nat) p.
Proof. intros Hp Hn Hl Ho. unfold parse_prefixed. run_steps. Qed.

Lemma down_simple_unary n F : (n <= n0)%nat -> (n <= F)%nat -> down t n (parse_simple_unary_expression F).
Proof.
  revert n. induction F as [|F IH]; intros n Hn HF p Hp Hrem; [lia|].
  pose proof (ending_below n Hn) as [Ho Ht Hx Hj _ _ _]. pose proof (down_update n Hn) as Hu.
  assert (token p <> Kind.EndOfFile -> down t (n - 1) (parse_simple_unary_expression F)) as Hopd.
  { intros _. apply IH; lia. }
  unfold fin. rewrite simple_eq. cbn zeta. destruct (prefix_operator (token p)) as [d|] eqn:Ed.
  { pose proof (prefix_operator_live _ _ Ed). apply (prefixed_fin n); auto. }
  destruct (Kind_eqb (token p) Kind.LessThanToken) eqn:El; [apply Kind_eqb_eq in El|].
  { specialize (Hopd ltac:(not_end)). destruct (jsx p); [by apply Hx|].
    change (fin (parse_type_assertion (parse_simple_unary_expression F))
      (fun _ p' => well_placed t p' /\ (full_start p <= full_start p')%nat) p).
    unfold parse_type_assertion, is_jsx. run_steps. all: try bound. }
  destruct (Kind_eqb (token p) Kind.AwaitKeyword) eqn:Ea; [apply Kind_eqb_eq in Ea|by apply Hu].
  specialize (Hopd ltac:(not_end)).
  change (fin (await ← is_await_expression; if await : bool then parse_await_expression (parse_simple_unary_expression F)
    else parse_update_expression) (fun _ p' => well_placed t p' /\ (full_start p <= full_start p')%nat) p).
  run_steps. unfold parse_await_expression. eapply fin_mono; [apply (prefixed_fin n); [eassumption|bound|not_end|done]|].
  intros ? ? [? ?]. split; [done|lia].
Qed.

(** ** Binary expressions *)
Lemma steady_report_unary_base n k e : steady t n (report_unary_base k e).
Proof. unfold report_unary_base. down_body. Qed.
Lemma steady_is_update_expression n : steady t n is_update_expression.
Proof. intros p Hp _. destruct (is_update_runs p) as [b Hb]. unfold fin. by rewrite Hb. Qed.
#[local] Hint Resolve steady_report_unary_base steady_is_update_expression : down.

Lemma down_unary_or_higher n rest F :
  (n <= n0)%nat -> (n <= F)%nat -> (forall q l pos, 0 <= q -> down t n (rest q l pos)) ->
  down t n (unary_expression_or_higher rest F).
Proof.
  intros Hn HF Hr. pose proof (down_update n Hn) as Hu. pose proof (down_simple_unary n F Hn HF) as Hs.
  assert (forall l pos, down t n (rest 15 l pos)) as Hr15 by (intros l pos; by apply Hr).
  unfold unary_expression_or_higher. down_body.
  match goal with E : token _ = Kind.AsteriskAsteriskToken |- _ => rewrite E, precedence_spec, power end. run_steps.
Qed.

Lemma consumes_live k q : 0 <= q -> consumes k q = true -> k <> Kind.EndOfFile /\ 0 <= get_binary_operator_precedence k.
Proof.
  rewrite consumes_binds, precedence_spec. intros Hq Hc%binds_spec.
  split; [intros ->; change (precedence_of Kind.EndOfFile) with (-1) in Hc; lia|lia].
Qed.

Lemma down_binary_rest n F q l pos :
  (n <= n0)%nat -> (n <= F)%nat -> 0 <= q -> down t n (parse_binary_expression_rest F q l pos).
Proof.
  revert n q l pos. induction F as [|F IH]; intros n q l pos Hn HF Hq p Hp Hrem; [lia|].
  pose proof (ending_below n Hn) as [_ Ht _ Hj _ _ _]. cbn [parse_binary_expression_rest].
  apply fin_bind, (rescan_greater_fin t); [done..|]. intros p1 Hp1 Hf1. apply fin_bind, fin_gets.
  destruct (consumes (token p1) q) eqn:Hc; cbn [negb]; [|apply fin_ret; split; [done|lia]]. destruct (consumes_live _ _ Hq Hc) as [Hl Hprec].
  pose proof (live_remaining t p1 Hp1 Hl). assert (n - 1 <= F)%nat as HF' by bound.
  assert (forall q l pos, 0 <= q -> down t (n - 1) (parse_binary_expression_rest F q l pos)) as Hrest
    by (intros; apply IH; lia).
  assert (down t (n - 1) (unary_expression_or_higher (parse_binary_expression_rest F) F)) as Hun
    by (apply down_unary_or_higher; [lia|done|done]).
  assert (forall l pos, down t (n - 1) (parse_binary_expression_rest F q l pos)) as Hrestq by (intros; by apply Hrest).
  assert (forall l pos, down t (n - 1) (parse_binary_expression_rest F (get_binary_operator_precedence (token p1)) l pos))
    as Hrestn by (intros; by apply Hrest).
  unfold binary_expression_or_higher, make_satisfies_expression, make_as_expression, make_binary_expression. run_steps.
Qed.

Lemma down_binary n F q :
  (n <= n0)%nat -> (n <= F)%nat -> 0 <= q -> down t n (parse_binary_expression_or_higher F q).
Proof.
  intros Hn HF Hq. assert (forall l pos, down t n (parse_binary_expression_rest F q l pos)) as Hr
    by (intros; by apply down_binary_rest).
  assert (down t n (unary_expression_or_higher (parse_binary_expression_rest F) F)) as Hu
    by (apply down_unary_or_higher; [done..|]; intros; by apply down_binary_rest).
  unfold parse_binary_expression_or_higher, binary_expression_or_higher. down_body.
Qed.

(** ** Conditional, assignment and comma expressions *)
Lemma is_yield_fin (Q : bool -> Parser -> Prop) p :
  well_placed t p ->
  (forall b p', well_placed t p' -> full_start p' = full_start p -> token p' = token p ->
     (b = true -> token p <> Kind.EndOfFile) -> Q b p') -> fin is_yield_expression Q p.
Proof.
  intros Hp HQ. unfold is_yield_expression. apply fin_bind, fin_gets, fin_if; intros E.
  - apply Kind_eqb_eq in E. assert (token p <> Kind.EndOfFile) by congruence. unfold in_yield_context. run_steps.
    all: by apply HQ.
  - apply fin_ret. by apply HQ.
Qed.

Lemma down_conditional_rest n assignment l pos b :
  (forall b, down t (n - 1) (assignment b)) -> down t n (parse_conditional_expression_rest assignment l pos b).
Proof.
  intros Ha. unfold parse_conditional_expression_rest. down_body.
Qed.

Lemma yield_fin n assignment p :
  (forall b, down t (n - 1) (assignment b)) -> well_placed t p -> (remaining t p < n)%nat -> token p <> Kind.EndOfFile ->
  fin (parse_yield_expression assignment) (fun _ p' => well_placed t p' /\ (full_start p <= full_start p')%nat) p.
Proof.
  intros Ha Hp Hrem Hl. unfold parse_yield_expression. run_steps.
Qed.

Lemma down_assignment n F b :
  (n <= n0)%nat -> (n < F)%nat -> down t n (parse_assignment_expression_or_higher_worker F b).
Proof.
  revert n b. induction F as [|F IH]; intros n b Hn HF p Hp Hrem; [lia|].
  cbn [parse_assignment_expression_or_higher_worker].
  pose proof (ending_below n Hn) as [_ _ _ _ Harrow Hasync Hsimple].
  pose proof (down_binary n F OPERATOR_PRECEDENCE_LOWEST Hn ltac:(lia) ltac:(done)) as Hbin.
  assert (forall b, down t (n - 1) (parse_assignment_expression_or_higher_worker F b)) as Ha by (intros b'; apply IH; lia).
  apply fin_bind, fin_gets, fin_bind, is_yield_fin; [done|]. intros y p1 Hp1 Hf1 Ht1 Hy. apply fin_if; intros ->.
  { eapply fin_mono; [apply (yield_fin n); [done|done|bound|rewrite Ht1; by apply Hy]|]. intros ? ? [? ?]. split; [done|lia]. }
  pose proof (fun l pos b => down_conditional_rest n _ l pos b Ha) as Hcond.
  unfold make_binary_expression.
  repeat lazymatch goal with
  | |- fin (parse_simple_arrow_function_expression _ _ _) _ _ =>
      eapply fin_mono; [apply Hsimple; [eassumption|bound|]|intros ? ? [? ?]]
  | |- _ => token_step
  end; cbv beta zeta.
  all: try (match goal with
       | E : Kind_eqb _ Kind.Identifier && Kind_eqb _ _ = true |- _ => apply andb_true_iff in E as [_ E%Kind_eqb_eq]; congruence
       end).
  all: try down_end.
Qed.

(** The loop over commas: every iteration reads one. *)
Lemma down_commas n fuel assignment pos e :
  (n <= fuel)%nat -> down t n assignment -> down t n (iter fuel (comma_iteration assignment pos) e).
Proof.
  intros Hle Ha p Hp Hrem.
  apply (fin_iter _ (fun p' => well_placed t p' /\ (full_start p <= full_start p')%nat) (remaining t));
    [|split; [done|lia]|lia].
  intros l p1 [Hp1 Hf1]. unfold comma_iteration, make_binary_expression. run_steps.
Qed.

Lemma down_parse_expression n F : (n <= n0)%nat -> (n < F)%nat -> down t n (parse_expression F).
Proof.
  intros Hn HF. pose proof (fun b => down_assignment n F b Hn HF) as Ha.
  pose proof (Ha true) as Hat. assert (forall pos e, down t n (iter F (comma_iteration
    (parse_assignment_expression_or_higher_worker F true) pos) e)) as Hc by (intros; apply down_commas; [lia|done]).
  unfold parse_expression, parse_assignment_expression_or_higher. down_body.
Qed.
End expressions.

(** * Lists always come to an end

    Every round of the loop of [parse_delimited_list] reads a token, whatever the elements are: the comma after an element,
    the token that no element starts with, or, after an element that read nothing, the next token. *)

(** The tokens a member of a type starts with. *)
Definition property_name_kind (k : Kind) : bool :=
  token_is_identifier_or_keyword k || Kind_eqb k Kind.StringLiteral || Kind_eqb k Kind.NumericLiteral
  || Kind_eqb k Kind.BigIntLiteral.
Definition member_start_kind (k : Kind) : bool :=
  Kind_eqb k Kind.OpenParenToken || Kind_eqb k Kind.LessThanToken || Kind_eqb k Kind.OpenBracketToken
  || property_name_kind k.

(** The starts of the elements that other parts of the parser know. *)
Class EndingStarts (t : bytes) (starts : ListStarts) : Prop := {
  ending_statement n : steady t n is_start_of_statement;
  ending_type_member p : well_placed t p ->
    fin scan_type_member_start (fun b p' => well_placed t p' /\ (full_start p <= full_start p')%nat
      /\ (b = true -> member_start_kind (token p) = true)) p;
  ending_class_member n : down t n scan_class_member_start;
  ending_start_of_type n b : steady t n (is_start_of_type b);
}.
Lemma down_type_member_start `{!EndingStarts t starts} n : down t n scan_type_member_start.
Proof. intros p Hp _. eapply fin_mono; [by apply ending_type_member|]. by intros ? ? (? & ? & _). Qed.
#[export] Hint Resolve ending_statement down_type_member_start ending_class_member ending_start_of_type : down.
#[export] Hint Resolve steady_is_identifier steady_is_binary_operator steady_is_start_of_left_hand_side
  steady_is_start_of_expression down_open_paren : down.

Section lists.
Context `{JsNumber} {starts : ListStarts} (t : bytes) (Hascii : is_ascii t = true) `{!EndingStarts t starts}.

Lemma steady_token_in n ks : steady t n (token_in ks).
Proof. unfold token_in. down_body. Qed.
Lemma steady_token_is n k : steady t n (token_is k).
Proof. unfold token_is. down_body. Qed.
Lemma steady_line_break n : steady t n has_preceding_line_break.
Proof. unfold has_preceding_line_break. down_body. Qed.
#[local] Hint Resolve steady_token_in steady_token_is steady_line_break : down.
Lemma steady_or_else n a b : steady t n a -> steady t n b -> steady t n (or_else a b).
Proof. intros Ha Hb. unfold or_else. down_body. Qed.
Lemma steady_and_then n a b : steady t n a -> steady t n b -> steady t n (and_then a b).
Proof. intros Ha Hb. unfold and_then. down_body. Qed.
Lemma steady_not n a : steady t n a -> steady t n (not_ a).
Proof. intros Ha. unfold not_. down_body. Qed.
#[local] Hint Resolve steady_or_else steady_and_then steady_not : down.

Lemma down_next_token_is n k : down t n (next_token_is k).
Proof. unfold next_token_is. down_body. Qed.
#[local] Hint Resolve down_next_token_is : down.
Lemma steady_is_binding_identifier n : steady t n is_binding_identifier.
Proof. unfold is_binding_identifier. down_body. Qed.
Lemma steady_is_import_attribute_name n : steady t n is_import_attribute_name.
Proof. unfold is_import_attribute_name. down_body. Qed.
Lemma steady_is_literal_property_name n : steady t n is_literal_property_name.
Proof. unfold is_literal_property_name. down_body. Qed.
#[local] Hint Resolve steady_is_binding_identifier steady_is_import_attribute_name steady_is_literal_property_name : down.
Lemma steady_is_pattern n : steady t n is_binding_identifier_or_private_identifier_or_pattern.
Proof. unfold is_binding_identifier_or_private_identifier_or_pattern. auto with down. Qed.
#[local] Hint Resolve steady_is_pattern : down.
Lemma steady_is_start_of_parameter n : steady t n is_start_of_parameter.
Proof.
  unfold is_start_of_parameter, start_of_parameter. apply steady_or_else; [auto with down|]. apply steady_or_else; [auto with down|]. down_body.
Qed.
#[local] Hint Resolve steady_is_start_of_parameter : down.
Lemma steady_heritage_object n : steady t n is_valid_heritage_clause_object_literal.
Proof.
  apply steady_look_ahead. unfold next_is_valid_heritage_clause_object_literal. down_body.
Qed.
Lemma steady_heritage_keyword n : steady t n is_heritage_clause_extends_or_implements_keyword.
Proof.
  unfold is_heritage_clause_extends_or_implements_keyword, is_heritage_clause. apply steady_and_then; [auto with down|].
  apply steady_look_ahead. unfold next_is_start_of_expression. down_body.
Qed.
Lemma steady_can_parse_semicolon n : steady t n can_parse_semicolon.
Proof. unfold can_parse_semicolon. auto with down. Qed.
#[local] Hint Resolve steady_heritage_object steady_heritage_keyword steady_can_parse_semicolon : down.

Lemma steady_is_heritage_clause n : steady t n is_heritage_clause.
Proof. apply steady_token_in. Qed.
Lemma steady_tokens n (f : Kind -> bool) : steady t n (x ← gets token; mret (f x)).
Proof. down_body. Qed.
Lemma steady_test n k (f : bool -> bool) : steady t n (x ← token_is k; mret (f x)).
Proof. down_body. Qed.
#[local] Hint Resolve steady_is_heritage_clause steady_tokens steady_test : down.
Lemma down_next_is_slash n : down t n next_token_is_slash.
Proof. apply down_next_token_is. Qed.
Lemma down_next_is_string n : down t n next_token_is_token_string_literal.
Proof. apply down_next_token_is. Qed.
#[local] Hint Resolve down_next_is_slash down_next_is_string : down.

Lemma steady_is_list_element n c b : steady t n (is_list_element c b).
Proof.
  destruct c; cbn [is_list_element]; try solve [auto 6 with down | down_body].
Qed.
#[local] Hint Resolve steady_is_list_element : down.

(** A list whose terminator is not there is not at the end of the file. *)
Lemma is_list_terminator_fin c (Q : bool -> Parser -> Prop) p :
  well_placed t p ->
  (forall b p', well_placed t p' -> full_start p' = full_start p -> token p' = token p ->
     (b = false -> token p <> Kind.EndOfFile) -> Q b p') -> fin (is_list_terminator c) Q p.
Proof.
  intros Hp HQ. unfold is_list_terminator. apply fin_bind, fin_bind, fin_gets, fin_ret, fin_if; intros E.
  { apply fin_ret. by apply HQ. }
  apply Kind_eqb_neq in E.
  destruct c; (eapply (use_steady t (S (remaining t p)));
    [solve [auto 6 with down | down_body]|done|lia|intros; by apply HQ]).
Qed.

Lemma steady_is_list_terminator n c : steady t n (is_list_terminator c).
Proof. intros p Hp Hn. by apply is_list_terminator_fin. Qed.
#[local] Hint Resolve steady_is_list_terminator : down.

Lemma steady_some_context n contexts cs : steady t n (some_context contexts cs).
Proof.
  induction cs as [|c cs IH]; cbn [some_context]; [down_body|].
  assert (steady t n (or_else (is_list_element c true) (is_list_terminator c))) by auto with down. down_body.
Qed.
#[local] Hint Resolve steady_some_context : down.
Lemma steady_is_in_some_parsing_context n : steady t n is_in_some_parsing_context.
Proof. unfold is_in_some_parsing_context. down_body. Qed.
Lemma steady_parsing_context_errors n c : steady t n (parsing_context_errors c).
Proof. unfold parsing_context_errors, error_here. destruct c; down_body. Qed.
#[local] Hint Resolve steady_is_in_some_parsing_context steady_parsing_context_errors : down.

(** ** Lists without separators *)

(** Elements that start with certain tokens and read one. *)
Lemma down_list n fuel c e (start : Kind -> Prop) :
  (n <= fuel)%nat ->
  (forall p, well_placed t p ->
     fin (is_list_element c false) (fun b p' => well_placed t p' /\ full_start p' = full_start p /\ token p' = token p
       /\ (b = true -> start (token p))) p) ->
  (forall p, well_placed t p -> (remaining t p < n)%nat -> start (token p) ->
     fin e (fun _ p' => well_placed t p' /\ (full_start p < full_start p')%nat) p) ->
  down t n (parse_list fuel c e).
Proof.
  intros Hle Hc He. unfold parse_list, parse_list_index.
  assert (forall l, down t n (iter fuel (list_iteration c (fun _ => e)) l)) as Hi; [|down_body].
  intros l p Hp Hn.
  apply (fin_iter _ (fun p' => well_placed t p' /\ (full_start p <= full_start p')%nat) (remaining t));
    [|split; [done|lia]|lia].
  intros l' p1 [Hp1 Hf1]. unfold list_iteration, abort_parsing_list_or_move_to_next_token.
  apply fin_bind, is_list_terminator_fin; [done|]. intros b p2 Hp2 Hf2 Ht2 Hb. apply fin_if; intros ->.
  { apply fin_ret. split; [done|lia]. }
  specialize (Hb eq_refl). apply fin_bind. eapply fin_mono; [by apply Hc|]. intros b p3 (Hp3 & Hf3 & Ht3 & Hs).
  apply fin_if; intros ->.
  - apply fin_bind. eapply fin_mono; [apply He; [done|bound|rewrite Ht3; by apply Hs]|].
    intros x p4 [Hp4 Hf4]. apply fin_ret. split; [split; [done|lia]|bound].
  - assert (token p3 <> Kind.EndOfFile) as Hl by congruence. run_steps. all: cbv beta zeta.
    all: split_and!; (done || bound).
Qed.

(** ** Delimited lists *)
Lemma other_start p p' :
  (token_full_start (scanner p) =? token_full_start (scanner p')) = false -> full_start p <> full_start p'.
Proof. unfold token_full_start, full_start. intros E Heq. rewrite Heq, Z.eqb_refl in E. done. Qed.

Ltac list_step :=
  cbv beta zeta;
  lazymatch goal with
  | |- fin (is_list_terminator _) _ _ => eapply is_list_terminator_fin; [eassumption|down_intros]
  | |- fin error_here _ _ => unfold error_here
  | |- _ => token_step
  end;
  repeat match goal with
  | E : ?b = false -> _, F : ?b = false |- _ => specialize (E F)
  end; live_hyps.
Ltac list_steps := repeat list_step; cbv beta zeta.

(** One round: it reads a token, or the list ends. *)
Lemma iteration_fin n c e l p :
  down t n e -> well_placed t p -> (remaining t p < n)%nat ->
  fin (delimited_list_iteration c e l) (fun r p' => well_placed t p' /\ (full_start p <= full_start p')%nat
    /\ match r with inl _ => (full_start p < full_start p')%nat | inr _ => True end) p.
Proof.
  intros He Hp Hn. unfold delimited_list_iteration, abort_parsing_list_or_move_to_next_token, error_here. list_steps.
  all: repeat match goal with E : (token_full_start _ =? token_full_start _) = false |- _ => apply other_start in E end.
  all: split_and!; (done || bound).
Qed.

Lemma down_delimited_list_opt n fuel c e :
  (n <= fuel)%nat -> down t n e -> down t n (parse_delimited_list_opt fuel c e).
Proof.
  intros Hle He. unfold parse_delimited_list_opt.
  assert (forall l, down t n (iter fuel (delimited_list_iteration c e) l)) as Hi; [|down_body].
  intros l p Hp Hn.
  apply (fin_iter _ (fun p' => well_placed t p' /\ (full_start p <= full_start p')%nat) (remaining t));
    [|split; [done|lia]|lia].
  intros l' p1 [Hp1 Hf1]. eapply fin_mono; [apply (iteration_fin n); [done|done|bound]|].
  intros [l1|r] p2 (Hp2 & Hf2 & Hlt); [|split; [done|lia]]. split; [split; [done|lia]|bound].
Qed.

Lemma down_delimited_list n fuel c e : (n <= fuel)%nat -> down t n e -> down t n (parse_delimited_list fuel c e).
Proof.
  intros Hle He. assert (down t n (Some <$> e)) as Hs by down_body.
  pose proof (down_delimited_list_opt n fuel c _ Hle Hs) as Hl. unfold parse_delimited_list. down_body.
Qed.

Lemma steady_create_missing_list n : steady t n create_missing_list.
Proof. unfold create_missing_list. down_body. Qed.
#[local] Hint Resolve steady_create_missing_list : down.

(** A list in brackets: the opening one is read. *)
Lemma down_bracketed_list n fuel c e o k :
  (n <= fuel)%nat -> o <> Kind.EndOfFile -> k <> Kind.EndOfFile -> down t (n - 1) e ->
  down t n (parse_bracketed_list fuel c e o k).
Proof.
  intros Hle Ho Hk He. pose proof (down_delimited_list (n - 1) fuel c e ltac:(lia) He) as Hl. unfold parse_bracketed_list. down_body.
Qed.

Lemma down_matching_brackets n k : k <> Kind.EndOfFile -> down t n (parse_expected_matching_brackets k).
Proof. intros Hk. unfold parse_expected_matching_brackets. down_body. Qed.
End lists.

#[export] Hint Resolve steady_token_in steady_token_is steady_line_break steady_or_else steady_and_then steady_not
  down_next_token_is steady_is_list_element steady_is_list_terminator steady_create_missing_list : down.
