(* ===== verification/MemberTotal.v ===== *)
(** * MemberTotal: the parser of operands always comes to an end

    The loops over members and calls read a token in every round, nested expressions are read after a bracket, and every
    [new] that nests is a token: with more fuel than bytes, parsing an expression ends. *)
From S2P Require Import Prelude Text Chars SyntaxKind Monad JsNum Keywords Trivia.
From S2P Require Import ScannerState ScannerInv RegExp RescanTotal CoreTypes Ast Precedence ParserState ExprParser ListParser.
From S2P Require Import MemberParser ParserInv ExprGrammar ParserTotal ExprTotal.

(** The rest of the parser, on less than [n] bytes. An object literal starts with a brace; a simple arrow function is read
    at its arrow or behind [async]. *)
Class EndingPrimary (t : bytes) (n : nat) (primary : PrimaryParts) : Prop := {
  ending_type_ : down t n type_;
  ending_jsx_ b z o u : down t n (jsx_element b z o u);
  ending_js_ e : down t n (js_syntax e);
  ending_object p : well_placed t p -> (remaining t p < n)%nat -> token p = Kind.OpenBraceToken ->
    fin parse_object_literal_expression (fun _ p' => well_placed t p' /\ (full_start p <= full_start p')%nat) p;
  ending_function : down t n parse_function_expression;
  ending_class : down t n parse_class_expression;
  ending_decorated : down t n parse_decorated_expression;
  ending_paren_arrow a b : down t n (parse_parenthesized_arrow_function_expression a b);
  ending_simple_arrow_ pos e b m p :
    well_placed t p -> (remaining t p < n)%nat -> token p = Kind.EqualsGreaterThanToken \/ (remaining t p < n - 1)%nat ->
    fin (simple_arrow_function pos e b m) (fun _ p' => well_placed t p' /\ (full_start p <= full_start p')%nat) p;
}.

Lemma ending_primary_mono t n n' primary : EndingPrimary t n primary -> (n' <= n)%nat -> EndingPrimary t n' primary.
Proof.
  intros [] Hle. split; intros; try by eapply down_mono.
  - match goal with Hs : forall p, well_placed _ _ -> _ |- _ => apply Hs; [done|lia|done] end.
  - match goal with Hs : forall pos e b m p, well_placed _ _ -> _ |- _ => apply Hs; [done|lia|] end.
    match goal with E : _ \/ _ |- _ => destruct E; [by left|right; lia] end.
Qed.

Section members.
Context `{JsNumber} `{SpellingSuggestions} {starts : ListStarts} {primary : PrimaryParts}.
Context (t : bytes) (Hascii : is_ascii t = true) (Hnul : forall i, t !! i <> Some 0) `{!EndingStarts t starts}.

(** ** Identifiers and literals *)
Lemma steady_error_at_token_or_end n m args : steady t n (error_at_token_or_end m args).
Proof. unfold error_at_token_or_end. down_body. Qed.
Lemma down_accept_identifier n : down t n accept_identifier.
Proof. unfold accept_identifier. down_body. Qed.
#[local] Hint Resolve steady_error_at_token_or_end down_accept_identifier : down.
Lemma down_create_identifier n b d q : down t n (create_identifier_with_diagnostic b d q).
Proof. unfold create_identifier_with_diagnostic. down_body. Qed.
#[local] Hint Resolve down_create_identifier : down.
Lemma down_parse_identifier n d q : down t n (parse_identifier_with_diagnostic d q).
Proof. unfold parse_identifier_with_diagnostic. down_body. Qed.
Lemma down_parse_identifier_name n : down t n parse_identifier_name.
Proof. unfold parse_identifier_name, parse_identifier_name_with_diagnostic. down_body. Qed.
Lemma down_parse_private_identifier n : down t n parse_private_identifier.
Proof. unfold parse_private_identifier. down_body. Qed.
#[local] Hint Resolve down_parse_identifier down_parse_identifier_name down_parse_private_identifier : down.

(** Literals and keywords are tokens. *)
Lemma parse_literal_fin (Q : Node -> Parser -> Prop) p :
  well_placed t p -> (forall e p', well_placed t p' -> (full_start p < full_start p')%nat -> Q e p') ->
  fin parse_literal_expression Q p.
Proof.
  intros Hp HQ. unfold parse_literal_expression. run_steps. apply HQ; [done|bound].
Qed.
Lemma down_parse_literal n : down t n parse_literal_expression.
Proof. intros p Hp _. apply parse_literal_fin; [done|]. intros. split; [done|lia]. Qed.
Lemma parse_keyword_fin (Q : Node -> Parser -> Prop) p :
  well_placed t p -> (forall e p', well_placed t p' -> (full_start p <= full_start p')%nat -> Q e p') ->
  fin parse_keyword_expression Q p.
Proof. intros Hp HQ. unfold parse_keyword_expression. run_steps; apply HQ; (done || bound). Qed.
Lemma down_parse_keyword n : down t n parse_keyword_expression.
Proof. intros p Hp _. apply parse_keyword_fin; [done|]. intros. split; [done|lia]. Qed.
#[local] Hint Resolve down_parse_literal down_parse_keyword : down.

Lemma down_next_on_same_line n : down t n next_token_is_identifier_or_keyword_on_same_line.
Proof. unfold next_token_is_identifier_or_keyword_on_same_line. down_body. Qed.
Lemma steady_missing_name n : steady t n missing_name.
Proof. unfold missing_name. down_body. Qed.
#[local] Hint Resolve down_next_on_same_line steady_missing_name : down.
Lemma down_right_side_of_dot n a b c : down t n (parse_right_side_of_dot a b c).
Proof.
  unfold parse_right_side_of_dot, parse_identifier_name_error_on_unicode_escape_sequence, create_identifier,
    parse_identifier. down_body.
Qed.
#[local] Hint Resolve down_right_side_of_dot : down.

(** ** Templates *)
Context (n : nat) (parse_expression : MP Node) (assignment : bool -> MP Node) (binary : MP Node) (fuel : nat).
Context (Hfuel : (n <= fuel)%nat) (Hexpression : down t (n - 1) parse_expression).
Context (Hassignment : forall b, down t (n - 1) (assignment b)) (Hbinary : down t (n - 1) binary).
Context `{!EndingPrimary t n primary}.

Lemma steady_raw_text n' k : steady t n' (get_template_literal_raw_text k).
Proof. unfold get_template_literal_raw_text. down_body. Qed.
#[local] Hint Resolve steady_raw_text : down.

(** A part of a template is a token. *)
Lemma template_part_fin k m (Q : Node -> Parser -> Prop) p :
  well_placed t p -> token p <> Kind.EndOfFile ->
  (forall e p', well_placed t p' -> (full_start p < full_start p')%nat -> Q e p') -> fin (template_part k m) Q p.
Proof. intros Hp Hl HQ. unfold template_part. run_steps. apply HQ; [done|bound]. Qed.

Lemma template_head_fin b (Q : Node -> Parser -> Prop) p :
  well_placed t p -> token p <> Kind.EndOfFile ->
  (forall e p', well_placed t p' -> (full_start p < full_start p')%nat -> Q e p') -> fin (parse_template_head b) Q p.
Proof.
  intros Hp Hl HQ. unfold parse_template_head, token_is_invalid. run_steps.
  all: apply template_part_fin; [done|not_end|]; intros; apply HQ; [done|bound].
Qed.

(** The literal after an expression: a middle is a token. *)
Lemma literal_of_span_fin b (Q : Node -> Parser -> Prop) p :
  well_placed t p ->
  (forall e p', well_placed t p' -> (full_start p <= full_start p')%nat ->
     (kind e = Kind.TemplateMiddle -> (full_start p < full_start p')%nat) -> Q e p') ->
  fin (parse_literal_of_template_span b) Q p.
Proof.
  intros Hp HQ. unfold parse_literal_of_template_span, parse_template_middle_or_tail. run_steps.
  all: try (apply template_part_fin; [done|not_end|]; intros; apply HQ; [done|bound|bound]).
  apply HQ; [done|bound|]. unfold kind. by match goal with E : data _ = _ |- _ => rewrite E end.
Qed.

Lemma template_spans_fin b l (Q : list Node -> Parser -> Prop) p :
  well_placed t p -> (remaining t p < n - 1)%nat ->
  (forall r p', well_placed t p' -> (full_start p <= full_start p')%nat -> Q r p') ->
  fin (iter fuel (template_spans_iteration parse_expression b) l) Q p.
Proof.
  intros Hp Hn HQ.
  apply (fin_iter _ (fun p' => well_placed t p' /\ (full_start p <= full_start p')%nat) (remaining t));
    [|split; [done|lia]|lia].
  intros l' p1 [Hp1 Hf1]. unfold template_spans_iteration, parse_template_span, allow_in. do 5 token_step.
  eapply (use_down t (n - 1)); [by apply down_do_in_context|done|bound|]. intros e p2 Hp2 Hf2.
  apply fin_bind, literal_of_span_fin; [done|]. intros lit p3 Hp3 Hf3 Hmid. run_steps.
  unfold span_is_middle. match goal with E : data _ = _ |- _ => rewrite E end.
  destruct (Kind_eqb (kind lit) Kind.TemplateMiddle) eqn:Ek; [|apply HQ; (done || bound)].
  apply Kind_eqb_eq in Ek. specialize (Hmid Ek). split; [split; [done|bound]|bound].
Qed.

Lemma template_expression_fin b (Q : Node -> Parser -> Prop) p :
  well_placed t p -> (remaining t p < n)%nat -> token p <> Kind.EndOfFile ->
  (forall e p', well_placed t p' -> (full_start p < full_start p')%nat -> Q e p') ->
  fin (parse_template_expression parse_expression fuel b) Q p.
Proof.
  intros Hp Hn Hl HQ. unfold parse_template_expression, parse_template_spans. do 3 token_step.
  apply fin_bind, template_head_fin; [done..|]. intros e p1 Hp1 Hf1. do 4 token_step.
  apply template_spans_fin; [done|bound|]. intros l p2 Hp2 Hf2. run_steps. apply HQ; [done|bound].
Qed.

Lemma tagged_template_fin pos tag q a (Q : Node -> Parser -> Prop) p :
  well_placed t p -> (remaining t p < n)%nat -> token p <> Kind.EndOfFile ->
  (forall e p', well_placed t p' -> (full_start p < full_start p')%nat -> Q e p') ->
  fin (parse_tagged_template_rest parse_expression fuel pos tag q a) Q p.
Proof.
  intros Hp Hn Hl HQ. pose proof ending_js_ as Hjs. unfold parse_tagged_template_rest, finish_chain. do 7 token_step.
  - token_step. token_step. apply parse_literal_fin; [done|]. intros e p2 Hp2 Hf2. run_steps; apply HQ; (done || bound).
  - apply template_expression_fin; [done..|]. intros e p2 Hp2 Hf2. run_steps; apply HQ; (done || bound).
Qed.

Lemma steady_is_template_start n' : steady t n' is_template_start_of_tagged_template.
Proof. apply steady_token_in. Qed.
#[local] Hint Resolve steady_is_template_start : down.

(** ** Arguments and elements *)
Lemma down_argument : down t (n - 1) (parse_argument_or_array_literal_element assignment).
Proof. unfold parse_argument_or_array_literal_element, parse_spread_element. down_body. Qed.

Lemma argument_list_down : down t n (parse_argument_list assignment fuel).
Proof.
  unfold parse_argument_list. apply down_bracketed_list; [done..|].
  apply down_do_in_context, down_argument.
Qed.

Lemma array_literal_fin (Q : Node -> Parser -> Prop) p :
  well_placed t p -> (remaining t p < n)%nat -> token p = Kind.OpenBracketToken ->
  (forall e p', well_placed t p' -> (full_start p <= full_start p')%nat -> Q e p') ->
  fin (parse_array_literal_expression assignment fuel) Q p.
Proof.
  intros Hp Hn Ht HQ. pose proof (down_delimited_list t Hascii (n - 1) fuel PCArrayLiteralMembers _ ltac:(lia) down_argument) as Hl.
  pose proof (down_matching_brackets t Hascii (n - 1) Kind.CloseBracketToken ltac:(done)) as Hm.
  unfold parse_array_literal_expression. run_steps; apply HQ; (done || bound).
Qed.

(** ** Type arguments *)
Lemma steady_can_follow n' : steady t n' can_follow_type_arguments_in_expression.
Proof.
  unfold can_follow_type_arguments_in_expression.
  assert (steady t n' (or_else has_preceding_line_break (or_else is_binary_operator (not_ is_start_of_expression))))
    by auto 6 with down. down_body.
Qed.
#[local] Hint Resolve steady_can_follow : down.

Lemma type_arguments_attempt_fin p :
  well_placed t p -> (remaining t p < n)%nat ->
  fin (type_arguments_attempt fuel)
    (fun r p' => well_placed t p' /\ (is_Some r -> (full_start p < full_start p')%nat)) p.
Proof.
  intros Hp Hn. assert (down t (n - 1) type_) as Hty by (eapply down_mono; [apply ending_type_|lia]).
  pose proof (down_delimited_list t Hascii (n - 1) fuel PCTypeArguments type_ ltac:(lia) Hty) as Hl.
  unfold type_arguments_attempt. run_steps.
  all: first [intros []%is_Some_None | intros _; bound].
Qed.

Lemma type_arguments_fin (Q : option NodeList -> Parser -> Prop) p :
  well_placed t p -> (remaining t p < n)%nat ->
  (forall l p', well_placed t p' -> (full_start p < full_start p')%nat -> Q (Some l) p') ->
  (forall p', well_placed t p' -> full_start p' = full_start p -> token p' = token p -> Q None p') ->
  fin (try_parse_type_arguments_in_expression fuel) Q p.
Proof. intros Hp Hn H1 H2. apply (attempt_fin t); [done|by apply type_arguments_attempt_fin|done..]. Qed.

(** ** Members and calls *)
Lemma down_property_access pos e q : down t n (parse_property_access_expression_rest pos e q).
Proof. unfold parse_property_access_expression_rest, skip_range_trivia, finish_chain. down_body. Qed.

Lemma element_access_fin pos e q (Q : Node -> Parser -> Prop) p :
  well_placed t p -> (remaining t p < n - 1)%nat ->
  (forall e p', well_placed t p' -> (full_start p <= full_start p')%nat -> Q e p') ->
  fin (parse_element_access_expression_rest parse_expression pos e q) Q p.
Proof.
  intros Hp Hn HQ. assert (down t (n - 1) (allow_in parse_expression)) as Ha by by apply down_do_in_context.
  unfold parse_element_access_expression_rest, finish_chain. run_steps; apply HQ; (done || bound).
Qed.

Lemma is_start_of_optional_chain_fin (Q : bool -> Parser -> Prop) p :
  well_placed t p ->
  (forall b p', well_placed t p' -> full_start p' = full_start p -> token p' = token p ->
     (b = true -> token p = Kind.QuestionDotToken) -> Q b p') ->
  fin is_start_of_optional_property_or_element_access_chain Q p.
Proof.
  intros Hp HQ. unfold is_start_of_optional_property_or_element_access_chain, and_then.
  assert (forall n', down t n' next_token_is_identifier_or_keyword_or_open_bracket_or_template) as Hnext
    by (intros n'; unfold next_token_is_identifier_or_keyword_or_open_bracket_or_template; down_body).
  run_steps; by apply HQ.
Qed.

Ltac member_step :=
  cbv beta zeta;
  lazymatch goal with
  | |- fin (parse_tagged_template_rest _ _ _ _ _ _) _ _ => eapply tagged_template_fin; [eassumption|bound|not_end|intros]
  | |- fin (try_parse_type_arguments_in_expression _) _ _ => eapply type_arguments_fin; [eassumption|bound|intros|intros]
  | |- fin (parse_element_access_expression_rest _ _ _ _) _ _ => eapply element_access_fin; [eassumption|bound|intros]
  | |- fin is_start_of_optional_property_or_element_access_chain _ _ =>
      eapply is_start_of_optional_chain_fin; [eassumption|intros]
  | |- fin in_decorator_context _ _ => apply fin_gets
  | |- fin is_template_start_of_tagged_template _ _ => unfold is_template_start_of_tagged_template, token_in
  | |- _ => token_step
  end;
  repeat match goal with
  | E : ?b = true -> _, F : ?b = true |- _ => specialize (E F)
  end; live_hyps.

Definition advances (p : Parser) (r : Node + Node) (p' : Parser) : Prop :=
  well_placed t p' /\ (full_start p <= full_start p')%nat
  /\ match r with inl _ => (full_start p < full_start p')%nat | inr _ => True end.

Lemma member_iteration_fin pos b e p :
  well_placed t p -> (remaining t p < n)%nat -> fin (member_iteration parse_expression fuel pos b e) (advances p) p.
Proof.
  intros Hp Hn. pose proof ending_js_ as Hjs. pose proof down_property_access as Hprop.
  unfold member_iteration. repeat member_step. all: cbv beta zeta.
  all: first [congruence | unfold advances; split_and!; (done || bound)].
Qed.

(** A loop of such rounds. *)
Lemma advances_iter body e p :
  (forall e p, well_placed t p -> (remaining t p < n)%nat -> fin (body e) (advances p) p) ->
  well_placed t p -> (remaining t p < n)%nat ->
  fin (iter fuel body e) (fun _ p' => well_placed t p' /\ (full_start p <= full_start p')%nat) p.
Proof.
  intros Hb Hp Hn.
  apply (fin_iter _ (fun p' => well_placed t p' /\ (full_start p <= full_start p')%nat) (remaining t));
    [|split; [done|lia]|lia].
  intros l p1 [Hp1 Hf1]. eapply fin_mono; [apply Hb; [done|bound]|].
  intros [l1|r] p2 (Hp2 & Hf2 & Hlt); [|split; [done|lia]]. split; [split; [done|lia]|bound].
Qed.

Lemma down_member_rest pos e b : down t n (parse_member_expression_rest parse_expression fuel pos e b).
Proof.
  intros p Hp Hn. unfold parse_member_expression_rest. apply advances_iter; [|done..].
  intros. by apply member_iteration_fin.
Qed.

Lemma argument_list_fin (Q : NodeList -> Parser -> Prop) p :
  well_placed t p -> (remaining t p < n)%nat ->
  (forall l p', well_placed t p' -> (full_start p <= full_start p')%nat ->
     (token p = Kind.OpenParenToken -> (full_start p < full_start p')%nat) -> Q l p') ->
  fin (parse_argument_list assignment fuel) Q p.
Proof.
  intros Hp Hn HQ. unfold parse_argument_list, parse_bracketed_list.
  pose proof (down_delimited_list t Hascii (n - 1) fuel PCArgumentExpressions (parse_argument_expression assignment)
    ltac:(lia) (down_do_in_context t (n - 1) _ _ _ down_argument)) as Hl.
  run_steps; apply HQ; (done || bound || (intros; try congruence; bound)).
Qed.

Lemma call_rest_fin pos e q a (Q : Node -> Parser -> Prop) p :
  well_placed t p -> (remaining t p < n)%nat ->
  (forall e p', well_placed t p' -> (full_start p <= full_start p')%nat ->
     (token p = Kind.OpenParenToken -> (full_start p < full_start p')%nat) -> Q e p') ->
  fin (parse_call_rest assignment fuel pos e q a) Q p.
Proof.
  intros Hp Hn HQ. pose proof ending_js_ as Hjs. unfold parse_call_rest, finish_chain.
  destruct (match q with None => _ | _ => _ end) as [e1 a1].
  apply fin_bind, argument_list_fin; [done..|]. intros l p1 Hp1 Hf1 Hlt. run_steps.
  apply HQ; [done|bound|intros E; specialize (Hlt E); bound].
Qed.

Lemma call_iteration_fin pos e p :
  well_placed t p -> (remaining t p < n)%nat ->
  fin (call_iteration parse_expression assignment fuel pos e) (advances p) p.
Proof.
  intros Hp Hn. pose proof down_member_rest as Hmember. unfold call_iteration, finish_chain.
  repeat lazymatch goal with
  | |- fin (parse_call_rest _ _ _ _ _ _) _ _ => eapply call_rest_fin; [eassumption|bound|intros; live_hyps]
  | |- _ => member_step
  end; cbv beta zeta.
  all: try match goal with
       | E : bool_decide _ || Kind_eqb _ _ = true |- advances _ (inl _) _ =>
           apply orb_true_iff in E as [E|E%Kind_eqb_eq]; [try done|]; live_hyps
       end.
  all: first [congruence | unfold advances; split_and!; (done || bound)].
Qed.

Lemma down_call_expression_rest pos e : down t n (parse_call_expression_rest parse_expression assignment fuel pos e).
Proof.
  intros p Hp Hn. unfold parse_call_expression_rest. apply advances_iter; [|done..].
  intros. by apply call_iteration_fin.
Qed.

(** ** Primary expressions *)
Lemma parenthesized_fin (Q : Node -> Parser -> Prop) p :
  well_placed t p -> (remaining t p < n)%nat -> token p = Kind.OpenParenToken ->
  (forall e p', well_placed t p' -> (full_start p <= full_start p')%nat -> Q e p') ->
  fin (parse_parenthesized_expression parse_expression) Q p.
Proof.
  intros Hp Hn Ht HQ. unfold parse_parenthesized_expression. run_steps; apply HQ; (done || bound).
Qed.

Lemma down_function_keyword n' : down t n' next_token_is_function_keyword_on_same_line.
Proof. unfold next_token_is_function_keyword_on_same_line. down_body. Qed.
#[local] Hint Resolve down_function_keyword : down.

Lemma primary_fin m new p :
  (m <= n)%nat -> well_placed t p -> (remaining t p < m)%nat ->
  (forall p, well_placed t p -> (remaining t p < m)%nat -> token p = Kind.NewKeyword ->
     fin new (fun _ p' => well_placed t p' /\ (full_start p <= full_start p')%nat) p) ->
  fin (primary_expression parse_expression assignment fuel new)
    (fun _ p' => well_placed t p' /\ (full_start p <= full_start p')%nat) p.
Proof.
  intros Hm Hp Hn Hnew. pose proof ending_function. pose proof ending_class.
  pose proof ending_decorated. unfold primary_expression, token_is_invalid. apply fin_bind, fin_gets.
  assert (fin (parse_identifier_with_diagnostic (Some EXPRESSION_EXPECTED) None)
    (fun _ p' => well_placed t p' /\ (full_start p <= full_start p')%nat) p) as Hdefault
    by by apply (down_parse_identifier n); [|lia].
  destruct (token p) eqn:Et; try exact Hdefault; clear Hdefault.
  all: try (by apply Hnew).
  all: try (apply ending_object; [done|lia|done]).
  all: try solve [run_steps].
  - apply template_expression_fin; [done|lia|congruence|]. intros. split; [done|lia].
  - apply parenthesized_fin; [done|lia|done|]. intros. split; [done|lia].
  - apply array_literal_fin; [done|lia|done|]. intros. split; [done|lia].
Qed.

(** Every [new] is a token. *)
Lemma new_fin depth m p :
  (m <= n)%nat -> (m <= depth)%nat -> well_placed t p -> (remaining t p < m)%nat -> token p = Kind.NewKeyword ->
  fin (parse_new_expression_or_new_dot_target parse_expression assignment fuel depth)
    (fun _ p' => well_placed t p' /\ (full_start p <= full_start p')%nat) p.
Proof.
  revert m p. induction depth as [|depth IH]; intros m p Hm Hd Hp Hn Ht; [lia|].
  cbn [parse_new_expression_or_new_dot_target]. pose proof down_member_rest as Hrest. pose proof argument_list_down as Hargs.
  pose proof ending_js_ as Hjs.
  assert (down t (m - 1) (primary_expression parse_expression assignment fuel
    (parse_new_expression_or_new_dot_target parse_expression assignment fuel depth))) as Hprimary.
  { intros p1 Hp1 Hn1. apply (primary_fin (m - 1)); [lia|done|done|]. intros p2 Hp2 Hn2 Ht2.
    apply (IH (m - 1)%nat); [lia|lia|done..]. }
  run_steps.
Qed.

Lemma down_primary : down t n (parse_primary_expression parse_expression assignment fuel).
Proof.
  intros p Hp Hn. apply (primary_fin n); [done..|]. intros p1 Hp1 Hn1 Ht1. by apply (new_fin _ n).
Qed.
Lemma down_member_expression_or_higher : down t n (parse_member_expression_or_higher parse_expression assignment fuel).
Proof.
  pose proof down_primary as Hp. pose proof down_member_rest as Hr. unfold parse_member_expression_or_higher. down_body.
Qed.

(** ** [super], [import] and operands *)
Lemma down_super : down t n (parse_super_expression fuel).
Proof.
  intros p Hp Hn. unfold parse_super_expression. pose proof parse_keyword_fin as Hk.
  repeat member_step; cbv beta zeta. all: try (split; [done|bound]).
Qed.

Lemma down_open_paren_or_less n' : down t n' next_token_is_open_paren_or_less_than.
Proof. unfold next_token_is_open_paren_or_less_than. down_body. Qed.
Lemma down_dot n' : down t n' next_token_is_dot.
Proof. apply (down_next_token_is t Hascii). Qed.
#[local] Hint Resolve down_open_paren_or_less down_dot : down.
Lemma down_import pos : down t n (parse_import_expression parse_expression assignment fuel pos).
Proof.
  pose proof down_member_expression_or_higher as Hm. unfold parse_import_expression, add_source_flags. down_body.
Qed.

Lemma down_left_hand_side : down t n (left_hand_side_expression_or_higher parse_expression assignment fuel).
Proof.
  pose proof down_member_expression_or_higher as Hm. pose proof down_call_expression_rest as Hc.
  pose proof down_import as Hi. pose proof down_super as Hs. intros p Hp Hn. unfold left_hand_side_expression_or_higher.
  do 2 apply fin_bind, fin_gets. apply fin_bind.
  eapply (fin_mono _ (fun _ p' => well_placed t p' /\ (full_start p <= full_start p')%nat)).
  - assert (fin (parse_member_expression_or_higher parse_expression assignment fuel)
      (fun _ p' => well_placed t p' /\ (full_start p <= full_start p')%nat) p) as Hdefault by by apply Hm.
    destruct (token p) eqn:Et; try exact Hdefault; [by apply Hi|by apply (new_fin _ n)|by apply Hs].
  - intros e p1 [Hp1 Hf1]. eapply fin_mono; [apply Hc; [done|bound]|]. intros ? p2 [? ?]. split; [done|lia].
Qed.

(** ** Arrow functions *)
Lemma down_next_is_identifier n' : down t n' next_token_is_identifier.
Proof. unfold next_token_is_identifier. down_body. Qed.
Lemma down_arrow_in_jsx n' : down t n' is_arrow_function_in_jsx.
Proof. unfold is_arrow_function_in_jsx. down_body. Qed.
Lemma down_after_identifier n' : down t n' next_is_parenthesized_after_identifier.
Proof. unfold next_is_parenthesized_after_identifier. down_body. Qed.
#[local] Hint Resolve down_next_is_identifier down_arrow_in_jsx down_after_identifier : down.
Lemma down_after_open_paren n' k : down t n' (next_is_parenthesized_after_open_paren k).
Proof. unfold next_is_parenthesized_after_open_paren. down_body. Qed.
#[local] Hint Resolve down_after_open_paren : down.
Lemma down_next_is_parenthesized n' : down t n' next_is_parenthesized_arrow_function_expression.
Proof. unfold next_is_parenthesized_arrow_function_expression. down_body. Qed.
#[local] Hint Resolve down_next_is_parenthesized : down.
Lemma steady_is_parenthesized n' : steady t n' is_parenthesized_arrow_function_expression.
Proof. unfold is_parenthesized_arrow_function_expression. down_body. Qed.
#[local] Hint Resolve steady_is_parenthesized : down.

Lemma down_try_parenthesized b : down t n (try_parenthesized_arrow_function b).
Proof.
  pose proof ending_paren_arrow as Hparen.
  assert (down t n (parse_possible_parenthesized_arrow_function_expression b)) as Hpossible
    by (unfold parse_possible_parenthesized_arrow_function_expression; down_body).
  intros p Hp Hn. unfold try_parenthesized_arrow_function. run_steps.
  apply fin_modify, fin_ret. destruct (rewind_well_placed t p' p'0) as (? & ? & _); [done..|]. split; [done|lia].
Qed.

Lemma down_try_async b : down t n (try_async_simple_arrow_function binary b).
Proof.
  assert (down t n (next_is_unparenthesized_async_arrow_function binary)) as Hnext
    by (unfold next_is_unparenthesized_async_arrow_function; down_body).
  intros p Hp Hn. unfold try_async_simple_arrow_function, and_then, parse_modifiers_for_arrow_function.
  repeat lazymatch goal with
  | |- fin (simple_arrow_function _ _ _ _) _ _ =>
      eapply fin_mono; [apply ending_simple_arrow_; [eassumption|bound|right; bound]|intros ? ? [? ?]]
  | |- _ => token_step
  end; cbv beta zeta; try down_end.
  congruence.
Qed.
End members.

(** ** The knot *)
Section knot.
Context `{JsNumber} `{SpellingSuggestions} {starts : ListStarts} {primary : PrimaryParts}.
Context (t : bytes) (Hascii : is_ascii t = true) (Hnul : forall i, t !! i <> Some 0) `{!EndingStarts t starts}.

Lemma ending_expression_parts n fuel :
  (n < fuel)%nat -> EndingPrimary t n primary -> EndingParts t n (expression_parts fuel).
Proof.
  revert n. induction fuel as [|fuel IH]; intros n Hle Hp; [lia|].
  destruct n as [|n]; [split; intros; first [lia | intros ? ? ?; lia]|].
  assert (EndingParts t n (expression_parts fuel)) as Hparts by (apply IH; [lia|]; apply (ending_primary_mono t (S n)); [done|lia]).
  assert (S n - 1 = n)%nat as Hn by lia. assert (n < fuel)%nat as Hf by lia. assert (n <= fuel)%nat as Hf' by lia.
  pose proof (down_parse_expression (parts := expression_parts fuel) t Hascii n n fuel (le_n n) Hf) as He.
  pose proof (fun b => down_assignment (parts := expression_parts fuel) t Hascii n n fuel b (le_n n) Hf) as Ha.
  pose proof (down_binary (parts := expression_parts fuel) t Hascii n n fuel OPERATOR_PRECEDENCE_LOWEST (le_n n) Hf' ltac:(done)) as Hb.
  rewrite <- Hn in He, Ha, Hb at 1.
  split; cbn; intros.
  - eapply down_left_hand_side; try done; lia.
  - apply ending_type_.
  - apply ending_jsx_.
  - apply ending_js_.
  - by apply (down_try_parenthesized t Hascii (S n) fuel).
  - by apply (down_try_async t Hascii (S n) _ fuel).
  - match goal with E : token _ = Kind.EqualsGreaterThanToken |- _ => apply ending_simple_arrow_; [done|lia|by left] end.
Qed.

(** Parsing an expression ends. *)
Lemma expression_ends fuel p :
  well_placed t p -> (remaining t p + 2 <= fuel)%nat -> EndingPrimary t (S (remaining t p)) primary ->
  fin (expression fuel) (fun _ p' => well_placed t p' /\ (full_start p <= full_start p')%nat) p.
Proof.
  intros Hp Hf Hpr. pose proof (ending_expression_parts (S (remaining t p)) fuel ltac:(lia) Hpr) as Hparts.
  exact (down_parse_expression (parts := expression_parts fuel) t Hascii (S (remaining t p)) (S (remaining t p)) fuel
    (le_n _) ltac:(lia) p Hp (le_n _)).
Qed.
End knot.
