(* ===== verification/TypeInv.v ===== *)
(** * TypeInv: types and functions restore the contexts of the parser

    The methods of NameParser.v, TypeParser.v and FunctionParser.v keep [Frame] if the parts nested in them do, so that the
    parser of expressions and types as a whole does ([framed_primary_parts]). *)
From S2P Require Import Prelude Text Chars SyntaxKind Monad JsNum Keywords.
From S2P Require Import ScannerState Scanner RegExp CoreTypes Ast Precedence ParserState ExprParser ListParser MemberParser.
From S2P Require Import NameParser TypeParser FunctionParser ParserInv.

Class FramedNested (nested : NestedParts) : Prop := {
  framed_nested_type : keeps Frame nested_type;
  framed_nested_expression : keeps Frame nested_expression;
  framed_nested_assignment b : keeps Frame (nested_assignment_worker b);
  framed_nested_unary : keeps Frame nested_unary;
  framed_nested_operand : keeps Frame nested_left_hand_side;
  framed_nested_chain pos n : keeps Frame (nested_chain pos n);
}.
#[export] Hint Resolve framed_nested_type framed_nested_expression framed_nested_assignment framed_nested_unary
  framed_nested_operand framed_nested_chain : keeps.

Class FramedRest (rest : RestParts) : Prop := {
  framed_block b m : keeps Frame (parse_block b m);
  framed_rest_js n : keeps Frame (rest_js_syntax n);
  framed_rest_jsx b z o u : keeps Frame (rest_jsx_element b z o u);
  framed_rest_class pos m k : keeps Frame (parse_class_declaration_or_expression pos m k);
}.
#[export] Hint Resolve framed_block framed_rest_js framed_rest_jsx framed_rest_class : keeps.

#[export] Hint Resolve keeps_create_identifier_with_diagnostic keeps_parse_identifier_with_diagnostic
  keeps_parse_identifier_name keeps_parse_private_identifier keeps_parse_literal_expression keeps_parse_right_side_of_dot
  keeps_parse_template_head keeps_parse_literal_of_template_span keeps_add_source_flags keeps_function_keyword : keeps.

(** Conditions that may move the parser. *)
Ltac tests_go :=
  repeat first
    [ keeps_leaf
    | lazymatch goal with
      | |- keeps _ (or_else _ _) => apply keeps_or_else
      | |- keeps _ (and_then _ _) => apply keeps_and_then
      | |- keeps _ (not_ _) => apply keeps_not
      | |- keeps _ (look_ahead _) => apply keeps_look_ahead_frame
      | |- keeps _ (do_in_context _ _ _) => apply keeps_do_in_context
      end
    | keeps_step ].

Section starts.
Context `{JsNumber}.

Lemma keeps_identifier_on_same_line : keeps Frame next_token_is_identifier_on_same_line.
Proof. unfold next_token_is_identifier_on_same_line. tests_go. Qed.
Lemma keeps_identifier_or_string_on_same_line : keeps Frame next_token_is_identifier_or_string_literal_on_same_line.
Proof. unfold next_token_is_identifier_or_string_literal_on_same_line. tests_go. Qed.
Lemma keeps_destructuring b :
  keeps Frame (next_token_is_binding_identifier_or_start_of_destructuring_on_same_line b).
Proof.
  unfold next_token_is_binding_identifier_or_start_of_destructuring_on_same_line,
    next_token_is_equals_or_semicolon_or_colon_token. tests_go.
Qed.
#[local] Hint Resolve keeps_identifier_on_same_line keeps_identifier_or_string_on_same_line keeps_destructuring : keeps.

Lemma keeps_is_start_of_declaration fuel : keeps Frame (is_start_of_declaration fuel).
Proof.
  apply keeps_look_ahead_frame. unfold scan_start_of_declaration. keeps_step.
  unfold scan_start_of_declaration_iteration, is_using_declaration, is_await_using_declaration,
    next_is_using_keyword_then_binding_identifier_or_start_of_object_destructuring_on_same_line. tests_go.
Qed.
#[local] Hint Resolve keeps_is_start_of_declaration : keeps.
Lemma keeps_statement_start fuel : keeps Frame (statement_start fuel).
Proof.
  unfold statement_start, next_token_is_identifier_or_keyword_on_same_line, next_token_is_open_paren_or_less_than_or_dot.
  tests_go.
Qed.
Lemma keeps_is_literal_property_name : keeps Frame is_literal_property_name.
Proof. unfold is_literal_property_name. tests_go. Qed.
Lemma keeps_can_parse_semicolon : keeps Frame can_parse_semicolon.
Proof. unfold can_parse_semicolon. tests_go. Qed.
#[local] Hint Resolve keeps_is_literal_property_name keeps_can_parse_semicolon : keeps.
Lemma keeps_type_member_start fuel : keeps Frame (type_member_start fuel).
Proof. unfold type_member_start, modifiers_iteration. tests_go. Qed.
Lemma keeps_class_member_start fuel : keeps Frame (class_member_start fuel).
Proof. unfold class_member_start, class_modifiers_iteration. tests_go. Qed.
Lemma keeps_start_of_type fuel b : keeps Frame (start_of_type fuel b).
Proof.
  revert b. induction fuel as [|fuel IH]; intros b; cbn [start_of_type]; [done|].
  unfold start_of_parameter, is_binding_identifier_or_private_identifier_or_pattern,
    next_token_is_numeric_or_big_int_literal. tests_go.
Qed.

#[export] Instance framed_list_starts fuel : FramedStarts (list_starts fuel).
Proof.
  split; [apply keeps_statement_start|apply keeps_type_member_start|apply keeps_class_member_start|apply keeps_start_of_type].
Qed.
End starts.
#[export] Hint Resolve keeps_is_literal_property_name keeps_can_parse_semicolon : keeps.

Section names.
Context `{JsNumber} {starts : ListStarts} {nested : NestedParts} {rest : RestParts} (fuel : nat).
Context `{!FramedStarts starts} `{!FramedNested nested} `{!FramedRest rest}.

Lemma keeps_speculation {A} (m : MP (option A)) : keeps Frame m -> keeps Frame (attempt m).
Proof. apply keeps_attempt. Qed.

(** ** Modifiers *)
Lemma keeps_can_follow_modifier : keeps Frame can_follow_modifier.
Proof. unfold can_follow_modifier. tests_go. Qed.
#[local] Hint Resolve keeps_can_follow_modifier : keeps.
Lemma keeps_can_follow_export : keeps Frame can_follow_export_modifier.
Proof. unfold can_follow_export_modifier. tests_go. Qed.
#[local] Hint Resolve keeps_can_follow_export : keeps.
Lemma keeps_can_follow_default : keeps Frame next_token_can_follow_default_keyword.
Proof. unfold next_token_can_follow_default_keyword, next_token_is_class_keyword_on_same_line. tests_go. Qed.
Lemma keeps_on_same_line_modifier : keeps Frame next_token_is_on_same_line_and_can_follow_modifier.
Proof. unfold next_token_is_on_same_line_and_can_follow_modifier. tests_go. Qed.
#[local] Hint Resolve keeps_can_follow_default keeps_on_same_line_modifier : keeps.
Lemma keeps_next_can_follow_modifier : keeps Frame next_token_can_follow_modifier.
Proof. unfold next_token_can_follow_modifier, can_follow_get_or_set_keyword, next_token_can_follow_export_modifier. tests_go. Qed.
#[local] Hint Resolve keeps_next_can_follow_modifier : keeps.
Lemma keeps_contextual_modifier kinds : keeps Frame (contextual_modifier kinds).
Proof. unfold contextual_modifier. keeps_step; [apply keeps_speculation; tests_go|tests_go]. Qed.
#[local] Hint Resolve keeps_contextual_modifier : keeps.
Lemma keeps_parse_contextual_modifier k : keeps Frame (parse_contextual_modifier k).
Proof. apply keeps_contextual_modifier. Qed.
Lemma keeps_parse_any_contextual_modifier : keeps Frame parse_any_contextual_modifier.
Proof. apply keeps_contextual_modifier. Qed.
#[local] Hint Resolve keeps_parse_contextual_modifier keeps_parse_any_contextual_modifier : keeps.
Lemma keeps_try_parse_modifier a b c : keeps Frame (try_parse_modifier a b c).
Proof. unfold try_parse_modifier, node_pos, next_token_is_open_brace. tests_go. Qed.
Lemma keeps_parse_decorator : keeps Frame parse_decorator.
Proof. unfold parse_decorator, parse_decorator_expression, node_pos, in_await_context, in_context. tests_go. Qed.
#[local] Hint Resolve keeps_try_parse_modifier keeps_parse_decorator : keeps.
Lemma keeps_parse_modifiers_ex a b c : keeps Frame (parse_modifiers_ex fuel a b c).
Proof. unfold parse_modifiers_ex, modifier_iteration, node_pos. tests_go. Qed.
#[local] Hint Resolve keeps_parse_modifiers_ex : keeps.
Lemma keeps_parse_modifiers : keeps Frame (parse_modifiers fuel).
Proof. apply keeps_parse_modifiers_ex. Qed.
#[local] Hint Resolve keeps_parse_modifiers : keeps.

(** ** Names and patterns *)
Lemma keeps_parse_binding_identifier d : keeps Frame (parse_binding_identifier_with_diagnostic d).
Proof. unfold parse_binding_identifier_with_diagnostic. tests_go. keeps_field. Qed.
Lemma keeps_parse_property_name : keeps Frame parse_property_name.
Proof.
  unfold parse_property_name, parse_property_name_worker, parse_computed_property_name, allow_in, node_pos. tests_go.
  keeps_field.
Qed.
Lemma keeps_nested_assignment : keeps Frame nested_assignment.
Proof. apply framed_nested_assignment. Qed.
#[local] Hint Resolve keeps_parse_binding_identifier keeps_parse_property_name keeps_nested_assignment : keeps.
Lemma keeps_parse_initializer : keeps Frame parse_initializer.
Proof. unfold parse_initializer. tests_go. Qed.
Lemma keeps_parse_type_annotation : keeps Frame parse_type_annotation.
Proof. unfold parse_type_annotation. tests_go. Qed.
Lemma keeps_parse_entity_name b d : keeps Frame (parse_entity_name fuel b d).
Proof. unfold parse_entity_name, entity_name_iteration, parse_identifier_name_with_diagnostic, node_pos. tests_go. Qed.
#[local] Hint Resolve keeps_parse_initializer keeps_parse_type_annotation keeps_parse_entity_name : keeps.

Lemma keeps_identifier_or_pattern depth d : keeps Frame (identifier_or_pattern fuel depth d).
Proof.
  revert d. induction depth as [|depth IH]; intros d; cbn [identifier_or_pattern]; [done|].
  unfold parse_array_binding_pattern, parse_object_binding_pattern, parse_binding_pattern, parse_array_binding_element,
    parse_object_binding_element, node_pos. tests_go; apply keeps_parse_delimited_list; tests_go.
Qed.
Lemma keeps_parse_identifier_or_pattern d : keeps Frame (parse_identifier_or_pattern_with_diagnostic fuel d).
Proof. apply keeps_identifier_or_pattern. Qed.
#[local] Hint Resolve keeps_parse_identifier_or_pattern : keeps.

(** ** Signatures *)
Lemma keeps_parse_type_parameter : keeps Frame (parse_type_parameter fuel).
Proof. unfold parse_type_parameter, parse_identifier, node_pos. tests_go. Qed.
#[local] Hint Resolve keeps_parse_type_parameter : keeps.
Lemma keeps_parse_type_parameters : keeps Frame (parse_type_parameters fuel).
Proof. unfold parse_type_parameters. tests_go. Qed.
Lemma keeps_parse_return_type k b : keeps Frame (parse_return_type k b).
Proof.
  assert (keeps Frame (attempt type_predicate_attempt)) as Ha.
  { apply keeps_speculation. unfold type_predicate_attempt, parse_identifier, node_pos. tests_go. }
  unfold parse_return_type, should_parse_return_type, parse_type_or_type_predicate. tests_go.
Qed.
Lemma keeps_parse_parameter_ex a b : keeps Frame (parse_parameter_ex fuel a b).
Proof.
  unfold parse_parameter_ex, node_pos. keeps_step; [tests_go|]. keeps_step; [keeps_saved|].
  unfold create_identifier, is_parameter_name_start, parse_name_of_parameter. tests_go.
Qed.
#[local] Hint Resolve keeps_parse_type_parameters keeps_parse_return_type keeps_parse_parameter_ex : keeps.
Lemma keeps_parse_parameter_of f a b : keeps Frame (parse_parameter_of fuel f a b).
Proof. unfold parse_parameter_of. tests_go. Qed.
#[local] Hint Resolve keeps_parse_parameter_of : keeps.
Lemma keeps_parse_parameters_worker f b : keeps Frame (parse_parameters_worker fuel f b).
Proof. unfold parse_parameters_worker, in_await_context, in_context. keeps_step; [tests_go|]. keeps_saved. Qed.
#[local] Hint Resolve keeps_parse_parameters_worker : keeps.
Lemma keeps_parse_parameters f : keeps Frame (parse_parameters fuel f).
Proof. unfold parse_parameters, create_missing_list, node_pos. tests_go. Qed.
Lemma keeps_parse_semicolon : keeps Frame parse_semicolon.
Proof. unfold parse_semicolon, try_parse_semicolon. tests_go. Qed.
#[local] Hint Resolve keeps_parse_parameters keeps_parse_semicolon : keeps.
Lemma keeps_parse_type_member_semicolon : keeps Frame parse_type_member_semicolon.
Proof. unfold parse_type_member_semicolon. tests_go. Qed.
#[local] Hint Resolve keeps_parse_type_member_semicolon : keeps.

(** ** Bodies *)
Lemma keeps_parse_function_block_with_diagnostic f d : keeps Frame (parse_function_block_with_diagnostic f d).
Proof.
  unfold parse_function_block_with_diagnostic. apply keeps_restoring; intros save; [flagless_go|].
  do 5 (apply ends_bind; intros ?). apply ends_restore. keeps_step; [keeps_field|tests_go].
Qed.
#[local] Hint Resolve keeps_parse_function_block_with_diagnostic : keeps.
Lemma keeps_parse_function_block f : keeps Frame (parse_function_block f).
Proof. apply keeps_parse_function_block_with_diagnostic. Qed.
Lemma keeps_parse_function_block_or_semicolon f d : keeps Frame (parse_function_block_or_semicolon f d).
Proof. unfold parse_function_block_or_semicolon. tests_go. Qed.
#[local] Hint Resolve keeps_parse_function_block_or_semicolon : keeps.
Lemma keeps_parse_accessor_declaration pos m k f : keeps Frame (parse_accessor_declaration fuel pos m k f).
Proof. unfold parse_accessor_declaration. tests_go. Qed.
Lemma keeps_is_index_signature : keeps Frame is_index_signature.
Proof. unfold is_index_signature, next_is_unambiguously_index_signature. tests_go. Qed.
Lemma keeps_parse_index_signature pos m : keeps Frame (parse_index_signature_declaration fuel pos m).
Proof. unfold parse_index_signature_declaration, parse_parameter. tests_go. Qed.
End names.
#[export] Hint Resolve keeps_parse_contextual_modifier keeps_parse_modifiers_ex keeps_parse_modifiers
  keeps_parse_binding_identifier keeps_parse_property_name keeps_nested_assignment keeps_parse_initializer
  keeps_parse_type_annotation keeps_parse_entity_name keeps_parse_identifier_or_pattern keeps_parse_type_parameters
  keeps_parse_return_type keeps_parse_parameters keeps_parse_parameters_worker keeps_parse_semicolon
  keeps_parse_type_member_semicolon keeps_parse_function_block keeps_parse_function_block_or_semicolon
  keeps_parse_accessor_declaration keeps_is_index_signature keeps_parse_index_signature : keeps.

Section types.
Context `{JsNumber} {starts : ListStarts} {nested : NestedParts} {rest : RestParts} (fuel : nat).
Context `{!FramedStarts starts} `{!FramedNested nested} `{!FramedRest rest}.

(** ** References, literals and predicates *)
Lemma keeps_parse_type_arguments : keeps Frame (parse_type_arguments fuel).
Proof. unfold parse_type_arguments. tests_go. Qed.
#[local] Hint Resolve keeps_parse_type_arguments : keeps.
Lemma keeps_type_arguments_of_reference : keeps Frame (parse_type_arguments_of_type_reference fuel).
Proof. unfold parse_type_arguments_of_type_reference. tests_go. Qed.
#[local] Hint Resolve keeps_type_arguments_of_reference : keeps.
Lemma keeps_parse_type_reference : keeps Frame (parse_type_reference fuel).
Proof. unfold parse_type_reference, parse_entity_name_of_type_reference, node_pos. tests_go. Qed.
Lemma keeps_parse_type_query : keeps Frame (parse_type_query fuel).
Proof. unfold parse_type_query, node_pos. tests_go. Qed.
Lemma keeps_parse_keyword_type : keeps Frame parse_keyword_type_node.
Proof. unfold parse_keyword_type_node, node_pos. tests_go. Qed.
Lemma keeps_parse_this_type : keeps Frame parse_this_type_node.
Proof. unfold parse_this_type_node, node_pos. tests_go. Qed.
#[local] Hint Resolve keeps_parse_type_reference keeps_parse_type_query keeps_parse_keyword_type keeps_parse_this_type : keeps.
Lemma keeps_parse_this_predicate n : keeps Frame (parse_this_type_predicate n).
Proof. unfold parse_this_type_predicate. tests_go. Qed.
Lemma keeps_parse_asserts_predicate : keeps Frame parse_asserts_type_predicate.
Proof. unfold parse_asserts_type_predicate, parse_identifier, node_pos. tests_go. Qed.
Lemma keeps_parse_literal_type b : keeps Frame (parse_literal_type_node b).
Proof. unfold parse_literal_type_node, node_pos. tests_go. Qed.
Lemma keeps_parse_template_type : keeps Frame (parse_template_type fuel).
Proof.
  unfold parse_template_type, parse_template_type_spans, template_type_spans_iteration, parse_template_type_span, node_pos.
  tests_go.
Qed.
#[local] Hint Resolve keeps_parse_this_predicate keeps_parse_asserts_predicate keeps_parse_literal_type
  keeps_parse_template_type : keeps.

(** ** Members, mapped types and tuples *)
Lemma keeps_parse_type_member : keeps Frame (parse_type_member fuel).
Proof.
  unfold parse_type_member, parse_signature_member, parse_property_or_method_signature,
    next_token_is_open_paren_or_less_than, node_pos. tests_go.
Qed.
#[local] Hint Resolve keeps_parse_type_member : keeps.
Lemma keeps_parse_type_literal : keeps Frame (parse_type_literal fuel).
Proof. unfold parse_type_literal, parse_object_type_members, create_missing_list, node_pos. tests_go. Qed.
Lemma keeps_next_is_identifier : keeps Frame next_token_is_identifier.
Proof. unfold next_token_is_identifier. tests_go. Qed.
#[local] Hint Resolve keeps_next_is_identifier : keeps.
Lemma keeps_start_of_mapped_type : keeps Frame next_is_start_of_mapped_type.
Proof. unfold next_is_start_of_mapped_type. tests_go. Qed.
Lemma keeps_parse_mapped_type : keeps Frame (parse_mapped_type fuel).
Proof. unfold parse_mapped_type, mapped_type_modifier, parse_mapped_type_parameter, node_pos. tests_go. Qed.
Lemma keeps_next_is_start_of_type : keeps Frame next_is_start_of_type.
Proof. unfold next_is_start_of_type. tests_go. Qed.
Lemma keeps_rewrap n l : keeps Frame (rewrap n l).
Proof. unfold rewrap. tests_go. Qed.
#[local] Hint Resolve keeps_parse_type_literal keeps_start_of_mapped_type keeps_parse_mapped_type
  keeps_next_is_start_of_type keeps_rewrap : keeps.
Lemma keeps_parse_tuple_element_type : keeps Frame parse_tuple_element_type.
Proof. unfold parse_tuple_element_type, finish_node_with_end, node_pos. tests_go; keeps_field. Qed.
#[local] Hint Resolve keeps_parse_tuple_element_type : keeps.
Lemma keeps_parse_tuple_element : keeps Frame parse_tuple_element_name_or_tuple_element_type.
Proof.
  unfold parse_tuple_element_name_or_tuple_element_type, scan_start_of_named_tuple_element,
    next_token_is_colon_or_question_colon, node_pos. tests_go.
Qed.
#[local] Hint Resolve keeps_parse_tuple_element : keeps.
Lemma keeps_parse_tuple_type : keeps Frame (parse_tuple_type fuel).
Proof. unfold parse_tuple_type, node_pos. tests_go. Qed.
Lemma keeps_parse_parenthesized_type : keeps Frame parse_parenthesized_type.
Proof. unfold parse_parenthesized_type, node_pos. tests_go. Qed.
Lemma keeps_parse_import_type : keeps Frame (parse_import_type fuel).
Proof.
  assert (keeps Frame parse_import_attribute) by (unfold parse_import_attribute, node_pos; tests_go).
  unfold parse_import_type, import_type_attributes, parse_import_attributes, parse_entity_name_of_type_reference,
    parse_empty_node_list, node_pos. tests_go.
Qed.
#[local] Hint Resolve keeps_parse_tuple_type keeps_parse_parenthesized_type keeps_parse_import_type : keeps.

(** ** Function types *)
Lemma keeps_next_is_function_type : keeps Frame (next_is_unambiguously_start_of_function_type fuel).
Proof.
  unfold next_is_unambiguously_start_of_function_type, skip_parameter_start, parse_identifier_or_pattern. tests_go.
Qed.
#[local] Hint Resolve keeps_next_is_function_type : keeps.
Lemma keeps_is_start_of_function_type : keeps Frame (is_start_of_function_type_or_constructor_type fuel).
Proof. unfold is_start_of_function_type_or_constructor_type, next_token_is_new_keyword. tests_go. Qed.
Lemma keeps_parse_function_type : keeps Frame (parse_function_or_constructor_type fuel).
Proof. unfold parse_function_or_constructor_type, parse_modifiers_for_constructor_type, node_pos. tests_go. Qed.
#[local] Hint Resolve keeps_is_start_of_function_type keeps_parse_function_type : keeps.
Lemma keeps_function_type_to_error b m :
  keeps Frame m -> keeps Frame (parse_function_or_constructor_type_to_error fuel b m).
Proof. intros Hm. unfold parse_function_or_constructor_type_to_error. tests_go. Qed.
#[local] Hint Resolve keeps_function_type_to_error : keeps.

(** ** Operators *)

(** The scanner reads [??] again and the parser the token behind it. *)
Lemma keeps_rescan_question m :
  keeps Frame m -> keeps Frame (on_scanner Scanner.rescan_question_token ;; parse_jsdoc_nullable_type m).
Proof.
  intros Hm p r p' (k & p1 & (s & Hr & ->)%on_scanner_inv & H1)%run_bind_inv.
  unfold parse_jsdoc_nullable_type, node_pos in H1. apply run_bind_inv in H1 as (? & p2 & [= <- <-] & H1).
  apply run_bind_inv in H1 as (k2 & p3 & Hnext & H1). pose proof (keeps_next_token _ _ _ Hnext) as [[Ht Hv _ Hd Hj Hl] Hf Hc].
  assert (coherent p3) as Hco.
  { unfold next_token in Hnext. apply run_bind_inv in Hnext as (? & ? & [= <- <-] & Hnext).
    apply run_bind_inv in Hnext as (? & ? & [= <- <-] & Hnext). apply run_bind_inv in Hnext as ([] & p4 & _ & Hnext).
    by eapply next_unchecked_coherent. }
  assert (keeps Frame (type_node ← m; end_ ← node_pos;
    rewrap type_node (TextRange.new (token_full_start s) end_))) as Hk by (unfold node_pos; tests_go).
  apply Hk in H1 as [[Ht1 Hv1 Hc1 ???] Hf1 Hp1]. split; [split|..]; cbn in *; try congruence; try by etrans.
  by intros _; apply Hc1.
Qed.
Lemma keeps_parse_non_array_type m : keeps Frame m -> keeps Frame (parse_non_array_type fuel m).
Proof.
  intros Hm. pose proof (keeps_rescan_question m Hm) as Hq.
  assert (keeps Frame (attempt keyword_type_attempt)) as Ha
    by (apply keeps_speculation; unfold keyword_type_attempt; tests_go).
  assert (keeps Frame (parse_jsdoc_nullable_type m)) as Hj by (unfold parse_jsdoc_nullable_type, node_pos; tests_go).
  assert (keeps Frame (parse_prefix_non_null_type m)) as Hn by (unfold parse_prefix_non_null_type, node_pos; tests_go).
  unfold parse_non_array_type, next_is_start_of_type_of_import_type, next_token_is_numeric_or_big_int_literal,
    next_token_is_identifier_or_keyword_on_same_line. keeps_step; [keeps_go|].
  repeat match goal with |- keeps _ (match ?k with _ => _ end) => destruct k end; try exact Hq; tests_go.
Qed.
#[local] Hint Resolve keeps_parse_non_array_type : keeps.
Lemma keeps_parse_postfix_type m : keeps Frame m -> keeps Frame (parse_postfix_type_or_higher fuel m).
Proof.
  intros Hm. unfold parse_postfix_type_or_higher, postfix_type_iteration, skip_range_trivia, node_pos. tests_go.
Qed.
#[local] Hint Resolve keeps_parse_postfix_type : keeps.
Lemma keeps_parse_infer_type : keeps Frame parse_infer_type.
Proof.
  assert (keeps Frame try_parse_constraint_of_infer_type) as Ha
    by (apply keeps_speculation; unfold constraint_of_infer_type_attempt, in_context; tests_go).
  unfold parse_infer_type, parse_type_parameter_of_infer_type, parse_identifier, node_pos. tests_go.
Qed.
#[local] Hint Resolve keeps_parse_infer_type : keeps.
Lemma keeps_parse_type_operator depth : keeps Frame (parse_type_operator_or_higher fuel depth).
Proof.
  induction depth as [|depth IH]; cbn [parse_type_operator_or_higher]; [done|]. unfold node_pos. tests_go.
Qed.
#[local] Hint Resolve keeps_parse_type_operator : keeps.
Lemma keeps_union_or_intersection k m :
  keeps Frame m -> keeps Frame (parse_union_or_intersection_type fuel k m).
Proof.
  intros Hm. unfold parse_union_or_intersection_type, constituents_iteration, node_pos. tests_go.
Qed.
#[local] Hint Resolve keeps_union_or_intersection : keeps.
Lemma keeps_type_at_level : keeps Frame (type_at_level fuel).
Proof.
  assert (keeps Frame (conditional_type_or_higher fuel)) as Hc.
  { unfold conditional_type_or_higher, conditional_type_rest, parse_union_type_or_higher,
      parse_intersection_type_or_higher, in_context, node_pos. tests_go. }
  unfold type_at_level. keeps_saved.
Qed.
End types.

(** * Functions *)
Section functions.
Context `{JsNumber} {starts : ListStarts} {nested : NestedParts} {rest : RestParts} (fuel : nat).
Context `{!FramedStarts starts} `{!FramedNested nested} `{!FramedRest rest}.

Lemma keeps_object_literal_element : keeps Frame (parse_object_literal_element fuel).
Proof.
  unfold parse_object_literal_element, parse_method_declaration, parse_property_assignment, allow_in, node_pos. tests_go.
Qed.
#[local] Hint Resolve keeps_object_literal_element : keeps.
Lemma keeps_object_literal : keeps Frame (object_literal_expression fuel).
Proof. unfold object_literal_expression, node_pos. tests_go. Qed.
Lemma keeps_function_name a b : keeps Frame (function_name a b).
Proof. unfold function_name, parse_optional_binding_identifier. tests_go. Qed.
#[local] Hint Resolve keeps_function_name : keeps.
Lemma keeps_function_expression : keeps Frame (function_expression fuel).
Proof. unfold function_expression, node_pos. keeps_saved. Qed.
Lemma keeps_decorated_expression : keeps Frame (decorated_expression fuel).
Proof. unfold decorated_expression, node_pos. tests_go. Qed.
Lemma keeps_arrow_body a b : keeps Frame (parse_arrow_function_expression_body a b).
Proof.
  unfold parse_arrow_function_expression_body, is_start_of_expression_statement. keeps_step; [tests_go|].
  keeps_step; [tests_go|]. keeps_step; [tests_go|]. keeps_step; [tests_go|]. keeps_saved.
Qed.
#[local] Hint Resolve keeps_arrow_body : keeps.
Lemma keeps_paren_arrow a b : keeps Frame (parenthesized_arrow_function_expression fuel a b).
Proof.
  unfold parenthesized_arrow_function_expression, parse_modifiers_for_arrow_function, arrow_function_parameters,
    arrow_function_rest, create_missing_list, parse_identifier, node_pos. tests_go.
Qed.
Lemma keeps_simple_arrow pos n b m : keeps Frame (simple_arrow_function_expression pos n b m).
Proof. unfold simple_arrow_function_expression. tests_go. Qed.
End functions.

(** * The knot *)
Section knot.
Context `{JsNumber} `{SpellingSuggestions} {rest : RestParts} {starts : ListStarts}.
Context `{!FramedRest rest} `{!FramedStarts starts}.

Lemma framed_nested_parts primary fuel : FramedPrimary primary -> FramedNested (nested_parts starts primary fuel).
Proof.
  intros Hp. pose proof (framed_expression_parts fuel) as Hparts. split; cbn; intros; keeps_go.
  - apply keeps_unary_expression_or_higher. intros. apply keeps_parse_binary_expression_rest.
  - apply keeps_parse_member_expression_rest. keeps_go.
  - apply keeps_parse_call_expression_rest; intros; keeps_go.
Qed.

#[export] Instance framed_primary_parts fuel : FramedPrimary (primary_parts starts fuel).
Proof.
  assert (keeps Frame class_expression) as Hclass by (unfold class_expression, node_pos; tests_go).
  induction fuel as [|fuel IH]; [split; cbn; intros; try done; keeps_go|].
  pose proof (framed_nested_parts _ fuel IH) as Hn.
  split; intros.
  - exact (keeps_type_at_level (nested := nested_parts _ _ fuel) fuel).
  - apply framed_rest_jsx.
  - apply framed_rest_js.
  - exact (keeps_object_literal (nested := nested_parts _ _ fuel) fuel).
  - exact (keeps_function_expression (nested := nested_parts _ _ fuel) fuel).
  - exact Hclass.
  - exact (keeps_decorated_expression (nested := nested_parts _ _ fuel) fuel).
  - exact (keeps_paren_arrow (nested := nested_parts _ _ fuel) fuel a b).
  - exact (keeps_simple_arrow (nested := nested_parts _ _ fuel) pos n b m).
Qed.
End knot.

(** * Speculation

    What is looked at again after a test or an attempt: the token with its positions, value and flags, the errors, the
    copied nodes and the contexts. Only counters of the file ([source_flags], [identifier_count]) and the memory of
    parentheses that start no arrow function stay changed, and the scanner's text and comment directives are left out. *)
Definition visible (p : Parser) :=
  let s := scanner p in
  (token p, (pos s, full_start_pos s, ScannerState.token_start s, end_ s), token_value_ s, token_flags s,
   (diagnostics p, js_diagnostics p, reparsed_clones p), (context_flags p, parsing_contexts p),
   (statement_has_await_identifier p, has_parse_error p)).

Section speculation.
Lemma visible_rewind p p' :
  coherent p -> Loose p p' -> parsing_contexts p' = parsing_contexts p -> visible (rewind (mark p) p') = visible p.
Proof.
  intros Hc [_ _ _ Hd Hj Hl] Hpc. unfold visible. cbn. by rewrite !take_of_prefix, Hpc, Hc.
Qed.

Lemma look_ahead_visible {A} (m : MP A) p a p' :
  keeps Frame m -> coherent p -> look_ahead m p = Ok (a, p') -> visible p' = visible p /\ coherent p'.
Proof.
  intros Hm Hp Hr. pose proof (keeps_look_ahead_frame m Hm _ _ _ Hr) as [[_ _ Hc _ _ _] _ _].
  split; [|by apply Hc]. clear Hc. revert Hr.
  intros (st & p0 & [= <- <-] & (a1 & p1 & [H1 _ H2]%Hm & ([] & p2 & [= <-] & [= <- <-])%run_bind_inv)%run_bind_inv)%run_bind_inv.
  by apply visible_rewind.
Qed.

Lemma attempt_visible {A} (m : MP (option A)) p p' :
  keeps Frame m -> coherent p -> attempt m p = Ok (None, p') -> visible p' = visible p.
Proof.
  intros Hm Hp (st & p0 & [= <- <-] & (o & p1 & [H1 _ H2]%Hm & Hr)%run_bind_inv)%run_bind_inv.
  destruct o as [a|]; [by injection Hr|]. apply run_bind_inv in Hr as ([] & p2 & [= <-] & [= <-]).
  by apply visible_rewind.
Qed.
End speculation.

Section attempts.
Context `{JsNumber} {starts : ListStarts} {primary : PrimaryParts} {nested : NestedParts} {rest : RestParts} (fuel : nat).
Context `{!FramedStarts starts} `{!FramedPrimary primary} `{!FramedNested nested} `{!FramedRest rest}.

Lemma arrow_test_visible p b p' :
  coherent p -> is_parenthesized_arrow_function_expression p = Ok (b, p') -> visible p' = visible p /\ coherent p'.
Proof.
  intros Hp (start & p1 & (k & p2 & [= <- <-] & [= <- <-])%run_bind_inv & Hr)%run_bind_inv.
  destruct (_ || _); [by eapply (look_ahead_visible _ _ _ _ keeps_next_is_parenthesized)|].
  apply run_bind_inv in Hr as (arrow & p1 & (k & p2 & [= <- <-] & [= <- <-])%run_bind_inv & [= _ <-]). done.
Qed.

Lemma failed_arrow_visible b p p' :
  coherent p -> try_parenthesized_arrow_function b p = Ok (None, p') -> visible p' = visible p.
Proof.
  intros Hp (r & p1 & Ht & Hr)%run_bind_inv. apply arrow_test_visible in Ht as [Hv Hc]; [|done]. rewrite <- Hv.
  destruct r.
  - assert (keeps Frame (parse_possible_parenthesized_arrow_function_expression b)) as Hk.
    { unfold parse_possible_parenthesized_arrow_function_expression. keeps_go. keeps_field. }
    by eapply (attempt_visible _ _ _ Hk).
  - by injection Hr as <-.
  - by apply run_fmap_inv in Hr as (? & _ & ?).
Qed.

Lemma failed_type_arguments_visible p p' :
  coherent p -> try_parse_type_arguments_in_expression fuel p = Ok (None, p') -> visible p' = visible p.
Proof.
  intros Hp Hr. exact (attempt_visible (type_arguments_attempt fuel) p p' (keeps_type_arguments_attempt fuel) Hp Hr).
Qed.

Lemma function_type_test_visible p b p' :
  coherent p -> is_start_of_function_type_or_constructor_type fuel p = Ok (b, p') -> visible p' = visible p.
Proof.
  intros Hp (k & p1 & [= <- <-] & Hr)%run_bind_inv. assert (keeps Frame next_token_is_new_keyword) as Hn by (unfold next_token_is_new_keyword; keeps_go).
  pose proof (fun Hl => proj1 (look_ahead_visible _ p b p' (keeps_next_is_function_type fuel) Hp Hl)) as Hf.
  pose proof (fun Hl => proj1 (look_ahead_visible _ p b p' Hn Hp Hl)) as Ha.
  assert (forall c, (mret c : MP bool) p = Ok (b, p') -> visible p' = visible p) as Hd by by intros c [= _ <-].
  destruct (token p); lazymatch type of Hr with
    | look_ahead next_token_is_new_keyword _ = _ => exact (Ha Hr)
    | look_ahead _ _ = _ => exact (Hf Hr)
    | _ => exact (Hd _ Hr)
    end.
Qed.

Lemma failed_predicate_visible p p' :
  coherent p -> attempt type_predicate_attempt p = Ok (None, p') -> visible p' = visible p.
Proof. intros. eapply attempt_visible; [|eassumption..]. unfold type_predicate_attempt, parse_identifier, node_pos. tests_go. Qed.

Lemma failed_constraint_visible p p' :
  coherent p -> try_parse_constraint_of_infer_type p = Ok (None, p') -> visible p' = visible p.
Proof.
  intros. eapply (attempt_visible constraint_of_infer_type_attempt); [|eassumption..].
  unfold constraint_of_infer_type_attempt, in_context. tests_go.
Qed.
End attempts.
