(* ===== verification/TypeTotal.v ===== *)
(** * TypeTotal: the parser of types and functions always comes to an end

    What starts a statement, a member or a type is decided within the text; every type, parameter or body that nests is
    read behind a token of its own. With the expressions of MemberTotal.v the knot of FunctionParser.v ends
    ([ending_primary_parts]), if blocks, classes, JSX and the check of JavaScript files do. *)
From S2P Require Import Prelude Text Chars SyntaxKind Monad JsNum Keywords Trivia.
From S2P Require Import ScannerState Scanner ScannerInv RegExp RescanTotal CoreTypes Ast Precedence ParserState ExprParser.
From S2P Require Import ListParser MemberParser NameParser TypeParser FunctionParser ParserInv ParserTotal ExprTotal.
From S2P Require Import MemberTotal.

(** * What starts an element *)
Section starts.
Context `{JsNumber} (t : bytes) (Hascii : is_ascii t = true).

Lemma steady_literal_name n : steady t n is_literal_property_name.
Proof. apply steady_is_literal_property_name. Qed.
Lemma steady_semicolon n : steady t n can_parse_semicolon.
Proof. apply steady_can_parse_semicolon. Qed.
Lemma down_numeric n : down t n next_token_is_numeric_or_big_int_literal.
Proof. unfold next_token_is_numeric_or_big_int_literal. down_body. Qed.
Lemma down_next_on_same_line_ n : down t n next_token_is_identifier_or_keyword_on_same_line.
Proof. apply (down_next_on_same_line t Hascii). Qed.
#[local] Hint Resolve steady_literal_name steady_semicolon down_numeric down_next_on_same_line_ : down.

(** The tests on the tokens of a declaration. *)
Ltac tests := intros ? ? ?; unfold or_else, and_then, not_; run_steps.
Lemma down_identifier_on_same_line n : down t n next_token_is_identifier_on_same_line.
Proof. unfold next_token_is_identifier_on_same_line. tests. Qed.
Lemma down_identifier_or_string n : down t n next_token_is_identifier_or_string_literal_on_same_line.
Proof. unfold next_token_is_identifier_or_string_literal_on_same_line. tests. Qed.
Lemma down_equals_or_semicolon n : down t n next_token_is_equals_or_semicolon_or_colon_token.
Proof. unfold next_token_is_equals_or_semicolon_or_colon_token. tests. Qed.
#[local] Hint Resolve down_identifier_on_same_line down_identifier_or_string down_equals_or_semicolon : down.
Lemma down_destructuring n b :
  down t n (next_token_is_binding_identifier_or_start_of_destructuring_on_same_line b).
Proof.
  unfold next_token_is_binding_identifier_or_start_of_destructuring_on_same_line.
  pose proof (steady_is_binding_identifier t). tests.
Qed.
#[local] Hint Resolve down_destructuring : down.
Lemma down_using_then_binding n :
  down t n next_is_using_keyword_then_binding_identifier_or_start_of_object_destructuring_on_same_line.
Proof. unfold next_is_using_keyword_then_binding_identifier_or_start_of_object_destructuring_on_same_line. tests. Qed.
#[local] Hint Resolve down_using_then_binding : down.

Lemma steady_is_using n : steady t n is_using_declaration.
Proof. apply steady_look_ahead; auto with down. Qed.
Lemma steady_is_await_using n : steady t n is_await_using_declaration.
Proof. apply steady_look_ahead; auto with down. Qed.
#[local] Hint Resolve steady_is_using steady_is_await_using : down.

Lemma declaration_iteration_fin u p :
  well_placed t p ->
  fin (scan_start_of_declaration_iteration u) (fun r p' => well_placed t p' /\ (full_start p <= full_start p')%nat
    /\ match r with inl _ => (full_start p < full_start p')%nat | inr _ => True end) p.
Proof.
  intros Hp. unfold scan_start_of_declaration_iteration. apply fin_bind, fin_gets.
  assert (fin (inr (A := unit) <$> mret false) (fun r p' => well_placed t p' /\ (full_start p <= full_start p')%nat
    /\ match r with inl _ => (full_start p < full_start p')%nat | inr _ => True end) p) as Hdefault by done.
  destruct (token p) eqn:Et; try exact Hdefault; clear Hdefault.
  all: unfold or_else, and_then, not_; run_steps.
Qed.

(** A loop that reads a token in every round but the last. *)
Lemma rounds_fin {L A} (body : L -> MP (L + A)) (Q : A -> Parser -> Prop) fuel l p :
  well_placed t p -> (remaining t p < fuel)%nat ->
  (forall l p, well_placed t p ->
     fin (body l) (fun r p' => well_placed t p' /\ (full_start p <= full_start p')%nat
       /\ match r with inl _ => (full_start p < full_start p')%nat | inr _ => True end) p) ->
  (forall a p', well_placed t p' -> (full_start p <= full_start p')%nat -> Q a p') -> fin (iter fuel body l) Q p.
Proof.
  intros Hp Hf Hb HQ.
  apply (fin_iter _ (fun p' => well_placed t p' /\ (full_start p <= full_start p')%nat) (remaining t));
    [|split; [done|lia]|done].
  intros l1 p1 [Hp1 Hf1]. eapply fin_mono; [by apply Hb|]. intros [l2|a] p2 (Hp2 & Hf2 & Hlt).
  - split; [split; [done|lia]|bound].
  - apply HQ; [done|lia].
Qed.

Context (fuel : nat) (Hfuel : (length t < fuel)%nat).

Lemma enough p : (remaining t p < fuel)%nat.
Proof. unfold remaining. lia. Qed.

Lemma steady_is_start_of_declaration n : steady t n (is_start_of_declaration fuel).
Proof.
  apply steady_look_ahead. intros p Hp _. apply rounds_fin; [done|apply enough|apply declaration_iteration_fin|done].
Qed.
#[local] Hint Resolve steady_is_start_of_declaration : down.
Lemma steady_statement_start n : steady t n (statement_start fuel).
Proof.
  pose proof (fun n => steady_look_ahead t n _ (down_open_paren t Hascii n)).
  pose proof (fun n => steady_look_ahead t n _ (down_next_on_same_line_ n)).
  intros p Hp Hn. unfold statement_start. apply fin_bind, fin_gets.
  assert (fin is_start_of_expression (fun _ p' => well_placed t p' /\ full_start p' = full_start p /\ token p' = token p) p)
    as Hdefault by by apply (steady_is_start_of_expression t Hascii n).
  destruct (token p) eqn:Et; try exact Hdefault; clear Hdefault; unfold or_else, not_; run_steps.
Qed.

(** ** Members *)
Lemma modifier_property_name k : is_modifier_kind k = true -> property_name_kind k = true.
Proof. by destruct k. Qed.
Lemma property_member_start k : property_name_kind k = true -> member_start_kind k = true.
Proof. unfold member_start_kind. intros ->. by rewrite !orb_true_r. Qed.
Lemma modifier_live k : is_modifier_kind k = true -> k <> Kind.EndOfFile.
Proof. by intros Hk ->. Qed.
Lemma property_name_live k : property_name_kind k = true -> k <> Kind.EndOfFile.
Proof. by intros Hk ->. Qed.

Lemma modifiers_fin b p :
  well_placed t p ->
  fin (iter fuel modifiers_iteration b) (fun b' p' => well_placed t p' /\ (full_start p <= full_start p')%nat
    /\ (is_modifier_kind (token p) = false -> b' = b /\ token p' = token p)) p.
Proof.
  intros Hp. destruct (is_modifier_kind (token p)) eqn:E.
  - apply rounds_fin; [done|apply enough| |by intros; split_and!].
    intros l p1 Hp1. unfold modifiers_iteration. run_steps.
  - destruct fuel as [|f] eqn:Ef; [lia|]. cbn [iter]. unfold modifiers_iteration. down_run; [congruence|done].
Qed.

Lemma type_member_start_fin p :
  well_placed t p ->
  fin (type_member_start fuel) (fun b p' => well_placed t p' /\ (full_start p <= full_start p')%nat
    /\ (b = true -> member_start_kind (token p) = true)) p.
Proof.
  intros Hp. unfold type_member_start. apply fin_bind. unfold token_in at 1.
  apply fin_bind, fin_gets, fin_ret, fin_if; intros E.
  { apply fin_ret. split_and!; [done|lia|]. intros _. destruct (token p); done. }
  apply fin_bind. eapply fin_mono; [by apply modifiers_fin|]. intros b p1 (Hp1 & Hf1 & Hm).
  assert ((b = false -> token p1 = token p -> member_start_kind (token p) = true) -> member_start_kind (token p) = true)
    as Hstart.
  { intros Hs. destruct (is_modifier_kind (token p)) eqn:Ek; [by apply property_member_start, modifier_property_name|].
    by destruct (Hm eq_refl) as [-> ?]; apply Hs. }
  assert (forall n, steady t n (or_else (token_in [Kind.OpenParenToken; Kind.LessThanToken; Kind.QuestionToken;
    Kind.ColonToken; Kind.CommaToken]) can_parse_semicolon)) as Hend by (intros n; auto with down).
  apply fin_bind. unfold token_is at 1. apply fin_bind, fin_gets, fin_ret, fin_if; intros Eb.
  { apply fin_ret. split_and!; [done|lia|]. intros _. apply Hstart. intros _ <-. unfold member_start_kind.
    by rewrite Eb, !orb_true_r. }
  unfold is_literal_property_name. apply fin_bind, fin_bind, fin_gets, fin_ret.
  change (token_is_identifier_or_keyword (token p1) || Kind_eqb (token p1) Kind.StringLiteral
    || Kind_eqb (token p1) Kind.NumericLiteral || Kind_eqb (token p1) Kind.BigIntLiteral)
    with (property_name_kind (token p1)).
  destruct (property_name_kind (token p1)) eqn:En; cbn [when].
  - pose proof (property_name_live _ En). rewrite orb_true_r. run_steps. intros _. apply Hstart. intros _ <-.
    by apply property_member_start.
  - rewrite orb_false_r. apply fin_bind, fin_ret, fin_if; intros Eb'; run_steps; try (intros _; apply Hstart; congruence); done.
Qed.

(** ** Classes *)
Lemma down_class_member_start n : down t n (class_member_start fuel).
Proof.
  assert (forall k p, well_placed t p -> fin (iter fuel class_modifiers_iteration k)
    (fun _ p' => well_placed t p' /\ (full_start p <= full_start p')%nat) p) as Hm.
  { intros k p Hp. apply rounds_fin; [done|apply enough| |done].
    intros l p1 Hp1. unfold class_modifiers_iteration. run_steps. }
  assert (down t n (iter fuel class_modifiers_iteration Kind.Unknown)) as Hi by by intros p Hp _; apply Hm.
  unfold class_member_start, or_else. down_body.
Qed.

(** ** Types *)
Lemma start_of_type_fin k b p :
  well_placed t p -> (remaining t p < k)%nat ->
  fin (start_of_type k b) (fun _ p' => well_placed t p' /\ full_start p' = full_start p /\ token p' = token p) p.
Proof.
  revert b p. induction k as [|k IH]; intros b p Hp Hk; [lia|]. cbn [start_of_type]. apply fin_bind, fin_gets.
  destruct (type_start_kind (token p)); [by apply fin_ret|].
  assert (fin is_identifier (fun _ p' => well_placed t p' /\ full_start p' = full_start p /\ token p' = token p) p)
    as Hdefault by (apply (steady_is_identifier t (S (remaining t p))); [done|lia]).
  assert (forall b, steady t k (start_of_type k b)) as Hs by (intros b' p' Hp' Hn'; by apply IH).
  destruct (token p) eqn:Et; try exact Hdefault; clear Hdefault.
  - destruct b; [by apply fin_ret|]. eapply (look_ahead_fin t _ (fun _ => True)); [done| |by intros; rewrite Et in *].
    apply fin_bind. eapply next_token_fin; [eassumption..|]. intros p1 Hp1 Hf1 Hlt. specialize (Hlt ltac:(congruence)).
    assert (steady t k (or_else (token_is Kind.CloseParenToken) (or_else (start_of_parameter (start_of_type k))
      (start_of_type k false)))) as Hor.
    { apply steady_or_else; [auto with down|]. apply steady_or_else; [|done]. unfold start_of_parameter.
      apply steady_or_else; [auto with down|]. apply steady_or_else; [apply steady_is_pattern|]. down_body. }
    eapply fin_mono; [apply Hor; [done|bound]|]. by intros ? ? (? & ? & ?).
  - destruct b; [by apply fin_ret|]. rewrite <- Et.
    apply (steady_look_ahead t (S (remaining t p)) _ (down_numeric _)); [done|lia].
  - by apply fin_ret.
Qed.

#[export] Instance ending_list_starts : EndingStarts t (list_starts fuel).
Proof.
  split; cbn; intros.
  - apply steady_statement_start.
  - by apply type_member_start_fin.
  - apply down_class_member_start.
  - intros p Hp _. apply start_of_type_fin; [done|apply enough].
Qed.
End starts.
#[export] Hint Resolve steady_literal_name steady_semicolon down_numeric down_next_on_same_line_ : down.

(** * Names, modifiers and parameters *)

(** What is nested, and the rest of the parser, on less than [n] bytes. *)
Class EndingNested (t : bytes) (n : nat) (nested : NestedParts) : Prop := {
  ending_nested_type : down t n nested_type;
  ending_nested_expression : down t n nested_expression;
  ending_nested_assignment b : down t n (nested_assignment_worker b);
  ending_nested_unary : down t n nested_unary;
  ending_nested_operand : down t n nested_left_hand_side;
  ending_nested_chain pos e : down t n (nested_chain pos e);
}.
#[export] Hint Resolve ending_nested_type ending_nested_expression ending_nested_assignment ending_nested_unary
  ending_nested_operand ending_nested_chain : down.

Class EndingRest (t : bytes) (n : nat) (rest : RestParts) : Prop := {
  ending_block b m : down t n (parse_block b m);
  ending_rest_js e : down t n (rest_js_syntax e);
  ending_rest_jsx b z o u : down t n (rest_jsx_element b z o u);
  ending_rest_class pos m k : down t n (parse_class_declaration_or_expression pos m k);
}.
#[export] Hint Resolve ending_block ending_rest_js ending_rest_jsx ending_rest_class : down.

Lemma ending_rest_mono t n n' rest : EndingRest t n rest -> (n' <= n)%nat -> EndingRest t n' rest.
Proof. intros [] Hle. split; intros; by eapply down_mono. Qed.

Section names.
Context `{JsNumber} {starts : ListStarts} {nested : NestedParts} {rest : RestParts}.
Context (t : bytes) (Hascii : is_ascii t = true) (Hnul : forall i, t !! i <> Some 0) `{!EndingStarts t starts}.

Lemma down_identifier_ m d q : down t m (parse_identifier_with_diagnostic d q).
Proof. apply (down_parse_identifier t Hascii). Qed.
Lemma down_identifier_name_ m : down t m parse_identifier_name.
Proof. apply (down_parse_identifier_name t Hascii). Qed.
Lemma down_identifier_name_diagnostic m d : down t m (parse_identifier_name_with_diagnostic d).
Proof. pose proof (down_create_identifier t Hascii). unfold parse_identifier_name_with_diagnostic. down_body. Qed.
Lemma down_create_identifier_ m b d q : down t m (create_identifier_with_diagnostic b d q).
Proof. apply (down_create_identifier t Hascii). Qed.
Lemma down_private_identifier_ m : down t m parse_private_identifier.
Proof. apply (down_parse_private_identifier t Hascii). Qed.
Lemma down_literal_ m : down t m parse_literal_expression.
Proof. apply (down_parse_literal t Hascii). Qed.
Lemma down_function_keyword_ m : down t m next_token_is_function_keyword_on_same_line.
Proof. apply (down_function_keyword t Hascii). Qed.
Lemma down_right_side_ m a b c : down t m (parse_right_side_of_dot a b c).
Proof. apply (down_right_side_of_dot t Hascii). Qed.
#[local] Hint Resolve down_identifier_ down_identifier_name_ down_identifier_name_diagnostic down_create_identifier_
  down_private_identifier_ down_literal_ down_function_keyword_ down_right_side_ : down.
Lemma steady_is_binding m : steady t m is_binding_identifier.
Proof. apply steady_is_binding_identifier. Qed.
#[local] Hint Resolve steady_is_binding : down.

(** ** Modifiers *)
Ltac tests := intros ? ? ?; unfold or_else, and_then, not_; run_steps.

Lemma steady_can_follow_modifier m : steady t m can_follow_modifier.
Proof. unfold can_follow_modifier. auto with down. Qed.
#[local] Hint Resolve steady_can_follow_modifier : down.
Lemma steady_can_follow_export m : steady t m can_follow_export_modifier.
Proof. unfold can_follow_export_modifier. auto 6 with down. Qed.
Lemma steady_can_follow_get m : steady t m can_follow_get_or_set_keyword.
Proof. unfold can_follow_get_or_set_keyword. auto with down. Qed.
#[local] Hint Resolve steady_can_follow_export steady_can_follow_get : down.
Lemma down_next_export m : down t m next_token_can_follow_export_modifier.
Proof. unfold next_token_can_follow_export_modifier. down_body. Qed.
Lemma down_next_same_line_modifier m : down t m next_token_is_on_same_line_and_can_follow_modifier.
Proof. unfold next_token_is_on_same_line_and_can_follow_modifier. tests. Qed.
Lemma down_class_on_same_line m : down t m next_token_is_class_keyword_on_same_line.
Proof. unfold next_token_is_class_keyword_on_same_line. tests. Qed.
Lemma down_next_open_brace m : down t m next_token_is_open_brace.
Proof. unfold next_token_is_open_brace. auto with down. Qed.
#[local] Hint Resolve down_next_export down_next_same_line_modifier down_class_on_same_line down_next_open_brace : down.
Lemma down_next_default m : down t m next_token_can_follow_default_keyword.
Proof. unfold next_token_can_follow_default_keyword. down_body. Qed.
#[local] Hint Resolve down_next_default : down.

(** What follows a modifier is behind it. *)
Lemma can_follow_fin p :
  well_placed t p -> token p <> Kind.EndOfFile ->
  fin next_token_can_follow_modifier (fun _ p' => well_placed t p' /\ (full_start p < full_start p')%nat) p.
Proof.
  intros Hp Hl. unfold next_token_can_follow_modifier, next_token_can_follow_default_keyword,
    next_token_is_on_same_line_and_can_follow_modifier, next_token_is, not_, and_then. run_steps.
Qed.

(** A modifier is read, or nothing is. *)
Lemma contextual_fin kinds (Q : bool -> Parser -> Prop) p :
  well_placed t p -> (forall k, kinds k = true -> k <> Kind.EndOfFile) ->
  (forall p', well_placed t p' -> (full_start p < full_start p')%nat -> Q true p') ->
  (forall p', well_placed t p' -> full_start p' = full_start p -> token p' = token p -> Q false p') ->
  fin (contextual_modifier kinds) Q p.
Proof.
  intros Hp Hk H1 H2. unfold contextual_modifier. apply fin_bind.
  eapply (attempt_fin t); [done| |intros [] p' Hp' Hf; apply fin_ret, H1; done|intros p' ???; by apply fin_ret, H2].
  apply fin_bind, fin_gets, fin_bind, fin_if; intros E.
  - eapply fin_mono; [apply can_follow_fin; [done|by apply Hk]|]. intros b p1 [Hp1 Hf1]. apply fin_ret.
    split; [done|]. by intros _.
  - apply fin_ret, fin_ret. split; [done|]. by intros [? ?].
Qed.

Lemma parse_contextual_fin k (Q : bool -> Parser -> Prop) p :
  well_placed t p -> k <> Kind.EndOfFile ->
  (forall p', well_placed t p' -> (full_start p < full_start p')%nat -> Q true p') ->
  (forall p', well_placed t p' -> full_start p' = full_start p -> token p' = token p -> Q false p') ->
  fin (parse_contextual_modifier k) Q p.
Proof. intros Hp Hk. apply contextual_fin; [done|]. by intros k' <-%Kind_eqb_eq. Qed.

Lemma try_modifier_fin a b c (Q : option Node -> Parser -> Prop) p :
  well_placed t p ->
  (forall e p', well_placed t p' -> (full_start p < full_start p')%nat -> Q (Some e) p') ->
  (forall p', well_placed t p' -> full_start p' = full_start p -> token p' = token p -> Q None p') ->
  fin (try_parse_modifier a b c) Q p.
Proof.
  intros Hp H1 H2. unfold try_parse_modifier, parse_any_contextual_modifier.
  repeat lazymatch goal with
  | |- fin (contextual_modifier _) _ _ => eapply contextual_fin; [eassumption|exact modifier_live|intros..]
  | |- _ => token_step
  end; cbv beta zeta; try (apply H1; (done || bound)); try (apply H2; (done || congruence)).
  all: match goal with E : _ && _ = true |- _ => apply andb_true_iff in E as [E%Kind_eqb_eq _] end.
  all: try (apply H1; [done|]); try congruence.
  match goal with Hl : _ <> Kind.EndOfFile -> _ |- _ => specialize (Hl ltac:(congruence)) end. lia.
Qed.

Context (n fuel : nat) (Hfuel : (n <= fuel)%nat) `{!EndingNested t (n - 1) nested} `{!EndingRest t n rest}.

Lemma d_type : down t (n - 1) nested_type.
Proof. apply ending_nested_type. Qed.
Lemma d_expression : down t (n - 1) nested_expression.
Proof. apply ending_nested_expression. Qed.
Lemma d_assignment : down t (n - 1) nested_assignment.
Proof. apply ending_nested_assignment. Qed.
Lemma d_unary : down t (n - 1) nested_unary.
Proof. apply ending_nested_unary. Qed.
Lemma d_operand : down t (n - 1) nested_left_hand_side.
Proof. apply ending_nested_operand. Qed.
Lemma d_chain pos e : down t (n - 1) (nested_chain pos e).
Proof. apply ending_nested_chain. Qed.
Lemma d_js e : down t n (rest_js_syntax e).
Proof. apply ending_rest_js. Qed.
Lemma d_block b m : down t n (parse_block b m).
Proof. apply ending_block. Qed.
#[local] Hint Resolve d_type d_expression d_assignment d_unary d_operand d_chain d_js d_block : down.

Lemma down_decorator_expression : down t (n - 1) parse_decorator_expression.
Proof. unfold parse_decorator_expression, in_await_context. down_body. Qed.
#[local] Hint Resolve down_decorator_expression : down.

Lemma decorator_fin (Q : Node -> Parser -> Prop) p :
  well_placed t p -> (remaining t p < n)%nat -> token p = Kind.AtToken ->
  (forall e p', well_placed t p' -> (full_start p < full_start p')%nat -> Q e p') -> fin parse_decorator Q p.
Proof. intros Hp Hn Ht HQ. unfold parse_decorator. run_steps. apply HQ; [done|bound]. Qed.

Lemma modifier_iteration_fin a b c l p :
  well_placed t p -> (remaining t p < n)%nat ->
  fin (modifier_iteration a b c l) (fun r p' => well_placed t p' /\ (full_start p <= full_start p')%nat
    /\ match r with
       | inl _ => (full_start p < full_start p')%nat
       | inr _ => full_start p' = full_start p /\ token p' = token p
       end) p.
Proof.
  intros Hp Hn. unfold modifier_iteration. apply fin_bind, fin_bind, fin_gets, fin_ret, fin_if; intros E.
  - apply andb_true_iff in E as [[_ E%Kind_eqb_eq]%andb_true_iff _].
    apply fin_bind, decorator_fin; [done..|]. intros. apply fin_ret. split_and!; [done|lia|done].
  - apply fin_bind, try_modifier_fin; [done|..]; intros; apply fin_ret; split_and!; (done || lia).
Qed.

(** Modifiers are read, or nothing is. *)
Lemma modifiers_ex_fin a b c (Q : option NodeList -> Parser -> Prop) p :
  well_placed t p -> (remaining t p < n)%nat ->
  (forall m p', well_placed t p' -> (full_start p <= full_start p')%nat ->
     ((full_start p < full_start p')%nat \/ full_start p' = full_start p /\ token p' = token p) -> Q m p') ->
  fin (parse_modifiers_ex fuel a b c) Q p.
Proof.
  intros Hp Hn HQ. unfold parse_modifiers_ex, node_pos. do 2 down_step. apply fin_bind.
  eapply (fin_mono _ (fun _ p' => well_placed t p' /\ (full_start p <= full_start p')%nat /\
    ((full_start p < full_start p')%nat \/ full_start p' = full_start p /\ token p' = token p))).
  - apply (fin_iter _ (fun p' => well_placed t p' /\ (full_start p <= full_start p')%nat /\
      ((full_start p < full_start p')%nat \/ full_start p' = full_start p /\ token p' = token p)) (remaining t));
      [|split_and!; [done|lia|by right]|lia].
    intros l p1 (Hp1 & Hf1 & Ho1). eapply fin_mono; [apply modifier_iteration_fin; [done|bound]|].
    intros [l2|r] p2 (Hp2 & Hf2 & Hlt).
    + split; [split_and!; [done|lia|left; lia]|bound].
    + destruct Hlt as [Hf2' Ht2]. split_and!; [done|lia|]. destruct Ho1 as [?|[? ?]]; [left; lia|right; split; congruence].
  - intros l p1 (Hp1 & Hf1 & Ho1). destruct l; [apply fin_ret|apply fin_bind, fin_gets, fin_ret]; by apply HQ.
Qed.
Lemma down_modifiers_ex a b c : down t n (parse_modifiers_ex fuel a b c).
Proof. intros p Hp Hn. apply modifiers_ex_fin; [done..|]. by intros. Qed.
#[local] Hint Resolve down_modifiers_ex : down.
Lemma down_modifiers : down t n (parse_modifiers fuel).
Proof. apply down_modifiers_ex. Qed.
#[local] Hint Resolve down_modifiers : down.

(** ** Names *)
Lemma down_binding_identifier m d : down t m (parse_binding_identifier_with_diagnostic d).
Proof. unfold parse_binding_identifier_with_diagnostic. down_body. Qed.
#[local] Hint Resolve down_binding_identifier : down.
Lemma down_allow_in m x : down t m x -> down t m (allow_in x).
Proof. apply down_do_in_context. Qed.
#[local] Hint Resolve down_allow_in : down.

Lemma identifier_name_fin (Q : Node -> Parser -> Prop) p :
  well_placed t p -> (forall e p', well_placed t p' -> (full_start p <= full_start p')%nat ->
    (token_is_identifier_or_keyword (token p) = true -> (full_start p < full_start p')%nat) -> Q e p') ->
  fin parse_identifier_name Q p.
Proof.
  intros Hp HQ. unfold parse_identifier_name, parse_identifier_name_with_diagnostic, create_identifier_with_diagnostic,
    accept_identifier. down_step. down_step.
  assert (token_is_identifier_or_keyword (token p) = true -> token p <> Kind.EndOfFile) as Hl
    by (intros E Et; by rewrite Et in E).
  apply fin_if; intros E; [specialize (Hl E); run_steps; apply HQ; (done || bound)|].
  apply fin_bind, fin_gets. unfold error_at_token_or_end. run_steps; apply HQ; (done || bound || congruence).
Qed.

Lemma property_name_fin (Q : Node -> Parser -> Prop) p :
  well_placed t p -> (remaining t p < n)%nat ->
  (forall e p', well_placed t p' -> (full_start p <= full_start p')%nat ->
    (property_name_kind (token p) = true \/ token p = Kind.OpenBracketToken -> (full_start p < full_start p')%nat) -> Q e p') ->
  fin parse_property_name Q p.
Proof.
  intros Hp Hn HQ. unfold parse_property_name. apply fin_bind, fin_gets, fin_bind.
  eapply (fin_mono _ (fun _ p' => well_placed t p' /\ (full_start p <= full_start p')%nat
    /\ (property_name_kind (token p) = true \/ token p = Kind.OpenBracketToken -> (full_start p < full_start p')%nat))).
  2:{ intros e p1 (Hp1 & Hf1 & Hs). run_steps. apply HQ; [done|bound|]. intros E. specialize (Hs E). lia. }
  unfold parse_property_name_worker, parse_computed_property_name, token_in, token_is.
  apply fin_bind, fin_bind, fin_gets, fin_ret, fin_if; intros E.
  { apply (parse_literal_fin t Hascii); [done|]. intros. split_and!; [done|lia|done]. }
  apply fin_bind, fin_bind, fin_gets, fin_ret, fin_if; intros Eb.
  { apply Kind_eqb_eq in Eb. run_steps. }
  apply Kind_eqb_neq in Eb. apply fin_bind, fin_bind, fin_gets, fin_ret, fin_if; intros Ep.
  { apply Kind_eqb_eq in Ep. unfold parse_private_identifier. run_steps. }
  apply identifier_name_fin; [done|]. intros e p1 Hp1 Hf1 Hs. split_and!; [done..|]. intros [Hk|?]; [|done]. apply Hs.
  cbn in E. unfold property_name_kind in Hk. by destruct (token_is_identifier_or_keyword (token p)), (token p).
Qed.
Lemma down_property_name : down t n parse_property_name.
Proof. intros p Hp Hn. by apply property_name_fin. Qed.
#[local] Hint Resolve down_property_name : down.

Lemma down_initializer : down t n parse_initializer.
Proof. unfold parse_initializer. down_body. Qed.
Lemma down_type_annotation : down t n parse_type_annotation.
Proof. unfold parse_type_annotation. down_body. Qed.
#[local] Hint Resolve down_initializer down_type_annotation : down.

Lemma down_entity_name b d : down t n (parse_entity_name fuel b d).
Proof.
  assert (forall pos e, down t n (iter fuel (entity_name_iteration b pos) e)) as Hi.
  { intros pos e p Hp Hn.
    apply (fin_iter _ (fun p' => well_placed t p' /\ (full_start p <= full_start p')%nat) (remaining t));
      [|split; [done|lia]|lia].
    intros l p1 [Hp1 Hf1]. unfold entity_name_iteration. run_steps. }
  unfold parse_entity_name. down_body.
Qed.
#[local] Hint Resolve down_entity_name : down.

(** ** Patterns: every pattern is behind its bracket. *)
Lemma down_lower {A} m (x : MP A) : down t n x -> (m <= n)%nat -> down t m x.
Proof. intros Hx Hm. by apply (down_mono t n). Qed.

Lemma down_pattern m depth d : (m <= n)%nat -> (m <= depth)%nat -> down t m (identifier_or_pattern fuel depth d).
Proof.
  revert m d. induction depth as [|depth IH]; intros m d Hm Hd p Hp Hn; [lia|]. cbn [identifier_or_pattern].
  assert (down t (m - 1) (identifier_or_pattern fuel depth None)) as Hnested by (apply IH; lia).
  pose proof (down_lower (m - 1) _ down_initializer ltac:(lia)) as Hinit.
  pose proof (down_lower (m - 1) _ down_property_name ltac:(lia)) as Hname.
  assert (down t (m - 1) (parse_array_binding_element (identifier_or_pattern fuel depth None))) as He.
  { unfold parse_array_binding_element. down_body. }
  assert (down t (m - 1) (parse_object_binding_element (identifier_or_pattern fuel depth None))) as Ho.
  { unfold parse_object_binding_element. down_body. }
  pose proof (down_do_in_context t _ NodeFlags.DISALLOW_IN_CONTEXT false _
    (down_delimited_list t Hascii (m - 1) fuel PCArrayBindingElements _ ltac:(lia) He)) as Hl1.
  pose proof (down_do_in_context t _ NodeFlags.DISALLOW_IN_CONTEXT false _
    (down_delimited_list t Hascii (m - 1) fuel PCObjectBindingElements _ ltac:(lia) Ho)) as Hl2.
  unfold parse_array_binding_pattern, parse_object_binding_pattern, parse_binding_pattern. run_steps.
Qed.
Lemma down_identifier_or_pattern d : down t n (parse_identifier_or_pattern_with_diagnostic fuel d).
Proof. by apply down_pattern. Qed.
#[local] Hint Resolve down_identifier_or_pattern : down.

(** ** Signatures *)
Lemma bracketed_list_fin c e o k (Q : NodeList -> Parser -> Prop) p :
  o <> Kind.EndOfFile -> k <> Kind.EndOfFile -> down t n e -> well_placed t p -> (remaining t p < n)%nat ->
  (forall l p', well_placed t p' -> (full_start p <= full_start p')%nat ->
     (token p = o -> (full_start p < full_start p')%nat) -> Q l p') ->
  fin (parse_bracketed_list fuel c e o k) Q p.
Proof.
  intros Ho Hk He Hp Hn HQ. unfold parse_bracketed_list.
  pose proof (down_delimited_list t Hascii (n - 1) fuel c e ltac:(lia) (down_lower (n - 1) _ He ltac:(lia))) as Hl.
  run_steps; apply HQ; (done || bound || (intros; congruence || bound)).
Qed.

Lemma down_type_parameter : down t n (parse_type_parameter fuel).
Proof. unfold parse_type_parameter, parse_identifier, or_else, not_. down_body. Qed.
#[local] Hint Resolve down_type_parameter : down.

Lemma type_parameters_fin (Q : option NodeList -> Parser -> Prop) p :
  well_placed t p -> (remaining t p < n)%nat ->
  (forall l p', well_placed t p' -> (full_start p <= full_start p')%nat ->
     (token p = Kind.LessThanToken -> (full_start p < full_start p')%nat) ->
     (token p <> Kind.LessThanToken -> full_start p' = full_start p /\ token p' = token p) -> Q l p') ->
  fin (parse_type_parameters fuel) Q p.
Proof.
  intros Hp Hn HQ. unfold parse_type_parameters, token_is. apply fin_bind, fin_bind, fin_gets, fin_ret, fin_if; intros E.
  - apply Kind_eqb_eq in E. apply fin_fmap, bracketed_list_fin; try done; [auto with down|].
    intros l p1 Hp1 Hf1 Hlt. by apply HQ.
  - apply Kind_eqb_neq in E. by apply fin_ret, HQ.
Qed.
Lemma down_type_parameters : down t n (parse_type_parameters fuel).
Proof. intros p Hp Hn. by apply type_parameters_fin. Qed.
#[local] Hint Resolve down_type_parameters : down.

Lemma predicate_attempt_fin (Q : option Node -> Parser -> Prop) p :
  well_placed t p -> (remaining t p < n)%nat ->
  (forall r p', well_placed t p' -> (full_start p <= full_start p')%nat -> Q r p') ->
  fin (attempt type_predicate_attempt) Q p.
Proof.
  intros Hp Hn HQ. eapply (attempt_fin t); [done| |intros ? p' ??; apply HQ; [done|lia]|intros p' ???; apply HQ; [done|lia]].
  unfold type_predicate_attempt, parse_identifier. run_steps. by intros [? ?].
Qed.
Lemma down_predicate_attempt : down t n (attempt type_predicate_attempt).
Proof. intros p Hp Hn. by apply predicate_attempt_fin. Qed.
#[local] Hint Resolve down_predicate_attempt : down.

(** The types of a signature are behind its colon or arrow. *)
Lemma down_type_or_predicate : down t (n - 1) parse_type_or_type_predicate.
Proof.
  pose proof (down_lower (n - 1) _ down_predicate_attempt ltac:(lia)) as Ha. unfold parse_type_or_type_predicate. down_body.
Qed.
#[local] Hint Resolve down_type_or_predicate : down.
Lemma down_return_colon b : down t n (parse_return_type Kind.ColonToken b).
Proof. destruct b; unfold parse_return_type, should_parse_return_type; cbn [andb]; down_body. Qed.
Lemma down_return_arrow b : down t (n - 1) (parse_return_type Kind.EqualsGreaterThanToken b).
Proof. destruct b; unfold parse_return_type, should_parse_return_type; cbn [andb]; down_body. Qed.
#[local] Hint Resolve down_return_colon down_return_arrow : down.

(** ** Parameters *)
Lemma down_parameter_ex a b : down t n (parse_parameter_ex fuel a b).
Proof.
  unfold parse_parameter_ex, parse_name_of_parameter, is_parameter_name_start, create_identifier, not_, or_else. down_body.
Qed.
#[local] Hint Resolve down_parameter_ex : down.
Lemma down_parameter_of f a b : down t n (parse_parameter_of fuel f a b).
Proof. unfold parse_parameter_of. down_body. Qed.
Lemma down_parameters_worker f b : down t n (parse_parameters_worker fuel f b).
Proof.
  pose proof (fun a => down_delimited_list_opt t Hascii n fuel PCParameters _ Hfuel (down_parameter_of f a b)) as Hl.
  unfold parse_parameters_worker, in_await_context. down_body.
Qed.
#[local] Hint Resolve down_parameters_worker : down.
Lemma parameters_fin f (Q : NodeList -> Parser -> Prop) p :
  well_placed t p -> (remaining t p < n)%nat ->
  (forall l p', well_placed t p' -> (full_start p <= full_start p')%nat ->
     (token p = Kind.OpenParenToken -> (full_start p < full_start p')%nat) -> Q l p') ->
  fin (parse_parameters fuel f) Q p.
Proof. intros Hp Hn HQ. unfold parse_parameters. run_steps; apply HQ; (done || bound || (intros; congruence || bound)). Qed.
Lemma down_parameters f : down t n (parse_parameters fuel f).
Proof. intros p Hp Hn. by apply parameters_fin. Qed.
#[local] Hint Resolve down_parameters : down.

(** ** Bodies *)
Lemma down_parse_semicolon m : down t m parse_semicolon.
Proof. unfold parse_semicolon, try_parse_semicolon, or_else. down_body. Qed.
#[local] Hint Resolve down_parse_semicolon : down.
Lemma down_member_semicolon m : down t m parse_type_member_semicolon.
Proof. unfold parse_type_member_semicolon, or_else. down_body. Qed.
#[local] Hint Resolve down_member_semicolon : down.
Lemma down_function_block f d : down t n (parse_function_block_with_diagnostic f d).
Proof. unfold parse_function_block_with_diagnostic. down_body. Qed.
#[local] Hint Resolve down_function_block : down.
Lemma down_function_block_ f : down t n (parse_function_block f).
Proof. apply down_function_block. Qed.
Lemma down_block_or_semicolon f d : down t n (parse_function_block_or_semicolon f d).
Proof. unfold parse_function_block_or_semicolon. down_body. Qed.
#[local] Hint Resolve down_block_or_semicolon : down.
Lemma down_accessor pos m k f : down t n (parse_accessor_declaration fuel pos m k f).
Proof. unfold parse_accessor_declaration. down_body. Qed.
Lemma down_index_test m : down t m next_is_unambiguously_index_signature.
Proof. unfold next_is_unambiguously_index_signature. down_body. Qed.
#[local] Hint Resolve down_index_test : down.
Lemma is_index_signature_fin (Q : bool -> Parser -> Prop) p :
  well_placed t p ->
  (forall b p', well_placed t p' -> full_start p' = full_start p -> token p' = token p ->
     (b = true -> token p = Kind.OpenBracketToken) -> Q b p') -> fin is_index_signature Q p.
Proof. intros Hp HQ. unfold is_index_signature, and_then. run_steps; by apply HQ. Qed.
Lemma index_signature_fin pos m (Q : Node -> Parser -> Prop) p :
  well_placed t p -> (remaining t p < n)%nat -> token p = Kind.OpenBracketToken ->
  (forall e p', well_placed t p' -> (full_start p < full_start p')%nat -> Q e p') ->
  fin (parse_index_signature_declaration fuel pos m) Q p.
Proof.
  intros Hp Hn Ht HQ. assert (down t n (parse_parameter fuel)) as He by apply down_parameter_ex.
  pose proof (down_delimited_list t Hascii n fuel PCParameters _ Hfuel He) as Hl.
  unfold parse_index_signature_declaration. run_steps; apply HQ; (done || bound).
Qed.
(** * Types *)

(** ** References, literals and predicates *)
Lemma down_type_arguments : down t n (parse_type_arguments fuel).
Proof.
  pose proof (down_bracketed_list t Hascii n fuel PCTypeArguments nested_type Kind.LessThanToken Kind.GreaterThanToken
    Hfuel ltac:(done) ltac:(done) d_type) as Hl.
  unfold parse_type_arguments. down_body.
Qed.
#[local] Hint Resolve down_type_arguments : down.
Lemma down_arguments_of_reference : down t n (parse_type_arguments_of_type_reference fuel).
Proof. unfold parse_type_arguments_of_type_reference. down_body. Qed.
#[local] Hint Resolve down_arguments_of_reference : down.
Lemma down_type_reference : down t n (parse_type_reference fuel).
Proof. unfold parse_type_reference, parse_entity_name_of_type_reference. down_body. Qed.
Lemma down_type_query : down t n (parse_type_query fuel).
Proof. unfold parse_type_query. down_body. Qed.
Lemma down_keyword_type m : down t m parse_keyword_type_node.
Proof. unfold parse_keyword_type_node. down_body. Qed.
Lemma down_this_type m : down t m parse_this_type_node.
Proof. unfold parse_this_type_node. down_body. Qed.
#[local] Hint Resolve down_type_reference down_type_query down_keyword_type down_this_type : down.
Lemma this_predicate_fin e (Q : Node -> Parser -> Prop) p :
  well_placed t p -> (remaining t p < n)%nat -> token p = Kind.IsKeyword ->
  (forall e p', well_placed t p' -> (full_start p < full_start p')%nat -> Q e p') ->
  fin (parse_this_type_predicate e) Q p.
Proof. intros Hp Hn Ht HQ. unfold parse_this_type_predicate. run_steps. apply HQ; [done|bound]. Qed.
Lemma down_asserts_predicate : down t n parse_asserts_type_predicate.
Proof. unfold parse_asserts_type_predicate, parse_identifier. down_body. Qed.
Lemma down_literal_type b : down t n (parse_literal_type_node b).
Proof. unfold parse_literal_type_node. down_body. Qed.
#[local] Hint Resolve down_asserts_predicate down_literal_type : down.

(** ** Templates *)
Lemma template_type_spans_fin l (Q : list Node -> Parser -> Prop) p :
  well_placed t p -> (remaining t p < n - 1)%nat ->
  (forall r p', well_placed t p' -> (full_start p <= full_start p')%nat -> Q r p') ->
  fin (iter fuel template_type_spans_iteration l) Q p.
Proof.
  intros Hp Hn HQ.
  apply (fin_iter _ (fun p' => well_placed t p' /\ (full_start p <= full_start p')%nat) (remaining t));
    [|split; [done|lia]|lia].
  intros l' p1 [Hp1 Hf1]. unfold template_type_spans_iteration, parse_template_type_span, node_pos.
  do 2 apply fin_bind. apply fin_gets, fin_bind.
  eapply (use_down t (n - 1)); [apply d_type|done|bound|]. intros e p2 Hp2 Hf2.
  apply fin_bind, (literal_of_span_fin t Hascii Hnul n fuel Hfuel); [done|]. intros lit p3 Hp3 Hf3 Hmid. run_steps.
  unfold type_span_is_middle. match goal with E : data _ = _ |- _ => rewrite E end.
  destruct (Kind_eqb (kind lit) Kind.TemplateMiddle) eqn:Ek; [|apply HQ; (done || bound)].
  apply Kind_eqb_eq in Ek. specialize (Hmid Ek). split; [split; [done|bound]|bound].
Qed.
Lemma template_type_fin p :
  well_placed t p -> (remaining t p < n)%nat -> token p <> Kind.EndOfFile ->
  fin (parse_template_type fuel) (fun _ p' => well_placed t p' /\ (full_start p <= full_start p')%nat) p.
Proof.
  intros Hp Hn Hl. unfold parse_template_type, parse_template_type_spans. do 3 token_step.
  apply fin_bind, (template_head_fin t Hascii Hnul n fuel Hfuel); [done..|]. intros e p1 Hp1 Hf1. do 4 token_step.
  apply template_type_spans_fin; [done|bound|]. intros l p2 Hp2 Hf2. run_steps.
Qed.

(** ** Members *)
Lemma down_signature_member k : down t n (parse_signature_member fuel k).
Proof. unfold parse_signature_member. down_body. Qed.
#[local] Hint Resolve down_signature_member : down.

(** A signature is behind its parenthesis or angle bracket. *)
Lemma signature_fin {A} f (rest_ : option NodeList -> NodeList -> MP A) (Q : A -> Parser -> Prop) p :
  well_placed t p -> (remaining t p < n)%nat -> token p = Kind.OpenParenToken \/ token p = Kind.LessThanToken ->
  (forall l l' p', well_placed t p' -> (full_start p < full_start p')%nat -> fin (rest_ l l') Q p') ->
  fin (type_parameters ← parse_type_parameters fuel; parameters ← parse_parameters fuel f; rest_ type_parameters parameters)
    Q p.
Proof.
  intros Hp Hn Ht HQ. apply fin_bind, type_parameters_fin; [done..|]. intros l p1 Hp1 Hf1 Hlt Hsame.
  apply fin_bind, parameters_fin; [done|bound|]. intros l' p2 Hp2 Hf2 Hopen. apply HQ; [done|].
  destruct Ht as [Ht|Ht]; [|specialize (Hlt Ht); lia].
  destruct (Hsame ltac:(congruence)) as [Hsf Hst]. specialize (Hopen ltac:(congruence)). lia.
Qed.

Lemma property_signature_fin pos m (Q : Node -> Parser -> Prop) p :
  well_placed t p -> (remaining t p < n)%nat ->
  (forall e p', well_placed t p' -> (full_start p <= full_start p')%nat ->
    (property_name_kind (token p) = true \/ token p = Kind.OpenBracketToken -> (full_start p < full_start p')%nat) -> Q e p') ->
  fin (parse_property_or_method_signature fuel pos m) Q p.
Proof.
  intros Hp Hn HQ. unfold parse_property_or_method_signature.
  apply fin_bind, property_name_fin; [done..|]. intros e p1 Hp1 Hf1 Hs1.
  run_steps; apply HQ; try done; try bound; intros Hk; specialize (Hs1 Hk); bound.
Qed.
(** A member with a name, behind its modifiers. *)
Lemma named_member_fin pos m p :
  well_placed t p -> (remaining t p < n)%nat ->
  fin (get_ ← parse_contextual_modifier Kind.GetKeyword;
       if get_ : bool then parse_accessor_declaration fuel pos m Kind.GetAccessor ParseFlags.TYPE
       else
         set_ ← parse_contextual_modifier Kind.SetKeyword;
         if set_ : bool then parse_accessor_declaration fuel pos m Kind.SetAccessor ParseFlags.TYPE
         else
           index ← is_index_signature;
           if index : bool then parse_index_signature_declaration fuel pos m
           else parse_property_or_method_signature fuel pos m)
    (fun _ p' => well_placed t p' /\ (full_start p <= full_start p')%nat /\
      (property_name_kind (token p) = true \/ token p = Kind.OpenBracketToken -> (full_start p < full_start p')%nat)) p.
Proof.
  intros Hp Hn. assert (forall k f, down t n (parse_accessor_declaration fuel pos m k f)) as Ha
    by (intros; apply down_accessor).
  apply fin_bind, parse_contextual_fin; [done..|intros p1 Hp1 Hf1; run_steps|intros p1 Hp1 Hf1 Ht1].
  apply fin_bind, parse_contextual_fin; [done..|intros p2 Hp2 Hf2; run_steps|intros p2 Hp2 Hf2 Ht2].
  apply fin_bind, is_index_signature_fin; [done|]. intros b p3 Hp3 Hf3 Ht3 Hb. apply fin_if; intros ->.
  - apply index_signature_fin; [done|bound|rewrite Ht3; auto|]. intros e p4 Hp4 Hf4. split_and!; [done|lia|lia].
  - apply property_signature_fin; [done|bound|]. intros e p4 Hp4 Hf4 Hs. rewrite Ht3, Ht2, Ht1 in Hs.
    split_and!; [done|lia|]. intros Hk. specialize (Hs Hk). lia.
Qed.
Lemma type_member_fin p :
  well_placed t p -> (remaining t p < n)%nat -> member_start_kind (token p) = true ->
  fin (parse_type_member fuel) (fun _ p' => well_placed t p' /\ (full_start p < full_start p')%nat) p.
Proof.
  intros Hp Hn Hk. unfold parse_type_member, token_in. apply fin_bind, fin_bind, fin_gets, fin_ret, fin_if; intros E.
  - unfold parse_signature_member, node_pos. apply fin_bind, fin_gets, fin_bind, fin_when; [done|intros _].
    apply signature_fin; [done..| |]; [destruct (token p); try done; auto|]. intros l l' p1 Hp1 Hf1. run_steps.
  - assert (property_name_kind (token p) = true \/ token p = Kind.OpenBracketToken) as Hname.
    { clear -Hk E. unfold member_start_kind in Hk. apply orb_true_iff in Hk as [Hk|Hk]; [right|by left].
      destruct (token p); done. }
    pose proof (steady_look_ahead t n _ (down_open_paren_or_less t Hascii n)) as Hc.
    unfold and_then, token_is. apply fin_bind, fin_bind, fin_bind, fin_gets, fin_ret.
    assert (forall p', well_placed t p' -> full_start p' = full_start p -> token p' = token p ->
      fin (pos ← node_pos; modifiers ← parse_modifiers fuel;
        get_ ← parse_contextual_modifier Kind.GetKeyword;
        if get_ : bool then parse_accessor_declaration fuel pos modifiers Kind.GetAccessor ParseFlags.TYPE
        else
          set_ ← parse_contextual_modifier Kind.SetKeyword;
          if set_ : bool then parse_accessor_declaration fuel pos modifiers Kind.SetAccessor ParseFlags.TYPE
          else
            index ← is_index_signature;
            if index : bool then parse_index_signature_declaration fuel pos modifiers
            else parse_property_or_method_signature fuel pos modifiers)
        (fun _ p2 => well_placed t p2 /\ (full_start p < full_start p2)%nat) p') as Hrest.
    { intros p1 Hp1 Hf1 Ht1. apply fin_bind, fin_gets, fin_bind, modifiers_ex_fin; [done|bound|].
      intros m p2 Hp2 Hf2 Ho. eapply fin_mono; [apply named_member_fin; [done|bound]|].
      intros e p3 (Hp3 & Hf3 & Hs). split; [done|]. destruct Ho as [?|[? Ht2]]; [lia|].
      rewrite Ht2, Ht1 in Hs. specialize (Hs Hname). lia. }
    apply fin_if; intros En; [|by apply fin_ret, Hrest].
    apply Kind_eqb_eq in En. eapply (use_steady t); [exact Hc|done..|]. intros b p1 Hp1 Hf1 Ht1.
    apply fin_if; intros _; [|by apply Hrest]. unfold parse_signature_member, node_pos.
    apply fin_bind, fin_gets, fin_bind. cbn [Kind_eqb]. unfold when. run_steps.
Qed.

Lemma type_member_element_fin p :
  well_placed t p ->
  fin (is_list_element PCTypeMembers false) (fun b p' => well_placed t p' /\ full_start p' = full_start p
    /\ token p' = token p /\ (b = true -> member_start_kind (token p) = true)) p.
Proof.
  intros Hp. eapply (look_ahead_fin t _ (fun b => b = true -> member_start_kind (token p) = true)); [done| |done].
  eapply fin_mono; [by apply ending_type_member|]. by intros b p' (? & _ & ?).
Qed.
Lemma down_type_members : down t n (parse_list fuel PCTypeMembers (parse_type_member fuel)).
Proof.
  apply (down_list t Hascii n fuel PCTypeMembers _ (fun k => member_start_kind k = true) Hfuel type_member_element_fin).
  apply type_member_fin.
Qed.
#[local] Hint Resolve down_type_members : down.
Lemma down_type_literal : down t n (parse_type_literal fuel).
Proof. unfold parse_type_literal, parse_object_type_members. down_body. Qed.

(** ** Mapped types *)
Lemma down_next_identifier_ m : down t m next_token_is_identifier.
Proof. by eapply (down_next_is_identifier t). Qed.
#[local] Hint Resolve down_next_identifier_ : down.
Lemma down_start_of_mapped_type m : down t m next_is_start_of_mapped_type.
Proof. unfold next_is_start_of_mapped_type, and_then. down_body. Qed.
Lemma down_mapped_type_modifier m k : k <> Kind.EndOfFile -> down t m (mapped_type_modifier k).
Proof. intros Hk. unfold mapped_type_modifier. down_body. Qed.
Lemma down_mapped_type_parameter : down t (n - 1) parse_mapped_type_parameter.
Proof. unfold parse_mapped_type_parameter. down_body. Qed.
#[local] Hint Resolve down_type_literal down_start_of_mapped_type down_mapped_type_parameter : down.
Lemma mapped_type_fin p :
  well_placed t p -> (remaining t p < n)%nat -> token p = Kind.OpenBraceToken ->
  fin (parse_mapped_type fuel) (fun _ p' => well_placed t p' /\ (full_start p <= full_start p')%nat) p.
Proof.
  intros Hp Hn Ht. pose proof (fun m => down_mapped_type_modifier m Kind.ReadonlyKeyword ltac:(done)) as Hr.
  pose proof (fun m => down_mapped_type_modifier m Kind.QuestionToken ltac:(done)) as Hq.
  unfold parse_mapped_type. run_steps.
Qed.

(** ** Tuples and parentheses *)
Lemma steady_rewrap m e l : steady t m (rewrap e l).
Proof. unfold rewrap. down_body. Qed.
Lemma down_next_is_type m : down t m next_is_start_of_type.
Proof. unfold next_is_start_of_type. down_body. Qed.
#[local] Hint Resolve steady_rewrap down_next_is_type : down.
Lemma steady_finish_with_end m e pos end_ : steady t m (finish_node_with_end e pos end_).
Proof. unfold finish_node_with_end. down_body. Qed.
#[local] Hint Resolve steady_finish_with_end : down.
Lemma down_tuple_element_type : down t (n - 1) parse_tuple_element_type.
Proof. unfold parse_tuple_element_type, not_. down_body. Qed.
#[local] Hint Resolve down_tuple_element_type : down.
Lemma down_named_tuple_element m : down t m scan_start_of_named_tuple_element.
Proof. unfold scan_start_of_named_tuple_element, next_token_is_colon_or_question_colon, or_else, and_then. down_body. Qed.
#[local] Hint Resolve down_named_tuple_element : down.
Lemma down_tuple_element : down t (n - 1) parse_tuple_element_name_or_tuple_element_type.
Proof. unfold parse_tuple_element_name_or_tuple_element_type. down_body. Qed.
Lemma down_tuple_type : down t n (parse_tuple_type fuel).
Proof.
  pose proof (down_bracketed_list t Hascii n fuel PCTupleElementTypes _ Kind.OpenBracketToken Kind.CloseBracketToken
    Hfuel ltac:(done) ltac:(done) down_tuple_element) as Hl.
  unfold parse_tuple_type. down_body.
Qed.
Lemma parenthesized_type_fin p :
  well_placed t p -> (remaining t p < n)%nat -> token p = Kind.OpenParenToken ->
  fin parse_parenthesized_type (fun _ p' => well_placed t p' /\ (full_start p <= full_start p')%nat) p.
Proof. intros Hp Hn Ht. unfold parse_parenthesized_type. run_steps. Qed.
#[local] Hint Resolve down_tuple_type : down.

(** ** Import types *)
Lemma down_import_attribute : down t (n - 1) parse_import_attribute.
Proof. unfold parse_import_attribute. down_body. Qed.
Lemma down_import_attributes k : down t (n - 1) (parse_import_attributes fuel k true).
Proof.
  pose proof (down_delimited_list t Hascii (n - 1) fuel PCImportAttributes _ ltac:(lia) down_import_attribute) as Hl.
  unfold parse_import_attributes, parse_empty_node_list. cbn [negb when]. down_body.
Qed.
#[local] Hint Resolve down_import_attributes : down.
Lemma down_import_type_attributes : down t (n - 1) (import_type_attributes fuel).
Proof. unfold import_type_attributes. down_body. Qed.
#[local] Hint Resolve down_import_type_attributes : down.
Lemma import_type_fin p :
  well_placed t p -> (remaining t p < n)%nat -> token p = Kind.TypeOfKeyword \/ token p = Kind.ImportKeyword ->
  fin (parse_import_type fuel) (fun _ p' => well_placed t p' /\ (full_start p <= full_start p')%nat) p.
Proof.
  intros Hp Hn Ht. unfold parse_import_type, parse_entity_name_of_type_reference, add_source_flags. run_steps.
  exfalso. destruct Ht; congruence.
Qed.

(** ** Function types *)
Lemma down_skip_parameter : down t n (skip_parameter_start fuel).
Proof. unfold skip_parameter_start, parse_identifier_or_pattern, or_else. down_body. Qed.
#[local] Hint Resolve down_skip_parameter : down.
Lemma down_start_of_function_type : down t n (next_is_unambiguously_start_of_function_type fuel).
Proof. unfold next_is_unambiguously_start_of_function_type. down_body. Qed.
#[local] Hint Resolve down_start_of_function_type : down.

(** What starts a function type. *)
Definition function_type_kind (k : Kind) : bool :=
  match k with
  | Kind.LessThanToken | Kind.NewKeyword | Kind.OpenParenToken | Kind.AbstractKeyword => true
  | _ => false
  end.
Lemma is_function_type_fin (Q : bool -> Parser -> Prop) p :
  well_placed t p -> (remaining t p < n)%nat ->
  (forall b p', well_placed t p' -> full_start p' = full_start p -> token p' = token p ->
     (b = true -> function_type_kind (token p) = true) -> Q b p') ->
  fin (is_start_of_function_type_or_constructor_type fuel) Q p.
Proof.
  intros Hp Hn HQ. unfold is_start_of_function_type_or_constructor_type, next_token_is_new_keyword. apply fin_bind, fin_gets.
  assert (fin (mret false) Q p) as Hdefault by by apply fin_ret, HQ.
  destruct (token p) eqn:Et; try exact Hdefault; clear Hdefault.
  all: run_steps; apply HQ; (done || congruence).
Qed.
Lemma function_type_fin (Q : Node -> Parser -> Prop) p :
  well_placed t p -> (remaining t p < n)%nat -> function_type_kind (token p) = true ->
  (forall e p', well_placed t p' -> (full_start p < full_start p')%nat -> Q e p') ->
  fin (parse_function_or_constructor_type fuel) Q p.
Proof.
  intros Hp Hn Hk HQ. unfold parse_function_or_constructor_type, parse_modifiers_for_constructor_type, token_is, node_pos.
  apply fin_bind, fin_gets, fin_bind, fin_bind, fin_bind, fin_gets, fin_ret, fin_if; intros E.
  - apply Kind_eqb_eq in E. run_steps; apply HQ; (done || bound).
  - apply Kind_eqb_neq in E. apply fin_ret, fin_bind. eapply parse_optional_fin; [eassumption..|done| |intros E'].
    + intros p1 Hp1 Hf1. run_steps; apply HQ; (done || bound).
    + apply signature_fin; [done..| |]; [destruct (token p); try done; auto|].
      intros l l' p1 Hp1 Hf1. run_steps; apply HQ; (done || bound).
Qed.
Lemma function_type_to_error_fin b m (Q : Node -> Parser -> Prop) p :
  down t n m -> well_placed t p -> (remaining t p < n)%nat ->
  (forall e p', well_placed t p' -> (full_start p <= full_start p')%nat -> Q e p') ->
  fin (parse_function_or_constructor_type_to_error fuel b m) Q p.
Proof.
  intros Hm Hp Hn HQ. unfold parse_function_or_constructor_type_to_error.
  apply fin_bind, is_function_type_fin; [done..|]. intros c p1 Hp1 Hf1 Ht1 Hc. apply fin_if; intros ->.
  - apply fin_bind, function_type_fin; [done|bound|rewrite Ht1; auto|]. intros e p2 Hp2 Hf2.
    run_steps; apply HQ; (done || bound).
  - eapply (use_down t); [exact Hm|done|bound|]. intros e p2 Hp2 Hf2. apply HQ; [done|lia].
Qed.
Lemma down_function_type_to_error b m : down t n m -> down t n (parse_function_or_constructor_type_to_error fuel b m).
Proof. intros Hm p Hp Hn. by apply function_type_to_error_fin. Qed.
#[local] Hint Resolve down_function_type_to_error : down.

(** ** Types without operators *)
Lemma keyword_type_attempt_fin (Q : option Node -> Parser -> Prop) p :
  well_placed t p -> token p <> Kind.EndOfFile ->
  (forall r p', well_placed t p' -> (full_start p <= full_start p')%nat -> Q r p') ->
  fin (attempt keyword_type_attempt) Q p.
Proof.
  intros Hp Hl HQ. eapply (attempt_fin t); [done| |intros ? p' ??; apply HQ; [done|lia]|intros p' ???; apply HQ; [done|lia]].
  unfold keyword_type_attempt, parse_keyword_type_node. run_steps.
Qed.

Lemma nullable_type_fin op m p :
  down t (m - 1) op -> well_placed t p -> (remaining t p < m)%nat -> token p <> Kind.EndOfFile ->
  fin (parse_jsdoc_nullable_type op) (fun _ p' => well_placed t p' /\ (full_start p <= full_start p')%nat) p.
Proof. intros Ho Hp Hm Hl. unfold parse_jsdoc_nullable_type. run_steps. Qed.
(** [??] is read again as [?]; the token of the parser is the old one until the next token is read. *)
Lemma rescan_question_kind s k s' :
  ScannerState.token s = Kind.QuestionQuestionToken -> Scanner.rescan_question_token s = Ok (k, s') -> k = Kind.QuestionToken.
Proof.
  intros Ht. unfold Scanner.rescan_question_token, mbind, M_bind, get, modify, gets. rewrite Ht. cbn [Kind_eqb negb].
  by intros [= <- _].
Qed.
Lemma stale_next_fin p s (Q : Kind -> Parser -> Prop) :
  well_placed t p -> token p = Kind.QuestionQuestionToken -> Scanner.rescan_question_token (scanner p) = Ok (Kind.QuestionToken, s) ->
  (forall k p', well_placed t p' -> (full_start p < full_start p')%nat -> Q k p') -> fin next_token Q (set_scanner s p).
Proof.
  intros [Hp Hc] Ht Hr HQ. assert (ScannerState.token (scanner p) = Kind.QuestionQuestionToken) as Hst by (by rewrite <- Hc).
  pose proof (rescan_question_placed t Hascii _ Hp Hst) as Hw. unfold wp in Hw. rewrite Hr in Hw. destruct Hw as (Hs & Hk & Hf & _).
  pose proof (next_token_stale Kind.QuestionQuestionToken (set_token Kind.QuestionToken (set_scanner s p)) eq_refl eq_refl) as He.
  assert (set_token Kind.QuestionQuestionToken (set_token Kind.QuestionToken (set_scanner s p)) = set_scanner s p) as Hp'
    by (rewrite <- Ht; by destruct p).
  rewrite Hp' in He. unfold fin. rewrite He.
  apply (next_token_fin t Hascii).
  - by split.
  - intros p1 Hp1 Hf1 Hlt. specialize (Hlt ltac:(done)). apply HQ; [done|].
    unfold full_start in *. cbn [scanner set_token set_scanner] in *. lia.
Qed.

Lemma question_question_fin op m p :
  down t (m - 1) op -> well_placed t p -> (remaining t p < m)%nat -> token p = Kind.QuestionQuestionToken ->
  fin (on_scanner Scanner.rescan_question_token ;; parse_jsdoc_nullable_type op)
    (fun _ p' => well_placed t p' /\ (full_start p <= full_start p')%nat) p.
Proof.
  intros Ho Hp Hm Ht. apply fin_bind. unfold fin at 1, on_scanner.
  assert (ScannerState.token (scanner p) = Kind.QuestionQuestionToken) as Hst by (rewrite <- Ht; symmetry; apply Hp).
  pose proof (rescan_question_placed t Hascii _ (proj1 Hp) Hst) as Hw. unfold wp in Hw.
  destruct (Scanner.rescan_question_token (scanner p)) as [[k s]| |] eqn:Hr; [|done..].
  pose proof (rescan_question_kind _ _ _ Hst Hr) as ->. unfold parse_jsdoc_nullable_type, node_pos.
  apply fin_bind, fin_gets, fin_bind, (stale_next_fin p s); [done..|]. intros k p1 Hp1 Hf1. run_steps.
Qed.

Lemma down_import_of_type m : down t m next_is_start_of_type_of_import_type.
Proof. unfold next_is_start_of_type_of_import_type. down_body. Qed.
#[local] Hint Resolve down_import_of_type : down.

(** A type without operators, over the types with operators behind [!] and [?]. *)
Lemma down_non_array op m : (m <= n)%nat -> down t (m - 1) op -> down t m (parse_non_array_type fuel op).
Proof.
  intros Hle Ho p Hp Hm. assert (remaining t p < n)%nat as Hn by lia.
  assert (fin (parse_type_reference fuel) (fun _ p' => well_placed t p' /\ (full_start p <= full_start p')%nat) p)
    as Hdefault by (by apply down_type_reference).
  unfold parse_non_array_type. apply fin_bind, fin_gets. destruct (token p) eqn:Et; try exact Hdefault; clear Hdefault.
  all: lazymatch goal with
    | |- fin (attempt keyword_type_attempt ≫= _) _ _ =>
        apply fin_bind, keyword_type_attempt_fin; [done|congruence|]; intros [e|] p1 Hp1 Hf1; run_steps
    | |- fin (on_scanner _ ≫= _) _ _ => by apply (question_question_fin op m)
    | |- fin (parse_jsdoc_nullable_type _) _ _ => apply (nullable_type_fin op m); [done..|congruence]
    | |- fin (parse_template_type _) _ _ => apply template_type_fin; [done..|congruence]
    | |- fin (parse_import_type _) _ _ => apply import_type_fin; [done..|by right]
    | |- fin parse_parenthesized_type _ _ => by apply parenthesized_type_fin
    | |- fin (parse_prefix_non_null_type _) _ _ => unfold parse_prefix_non_null_type; run_steps
    | |- _ => run_steps
    end.
  all: lazymatch goal with
    | |- fin (parse_mapped_type _) _ _ => eapply fin_mono; [apply mapped_type_fin; [done|bound|congruence]|]; intros ? ? []
    | |- fin (parse_import_type _) _ _ => eapply fin_mono; [apply import_type_fin; [done|bound|left; congruence]|]; intros ? ? []
    | |- fin (parse_this_type_predicate _) _ _ =>
        match goal with E : _ && _ = true |- _ => apply andb_true_iff in E as [E%Kind_eqb_eq _] end;
        apply this_predicate_fin; [done|bound|congruence|]
    end.
  all: intros; down_end.
Qed.

(** ** Postfix types *)
Lemma down_postfix_loop m pos e : (m <= n)%nat -> down t m (iter fuel (postfix_type_iteration pos) e).
Proof.
  intros Hle p Hp Hn.
  apply (fin_iter _ (fun p' => well_placed t p' /\ (full_start p <= full_start p')%nat) (remaining t));
    [|split; [done|lia]|lia].
  intros e' p1 [Hp1 Hf1]. unfold postfix_type_iteration, skip_range_trivia. run_steps.
  all: split_and!; (done || bound).
Qed.
Lemma down_postfix op m : (m <= n)%nat -> down t (m - 1) op -> down t m (parse_postfix_type_or_higher fuel op).
Proof.
  intros Hle Ho. pose proof (down_non_array op m Hle Ho) as Ha. pose proof (fun pos e => down_postfix_loop m pos e Hle) as Hl.
  unfold parse_postfix_type_or_higher. down_body.
Qed.

(** ** Operators *)
Lemma down_constraint_of_infer : down t n try_parse_constraint_of_infer_type.
Proof.
  intros p Hp Hn. eapply (attempt_fin t); [done| |intros ? p' ??; split; [done|lia]|intros p' ???; split; [done|lia]].
  unfold constraint_of_infer_type_attempt. run_steps. all: by intros [].
Qed.
#[local] Hint Resolve down_constraint_of_infer : down.
Lemma down_infer_type : down t n parse_infer_type.
Proof. unfold parse_infer_type, parse_type_parameter_of_infer_type, parse_identifier. down_body. Qed.
#[local] Hint Resolve down_infer_type : down.
Lemma down_type_operator m depth :
  (m <= n)%nat -> (m <= depth)%nat -> down t m (parse_type_operator_or_higher fuel depth).
Proof.
  revert m. induction depth as [|depth IH]; intros m Hm Hd p Hp Hn; [lia|]. cbn [parse_type_operator_or_higher].
  assert (down t (m - 1) (parse_type_operator_or_higher fuel depth)) as Hop by (apply IH; lia).
  pose proof (down_do_in_context t m NodeFlags.DISALLOW_CONDITIONAL_TYPES_CONTEXT false _
    (down_postfix _ m Hm Hop)) as Hpostfix.
  apply fin_bind, fin_gets. destruct (token p) eqn:Et; try (by apply Hpostfix); run_steps.
Qed.
Lemma down_operator : down t n (parse_type_operator_or_higher fuel fuel).
Proof. by apply down_type_operator. Qed.
#[local] Hint Resolve down_operator : down.
Lemma down_constituents k m l :
  k <> Kind.EndOfFile -> down t n m -> down t n (iter fuel (constituents_iteration fuel k m) l).
Proof.
  intros Hk Hm p Hp Hn.
  apply (fin_iter _ (fun p' => well_placed t p' /\ (full_start p <= full_start p')%nat) (remaining t));
    [|split; [done|lia]|lia].
  intros l' p1 [Hp1 Hf1]. unfold constituents_iteration. run_steps.
Qed.
Lemma down_union_or_intersection k m :
  k <> Kind.EndOfFile -> down t n m -> down t n (parse_union_or_intersection_type fuel k m).
Proof.
  intros Hk Hm. pose proof (fun l => down_constituents k m l Hk Hm) as Hl.
  unfold parse_union_or_intersection_type. down_body.
Qed.
Lemma down_union : down t n (parse_union_type_or_higher fuel).
Proof. by apply down_union_or_intersection, down_union_or_intersection, down_operator. Qed.
#[local] Hint Resolve down_union : down.

(** ** Conditional types *)
Lemma down_conditional_rest_ pos e : down t (n - 1) (conditional_type_rest pos e).
Proof. unfold conditional_type_rest. down_body. Qed.
#[local] Hint Resolve down_conditional_rest_ : down.
Lemma down_conditional : down t n (conditional_type_or_higher fuel).
Proof. unfold conditional_type_or_higher. down_body. Qed.
#[local] Hint Resolve down_conditional : down.
Lemma down_type_at_level : down t n (type_at_level fuel).
Proof.
  intros p Hp Hn. unfold type_at_level, set_context_flags_to. do 2 token_step. token_step. token_step.
  apply fin_bind, is_function_type_fin; [done|bound|]. intros b p1 Hp1 Hf1 Ht1 Hb. apply fin_bind, fin_if; intros ->.
  - apply function_type_fin; [done|bound|rewrite Ht1; auto|]. intros e p2 Hp2 Hf2. run_steps.
  - run_steps.
Qed.

(** * Functions *)

(** ** Object literals *)
Lemma down_method_declaration pos m a e q d : down t n (parse_method_declaration fuel pos m a e q d).
Proof. unfold parse_method_declaration. down_body. Qed.
#[local] Hint Resolve down_method_declaration : down.
Lemma down_property_assignment pos m e q b : down t (n - 1) (parse_property_assignment pos m e q b).
Proof. unfold parse_property_assignment. down_body. Qed.
#[local] Hint Resolve down_property_assignment : down.
Lemma down_parse_contextual m k : k <> Kind.EndOfFile -> down t m (parse_contextual_modifier k).
Proof. intros Hk p Hp _. apply parse_contextual_fin; [done..| |]; intros; split; (done || lia). Qed.
Lemma down_object_literal_element : down t (n - 1) (parse_object_literal_element fuel).
Proof.
  pose proof (fun m => down_parse_contextual m Kind.GetKeyword ltac:(done)).
  pose proof (fun m => down_parse_contextual m Kind.SetKeyword ltac:(done)).
  assert (forall pos m k f, down t n (parse_accessor_declaration fuel pos m k f)) as Ha by (intros; apply down_accessor).
  unfold parse_object_literal_element. down_body.
Qed.
Lemma object_literal_fin p :
  well_placed t p -> (remaining t p < n)%nat -> token p = Kind.OpenBraceToken ->
  fin (object_literal_expression fuel) (fun _ p' => well_placed t p' /\ (full_start p <= full_start p')%nat) p.
Proof.
  intros Hp Hn Ht.
  pose proof (down_delimited_list t Hascii (n - 1) fuel PCObjectLiteralMembers _ ltac:(lia) down_object_literal_element).
  pose proof (fun m => down_matching_brackets t Hascii m Kind.CloseBraceToken ltac:(done)).
  unfold object_literal_expression. run_steps.
Qed.

(** ** Functions and decorated classes *)
Lemma down_optional_binding m : down t m parse_optional_binding_identifier.
Proof. unfold parse_optional_binding_identifier. down_body. Qed.
#[local] Hint Resolve down_optional_binding : down.
Lemma down_function_name m a b : down t m (function_name a b).
Proof. destruct a, b; cbn [function_name andb]; auto with down. Qed.
#[local] Hint Resolve down_function_name down_function_block_ : down.
Lemma down_function_expression : down t n (function_expression fuel).
Proof. unfold function_expression. down_body. Qed.
Lemma down_decorated_expression : down t n (decorated_expression fuel).
Proof. pose proof (fun pos m k => ending_rest_class (rest := rest) pos m k) as Hc. unfold decorated_expression. down_body. Qed.
Lemma down_class_expression : down t n class_expression.
Proof. pose proof (fun pos m k => ending_rest_class (rest := rest) pos m k) as Hc. unfold class_expression. down_body. Qed.

(** ** Arrow functions *)

(** The arrow, or nothing is read. *)
Lemma expected_token_fin k (Q : Node -> Parser -> Prop) p :
  well_placed t p -> k <> Kind.EndOfFile ->
  (forall e p', well_placed t p' -> (full_start p < full_start p')%nat -> Q e p') ->
  (forall e p', well_placed t p' -> full_start p' = full_start p -> token p' = token p -> token p <> k -> Q e p') ->
  fin (parse_expected_token k) Q p.
Proof.
  intros Hp Hk H1 H2. unfold parse_expected_token. apply fin_bind. eapply parse_optional_token_fin; [eassumption..|done| |].
  - intros e p1 Hp1 Hf1. by apply fin_ret, H1.
  - intros Hne. run_steps. apply H2; (done || congruence).
Qed.

(** The body starts with a brace or is behind the arrow. *)
Lemma arrow_body_fin a b p :
  well_placed t p -> (remaining t p < n)%nat -> token p = Kind.OpenBraceToken \/ (remaining t p < n - 1)%nat ->
  fin (parse_arrow_function_expression_body a b) (fun _ p' => well_placed t p' /\ (full_start p <= full_start p')%nat) p.
Proof.
  intros Hp Hn Ho. unfold parse_arrow_function_expression_body, token_is. apply fin_bind, fin_bind, fin_gets, fin_ret, fin_if; intros E.
  { by apply down_function_block_. }
  apply Kind_eqb_neq in E. assert (remaining t p < n - 1)%nat as Hlt by (destruct Ho; [congruence|done]).
  assert (forall n, steady t n is_start_of_expression_statement) as Hs.
  { intros n'. apply steady_and_then; [apply steady_not; auto with down|auto with down]. }
  assert (forall n, steady t n (and_then (not_ (token_in [Kind.SemicolonToken; Kind.FunctionKeyword; Kind.ClassKeyword]))
    (and_then is_start_of_statement (not_ is_start_of_expression_statement)))) as Hb by (intros n'; auto with down).
  run_steps.
Qed.
Lemma simple_arrow_fin pos e b m p :
  well_placed t p -> (remaining t p < n)%nat -> token p = Kind.EqualsGreaterThanToken \/ (remaining t p < n - 1)%nat ->
  fin (simple_arrow_function_expression pos e b m)
    (fun _ p' => well_placed t p' /\ (full_start p <= full_start p')%nat) p.
Proof.
  intros Hp Hn Ho. unfold simple_arrow_function_expression. apply fin_bind.
  eapply finish_fin; [eassumption|]. intros e1 p1 Hp1 Hf1 Ht1 _. apply fin_bind.
  eapply parse_expected_token_fin; [eassumption..|done|]. intros e2 p2 Hp2 Hf2 Hs2.
  apply fin_bind. eapply fin_mono; [apply arrow_body_fin; [done|bound|right]|].
  - destruct Ho as [Ho|Ho]; [|bound]. specialize (Hs2 ltac:(congruence)). bound.
  - intros e3 p3 [Hp3 Hf3]. run_steps.
Qed.
Lemma down_arrow_parameters f b : down t n (arrow_function_parameters fuel f b).
Proof. unfold arrow_function_parameters. down_body. Qed.
Lemma down_arrow_rest pos m l l' a b c : down t n (arrow_function_rest pos m l l' a b c).
Proof.
  intros p Hp Hn. unfold arrow_function_rest, token_is. apply fin_bind, fin_bind, fin_gets, fin_ret, fin_bind.
  eapply (use_down t n); [auto with down|done..|]. intros ty p1 Hp1 Hf1. cbv zeta.
  apply fin_if; intros _; [run_steps|]. apply fin_bind, fin_gets, fin_if; intros Eb; [run_steps|].
  pose proof (down_identifier_ n None None) as Hid. unfold parse_identifier.
  apply fin_bind, expected_token_fin; [done..| |].
  - intros e p2 Hp2 Hf2. apply fin_bind, fin_if; intros _; [|run_steps].
    eapply fin_mono; [apply arrow_body_fin; [done|bound|right; bound]|]. intros e3 p3 [Hp3 Hf3]. run_steps.
  - intros e p2 Hp2 Hf2 Ht2 Hne. apply fin_bind, fin_if; intros Hb; [|run_steps].
    eapply fin_mono; [apply arrow_body_fin; [done|bound|left]|intros e3 p3 [Hp3 Hf3]; run_steps].
    rewrite Ht2. apply orb_true_iff in Hb as [Hb%Kind_eqb_eq|Hb%Kind_eqb_eq]; congruence.
Qed.
#[local] Hint Resolve down_arrow_parameters down_arrow_rest : down.
Lemma down_parenthesized_arrow a b : down t n (parenthesized_arrow_function_expression fuel a b).
Proof. unfold parenthesized_arrow_function_expression, parse_modifiers_for_arrow_function. down_body. Qed.
End names.

(** * The knot *)
Section knot.
Context `{JsNumber} `{SpellingSuggestions} {rest : RestParts} {starts : ListStarts}.
Context (t : bytes) (Hascii : is_ascii t = true) (Hnul : forall i, t !! i <> Some 0) `{!EndingStarts t starts}.

Lemma down_chain (primary : PrimaryParts) n fuel (expression : MP Node) (assignment : bool -> MP Node) pos e :
  (n <= fuel)%nat -> EndingPrimary t n primary -> down t (n - 1) expression -> (forall b, down t (n - 1) (assignment b)) ->
  down t n (member ← parse_member_expression_rest expression fuel pos e true;
            parse_call_expression_rest expression assignment fuel pos member).
Proof.
  intros Hf Hp He Ha. pose proof (fun pos e b => down_member_rest t Hascii Hnul n _ fuel Hf He pos e b) as Hm.
  pose proof (fun pos e => down_call_expression_rest t Hascii Hnul n _ _ fuel Hf He Ha pos e) as Hc. down_body.
Qed.

Lemma ending_nested_parts primary n fuel :
  (n < fuel)%nat -> EndingPrimary t n primary -> EndingNested t n (nested_parts starts primary fuel).
Proof.
  intros Hf Hp. pose proof (ending_expression_parts t Hascii Hnul n fuel Hf Hp) as Hparts.
  assert (n <= fuel)%nat as Hf' by lia.
  pose proof (down_parse_expression (parts := expression_parts fuel) t Hascii n n fuel (le_n n) Hf) as He.
  pose proof (fun b => down_assignment (parts := expression_parts fuel) t Hascii n n fuel b (le_n n) Hf) as Ha.
  pose proof (down_lower t n (n - 1) _ He ltac:(lia)) as He'.
  assert (forall b, down t (n - 1) (@parse_assignment_expression_or_higher_worker _ (expression_parts fuel) fuel b)) as Ha'
    by (intros b; apply (down_mono t n); [apply Ha|lia]).
  split; intros.
  - apply ending_type_.
  - exact He.
  - apply Ha.
  - apply (down_unary_or_higher (parts := expression_parts fuel) t Hascii n); [done..|].
    intros. by apply (down_binary_rest t Hascii n).
  - apply (ending_operand (parts := expression_parts fuel)).
  - exact (down_chain primary n fuel _ _ pos e Hf' Hp He' Ha').
Qed.

Lemma ending_primary_parts n fuel :
  (n < fuel)%nat -> EndingRest t n rest -> EndingPrimary t n (primary_parts starts fuel).
Proof.
  revert n. induction fuel as [|fuel IH]; intros n Hf Hr; [lia|].
  destruct n as [|n]; [split; intros; first [lia | intros ? ? ?; lia]|].
  assert (EndingNested t (S n - 1) (nested_parts starts (primary_parts starts fuel) fuel)) as Hn.
  { replace (S n - 1)%nat with n by lia. apply ending_nested_parts; [lia|]. apply IH; [lia|].
    apply (ending_rest_mono t (S n)); [done|lia]. }
  assert (S n <= fuel)%nat as Hle by lia.
  split.
  - exact (down_type_at_level t Hascii Hnul (S n) fuel Hle).
  - exact ending_rest_jsx.
  - exact ending_rest_js.
  - exact (object_literal_fin t Hascii (S n) fuel Hle).
  - exact (down_function_expression t Hascii (S n) fuel Hle).
  - exact (down_class_expression t (S n) fuel Hle).
  - exact (down_decorated_expression t Hascii (S n) fuel Hle).
  - exact (down_parenthesized_arrow t Hascii (S n) fuel Hle).
  - exact (simple_arrow_fin t Hascii (S n) fuel Hle).
Qed.
End knot.
