(* ===== verification/ExprThm.v ===== *)
(** * ExprThm: what the parser of expressions promises

    The two properties of the operators (the grammar and its being unambiguous), and three of the whole parser of types,
    functions and expressions: what it leaves as it was, that speculation which fails leaves no trace, and that it ends;
    then runs of a sample parser. *)
From S2P Require Import Prelude Text Chars SyntaxKind Monad JsNum Keywords.
From S2P Require Import ScannerState RegExp CoreTypes Ast Precedence ParserState ExprParser ListParser MemberParser.
From S2P Require Import NameParser TypeParser FunctionParser.
From S2P Require Import ParserInv ExprGrammar RescanTotal ParserTotal ExprTotal MemberTotal TypeInv TypeTotal.

(** * A concrete parser to run

    Instances of the interfaces of the parser for examples. No name is suggested for a misspelled one. In the parser of the
    operators types are identifiers, and JSX, functions, classes and object literals are not read; in the whole parser
    blocks are empty. *)

Module Sample.
#[export] Existing Instance canonical_numbers.

#[export] Instance no_suggestions : SpellingSuggestions := {| get_spelling_suggestion_for_strings := fun _ _ => [] |}.

#[export] Instance expression_lists : ListStarts := {|
  is_start_of_statement := mret false;
  scan_type_member_start := mret false;
  scan_class_member_start := mret false;
  is_start_of_type := fun _ => is_identifier;
|}.

#[export] Instance identifier_types : PrimaryParts := {|
  type_ := parse_identifier;
  jsx_element := fun _ _ _ _ => panic;
  js_syntax := mret;
  parse_object_literal_expression := panic;
  parse_function_expression := panic;
  parse_class_expression := panic;
  parse_decorated_expression := panic;
  parse_parenthesized_arrow_function_expression := fun _ _ => panic;
  simple_arrow_function := fun _ _ _ _ => panic;
|}.

#[export] Instance framed_lists : FramedStarts expression_lists.
Proof. split; cbn; intros; keeps_go. Qed.

#[export] Instance framed_identifiers : FramedPrimary identifier_types.
Proof. split; cbn; intros; keeps_go. unfold parse_identifier. apply keeps_parse_identifier_with_diagnostic. Qed.

(** Blocks are empty; JSX and classes are not read. *)
#[export] Instance empty_blocks : RestParts := {|
  parse_block := fun _ _ =>
    pos ← node_pos;
    parse_expected Kind.OpenBraceToken ;;
    parse_expected Kind.CloseBraceToken ;;
    finish (Token Kind.Block) pos;
  rest_js_syntax := mret;
  rest_jsx_element := fun _ _ _ _ => panic;
  parse_class_declaration_or_expression := fun _ _ _ => panic;
|}.

#[export] Instance framed_blocks : FramedRest empty_blocks.
Proof. split; cbn; intros; unfold node_pos; keeps_go. Qed.

#[export] Instance ending_blocks t n : is_ascii t = true -> (forall i, t !! i <> Some 0) -> EndingRest t n empty_blocks.
Proof. intros Ht Hnul. split; cbn; intros; try (intros p Hp _; apply fin_panic); down_body. Qed.

(** A parser of a file in the given contexts, at its first token. *)
Definition new_parser (source : bytes) (contexts : Z) : Parser :=
  mkParser (new source 99) source 0 [] [] Kind.Unknown 0 contexts 0 false false 0 [] [].

Definition start (source : bytes) (contexts : Z) : Parser :=
  match next_token (new_parser source contexts) with Ok (_, p) => p | _ => new_parser source contexts end.

(** Read an expression. *)
Definition read (source : bytes) (contexts : Z) : option (Node * Parser) :=
  match expression 30 (start source contexts) with Ok r => Some r | _ => None end.
Definition node (source : bytes) : option Node := fst <$> read source NodeFlags.NONE.
Definition errors (source : bytes) (contexts : Z) : option (list Diagnostic) :=
  (fun r => diagnostics r.2) <$> read source contexts.

(** The shape of a tree. *)
Inductive tree := Leaf (text : bytes) | Op (operator : Kind) (operands : list tree).
Fixpoint shape (n : Node) : tree :=
  match data n with
  | Identifier text => Leaf text
  | BinaryExpression l op r => Op (kind op) [shape l; shape r]
  | AsExpression e t => Op Kind.AsKeyword [shape e; shape t]
  | PrefixUnaryExpression op e => Op op [shape e]
  | d => Op (kind n) []
  end.
End Sample.

Section grammar.
Context `{JsNumber} {parts : ExpressionParts} `{!FramedParts parts}.

(** C4. [parse_binary_expression_or_higher] reads exactly the expressions of the grammar, whose precedences are those of
    ECMAScript listed in [operator_levels] and not the parser's own table: at a precedence [q], with enough fuel, it
    returns [e] in state [p'] if and only if [e] has a derivation from [p] to [p'] whose operators all bind tighter than
    [q] ([**] at its own level, so that it associates to the right and all others to the left), and which ends where no
    such operator follows, or where [in] is not allowed, or before [as] on a new line. *)
Theorem binary_expression_grammar (q : Z) (p : Parser) (e : Node) (p' : Parser) :
  0 <= q <= 15 -> token p = ScannerState.token (scanner p) ->
  (exists fuel, parse_binary_expression_or_higher fuel q p = Ok (e, p')) <->
  (exists lo hi, Binary lo hi p e p' /\ level q <= lo /\ stops q p').
Proof.
  intros Hq Hp. split.
  - intros [F HF]. by apply (or_higher_sound (S F)) in HF as [_ ?]; [|lia|done|].
  - intros (lo & hi & Hb & Hl & Hs). by eapply binary_complete.
Qed.

End grammar.

Section context.
Context `{JsNumber} `{SpellingSuggestions} {rest : RestParts} `{!FramedRest rest}.

(** C10. Parsing a type or an expression leaves the parser in the context it was called in: the context flags (whether [in]
    is an operator, whether [await] and [yield] are keywords, whether a conditional type may follow) and the enclosing lists
    are those of before on every path through types, parameters, functions and object literals, error recovery and
    speculation included; the current token of the parser is still that of the scanner, and no error is lost. *)
Theorem parser_keeps_context (fuel : nat) (p : Parser) (e : Node) (p' : Parser) :
  type_of_text fuel p = Ok (e, p') \/ expression_of_text fuel p = Ok (e, p') ->
  context_flags p' = context_flags p /\ parsing_contexts p' = parsing_contexts p
  /\ (token p = ScannerState.token (scanner p) -> token p' = ScannerState.token (scanner p'))
  /\ diagnostics p `prefix_of` diagnostics p'.
Proof.
  intros Hr. enough (Frame p p') as [[_ _ H3 H4 _ _] H1 H2] by done. destruct Hr as [Hr|Hr].
  - by eapply (framed_type_ (parts := primary_parts (list_starts fuel) fuel)).
  - exact (keeps_parse_expression (parts := @expression_parts _ _ (list_starts fuel)
      (primary_parts (list_starts fuel) fuel) fuel) fuel p e p' Hr).
Qed.

(** C11. A speculation that fails leaves no trace. When what starts like an arrow function is none, when [<] starts no type
    arguments, when an identifier is no type predicate and when an [infer] type has no constraint, and after the test for
    a function type whatever its answer, the parser is where it was: at the same token, with its positions, value and flags,
    with the same errors, in the same contexts, however far it had read and whatever it had reported. *)
Theorem failed_speculation (fuel : nat) (p p' : Parser) :
  let starts := list_starts fuel in
  let primary := primary_parts starts fuel in
  let nested := nested_parts starts primary fuel in
  token p = ScannerState.token (scanner p) ->
  (exists b, try_parenthesized_arrow_function b p = Ok (None, p'))
  \/ try_parse_type_arguments_in_expression fuel p = Ok (None, p')
  \/ attempt type_predicate_attempt p = Ok (None, p')
  \/ try_parse_constraint_of_infer_type p = Ok (None, p')
  \/ (exists b, is_start_of_function_type_or_constructor_type fuel p = Ok (b, p')) ->
  visible p' = visible p.
Proof.
  intros starts primary nested Hp.
  pose proof (framed_nested_parts (starts := starts) primary fuel _) as Hnested.
  intros [[b Hr]|[Hr|[Hr|[Hr|[b Hr]]]]].
  - exact (failed_arrow_visible (primary := primary) b p p' Hp Hr).
  - exact (failed_type_arguments_visible (starts := starts) (primary := primary) fuel p p' Hp Hr).
  - exact (failed_predicate_visible (nested := nested) p p' Hp Hr).
  - exact (failed_constraint_visible (nested := nested) p p' Hp Hr).
  - exact (function_type_test_visible (starts := starts) (nested := nested) fuel p b p' Hp Hr).
Qed.
End context.

Section termination.
Context `{JsNumber} `{SpellingSuggestions} {rest : RestParts}.
Context (t : bytes) (Hascii : is_ascii t = true) (Hnul : forall i, t !! i <> Some 0).

(** C5. Parsing a type or an expression always ends, however malformed the text: from any state between two tokens of an
    ASCII text without null characters, with two units of fuel more than bytes, neither runs out of fuel nor moves back, if
    blocks, classes, JSX and the check of JavaScript files do so. Every loop and every recursion of the parsers of
    expressions, types, patterns, parameters, functions and object literals, error recovery and speculation included, reads
    a token. *)
Theorem parser_terminates (fuel : nat) (p : Parser) :
  well_placed t p -> (length t + 2 <= fuel)%nat -> EndingRest t (S (remaining t p)) rest ->
  (type_of_text fuel p <> OutOfFuel /\ expression_of_text fuel p <> OutOfFuel)
  /\ forall e p', type_of_text fuel p = Ok (e, p') \/ expression_of_text fuel p = Ok (e, p') ->
     well_placed t p' /\ (full_start p <= full_start p')%nat.
Proof.
  intros Hp Hf Hr. assert (EndingStarts t (list_starts fuel)) as Hs by (apply ending_list_starts; [done|lia]).
  assert (remaining t p <= length t)%nat as Hrem by (unfold remaining; lia).
  pose proof (ending_primary_parts (starts := list_starts fuel) t Hascii Hnul (S (remaining t p)) fuel ltac:(lia) Hr) as Hpr.
  pose proof (ending_type_ (primary := primary_parts (list_starts fuel) fuel) p Hp (le_n _)) as H1.
  pose proof (expression_ends (starts := list_starts fuel) (primary := primary_parts (list_starts fuel) fuel) t Hascii Hnul
    fuel p Hp ltac:(lia) Hpr) as H2.
  change (fin (type_of_text fuel) (fun _ p' => well_placed t p' /\ (full_start p <= full_start p')%nat) p) in H1.
  change (fin (expression_of_text fuel) (fun _ p' => well_placed t p' /\ (full_start p <= full_start p')%nat) p) in H2.
  unfold fin in H1, H2. split.
  - split; intros E; [by rewrite E in H1|by rewrite E in H2].
  - intros e p' [E|E]; [by rewrite E in H1|by rewrite E in H2].
Qed.
End termination.

(** ** Runs *)
Module Runs.
Import Sample.
#[local] Instance sample_parts : ExpressionParts := expression_parts 12.
#[local] Instance framed_sample_parts : FramedParts sample_parts := framed_expression_parts 12.

(** [a + b * c ** d ** e as T < -x] is [((a + (b * (c ** (d ** e)))) as T) < (-x)]. *)
Definition operators_start : Parser := start (bstr "a + b * c ** d ** e as T < -x;") NodeFlags.NONE.

Definition operators_tree : tree :=
  Op Kind.LessThanToken
    [Op Kind.AsKeyword
       [Op Kind.PlusToken
          [Leaf (bstr "a");
           Op Kind.AsteriskToken
             [Leaf (bstr "b");
              Op Kind.AsteriskAsteriskToken
                [Leaf (bstr "c"); Op Kind.AsteriskAsteriskToken [Leaf (bstr "d"); Leaf (bstr "e")]]]];
        Leaf (bstr "T")];
     Op Kind.MinusToken [Leaf (bstr "x")]].

Lemma operators_read :
  exists e p', parse_binary_expression_or_higher 12 0 operators_start = Ok (e, p') /\ shape e = operators_tree.
Proof. vm_compute. by eexists _, _. Qed.

Lemma operators_coherent : token operators_start = ScannerState.token (scanner operators_start).
Proof. vm_compute. reflexivity. Qed.

Lemma binary_expression_grammar_witness :
  exists e p' lo hi, Binary lo hi operators_start e p' /\ level 0 <= lo /\ stops 0 p' /\ shape e = operators_tree.
Proof.
  destruct operators_read as (e & p' & Hr & He).
  destruct (proj1 (binary_expression_grammar 0 operators_start e p' ltac:(lia) operators_coherent))
    as (lo & hi & Hb & Hl & Hs); [exists 12%nat; exact Hr|].
  exact (ex_intro _ e (ex_intro _ p' (ex_intro _ lo (ex_intro _ hi (conj Hb (conj Hl (conj Hs He))))))).
Defined.


(** In the initializer of a [for] loop [in] is no operator; the argument list allows it again, in the body of the arrow
    function too, and then it is not one. *)
Definition for_start : Parser := start (bstr "f(async (a: T[], {b}) => a in b) in d") NodeFlags.DISALLOW_IN_CONTEXT.

Lemma parser_keeps_context_witness :
  exists e p', expression_of_text 40 for_start = Ok (e, p') /\ context_flags p' = NodeFlags.DISALLOW_IN_CONTEXT
  /\ parsing_contexts p' = 0 /\ token p' = Kind.InKeyword /\ diagnostics p' = [].
Proof.
  destruct (expression_of_text 40 for_start) as [[e p']| |] eqn:Hr.
  - exists e, p'. split; [reflexivity|].
    destruct (parser_keeps_context 40 for_start e p' (or_intror Hr)) as (Hf & Hc & _).
    split; [rewrite Hf; vm_compute; reflexivity|]. split; [rewrite Hc; vm_compute; reflexivity|].
    vm_compute in Hr. by injection Hr as <- <-.
  - vm_compute in Hr. discriminate.
  - vm_compute in Hr. discriminate.
Defined.

(** Parentheses that could be parameters until no arrow follows: the error at [c] is gone, the place is remembered. *)
Definition no_arrow_start : Parser := start (bstr "(a, b c) + d") NodeFlags.NONE.

Lemma failed_speculation_witness :
  exists p', @try_parenthesized_arrow_function _ (primary_parts (list_starts 30) 30) true no_arrow_start = Ok (None, p')
  /\ visible p' = visible no_arrow_start /\ not_parenthesized_arrow p' = [0].
Proof.
  destruct (@try_parenthesized_arrow_function _ (primary_parts (list_starts 30) 30) true no_arrow_start)
    as [[[e|] p']| |] eqn:Hr.
  - vm_compute in Hr. discriminate.
  - exists p'. split; [reflexivity|]. split.
    + apply (failed_speculation 30 no_arrow_start p'); [vm_compute; reflexivity|]. left. exists true. exact Hr.
    + vm_compute in Hr. by injection Hr as <-.
  - vm_compute in Hr. discriminate.
  - vm_compute in Hr. discriminate.
Defined.

(** Brackets that are never closed, operators without operands and types without ends. *)
Definition malformed : bytes := bstr "f(a, [b +, c ?? (d: { x?: [keyof T".
Definition malformed_start : Parser := start malformed NodeFlags.NONE.

Lemma malformed_placed : well_placed malformed malformed_start.
Proof.
  split; [|vm_compute; reflexivity].
  split; [split; vm_compute; try reflexivity; repeat constructor|vm_compute; lia..|intros _; vm_compute; lia].
Qed.

Lemma parser_terminates_witness :
  length malformed = 34%nat
  /\ (type_of_text 36 malformed_start <> OutOfFuel /\ expression_of_text 36 malformed_start <> OutOfFuel)
  /\ (exists e p', expression_of_text 36 malformed_start = Ok (e, p') /\ token p' = Kind.EndOfFile
      /\ length (diagnostics p') = 4%nat).
Proof.
  split; [reflexivity|]. assert (is_ascii malformed = true) as Hascii by (vm_compute; reflexivity).
  assert (forall i, malformed !! i <> Some 0) as Hnul.
  { assert (forallb (fun b => negb (b =? 0)) malformed = true) as Hb by (vm_compute; reflexivity).
    intros i Hi%list_elem_of_lookup_2%list_elem_of_In. rewrite forallb_forall in Hb. by specialize (Hb 0 Hi). }
  split.
  - apply (parser_terminates malformed Hascii Hnul 36 malformed_start malformed_placed); [vm_compute; lia|].
    by apply ending_blocks.
  - vm_compute. eexists _, _. split; [reflexivity|]. by split.
Defined.

(** In the initializer of a [for] statement, where [in] is no operator, the brackets of an argument list and of an
    element access allow it again, and parentheses do not: [(a in b)] is reported and left unread at [in], because
    [parse_parenthesized_expression] calls [parse_expression] and not [parse_expression_allow_in]. *)
Example parenthesized_in_of_for_initializer :
  errors (bstr "f(a in b)[c in d]") NodeFlags.DISALLOW_IN_CONTEXT = Some []
  /\ errors (bstr "(a in b)") NodeFlags.NONE = Some []
  /\ errors (bstr "(a in b)") NodeFlags.DISALLOW_IN_CONTEXT
     = Some [mkParseDiagnostic (TextRange.new 3 5) X_0_EXPECTED [bstr ")"]]
  /\ (fun r => token r.2) <$> read (bstr "(a in b)") NodeFlags.DISALLOW_IN_CONTEXT = Some Kind.InKeyword.
Proof. by vm_compute. Qed.

(** After [as] an operator of any precedence takes the whole as its left operand. *)
Example as_then_multiplication :
  shape <$> node (bstr "a + b as T * c")
  = Some (Op Kind.AsteriskToken
            [Op Kind.AsKeyword [Op Kind.PlusToken [Leaf (bstr "a"); Leaf (bstr "b")]; Leaf (bstr "T")]; Leaf (bstr "c")]).
Proof. by vm_compute. Qed.

(** What the elements of a tuple type make optional. *)
Definition optional_elements (source : bytes) : option (list (option Kind)) :=
  match type_of_text 30 (start source NodeFlags.NONE) with
  | Ok (mkNode _ _ (TupleType (mkNodeList _ elements _ _)), _) =>
      Some (map (fun n => match data n with OptionalType t => Some (kind t) | _ => None end) elements)
  | _ => None
  end.

(** [parse_tuple_element_type] finds a question mark by the last byte of the element's text: the mark of the last operand
    makes the whole union optional, and so does the text of a string literal without an end. *)
Example question_marks_of_tuple_elements :
  optional_elements (bstr "[A, B?, (C | D)?]") = Some [None; Some Kind.TypeReference; Some Kind.ParenthesizedType]
  /\ optional_elements (bstr "[A | B?, keyof C?]") = Some [Some Kind.UnionType; Some Kind.TypeOperator]
  /\ optional_elements (bstr "['a?") = Some [Some Kind.LiteralType].
Proof. by vm_compute. Qed.
End Runs.
