(* ===== verification/Evaluator.v ===== *)
(** * Evaluator: constant expressions (ts-evaluator/src/evaluator.rs)

    The values of enum members and template literal types: literals, the operators on numbers, concatenation, templates and
    the entities a callback looks up. The callback of the checker follows declarations and has effects of its own, so
    that it is a parameter, in the monad [M] over a state [S]. The evaluator works on the trees of Ast.v and the numbers of
    Number.v. *)
From S2P Require Import Prelude Text Strs Numerals SyntaxKind Monad JsNum Number NumberThm CoreTypes Ast ParserState ExprThm.
From Stdlib Require Import SpecFloat.

(** ** Outer expressions (ts-ast/src/lib.rs, ast.rs) *)
Module OuterExpressionKinds.
Definition PARENTHESES : Z := Z.shiftl 1 0.
Definition TYPE_ASSERTIONS : Z := Z.shiftl 1 1.
Definition NON_NULL_ASSERTIONS : Z := Z.shiftl 1 2.
Definition PARTIALLY_EMITTED_EXPRESSIONS : Z := Z.shiftl 1 3.
Definition EXPRESSIONS_WITH_TYPE_ARGUMENTS : Z := Z.shiftl 1 4.
Definition SATISFIES : Z := Z.shiftl 1 5.
Definition contains (self other : Z) : bool := negb (Z.land self other =? 0).
End OuterExpressionKinds.

(** The expression under an outer expression of [kinds]: [is_outer_expression] and [store.expression]. *)
Definition outer_expression (kinds : Z) (n : Node) : option Node :=
  let under other e := if OuterExpressionKinds.contains kinds other then Some e else None in
  match data n with
  | ParenthesizedExpression e => under OuterExpressionKinds.PARENTHESES e
  | TypeAssertion _ e | AsExpression e _ => under OuterExpressionKinds.TYPE_ASSERTIONS e
  | SatisfiesExpression e _ =>
      under (Z.lor OuterExpressionKinds.EXPRESSIONS_WITH_TYPE_ARGUMENTS OuterExpressionKinds.SATISFIES) e
  | ExpressionWithTypeArguments e _ => under OuterExpressionKinds.EXPRESSIONS_WITH_TYPE_ARGUMENTS e
  | NonNullExpression e => under OuterExpressionKinds.NON_NULL_ASSERTIONS e
  | PartiallyEmittedExpression e => under OuterExpressionKinds.PARTIALLY_EMITTED_EXPRESSIONS e
  | _ => None
  end.

Definition is_outer_expression (kinds : Z) (n : Node) : bool := bool_decide (is_Some (outer_expression kinds n)).

Fixpoint skip_outer_expressions (kinds : Z) (n : Node) : Node :=
  let skip other e := if OuterExpressionKinds.contains kinds other then skip_outer_expressions kinds e else n in
  match n with
  | mkNode _ _ (ParenthesizedExpression e) => skip OuterExpressionKinds.PARENTHESES e
  | mkNode _ _ (TypeAssertion _ e) | mkNode _ _ (AsExpression e _) => skip OuterExpressionKinds.TYPE_ASSERTIONS e
  | mkNode _ _ (SatisfiesExpression e _) =>
      skip (Z.lor OuterExpressionKinds.EXPRESSIONS_WITH_TYPE_ARGUMENTS OuterExpressionKinds.SATISFIES) e
  | mkNode _ _ (ExpressionWithTypeArguments e _) => skip OuterExpressionKinds.EXPRESSIONS_WITH_TYPE_ARGUMENTS e
  | mkNode _ _ (NonNullExpression e) => skip OuterExpressionKinds.NON_NULL_ASSERTIONS e
  | mkNode _ _ (PartiallyEmittedExpression e) => skip OuterExpressionKinds.PARTIALLY_EMITTED_EXPRESSIONS e
  | _ => n
  end.

(** [is_entity_name_expression_ex] without [allow_js]. *)
Fixpoint is_entity_name_expression (n : Node) : bool :=
  match n with
  | mkNode _ _ (Identifier _) => true
  | mkNode _ _ (PropertyAccessExpression e _ name) =>
      Kind_eqb (kind name) Kind.Identifier && is_entity_name_expression e
  | _ => false
  end.

(** ** Values *)
Inductive Value : Type :=
  | VNone
  | VString (s : bytes)
  | VNumber (n : f64)
  | VBool (b : bool)
  | VPseudoBigInt (n : PseudoBigInt).

Record Result := new_result {
  value : Value;
  is_syntactically_string : bool;
  resolved_other_files : bool;
  has_external_references : bool;
}.

Section values.
Context `{FloatLib}.

Definition number_to_string (n : f64) : bytes := utf8 (Number.to_string n).

(** [None] is the panic. *)
Definition any_to_string (v : Value) : option bytes :=
  match v with
  | VString s => Some s
  | VNumber n => Some (number_to_string n)
  | VBool b => Some (if b then bstr "true" else bstr "false")
  | VPseudoBigInt n => Some (pseudo_big_int_to_string n)
  | VNone => None
  end.

Definition is_truthy (v : Value) : option bool :=
  match v with
  | VString s => Some (negb (bool_decide (s = [])))
  | VNumber n => Some (negb (Number.eq n (Number.from_i32 0)) && negb (Number.is_nan n))
  | VBool b => Some b
  | VPseudoBigInt n => Some (negb (bool_decide (base10_value n = [])) || negative n)
  | VNone => None
  end.

(** ** Operators *)
Definition unary_number (operator : Kind) (n : f64) : option f64 :=
  match operator with
  | Kind.PlusToken => Some n
  | Kind.MinusToken => Some (Number.neg n)
  | Kind.TildeToken => Some (Number.bitwise_not n)
  | _ => None
  end.

Definition binary_number (operator : Kind) (l r : f64) : option f64 :=
  match operator with
  | Kind.BarToken => Some (Number.bitwise_or l r)
  | Kind.AmpersandToken => Some (Number.bitwise_and l r)
  | Kind.GreaterThanGreaterThanToken => Some (Number.signed_right_shift l r)
  | Kind.GreaterThanGreaterThanGreaterThanToken => Some (Number.unsigned_right_shift l r)
  | Kind.LessThanLessThanToken => Some (Number.left_shift l r)
  | Kind.CaretToken => Some (Number.bitwise_xor l r)
  | Kind.AsteriskToken => Some (Number.mul l r)
  | Kind.SlashToken => Some (Number.div l r)
  | Kind.PlusToken => Some (Number.add l r)
  | Kind.MinusToken => Some (Number.sub l r)
  | Kind.PercentToken => Some (Number.remainder l r)
  | Kind.AsteriskAsteriskToken => Some (Number.exponentiate l r)
  | _ => None
  end.

Definition as_number (v : Value) : option f64 := match v with VNumber n => Some n | _ => None end.
Definition as_string (v : Value) : option bytes := match v with VString s => Some s | _ => None end.

(** A number or a string as the operand of a concatenation. *)
Definition concat_operand (v : Value) : option bytes :=
  match as_string v with
  | Some s => Some s
  | None => number_to_string <$> as_number v
  end.

Definition binary_value (operator : Kind) (l r : Value) : Value :=
  let number := l ← as_number l; r ← as_number r; binary_number operator l r in
  match number with
  | Some n => VNumber n
  | None =>
      match concat_operand l, concat_operand r with
      | Some l, Some r => if Kind_eqb operator Kind.PlusToken then VString (l ++ r) else VNone
      | _, _ => VNone
      end
  end.

(** ** Evaluation *)
Section evaluation.
Context {S : Type} (evaluate_entity : Node -> Node -> M S Result) (kinds : Z) (location : Node).

(** The loop over the spans, given the evaluator of their expressions. *)
Section spans.
Context (evaluate : Node -> M S Result).

Fixpoint evaluate_spans (spans : list Node) (sb : bytes) (resolved external : bool) : M S Result :=
  match spans with
  | [] => mret (new_result (VString sb) true resolved external)
  | mkNode _ _ (TemplateSpan e literal) :: spans =>
      r ← evaluate e;
      match value r with
      | VNone => mret (new_result VNone true false false)
      | v =>
          text ← unwrap (any_to_string v);
          match data literal with
          | TemplatePart _ literal _ _ =>
              evaluate_spans spans (sb ++ text ++ literal) (resolved || resolved_other_files r)
                (external || has_external_references r)
          | _ => panic
          end
      end
  | _ => panic
  end.
End spans.

(** One level, at an expression that is not an outer one, given the evaluator. *)
Definition evaluate_at (evaluate : Node -> M S Result) (expr : Node) : M S Result :=
  match expr with
  | mkNode _ _ (PrefixUnaryExpression operator operand) =>
      r ← evaluate operand;
      let v := match n ← as_number (value r); unary_number operator n with Some n => VNumber n | None => VNone end in
      mret (new_result v false (resolved_other_files r) (has_external_references r))
  | mkNode _ _ (BinaryExpression left_node operator_token right_node) =>
      left ← evaluate left_node;
      right ← evaluate right_node;
      let operator := kind operator_token in
      mret (new_result (binary_value operator (value left) (value right))
              ((is_syntactically_string left || is_syntactically_string right) && Kind_eqb operator Kind.PlusToken)
              (resolved_other_files left || resolved_other_files right)
              (has_external_references left || has_external_references right))
  | mkNode _ _ (Literal k text _) =>
      mret (if Kind_eqb k Kind.StringLiteral || Kind_eqb k Kind.NoSubstitutionTemplateLiteral
            then new_result (VString text) true false false
            else if Kind_eqb k Kind.NumericLiteral
            then new_result (VNumber (Number.from_string (chars text))) false false false
            else new_result VNone false false false)
  | mkNode _ _ (TemplateExpression (mkNode _ _ (TemplatePart _ text _ _)) (mkNodeList _ spans _ _)) =>
      evaluate_spans evaluate spans text false false
  | mkNode _ _ (TemplateExpression _ _) => panic
  | mkNode _ _ (Identifier _) => evaluate_entity expr location
  | mkNode _ _ (ElementAccessExpression e _ _) | mkNode _ _ (PropertyAccessExpression e _ _) =>
      if is_entity_name_expression e then evaluate_entity expr location
      else mret (new_result VNone false false false)
  | _ => mret (new_result VNone false false false)
  end.

Let outer_kinds := Z.lor kinds OuterExpressionKinds.PARENTHESES.

(** [evaluate_expression]: outer expressions are skipped one by one, which is [skip_outer_expressions] and
    [evaluate_at] ([evaluate_expression_unfold]). *)
Fixpoint evaluate_expression (expr : Node) : M S Result :=
  let under other e :=
    if OuterExpressionKinds.contains outer_kinds other then evaluate_expression e
    else mret (new_result VNone false false false) in
  match expr with
  | mkNode _ _ (ParenthesizedExpression e) => under OuterExpressionKinds.PARENTHESES e
  | mkNode _ _ (TypeAssertion _ e) | mkNode _ _ (AsExpression e _) => under OuterExpressionKinds.TYPE_ASSERTIONS e
  | mkNode _ _ (SatisfiesExpression e _) =>
      under (Z.lor OuterExpressionKinds.EXPRESSIONS_WITH_TYPE_ARGUMENTS OuterExpressionKinds.SATISFIES) e
  | mkNode _ _ (ExpressionWithTypeArguments e _) => under OuterExpressionKinds.EXPRESSIONS_WITH_TYPE_ARGUMENTS e
  | mkNode _ _ (NonNullExpression e) => under OuterExpressionKinds.NON_NULL_ASSERTIONS e
  | mkNode _ _ (PartiallyEmittedExpression e) => under OuterExpressionKinds.PARTIALLY_EMITTED_EXPRESSIONS e
  | _ => evaluate_at evaluate_expression expr
  end.
End evaluation.
End values.

(** * Constants

    [Constant n rs v b] reads an expression as a constant of the language: given the results [rs] of its entities in the
    order of the source, it has the value [v]; [b] tells whether its syntax already shows a string. Numbers have the
    operators of ECMAScript ([JsUnary] and [JsBinary], with the [powf] of the library for [**]), numerals their number
    ([NumeralValue]) and values their text ([Shown], with [NumberText] for numbers); no rule mentions the evaluator's
    own operations. Concatenation joins strings and numbers, which is all that TypeScript takes as a constant. *)
Section constants.
Context `{FloatLib} (kinds : Z).

(** The text of a value. *)
Inductive Shown : Value -> bytes -> Prop :=
  | Shown_string s : Shown (VString s) s
  | Shown_number n text : NumberText n text -> Shown (VNumber n) (utf8 text)
  | Shown_true : Shown (VBool true) (bstr "true")
  | Shown_false : Shown (VBool false) (bstr "false")
  | Shown_zero sign : Shown (VPseudoBigInt {| negative := sign; base10_value := [] |}) (bstr "0")
  | Shown_positive d ds : Shown (VPseudoBigInt {| negative := false; base10_value := d :: ds |}) (d :: ds)
  | Shown_negative d ds : Shown (VPseudoBigInt {| negative := true; base10_value := d :: ds |}) (chr "-" :: d :: ds).

Definition is_string (v : Value) : Prop := exists s, v = VString s.
Definition is_number (v : Value) : Prop := exists n, v = VNumber n.

(** What [+] joins: two strings, or a string and a number. *)
Definition joined (v1 v2 : Value) : Prop :=
  (is_string v1 /\ is_string v2) \/ (is_string v1 /\ is_number v2) \/ (is_number v1 /\ is_string v2).

(** The references that are looked up: [a], [a.b], [a.b["c"]]. *)
Definition is_entity (n : Node) : bool :=
  match data n with
  | Identifier _ => true
  | ElementAccessExpression e _ _ | PropertyAccessExpression e _ _ => is_entity_name_expression e
  | _ => false
  end.

Inductive Constant : Node -> list Result -> Value -> bool -> Prop :=
  | Constant_outer n e rs v b :
      outer_expression (Z.lor kinds OuterExpressionKinds.PARENTHESES) n = Some e -> Constant e rs v b -> Constant n rs v b
  | Constant_string l f k text tf :
      k = Kind.StringLiteral \/ k = Kind.NoSubstitutionTemplateLiteral ->
      Constant (mkNode l f (Literal k text tf)) [] (VString text) true
  | Constant_number l f text tf x :
      NumeralValue (chars text) x -> Constant (mkNode l f (Literal Kind.NumericLiteral text tf)) [] (VNumber x) false
  | Constant_entity n r :
      is_entity n = true -> value r <> VNone -> Constant n [r] (value r) (is_syntactically_string r)
  | Constant_unary l f op e rs x b y :
      Constant e rs (VNumber x) b -> JsUnary x op y ->
      Constant (mkNode l f (PrefixUnaryExpression op e)) rs (VNumber y) false
  | Constant_arithmetic l f e1 op e2 rs1 rs2 x y z b1 b2 :
      Constant e1 rs1 (VNumber x) b1 -> Constant e2 rs2 (VNumber y) b2 -> JsBinary x y (kind op) z ->
      Constant (mkNode l f (BinaryExpression e1 op e2)) (rs1 ++ rs2) (VNumber z)
        ((b1 || b2) && Kind_eqb (kind op) Kind.PlusToken)
  | Constant_concat l f e1 op e2 rs1 rs2 v1 v2 s1 s2 b1 b2 :
      Constant e1 rs1 v1 b1 -> Constant e2 rs2 v2 b2 -> kind op = Kind.PlusToken ->
      joined v1 v2 -> Shown v1 s1 -> Shown v2 s2 ->
      Constant (mkNode l f (BinaryExpression e1 op e2)) (rs1 ++ rs2) (VString (s1 ++ s2)) (b1 || b2)
  | Constant_template l f lh fh kh text raw tf ll spans c m rs s :
      Spans spans rs s ->
      Constant (mkNode l f (TemplateExpression (mkNode lh fh (TemplatePart kh text raw tf)) (mkNodeList ll spans c m)))
        rs (VString (text ++ s)) true
with Spans : list Node -> list Result -> bytes -> Prop :=
  | Spans_nil : Spans [] [] []
  | Spans_cons l f e lp fp kp text raw tf spans rs1 rs2 v b shown s :
      Constant e rs1 v b -> Shown v shown -> Spans spans rs2 s ->
      Spans (mkNode l f (TemplateSpan e (mkNode lp fp (TemplatePart kp text raw tf))) :: spans) (rs1 ++ rs2)
        (shown ++ text ++ s).

Scheme Constant_mind := Minimality for Constant Sort Prop
with Spans_mind := Minimality for Spans Sort Prop.

(** The entities of an expression, in the order of the source. *)
Fixpoint entities (n : Node) : list Node :=
  let under other e :=
    if OuterExpressionKinds.contains (Z.lor kinds OuterExpressionKinds.PARENTHESES) other then entities e else [] in
  match n with
  | mkNode _ _ (ParenthesizedExpression e) => under OuterExpressionKinds.PARENTHESES e
  | mkNode _ _ (TypeAssertion _ e) | mkNode _ _ (AsExpression e _) => under OuterExpressionKinds.TYPE_ASSERTIONS e
  | mkNode _ _ (SatisfiesExpression e _) =>
      under (Z.lor OuterExpressionKinds.EXPRESSIONS_WITH_TYPE_ARGUMENTS OuterExpressionKinds.SATISFIES) e
  | mkNode _ _ (ExpressionWithTypeArguments e _) => under OuterExpressionKinds.EXPRESSIONS_WITH_TYPE_ARGUMENTS e
  | mkNode _ _ (NonNullExpression e) => under OuterExpressionKinds.NON_NULL_ASSERTIONS e
  | mkNode _ _ (PartiallyEmittedExpression e) => under OuterExpressionKinds.PARTIALLY_EMITTED_EXPRESSIONS e
  | mkNode _ _ (PrefixUnaryExpression _ e) => entities e
  | mkNode _ _ (BinaryExpression l _ r) => entities l ++ entities r
  | mkNode _ _ (TemplateExpression _ (mkNodeList _ spans _ _)) =>
      flat_map (fun span => match span with mkNode _ _ (TemplateSpan e _) => entities e | _ => [] end) spans
  | _ => if is_entity n then [n] else []
  end.

Definition span_entities : list Node -> list Node :=
  flat_map (fun span => match span with mkNode _ _ (TemplateSpan e _) => entities e | _ => [] end).

(** The number of nodes the evaluator may visit. *)
Fixpoint visited (n : Node) : nat :=
  S match n with
    | mkNode _ _ d =>
        match d with
        | ParenthesizedExpression e | TypeAssertion _ e | AsExpression e _ | SatisfiesExpression e _
        | ExpressionWithTypeArguments e _ | NonNullExpression e | PartiallyEmittedExpression e
        | PrefixUnaryExpression _ e => visited e
        | BinaryExpression l _ r => visited l + visited r
        | TemplateExpression _ (mkNodeList _ spans _ _) =>
            foldr (fun span k => match span with mkNode _ _ (TemplateSpan e _) => visited e | _ => 0 end + k) 0 spans
        | _ => 0
        end
    end%nat.

(** Ask for entities one after the other. *)
Section ask.
Context {S : Type} (evaluate_entity : Node -> Node -> M S Result) (location : Node).

Fixpoint ask_all (ns : list Node) : M S (list Result) :=
  match ns with
  | [] => mret []
  | n :: ns => r ← evaluate_entity n location; rs ← ask_all ns; mret (r :: rs)
  end.

Lemma ask_all_app ns1 ns2 s rs1 s1 rs2 s2 :
  ask_all ns1 s = Ok (rs1, s1) -> ask_all ns2 s1 = Ok (rs2, s2) -> ask_all (ns1 ++ ns2) s = Ok (rs1 ++ rs2, s2).
Proof.
  revert s rs1 s1; induction ns1 as [|n ns IH]; intros s rs1 s1 H1 H2; cbn in *; unfold mbind, M_bind, mret, M_ret in *; [by simplify_eq|].
  destruct (evaluate_entity n location s) as [[r s']| |]; try done.
  destruct (ask_all ns s') as [[rs s'']| |] eqn:E; try done. simplify_eq. by rewrite (IH _ _ _ E H2).
Qed.

Lemma ask_all_split ns1 ns2 s rs s2 :
  ask_all (ns1 ++ ns2) s = Ok (rs, s2) ->
  exists rs1 s1 rs2, ask_all ns1 s = Ok (rs1, s1) /\ ask_all ns2 s1 = Ok (rs2, s2) /\ rs = rs1 ++ rs2.
Proof.
  revert s rs; induction ns1 as [|n ns IH]; intros s rs H1; cbn in *; [by eauto 6|].
  unfold mbind, M_bind, mret, M_ret in *. destruct (evaluate_entity n location s) as [[r s']| |]; try done.
  destruct (ask_all (ns ++ ns2) s') as [[rs' s'']| |] eqn:E; try done. simplify_eq.
  destruct (IH _ _ E) as (rs1 & s1 & rs2 & -> & ? & ->). by eauto 6.
Qed.

Lemma ask_all_length ns s rs s' : ask_all ns s = Ok (rs, s') -> length rs = length ns.
Proof.
  revert s rs; induction ns as [|n ns IH]; intros s rs H1; cbn in *; unfold mbind, M_bind, mret, M_ret in *; [by simplify_eq|].
  destruct (evaluate_entity n location s) as [[r s1]| |]; try done.
  destruct (ask_all ns s1) as [[rs' s'']| |] eqn:E; try done. simplify_eq. cbn. by rewrite (IH _ _ E).
Qed.
End ask.
End constants.

(** * Evaluation finds exactly the constants *)
Section correctness.
Context `{FloatLaws} {S : Type} (evaluate_entity : Node -> Node -> M S Result) (kinds : Z) (location : Node).

Abbreviation outer_kinds := (Z.lor kinds OuterExpressionKinds.PARENTHESES).
Abbreviation evaluate := (evaluate_expression evaluate_entity kinds location).
Abbreviation ask := (ask_all evaluate_entity location).

(** The code: skip the outer expressions, and look at what is left. *)
Lemma evaluate_expression_unfold n :
  evaluate n = evaluate_at evaluate_entity location evaluate (skip_outer_expressions outer_kinds n).
Proof. revert n. fix IH 1. intros [l f d]. destruct d; cbn; try done; case_match; try done; apply IH. Qed.

Lemma evaluate_outer n e : outer_expression outer_kinds n = Some e -> evaluate n = evaluate e.
Proof. destruct n as [l f d]. destruct d; cbn; try done; by case_match; intros [= ->]. Qed.

Lemma outer_entities n e : outer_expression outer_kinds n = Some e -> entities kinds n = entities kinds e.
Proof. destruct n as [l f d]. destruct d; cbn; try done; by case_match; intros [= ->]. Qed.

Lemma outer_visited n e : outer_expression outer_kinds n = Some e -> (visited e < visited n)%nat.
Proof. destruct n as [l f d]. destruct d; cbn; try done; case_match; try done; intros [= ->]; lia. Qed.

(** What a run with a value says, and what it is made of. *)
Definition flags_of (rs : list Result) (r : Result) : Prop :=
  resolved_other_files r = existsb resolved_other_files rs /\ has_external_references r = existsb has_external_references rs.

Lemma evaluate_entity_at n s : is_entity n = true -> evaluate n s = evaluate_entity n location s.
Proof. destruct n as [l f d]. destruct d; cbn; try done; intros ->; done. Qed.

Lemma entities_entity n : is_entity n = true -> entities kinds n = [n].
Proof. destruct n as [l f d]. destruct d; cbn; try done; by intros ->. Qed.

(** *** The operators and texts of the code *)
Definition valid_value (v : Value) : Prop := match v with VNumber n => valid n = true | _ => True end.

Lemma unary_number_spec op x y : valid x = true -> unary_number op x = Some y <-> JsUnary x op y.
Proof.
  intros Hx. destruct (bit_values x x Hx Hx) as (Hnot & _). split.
  - destruct op; try done; cbn; intros [= <-]; rewrite ?Hnot; constructor.
  - intros []; cbn; by rewrite ?Hnot.
Qed.

Lemma binary_number_spec op x y z :
  valid x = true -> valid y = true -> binary_number op x y = Some z <-> JsBinary x y op z.
Proof.
  intros Hx Hy. destruct (bit_values x y Hx Hy) as (_ & H1 & H2 & H3 & H4 & H5 & H6). split.
  - destruct op; try done; cbn; intros [= <-]; rewrite ?H1, ?H2, ?H3, ?H4, ?H5, ?H6; constructor.
  - intros []; cbn; by rewrite ?H1, ?H2, ?H3, ?H4, ?H5, ?H6.
Qed.

Lemma any_to_string_spec v text : valid_value v -> any_to_string v = Some text <-> Shown v text.
Proof.
  intros Hv. split.
  - destruct v as [|s|n|[]|[sign [|d ds]]]; cbn; try done; try (intros [= <-]; constructor).
    + by apply to_string_text.
    + destruct sign; intros [= <-]; constructor.
  - intros Hs. destruct Hs as [s|n t Ht| | |sign|d ds|d ds]; try done. apply number_text in Ht; [|done].
    cbn. unfold number_to_string. by rewrite Ht.
Qed.

Lemma concat_any v text :
  concat_operand v = Some text <-> any_to_string v = Some text /\ (is_string v \/ is_number v).
Proof.
  split.
  - destruct v; cbn; try done; intros [= <-]; (split; [done|]); [left|right]; by eexists.
  - by intros [Ht [[t ->]|[n ->]]].
Qed.

Lemma concat_spec v text :
  valid_value v -> concat_operand v = Some text <-> Shown v text /\ (is_string v \/ is_number v).
Proof. intros Hv. by rewrite concat_any, any_to_string_spec. Qed.

Lemma unary_number_valid op x y : valid x = true -> unary_number op x = Some y -> valid y = true.
Proof.
  intros Hx Hy%unary_number_spec; [|done]. destruct Hy; [done|by rewrite SFopp_valid|apply f64_of_Z_valid].
Qed.

Lemma binary_number_valid op x y z :
  valid x = true -> valid y = true -> binary_number op x y = Some z -> valid z = true.
Proof.
  intros Hx Hy Hz%binary_number_spec; [|done..]. destruct Hz; try apply f64_of_Z_valid.
  - by apply f64_mul_valid.
  - by apply f64_div_valid.
  - by apply f64_add_valid.
  - by apply f64_sub_valid.
  - by apply f64_rem_valid.
  - by apply f64_powf_valid.
Qed.

Lemma binary_value_valid op v1 v2 : valid_value v1 -> valid_value v2 -> valid_value (binary_value op v1 v2).
Proof.
  intros H1 H2. unfold binary_value. destruct (l ← as_number v1; r ← as_number v2; binary_number op l r) as [z|] eqn:Hz.
  - destruct v1; try done. destruct v2; try done. by eapply binary_number_valid, Hz.
  - by repeat case_match.
Qed.

Lemma constant_value n rs v b : Constant kinds n rs v b -> v <> VNone.
Proof. by induction 1. Qed.

Lemma flags_of_app rs1 rs2 r1 r2 v b :
  flags_of rs1 r1 -> flags_of rs2 r2 ->
  flags_of (rs1 ++ rs2) (new_result v b (resolved_other_files r1 || resolved_other_files r2)
                           (has_external_references r1 || has_external_references r2)).
Proof. intros [-> ->] [-> ->]. split; cbn; by rewrite existsb_app. Qed.

Lemma binary_arithmetic op x y z :
  valid x = true -> valid y = true -> JsBinary x y op z -> binary_value op (VNumber x) (VNumber y) = VNumber z.
Proof. intros Hx Hy Hz%binary_number_spec; [|done..]. unfold binary_value. cbn. by rewrite Hz. Qed.

Lemma binary_concat v1 v2 s1 s2 :
  valid_value v1 -> valid_value v2 -> joined v1 v2 -> Shown v1 s1 -> Shown v2 s2 ->
  binary_value Kind.PlusToken v1 v2 = VString (s1 ++ s2).
Proof.
  intros Hv1 Hv2 Hj H1 H2. unfold binary_value.
  rewrite (proj2 (concat_spec v1 s1 Hv1)), (proj2 (concat_spec v2 s2 Hv2)); [|unfold joined in Hj; tauto..].
  by destruct Hj as [[[t ->] [t' ->]]|[[[t ->] [n ->]]|[[n ->] [t ->]]]].
Qed.

(** The numbers the callback answers with are doubles, and so are all results. *)
Context (entity_valid : forall n s r s', evaluate_entity n location s = Ok (r, s') -> valid_value (value r)).

Lemma spans_valid spans sb res ext s r s' :
  evaluate_spans evaluate spans sb res ext s = Ok (r, s') -> valid_value (value r).
Proof.
  revert sb res ext s. induction spans as [|span spans IH]; intros sb res ext s; [by intros [= <- <-]|].
  destruct span as [l f []]; try done. cbn. unfold mbind, M_bind.
  match goal with |- context [evaluate ?e s] => destruct (evaluate e s) as [[r1 s1]| |]; try done end.
  destruct (value r1); [by intros [= <- <-]|cbn; destruct (data literal); try done; apply IH..].
Qed.

Lemma evaluate_valid k n s r s' : (visited n <= k)%nat -> evaluate n s = Ok (r, s') -> valid_value (value r).
Proof.
  revert n s r s'. induction k as [|k IH]; intros n s r s' Hk; [destruct n; cbn in Hk; lia|].
  destruct (outer_expression outer_kinds n) as [e|] eqn:Ho.
  { rewrite (evaluate_outer _ _ Ho). pose proof (outer_visited _ _ Ho). apply IH. lia. }
  destruct (is_entity n) eqn:Hn; [rewrite evaluate_entity_at by done; apply entity_valid|].
  destruct n as [l f []]; try (intros Hr; cbn in Hr, Hn, Ho; rewrite ?Hn in Hr; repeat case_match; try done;
    by injection Hr as <- <-).
  - intros Hr. cbn in Hr. injection Hr as <- <-. repeat case_match; try done. apply from_string_valid.
  - cbn in Hk |- *. unfold mbind, M_bind. destruct (evaluate left s) as [[r1 s1]| |] eqn:E1; try done.
    destruct (evaluate right s1) as [[r2 s2]| |] eqn:E2; try done. intros [= <- <-].
    apply IH in E1, E2; [|lia..]. by apply binary_value_valid.
  - cbn in Hk |- *. unfold mbind, M_bind. destruct (evaluate operand s) as [[r1 s1]| |] eqn:E1; try done.
    intros [= <- <-]. apply IH in E1; [|lia]. cbn. destruct (value r1); cbn in *; try done.
    destruct (unary_number _ _) eqn:Hu; [|done]. by eapply unary_number_valid, Hu.
  - destruct spans as [ll spans c m], head as [lh fh []]; try done. apply spans_valid.
Qed.

(** The run of a constant, its spans included. *)
Definition runs_to (n : Node) (rs : list Result) (v : Value) (b : bool) : Prop := forall s s',
  ask (entities kinds n) s = Ok (rs, s') ->
  exists r, evaluate n s = Ok (r, s') /\ value r = v /\ is_syntactically_string r = b /\ flags_of rs r.

Definition spans_run_to (spans : list Node) (rs : list Result) (text : bytes) : Prop := forall sb res ext s s',
  ask (span_entities kinds spans) s = Ok (rs, s') ->
  evaluate_spans evaluate spans sb res ext s
  = Ok (new_result (VString (sb ++ text)) true (res || existsb resolved_other_files rs)
          (ext || existsb has_external_references rs), s').

Lemma run_binary l f e1 op e2 rs1 rs2 v1 v2 b1 b2 v :
  runs_to e1 rs1 v1 b1 -> runs_to e2 rs2 v2 b2 -> length rs1 = length (entities kinds e1) ->
  (valid_value v1 -> valid_value v2 -> binary_value (kind op) v1 v2 = v) ->
  runs_to (mkNode l f (BinaryExpression e1 op e2)) (rs1 ++ rs2) v ((b1 || b2) && Kind_eqb (kind op) Kind.PlusToken).
Proof.
  intros H1 H2 Hlen Hv s s' Hask. cbn [entities] in Hask.
  destruct (ask_all_split _ _ _ _ _ _ _ Hask) as (rs1' & s1 & rs2' & Hask1 & Hask2 & Happ).
  pose proof (ask_all_length _ _ _ _ _ _ Hask1) as Hlen'.
  apply app_inj_1 in Happ as [-> ->]; [|congruence].
  destruct (H1 _ _ Hask1) as (r1 & E1 & <- & <- & F1). destruct (H2 _ _ Hask2) as (r2 & E2 & <- & <- & F2).
  pose proof (evaluate_valid _ _ _ _ _ (le_n _) E1) as Hv1. pose proof (evaluate_valid _ _ _ _ _ (le_n _) E2) as Hv2.
  specialize (Hv Hv1 Hv2).
  eexists. split; [|split; [|split]].
  - cbn. unfold mbind, M_bind. by rewrite E1, E2.
  - done.
  - done.
  - by apply flags_of_app.
Qed.

Lemma constant_length n rs v b : Constant kinds n rs v b -> length rs = length (entities kinds n).
Proof.
  revert n rs v b. apply (Constant_mind kinds (fun n rs _ _ => length rs = length (entities kinds n))
    (fun spans rs _ => length rs = length (span_entities kinds spans))); intros; cbn [entities]; rewrite ?length_app;
    try congruence.
  - by erewrite outer_entities.
  - done.
  - done.
  - by rewrite entities_entity.
  - done.
  - done.
  - cbn. rewrite length_app. fold (span_entities kinds spans). congruence.
Qed.

(** A constant is found, and its entities are asked for, in order. *)
Lemma constant_runs n rs v b : Constant kinds n rs v b -> runs_to n rs v b.
Proof.
  revert n rs v b. apply (Constant_mind kinds runs_to spans_run_to).
  - intros n e rs v b Ho _ IH s s'. erewrite outer_entities, evaluate_outer by eassumption. apply IH.
  - intros l f k text tf Hk s s' [= <-]. destruct Hk as [-> | ->]; by eexists.
  - intros l f text tf x Hx%numeral_value s s' [= <-]. subst x. by eexists.
  - intros n r Hn Hv s s'. rewrite entities_entity, evaluate_entity_at by done. cbn. unfold mbind, M_bind, mret, M_ret.
    destruct (evaluate_entity n location s) as [[r' s1]| |]; try done. intros [= -> ->].
    eexists. split_and!; [done..|]. split; cbn; by rewrite orb_false_r.
  - intros l f op e rs x b y _ IH Hy s s' Hask. destruct (IH _ _ Hask) as (r & E & Hr & _ & F).
    pose proof (evaluate_valid (visited e) e _ _ _ (le_n _) E) as Hx. rewrite Hr in Hx. apply unary_number_spec in Hy; [|done].
    eexists. split_and!; [cbn; unfold mbind, M_bind; by rewrite E| |done|exact F].
    cbn. rewrite Hr. cbn. by rewrite Hy.
  - intros l f e1 op e2 rs1 rs2 x y z b1 b2 H1 IH1 H2 IH2 Hz.
    eapply run_binary; eauto using constant_length, binary_arithmetic.
  - intros l f e1 op e2 rs1 rs2 v1 v2 s1 s2 b1 b2 H1 IH1 H2 IH2 Hop Hs Hs1 Hs2.
    replace (b1 || b2) with ((b1 || b2) && Kind_eqb (kind op) Kind.PlusToken) by (rewrite Hop; apply andb_true_r).
    eapply run_binary; eauto using constant_length. rewrite Hop. intros ??. by apply binary_concat.
  - intros l f lh fh kh text raw tf ll spans c m rs t _ IH s s' Hask.
    eexists. split; [cbn; by rewrite (IH _ _ _ _ _ Hask)|done].
  - intros sb res ext s s' [= <-]. cbn. by rewrite !orb_false_r, app_nil_r.
  - intros l f e lp fp kp text raw tf spans rs1 rs2 v b shown t He IHe Hshown _ IH sb res ext s s' Hask.
    cbn in Hask. fold (span_entities kinds spans) in Hask.
    destruct (ask_all_split _ _ _ _ _ _ _ Hask) as (rs1' & s1 & rs2' & Hask1 & Hask2 & Happ).
    pose proof (ask_all_length _ _ _ _ _ _ Hask1) as Hlen.
    apply app_inj_1 in Happ as [-> ->]; [|by rewrite (constant_length _ _ _ _ He)].
    destruct (IHe _ _ Hask1) as (r & E & Hr & _ & [Hf1 Hf2]). cbn. unfold mbind, M_bind. rewrite E, Hr.
    pose proof (evaluate_valid _ _ _ _ _ (le_n _) E) as Hev. rewrite Hr in Hev. apply any_to_string_spec in Hshown; [|done].
    pose proof (constant_value _ _ _ _ He) as Hv. destruct v; try done; cbn in Hshown; simplify_eq; cbn;
      rewrite (IH _ _ _ _ _ Hask2), Hf1, Hf2, !existsb_app, !orb_assoc, <- !app_assoc; done.
Qed.
(** A run that ends with a value is that of a constant. *)
Definition found (n : Node) : Prop := forall s r s', evaluate n s = Ok (r, s') -> value r <> VNone ->
  exists rs, ask (entities kinds n) s = Ok (rs, s') /\ Constant kinds n rs (value r) (is_syntactically_string r)
             /\ flags_of rs r.

Lemma value_none {A} r s s' :
  (mret (new_result VNone false false false) : M S Result) s = Ok (r, s') -> value r <> VNone -> A.
Proof. by intros [= <- <-]. Qed.

Lemma found_entity n : is_entity n = true -> found n.
Proof.
  intros Hn s r s'. rewrite evaluate_entity_at by done. intros Hr Hv. exists [r]. rewrite entities_entity by done.
  cbn. unfold mbind, M_bind. rewrite Hr. split; [done|]. split; [by constructor|]. split; cbn; by rewrite orb_false_r.
Qed.

Lemma found_unary l f op e : found e -> found (mkNode l f (PrefixUnaryExpression op e)).
Proof.
  intros He s r s' Hr Hv. cbn in Hr. unfold mbind, M_bind in Hr. destruct (evaluate e s) as [[r' s1]| |] eqn:E; try done.
  simplify_eq Hr. intros <- <-. cbn in *.
  destruct (value r') eqn:Hr'; cbn in Hv |- *; try done.
  destruct (unary_number op n) as [y|] eqn:Hy; cbn in *; try done.
  destruct (He _ _ _ E) as (rs & Hask & Hc & Hf); [by rewrite Hr'|]. exists rs. rewrite Hr' in Hc.
  pose proof (evaluate_valid _ _ _ _ _ (le_n _) E) as Hx. rewrite Hr' in Hx. apply unary_number_spec in Hy; [|done].
  split; [done|]. split; [|exact Hf]. by eapply Constant_unary.
Qed.

Lemma found_binary l f e1 op e2 : found e1 -> found e2 -> found (mkNode l f (BinaryExpression e1 op e2)).
Proof.
  intros H1 H2 s r s' Hr Hv. cbn in Hr. unfold mbind, M_bind in Hr.
  destruct (evaluate e1 s) as [[r1 s1]| |] eqn:E1; try done. destruct (evaluate e2 s1) as [[r2 s2]| |] eqn:E2; try done.
  simplify_eq Hr. intros <- <-. cbn [value] in Hv. unfold binary_value in Hv.
  assert (value r1 <> VNone) as Hv1 by (intros Hn; rewrite Hn in Hv; by destruct (value r2)).
  assert (value r2 <> VNone) as Hv2 by (intros Hn; rewrite Hn in Hv; by destruct (value r1)).
  destruct (H1 _ _ _ E1 Hv1) as (rs1 & Hask1 & Hc1 & Hf1). destruct (H2 _ _ _ E2 Hv2) as (rs2 & Hask2 & Hc2 & Hf2).
  exists (rs1 ++ rs2). split; [cbn; by eapply ask_all_app|]. split; [|by apply flags_of_app].
  cbn [value is_syntactically_string]. unfold binary_value in *.
  pose proof (evaluate_valid _ _ _ _ _ (le_n _) E1) as Hx1. pose proof (evaluate_valid _ _ _ _ _ (le_n _) E2) as Hx2.
  destruct (l ← as_number (value r1); r ← as_number (value r2); binary_number (kind op) l r) as [z|] eqn:Hz.
  { destruct (value r1); try done. destruct (value r2); try done. apply binary_number_spec in Hz; [|done..].
    by eapply Constant_arithmetic. }
  destruct (concat_operand (value r1)) as [t1|] eqn:Ht1; [|done].
  destruct (concat_operand (value r2)) as [t2|] eqn:Ht2; [|done].
  destruct (Kind_eqb (kind op) Kind.PlusToken) eqn:Hop; [|done]. rewrite andb_true_r.
  apply concat_spec in Ht1 as [Ht1 Hj1], Ht2 as [Ht2 Hj2]; [|done..]. apply Kind_eqb_eq in Hop.
  eapply Constant_concat; [exact Hc1|exact Hc2|exact Hop| |exact Ht1|exact Ht2].
  rewrite Hop in Hz. unfold joined. destruct Hj1 as [Hj1|[n1 Hj1]], Hj2 as [Hj2|[n2 Hj2]]; [by left|..].
  - right. left. split; [done|by exists n2].
  - right. right. split; [by exists n1|done].
  - by rewrite Hj1, Hj2 in Hz.
Qed.

(** The spans of a template, each with a found expression. *)
Lemma found_spans spans sb res ext s r s' :
  Forall (fun span => match span with mkNode _ _ (TemplateSpan e _) => found e | _ => True end) spans ->
  evaluate_spans evaluate spans sb res ext s = Ok (r, s') -> value r <> VNone ->
  exists rs text, ask (span_entities kinds spans) s = Ok (rs, s') /\ Spans kinds spans rs text
    /\ r = new_result (VString (sb ++ text)) true (res || existsb resolved_other_files rs)
             (ext || existsb has_external_references rs).
Proof.
  intros Hspans. revert sb res ext s. induction Hspans as [|span spans Hspan _ IH]; intros sb res ext s Hr Hv.
  - injection Hr as <- <-. exists [], []. split; [done|]. split; [constructor|]. cbn. by rewrite !orb_false_r, app_nil_r.
  - destruct span as [l f []]; try done. match type of Hspan with found ?e => rename e into ex end.
    cbn in Hr. unfold mbind, M_bind in Hr. destruct (evaluate ex s) as [[r1 s1]| |] eqn:E; try done.
    assert (value r1 <> VNone) as Hv1 by (intros Hn; rewrite Hn in Hr; by simplify_eq Hr; intros <- <-).
    destruct (Hspan _ _ _ E Hv1) as (rs1 & Hask1 & Hc1 & Hf1 & Hf2).
    destruct (any_to_string (value r1)) as [shown|] eqn:Hshown; [|by destruct (value r1)].
    pose proof (evaluate_valid _ _ _ _ _ (le_n _) E) as Hx1. pose proof (proj1 (any_to_string_spec _ _ Hx1) Hshown) as Hshown'.
    destruct literal as [ll lf []]; try by destruct (value r1); cbn in Hr; simplify_eq.
    assert (evaluate_spans evaluate spans (sb ++ shown ++ text) (res || resolved_other_files r1)
              (ext || has_external_references r1) s1 = Ok (r, s')) as Hr'
      by (destruct (value r1); try done; cbn in Hshown; simplify_eq; exact Hr).
    destruct (IH _ _ _ _ Hr' Hv) as (rs2 & t & Hask2 & Hs & ->).
    exists (rs1 ++ rs2), (shown ++ text ++ t). split; [cbn; by eapply ask_all_app|].
    split; [by eapply Spans_cons|]. by rewrite Hf1, Hf2, !existsb_app, !orb_assoc, <- !app_assoc.
Qed.

Lemma found_template l f head ll spans c m :
  Forall (fun span => match span with mkNode _ _ (TemplateSpan e _) => found e | _ => True end) spans ->
  found (mkNode l f (TemplateExpression head (mkNodeList ll spans c m))).
Proof.
  intros Hspans s r s' Hr Hv. destruct head as [lh fh []]; try done. cbn in Hr.
  destruct (found_spans _ _ _ _ _ _ _ Hspans Hr Hv) as (rs & t & Hask & Hs & ->).
  exists rs. split; [exact Hask|]. split; [by constructor|]. by split.
Qed.

(** The nodes of the spans are smaller than the template. *)
Lemma visited_spans (spans : list Node) k (P : Node -> Prop) :
  (foldr (fun span k => match span with mkNode _ _ (TemplateSpan e _) => visited e | _ => 0 end + k) 0 spans <= k)%nat ->
  (forall e, visited e <= k -> P e)%nat ->
  Forall (fun span => match span with mkNode _ _ (TemplateSpan e _) => P e | _ => True end) spans.
Proof.
  intros Hk HP. induction spans as [|[l f []] spans IH]; constructor; cbn in Hk; try (apply IH; lia); try done.
  apply HP. lia.
Qed.

Lemma evaluate_found k n : (visited n <= k)%nat -> found n.
Proof.
  revert n. induction k as [|k IH]; intros n Hk; [destruct n; cbn in Hk; lia|].
  destruct (outer_expression outer_kinds n) as [e|] eqn:Ho.
  { intros s r s'. rewrite (evaluate_outer _ _ Ho). intros Hr Hv. pose proof (outer_visited _ _ Ho).
    destruct (IH e ltac:(lia) _ _ _ Hr Hv) as (rs & Hask & Hc & Hf). exists rs.
    rewrite (outer_entities _ _ Ho). split; [done|]. split; [by eapply Constant_outer|done]. }
  destruct (is_entity n) eqn:Hn; [by apply found_entity|].
  destruct n as [l f []]; try (intros s r s' Hr Hv; cbn in Hr, Hn, Ho; rewrite ?Hn in Hr; repeat case_match; try done;
    by eapply value_none).
  - intros s r s' Hr Hv. cbn in Hr. injection Hr as <- <-. exists []. split; [done|].
    destruct (Kind_eqb kind Kind.StringLiteral) eqn:H1.
    { apply Kind_eqb_eq in H1. split; [|done]. apply Constant_string. by left. }
    destruct (Kind_eqb kind Kind.NoSubstitutionTemplateLiteral) eqn:H2.
    { apply Kind_eqb_eq in H2. split; [|done]. apply Constant_string. by right. }
    destruct (Kind_eqb kind Kind.NumericLiteral) eqn:H3; [|done].
    apply Kind_eqb_eq in H3 as ->. split; [|done]. by apply Constant_number, numeral_value.
  - cbn in Hk. apply found_binary; apply IH; lia.
  - cbn in Hk. apply found_unary, IH. lia.
  - destruct spans as [ll spans c m]. cbn in Hk. apply found_template, (visited_spans _ k); [lia|apply IH].
Qed.

(** ** No panic *)

(** Every part of a template is one, as the parser makes them. *)
Definition is_template_part (n : Node) : bool := match data n with TemplatePart _ _ _ _ => true | _ => false end.

Fixpoint templates_ok (n : Node) : bool :=
  match n with
  | mkNode _ _ d =>
      match d with
      | ParenthesizedExpression e | TypeAssertion _ e | AsExpression e _ | SatisfiesExpression e _
      | ExpressionWithTypeArguments e _ | NonNullExpression e | PartiallyEmittedExpression e
      | PrefixUnaryExpression _ e => templates_ok e
      | BinaryExpression l _ r => templates_ok l && templates_ok r
      | TemplateExpression head (mkNodeList _ spans _ _) =>
          is_template_part head
          && forallb (fun span => match span with
                                  | mkNode _ _ (TemplateSpan e literal) => is_template_part literal && templates_ok e
                                  | _ => false
                                  end) spans
      | _ => true
      end
  end.

Definition returns (n : Node) : Prop := forall s, exists r s', evaluate n s = Ok (r, s').

Lemma templates_ok_outer n e : outer_expression outer_kinds n = Some e -> templates_ok n = templates_ok e.
Proof. destruct n as [l f d]. destruct d; cbn; try done; by case_match; intros [= ->]. Qed.

Lemma spans_return spans :
  forallb (fun span => match span with
                       | mkNode _ _ (TemplateSpan e literal) => is_template_part literal && templates_ok e
                       | _ => false
                       end) spans = true ->
  Forall (fun span => match span with mkNode _ _ (TemplateSpan e _) => templates_ok e = true -> returns e | _ => True end)
    spans ->
  forall sb res ext s, exists r s', evaluate_spans evaluate spans sb res ext s = Ok (r, s').
Proof.
  intros Hok Hspans. induction Hspans as [|span spans Hspan _ IH]; intros sb res ext s; [by repeat eexists|].
  destruct span as [l f []]; try done. match type of Hspan with templates_ok ?e = true -> _ => rename e into ex end.
  cbn in Hok. apply andb_true_iff in Hok as [[Hlit He]%andb_true_iff Hok].
  destruct (Hspan He s) as (r1 & s1 & E). cbn. unfold mbind, M_bind. rewrite E.
  destruct literal as [ll lf []]; try done. destruct (value r1); cbn; [by repeat eexists|apply (IH Hok)..].
Qed.

Lemma evaluate_returns k n :
  (forall n s, exists r s', evaluate_entity n location s = Ok (r, s')) ->
  (visited n <= k)%nat -> templates_ok n = true -> returns n.
Proof.
  intros Hentity. revert n. induction k as [|k IH]; intros n Hk Hok; [destruct n; cbn in Hk; lia|].
  destruct (outer_expression outer_kinds n) as [e|] eqn:Ho.
  { intros s. rewrite (evaluate_outer _ _ Ho). pose proof (outer_visited _ _ Ho).
    apply IH; [lia|]. by rewrite <- (templates_ok_outer _ _ Ho). }
  destruct (is_entity n) eqn:Hn; [intros s; rewrite evaluate_entity_at by done; apply Hentity|].
  destruct n as [l f []]; try (intros s; cbn in Hn, Ho |- *; rewrite ?Hn; repeat case_match; try done; by repeat eexists).
  - cbn in Hk, Hok. apply andb_true_iff in Hok as [Hl Hr]. intros s. cbn. unfold mbind, M_bind.
    destruct (IH left ltac:(lia) Hl s) as (r1 & s1 & ->). destruct (IH right ltac:(lia) Hr s1) as (r2 & s2 & ->).
    by repeat eexists.
  - cbn in Hk, Hok. intros s. cbn. unfold mbind, M_bind.
    destruct (IH operand ltac:(lia) Hok s) as (r1 & s1 & ->). by repeat eexists.
  - destruct spans as [ll spans c m], head as [lh fh []]; try done. cbn in Hk, Hok. intros s. cbn.
    apply spans_return; [done|]. apply (visited_spans _ k); [lia|apply IH].
Qed.
End correctness.

(** ** Properties *)


(** C40. The evaluator never panics and its recursion ends on every expression whose templates are made of template parts, as the
    parser makes them, if the callback returns. *)
Theorem evaluate_expression_total `{FloatLib} {S : Type} (evaluate_entity : Node -> Node -> M S Result)
    (kinds : Z) (location n : Node) (s : S) :
  (forall n s, exists r s', evaluate_entity n location s = Ok (r, s')) -> templates_ok n = true ->
  exists r s', evaluate_expression evaluate_entity kinds location n s = Ok (r, s').
Proof. intros Hentity Hok. by apply (evaluate_returns evaluate_entity kinds location (visited n)). Qed.

(** ** A run *)
Module Constants.
Import ExprThm.Sample.

(** A library for integers: it reads and prints their digits, and knows one text in scientific notation. *)
#[local] Instance integers : FloatLib := {|
  parse_f64 s := f64_of_Z <$> from_str_radix 10 (2 ^ 53) s;
  format_f64 x := [];
  format_integer x := int_text (number_int x);
  format_exponential x := bstr "1e0";
  f64_powf x _ := x |}.

#[local] Instance integers_laws : FloatLaws.
Proof.
  split.
  - cbn. intros text x. destruct (from_str_radix 10 (2 ^ 53) text); [|done]. intros [= <-]. apply f64_of_Z_valid.
  - done.
  - intros x z _ Hz _. cbn. by rewrite (is_int_number_int _ _ Hz).
  - intros s m e _. exists (bstr "1"), 0. split; [by constructor|by split].
Qed.

(** [A] is 3, from another file, and any other name 7; the callback notes the name. *)
Definition lookup (n _ : Node) : M (list bytes) Result :=
  let name := match data n with Identifier text => text | _ => [] end in
  modify (fun log => log ++ [name]) ;;
  let a := bool_decide (name = bstr "A") in
  mret (new_result (VNumber (f64_of_Z (if a then 3 else 7))) false a false).

Definition here : Node := new_node 0 OmittedExpression.
Definition constant (source : bytes) : Node := default here (node source).

(** [(A << 2 | 1) + `${-B}px`] *)
Definition sum : Node := constant (bstr "(A << 2 | 1) + `${-B}px`;").

Definition sum_run := evaluate_expression lookup 0 here sum [].

Example sum_value :
  sum_run = Ok (new_result (VString (bstr "13-7px")) true true false, [bstr "A"; bstr "B"]).
Proof. by vm_compute. Qed.

Lemma lookup_valid n location log r log' : lookup n location log = Ok (r, log') -> valid_value (value r).
Proof. unfold lookup. cbn. intros [= <- <-]. apply f64_of_Z_valid. Qed.


Lemma evaluate_expression_total_witness :
  templates_ok sum = true /\ exists r log, evaluate_expression lookup 0 here sum [] = Ok (r, log).
Proof.
  split; [vm_compute; reflexivity|]. apply (evaluate_expression_total lookup 0 here sum []).
  - intros n log. destruct (lookup n here log) as [[r log']| |] eqn:E; [by exists r, log'|discriminate E..].
  - vm_compute. reflexivity.
Defined.
End Constants.
