(* ===== verification/Bfs.v ===== *)
(** * Bfs: breadth-first search (ts-core/src/bfs.rs)

    The levels are ordered maps behind the interface [OrderedDict]. The callbacks are functions of the monad
    [M S], where [S] is the state they share; the set of visited keys, which the caller can pass in and
    keep, is an argument and part of the result. *)
From S2P Require Import Collections Prelude Monad.
From S2P Require Import CollectionsThm.

(** [BreadthFirstSearchResult] *)
Record BreadthFirstSearchResult (N : Type) : Type := mkResult {
  stopped : bool;
  path : list N;
}.
Arguments mkResult {_} _ _.
Arguments stopped {_} _.
Arguments path {_} _.

(** [BreadthFirstSearchJob]; the shared pointers to parents are the parents, which never change. *)
Inductive Job (N : Type) : Type := mkJob (node : N) (parent : option (Job N)).
Arguments mkJob {_} _ _.

Definition node {N} (j : Job N) : N := match j with mkJob n _ => n end.

Fixpoint create_path_job {N} (j : Job N) : list N :=
  match j with mkJob n parent => n :: match parent with Some p => create_path_job p | None => [] end end.
Definition create_path {N} (job : option (Job N)) : list N :=
  match job with Some j => create_path_job j | None => [] end.

(** [SyncSet::add_if_absent]: whether the key was not there, and the set with it. *)
Definition add_if_absent {K} `{Countable K} (key : K) (visited : gset K) : bool * gset K :=
  (bool_decide (key ∉ visited), {[key]} ∪ visited).

Section level.
Context {K N D : Type} `{OrderedDict K (Job N) D} {S : Type}.

(** [BreadthFirstSearchLevel]: what a preprocessing callback can do. *)
Definition level_has (level : D) (key : K) : bool := od_has key level.
Definition level_delete (level : D) (key : K) : D := od_delete key level.

Fixpoint range_jobs (jobs : list (Job N)) (f : N -> M S bool) : M S unit :=
  match jobs with
  | [] => mret tt
  | job :: jobs => continue ← f (node job); if (continue : bool) then range_jobs jobs f else mret tt
  end.
Definition level_range (level : D) (f : N -> M S bool) : M S unit :=
  jobs ← unwrap (od_values level); range_jobs jobs f.
End level.

(** ** The search *)
Section search.
Context {K N D : Type} `{Countable K} `{OrderedDict K (Job N) D} {S : Type}.
Context (neighbors : N -> M S (list N)) (visit : N -> M S (bool * bool)) (get_key : N -> M S K).
Context (preprocess_level : option (D -> M S D)).

(** The children of [j] that have no job in the next level yet. *)
Fixpoint add_children (j : Job N) (children : list N) (next_jobs : D) : M S D :=
  match children with
  | [] => mret next_jobs
  | child :: children =>
      let child := mkJob child (Some j) in
      key ← get_key (node child);
      add_children j children (if od_has key next_jobs then next_jobs else od_set key child next_jobs)
  end.

(** What a level leaves: [inl] the job the search stops at, [inr] the fallback and the next level; with the keys
    visited. *)
Fixpoint visit_jobs (jobs : list (Job N)) (visited : gset K) (fallback : option (Job N)) (next_jobs : D)
    : M S ((Job N + option (Job N) * D) * gset K) :=
  match jobs with
  | [] => mret (inr (fallback, next_jobs), visited)
  | j :: jobs =>
      key ← get_key (node j);
      let '(absent, visited) := add_if_absent key visited in
      if (absent : bool) then
        '(is_result, stop) ← visit (node j);
        if (is_result : bool) && stop then mret (inl j, visited)
        else
          let fallback := if (is_result : bool) then Some (default j fallback) else fallback in
          children ← neighbors (node j);
          next_jobs ← add_children j children next_jobs;
          visit_jobs jobs visited fallback next_jobs
      else visit_jobs jobs visited fallback next_jobs
  end.

(** One iteration of the loop over the levels. *)
Definition search_level (l : D * gset K * option (Job N))
    : M S ((D * gset K * option (Job N)) + BreadthFirstSearchResult N * gset K) :=
  let '(level, visited, fallback) := l in
  if decide (od_size level = 0%nat) then mret (inr (mkResult false (create_path fallback), visited))
  else
    level ← match preprocess_level with Some preprocess => preprocess level | None => mret level end;
    jobs ← unwrap (od_values level);
    '(r, visited) ← visit_jobs jobs visited fallback od_new;
    match r with
    | inl j => mret (inr (mkResult true (create_path (Some j)), visited))
    | inr (fallback, next_jobs) => mret (inl (next_jobs, visited, fallback))
    end.

(** [fuel] bounds the number of levels. *)
Definition breadth_first_search_parallel_ex (fuel : nat) (start : N) (visited : option (gset K))
    : M S (BreadthFirstSearchResult N * gset K) :=
  key ← get_key start;
  iter fuel search_level (od_set key (mkJob start None) od_new, default ∅ visited, None).
End search.

Definition breadth_first_search_parallel {N D S : Type} `{Countable N} `{OrderedDict N (Job N) D}
    (neighbors : N -> M S (list N)) (visit : N -> M S (bool * bool)) (fuel : nat) (start : N)
    : M S (BreadthFirstSearchResult N) :=
  fst <$> breadth_first_search_parallel_ex neighbors visit (fun n => mret n) None fuel start None.

(** * Breadth-first search finds a shortest path

    The graph is what the callbacks say: [adj] the neighbors, [found] the answer of the visitor and [key] the key
    of a node, as long as their state keeps an invariant [I]; the neighbors of a node are asked for after it was visited,
    and may depend on that. Nodes with one key are alike: they get the same answer and have neighbors with the same keys. A
    walk is a path from a node back to the start, over nodes whose keys were not visited before the search. *)

Section search.
Context {K N D : Type} `{Countable K} `{HO : OrderedDict K (Job N) D} `{!OrderedDictLaws K (Job N) D} {S : Type}.
Context (neighbors : N -> M S (list N)) (visit : N -> M S (bool * bool)) (get_key : N -> M S K).
Context (adj : N -> list N) (found : N -> bool * bool) (key : N -> K) (I : S -> Prop).
Hypothesis Hvisit : forall n s, I s -> exists s' s'',
  visit n s = Ok (found n, s') /\ I s' /\ neighbors n s' = Ok (adj n, s'') /\ I s''.
Hypothesis Hkey : forall n s, I s -> exists s', get_key n s = Ok (key n, s') /\ I s'.
Hypothesis Halike : forall n m, key n = key m ->
  found n = found m /\ forall x, x ∈ adj n -> exists y, y ∈ adj m /\ key y = key x.
Context (start : N) (visited0 : gset K).

(** ** Walks *)
Inductive walk : N -> list N -> Prop :=
  | walk_start : key start ∉ visited0 -> walk start []
  | walk_step m p n : walk m p -> n ∈ adj m -> key n ∉ visited0 -> walk n (m :: p).

(** The jobs of the level [d]: nodes with a walk, except that they may have been visited. *)
Definition reached (d : nat) (n : N) (p : list N) : Prop :=
  length p = d /\ match p with [] => n = start | m :: q => walk m q /\ n ∈ adj m end.

Lemma reached_walk d n p : reached d n p -> key n ∉ visited0 -> walk n p.
Proof. intros [_ Hp] Hn. destruct p as [|m p]; [subst; by constructor|]. destruct Hp. by constructor. Qed.

Lemma walk_allowed n p : walk n p -> key n ∉ visited0.
Proof. by destruct 1. Qed.

Definition job_ok (d : nat) (kj : K * Job N) : Prop :=
  kj.1 = key (node kj.2) /\ exists p, create_path_job kj.2 = node kj.2 :: p /\ reached d (node kj.2) p.

(** The nodes at a distance below [d] are visited, and no other. *)
Definition visited_ok (d : nat) (visited : gset K) : Prop :=
  visited0 ⊆ visited
  /\ (forall n p, walk n p -> (length p < d)%nat -> key n ∈ visited)
  /\ (forall k, k ∈ visited -> k ∈ visited0 \/ exists n p, k = key n /\ walk n p /\ (length p < d)%nat).

(** The answer so far, for the nodes visited. *)
Definition fallback_ok (visited : gset K) (fallback : option (Job N)) : Prop :=
  (forall n p, walk n p -> found n = (true, true) -> key n ∉ visited)
  /\ match fallback with
     | None => forall n p, walk n p -> (found n).1 = true -> key n ∉ visited
     | Some j => exists p, create_path_job j = node j :: p /\ walk (node j) p /\ (found (node j)).1 = true
         /\ forall m q, walk m q -> (found m).1 = true -> (length p <= length q)%nat
     end.

(** The level [d] has every node at the distance [d]. *)
Definition level_ok (d : nat) (visited : gset K) (l : list (K * Job N)) : Prop :=
  Forall (job_ok d) l /\ forall n p, walk n p -> length p = d -> key n ∈ visited \/ key n ∈ l.*1.

(** ** Children *)
Lemma assoc_set_new (k : K) (j : Job N) l : k ∉ l.*1 -> assoc_set k j l = l ++ [(k, j)].
Proof.
  induction l as [|[k' j'] l IH]; [done|]. rewrite fmap_cons, not_elem_of_cons. intros [Hk Hl]. cbn.
  rewrite decide_False by done. by rewrite IH.
Qed.

Lemma add_children_ok d j p children next (l : list (K * Job N)) s :
  I s -> od_holds next l -> create_path_job j = node j :: p -> walk (node j) p -> length p = d ->
  (forall n, n ∈ children -> n ∈ adj (node j)) -> Forall (job_ok (Datatypes.S d)) l ->
  exists s' next' l', add_children get_key j children next s = Ok (next', s') /\ I s' /\ od_holds next' l'
    /\ Forall (job_ok (Datatypes.S d)) l' /\ (forall k, k ∈ l.*1 \/ k ∈ key <$> children <-> k ∈ l'.*1).
Proof.
  intros HI Hn Hp Hw Hd Hc Hl. revert next l s HI Hn Hl. induction children as [|c children IH]; intros next l s HI Hn Hl.
  { exists s, next, l. split_and!; [done..|]. set_solver. }
  cbn [add_children]. destruct (Hkey c s HI) as (s1 & Ek & HI1). rewrite (run_bind _ _ _ _ _ Ek). cbn [node].
  rewrite (od_holds_has next l) by done. case_bool_decide as Hin.
  - destruct (IH ltac:(set_solver) next l s1 HI1 Hn Hl) as (s' & next' & l' & E & HI' & Hh & Hl' & Hk).
    exists s', next', l'. split_and!; [done..|]. intros k. rewrite <- Hk, fmap_cons, elem_of_cons. set_solver.
  - assert (Forall (job_ok (Datatypes.S d)) (l ++ [(key c, mkJob c (Some j))])) as Hl1.
    { apply Forall_app. split; [done|]. apply Forall_singleton. split; [done|]. exists (node j :: p). cbn.
      split; [by rewrite Hp|]. split; [by cbn; rewrite Hd|]. split; [done|]. apply Hc. by left. }
    destruct (IH ltac:(set_solver) (od_set (key c) (mkJob c (Some j)) next) (l ++ [(key c, mkJob c (Some j))]) s1)
      as (s' & next' & l' & E & HI' & Hh & Hl' & Hk); [done| |done|].
    { rewrite <- assoc_set_new by done. by apply od_holds_set. }
    exists s', next', l'. split_and!; [done..|]. intros k. rewrite <- Hk, fmap_app, fmap_cons, elem_of_cons. set_solver.
Qed.
(** ** A level *)

(** Within the level [d]: some of its nodes are visited. *)
Definition visited_mid (d : nat) (visited : gset K) : Prop :=
  visited0 ⊆ visited
  /\ (forall n p, walk n p -> (length p < d)%nat -> key n ∈ visited)
  /\ (forall k, k ∈ visited -> k ∈ visited0 \/ exists n p, k = key n /\ walk n p /\ (length p <= d)%nat).

(** The next level has the neighbors of the nodes at distance [d] that are visited. *)
Definition children_ok (d : nat) (visited : gset K) (next : list (K * Job N)) : Prop :=
  forall m p n, walk m p -> length p = d -> (forall m' q, key m' = key m -> walk m' q -> (d <= length q)%nat) ->
    key m ∈ visited -> n ∈ adj m -> key n ∈ next.*1.

(** A result the search stops at. *)
Definition stop_ok (d : nat) (j : Job N) : Prop :=
  exists p, create_path_job j = node j :: p /\ walk (node j) p /\ length p = d /\ found (node j) = (true, true)
    /\ forall m q, walk m q -> found m = (true, true) -> (d <= length q)%nat.

Definition mid_ok (d : nat) (visited : gset K) (fallback : option (Job N)) (next : D) (nl : list (K * Job N)) : Prop :=
  od_holds next nl /\ Forall (job_ok (Datatypes.S d)) nl /\ visited_mid d visited /\ fallback_ok visited fallback
  /\ children_ok d visited nl.

Lemma not_visited_far d visited n p : visited_mid d visited -> walk n p -> key n ∉ visited -> (d <= length p)%nat.
Proof. intros (_ & Hv & _) Hw Hn. destruct (decide (length p < d)%nat); [|lia]. by destruct Hn; eapply Hv. Qed.

(** A node of the level is visited and the search goes on. *)
Lemma fallback_step d visited fallback j p :
  visited_mid d visited -> fallback_ok visited fallback -> create_path_job j = node j :: p -> walk (node j) p ->
  length p = d -> found (node j) <> (true, true) ->
  fallback_ok ({[key (node j)]} ∪ visited) (if (found (node j)).1 then Some (default j fallback) else fallback).
Proof.
  intros Hv [Hs Hf] Hp Hw Hd Hne. split.
  { intros n q Hwn Hn [Hk%elem_of_singleton|Hin]%elem_of_union; [|by eapply Hs].
    apply Halike in Hk as [Hk _]. congruence. }
  destruct fallback as [j0|]; [by destruct (found (node j)).1|].
  destruct (found (node j)).1 eqn:E; cbn [default from_option id].
  - exists p. split_and!; [done..|]. intros m q Hwm Hm. rewrite Hd. eapply not_visited_far; [done..|by eapply Hf].
  - intros n q Hwn Hn [Hk%elem_of_singleton|Hin]%elem_of_union; [|by eapply Hf].
    apply Halike in Hk as [Hk _]. congruence.
Qed.

Lemma visited_mid_step d visited n p :
  visited_mid d visited -> walk n p -> length p = d -> visited_mid d ({[key n]} ∪ visited).
Proof.
  intros (H0 & H1 & H2) Hw Hd. split_and!; [set_solver|set_solver|].
  intros k [->%elem_of_singleton|Hk]%elem_of_union; [|by apply H2]. right. exists n, p. split_and!; [done|done|lia].
Qed.

Lemma visit_jobs_ok d (l : list (K * Job N)) visited fallback next nl s :
  I s -> Forall (job_ok d) l -> mid_ok d visited fallback next nl ->
  exists r visited' s', visit_jobs neighbors visit get_key l.*2 visited fallback next s = Ok ((r, visited'), s') /\ I s'
    /\ match r with
       | inl j => stop_ok d j
       | inr (fallback', next') => exists nl', mid_ok d visited' fallback' next' nl' /\ visited ⊆ visited'
           /\ (forall k, k ∈ l.*1 -> k ∈ visited') /\ (visited' = visited -> nl' = nl)
       end.
Proof.
  intros HI Hl. revert visited fallback next nl s HI.
  induction Hl as [|[k j] l Hj _ IH]; intros visited fallback next nl s HI Hm.
  { exists (inr (fallback, next)), visited, s. split; [done|]. split; [done|]. exists nl. split_and!; [done|done|set_solver|done]. }
  rewrite fmap_cons. cbn [snd visit_jobs]. destruct (Hkey (node j) s HI) as (s1 & Ek & HI1). rewrite (run_bind _ _ _ _ _ Ek).
  destruct Hj as (Hk & p & Hp & Hr). cbn in Hk, Hp, Hr. subst k. unfold add_if_absent.
  pose proof Hm as (Hn & Hnl & Hv & Hf & Hc). case_bool_decide as Hin.
  2: { replace ({[key (node j)]} ∪ visited) with visited by set_solver.
       destruct (IH visited fallback next nl s1 HI1 Hm) as (r & visited' & s' & E & HI' & Hres). exists r, visited', s'.
       do 2 (split; [done|]). destruct r as [j'|[fb next']]; [done|]. destruct Hres as (nl' & Hm' & Hsub & Hks & Heq).
       exists nl'. split_and!; [done|done| |done]. rewrite fmap_cons. intros k [->|Hk']%elem_of_cons; [set_solver|by apply Hks]. }
  assert (walk (node j) p) as Hw by (eapply reached_walk; [done|]; destruct Hv; set_solver).
  pose proof (proj1 Hr) as Hd. destruct (Hvisit (node j) s1 HI1) as (s2 & s3 & Ev & HI2 & En & HI3).
  rewrite (run_bind _ _ _ _ _ Ev).
  destruct (decide (found (node j) = (true, true))) as [Ht|Ht].
  { rewrite Ht. cbn [andb]. eexists _, _, _. do 2 (split; [done|]). exists p. split_and!; [done..|].
    intros m q Hwm Hm'. eapply not_visited_far; [done..|]. by eapply Hf. }
  pose proof (fallback_step d visited fallback j p Hv Hf Hp Hw Hd Ht) as Hf'.
  destruct (found (node j)) as [is_result stop] eqn:Efound. cbn [fst] in Hf'.
  replace (is_result && stop) with false by (by destruct is_result, stop).
  rewrite (run_bind _ _ _ _ _ En).
  destruct (add_children_ok d j p (adj (node j)) next nl s3 HI3 Hn Hp Hw Hd ltac:(done) Hnl)
    as (s4 & next1 & nl1 & E1 & HI4 & Hn1 & Hnl1 & Hk1). rewrite (run_bind _ _ _ _ _ E1).
  destruct (IH ({[key (node j)]} ∪ visited) (if is_result then Some (default j fallback) else fallback) next1 nl1 s4 HI4)
    as (r & visited' & s' & E & HI' & Hres).
  { split_and!; [done|done|by eapply visited_mid_step|done|].
    intros m q n Hwm Hq Hmin [Hmk%elem_of_singleton|Hmv]%elem_of_union Hnm; apply Hk1.
    - right. apply Halike in Hmk as [_ Hmk]. destruct (Hmk n Hnm) as (y & Hy & <-). by apply list_elem_of_fmap_2.
    - left. by eapply Hc. }
  exists r, visited', s'. split; [exact E|]. split; [done|]. destruct r as [j'|[fb next']]; [done|].
  destruct Hres as (nl' & Hm' & Hsub & Hks & Heq). exists nl'. split_and!; [done|set_solver| |].
  - rewrite fmap_cons. intros k [->|Hk']%elem_of_cons; [set_solver|by apply Hks].
  - intros ->. set_solver.
Qed.

(** ** The levels *)
Definition search_ok (l : D * gset K * option (Job N)) : Prop :=
  let '(level, visited, fallback) := l in
  exists d ll, od_holds level ll /\ level_ok d visited ll /\ visited_ok d visited /\ fallback_ok visited fallback.

Lemma level_done d visited ll :
  level_ok d visited ll -> visited_ok d visited -> ll = [] -> forall n p, walk n p -> key n ∈ visited.
Proof.
  intros [_ Hl] (H0 & H1 & H2) -> n p Hw. induction Hw as [Hs|m p n Hw IH Hn Ha].
  - destruct d as [|d]; [|apply (H1 start []); [by constructor|cbn; lia]].
    destruct (Hl start []) as [?|?]; [by constructor|done|done|]. set_solver.
  - destruct (H2 _ IH) as [Hm|(m' & p' & Hk & Hw' & Hd)]; [by apply walk_allowed in Hw|].
    apply Halike in Hk as [_ Hk]. destruct (Hk n Hn) as (n' & Hn' & Hkn). rewrite <- Hkn in *.
    assert (walk n' (m' :: p')) as Hwn by by constructor.
    destruct (decide (Datatypes.S (length p') < d)%nat) as [Hlt|Hge]; [by apply (H1 n' (m' :: p'))|].
    destruct (Hl n' (m' :: p') Hwn) as [?|Hx]; [cbn; lia|done|]. by apply elem_of_nil in Hx.
Qed.
(** The next level. *)
Lemma next_level_ok d visited ll visited' fallback' next nl :
  level_ok d visited ll -> visited_ok d visited ->
  mid_ok d visited' fallback' next nl -> visited ⊆ visited' -> (forall k, k ∈ ll.*1 -> k ∈ visited') ->
  search_ok (next, visited', fallback').
Proof using All.
  intros [Hj Hl] (H0 & H1 & H2) (Hn & Hnl & (M0 & M1 & M2) & Hf & Hc) Hsub Hks.
  assert (forall n p, walk n p -> (length p <= d)%nat -> key n ∈ visited') as Hle.
  { intros n p Hw Hp. destruct (decide (length p < d)%nat); [by eapply M1|].
    destruct (Hl n p Hw) as [?|?]; [lia|set_solver|by apply Hks]. }
  exists (Datatypes.S d), nl. split; [done|]. split; [|split; [|done]].
  - split; [done|]. intros n p Hw Hp. destruct Hw as [|m q n Hw Hnm Ha]; [done|]. cbn in Hp.
    destruct (decide (key m ∈ visited)) as [Hv|Hv].
    + left. destruct (H2 _ Hv) as [Hm|(m' & q' & Hk & Hw' & Hd)]; [by apply walk_allowed in Hw|].
      apply Halike in Hk as [_ Hk]. destruct (Hk n Hnm) as (n' & Hn' & Hkn). rewrite <- Hkn in *.
      apply (Hle n' (m' :: q')); [by constructor|cbn; lia].
    + right. apply (Hc m q n Hw); [lia| |..].
      * intros m' q' Hk Hw'. destruct (decide (length q' < d)%nat); [|lia]. destruct Hv. rewrite <- Hk. by eapply H1.
      * apply (Hle m q); [done|lia].
      * done.
  - split_and!; [done| |].
    + intros n p Hw Hp. apply (Hle n p); [done|lia].
    + intros k Hk. destruct (M2 k Hk) as [?|(n & p & ? & ? & ?)]; [by left|]. right. exists n, p. split_and!; [done..|lia].
Qed.

(** What the search returns. *)
Definition result_ok (res : BreadthFirstSearchResult N) : Prop :=
  if stopped res then
    exists n p, path res = n :: p /\ walk n p /\ found n = (true, true)
      /\ forall m q, walk m q -> found m = (true, true) -> (length p <= length q)%nat
  else
    (forall n p, walk n p -> found n <> (true, true))
    /\ match path res with
       | [] => forall n p, walk n p -> (found n).1 = false
       | n :: p => walk n p /\ (found n).1 = true
           /\ forall m q, walk m q -> (found m).1 = true -> (length p <= length q)%nat
       end.

Definition visited_after (res : BreadthFirstSearchResult N) (visited : gset K) : Prop :=
  stopped res = false -> forall k, k ∈ visited <-> k ∈ visited0 \/ exists n p, k = key n /\ walk n p.

Lemma exhausted_ok level visited fallback ll d :
  od_holds level ll -> level_ok d visited ll -> visited_ok d visited -> fallback_ok visited fallback ->
  od_size level = 0%nat ->
  result_ok (mkResult false (create_path fallback)) /\ visited_after (mkResult false (create_path fallback)) visited.
Proof using All.
  intros Hh Hl Hv [Hs Hf] H0. rewrite (od_holds_size _ _ Hh) in H0. apply nil_length_inv in H0.
  pose proof (level_done d visited ll Hl Hv H0) as Hall. split.
  - split; cbn [stopped path].
    + intros n p Hw Hn. by apply (Hs n p Hw Hn), (Hall n p).
    + destruct fallback as [j|]; cbn [create_path].
      * destruct Hf as (p & -> & Hw & Hj & Hmin). done.
      * intros n p Hw. destruct (found n).1 eqn:E; [|done]. exfalso. by apply (Hf n p Hw E), (Hall n p).
  - intros _ k. split.
    + intros Hk. destruct Hv as (_ & _ & H2). destruct (H2 k Hk) as [?|(n & p & ? & ? & ?)]; [by left|]. right. by exists n, p.
    + intros [Hk|(n & p & -> & Hw)]; [by apply Hv|by eapply Hall].
Qed.

(** ** Termination *)
Context (U : gset K).
Hypothesis HU : forall n p, walk n p -> key n ∈ U.

Definition measure (l : D * gset K * option (Job N)) : nat :=
  let '(level, visited, _) := l in (size (U ∖ visited) + (if decide (od_size level = 0%nat) then 0 else 1))%nat.

Lemma visited_grows d visited visited' :
  visited0 ⊆ visited -> visited ⊆ visited' -> visited_mid d visited' -> visited' <> visited ->
  (size (U ∖ visited') < size (U ∖ visited))%nat.
Proof using All.
  intros H0 Hsub (_ & _ & H2) Hne.
  assert (exists k, k ∈ visited' /\ k ∉ visited) as (k & Hk & Hk').
  { destruct (decide (visited' ∖ visited = ∅)) as [He|He].
    - destruct Hne. apply (anti_symm (⊆)); [|done]. intros k Hk.
      destruct (decide (k ∈ visited)); [done|]. exfalso. apply (not_elem_of_empty (C := gset K) k). rewrite <- He.
      by apply elem_of_difference.
    - apply set_choose_L in He as [k [Hk Hk']%elem_of_difference]. by exists k. }
  destruct (H2 k Hk) as [Hk0|(n & p & -> & Hw & _)]; [by destruct Hk'; apply H0|]. apply HU in Hw.
  apply subset_size. split.
  - intros x [Hx Hx']%elem_of_difference. apply elem_of_difference. split; [done|]. intros Hv. by apply Hx', Hsub.
  - intros Hs. assert (key n ∈ U ∖ visited) as Hd by by apply elem_of_difference.
    by apply Hs, elem_of_difference in Hd as [_ ?].
Qed.

Lemma search_level_ok l s :
  search_ok l -> I s ->
  wp (search_level neighbors visit get_key None l) (fun r s' =>
    I s' /\ match r with
    | inl l' => search_ok l' /\ (measure l' < measure l)%nat
    | inr (res, visited) => result_ok res /\ visited_after res visited
    end) s.
Proof using All.
  destruct l as [[level visited] fallback]. intros (d & ll & Hh & Hl & Hv & Hf) HI. unfold search_level. cbn [measure].
  destruct (decide (od_size level = 0%nat)) as [H0|H0]; [apply wp_ret; split; [done|by eapply exhausted_ok]|].
  apply wp_bind, wp_ret, wp_bind, wp_unwrap. exists ll.*2. split; [by apply od_holds_values|]. apply wp_bind.
  destruct (visit_jobs_ok d ll visited fallback od_new [] s HI) as (r & visited' & s' & E & HI' & Hr); [apply Hl| |].
  { split_and!; [apply od_holds_new|constructor| |done|].
    - destruct Hv as (V0 & V1 & V2). split_and!; [done|done|]. intros k Hk.
      destruct (V2 k Hk) as [?|(n & p & ? & ? & ?)]; [by left|]. right. exists n, p. split_and!; [done..|lia].
    - intros m p n Hw Hp Hmin Hm. destruct Hv as (V0 & V1 & V2).
      destruct (V2 _ Hm) as [Hm0|(m' & q & Hk & Hw' & Hd)]; [by apply walk_allowed in Hw|].
      specialize (Hmin m' q (eq_sym Hk) Hw'). lia. }
  unfold wp at 1. rewrite E. destruct r as [j|[fallback' next]].
  - apply wp_ret. split; [done|]. destruct Hr as (p & Hp & Hw & Hd & Hfound & Hmin). split; [|done]. exists (node j), p.
    split_and!; [done..|]. intros m q Hwm Hm. rewrite Hd. by eapply Hmin.
  - apply wp_ret. split; [done|]. destruct Hr as (nl & Hm & Hsub & Hks & Heq). split; [by eapply next_level_ok|].
    destruct (decide (visited' = visited)) as [Hvv|Hvv].
    + subst visited'. rewrite (Heq eq_refl) in Hm. unfold measure. rewrite (od_holds_size next []) by apply Hm.
      cbn [length]. destruct (decide (0%nat = 0%nat)); [lia|done].
    + assert (size (U ∖ visited') < size (U ∖ visited))%nat; [|unfold measure; destruct (decide _); lia].
      eapply visited_grows; [apply Hv|done|apply Hm|done].
Qed.

(** C16. Breadth-first search without a preprocessing callback ends and returns a shortest path. The callbacks may have
    effects, but their answers are those of a graph in all states of an invariant they keep, the neighbors once the node was
    visited, and nodes with one key are alike; the unvisited nodes that can be reached have finitely many keys. Then the
    search ends within one level more than keys; it stops exactly when some node that can be reached asks it to, with a
    shortest path back from such a node, and otherwise returns a shortest path from a node that is a result, or an empty
    path when there is none, having visited exactly the keys of the nodes that can be reached. *)
Theorem breadth_first_search_shortest fuel s :
  (size U + 1 < fuel)%nat -> I s ->
  exists res visited s',
    breadth_first_search_parallel_ex neighbors visit get_key None fuel start (Some visited0) s = Ok ((res, visited), s')
    /\ result_ok res /\ visited_after res visited.
Proof using All.
  intros Hfuel HI. unfold breadth_first_search_parallel_ex. destruct (Hkey start s HI) as (s1 & Ek & HI1).
  rewrite (run_bind _ _ _ _ _ Ek).
  assert (wp (iter fuel (search_level neighbors visit get_key None)
    (od_set (key start) (mkJob start None) od_new, default ∅ (Some visited0), None))
    (fun r _ => result_ok r.1 /\ visited_after r.1 r.2) s1) as Hw.
  { apply (wp_iter _ (fun l s => search_ok l /\ I s) (fun l _ => measure l)).
    - intros l s2 [Hl HI2]. eapply wp_mono; [by apply search_level_ok|].
      intros [l'|[res visited]] s3 [HI3 Hr]; [|done]. by destruct Hr.
    - split; [|done]. exists 0%nat, [(key start, mkJob start None)]. split; [|split; [split|split]].
      + apply (od_holds_set od_new [] (key start)), od_holds_new.
      + apply Forall_singleton. split; [done|]. by exists [].
      + intros n p Hwn Hp. right. destruct p; [|done]. inversion Hwn; subst. by left.
      + split_and!; [done|cbn; lia|by left].
      + split; intros n p Hwn%walk_allowed; done.
    - cbn [measure default from_option id]. assert (size (U ∖ visited0) <= size U)%nat by (apply subseteq_size; set_solver).
      destruct (decide _); lia. }
  apply wp_run in Hw as ([res visited] & s' & E & Hr). by exists res, visited, s'.
Qed.
End search.

(** Nodes are numbers with the number of steps to them, which is not part of the key; the visitor loads a node into the
    state, and a node has neighbors once it is loaded. *)
Definition diamond (n : Z) : list Z := if n =? 1 then [2; 3; 4] else if n =? 2 then [5] else if n =? 3 then [5; 6] else [].
Definition next_of (n : Z * nat) : list (Z * nat) := map (fun m => (m, Datatypes.S n.2)) (diamond n.1).
Definition sought (n : Z * nat) : bool * bool := (4 <? n.1, n.1 =? 6).
Definition load (n : Z * nat) : M (gset Z) (bool * bool) := modify (fun loaded => {[n.1]} ∪ loaded) ;; mret (sought n).
Definition loaded_neighbors (n : Z * nat) : M (gset Z) (list (Z * nat)) :=
  loaded ← get; mret (if decide (n.1 ∈ loaded) then next_of n else []).

Lemma load_neighbors (n : Z * nat) s : True -> exists s' s'',
  load n s = Ok (sought n, s') /\ True /\ loaded_neighbors n s' = Ok (next_of n, s'') /\ True.
Proof.
  intros _. exists ({[n.1]} ∪ s), ({[n.1]} ∪ s). split; [done|]. split; [done|]. split; [|done].
  unfold loaded_neighbors, mbind, M_bind, get. by rewrite decide_True by set_solver.
Qed.

Lemma alike_nodes (n m : Z * nat) : n.1 = m.1 ->
  sought n = sought m /\ forall x, x ∈ next_of n -> exists y, y ∈ next_of m /\ y.1 = x.1.
Proof.
  destruct n as [a i], m as [b j]. cbn. intros ->. split; [done|]. intros [c k] [d [[= -> ->] Hd]]%list_elem_of_fmap.
  exists (d, Datatypes.S j). split; [|done]. apply list_elem_of_fmap. by exists d.
Qed.

Lemma breadth_first_search_shortest_witness :
  let search := breadth_first_search_parallel_ex (D := OrderedMap.OrderedMap Z (Job (Z * nat))) (S := gset Z)
    loaded_neighbors load (fun n => mret n.1) None 9 (1, 0%nat) (Some ∅) ∅ in
  search = Ok ((mkResult true [(6, 2%nat); (3, 1%nat); (1, 0%nat)], {[1; 2; 3; 4; 5; 6]}), {[1; 2; 3; 4; 5; 6]})
  /\ exists res visited s', search = Ok ((res, visited), s')
     /\ result_ok next_of sought fst (1, 0%nat) ∅ res /\ visited_after next_of fst (1, 0%nat) ∅ res visited.
Proof.
  split; [vm_compute; reflexivity|].
  apply (breadth_first_search_shortest (K := Z) (D := OrderedMap.OrderedMap Z (Job (Z * nat))) loaded_neighbors
    load (fun n => mret n.1) next_of sought fst (fun _ => True) load_neighbors
    (fun n s _ => ex_intro _ s (conj eq_refl Logic.I)) alike_nodes
    (1, 0%nat) ∅ (list_to_set [1; 2; 3; 4; 5; 6])).
  - intros n p Hw. apply elem_of_list_to_set. induction Hw as [|m p n Hw IH Hn _]; [by left|].
    apply list_elem_of_fmap in Hn as [c [-> Hn]]. cbn [fst].
    unfold diamond in Hn. repeat (rewrite ?list_elem_of_cons, ?elem_of_nil in *).
    destruct (m.1 =? 1); [set_solver|]. destruct (m.1 =? 2); [set_solver|]. destruct (m.1 =? 3); set_solver.
  - vm_compute. lia.
  - exact Logic.I.
Defined.
